(* ===== verification/_CoqProject ===== *)
-Q . S2P
Prelude.v
RefList.v
RefSort.v
RefDict.v
Rows.v
Chains.v
Effect.v
RefAdj.v
RefDbl.v
Bytes.v
RefMatrix.v
RefMpi.v
RefNode.v
RefAgents.v
RefGlobals.v
RefGlobalsSpec.v
RefGlobalsRun.v
RefCellType.v
RefCell.v
RefGeom.v
RefGeomSpec.v
RefCellSpec.v
RefCellQuery.v
RefCellNode.v
RefGrid.v
RefMeasure.v
RefCavity.v
RefCavityTable.v
RefCavityReplace.v
RefCavityForm.v
RefCavitySwap.v
RowList.v
ElementLoops.v
RefCellPack.v
RefGeomPack.v
RefEdge.v
RefFace.v
RefUgrid.v
RefUgridSpec.v
RefUgridImport.v
RefEdgeOrder.v
EdgeCells.v
RefSplit.v
RefCollapse.v
RefSwap.v
