(* ===== verification/Prelude.v ===== *)
(** * refine: mesh adaptation

    A model of the core of refine, version 3 (the C files src/src/ref_*.c), with
    the theorems that make it correct. The mesh is a set of tetrahedra and
    triangles over numbered vertices; adaptation removes and adds elements around
    an edge or a vertex. The development follows that structure from the
    containers up to the operators that change the mesh.

    ** How the model reads

    A C function is a definition of the same name. It takes the structures it
    reads, and returns [option] of its status and of everything it writes:
    - [None] is undefined behaviour (an access outside an array, a signed
      overflow at the width of [REF_INT] or [REF_GLOB]) or a loop that used up its
      fuel. Theorems that say [= Some ...] or [wp ...] exclude both.
    - [REF_STATUS] is the value returned. [RSS], [RAS], [REIS] and the like are the
      early-return macros of ref_defs.h; the messages they print are left out.
    - A C structure is a [Record] with the names of its members; an array is a
      [list], read by [aget] and written by [aset], which fail out of range.
      Memory that is allocated and not yet written holds what the [Junk] instance
      says, an arbitrary value. An allocation is assumed to succeed.
    - [REF_DBL] is a type [D] with the operations of [Dbl]: theorems that do not
      depend on rounding hold for every instance, [binary64] of RefDbl.v computes as
      the program does, exact arithmetic gives the meaning of the formulas.
    - Loops are [for_up], [for_down], [fill] and [while] of this file, the
      [each_...] macros are loops over the same condition. Code on structures
      that several functions share is written in the state monad of Effect.v.

    ** The files

    - Prelude.v: status, arrays, loops, [wp] with its tactic, facts on lists.
      Rows.v: records of fixed width in one array with a list of unused rows, the
      layout of cells, associations and cavity tables. Chains.v: sums of
      alternating functions over oriented faces. Effect.v: functions that update a
      state and may return early, with the rules [fwp].
    - RefList.v, RefSort.v, RefDict.v, RefAdj.v (ref_list.c, ref_sort.c,
      ref_dict.c, ref_adj.c): the containers. The whole interface of each is shown
      to act on a sequence, a finite map, or a map from nodes to lists; the sorts
      return ordered permutations, the searches find.
    - RefDbl.v, RefMatrix.v (ref_matrix.c, ref_math.h): dense linear algebra and
      metric tensors: inversion and solution in exact arithmetic, and where the
      routines fail.
    - RefMpi.v, RefNode.v (ref_mpi.h, ref_node.c): the vertices of a process. Any
      sequence of insertions and removals acts on a finite map from global to
      local index; bulk insertion, packing and the two compactions. RefGlobals.v,
      RefGlobalsSpec.v, RefGlobalsRun.v (ref_node.c, ref_mpi.c): the collective
      renumbering, as a function of the vertices of all processes.
    - RefCellType.v, RefCell.v, RefCellSpec.v, RefCellQuery.v, RefCellNode.v
      (ref_cell.c): the tables of the element types, the elements of one type as a
      finite map from element to nodes, the questions on adjacency answered from
      that map.
    - RefGeom.v, RefGeomSpec.v (ref_geom.c): the associations with the geometry as
      a finite map. RefGrid.v (ref_grid.c): the grid that holds all of these.
    - RefCellPack.v, RefGeomPack.v (ref_cell.c, ref_geom.c): packing, which moves the
      elements and the associations to the front with the new numbers of their nodes.
    - RefAgents.v (ref_agents.c): the searches under way in the donor mesh of an
      interpolation, a doubly linked list that acts as a stack.
    - RefMeasure.v (ref_node.c): volumes.
    - RefCavity.v, RefCavityTable.v, RefCavityReplace.v, RefCavityForm.v,
      RefCavitySwap.v (ref_cavity.c, ref_swap.c): the cavity operator. [replace] never
      leaves defined behaviour and changes the boundary of the mesh by the surplus
      of the cavity; the cavities formed for a vertex or a swapped edge have none.
    - EdgeCells.v, RefSplit.v, RefCollapse.v (ref_split.c, ref_collapse.c): the
      elements of an edge are split in two or removed with the edge, and a
      conforming mesh stays conforming. RefSwap.v (ref_swap.c): the exchange of the
      edge of two triangles of a surface.
    - RowList.v, ElementLoops.v, RefEdge.v, RefEdgeOrder.v, RefFace.v (ref_edge.c,
      ref_face.c): the lists of the edges and of the faces of a grid, each once, and
      the reverse Cuthill-McKee ordering of its vertices. RowList.v is what the two
      lists share, ElementLoops.v the loops over all elements of a grid.
    - Bytes.v, RefUgrid.v, RefUgridSpec.v, RefUgridImport.v (ref_endian.h,
      ref_export.c, ref_import.c): binary UGRID files, a list of bytes. [UGRID] is
      what such a file says; the export writes the file of the contents of a grid,
      the import makes a grid of the contents of a file, and the round trip is the
      composition.
    A file that only has definitions and those that prove about them are layered
    as the calls are: the operations of cells are proved against the map of
    references that [ref_adj_refines] promises, the cavity against the maps that
    cells and nodes promise ([grid_ok]).

    ** The groups of theorems

    - Refinement: [ref_list_refines], [ref_dict_refines_gmap], [ref_adj_refines],
      [ref_node_refines], [ref_cell_refines], [ref_geom_refines],
      [ref_agents_refines]: every sequence of calls on a fresh structure returns the
      statuses and the values of the abstract container. Each keeps an invariant
      ([node_wf], [cell_wf], ...).
    - Conformity of the mesh: for every alternating function of three vertices the
      sum over the faces of the tetrahedra is the sum over the triangles
      ([conforming]). It says that each face is shared by two tetrahedra or covered
      by one triangle, with orientation, and is what the operators of adaptation
      must keep.
    - Function: sorting, searching, numbering, packing, linear algebra, shape
      functions, the answers of the queries.
    - Termination: [ref_edge_rcm_numbers]; every other loop has its fuel from the
      size of what it walks, and [wp] excludes that it runs out.
    - Parallel runs: [ref_node_synchronize_globals_agree]. The collective calls of MPI
      are parameters ([MPI]) with what the standard says of them ([MPILaws]); a call
      that some processes do not reach has no result.
    - Round trip: [ugrid_round_trip] for each of the four binary UGRID formats, with
      the coordinates kept to the bit ([DblBytes], whose instance is the format
      binary64 of IEEE 754).
    - Errors and bounds: inputs on which the code reads or writes out of bounds,
      overflows or returns a wrong value. [ref_sort_search_overflow],
      [ref_matrix_diag_m_overflow] and [ref_edge_rcm_isolated_overrun] hold for whole
      classes of inputs and name the turn of the loop that is undefined ([steps],
      [turns]) and the access or sum that makes it so; the others, which are not
      properties of their own, are computations.

    ** Bounds

    Sequences of calls are bounded so that the arrays stay within what their
    growth policy can index: [node_budget] 20,000,000 insertions of vertices,
    [cell_budget] 10,000,000 of elements, [geom_budget] 50,000,000 of associations,
    [agents_budget] 800,000,000 calls on agents,
    [table_budget] 1,000,000 rows of a cavity. [GROW_LIMIT] (29,000,000) and
    [GEOM_LIMIT] (143,000,000) are the largest sizes from which an array can grow
    once more without an overflow of its index arithmetic; [EDGE_LIMIT]
    (400,000,000) and [FACE_LIMIT] (200,000,000) bound the sides and the faces of all
    elements of a grid. Files are those of a little-endian machine with 32-bit [int]
    and 64-bit [long]; face ids stay below [REF_INT_MAX], at which the loop of the
    export overflows. Writing to a file that could be opened succeeds. The loops of
    [ref_edge_rcm] have fuel for one pass more than there are vertices. Fuel is the size of
    the structure walked: the number of items for a chain of references, the length
    for a bisection. [ref_cavity_enlarge_visible] has fuel as an argument, since
    the loop of the code has no bound of its own. The index arithmetic of
    RefMatrix.v, on arrays of at most a few entries, is not checked for width.

    ** Not modelled

    Printing and the file formats other than binary UGRID; the collective operations
    other than the renumbering (the model of everything else is one process, which
    may hold ghost elements); evaluation on the geometry by a CAD kernel and
    everything that minimises or compares floating-point qualities (metric
    construction, smoothing, the choice of the edges to change); partitioning;
    interpolation between grids except its list of agents, subdivision and the other
    applications on top of the grid; the command lines; the earlier implementation
    under src/one. *)
From stdpp Require Import prelude list sorting gmap.
From Stdlib Require Import ZArith Lia.

Declare Scope ref_scope.
Delimit Scope ref_scope with ref.
Open Scope Z_scope.
Open Scope ref_scope.

(** ** Status codes and constants (ref_defs.h) *)

(** The values a function of type [REF_STATUS] returns. *)
Inductive REF_STATUS :=
  | REF_SUCCESS
  | REF_FAILURE
  | REF_NULL
  | REF_INVALID
  | REF_DIV_ZERO
  | REF_NOT_FOUND
  | REF_IMPLEMENT
  | REF_INCREASE_LIMIT
  | REF_ILL_CONDITIONED.

#[global] Instance REF_STATUS_eq_dec : EqDecision REF_STATUS.
Proof. solve_decision. Defined.

Definition REF_EMPTY : Z := -1.
Definition REF_INT_MAX : Z := 2147483647.
Definition REF_INT_MIN : Z := -2147483648.
Definition REF_LONG_MAX : Z := 9223372036854775807.
Definition REF_LONG_MIN : Z := -9223372036854775808.

(** ** Defined behaviour

    A C expression whose evaluation is undefined (an access outside an
    array, a signed overflow) or a loop that does not end within its fuel is
    [None]; everything else is [Some]. *)

Definition obind {A B : Type} (m : option A) (k : A -> option B) : option B :=
  match m with
  | Some a => k a
  | None => None
  end.

Notation "'let*' x := m 'in' k" := (obind m (fun x => k))
  (at level 10, x name, m at level 100, k at level 200) : ref_scope.
Notation "'let*' ' p := m 'in' k" := (obind m (fun p => k))
  (at level 10, p strict pattern, m at level 100, k at level 200) : ref_scope.

(** Signed arithmetic at the widths of [REF_INT] and [REF_GLOB]: a result out
    of range is undefined behaviour. *)
Definition ck_int (z : Z) : option Z :=
  if (REF_INT_MIN <=? z) && (z <=? REF_INT_MAX) then Some z else None.
Definition ck_glob (z : Z) : option Z :=
  if (REF_LONG_MIN <=? z) && (z <=? REF_LONG_MAX) then Some z else None.

(** ** The early-return macros of ref_defs.h

    [s] is what the function has produced (outputs and state) when the macro
    returns. *)
Definition RSS {T : Type} (st : REF_STATUS) (s : T)
    (k : option (REF_STATUS * T)) : option (REF_STATUS * T) :=
  match st with
  | REF_SUCCESS => k
  | _ => Some (st, s)
  end.

Definition RXS {T : Type} (st allowed_exception : REF_STATUS) (s : T)
    (k : option (REF_STATUS * T)) : option (REF_STATUS * T) :=
  if bool_decide (st = REF_SUCCESS \/ st = allowed_exception) then k
  else Some (st, s).

Definition RAS {T : Type} (a : bool) (s : T)
    (k : option (REF_STATUS * T)) : option (REF_STATUS * T) :=
  if a then k else Some (REF_FAILURE, s).

(** ** Arrays

    An allocated block is the list of its elements. [Junk] gives the
    indeterminate contents of freshly allocated elements; every theorem holds
    for every instance of it. *)
Class Junk (A : Type) := junk : nat -> A.

Definition zlen {A : Type} (a : list A) : Z := Z.of_nat (length a).

Definition aget {A : Type} (a : list A) (i : Z) : option A :=
  if i <? 0 then None else a !! Z.to_nat i.

Definition upd {A : Type} (a : list A) (i : Z) (v : A) : list A :=
  <[Z.to_nat i := v]> a.

Definition aset {A : Type} (a : list A) (i : Z) (v : A) : option (list A) :=
  if (0 <=? i) && (i <? zlen a) then Some (upd a i v) else None.

Definition alloc {A : Type} `{Junk A} (n : Z) : list A :=
  map junk (seq 0 (Z.to_nat n)).

(** [ref_malloc]: a negative request is refused with [REF_FAILURE]. *)
Definition ref_malloc {A : Type} `{Junk A} (n : Z) : REF_STATUS * list A :=
  if n <? 0 then (REF_FAILURE, []) else (REF_SUCCESS, alloc n).

(** [ref_realloc]: the common prefix is kept, the rest is indeterminate; a
    request that is not positive leaves the block alone. *)
Definition ref_realloc {A : Type} `{Junk A} (a : list A) (n : Z) : list A :=
  if 0 <? n then
    take (Z.to_nat n) a ++ map junk (seq (length a) (Z.to_nat n - length a))
  else a.

Definition ztake {A : Type} (n : Z) (a : list A) : list A := take (Z.to_nat n) a.

(** Total read, for statements: the element, or the inhabitant outside. *)
Definition aat {A : Type} `{Inhabited A} (a : list A) (i : Z) : A :=
  default inhabitant (aget a i).

Notation "a .[ i ]" := (aat a i) (at level 1, format "a .[ i ]") : ref_scope.

(** ** Loops *)

(** What a loop body does: go on with a new state, or leave the loop. *)
Inductive ctl (T R : Type) :=
  | Next (s : T)
  | Exit (r : R).
Arguments Next {T R} s.
Arguments Exit {T R} r.

Fixpoint for_nat {T : Type} (k : nat) (i : Z) (body : Z -> T -> option T) (s : T)
    : option T :=
  match k with
  | O => Some s
  | S k => let* s := body i s in for_nat k (i + 1) body s
  end.

(** [for (i = lo; i < hi; i++) s = body i s] *)
Definition for_up {T : Type} (lo hi : Z) (body : Z -> T -> option T) (s : T)
    : option T := for_nat (Z.to_nat (hi - lo)) lo body s.

(** [for (i = hi; i > lo; i--) s = body i s] *)
Definition for_down {T : Type} (hi lo : Z) (body : Z -> T -> option T) (s : T)
    : option T := for_up 0 (hi - lo) (fun j => body (hi - j)) s.

Fixpoint forx_nat {T R : Type} (k : nat) (i : Z)
    (body : Z -> T -> option (ctl T R)) (s : T) : option (ctl T R) :=
  match k with
  | O => Some (Next s)
  | S k =>
      let* c := body i s in
      match c with
      | Next s => forx_nat k (i + 1) body s
      | Exit r => Some (Exit r)
      end
  end.

(** The same loops with [break] or [return] in the body. *)
Definition forx_up {T R : Type} (lo hi : Z)
    (body : Z -> T -> option (ctl T R)) (s : T) : option (ctl T R) :=
  forx_nat (Z.to_nat (hi - lo)) lo body s.
Definition forx_down {T R : Type} (hi lo : Z)
    (body : Z -> T -> option (ctl T R)) (s : T) : option (ctl T R) :=
  forx_up 0 (hi - lo) (fun j => body (hi - j)) s.

(** A loop without an index: [fuel] bounds the number of iterations. *)
Fixpoint loop {T R : Type} (fuel : nat) (body : T -> option (ctl T R)) (s : T)
    : option R :=
  match fuel with
  | O => None
  | S fuel =>
      let* c := body s in
      match c with
      | Next s => loop fuel body s
      | Exit r => Some r
      end
  end.

#[global] Arguments aget : simpl never.
#[global] Arguments aset : simpl never.
#[global] Arguments upd : simpl never.
#[global] Arguments aat : simpl never.
#[global] Arguments zlen : simpl never.
#[global] Arguments ztake : simpl never.
#[global] Arguments alloc : simpl never.
#[global] Arguments ref_realloc : simpl never.
#[global] Arguments ck_int : simpl never.
#[global] Arguments ck_glob : simpl never.
#[global] Arguments for_up : simpl never.
#[global] Arguments for_down : simpl never.
#[global] Arguments forx_up : simpl never.
#[global] Arguments forx_down : simpl never.
#[global] Arguments loop : simpl never.

(** ** Total correctness

    [wp m Q]: [m] is defined and its value satisfies [Q]. *)
Definition wp {A : Type} (m : option A) (Q : A -> Prop) : Prop :=
  exists a, m = Some a /\ Q a.

Section wp.
Context {A B : Type}.
Implicit Types (Q : A -> Prop).

Lemma wp_ret Q (a : A) : Q a -> wp (Some a) Q.
Proof. by exists a. Qed.

Lemma wp_ret_inv Q (a : A) : wp (Some a) Q -> Q a.
Proof. by intros (? & [= <-] & ?). Qed.

Lemma wp_bind Q (m : option B) (k : B -> option A) :
  wp m (fun b => wp (k b) Q) -> wp (let* x := m in k x) Q.
Proof. intros (b & -> & H). exact H. Qed.

Lemma wp_mono (P Q : A -> Prop) (m : option A) :
  wp m P -> (forall a, P a -> Q a) -> wp m Q.
Proof. intros (a & -> & Ha) HPQ. exists a. auto. Qed.

Lemma wp_some Q (m : option A) a : m = Some a -> Q a -> wp m Q.
Proof. intros -> ?. by apply wp_ret. Qed.

Lemma wp_and (P Q : A -> Prop) (m : option A) :
  wp m P -> wp m Q -> wp m (fun a => P a /\ Q a).
Proof. intros (a & -> & Ha) HQ%wp_ret_inv. exists a. auto. Qed.

Lemma wp_is_Some Q (m : option A) : wp m Q -> is_Some m.
Proof. intros (a & -> & _). eauto. Qed.

(** A property that only restates what the value is. *)
Lemma wp_eq (m : option A) a : wp m (fun x => x = a) <-> m = Some a.
Proof. split; [by intros (? & ? & ->)|]. intros ->. by apply wp_ret. Qed.
End wp.

Lemma eq_bool_decide (b : bool) (P : Prop) `{!Decision P} :
  (b = true <-> P) -> b = bool_decide P.
Proof.
  intros Hb. destruct b; symmetry.
  - apply bool_decide_eq_true_2. tauto.
  - apply bool_decide_eq_false_2. intros HP. apply Hb in HP. done.
Qed.

(** ** Arithmetic at a width *)

Lemma wp_ck_int (z : Z) (Q : Z -> Prop) :
  REF_INT_MIN <= z <= REF_INT_MAX -> Q z -> wp (ck_int z) Q.
Proof.
  intros Hz HQ. exists z. split; [|done]. unfold ck_int.
  by rewrite (proj2 (Z.leb_le _ _)), (proj2 (Z.leb_le _ _)) by lia.
Qed.

Lemma wp_ck_glob (z : Z) (Q : Z -> Prop) :
  REF_LONG_MIN <= z <= REF_LONG_MAX -> Q z -> wp (ck_glob z) Q.
Proof.
  intros Hz HQ. exists z. split; [|done]. unfold ck_glob.
  by rewrite (proj2 (Z.leb_le _ _)), (proj2 (Z.leb_le _ _)) by lia.
Qed.

Lemma ck_int_ok (z : Z) : REF_INT_MIN <= z <= REF_INT_MAX -> ck_int z = Some z.
Proof. intros Hz. by destruct (wp_ck_int z (fun z' => z' = z) Hz) as (z' & Heq & ->). Qed.

Lemma ck_int_overflow (z : Z) :
  ~ (REF_INT_MIN <= z <= REF_INT_MAX) -> ck_int z = None.
Proof.
  intros Hz. unfold ck_int.
  destruct (Z.leb_spec REF_INT_MIN z), (Z.leb_spec z REF_INT_MAX); try done.
  exfalso. apply Hz. lia.
Qed.

(** ** Lemmas on arrays *)

Section arrays.
Context {A : Type} `{Inhabited A}.
Implicit Types (a b : list A) (v : A) (i j n : Z).

Lemma zlen_nonneg a : 0 <= zlen a.
Proof. unfold zlen. lia. Qed.

Lemma zlen_nil : zlen (@nil A) = 0.
Proof. done. Qed.

Lemma zlen_cons v a : zlen (v :: a) = zlen a + 1.
Proof. unfold zlen. cbn. lia. Qed.

Lemma zlen_app a b : zlen (a ++ b) = zlen a + zlen b.
Proof. unfold zlen. rewrite length_app. lia. Qed.

Lemma zlen_upd a i v : zlen (upd a i v) = zlen a.
Proof. unfold zlen, upd. by rewrite length_insert. Qed.

Lemma zlen_ztake n a : 0 <= n <= zlen a -> zlen (ztake n a) = n.
Proof. unfold zlen, ztake. intros. rewrite length_take. lia. Qed.

Lemma zlen_alloc `{Junk A} n : 0 <= n -> zlen (alloc n) = n.
Proof. intros. unfold zlen, alloc. rewrite length_map, length_seq. lia. Qed.

Lemma zlen_realloc `{Junk A} a n : 0 < n -> zlen (ref_realloc a n) = n.
Proof.
  intros Hn. unfold zlen, ref_realloc.
  rewrite (proj2 (Z.ltb_lt _ _) Hn), length_app, length_take, length_map, length_seq.
  lia.
Qed.

Lemma aget_aat a i : 0 <= i < zlen a -> aget a i = Some a.[i].
Proof.
  unfold aat, aget, zlen. intros Hi.
  destruct (Z.ltb_spec i 0); [lia|].
  destruct (lookup_lt_is_Some_2 a (Z.to_nat i)) as [x ->]; [lia|done].
Qed.

Lemma aget_lookup a i : 0 <= i -> aget a i = a !! Z.to_nat i.
Proof. intros. unfold aget. by destruct (Z.ltb_spec i 0); [lia|]. Qed.

Lemma aget_out a i : i < 0 \/ zlen a <= i -> aget a i = None.
Proof.
  unfold aget, zlen. intros [?|?].
  - by rewrite (proj2 (Z.ltb_lt _ _)).
  - destruct (Z.ltb_spec i 0); [done|]. apply lookup_ge_None_2. lia.
Qed.

Lemma aset_out a i v : i < 0 \/ zlen a <= i -> aset a i v = None.
Proof.
  unfold aset. intros.
  destruct (Z.leb_spec 0 i), (Z.ltb_spec i (zlen a)); try done. lia.
Qed.

Lemma aat_lookup a i : 0 <= i < zlen a -> a !! Z.to_nat i = Some a.[i].
Proof. intros Hi. rewrite <- aget_lookup by lia. by apply aget_aat. Qed.

Lemma aat_of_lookup a (k : nat) v : a !! k = Some v -> a.[Z.of_nat k] = v.
Proof.
  intros Hk. unfold aat. rewrite aget_lookup, Nat2Z.id by lia. by rewrite Hk.
Qed.

Lemma aset_upd a i v : 0 <= i < zlen a -> aset a i v = Some (upd a i v).
Proof.
  intros Hi. unfold aset.
  by rewrite (proj2 (Z.leb_le _ _)), (proj2 (Z.ltb_lt _ _)) by lia.
Qed.

Lemma aat_upd a i j v :
  0 <= i < zlen a -> 0 <= j -> (upd a i v).[j] = if i =? j then v else a.[j].
Proof.
  unfold aat, upd, zlen. intros Hi Hj. rewrite !aget_lookup by done.
  destruct (Z.eqb_spec i j) as [->|Hij].
  - rewrite list_lookup_insert_eq; [done|lia].
  - rewrite list_lookup_insert_ne; [done|lia].
Qed.

Lemma upd_upd_eq a i v w : upd (upd a i v) i w = upd a i w.
Proof. unfold upd. apply list_insert_insert_eq. Qed.

Lemma upd_id a i : 0 <= i < zlen a -> upd a i a.[i] = a.
Proof. intros. unfold upd. apply list_insert_id. by apply aat_lookup. Qed.

Lemma aat_upd_eq a i v : 0 <= i < zlen a -> (upd a i v).[i] = v.
Proof. intros. rewrite aat_upd by lia. by rewrite Z.eqb_refl. Qed.

Lemma aat_upd_ne a i j v :
  0 <= i < zlen a -> 0 <= j -> i <> j -> (upd a i v).[j] = a.[j].
Proof. intros. rewrite aat_upd by lia. by destruct (Z.eqb_spec i j). Qed.

Lemma aat_app_l a b i : 0 <= i < zlen a -> (a ++ b).[i] = a.[i].
Proof.
  unfold aat, zlen. intros. rewrite !aget_lookup by lia.
  by rewrite lookup_app_l by lia.
Qed.

Lemma aat_app_r a b i : zlen a <= i -> (a ++ b).[i] = b.[i - zlen a].
Proof.
  unfold aat, zlen. intros. rewrite !aget_lookup by lia.
  rewrite lookup_app_r by lia. do 2 f_equal. lia.
Qed.

Lemma aat_cons_0 v a : (v :: a).[0] = v.
Proof. done. Qed.

Lemma aat_cons_pos v a i : 0 < i -> (v :: a).[i] = a.[i - 1].
Proof.
  intros Hi. change (v :: a) with ([v] ++ a). rewrite aat_app_r; [done|].
  unfold zlen. cbn. lia.
Qed.

Lemma aat_ztake n a i : 0 <= i < n -> (ztake n a).[i] = a.[i].
Proof.
  unfold aat, ztake. intros. rewrite !aget_lookup by lia.
  by rewrite lookup_take_lt by lia.
Qed.

Lemma aat_realloc `{Junk A} a n i :
  0 <= i < zlen a -> i < n -> (ref_realloc a n).[i] = a.[i].
Proof.
  intros Hi Hn. unfold ref_realloc. rewrite (proj2 (Z.ltb_lt 0 n)) by lia.
  rewrite aat_app_l; [apply (aat_ztake n); lia|].
  unfold zlen in *. rewrite length_take. lia.
Qed.

(** Two arrays with the same elements are equal. *)
Lemma arr_ext a b :
  zlen a = zlen b -> (forall i, 0 <= i < zlen a -> a.[i] = b.[i]) -> a = b.
Proof.
  intros Hl He. unfold zlen in Hl.
  apply list_eq_same_length with (length a); [lia|done|].
  intros k x y Hk Hx Hy. apply aat_of_lookup in Hx, Hy. rewrite <- Hx, <- Hy.
  apply He. unfold zlen. lia.
Qed.

Lemma ztake_full a : ztake (zlen a) a = a.
Proof. unfold ztake, zlen. rewrite Nat2Z.id. apply take_ge. done. Qed.

Lemma ztake_S n a : 0 <= n < zlen a -> ztake (n + 1) a = ztake n a ++ [a.[n]].
Proof.
  intros Hn. unfold ztake. rewrite Z2Nat.inj_add by lia.
  replace (Z.to_nat n + Z.to_nat 1)%nat with (S (Z.to_nat n)) by lia.
  apply take_S_r. by apply aat_lookup.
Qed.

Lemma ztake_upd_ge n a i v : n <= i -> ztake n (upd a i v) = ztake n a.
Proof.
  intros Hn. unfold ztake, upd. destruct (Z_lt_le_dec n 0).
  - by rewrite !Z2Nat.nonpos by lia.
  - apply take_insert_ge. lia.
Qed.

Lemma ztake_realloc `{Junk A} n m a :
  n <= zlen a -> n <= m -> ztake n (ref_realloc a m) = ztake n a.
Proof.
  intros Hn Hm. unfold ref_realloc, ztake, zlen in *.
  destruct (Z.ltb_spec 0 m); [|done].
  rewrite take_app_le by (rewrite length_take; lia).
  rewrite take_take. f_equal. lia.
Qed.

(** Appending to the used prefix of an array, and dropping its last element. *)
Lemma ztake_S_upd n a v :
  0 <= n < zlen a -> ztake (n + 1) (upd a n v) = ztake n a ++ [v].
Proof.
  intros Hn. rewrite ztake_S by (rewrite zlen_upd; lia).
  by rewrite ztake_upd_ge, aat_upd_eq by lia.
Qed.

Lemma last_ztake n a : 0 < n <= zlen a -> last (ztake n a) = Some a.[n - 1].
Proof.
  intros Hn. replace n with (n - 1 + 1) at 1 by lia.
  rewrite ztake_S by lia. by rewrite last_snoc.
Qed.

Lemma removelast_ztake n a :
  0 < n <= zlen a -> removelast (ztake n a) = ztake (n - 1) a.
Proof.
  intros Hn. replace n with (n - 1 + 1) at 1 by lia.
  rewrite ztake_S by lia. by rewrite removelast_last.
Qed.

Lemma elem_of_ztake n a v :
  0 <= n <= zlen a -> v ∈ ztake n a <-> exists i, 0 <= i < n /\ a.[i] = v.
Proof.
  intros Hn. rewrite list_elem_of_lookup. split.
  - intros [k Hk]. pose proof (lookup_lt_Some _ _ _ Hk) as Hlt.
    unfold ztake in Hk, Hlt. rewrite length_take in Hlt.
    exists (Z.of_nat k). split; [lia|]. apply aat_of_lookup.
    by rewrite lookup_take_lt in Hk by lia.
  - intros (i & Hi & <-). exists (Z.to_nat i). unfold ztake.
    rewrite lookup_take_lt by lia. apply aat_lookup. lia.
Qed.

Lemma elem_of_aat a v : v ∈ a <-> exists i, 0 <= i < zlen a /\ a.[i] = v.
Proof.
  rewrite <- (ztake_full a) at 1. apply elem_of_ztake. pose proof (zlen_nonneg a). lia.
Qed.
End arrays.

(** ** A gap in an array

    [b] is [a] with [x] put before its element [ip]. *)
Section gap.
Context {A : Type} `{Inhabited A}.
Implicit Types (a b : list A) (x : A) (i n ip : Z).

Lemma aat_drop n a i : 0 <= n -> 0 <= i -> (drop (Z.to_nat n) a).[i] = a.[n + i].
Proof.
  intros. unfold aat. rewrite !aget_lookup by lia. rewrite lookup_drop. do 2 f_equal. lia.
Qed.

Lemma gap_permutation a b n ip x :
  0 <= ip <= n -> n < zlen b -> n <= zlen a ->
  (forall k, 0 <= k <= n ->
     b.[k] = if k <? ip then a.[k] else if k =? ip then x else a.[k - 1]) ->
  ztake (n + 1) b ≡ₚ x :: ztake n a.
Proof.
  intros Hip Hb Ha Hg.
  assert (Hl : zlen (ztake n a) = n) by (apply zlen_ztake; lia).
  assert (Hd : zlen (drop (Z.to_nat ip) (ztake n a)) = n - ip).
  { unfold zlen in *. rewrite length_drop. lia. }
  assert (Ht : zlen (take (Z.to_nat ip) (ztake n a)) = ip).
  { unfold zlen in *. rewrite length_take. lia. }
  rewrite (arr_ext (ztake (n + 1) b)
    (take (Z.to_nat ip) (ztake n a) ++ x :: drop (Z.to_nat ip) (ztake n a))).
  - rewrite <- Permutation_middle. by rewrite take_drop.
  - rewrite zlen_app, zlen_cons, Hd, Ht, zlen_ztake by lia. lia.
  - intros k Hk. rewrite zlen_ztake in Hk by lia. rewrite aat_ztake, Hg by lia.
    destruct (Z.ltb_spec k ip).
    + rewrite aat_app_l by lia. fold (ztake ip (ztake n a)). by rewrite !aat_ztake by lia.
    + rewrite aat_app_r, Ht by lia. destruct (Z.eqb_spec k ip) as [->|].
      * by rewrite Z.sub_diag, aat_cons_0.
      * rewrite aat_cons_pos, aat_drop, aat_ztake by lia. f_equal. lia.
Qed.
End gap.

(** ** Exchanging two elements *)

Definition swap {A : Type} `{Inhabited A} (a : list A) (i j : Z) : list A :=
  upd (upd a i a.[j]) j a.[i].

Section swap.
Context {A : Type} `{Inhabited A}.
Implicit Types (a : list A) (i j k n : Z).

Lemma zlen_swap a i j : zlen (swap a i j) = zlen a.
Proof. unfold swap. by rewrite !zlen_upd. Qed.

Lemma aat_swap a i j k :
  0 <= i < zlen a -> 0 <= j < zlen a -> 0 <= k ->
  (swap a i j).[k] = if k =? i then a.[j] else if k =? j then a.[i] else a.[k].
Proof.
  intros Hi Hj Hk. unfold swap. rewrite aat_upd by (rewrite ?zlen_upd; lia).
  rewrite aat_upd by lia.
  destruct (Z.eqb_spec j k), (Z.eqb_spec k i), (Z.eqb_spec k j), (Z.eqb_spec i k);
    subst; try lia; done.
Qed.

Lemma swap_permutation a i j :
  0 <= i < zlen a -> 0 <= j < zlen a -> swap a i j ≡ₚ a.
Proof.
  intros Hi Hj. unfold swap, upd.
  apply Permutation_insert_swap; apply aat_lookup; lia.
Qed.

Lemma ztake_swap n a i j :
  0 <= i < n -> 0 <= j < n -> n <= zlen a ->
  ztake n (swap a i j) = swap (ztake n a) i j.
Proof.
  intros Hi Hj Hn. apply arr_ext.
  - rewrite zlen_swap, !zlen_ztake by (rewrite ?zlen_swap; lia). done.
  - intros k Hk. rewrite zlen_ztake in Hk by (rewrite zlen_swap; lia).
    rewrite aat_ztake by lia. rewrite !aat_swap by (rewrite ?zlen_ztake; lia).
    by rewrite !aat_ztake by lia.
Qed.

Lemma ztake_swap_permutation n a i j :
  0 <= i < n -> 0 <= j < n -> n <= zlen a ->
  ztake n (swap a i j) ≡ₚ ztake n a.
Proof.
  intros Hi Hj Hn. rewrite ztake_swap by lia.
  apply swap_permutation; rewrite zlen_ztake; lia.
Qed.
End swap.

(** Order by index is order as a list. *)
Lemma StronglySorted_aat {A} `{Inhabited A} (R : relation A) (a : list A) :
  (forall i j, 0 <= i < j -> j < zlen a -> R a.[i] a.[j]) -> StronglySorted R a.
Proof.
  induction a as [|x a IH]; intros HR; [constructor|].
  pose proof (zlen_nonneg a). rewrite zlen_cons in HR. constructor.
  - apply IH. intros i j Hi Hj. specialize (HR (i + 1) (j + 1) ltac:(lia) ltac:(lia)).
    rewrite !aat_cons_pos in HR by lia. by rewrite !Z.add_simpl_r in HR.
  - apply Forall_forall. intros y (k & Hk & <-)%elem_of_aat.
    specialize (HR 0 (k + 1) ltac:(lia) ltac:(lia)).
    rewrite aat_cons_0, aat_cons_pos in HR by lia. by rewrite Z.add_simpl_r in HR.
Qed.

Lemma filter_all {A} (P : A -> Prop) `{!forall x, Decision (P x)} (l : list A) :
  Forall P l -> filter P l = l.
Proof. induction 1; [done|]. rewrite filter_cons, decide_True by done. by f_equal. Qed.

Lemma filter_none {A} (P : A -> Prop) `{!forall x, Decision (P x)} (l : list A) :
  Forall (fun x => ~ P x) l -> filter P l = [].
Proof. induction 1; [done|]. by rewrite filter_cons, decide_False. Qed.

Lemma filter_iff_in {A} (P Q : A -> Prop) `{!forall x, Decision (P x), !forall x, Decision (Q x)} (l : list A) :
  (forall x, x ∈ l -> P x <-> Q x) -> filter P l = filter Q l.
Proof.
  induction l as [|x l IH]; intros Hl; [done|]. rewrite !filter_cons, IH by (intros y Hy; apply Hl; set_solver).
  specialize (Hl x ltac:(set_solver)). do 2 case_decide; tauto.
Qed.

(** The integers from 0 to [n - 1]. *)
Definition zrange (n : Z) : list Z := map Z.of_nat (seq 0 (Z.to_nat n)).

Lemma zlen_zrange n : 0 <= n -> zlen (zrange n) = n.
Proof. intros. unfold zlen, zrange. rewrite length_map, length_seq. lia. Qed.

Lemma aat_zrange n i : 0 <= i < n -> (zrange n).[i] = i.
Proof.
  intros Hi. rewrite <- (Z2Nat.id i) at 1 by lia. apply aat_of_lookup.
  unfold zrange. rewrite list_lookup_fmap, lookup_seq_lt by lia. cbn. f_equal. lia.
Qed.

Lemma elem_of_zrange n i : i ∈ zrange n <-> 0 <= i < n.
Proof.
  unfold zrange. rewrite list_elem_of_fmap. setoid_rewrite elem_of_seq. split.
  - intros (k & -> & ?). lia.
  - intros ?. exists (Z.to_nat i). lia.
Qed.

Lemma NoDup_zrange n : NoDup (zrange n).
Proof. unfold zrange. apply NoDup_fmap; [apply _|apply NoDup_seq]. Qed.

Lemma zrange_app i n : 0 <= i <= n -> exists l, zrange n = zrange i ++ l.
Proof.
  intros Hi. exists (map Z.of_nat (seq (Z.to_nat i) (Z.to_nat (n - i)))).
  unfold zrange. rewrite <- map_app. f_equal.
  replace (Z.to_nat n) with (Z.to_nat i + Z.to_nat (n - i))%nat by lia. apply seq_app.
Qed.

Lemma zrange_S i : 0 <= i -> zrange (i + 1) = zrange i ++ [i].
Proof.
  intros Hi. unfold zrange. rewrite Z2Nat.inj_add by lia.
  rewrite seq_app, map_app. change (Z.to_nat 1) with 1%nat. cbn. by rewrite Z2Nat.id by lia.
Qed.
Lemma NoDup_aat (l : list Z) i j : NoDup l -> 0 <= i < zlen l -> 0 <= j < zlen l -> l.[i] = l.[j] -> i = j.
Proof.
  intros Hnd Hi Hj He. apply Z2Nat.inj; [lia|lia|]. eapply NoDup_lookup; [exact Hnd|by apply aat_lookup|].
  rewrite He. by apply aat_lookup.
Qed.

(** An array whose first [n] elements are the numbers below [n], each once. *)
Section index_permutation.
Context (si : list Z) (n : Z).
Context (Hlen : 0 <= n <= zlen si) (Hperm : ztake n si ≡ₚ zrange n).

Lemma perm_range k : 0 <= k < n -> 0 <= si.[k] < n.
Proof. intros Hk. apply elem_of_zrange. rewrite <- Hperm. apply elem_of_ztake; eauto. Qed.

Lemma perm_inj k m : 0 <= k < n -> 0 <= m < n -> si.[k] = si.[m] -> k = m.
Proof.
  intros Hk Hm Heq. pose proof (NoDup_zrange n) as Hnd. rewrite <- Hperm in Hnd.
  pose proof (NoDup_lookup _ (Z.to_nat k) (Z.to_nat m) si.[k] Hnd) as Hl.
  rewrite !aat_lookup in Hl by (rewrite zlen_ztake; lia).
  rewrite !aat_ztake, Heq in Hl by lia. specialize (Hl eq_refl eq_refl). lia.
Qed.

Lemma perm_surj k : 0 <= k < n -> exists m, 0 <= m < n /\ si.[m] = k.
Proof. intros Hk%elem_of_zrange. rewrite <- Hperm in Hk. by apply elem_of_ztake in Hk. Qed.
End index_permutation.

Lemma zlen_map {A B} (f : A -> B) (a : list A) : zlen (map f a) = zlen a.
Proof. unfold zlen. by rewrite length_map. Qed.

Lemma aat_map {A B} `{Inhabited A, Inhabited B} (f : A -> B) (a : list A) i :
  0 <= i < zlen a -> (map f a).[i] = f a.[i].
Proof.
  intros Hi. rewrite <- (Z2Nat.id i) at 1 by lia. apply aat_of_lookup.
  rewrite list_lookup_fmap, aat_lookup by done. done.
Qed.

Lemma map_aat_zrange {A} `{Inhabited A} (a : list A) n :
  0 <= n <= zlen a -> map (aat a) (zrange n) = ztake n a.
Proof.
  intros Hn. apply arr_ext.
  - by rewrite zlen_map, zlen_zrange, zlen_ztake by lia.
  - intros i Hi. rewrite zlen_map, zlen_zrange in Hi by lia.
    rewrite aat_map by (rewrite zlen_zrange; lia). by rewrite aat_zrange, aat_ztake by lia.
Qed.

Lemma wp_aget {A} `{Inhabited A} (a : list A) (i : Z) (Q : A -> Prop) :
  0 <= i < zlen a -> Q a.[i] -> wp (aget a i) Q.
Proof. intros Hi HQ. by apply wp_some with a.[i]; [apply aget_aat|]. Qed.

Lemma wp_aset {A} (a : list A) (i : Z) (v : A) (Q : list A -> Prop) :
  0 <= i < zlen a -> Q (upd a i v) -> wp (aset a i v) Q.
Proof. intros Hi HQ. by apply wp_some with (upd a i v); [apply aset_upd|]. Qed.

(** ** Rules for the loops *)

Lemma wp_for_nat {T} (P : Z -> T -> Prop) body k i s :
  P i s ->
  (forall j s, i <= j < i + Z.of_nat k -> P j s -> wp (body j s) (P (j + 1))) ->
  wp (for_nat k i body s) (P (i + Z.of_nat k)).
Proof.
  revert i s. induction k as [|k IH]; intros i s Hi Hstep; cbn [for_nat].
  - apply wp_ret. by rewrite Z.add_0_r.
  - apply wp_bind, (wp_mono (P (i + 1))); [apply Hstep; [lia|done]|].
    intros s' Hs'. replace (i + Z.of_nat (S k)) with (i + 1 + Z.of_nat k) by lia.
    apply IH; [done|]. intros. apply Hstep; [lia|done].
Qed.

(** Invariant rule: [P i] holds before the iteration of index [i]. *)
Lemma wp_for_up {T} (P : Z -> T -> Prop) lo hi body s (Q : T -> Prop) :
  lo <= hi ->
  P lo s ->
  (forall i s, lo <= i < hi -> P i s -> wp (body i s) (P (i + 1))) ->
  (forall s, P hi s -> Q s) ->
  wp (for_up lo hi body s) Q.
Proof.
  intros Hle Hlo Hstep HQ. unfold for_up.
  apply (wp_mono (P hi)); [|done].
  replace hi with (lo + Z.of_nat (Z.to_nat (hi - lo))) at 2 by lia.
  apply wp_for_nat; [done|]. intros. apply Hstep; [lia|done].
Qed.

Lemma wp_for_down {T} (P : Z -> T -> Prop) hi lo body s (Q : T -> Prop) :
  lo <= hi ->
  P hi s ->
  (forall i s, lo < i <= hi -> P i s -> wp (body i s) (P (i - 1))) ->
  (forall s, P lo s -> Q s) ->
  wp (for_down hi lo body s) Q.
Proof.
  intros Hle Hhi Hstep HQ. unfold for_down.
  apply (wp_for_up (fun j => P (hi - j))); [lia|by rewrite Z.sub_0_r| |].
  - intros i s' Hi Hs'. replace (hi - (i + 1)) with (hi - i - 1) by lia.
    apply Hstep; [lia|done].
  - intros s'. replace (hi - (hi - lo)) with lo by lia. apply HQ.
Qed.

Definition ctl_post {T R} (P : T -> Prop) (Q : R -> Prop) (c : ctl T R) : Prop :=
  match c with
  | Next s => P s
  | Exit r => Q r
  end.

Lemma wp_forx_nat {T R} (P : Z -> T -> Prop) (Q : R -> Prop) body k i s :
  P i s ->
  (forall j s, i <= j < i + Z.of_nat k -> P j s ->
     wp (body j s) (ctl_post (P (j + 1)) Q)) ->
  wp (forx_nat k i body s) (ctl_post (P (i + Z.of_nat k)) Q).
Proof.
  revert i s. induction k as [|k IH]; intros i s Hi Hstep; cbn [forx_nat].
  - apply wp_ret. cbn. by rewrite Z.add_0_r.
  - apply wp_bind, (wp_mono (ctl_post (P (i + 1)) Q)); [apply Hstep; [lia|done]|].
    intros [s'|r] Hs'; [|by apply wp_ret].
    replace (i + Z.of_nat (S k)) with (i + 1 + Z.of_nat k) by lia.
    apply IH; [done|]. intros. apply Hstep; [lia|done].
Qed.

Lemma wp_forx_up {T R} (P : Z -> T -> Prop) (Q : R -> Prop) lo hi body s
    (Q' : ctl T R -> Prop) :
  lo <= hi ->
  P lo s ->
  (forall i s, lo <= i < hi -> P i s -> wp (body i s) (ctl_post (P (i + 1)) Q)) ->
  (forall s, P hi s -> Q' (Next s)) -> (forall r, Q r -> Q' (Exit r)) ->
  wp (forx_up lo hi body s) Q'.
Proof.
  intros Hle Hlo Hstep HQ1 HQ2. unfold forx_up.
  apply (wp_mono (ctl_post (P hi) Q)); [|intros [?|?]; cbn; auto].
  replace hi with (lo + Z.of_nat (Z.to_nat (hi - lo))) at 2 by lia.
  apply wp_forx_nat; [done|]. intros. apply Hstep; [lia|done].
Qed.

Lemma wp_forx_down {T R} (P : Z -> T -> Prop) (Q : R -> Prop) hi lo body s
    (Q' : ctl T R -> Prop) :
  lo <= hi ->
  P hi s ->
  (forall i s, lo < i <= hi -> P i s -> wp (body i s) (ctl_post (P (i - 1)) Q)) ->
  (forall s, P lo s -> Q' (Next s)) -> (forall r, Q r -> Q' (Exit r)) ->
  wp (forx_down hi lo body s) Q'.
Proof.
  intros Hle Hhi Hstep HQ1 HQ2. unfold forx_down.
  apply (wp_forx_up (fun j => P (hi - j)) Q); [lia|by rewrite Z.sub_0_r| | |done].
  - intros i s' Hi Hs'. replace (hi - (i + 1)) with (hi - i - 1) by lia.
    apply Hstep; [lia|done].
  - intros s'. replace (hi - (hi - lo)) with lo by lia. apply HQ1.
Qed.

(** Variant rule: [m] decreases and stays below the fuel. *)
Lemma wp_loop {T R} (P : T -> Prop) (m : T -> Z) (Q : R -> Prop) fuel body s :
  P s -> m s < Z.of_nat fuel ->
  (forall s, P s -> 0 <= m s) ->
  (forall s, P s -> wp (body s) (ctl_post (fun s' => P s' /\ m s' < m s) Q)) ->
  wp (loop fuel body s) Q.
Proof.
  intros Hs Hm Hpos Hstep. revert s Hs Hm.
  induction fuel as [|fuel IH]; intros s Hs Hm; unfold loop; fold (@loop T R).
  - specialize (Hpos s Hs). lia.
  - apply wp_bind. eapply wp_mono; [by apply Hstep|].
    intros [s'|r]; cbn; [|by intros; apply wp_ret].
    intros [Hs' Hlt]. apply IH; [done|lia].
Qed.

Lemma loop_S {T R} fuel (body : T -> option (ctl T R)) s :
  loop (S fuel) body s =
  let* c := body s in
  match c with
  | Next s => loop fuel body s
  | Exit r => Some r
  end.
Proof. done. Qed.

(** From the state [s] the loop reaches [s'] after some turns. *)
Definition steps {T R} (body : T -> option (ctl T R)) : T -> T -> Prop :=
  rtc (fun s s' => body s = Some (Next s')).

(** A turn that is undefined makes the loop undefined, whatever the fuel. *)
Lemma loop_stuck {T R} fuel (body : T -> option (ctl T R)) s s' :
  steps body s s' -> body s' = None -> loop fuel body s = None.
Proof.
  intros Hs Hstuck. revert fuel. induction Hs as [s|s s1 s' H1 _ IH]; intros [|fuel]; try done; rewrite loop_S.
  - by rewrite Hstuck.
  - rewrite H1. cbn [obind]. by apply IH.
Qed.

(** A loop whose turns decrease [m] and do not end it reaches a state of [G]. *)
Lemma loop_reaches {T R} (P G : T -> Prop) (m : T -> Z) (body : T -> option (ctl T R)) s :
  P s -> (forall s, P s -> 0 <= m s) ->
  (forall s, P s -> G s \/ exists s', body s = Some (Next s') /\ P s' /\ m s' < m s) ->
  exists s', steps body s s' /\ P s' /\ G s'.
Proof.
  intros Hs Hpos Hstep. remember (Z.to_nat (m s)) as k eqn:Hk. revert s Hs Hk.
  induction k as [k IH] using (well_founded_induction lt_wf). intros s Hs ->.
  destruct (Hstep s Hs) as [HG|(s1 & Hbody & Hs1 & Hlt)]; [by exists s|].
  pose proof (Hpos s1 Hs1). destruct (IH (Z.to_nat (m s1)) ltac:(lia) s1 Hs1 eq_refl) as (s' & Hsteps & Hs' & HG').
  exists s'. split; [|done]. by apply rtc_l with s1.
Qed.

(** A loop that writes [f i] at every index [i] from [lo] to [hi - 1]. *)
Lemma wp_fill {A} `{Inhabited A} (f : Z -> A) lo hi body (dst : list A)
    (Q : list A -> Prop) :
  0 <= lo <= hi -> hi <= zlen dst ->
  (forall i d, lo <= i < hi -> zlen d = zlen dst ->
     (forall j, i <= j < zlen dst -> d.[j] = dst.[j]) ->
     wp (body i d) (fun d' => d' = upd d i (f i))) ->
  (forall d, zlen d = zlen dst ->
     (forall j, 0 <= j < zlen dst ->
        d.[j] = if (lo <=? j) && (j <? hi) then f j else dst.[j]) -> Q d) ->
  wp (for_up lo hi body dst) Q.
Proof.
  intros Hlo Hhi Hbody HQ.
  apply (wp_for_up (fun i d => zlen d = zlen dst /\ forall j, 0 <= j < zlen dst ->
    d.[j] = if (lo <=? j) && (j <? i) then f j else dst.[j])); [lia| | |].
  - split; [done|]. intros j Hj.
    destruct (Z.leb_spec lo j), (Z.ltb_spec j lo); try lia; done.
  - intros i d Hi [Hd Hg]. eapply wp_mono; [apply Hbody; [lia|done|]|].
    + intros j Hj. rewrite Hg by lia.
      destruct (Z.leb_spec lo j), (Z.ltb_spec j i); try lia; done.
    + intros d' ->. split; [by rewrite zlen_upd|]. intros j Hj.
      rewrite aat_upd by lia. case Z.eqb_spec; intros Hij.
      * subst j. destruct (Z.leb_spec lo i), (Z.ltb_spec i (i + 1)); try lia; done.
      * rewrite Hg by lia.
        destruct (Z.leb_spec lo j), (Z.ltb_spec j i), (Z.ltb_spec j (i + 1)); try lia; done.
  - intros d [Hd Hg]. by apply HQ.
Qed.

(** Two nested loops that write [F] at [i + per * node]: blocks of [per]
    elements. *)
Lemma wp_fill_blocks {A} `{Inhabited A} (F : Z -> A) per n body (dst : list A)
    (Q : list A -> Prop) :
  0 <= per -> 0 <= n -> per * n <= zlen dst ->
  (forall node i d, 0 <= node < n -> 0 <= i < per -> zlen d = zlen dst ->
     wp (body node i d) (fun d' => d' = upd d (i + per * node) (F (i + per * node)))) ->
  (forall d, zlen d = zlen dst -> (forall j, 0 <= j < per * n -> d.[j] = F j) ->
     (forall j, per * n <= j < zlen dst -> d.[j] = dst.[j]) -> Q d) ->
  wp (for_up 0 n (fun node => for_up 0 per (body node)) dst) Q.
Proof.
  intros Hper Hn Hl Hbody HQ.
  set (P := fun m d => zlen d = zlen dst /\ (forall j, 0 <= j < m -> d.[j] = F j) /\
    (forall j, m <= j < zlen dst -> d.[j] = dst.[j])).
  apply (wp_for_up (fun node d => P (per * node) d)); [lia| | |].
  - split; [done|]. split; [lia|done || (intros; f_equal; lia)].
  - intros node d Hnode Hd.
    apply (wp_for_up (fun i d => P (i + per * node) d)); [lia|done| |].
    + intros i d' Hi (Hl' & Hdone & Hrest). eapply wp_mono; [by apply Hbody|].
      intros d'' ->. assert (i + per * node < per * n) by nia. split; [by rewrite zlen_upd|]. split.
      * intros j Hj. rewrite aat_upd by nia. case Z.eqb_spec; [by intros ->|]. intros. apply Hdone. lia.
      * intros j Hj. rewrite aat_upd_ne by nia. apply Hrest. lia.
    + intros d'. replace (per + per * node) with (per * (node + 1)) by lia. done.
  - intros d (Hld & Hdone & Hrest). by apply HQ.
Qed.

(** The loop that opens a gap at [lo]: [a[i] = a[i - 1]] from [hi] down to
    [lo + 1]. *)
Lemma wp_shift_up {A} `{Inhabited A} hi lo (a : list A) (Q : list A -> Prop) :
  0 <= lo <= hi -> hi < zlen a ->
  (forall b, zlen b = zlen a ->
     (forall k, 0 <= k < zlen a ->
        b.[k] = if (lo <? k) && (k <=? hi) then a.[k - 1] else a.[k]) -> Q b) ->
  wp (for_down hi lo (fun i a => let* v := aget a (i - 1) in aset a i v) a) Q.
Proof.
  intros Hlo Hhi HQ.
  apply (wp_for_down (fun i b => zlen b = zlen a /\ forall k, 0 <= k < zlen a ->
    b.[k] = if (i <? k) && (k <=? hi) then a.[k - 1] else a.[k])); [lia| | |].
  - split; [done|]. intros k Hk. destruct (Z.ltb_spec hi k), (Z.leb_spec k hi); try lia; done.
  - intros i b Hi [Hl Hb].
    apply wp_bind, wp_aget; [lia|]. apply wp_aset; [lia|].
    split; [by rewrite zlen_upd|]. intros k Hk.
    rewrite aat_upd by lia. rewrite !Hb by lia.
    destruct (Z.eqb_spec i k), (Z.ltb_spec (i - 1) k), (Z.leb_spec k hi), (Z.ltb_spec i k),
      (Z.ltb_spec i (i - 1)), (Z.leb_spec (i - 1) hi); subst; try lia; done.
  - intros b [Hl Hb]. by apply HQ.
Qed.

(** The loop that closes the gap at [lo]: [a[i] = a[i + 1]] from [lo] to
    [hi - 1]. *)
Lemma wp_shift_down {A} `{Inhabited A} lo hi (a : list A) (Q : list A -> Prop) :
  0 <= lo <= hi -> hi < zlen a ->
  (forall b, zlen b = zlen a ->
     (forall k, 0 <= k < zlen a ->
        b.[k] = if (lo <=? k) && (k <? hi) then a.[k + 1] else a.[k]) -> Q b) ->
  wp (for_up lo hi (fun i a => let* v := aget a (i + 1) in aset a i v) a) Q.
Proof.
  intros Hlo Hhi HQ. apply (wp_fill (fun i => a.[i + 1])); [lia|lia| |done].
  intros i d Hi Hd Hrest. apply wp_bind, wp_aget; [lia|]. apply wp_aset; [lia|].
  by rewrite Hrest by lia.
Qed.

(** ** Automation *)

Create HintDb arr.
Create Rewrite HintDb arr.
#[export] Hint Rewrite @zlen_upd @zlen_app @zlen_cons @zlen_nil : arr.
#[export] Hint Rewrite @zlen_alloc @zlen_realloc @zlen_ztake using lia : arr.
#[export] Hint Rewrite @aat_upd_eq @aat_upd_ne using (autorewrite with arr; lia) : arr.
#[export] Hint Rewrite @aat_realloc @aat_ztake using (autorewrite with arr; lia) : arr.

Ltac asimpl := autorewrite with arr.
Ltac asimpl_all := autorewrite with arr in *.

(** Bounds side conditions, after the lengths are computed. *)
Ltac alia := cbn; autorewrite with arr in *; unfold REF_EMPTY, REF_INT_MIN, REF_INT_MAX in *; lia.

(** One step of symbolic execution of a goal [wp m Q]; the side conditions
    that [alia] does not prove stay. *)
Ltac wp_step :=
  lazymatch goal with
  | |- wp (obind _ _) _ => apply wp_bind
  | |- wp (Some _) _ => apply wp_ret
  | |- wp (aget _ _) _ => apply wp_aget; [try alia|]
  | |- wp (aset _ _ _) _ => apply wp_aset; [try alia|]
  | |- wp (ck_int _) _ => apply wp_ck_int; [try alia|]
  | |- wp (ck_glob _) _ => apply wp_ck_glob; [try alia|]
  | |- wp (RSS REF_SUCCESS _ _) _ => cbn [RSS]
  | |- wp (if _ =? _ then _ else _) _ => case Z.eqb_spec; intros
  | |- wp (if _ <? _ then _ else _) _ => case Z.ltb_spec; intros
  | |- wp (if _ <=? _ then _ else _) _ => case Z.leb_spec; intros
  end.
Ltac wp_go := repeat wp_step.

(** ** Linked structures

    [chain next start l]: following [next] from [start] visits exactly [l] and
    ends at [REF_EMPTY]. *)
Fixpoint chain (next : Z -> Z) (start : Z) (l : list Z) : Prop :=
  match l with
  | [] => start = REF_EMPTY
  | i :: l => start = i /\ chain next (next i) l
  end.

Section chains.
Implicit Types (next : Z -> Z) (l : list Z).

Lemma chain_ext next next' s l :
  (forall i, i ∈ l -> next' i = next i) -> chain next s l -> chain next' s l.
Proof.
  revert s. induction l as [|i l IH]; intros s Hext; cbn; [done|].
  intros [-> Hl]. split; [done|]. rewrite Hext by set_solver.
  apply IH; [|done]. intros. apply Hext. set_solver.
Qed.

(** Unlinking [i] after its predecessor [p]. *)
Lemma chain_unlink next next' s l1 p i l2 :
  (forall j, j ∈ l1 ++ l2 -> next' j = next j) -> next' p = next i ->
  chain next s (l1 ++ p :: i :: l2) -> chain next' s (l1 ++ p :: l2).
Proof.
  intros Hext Hp. revert s Hext. induction l1 as [|j l1 IH]; intros s Hext; cbn.
  - intros (-> & Hi & Hl2). split; [done|]. rewrite Hp.
    eapply chain_ext; [|done]. set_solver.
  - intros [-> Hl]. split; [done|]. rewrite Hext by set_solver.
    apply IH; [|done]. intros. apply Hext. set_solver.
Qed.

(** The rows to give out after the arrays had to grow, or not. *)
Definition blank_after (bl : list Z) (max max' : Z) : list Z :=
  match bl with [] => seqZ max (max' - max) | _ => bl end.

(** A block of fresh elements linked in order. *)
Lemma chain_linked next lo hi :
  lo < hi ->
  (forall j, lo <= j < hi -> next j = if j =? hi - 1 then REF_EMPTY else j + 1) ->
  chain next lo (seqZ lo (hi - lo)).
Proof.
  intros Ho Hg. remember (Z.to_nat (hi - lo - 1)) as k eqn:Hk.
  revert lo Ho Hg Hk. induction k as [|k IH]; intros lo Ho Hg Hk;
    rewrite seqZ_cons by lia; cbn [chain]; (split; [done|]); rewrite Hg by lia;
    destruct (Z.eqb_spec lo (hi - 1)); try lia.
  - replace (Z.pred (hi - lo)) with 0 by lia. done.
  - replace (Z.pred (hi - lo)) with (hi - (lo + 1)) by lia.
    replace (Z.succ lo) with (lo + 1) by lia. apply IH; [lia| |lia].
    intros. apply Hg. lia.
Qed.

Lemma NoDup_range_length l n :
  NoDup l -> (forall i, i ∈ l -> 0 <= i < n) -> zlen l <= n \/ l = [].
Proof.
  intros Hl Hr. destruct (decide (l = [])) as [->|]; [by right|left].
  assert (0 < n). { destruct l as [|x l]; [done|]. specialize (Hr x). set_solver by lia. }
  assert (Hsub : l ⊆+ zrange n).
  { apply NoDup_submseteq; [done|]. intros i Hi. by apply elem_of_zrange, Hr. }
  apply submseteq_length in Hsub. unfold zlen.
  pose proof (zlen_zrange n ltac:(lia)) as Hz. unfold zlen in Hz. lia.
Qed.
End chains.

(** ** Occurrences

    How often a value is in a list. *)
Definition occ (l : list Z) (x : Z) : Z := Z.of_nat (count_occ Z.eq_dec l x).

Section occurrences.
Implicit Types (l : list Z) (x y : Z).

Lemma occ_nil x : occ [] x = 0.
Proof. done. Qed.

Lemma occ_cons y l x : occ (y :: l) x = Z.b2z (y =? x) + occ l x.
Proof.
  unfold occ. cbn. destruct (Z.eq_dec y x), (Z.eqb_spec y x); try done; cbn; lia.
Qed.

Lemma occ_app l1 l2 x : occ (l1 ++ l2) x = occ l1 x + occ l2 x.
Proof. unfold occ. rewrite count_occ_app. lia. Qed.

Lemma occ_nonneg l x : 0 <= occ l x.
Proof. unfold occ. lia. Qed.

Lemma occ_pos l x : 0 < occ l x <-> x ∈ l.
Proof.
  unfold occ. rewrite list_elem_of_In, (count_occ_In Z.eq_dec). lia.
Qed.

Lemma occ_zero l x : occ l x = 0 <-> x ∉ l.
Proof. rewrite <- occ_pos. pose proof (occ_nonneg l x). lia. Qed.

Lemma occ_perm l1 l2 x : l1 ≡ₚ l2 -> occ l1 x = occ l2 x.
Proof. intros Hp. unfold occ. f_equal. by apply (Permutation_count_occ Z.eq_dec). Qed.

Lemma occ_NoDup l x : NoDup l -> occ l x <= 1.
Proof.
  induction 1 as [|y l Hy Hl IH]; [rewrite occ_nil; lia|]. rewrite occ_cons. case Z.eqb_spec; cbn [Z.b2z]; [|lia].
  intros ->. rewrite (proj2 (occ_zero l x) Hy). lia.
Qed.
Lemma NoDup_occ l : (forall x, occ l x <= 1) -> NoDup l.
Proof.
  induction l as [|y l IH]; intros Hl; [constructor|]. constructor.
  - apply occ_zero. specialize (Hl y). rewrite occ_cons, Z.eqb_refl in Hl. cbn [Z.b2z] in Hl. pose proof (occ_nonneg l y). lia.
  - apply IH. intros x. specialize (Hl x). rewrite occ_cons in Hl. destruct (y =? x); cbn [Z.b2z] in Hl; lia.
Qed.

Lemma occ_upd l i v x :
  0 <= i < zlen l -> occ (upd l i v) x = occ l x - Z.b2z (l.[i] =? x) + Z.b2z (v =? x).
Proof.
  intros Hi. pose proof (aat_lookup l i Hi) as Hl.
  unfold upd. rewrite insert_take_drop by (apply lookup_lt_Some in Hl; done).
  rewrite <- (take_drop_middle l _ _ Hl) at 3. rewrite !occ_app, !occ_cons. lia.
Qed.

(** A list that has nothing more often than another is no longer. *)
Lemma occ_le_zlen l1 l2 : (forall x, occ l1 x <= occ l2 x) -> zlen l1 <= zlen l2.
Proof.
  revert l2. induction l1 as [|y l1 IH]; intros l2 Hle; [apply zlen_nonneg|].
  assert (y ∈ l2) as (la & lb & ->)%list_elem_of_split.
  { apply occ_pos. specialize (Hle y). rewrite occ_cons, Z.eqb_refl in Hle.
    pose proof (occ_nonneg l1 y). cbn in Hle. lia. }
  rewrite zlen_cons, zlen_app, zlen_cons. enough (zlen l1 <= zlen (la ++ lb)) by (rewrite zlen_app in *; lia).
  apply IH. intros x. specialize (Hle x). rewrite occ_app, !occ_cons in Hle. rewrite occ_app. lia.
Qed.
End occurrences.

(** ** Loops over the elements of a list

    Traversals of linked structures reduce to this one. *)
Fixpoint forl {X T R : Type} (l : list X) (body : X -> T -> option (ctl T R)) (s : T)
    : option (ctl T R) :=
  match l with
  | [] => Some (Next s)
  | x :: l =>
      let* c := body x s in
      match c with
      | Next s => forl l body s
      | Exit r => Some (Exit r)
      end
  end.

(** Invariant rule: [P pre s] holds when the elements [pre] have been done. *)
Lemma wp_forl {X T R} (P : list X -> T -> Prop) (Q : R -> Prop) l body s
    (Q' : ctl T R -> Prop) :
  P [] s ->
  (forall pre x post s, l = pre ++ x :: post -> P pre s ->
     wp (body x s) (ctl_post (P (pre ++ [x])) Q)) ->
  (forall s, P l s -> Q' (Next s)) -> (forall r, Q r -> Q' (Exit r)) ->
  wp (forl l body s) Q'.
Proof.
  intros H0 Hstep HQ1 HQ2. apply (wp_mono (ctl_post (P l) Q)); [|intros [?|?]; cbn; auto].
  clear HQ1 HQ2 Q'.
  assert (Hgen : forall pre post s, l = pre ++ post -> P pre s ->
    wp (forl post body s) (ctl_post (P l) Q)).
  { intros pre post. revert pre. induction post as [|x post IH]; intros pre s' Hl Hs'.
    - apply wp_ret. cbn. rewrite Hl. by rewrite app_nil_r.
    - cbn. apply wp_bind. eapply wp_mono; [by eapply Hstep|].
      intros [s''|r] Hc; [|by apply wp_ret].
      apply (IH (pre ++ [x])); [by rewrite <- app_assoc|done]. }
  by apply (Hgen [] l).
Qed.

Lemma forl_ext {X T R} (l : list X) (f g : X -> T -> option (ctl T R)) s :
  (forall x s, x ∈ l -> f x s = g x s) -> forl l f s = forl l g s.
Proof.
  revert s. induction l as [|x l IH]; intros s Hfg; cbn; [done|].
  rewrite Hfg by set_solver. destruct (g x s) as [[s'|r]|]; cbn; try done.
  apply IH. intros. apply Hfg. set_solver.
Qed.

Lemma forl_map {X Y T R} (f : X -> Y) (l : list X) (body : Y -> T -> option (ctl T R)) s :
  forl (map f l) body s = forl l (fun x => body (f x)) s.
Proof.
  revert s. induction l as [|x l IH]; intros s; cbn; [done|].
  destruct (body (f x) s) as [[s'|r]|]; cbn; done || apply IH.
Qed.

(** Loops that only search: they leave at the first element that passes [test]. *)
Lemma forl_search {X R} (l : list X) (test : X -> bool) (x : R) body :
  (forall y, y ∈ l -> body y tt = Some (if test y then Exit x else Next tt)) ->
  forl l body tt = Some (if existsb test l then Exit x else Next tt).
Proof.
  induction l as [|y l IH]; intros Hb; cbn; [done|]. rewrite Hb by set_solver. cbn.
  destruct (test y); cbn; [done|]. apply IH. intros. apply Hb. set_solver.
Qed.

Lemma forx_forl {T R} n (body : Z -> T -> option (ctl T R)) s :
  forx_up 0 n body s = forl (zrange n) body s.
Proof.
  unfold forx_up, zrange. rewrite Z.sub_0_r.
  assert (Hgen : forall k i s, forx_nat k (Z.of_nat i) body s = forl (map Z.of_nat (seq i k)) body s).
  { intros k. induction k as [|k IH]; intros i s'; cbn; [done|].
    destruct (body (Z.of_nat i) s') as [[s''|r]|]; cbn; try done.
    replace (Z.of_nat i + 1) with (Z.of_nat (S i)) by lia. apply IH. }
  apply (Hgen _ 0%nat).
Qed.

Lemma forx_search {R} n (test : Z -> bool) (x : R) body :
  (forall i, 0 <= i < n -> body i tt = Some (if test i then Exit x else Next tt)) ->
  forx_up 0 n body tt = Some (if existsb test (zrange n) then Exit x else Next tt).
Proof.
  intros Hb. rewrite forx_forl. apply forl_search. intros i Hi. by apply Hb, elem_of_zrange.
Qed.

Lemma forl_app {X T R} (l1 l2 : list X) (body : X -> T -> option (ctl T R)) s :
  forl (l1 ++ l2) body s =
  let* c := forl l1 body s in
  match c with Next s => forl l2 body s | Exit r => Some (Exit r) end.
Proof.
  revert s. induction l1 as [|x l1 IH]; intros s; cbn; [done|].
  destruct (body x s) as [[s'|r]|]; cbn; done || apply IH.
Qed.

(** Nested loops are one loop over the elements in order. *)
Lemma forl_concat {X Y T R} (g : X -> list Y) (l : list X) (body : Y -> T -> option (ctl T R)) s :
  forl l (fun x s => forl (g x) body s) s = forl (concat (map g l)) body s.
Proof.
  revert s. induction l as [|x l IH]; intros s; cbn; [done|].
  rewrite forl_app. destruct (forl (g x) body s) as [[s'|r]|]; cbn; done || apply IH.
Qed.

Lemma forl_filter {X T R} (P : X -> Prop) `{!forall x, Decision (P x)} (l : list X)
    (body : X -> T -> option (ctl T R)) s :
  forl l (fun x s => if bool_decide (P x) then body x s else Some (Next s)) s =
  forl (filter P l) body s.
Proof.
  revert s. induction l as [|x l IH]; intros s; cbn [forl]; [done|]. rewrite filter_cons.
  case_bool_decide; case_decide; try done; cbn; [|apply IH].
  destruct (body x s) as [[s'|r]|]; cbn; done || apply IH.
Qed.

Lemma existsb_elem_of {X} (test : X -> bool) (l : list X) :
  existsb test l = true <-> exists x, x ∈ l /\ test x = true.
Proof.
  rewrite existsb_exists. by setoid_rewrite list_elem_of_In.
Qed.

(** ** Sequences of calls

    [exec] runs one call on the concrete state, [spec] on the abstract one. [R]
    relates the two when [k] more calls may follow. *)
Section runs.
Context {C O T A : Type}.
Context (exec : C -> T -> option (O * T)) (spec : C -> A -> O * A).

Fixpoint run (cs : list C) (s : T) : option (list O * T) :=
  match cs with
  | [] => Some ([], s)
  | c :: cs =>
      let* '(o, s) := exec c s in
      let* '(os, s) := run cs s in
      Some (o :: os, s)
  end.

Fixpoint spec_run (cs : list C) (a : A) : list O * A :=
  match cs with
  | [] => ([], a)
  | c :: cs =>
      let '(o, a) := spec c a in
      let '(os, a) := spec_run cs a in
      (o :: os, a)
  end.

Context (R : Z -> T -> A -> Prop) (ok : C -> Prop).

(** A step-by-step simulation refines every sequence of calls. *)
Lemma run_refines cs s a :
  (forall c s a k, ok c -> 0 <= k -> R (k + 1) s a ->
     wp (exec c s) (fun '(o, s') => o = fst (spec c a) /\ R k s' (snd (spec c a)))) ->
  Forall ok cs -> R (zlen cs) s a ->
  exists s', run cs s = Some (fst (spec_run cs a), s') /\ R 0 s' (snd (spec_run cs a)).
Proof.
  intros Hstep Hok. revert s a. induction Hok as [|c cs Hc Hcs IH]; intros s a HR.
  - by exists s.
  - rewrite zlen_cons in HR. cbn [run spec_run].
    destruct (Hstep c s a (zlen cs) Hc (zlen_nonneg cs) HR) as ([o s1] & -> & -> & HR1).
    cbn [obind]. destruct (IH s1 _ HR1) as (s2 & -> & HR2). exists s2.
    destruct (spec c a) as [o a1]. cbn in *. by destruct (spec_run cs a1).
Qed.
End runs.

(** The same when the specification is a step relation: a call may have several
    outcomes the specification allows. *)
Section steps.
Context {C O T A : Type}.
Context (exec : C -> T -> option (O * T)) (spec : C -> A -> O -> A -> Prop).

Inductive spec_steps : list C -> A -> list O -> A -> Prop :=
  | steps_nil a : spec_steps [] a [] a
  | steps_cons c cs a o a1 os a2 :
      spec c a o a1 -> spec_steps cs a1 os a2 -> spec_steps (c :: cs) a (o :: os) a2.

Context (R : Z -> T -> A -> Prop) (ok : C -> Prop).

Lemma run_simulates cs s a :
  (forall c s a k, ok c -> 0 <= k -> R (k + 1) s a ->
     wp (exec c s) (fun '(o, s') => exists a', spec c a o a' /\ R k s' a')) ->
  Forall ok cs -> R (zlen cs) s a ->
  exists os s' a', run exec cs s = Some (os, s') /\ spec_steps cs a os a' /\ R 0 s' a'.
Proof.
  intros Hstep Hok. revert s a. induction Hok as [|c cs Hc Hcs IH]; intros s a HR.
  - exists [], s, a. split; [done|]. split; [constructor|done].
  - rewrite zlen_cons in HR. cbn [run].
    destruct (Hstep c s a (zlen cs) Hc (zlen_nonneg cs) HR) as ([o s1] & -> & a1 & Hs & HR1).
    cbn [obind]. destruct (IH s1 a1 HR1) as (os & s2 & a2 & -> & Hss & HR2). cbn [obind].
    exists (o :: os), s2, a2. split; [done|]. split; [by econstructor|done].
Qed.
End steps.
