(* ===== verification/RefList.v ===== *)
(** * ref_list.c: a growable array of integers

    [REF_LIST] is the C structure and one definition follows each function of
    src/src/ref_list.c; [list_spec] is the sequence the structure stands for,
    and the theorems show that every operation acts on that sequence the way
    its name says. Printing ([ref_list_inspect]) and [ref_list_free] have no
    model: they change nothing that is read afterwards. *)
From S2P Require Import Prelude.
From stdpp Require Import prelude list.
From Stdlib Require Import ZArith Lia.
Open Scope Z_scope.
Open Scope ref_scope.

Record REF_LIST := mkREF_LIST {
  list_n : Z;
  list_max : Z;
  list_value : list Z
}.

Section ops.
Context `{Junk Z}.

Definition ref_list_create : REF_STATUS * REF_LIST :=
  (REF_SUCCESS,
   {| list_n := 0; list_max := 10; list_value := alloc 10 |}).

Definition ref_list_deep_copy (original : REF_LIST) : option (REF_STATUS * REF_LIST) :=
  let n := list_n original in
  let max := list_max original in
  let* value :=
    for_up 0 n (fun i value =>
      let* v := aget (list_value original) i in
      aset value i v) (alloc max) in
  Some (REF_SUCCESS, {| list_n := n; list_max := max; list_value := value |}).

Definition ref_list_push (l : REF_LIST) (last : Z) : option (REF_STATUS * REF_LIST) :=
  let* l :=
    if list_max l =? list_n l then
      let* max := ck_int (list_max l + 1000) in
      Some {| list_n := list_n l; list_max := max;
              list_value := ref_realloc (list_value l) max |}
    else Some l in
  let* value := aset (list_value l) (list_n l) last in
  let* n := ck_int (list_n l + 1) in
  Some (REF_SUCCESS, {| list_n := n; list_max := list_max l; list_value := value |}).

(** The integer is [*last]. *)
Definition ref_list_pop (l : REF_LIST) : option (REF_STATUS * (Z * REF_LIST)) :=
  if 0 =? list_n l then Some (REF_FAILURE, (REF_EMPTY, l))
  else
    let n := list_n l - 1 in
    let* last := aget (list_value l) n in
    Some (REF_SUCCESS,
          (last, {| list_n := n; list_max := list_max l; list_value := list_value l |})).

(** The integer is [*first]. *)
Definition ref_list_shift (l : REF_LIST) : option (REF_STATUS * (Z * REF_LIST)) :=
  if 0 =? list_n l then Some (REF_FAILURE, (REF_EMPTY, l))
  else
    let* first := aget (list_value l) 0 in
    let n := list_n l - 1 in
    let* value :=
      for_up 0 n (fun i value =>
        let* v := aget value (i + 1) in
        aset value i v) (list_value l) in
    Some (REF_SUCCESS,
          (first, {| list_n := n; list_max := list_max l; list_value := value |})).

Definition ref_list_delete (l : REF_LIST) (item : Z) : option (REF_STATUS * REF_LIST) :=
  let* '(to, value) :=
    for_up 0 (list_n l) (fun from '(to, value) =>
      let* v := aget value from in
      if negb (item =? v) then
        let* value := aset value to v in
        Some (to + 1, value)
      else Some (to, value)) (0, list_value l) in
  if to =? list_n l then
    Some (REF_NOT_FOUND,
          {| list_n := list_n l; list_max := list_max l; list_value := value |})
  else
    Some (REF_SUCCESS, {| list_n := to; list_max := list_max l; list_value := value |}).

Definition ref_list_erase (l : REF_LIST) : REF_STATUS * REF_LIST :=
  (REF_SUCCESS,
   {| list_n := 0; list_max := list_max l; list_value := list_value l |}).

Definition ref_list_contains (l : REF_LIST) (item : Z) : option (REF_STATUS * bool) :=
  let* c :=
    forx_up 0 (list_n l) (fun i (_ : unit) =>
      let* v := aget (list_value l) i in
      if v =? item then Some (Exit tt) else Some (Next tt)) tt in
  match c with
  | Exit _ => Some (REF_SUCCESS, true)
  | Next _ => Some (REF_SUCCESS, false)
  end.
End ops.

(** ** Commands, to speak of sequences of calls *)

Inductive list_cmd :=
  | CPush (last : Z)
  | CPop
  | CShift
  | CDelete (item : Z)
  | CErase
  | CContains (item : Z).

(** The status, the output argument (0 when the function has none) and the
    new state of one call. *)
Definition list_exec `{Junk Z} (c : list_cmd) (l : REF_LIST)
    : option (REF_STATUS * (Z * REF_LIST)) :=
  match c with
  | CPush x => let* '(st, l) := ref_list_push l x in Some (st, (0, l))
  | CPop => ref_list_pop l
  | CShift => ref_list_shift l
  | CDelete x => let* '(st, l) := ref_list_delete l x in Some (st, (0, l))
  | CErase => let '(st, l) := ref_list_erase l in Some (st, (0, l))
  | CContains x => let* '(st, b) := ref_list_contains l x in Some (st, (Z.b2z b, l))
  end.

Fixpoint list_run `{Junk Z} (cs : list list_cmd) (l : REF_LIST)
    : option (list (REF_STATUS * Z) * REF_LIST) :=
  match cs with
  | [] => Some ([], l)
  | c :: cs =>
      let* '(st, (out, l)) := list_exec c l in
      let* '(outs, l) := list_run cs l in
      Some ((st, out) :: outs, l)
  end.

(** ** Specification: the sequence of values *)

Definition list_spec_exec (c : list_cmd) (s : list Z) : REF_STATUS * (Z * list Z) :=
  match c with
  | CPush x => (REF_SUCCESS, (0, s ++ [x]))
  | CPop =>
      match last s with
      | Some x => (REF_SUCCESS, (x, removelast s))
      | None => (REF_FAILURE, (REF_EMPTY, s))
      end
  | CShift =>
      match s with
      | x :: s => (REF_SUCCESS, (x, s))
      | [] => (REF_FAILURE, (REF_EMPTY, s))
      end
  | CDelete x =>
      (if bool_decide (x ∈ s) then REF_SUCCESS else REF_NOT_FOUND,
       (0, filter (fun y => y <> x) s))
  | CErase => (REF_SUCCESS, (0, []))
  | CContains x => (REF_SUCCESS, (Z.b2z (bool_decide (x ∈ s)), s))
  end.

Fixpoint list_spec_run (cs : list list_cmd) (s : list Z)
    : list (REF_STATUS * Z) * list Z :=
  match cs with
  | [] => ([], s)
  | c :: cs =>
      let '(st, (out, s)) := list_spec_exec c s in
      let '(outs, s) := list_spec_run cs s in
      ((st, out) :: outs, s)
  end.

(** The sequence a list stands for, and what every reachable list satisfies. *)
Definition list_content (l : REF_LIST) : list Z := ztake (list_n l) (list_value l).

Definition list_wf (l : REF_LIST) : Prop :=
  0 <= list_n l <= list_max l /\ list_max l <= REF_INT_MAX /\
  zlen (list_value l) = list_max l.

(** ** Each operation against the specification *)

Section proofs.
Context `{Junk Z}.
Implicit Types (l : REF_LIST) (x : Z).

Lemma ref_list_create_ok :
  list_wf (snd ref_list_create) /\ list_content (snd ref_list_create) = [].
Proof. done. Qed.

Lemma length_list_content l : list_wf l -> zlen (list_content l) = list_n l.
Proof. intros (? & ? & ?). unfold list_content. rewrite zlen_ztake; lia. Qed.

Lemma list_content_nil l : list_wf l -> list_n l = 0 <-> list_content l = [].
Proof.
  intros Hwf. split.
  - intros Hn. unfold list_content. by rewrite Hn.
  - intros Hc. rewrite <- (length_list_content l Hwf), Hc. done.
Qed.

Lemma ref_list_push_ok l x :
  list_wf l -> list_max l + 1000 <= REF_INT_MAX ->
  wp (ref_list_push l x) (fun '(st, l') =>
    st = REF_SUCCESS /\ list_wf l' /\ list_content l' = list_content l ++ [x] /\
    list_max l' <= list_max l + 1000).
Proof.
  intros (Hn & Hmax & Hlen) Hroom. unfold ref_list_push, list_wf, list_content.
  wp_go; cbn; (split; [done|]); repeat split; try alia.
  all: rewrite ztake_S_upd by alia; [|..]; rewrite ?ztake_realloc by lia; done.
Qed.

Lemma ref_list_pop_ok l :
  list_wf l ->
  wp (ref_list_pop l) (fun '(st, (out, l')) =>
    list_wf l' /\ list_max l' = list_max l /\
    (st, (out, list_content l')) = list_spec_exec CPop (list_content l)).
Proof.
  intros Hwf. pose proof Hwf as (Hn & Hmax & Hlen). unfold ref_list_pop. wp_go.
  - repeat split; try alia. cbn [list_spec_exec].
    by rewrite (proj1 (list_content_nil l Hwf)).
  - unfold list_wf, list_content; cbn. repeat split; try alia.
    by rewrite last_ztake, removelast_ztake by lia.
Qed.

Lemma ref_list_shift_ok l :
  list_wf l ->
  wp (ref_list_shift l) (fun '(st, (out, l')) =>
    list_wf l' /\ list_max l' = list_max l /\
    (st, (out, list_content l')) = list_spec_exec CShift (list_content l)).
Proof.
  intros Hwf. pose proof Hwf as (Hn & Hmax & Hlen). unfold ref_list_shift. wp_go.
  { repeat split; try alia. cbn [list_spec_exec].
    by rewrite (proj1 (list_content_nil l Hwf)). }
  apply wp_shift_down; [lia|lia|].
  intros v Hv Hg. wp_go. unfold list_wf, list_content; cbn.
    repeat split; try alia. rewrite (arr_ext (ztake (list_n l) (list_value l))
      ((list_value l).[0] :: ztake (list_n l - 1) v)); [done|by rewrite zlen_cons, !zlen_ztake by lia; lia|].
    intros i Hi. rewrite zlen_ztake in Hi by lia. rewrite aat_ztake by lia.
    destruct (Z.eqb_spec i 0) as [->|Hi0]; [done|].
    rewrite aat_cons_pos, aat_ztake, Hg by lia.
    destruct (Z.leb_spec 0 (i - 1)), (Z.ltb_spec (i - 1) (list_n l - 1)); try lia.
    cbn [andb]. f_equal. lia.
Qed.

(** The loop of [ref_list_delete] keeps, in order, what differs from the item. *)
Lemma ref_list_delete_ok l x :
  list_wf l ->
  wp (ref_list_delete l x) (fun '(st, l') =>
    list_wf l' /\ list_max l' = list_max l /\
    (st, (0, list_content l')) = list_spec_exec (CDelete x) (list_content l)).
Proof.
  intros (Hn & Hmax & Hlen). unfold ref_list_delete. wp_step.
  eapply (wp_for_up (fun from '(to, v) => 0 <= to <= from /\
    zlen v = zlen (list_value l) /\
    ztake to v = filter (fun y => y <> x) (ztake from (list_value l)) /\
    (forall j, from <= j < zlen v -> v.[j] = (list_value l).[j]) /\
    (to = from <-> x ∉ ztake from (list_value l)))).
  - lia.
  - repeat split; try lia; try done. intros _. apply not_elem_of_nil.
  - intros from [to v] Hf (Hto & Hv & Hfilter & Hrest & Hiff). wp_go.
    rewrite Hrest by lia. rewrite ztake_S by lia. rewrite filter_app, filter_cons, filter_nil.
    destruct (Z.eqb_spec x (list_value l).[from]) as [->|Hne]; cbn [negb].
    + wp_go. rewrite decide_False by tauto. rewrite app_nil_r.
      repeat split; try lia; try done.
      * intros. apply Hrest. lia.
      * set_solver.
    + wp_go. rewrite decide_True by congruence.
      repeat split; try alia.
      * rewrite ztake_S by alia. rewrite ztake_upd_ge by lia. rewrite Hfilter. by asimpl.
      * intros j Hj. rewrite zlen_upd in Hj. rewrite aat_upd by lia.
        case Z.eqb_spec; [lia|]. intros. apply Hrest. lia.
      * intros Heq. assert (to = from) by lia. set_solver.
      * intros Hnot. assert (to = from) by set_solver. lia.
  - intros [to v] (Hto & Hv & Hfilter & _ & Hiff). unfold list_wf, list_content; cbn.
    case Z.eqb_spec; intros Heq; wp_go; cbn; repeat split; try alia.
    + rewrite bool_decide_eq_false_2 by tauto. by rewrite <- Heq, Hfilter at 1.
    + rewrite bool_decide_eq_true_2 by (destruct (decide (x ∈ ztake (list_n l) (list_value l))); tauto).
      by rewrite Hfilter.
Qed.

Lemma ref_list_contains_ok l x :
  list_wf l ->
  wp (ref_list_contains l x) (fun '(st, b) =>
    st = REF_SUCCESS /\ b = bool_decide (x ∈ list_content l)).
Proof.
  intros (Hn & Hmax & Hlen). unfold ref_list_contains, list_content. wp_step.
  eapply (wp_forx_up (fun i _ => x ∉ ztake i (list_value l))
                     (fun _ => x ∈ ztake (list_n l) (list_value l))).
  - lia.
  - apply not_elem_of_nil.
  - intros i [] Hi Hnot. wp_go; cbn.
    + apply elem_of_ztake; [lia|]. eauto.
    + rewrite ztake_S by lia. set_solver.
  - intros [] Hnot. wp_go. by rewrite bool_decide_eq_false_2.
  - intros [] Hin. wp_go. by rewrite bool_decide_eq_true_2.
Qed.

Lemma list_exec_ok c l :
  list_wf l -> list_max l + 1000 <= REF_INT_MAX ->
  wp (list_exec c l) (fun '(st, (out, l')) =>
    list_wf l' /\ list_max l' <= list_max l + 1000 /\
    (st, (out, list_content l')) = list_spec_exec c (list_content l)).
Proof.
  intros Hwf Hroom. pose proof Hwf as (Hn & Hmax & Hlen).
  destruct c as [x| | |x| |x]; cbn [list_exec].
  - wp_step. eapply wp_mono; [by apply ref_list_push_ok|].
    intros [st l'] (-> & Hwf' & Hc & Hm). wp_go. rewrite Hc. done.
  - eapply wp_mono; [by apply ref_list_pop_ok|].
    intros [st [out l']] (? & Hm & ?). split_and!; [done|lia|done].
  - eapply wp_mono; [by apply ref_list_shift_ok|].
    intros [st [out l']] (? & Hm & ?). split_and!; [done|lia|done].
  - wp_step. eapply wp_mono; [by apply ref_list_delete_ok|].
    intros [st l'] (? & Hm & ?). wp_go. split_and!; [done|lia|done].
  - cbn. wp_go. split_and!; [repeat split; cbn; lia|cbn; lia|done].
  - wp_step. eapply wp_mono; [by apply ref_list_contains_ok|].
    intros [st b] (-> & ->). wp_go. split_and!; [done|lia|done].
Qed.
End proofs.

(** ** Properties *)

(** C16. Any sequence of calls on a fresh [REF_LIST] is defined, and returns the
    statuses and output values, and leaves the values, that the same sequence
    of operations on a plain sequence gives, as long as the list cannot outgrow
    [REF_INT]. *)
Theorem ref_list_refines `{Junk Z} (cs : list list_cmd) :
  10 + 1000 * zlen cs <= REF_INT_MAX ->
  exists l', list_run cs (snd ref_list_create) = Some (fst (list_spec_run cs []), l') /\
    list_wf l' /\ list_content l' = snd (list_spec_run cs []).
Proof.
  intros Hroom. destruct ref_list_create_ok as [Hwf Hc]. rewrite <- Hc.
  change 10 with (list_max (snd ref_list_create)) in Hroom.
  revert Hroom Hwf. generalize (snd ref_list_create). clear Hc.
  induction cs as [|c cs IH]; intros l Hroom Hwf; [by exists l|].
  rewrite zlen_cons in Hroom. pose proof (zlen_nonneg cs). cbn [list_run list_spec_run].
  destruct (list_exec_ok c l Hwf) as ([st [out l1]] & -> & Hwf1 & Hm & <-); [lia|].
  cbn [obind]. destruct (IH l1) as (l2 & -> & Hwf2 & Hc2); [lia|done|].
  exists l2. cbn [obind]. by destruct (list_spec_run cs (list_content l1)).
Qed.

Lemma ref_list_refines_witness :
  exists l', list_run (H := fun _ => 77) [CPush 5; CPush 6; CPush 5; CShift; CDelete 5; CPop; CPop]
    (snd (ref_list_create (H := fun _ => 77))) =
    Some ([(REF_SUCCESS, 0); (REF_SUCCESS, 0); (REF_SUCCESS, 0); (REF_SUCCESS, 5);
           (REF_SUCCESS, 0); (REF_SUCCESS, 6); (REF_FAILURE, -1)], l') /\
    list_wf l' /\ list_content l' = [].
Proof.
  apply (ref_list_refines (H := fun _ => 77)
    [CPush 5; CPush 6; CPush 5; CShift; CDelete 5; CPop; CPop]).
  vm_compute. discriminate.
Defined.

(** A deep copy is defined and holds the same values as the original, in an
    array of the same size, whatever the freshly allocated memory contained. *)
Theorem ref_list_deep_copy_content `{Junk Z} (l : REF_LIST) :
  list_wf l ->
  exists l', ref_list_deep_copy l = Some (REF_SUCCESS, l') /\ list_wf l' /\
    list_max l' = list_max l /\ list_content l' = list_content l.
Proof.
  intros (Hn & Hmax & Hlen).
  enough (wp (ref_list_deep_copy l) (fun '(st, l') => st = REF_SUCCESS /\ list_wf l' /\
    list_max l' = list_max l /\ list_content l' = list_content l))
    as ([st l'] & -> & -> & ?) by eauto.
  unfold ref_list_deep_copy. wp_step.
  eapply (wp_for_up (fun i v => zlen v = list_max l /\
    ztake i v = ztake i (list_value l))); [lia| | |].
  - split; [asimpl; lia|done].
  - intros i v Hi [Hv Ht]. wp_go. split; [by asimpl|].
    rewrite !ztake_S by alia. rewrite ztake_upd_ge, Ht by lia. by asimpl.
  - intros v [Hv Ht]. wp_go. unfold list_wf, list_content; cbn. repeat split; try lia; done.
Qed.

Lemma ref_list_deep_copy_content_witness :
  exists l', ref_list_deep_copy (H := fun _ => -9)
      {| list_n := 2; list_max := 3; list_value := [4; 5; 6] |} = Some (REF_SUCCESS, l') /\
    list_wf l' /\ list_max l' = 3 /\ list_content l' = [4; 5].
Proof.
  apply (ref_list_deep_copy_content (H := fun _ => -9)
    {| list_n := 2; list_max := 3; list_value := [4; 5; 6] |}).
  repeat split; vm_compute; congruence.
Defined.
