(* ===== verification/RefSort.v ===== *)
(** * ref_sort.c: sorting and searching

    The heap sort exists three times in the source, for [REF_INT],
    [REF_GLOB] and [REF_DBL] keys, with the same statements; here it is one
    definition over the comparison [<] of the keys, and [WeakOrder] is what the
    correctness proof needs of that comparison (integers satisfy it, and so do
    doubles as long as no key is a NaN). [rand] is not part of the source: the
    shuffle takes the values it returns as a function. *)
From S2P Require Import Prelude.
From stdpp Require Import prelude list sorting.
From Stdlib Require Import ZArith Lia.
Open Scope Z_scope.
Open Scope ref_scope.

(** ** Keys *)

Class WeakOrder {K : Type} (ltb : K -> K -> bool) : Prop := {
  ltb_asym x y : ltb x y = true -> ltb y x = false;
  ltb_cotrans x y z : ltb x z = true -> ltb x y = true \/ ltb y z = true
}.

#[global] Instance Z_weak_order : WeakOrder Z.ltb.
Proof. split; intros; rewrite ?Z.ltb_lt, ?Z.ltb_ge in *; lia. Qed.

(** ** Selection ([ref_sort_insertion_int]) *)

(** [sorted] is the caller's array. *)
Definition ref_sort_insertion_int (n : Z) (original sorted : list Z)
    : option (REF_STATUS * list Z) :=
  let* sorted :=
    for_up 0 n (fun i sorted =>
      let* v := aget original i in
      aset sorted i v) sorted in
  let* sorted :=
    for_up 0 n (fun i sorted =>
      let* smallest :=
        for_up (i + 1) n (fun j smallest =>
          let* sj := aget sorted j in
          let* ss := aget sorted smallest in
          Some (if sj <? ss then j else smallest)) i in
      let* temp := aget sorted i in
      let* ss := aget sorted smallest in
      let* sorted := aset sorted i ss in
      aset sorted smallest temp) sorted in
  Some (REF_SUCCESS, sorted).

(** ** Heap sort *)

Section heap.
Context {K : Type} `{Inhabited K} (ltb : K -> K -> bool).

(** The [while] loop that sifts the key [q] of [indxt] down from [i]; the
    state is [(i, j, sorted_index)], the result [(i, sorted_index)]. *)
Definition heap_sift_body (original : list K) (ir : Z) (q : K)
    (s : Z * Z * list Z) : option (ctl (Z * Z * list Z) (Z * list Z)) :=
  let '(i, j, sorted_index) := s in
  if j <=? ir then
    let* j :=
      if j <? ir then
        let* sj := aget sorted_index j in
        let* sj1 := aget sorted_index (j + 1) in
        let* oj := aget original sj in
        let* oj1 := aget original sj1 in
        Some (if ltb oj oj1 then j + 1 else j)
      else Some j in
    let* sj := aget sorted_index j in
    let* oj := aget original sj in
    if ltb q oj then
      let* sorted_index := aset sorted_index i sj in
      let i := j in
      let j := j + 1 in
      let* j := ck_int (Z.shiftl j 1) in
      let j := j - 1 in
      Some (Next (i, j, sorted_index))
    else Some (Exit (i, sorted_index))
  else Some (Exit (i, sorted_index)).

(** One iteration of the [for (;;)] loop: the state is
    [(l, ir, sorted_index)]. *)
Definition heap_outer_body (n : Z) (original : list K)
    (s : Z * Z * list Z) : option (ctl (Z * Z * list Z) (list Z)) :=
  let '(l, ir, sorted_index) := s in
  let* c :=
    if 1 <? l then
      let l := l - 1 in
      let* indxt := aget sorted_index (l - 1) in
      let* q := aget original indxt in
      Some (Next (l, ir, indxt, q, sorted_index))
    else
      let* indxt := aget sorted_index ir in
      let* q := aget original indxt in
      let* s0 := aget sorted_index 0 in
      let* sorted_index := aset sorted_index ir s0 in
      let ir := ir - 1 in
      if ir =? 0 then
        let* sorted_index := aset sorted_index 0 indxt in
        Some (Exit sorted_index)
      else Some (Next (l, ir, indxt, q, sorted_index)) in
  match c with
  | Exit sorted_index => Some (Exit sorted_index)
  | Next (l, ir, indxt, q, sorted_index) =>
      let i := l - 1 in
      let j := l + i in
      let* '(i, sorted_index) :=
        loop (Z.to_nat (n + 2)) (heap_sift_body original ir q)
          (i, j, sorted_index) in
      let* sorted_index := aset sorted_index i indxt in
      Some (Next (l, ir, sorted_index))
  end.

Definition ref_sort_heap (n : Z) (original : list K) (sorted_index : list Z)
    : option (REF_STATUS * list Z) :=
  let* sorted_index := for_up 0 n (fun i si => aset si i i) sorted_index in
  if n <? 2 then Some (REF_SUCCESS, sorted_index)
  else
    let l := Z.shiftr n 1 + 1 in
    let ir := n - 1 in
    let* sorted_index :=
      loop (Z.to_nat (2 * n + 2)) (heap_outer_body n original)
        (l, ir, sorted_index) in
    Some (REF_SUCCESS, sorted_index).
End heap.

Definition ref_sort_heap_int := ref_sort_heap Z.ltb.
Definition ref_sort_heap_glob := ref_sort_heap Z.ltb.
(** [ltb] is the comparison of doubles. *)
Definition ref_sort_heap_dbl {REF_DBL : Type} `{Inhabited REF_DBL} (ltb : REF_DBL -> REF_DBL -> bool) :=
  ref_sort_heap ltb.

Section ops.
Context `{Junk Z}.

Definition ref_sort_in_place_glob (n : Z) (sorts : list Z) : option (REF_STATUS * list Z) :=
  if n <? 2 then Some (REF_SUCCESS, sorts)
  else
    let order := alloc n in
    let sorted := alloc n in
    let* '(st, order) := ref_sort_heap_glob n sorts order in
    RSS st sorts (
    let* sorted :=
      for_up 0 n (fun i sorted =>
        let* oi := aget order i in
        let* v := aget sorts oi in
        aset sorted i v) sorted in
    let* sorts :=
      for_up 0 n (fun i sorts =>
        let* v := aget sorted i in
        aset sorts i v) sorts in
    Some (REF_SUCCESS, sorts)).

(** The outputs are [*nunique] and [unique]. *)
Definition ref_sort_unique_int (n : Z) (original unique : list Z)
    : option (REF_STATUS * (Z * list Z)) :=
  let* '(st, unique) := ref_sort_insertion_int n original unique in
  RSS st (REF_EMPTY, unique) (
  let* '(j, unique) :=
    for_up 1 n (fun i '(j, unique) =>
      let* uj := aget unique j in
      let* ui := aget unique i in
      let j := if negb (uj =? ui) then j + 1 else j in
      if negb (j =? i) then
        let* ui := aget unique i in
        let* unique := aset unique j ui in
        Some (j, unique)
      else Some (j, unique)) (0, unique) in
  Some (REF_SUCCESS, (j + 1, unique))).

Definition ref_sort_same (n : Z) (list0 list1 : list Z) : option (REF_STATUS * bool) :=
  let '(st, unique0) := ref_malloc n in
  RSS st false (
  let '(st, unique1) := ref_malloc n in
  RSS st false (
  let* '(st, (n0, unique0)) := ref_sort_unique_int n list0 unique0 in
  RSS st false (
  let* '(st, (n1, unique1)) := ref_sort_unique_int n list1 unique1 in
  RSS st false (
  if n0 =? n1 then
    let* c :=
      forx_up 0 n0 (fun i (_ : unit) =>
        let* u0 := aget unique0 i in
        let* u1 := aget unique1 i in
        if negb (u0 =? u1) then Some (Exit tt) else Some (Next tt)) tt in
    match c with
    | Exit _ => Some (REF_SUCCESS, false)
    | Next _ => Some (REF_SUCCESS, true)
    end
  else Some (REF_SUCCESS, false))))).
End ops.

(** ** Bisection *)

(** [ref_sort_search_int] and [ref_sort_search_glob]: the integer is
    [*position]. *)
Definition search_body (ascending_list : list Z) (target : Z)
    (s : Z * Z * Z) : option (ctl (Z * Z * Z) (REF_STATUS * Z)) :=
  let '(lower, upper, mid) := s in
  if (lower <? mid) && (mid <? upper) then
    let* am := aget ascending_list mid in
    if am <=? target then
      if target =? am then Some (Exit (REF_SUCCESS, mid))
      else
        let lower := mid in
        let* sum := ck_int (lower + upper) in
        Some (Next (lower, upper, Z.shiftr sum 1))
    else
      let upper := mid in
      let* sum := ck_int (lower + upper) in
      Some (Next (lower, upper, Z.shiftr sum 1))
  else Some (Exit (REF_NOT_FOUND, REF_EMPTY)).

Definition ref_sort_search_int (n : Z) (ascending_list : list Z) (target : Z)
    : option (REF_STATUS * Z) :=
  if n <? 1 then Some (REF_NOT_FOUND, REF_EMPTY)
  else
    let* a0 := aget ascending_list 0 in
    let* an := aget ascending_list (n - 1) in
    if (target <? a0) || (an <? target) then Some (REF_NOT_FOUND, REF_EMPTY)
    else
      let lower := 0 in
      let upper := n - 1 in
      let mid := Z.shiftr n 1 in
      let* al := aget ascending_list lower in
      if target =? al then Some (REF_SUCCESS, lower)
      else
        let* au := aget ascending_list upper in
        if target =? au then Some (REF_SUCCESS, upper)
        else loop (Z.to_nat (n + 1)) (search_body ascending_list target) (lower, upper, mid).

Definition ref_sort_search_glob := ref_sort_search_int.

Section search_dbl.
(** The comparisons [<] and [<=] of doubles; they are two parameters because
    [x <= y] is not the negation of [y < x] on a NaN. *)
Context {REF_DBL : Type} `{Inhabited REF_DBL} (ltb leb : REF_DBL -> REF_DBL -> bool).

(** [ascending_list[i] <= target && target < ascending_list[i + 1]] *)
Definition in_interval (ascending_list : list REF_DBL) (target : REF_DBL) (i : Z)
    : option bool :=
  let* a := aget ascending_list i in
  if leb a target then
    let* b := aget ascending_list (i + 1) in
    Some (ltb target b)
  else Some false.

Definition search_dbl_body (ascending_list : list REF_DBL) (target : REF_DBL)
    (s : Z * Z * Z) : option (ctl (Z * Z * Z) (REF_STATUS * Z)) :=
  let '(lower, upper, mid) := s in
  if lower <? upper then
    let* hit := in_interval ascending_list target lower in
    if (hit : bool) then Some (Exit (REF_SUCCESS, lower))
    else
      let* hit := in_interval ascending_list target upper in
      if (hit : bool) then Some (Exit (REF_SUCCESS, upper))
      else
        let* hit := in_interval ascending_list target mid in
        if (hit : bool) then Some (Exit (REF_SUCCESS, mid))
        else
          let* am := aget ascending_list mid in
          let '(lower, upper) :=
            if leb am target then (mid, upper) else (lower, mid) in
          let* sum := ck_int (lower + upper) in
          Some (Next (lower, upper, Z.shiftr sum 1))
  else Some (Exit (REF_FAILURE, REF_EMPTY)).

Definition ref_sort_search_dbl (n : Z) (ascending_list : list REF_DBL) (target : REF_DBL)
    : option (REF_STATUS * Z) :=
  if n <? 1 then Some (REF_NOT_FOUND, REF_EMPTY)
  else if n =? 1 then Some (REF_SUCCESS, 0)
  else
    let* a0 := aget ascending_list 0 in
    if leb target a0 then Some (REF_SUCCESS, 0)
    else
      let* an := aget ascending_list (n - 1) in
      if leb an target then Some (REF_SUCCESS, n - 2)
      else
        let lower := 0 in
        let upper := n - 2 in
        let* sum := ck_int (lower + upper) in
        let mid := Z.shiftr sum 1 in
        let* hit := in_interval ascending_list target mid in
        if (hit : bool) then Some (REF_SUCCESS, mid)
        else loop (Z.to_nat (n + 1)) (search_dbl_body ascending_list target)
               (lower, upper, mid).
End search_dbl.

(** ** Shuffle: [rand k] is what the [k]-th call of [rand] returns. *)
Definition ref_sort_shuffle (rand : Z -> Z) (n : Z) (permutation : list Z)
    : option (REF_STATUS * list Z) :=
  let* permutation := for_up 0 n (fun i p => aset p i i) permutation in
  let* permutation :=
    for_up 0 (n - 1) (fun i p =>
      let j := Z.rem (rand i) (n - 1 - i + 1) + i in
      let j := Z.max i (Z.min j (n - 1)) in
      let* temp := aget p j in
      let* pi := aget p i in
      let* p := aset p j pi in
      aset p i temp) permutation in
  Some (REF_SUCCESS, permutation).

(** [r] is what [rand()] returns; [%] by zero is undefined. *)
Definition ref_sort_rand_in_range (r min max : Z) : option Z :=
  let* d := ck_int (max - min) in
  let* d := ck_int (d + 1) in
  if d =? 0 then None
  else ck_int (Z.rem r d + min).

(** ** Proofs: heap sort *)

Section heap_proofs.
Context {K : Type} `{Inhabited K} (ltb : K -> K -> bool) `{!WeakOrder ltb}.
Context (original : list K) (n : Z).
Implicit Types (a b si : list Z).

Lemma ltb_irrefl x : ltb x x = false.
Proof. destruct (ltb x x) eqn:E; [|done]. by rewrite <- E, (ltb_asym _ _ E). Qed.

Lemma le_trans x y z : ltb y x = false -> ltb z y = false -> ltb z x = false.
Proof.
  intros Hyx Hzy. destruct (ltb z x) eqn:E; [|done].
  destruct (ltb_cotrans z y x E); congruence.
Qed.

Definition key si k : K := original.[si.[k]].

(** The children of [k] that are in the heap are not above it. *)
Definition parent_ok si (ir k : Z) : Prop :=
  forall c, c = 2 * k + 1 \/ c = 2 * k + 2 -> c <= ir ->
    ltb (key si k) (key si c) = false.

Definition valid si : Prop := forall k, 0 <= k < n -> 0 <= si.[k] < zlen original.

(** [b] is [a] with the positions from [r] to [ir] rearranged. *)
Record rearranged (r ir : Z) a b : Prop := {
  rr_len : zlen b = zlen a;
  rr_perm : ztake n b ≡ₚ ztake n a;
  rr_out k : 0 <= k -> k < r \/ ir < k -> b.[k] = a.[k];
  rr_in k : r <= k <= ir -> exists k', r <= k' <= ir /\ b.[k] = a.[k']
}.

Lemma rearranged_refl r ir a : rearranged r ir a a.
Proof. split; try done. intros k Hk. by exists k. Qed.

Lemma rearranged_trans r ir a b si :
  rearranged r ir a b -> rearranged r ir b si -> rearranged r ir a si.
Proof.
  intros [L1 P1 O1 I1] [L2 P2 O2 I2]. split.
  - congruence.
  - by rewrite P2.
  - intros k Hk Hr. rewrite O2, O1; auto.
  - intros k Hk. destruct (I2 k Hk) as (k1 & Hk1 & ->).
    destruct (I1 k1 Hk1) as (k2 & Hk2 & ->). eauto.
Qed.

Lemma rearranged_swap r ir a i j :
  0 <= r -> ir < n -> n <= zlen a -> r <= i <= ir -> r <= j <= ir ->
  rearranged r ir a (swap a i j).
Proof.
  intros Hr Hir Hn Hi Hj. split.
  - apply zlen_swap.
  - apply ztake_swap_permutation; lia.
  - intros k Hk Hout. rewrite aat_swap by lia.
    destruct (Z.eqb_spec k i), (Z.eqb_spec k j); try lia; done.
  - intros k Hk. rewrite aat_swap by lia.
    destruct (Z.eqb_spec k i), (Z.eqb_spec k j); eauto.
Qed.

Lemma rearranged_valid r ir a b :
  0 <= r -> ir < n -> rearranged r ir a b -> valid a -> valid b.
Proof.
  intros Hr Hir [L P O I] Hv k Hk. destruct (decide (r <= k <= ir)) as [Hin|].
  - destruct (I k Hin) as (k' & Hk' & ->). apply Hv. lia.
  - rewrite O by lia. by apply Hv.
Qed.

Context (Hn2 : 2 <= n) (Hmax : 2 * n <= REF_INT_MAX) (Horig : n <= zlen original).

(** The state of the sift: with [indxt] written at [i], the array is a
    rearrangement [h] of the first one, in heap order except below [i], and
    what is below [i] is below the parent of [i]. *)
Definition sift_inv (r ir indxt : Z) a (s : Z * Z * list Z) : Prop :=
  let '(i, j, si) := s in
  let h := upd si i indxt in
  r <= i <= ir /\ j = 2 * i + 1 /\ zlen si = zlen a /\
  rearranged r ir a h /\
  (forall k, r <= k -> k <> i -> parent_ok h ir k) /\
  (forall p c, r <= p -> i = 2 * p + 1 \/ i = 2 * p + 2 ->
     c = 2 * i + 1 \/ c = 2 * i + 2 -> c <= ir -> ltb (key h p) (key h c) = false).

Definition sift_post (r ir indxt : Z) a (res : Z * list Z) : Prop :=
  let '(i, si) := res in
  let h := upd si i indxt in
  r <= i <= ir /\ zlen si = zlen a /\ rearranged r ir a h /\
  (forall k, r <= k -> parent_ok h ir k).

Lemma sift_finish r ir indxt a i j si :
  sift_inv r ir indxt a (i, j, si) ->
  parent_ok (upd si i indxt) ir i ->
  sift_post r ir indxt a (i, si).
Proof.
  intros (Hi & -> & Hlen & Hr & H1 & H2) Hp. split_and!; try done; try lia.
  intros k Hk. destruct (decide (k = i)) as [->|]; [done|by apply H1].
Qed.

(** Moving the larger child [j] of [i] up exchanges it with [indxt]. *)
Lemma sift_down r ir indxt a i j si :
  0 <= r -> ir < n -> n <= zlen a ->
  sift_inv r ir indxt a (i, 2 * i + 1, si) ->
  j = 2 * i + 1 \/ j = 2 * i + 2 -> j <= ir ->
  ltb original.[indxt] (key si j) = true ->
  (forall c, c = 2 * i + 1 \/ c = 2 * i + 2 -> c <= ir -> ltb (key si j) (key si c) = false) ->
  sift_inv r ir indxt a (j, 2 * j + 1, upd si i si.[j]).
Proof.
  intros Hr0 Hir Hna (Hi & _ & Hlen & Hr & H1 & H2) Hj Hjr Hq Hbig.
  set (h := upd si i indxt) in *.
  assert (Hh : upd (upd si i si.[j]) j indxt = swap h i j).
  { unfold swap, h. rewrite upd_upd_eq, aat_upd_eq, aat_upd_ne by lia. done. }
  assert (Hlh : zlen h = zlen a) by (unfold h; rewrite zlen_upd; lia).
  assert (Hkey : forall k, 0 <= k -> key (swap h i j) k =
    if k =? i then key si j else if k =? j then original.[indxt] else key si k).
  { intros k Hk. unfold key. rewrite aat_swap by lia. unfold h.
    rewrite !aat_upd by lia. rewrite Z.eqb_refl.
    destruct (Z.eqb_spec k i), (Z.eqb_spec k j), (Z.eqb_spec i j), (Z.eqb_spec i k);
      try lia; done. }
  assert (Hkh : forall k, 0 <= k -> k <> i -> key h k = key si k).
  { intros k Hk Hki. unfold key, h. by rewrite aat_upd_ne by lia. }
  unfold sift_inv. rewrite Hh. split_and!; try lia; try (rewrite ?zlen_upd; lia).
  - apply rearranged_trans with (b := h); [done|apply rearranged_swap; lia].
  - intros k Hk Hkj c Hc Hcr. rewrite !Hkey by lia.
    destruct (Z.eqb_spec k i) as [->|Hki].
    + destruct (Z.eqb_spec c i), (Z.eqb_spec c j); try lia.
      * by apply ltb_asym.
      * by apply Hbig.
    + destruct (Z.eqb_spec k j), (Z.eqb_spec c i), (Z.eqb_spec c j); try lia; subst.
      * rewrite <- (Hkh k), <- (Hkh j) by lia. apply H2; lia.
      * rewrite <- (Hkh k), <- (Hkh c) by lia. by apply H1.
  - intros p c Hp Hjp Hc Hcr. assert (p = i) as -> by lia. rewrite !Hkey by lia.
    destruct (Z.eqb_spec i i), (Z.eqb_spec c i), (Z.eqb_spec c j); try lia.
    rewrite <- (Hkh j), <- (Hkh c) by lia. apply H1; lia.
Qed.

Lemma sift_wp r ir indxt a i si :
  0 <= r -> ir < n -> n <= zlen a ->
  valid (upd si i indxt) ->
  sift_inv r ir indxt a (i, 2 * i + 1, si) ->
  wp (loop (Z.to_nat (n + 2)) (heap_sift_body ltb original ir original.[indxt])
        (i, 2 * i + 1, si)) (sift_post r ir indxt a).
Proof using All.
  intros Hr0 Hir Hna Hval Hinv.
  apply (wp_loop (fun s => sift_inv r ir indxt a s /\
    let '(i, j, si) := s in valid (upd si i indxt)) (fun '(i, _, _) => ir - i)).
  - done.
  - destruct Hinv as (? & _). lia.
  - intros [[i1 j1] si1] [(? & _) _]. lia.
  - clear i si Hinv Hval. intros [[i j] si] [Hinv Hval]. pose proof Hinv as (Hi & Hj & Hlen & Hrest).
    assert (Hsi : forall k, 0 <= k < n -> k <> i -> 0 <= si.[k] < zlen original).
    { intros k Hk Hki. specialize (Hval k Hk). by rewrite aat_upd_ne in Hval by lia. }
    subst j. unfold heap_sift_body. case Z.leb_spec; intros Hjr.
    2: { apply wp_ret. cbn. eapply sift_finish; [done|]. intros c Hc Hcr. lia. }
    apply wp_bind.
    apply (wp_mono (fun j => (j = 2 * i + 1 \/ j = 2 * i + 2) /\ j <= ir /\
      forall c, c = 2 * i + 1 \/ c = 2 * i + 2 -> c <= ir ->
        ltb (key si j) (key si c) = false)).
    { case Z.ltb_spec; intros Hlt; wp_go; try (apply Hsi; lia).
      - fold (key si (2 * i + 1)) (key si (2 * i + 1 + 1)).
        replace (2 * i + 1 + 1) with (2 * i + 2) by lia.
        destruct (ltb (key si (2 * i + 1)) (key si (2 * i + 2))) eqn:E; (split_and!; [lia..|]);
          intros c [->| ->] Hc; try done; try apply ltb_irrefl. by apply ltb_asym.
      - split_and!; [lia..|]. intros c [->| ->] Hc; [apply ltb_irrefl|lia]. }
    intros j (Hj & Hjr' & Hbig). wp_go; try (apply Hsi; lia).
    fold (key si j). destruct (ltb original.[indxt] (key si j)) eqn:Hq.
    + rewrite Z.shiftl_mul_pow2 by lia. change (2 ^ 1) with 2. wp_go. cbn.
      replace ((j + 1) * 2 - 1) with (2 * j + 1) by lia.
      assert (Hs : sift_inv r ir indxt a (j, 2 * j + 1, upd si i si.[j])) by (apply sift_down; done).
      split; [split; [done|]|lia]. pose proof Hs as (_ & _ & _ & Hrr & _).
      destruct Hrest as (Hrr0 & _). intros k Hk.
      rewrite (aat_upd _ j k) by alia. case Z.eqb_spec; intros.
      * specialize (Hval i ltac:(lia)). by rewrite aat_upd_eq in Hval by lia.
      * rewrite aat_upd by lia. case Z.eqb_spec; intros; apply Hsi; lia.
    + wp_go. cbn. eapply sift_finish; [done|]. intros c Hc Hcr. unfold key.
      rewrite aat_upd_eq, aat_upd_ne by lia. fold (key si c).
      by apply (le_trans _ (key si j)); [apply Hbig|].
Qed.

Lemma heap_root_max si ir :
  (forall k, 0 <= k -> parent_ok si ir k) ->
  forall k, 0 <= k <= ir -> ltb (key si 0) (key si k) = false.
Proof.
  intros Hok k. induction k as [k IH] using (well_founded_induction (Z.lt_wf 0)).
  intros Hk.
  destruct (decide (k = 0)) as [->|]; [apply ltb_irrefl|].
  assert (Hp : 2 * ((k - 1) / 2) + 1 = k \/ 2 * ((k - 1) / 2) + 2 = k).
  { pose proof (Z.div_mod (k - 1) 2 ltac:(lia)).
    pose proof (Z.mod_pos_bound (k - 1) 2 ltac:(lia)). lia. }
  apply (le_trans _ (key si ((k - 1) / 2))).
  - apply Hok; lia.
  - apply IH; lia.
Qed.

(** The state of the outer loop: a heap from [l - 1] to [ir], then the
    largest keys in order. *)
Definition outer_inv a (s : Z * Z * list Z) : Prop :=
  let '(l, ir, si) := s in
  1 <= l /\ l <= n / 2 + 1 /\ 1 <= ir < n /\ (1 < l -> ir = n - 1) /\
  rearranged 0 (n - 1) a si /\
  (forall k, l - 1 <= k -> parent_ok si ir k) /\
  (forall k m, 0 <= k <= m -> ir < m < n -> ltb (key si m) (key si k) = false).

Definition outer_post a si : Prop :=
  rearranged 0 (n - 1) a si /\
  forall k m, 0 <= k <= m -> m < n -> ltb (key si m) (key si k) = false.

Lemma rearranged_weaken r ir a b :
  0 <= r -> ir <= n - 1 -> rearranged r ir a b -> rearranged 0 (n - 1) a b.
Proof.
  intros Hr Hir [L P O I]. split; [done|done|intros; apply O; lia|].
  intros k Hk. destruct (decide (r <= k <= ir)) as [Hin|].
  - destruct (I k Hin) as (k' & ? & ->). exists k'. split; [lia|done].
  - exists k. split; [lia|]. apply O; lia.
Qed.

(** What the sift leaves, seen from the outer loop. *)
Lemma outer_next a l ir b c :
  1 <= l <= n / 2 + 1 -> 1 <= ir < n -> (1 < l -> ir = n - 1) ->
  rearranged 0 (n - 1) a b -> rearranged (l - 1) ir b c ->
  (forall k, l - 1 <= k -> parent_ok c ir k) ->
  (forall k m, 0 <= k <= m -> ir < m < n -> ltb (key b m) (key b k) = false) ->
  outer_inv a (l, ir, c).
Proof.
  intros Hl Hir Hlir Hab Hbc Hheap Hle.
  split_and!; try lia; try done.
  - apply rearranged_trans with (b := b); [done|]. apply (rearranged_weaken (l - 1) ir); [lia..|done].
  - intros k m Hk Hm. destruct Hbc as [_ _ Ho Hin]. unfold key.
    rewrite (Ho m) by lia. destruct (decide (l - 1 <= k <= ir)) as [Hkin|].
    + destruct (Hin k Hkin) as (k' & Hk' & ->). apply (Hle k' m); lia.
    + rewrite (Ho k) by lia. apply (Hle k m); lia.
Qed.

(** Exchanging the root with the last element of the heap keeps the largest
    keys last. *)
Lemma outer_extract a ir si :
  n <= zlen a -> outer_inv a (1, ir, si) ->
  let h := swap si ir 0 in
  rearranged 0 (n - 1) a h /\
  (forall k, 0 < k -> parent_ok h (ir - 1) k) /\
  (forall k m, 0 <= k <= m -> ir - 1 < m < n -> ltb (key h m) (key h k) = false).
Proof.
  intros Hna (_ & _ & Hir & _ & Hrr & Hheap & Hle) h.
  pose proof (rr_len _ _ _ _ Hrr) as Hlen.
  assert (Hkey : forall k, 0 <= k -> key h k =
    if k =? ir then key si 0 else if k =? 0 then key si ir else key si k).
  { intros k Hk. unfold key, h. rewrite aat_swap by lia.
    by destruct (Z.eqb_spec k ir), (Z.eqb_spec k 0). }
  assert (Hmax0 : forall k, 0 <= k <= ir -> ltb (key si 0) (key si k) = false).
  { apply heap_root_max. intros. apply Hheap. lia. }
  split_and!.
  - apply rearranged_trans with (b := si); [done|]. apply rearranged_swap; lia.
  - intros k Hk c Hc Hcr. rewrite !Hkey by lia.
    destruct (Z.eqb_spec k ir), (Z.eqb_spec k 0), (Z.eqb_spec c ir), (Z.eqb_spec c 0); try lia.
    apply Hheap; lia.
  - intros k m Hk Hm. rewrite !Hkey by lia.
    destruct (Z.eqb_spec m ir), (Z.eqb_spec m 0), (Z.eqb_spec k ir), (Z.eqb_spec k 0); try lia;
      try apply ltb_irrefl; try (apply Hmax0; lia); apply Hle; lia.
Qed.

Lemma outer_body_wp a s :
  n <= zlen a -> valid a -> outer_inv a s ->
  wp (heap_outer_body ltb n original s)
    (ctl_post (fun s' => outer_inv a s' /\
       (let '(l', ir', _) := s' in l' + ir') < (let '(l, ir, _) := s in l + ir))
       (outer_post a)).
Proof using All.
  intros Hna Hva Hinv. destruct s as [[l ir] si].
  pose proof Hinv as (Hl1 & Hl2 & Hir & Hlir & Hrr & Hheap & Hle).
  pose proof (rr_len _ _ _ _ Hrr) as Hlen.
  assert (Hvs : valid si) by (apply (rearranged_valid 0 (n - 1) a); [lia|lia|done|done]).
  assert (Hhalf : n / 2 < n) by (apply Z.div_lt; lia).
  unfold heap_outer_body. case Z.ltb_spec; intros Hl.
  - wp_go; try (apply Hvs; lia). cbn.
    replace (l - 1 + (l - 1 - 1)) with (2 * (l - 1 - 1) + 1) by lia.
    eapply wp_mono.
    + apply (sift_wp (l - 1 - 1) ir si.[l - 1 - 1] si); try lia.
      * by rewrite upd_id by lia.
      * unfold sift_inv. rewrite upd_id by lia.
        split_and!; try lia; [apply rearranged_refl|].
        intros k Hk Hk2. apply Hheap. lia.
    + intros [i si'] (Hi & Hlen' & Hrr' & Hheap'). wp_go. split; [|lia].
      apply (outer_next a (l - 1) ir si); try lia; done.
  - assert (l = 1) as -> by lia.
    destruct (outer_extract a ir si Hna Hinv) as (Hrh & Hph & Hleh).
    assert (Hsw : upd (upd si ir si.[0]) 0 si.[ir] = swap si ir 0) by done.
    pose proof (zlen_swap si ir 0) as Hls.
    wp_go; try (apply Hvs; lia).
    + cbn [ctl_post]. rewrite Hsw. split; [done|]. intros k m Hk Hm.
      destruct (decide (m = 0)); [|apply Hleh; lia].
      assert (k = m) as -> by lia. apply ltb_irrefl.
    + cbn. replace (1 + (1 - 1)) with (2 * (1 - 1) + 1) by lia.
      eapply wp_mono.
      * apply (sift_wp 0 (ir - 1) si.[ir] (swap si ir 0)); try lia.
        -- change (1 - 1) with 0. rewrite Hsw.
           apply (rearranged_valid 0 (n - 1) a); [lia|lia|done|done].
        -- unfold sift_inv. change (1 - 1) with 0. rewrite Hsw.
           split_and!; try (rewrite ?zlen_upd; lia); [apply rearranged_refl|].
           intros k Hk Hk2. apply Hph. lia.
      * intros [i si'] (Hi & Hlen' & Hrr' & Hheap'). wp_go. split; [|lia].
        apply (outer_next a 1 (ir - 1) (swap si ir 0)); try lia; try done.
Qed.
End heap_proofs.

Lemma ref_sort_heap_ok {K} `{Inhabited K} (ltb : K -> K -> bool) `{!WeakOrder ltb}
    (n : Z) (original : list K) (sorted_index : list Z) :
  0 <= n -> 2 * n <= REF_INT_MAX -> n <= zlen original -> n <= zlen sorted_index ->
  wp (ref_sort_heap ltb n original sorted_index) (fun '(st, si) =>
    st = REF_SUCCESS /\ zlen si = zlen sorted_index /\
    ztake n si ≡ₚ zrange n /\
    (forall k m, 0 <= k <= m -> m < n ->
       ltb original.[si.[m]] original.[si.[k]] = false) /\
    (forall k, n <= k -> si.[k] = sorted_index.[k])).
Proof.
  intros Hn0 Hmax Hlo Hls. unfold ref_sort_heap. wp_step.
  apply (wp_fill (fun i => i)); [lia|lia| |].
  { intros i d Hi Hd _. by wp_go. }
  intros si Hlen Hsi. pose proof (zlen_nonneg sorted_index).
  assert (Hid : forall k, 0 <= k < n -> si.[k] = k).
  { intros k Hk. rewrite Hsi by lia. destruct (Z.leb_spec 0 k), (Z.ltb_spec k n); try lia; done. }
  assert (Htake : ztake n si = zrange n).
  { apply arr_ext; rewrite zlen_ztake by lia; [by rewrite zlen_zrange|].
    intros k Hk. by rewrite aat_ztake, aat_zrange, Hid by lia. }
  assert (Hrest : forall k, n <= k -> si.[k] = sorted_index.[k]).
  { intros k Hk. destruct (decide (k < zlen sorted_index)).
    - rewrite Hsi by lia. destruct (Z.leb_spec 0 k), (Z.ltb_spec k n); try lia; done.
    - unfold aat. rewrite !aget_out by lia. done. }
  wp_go.
  { split_and!; [done|done|by rewrite Htake| |done].
    intros k m Hk Hm. replace m with k by lia. by apply ltb_irrefl. }
  assert (Hsh : Z.shiftr n 1 = n / 2) by (by rewrite Z.shiftr_div_pow2 by lia).
  pose proof (Z.div_mod n 2 ltac:(lia)). pose proof (Z.mod_pos_bound n 2 ltac:(lia)).
  apply (wp_mono (outer_post ltb original n si)).
  1: apply (wp_loop (outer_inv ltb original n si) (fun '(l, ir, _) => l + ir)).
  - split_and!; try lia; [by apply rearranged_refl|].
    intros k Hk c Hc Hcr. lia.
  - lia.
  - intros [[l ir] s] (? & ? & ? & _). lia.
  - intros s Hs. eapply wp_mono.
    + apply outer_body_wp with (a := si); try lia; try done.
      intros k Hk. rewrite Hid by lia. lia.
    + intros [s'|r]; [|done]. by destruct s' as [[? ?] ?], s as [[? ?] ?].
  - intros s [Hrr Hsorted]. wp_go. pose proof (rr_len _ _ _ _ _ Hrr).
    split_and!; [done|lia|rewrite <- Htake; apply Hrr|exact Hsorted|].
    intros k Hk. rewrite (rr_out _ _ _ _ _ Hrr) by lia. by apply Hrest.
Qed.

(** ** Proofs: selection, unique, same *)

(** The elements from [0] to [n - 1] do not decrease. *)
Definition ascending (n : Z) (a : list Z) : Prop :=
  forall i j, 0 <= i <= j -> j < n -> a.[i] <= a.[j].

Lemma ascending_sorted n a :
  n <= zlen a -> ascending n a -> StronglySorted Z.le (ztake n a).
Proof.
  intros Hn Ha. apply StronglySorted_aat. intros i j Hi Hj.
  destruct (Z_lt_le_dec n 0).
  - exfalso. revert Hj. unfold ztake. rewrite Z2Nat.nonpos, take_0 by lia. unfold zlen. cbn. lia.
  - rewrite zlen_ztake in Hj by (pose proof (zlen_nonneg a); lia).
    rewrite !aat_ztake by lia. apply Ha; lia.
Qed.

(** The inner loop finds the position of the smallest of [a.[i]], ... *)
Lemma select_wp n i a :
  0 <= i < n -> n <= zlen a ->
  wp (for_up (i + 1) n (fun j smallest =>
        let* sj := aget a j in
        let* ss := aget a smallest in
        Some (if sj <? ss then j else smallest)) i)
    (fun m => i <= m < n /\ forall k, i <= k < n -> a.[m] <= a.[k]).
Proof.
  intros Hi Hn.
  apply (wp_for_up (fun j m => i <= m < j /\ forall k, i <= k < j -> a.[m] <= a.[k])).
  - lia.
  - split; [lia|]. intros k Hk. replace k with i by lia. lia.
  - intros j m Hj [Hm Hmin]. wp_go. case Z.ltb_spec; intros Hlt; (split; [lia|]); intros k Hk.
    + destruct (decide (k = j)) as [->|]; [lia|]. specialize (Hmin k ltac:(lia)). lia.
    + destruct (decide (k = j)) as [->|]; [lia|]. apply Hmin. lia.
  - done.
Qed.

Lemma ref_sort_insertion_int_ok n original sorted :
  0 <= n -> n <= zlen original -> n <= zlen sorted ->
  wp (ref_sort_insertion_int n original sorted) (fun '(st, s) =>
    st = REF_SUCCESS /\ zlen s = zlen sorted /\
    ztake n s ≡ₚ ztake n original /\ ascending n s).
Proof.
  intros Hn0 Hlo Hls. unfold ref_sort_insertion_int. wp_step.
  apply (wp_fill (fun i => original.[i])); [lia|lia| |].
  { intros i d Hi Hd _. by wp_go. }
  intros s0 Hl0 Hs0. wp_step.
  apply (wp_for_up (fun i s => zlen s = zlen sorted /\ ztake n s ≡ₚ ztake n original /\
    forall p q, 0 <= p <= q -> p < i -> q < n -> s.[p] <= s.[q])).
  - lia.
  - split_and!; [done| |lia]. apply reflexive_eq.
    apply arr_ext; rewrite !zlen_ztake by lia; [done|]. intros k Hk.
    rewrite !aat_ztake, Hs0 by lia.
    destruct (Z.leb_spec 0 k), (Z.ltb_spec k n); try lia; done.
  - intros i s Hi (Hl & Hp & Hs). wp_step. eapply wp_mono; [apply select_wp; lia|].
    intros m [Hm Hmin]. wp_go. fold (swap s i m). rewrite zlen_swap. split_and!; [done| |].
    + by rewrite ztake_swap_permutation by lia.
    + intros p q Hpq Hpi Hq. rewrite !aat_swap by lia.
      destruct (Z.eqb_spec p i), (Z.eqb_spec p m), (Z.eqb_spec q i), (Z.eqb_spec q m);
        subst; try lia; first [apply Hmin; lia | apply Hs; lia].
  - intros s (Hl & Hp & Hs). wp_go. split_and!; try done. intros p q ? ?. apply Hs; lia.
Qed.

(** What [ref_sort_unique_int] computes: the elements, once each, in order. *)
Definition canonical (l : list Z) : list Z := merge_sort Z.le (remove_dups l).

Lemma elem_of_canonical l x : x ∈ canonical l <-> x ∈ l.
Proof. unfold canonical. by rewrite merge_sort_Permutation, elem_of_remove_dups. Qed.

Lemma canonical_unique l c :
  StronglySorted Z.lt c -> (forall x, x ∈ c <-> x ∈ l) -> c = canonical l.
Proof.
  intros Hs Hx. apply (StronglySorted_unique Z.le).
  - clear Hx. induction Hs; constructor; [done|]. eapply Forall_impl; [done|]. cbn. lia.
  - unfold canonical. apply StronglySorted_merge_sort; apply _.
  - unfold canonical. rewrite merge_sort_Permutation. apply NoDup_Permutation.
    + clear Hx. induction Hs as [|x c Hs IH Hf]; constructor; [|done].
      intros Hin. rewrite Forall_forall in Hf. specialize (Hf x Hin). lia.
    + apply NoDup_remove_dups.
    + intros x. by rewrite Hx, elem_of_remove_dups.
Qed.

Lemma canonical_eq l1 l2 : canonical l1 = canonical l2 <-> (forall x, x ∈ l1 <-> x ∈ l2).
Proof.
  split.
  - intros He x. by rewrite <- (elem_of_canonical l1), He, elem_of_canonical.
  - intros Hx. apply (StronglySorted_unique Z.le).
    1,2: unfold canonical; apply StronglySorted_merge_sort; apply _.
    unfold canonical. rewrite !merge_sort_Permutation.
    apply NoDup_Permutation; [apply NoDup_remove_dups..|].
    intros x. by rewrite !elem_of_remove_dups.
Qed.

Section unique.
Context `{Junk Z}.

(** Before the iteration of index [i], the first [j + 1] elements of [u] are
    those of [s] below [i], once each. *)
Definition uniq_inv (n : Z) (s : list Z) (i : Z) (st : Z * list Z) : Prop :=
  let '(j, u) := st in
  0 <= j < i /\ zlen u = zlen s /\
  (forall k, i <= k < n -> u.[k] = s.[k]) /\ u.[j] = s.[i - 1] /\
  (forall p q, 0 <= p < q -> q <= j -> u.[p] < u.[q]) /\
  (forall x, x ∈ ztake (j + 1) u <-> x ∈ ztake i s).

Lemma uniq_old n s i j u :
  n <= zlen s -> i < n -> uniq_inv n s i (j, u) -> u.[j] = u.[i] ->
  uniq_inv n s (i + 1) (j, u).
Proof.
  intros Hn Hi (Hj & Hlu & Hrest & Hlast & Hlt & Hset) He.
  split_and!; try lia; try done.
  - intros. apply Hrest. lia.
  - rewrite Z.add_simpl_r, He. apply Hrest. lia.
  - intros x. rewrite (ztake_S i s), elem_of_app, <- Hset, list_elem_of_singleton by lia.
    split; [by left|]. intros [?| ->]; [done|]. rewrite <- (Hrest i), <- He by lia.
    rewrite elem_of_ztake by lia. exists j. lia.
Qed.

Lemma uniq_new n s i j u :
  n <= zlen s -> i < n -> uniq_inv n s i (j, u) -> u.[j] < u.[i] ->
  uniq_inv n s (i + 1) (j + 1, upd u (j + 1) u.[i]).
Proof.
  intros Hn Hi (Hj & Hlu & Hrest & Hlast & Hlt & Hset) He.
  split_and!; rewrite ?zlen_upd; try lia.
  - intros k Hk. rewrite aat_upd_ne by lia. apply Hrest. lia.
  - rewrite aat_upd_eq, Z.add_simpl_r by lia. apply Hrest. lia.
  - intros p q Hpq Hq. rewrite !aat_upd by lia.
    destruct (Z.eqb_spec (j + 1) p), (Z.eqb_spec (j + 1) q); try lia.
    + destruct (decide (p = j)) as [->|]; [lia|].
      specialize (Hlt p j ltac:(lia) ltac:(lia)). lia.
    + apply Hlt; lia.
  - intros x. rewrite ztake_S_upd, (ztake_S i s) by lia.
    rewrite !elem_of_app, Hset, (Hrest i) by lia. done.
Qed.

Lemma ref_sort_unique_int_ok n original unique :
  1 <= n -> n <= zlen original -> n <= zlen unique ->
  wp (ref_sort_unique_int n original unique) (fun '(st, (nunique, u)) =>
    st = REF_SUCCESS /\ zlen u = zlen unique /\ 1 <= nunique <= n /\
    ztake nunique u = canonical (ztake n original)).
Proof.
  intros Hn0 Hlo Hlu. unfold ref_sort_unique_int. wp_step.
  eapply wp_mono; [by apply ref_sort_insertion_int_ok; lia|].
  intros [st s] (-> & Hl & Hp & Hs). cbn [RSS]. wp_step.
  apply (wp_for_up (uniq_inv n s)).
  - lia.
  - split_and!; try lia; done.
  - intros i [j u] Hi Hinv. pose proof Hinv as (Hj & Hlu' & Hrest & Hlast & _).
    assert (Hle : u.[j] <= u.[i]) by (rewrite Hlast, Hrest by lia; apply Hs; lia).
    wp_go. destruct (Z.eqb_spec u.[j] u.[i]) as [He|Hne]; cbn [negb].
    + destruct (Z.eqb_spec j i); [lia|]. cbn [negb]. wp_go.
      rewrite <- He, upd_id by lia. apply uniq_old; try done; lia.
    + pose proof (uniq_new n s i j u ltac:(lia) ltac:(lia) Hinv ltac:(lia)) as Hnew.
      destruct (Z.eqb_spec (j + 1) i) as [He|]; cbn [negb]; wp_go; [|done].
      rewrite He, upd_id in Hnew by lia. by rewrite He.
  - intros [j u] (Hj & Hlu' & _ & _ & Hlt & Hset). wp_go.
    split_and!; try lia; [done|]. apply canonical_unique.
    + apply StronglySorted_aat. intros p q Hpq Hq. rewrite zlen_ztake in Hq by lia.
      rewrite !aat_ztake by lia. apply Hlt; lia.
    + intros x. rewrite Hset. by rewrite Hp.
Qed.

Lemma ref_sort_same_ok n list0 list1 :
  1 <= n -> n <= zlen list0 -> n <= zlen list1 ->
  wp (ref_sort_same n list0 list1) (fun '(st, same) =>
    st = REF_SUCCESS /\
    same = bool_decide (canonical (ztake n list0) = canonical (ztake n list1))).
Proof.
  intros Hn Hl0 Hl1. unfold ref_sort_same, ref_malloc.
  destruct (Z.ltb_spec n 0); [lia|]. cbn [RSS].
  wp_step. eapply wp_mono; [apply ref_sort_unique_int_ok; asimpl; lia|].
  intros [st [n0 u0]] (-> & Hlu0 & Hn0 & <-). cbn [RSS].
  wp_step. eapply wp_mono; [apply ref_sort_unique_int_ok; asimpl; lia|].
  intros [st [n1 u1]] (-> & Hlu1 & Hn1 & <-). cbn [RSS].
  rewrite zlen_alloc in Hlu0, Hlu1 by lia. wp_step.
  - subst n1. wp_step.
    apply (wp_forx_up (fun i _ => forall k, 0 <= k < i -> u0.[k] = u1.[k])
      (fun _ => ztake n0 u0 <> ztake n0 u1)); [lia|lia| | |].
    + intros i [] Hi Heq. wp_go. destruct (Z.eqb_spec u0.[i] u1.[i]) as [He|Hne]; cbn; wp_go; cbn.
      * intros k Hk. destruct (decide (k = i)) as [->|]; [done|]. apply Heq. lia.
      * intros Ht. apply Hne. rewrite <- (aat_ztake n0 u0), <- (aat_ztake n0 u1) by lia. by rewrite Ht.
    + intros [] Heq. wp_go. split; [done|]. rewrite bool_decide_eq_true_2; [done|].
      apply arr_ext; rewrite !zlen_ztake by lia; [done|].
      intros k Hk. rewrite !aat_ztake by lia. by apply Heq.
    + intros [] Hne. wp_go. by rewrite bool_decide_eq_false_2.
  - wp_go. rewrite bool_decide_eq_false_2; [done|].
    intros Ht. apply (f_equal zlen) in Ht. rewrite !zlen_ztake in Ht by lia. done.
Qed.

Lemma ref_sort_in_place_glob_ok n sorts :
  0 <= n -> 2 * n <= REF_INT_MAX -> n <= zlen sorts ->
  wp (ref_sort_in_place_glob n sorts) (fun '(st, s) =>
    st = REF_SUCCESS /\ zlen s = zlen sorts /\ ztake n s ≡ₚ ztake n sorts /\
    ascending n s /\ forall k, n <= k -> s.[k] = sorts.[k]).
Proof.
  intros Hn0 Hmax Hl. unfold ref_sort_in_place_glob. wp_step.
  { wp_go. split_and!; try done. intros p q ? ?. replace q with p by lia. lia. }
  wp_step. eapply wp_mono; [apply ref_sort_heap_ok; try lia; try apply _; by rewrite zlen_alloc by lia|].
  intros [st order] (-> & Hlen & Hperm & Hsorted & _). cbn [RSS].
  rewrite zlen_alloc in Hlen by lia.
  assert (Hord : forall k, 0 <= k < n -> 0 <= order.[k] < n).
  { intros k Hk. apply elem_of_zrange. rewrite <- Hperm. apply elem_of_ztake; [lia|]. eauto. }
  wp_step. apply (wp_fill (fun i => sorts.[order.[i]])); [lia|rewrite zlen_alloc; lia| |].
  { intros i d Hi Hd _. rewrite zlen_alloc in Hd by lia. specialize (Hord i Hi). by wp_go. }
  intros sorted Hls Hsd. rewrite zlen_alloc in Hls, Hsd by lia. wp_step.
  apply (wp_fill (fun i => sorted.[i])); [lia|lia| |].
  { intros i d Hi Hd _. by wp_go. }
  intros s Hlen2 Hs. wp_go.
  assert (Hval : forall k, 0 <= k < n -> s.[k] = sorts.[order.[k]]).
  { intros k Hk. rewrite Hs, Hsd by lia.
    destruct (Z.leb_spec 0 k), (Z.ltb_spec k n); try lia; done. }
  split_and!; [done|done| | |].
  - rewrite <- (map_aat_zrange sorts) by lia. rewrite <- Hperm.
    apply reflexive_eq. apply arr_ext; rewrite ?zlen_map, !zlen_ztake by lia; [done|].
    intros k Hk. rewrite aat_map by (rewrite zlen_ztake; lia).
    by rewrite !aat_ztake, Hval by lia.
  - intros p q Hp Hq. rewrite !Hval by lia. specialize (Hsorted p q Hp Hq).
    by rewrite Z.ltb_ge in Hsorted.
  - intros k Hk. destruct (decide (k < zlen s)).
    + rewrite Hs by lia. destruct (Z.leb_spec 0 k), (Z.ltb_spec k n); try lia; done.
    + unfold aat. rewrite !aget_out by lia. done.
Qed.
End unique.

(** ** Proofs: bisection and shuffle *)

Lemma shiftr_half z : Z.shiftr z 1 = z / 2.
Proof. by rewrite Z.shiftr_div_pow2 by lia. Qed.

(** What a search among the first [n] elements promises. *)
Definition search_post (n : Z) (a : list Z) (target : Z) (res : REF_STATUS * Z) : Prop :=
  match res with
  | (REF_SUCCESS, position) => 0 <= position < n /\ a.[position] = target
  | (st, position) =>
      st = REF_NOT_FOUND /\ position = REF_EMPTY /\ forall i, 0 <= i < n -> a.[i] <> target
  end.

(** The loop keeps the target strictly between [a.[lower]] and [a.[upper]]. *)
Definition search_inv (n : Z) (a : list Z) (target : Z) (s : Z * Z * Z) : Prop :=
  let '(lower, upper, mid) := s in
  0 <= lower < upper /\ upper < n /\ a.[lower] < target < a.[upper] /\
  (lower < mid < upper \/ upper = lower + 1 /\ ~ lower < mid < upper).

Lemma search_next n a target lower upper :
  0 <= lower < upper -> upper < n -> a.[lower] < target < a.[upper] ->
  search_inv n a target (lower, upper, (lower + upper) / 2).
Proof.
  intros Hl Hu Ht. pose proof (Z.div_mod (lower + upper) 2 ltac:(lia)).
  pose proof (Z.mod_pos_bound (lower + upper) 2 ltac:(lia)). split_and!; lia.
Qed.

Lemma search_loop_ok n a target lower upper mid :
  n <= zlen a -> 2 * n <= REF_INT_MAX -> ascending n a ->
  search_inv n a target (lower, upper, mid) ->
  wp (loop (Z.to_nat (n + 1)) (search_body a target) (lower, upper, mid))
    (search_post n a target).
Proof.
  intros Hn Hmax Ha Hinv.
  apply (wp_loop (search_inv n a target) (fun '(lower, upper, _) => upper - lower)).
  - done.
  - destruct Hinv as (? & ? & _). lia.
  - intros [[l u] m] (? & ? & _). lia.
  - clear lower upper mid Hinv. intros [[l u] m] (Hlu & Hu & Ht & Hmid).
    unfold search_body. destruct Hmid as [Hmid|[He Hmid]].
    + rewrite (proj2 (Z.ltb_lt l m)), (proj2 (Z.ltb_lt m u)) by lia. cbn [andb].
      wp_go; cbn [ctl_post search_post]; rewrite ?shiftr_half; try alia.
      * split; [apply search_next; lia|lia].
      * split; [apply search_next; lia|lia].
    + replace ((l <? m) && (m <? u)) with false.
      2: { symmetry. apply andb_false_iff. rewrite !Z.ltb_ge. lia. }
      wp_go. split_and!; [done|done|]. intros i Hi He2.
      destruct (Z_le_gt_dec i l).
      * specialize (Ha i l ltac:(lia) ltac:(lia)). lia.
      * specialize (Ha u i ltac:(lia) ltac:(lia)). lia.
Qed.

Lemma ref_sort_search_int_ok n a target :
  n <= zlen a -> 2 * n <= REF_INT_MAX -> ascending n a ->
  wp (ref_sort_search_int n a target) (search_post n a target).
Proof.
  intros Hn Hmax Ha. unfold ref_sort_search_int. wp_step.
  { wp_go. split_and!; [done|done|]. intros. lia. }
  wp_go. destruct (Z.ltb_spec target a.[0]); cbn [orb].
  { wp_go. split_and!; [done|done|]. intros i Hi.
    specialize (Ha 0 i ltac:(lia) ltac:(lia)). lia. }
  wp_go.
  { split_and!; [done|done|]. intros i Hi.
    specialize (Ha i (n - 1) ltac:(lia) ltac:(lia)). lia. }
  { cbn. split; [lia|done]. }
  { cbn. split; [lia|done]. }
  apply search_loop_ok; try done. rewrite shiftr_half.
  assert (n <> 1) by (intros ->; change (1 - 1) with 0 in *; lia).
  pose proof (Z.div_mod n 2 ltac:(lia)). pose proof (Z.mod_pos_bound n 2 ltac:(lia)).
  split_and!; lia.
Qed.

(** The turn of the bisection that overflows: the new end of the interval makes
    [lower + upper] too large. *)
Definition search_overflows (n : Z) (a : list Z) (target : Z) (s : Z * Z * Z) : Prop :=
  let '(lower, upper, mid) := s in
  0 <= lower < mid /\ mid < upper < n /\
  (a.[mid] < target /\ mid + upper > REF_INT_MAX \/ target < a.[mid] /\ lower + mid > REF_INT_MAX).

Lemma search_overflows_stuck n a target s :
  n <= zlen a -> search_overflows n a target s -> search_body a target s = None.
Proof.
  destruct s as [[l u] m]. intros Hn (Hl & Hm & Ho). unfold search_body.
  rewrite (proj2 (Z.ltb_lt l m)), (proj2 (Z.ltb_lt m u)), aget_aat by lia. cbn [andb obind].
  destruct (Z.leb_spec a.[m] target), (Z.eqb_spec target a.[m]); try lia; rewrite ck_int_overflow; (done || lia).
Qed.

(** The interval shrinks to that of [k] and [k + 1], unless a sum overflows before. *)
Lemma search_overflow_reached n a target k mid :
  n <= zlen a -> ascending n a -> 0 <= k -> k + 1 < n -> 2 * k + 1 > REF_INT_MAX ->
  a.[k] < target < a.[k + 1] -> 0 < mid < n - 1 ->
  exists s, steps (search_body a target) (0, n - 1, mid) s /\ search_overflows n a target s.
Proof.
  intros Hn Ha Hk Hkn Hbig Ht Hmid.
  destruct (loop_reaches (fun '(l, u, m) => 0 <= l <= k /\ k + 1 <= u < n /\ l < m < u)
    (search_overflows n a target) (fun '(l, u, _) => u - l) (search_body a target) (0, n - 1, mid))
    as (s & Hs & _ & Ho); [lia|intros [[l u] m]; lia| |by exists s].
  intros [[l u] m] (Hl & Hu & Hm). cbn [search_overflows]. unfold search_body.
  rewrite (proj2 (Z.ltb_lt l m)), (proj2 (Z.ltb_lt m u)), aget_aat by lia. cbn [andb obind].
  destruct (Z_le_gt_dec m k) as [Hmk|Hmk].
  - specialize (Ha m k ltac:(lia) ltac:(lia)).
    destruct (Z_le_gt_dec (m + u) REF_INT_MAX) as [Hs|Hs]; [right|left; lia].
    destruct (Z.leb_spec a.[m] target), (Z.eqb_spec target a.[m]); try lia.
    rewrite ck_int_ok by (unfold REF_INT_MIN; lia). cbn [obind]. rewrite shiftr_half.
    pose proof (Z.div_mod (m + u) 2 ltac:(lia)). pose proof (Z.mod_pos_bound (m + u) 2 ltac:(lia)).
    eexists; split; [reflexivity|]. cbn. lia.
  - specialize (Ha (k + 1) m ltac:(lia) ltac:(lia)).
    destruct (Z_le_gt_dec (l + m) REF_INT_MAX) as [Hs|Hs]; [right|left; lia].
    destruct (Z.leb_spec a.[m] target), (Z.eqb_spec target a.[m]); try lia.
    rewrite ck_int_ok by (unfold REF_INT_MIN; lia). cbn [obind]. rewrite shiftr_half.
    pose proof (Z.div_mod (l + m) 2 ltac:(lia)). pose proof (Z.mod_pos_bound (l + m) 2 ltac:(lia)).
    eexists; split; [reflexivity|]. cbn. lia.
Qed.

(** The numbers below [n - 1], then [n]. *)
Lemma gap_array n : 2 <= n ->
  zlen (zrange (n - 1) ++ [n]) = n /\
  (forall i, 0 <= i < n - 1 -> (zrange (n - 1) ++ [n]).[i] = i) /\
  (zrange (n - 1) ++ [n]).[n - 1] = n.
Proof.
  intros Hn. split; [|split].
  - rewrite zlen_app, zlen_zrange by lia. change (zlen [n]) with 1. lia.
  - intros i Hi. rewrite aat_app_l, aat_zrange by (rewrite ?zlen_zrange; lia). done.
  - rewrite aat_app_r, zlen_zrange, Z.sub_diag, aat_cons_0 by (rewrite ?zlen_zrange; lia). done.
Qed.

(** [canonical] searches: a strictly increasing array has one position. *)
Lemma search_post_found n a target i :
  (forall p q, 0 <= p < q -> q < n -> a.[p] < a.[q]) ->
  0 <= i < n -> a.[i] = target ->
  forall res, search_post n a target res -> res = (REF_SUCCESS, i).
Proof.
  intros Hs Hi Ht [st p]. cbn.
  destruct st; intros Hres; try (destruct Hres as (_ & _ & Hno); exfalso; by apply (Hno i)).
  destruct Hres as [Hp Hap]. f_equal.
  destruct (Z.lt_trichotomy p i) as [Hlt|[?|Hlt]]; [|done|].
  - specialize (Hs p i ltac:(lia) ltac:(lia)). lia.
  - specialize (Hs i p ltac:(lia) ltac:(lia)). lia.
Qed.

Section search_dbl_proofs.
Context {REF_DBL : Type} `{Inhabited REF_DBL} (ltb leb : REF_DBL -> REF_DBL -> bool).
Context `{!WeakOrder ltb} (leb_ltb : forall x y, leb x y = negb (ltb y x)).
Context (n : Z) (a : list REF_DBL) (target : REF_DBL).
Context (Hlen : n <= zlen a) (Hmax : 2 * n <= REF_INT_MAX).
Context (Hsorted : forall i j, 0 <= i <= j -> j < n -> ltb a.[j] a.[i] = false).

Lemma in_interval_wp i :
  0 <= i < n - 1 ->
  wp (in_interval ltb leb a target i) (fun b =>
    b = leb a.[i] target && ltb target a.[i + 1]).
Proof using Hlen.
  intros Hi. unfold in_interval. wp_go. destruct (leb a.[i] target); wp_go; done.
Qed.

(** Inside the range, the answer is an interval that holds the target. *)
Definition bracket (i : Z) : Prop :=
  0 <= i <= n - 2 /\ leb a.[i] target = true /\ ltb target a.[i + 1] = true.

Definition search_dbl_inv (s : Z * Z * Z) : Prop :=
  let '(lower, upper, mid) := s in
  0 <= lower < upper /\ upper <= n - 2 /\ mid = (lower + upper) / 2 /\
  leb a.[lower] target = true /\ ltb target a.[upper + 1] = true.

Lemma search_dbl_loop lower upper mid :
  search_dbl_inv (lower, upper, mid) ->
  wp (loop (Z.to_nat (n + 1)) (search_dbl_body ltb leb a target) (lower, upper, mid))
    (fun res => exists i, res = (REF_SUCCESS, i) /\ bracket i).
Proof using All.
  intros Hinv.
  apply (wp_loop search_dbl_inv (fun '(lower, upper, _) => upper - lower)).
  - done.
  - destruct Hinv as (? & ? & _). lia.
  - intros [[l u] m] (? & ? & _). lia.
  - clear lower upper mid Hinv. intros [[l u] m] (Hl & Hu & Hm & Hlo & Hhi).
    pose proof (Z.div_mod (l + u) 2 ltac:(lia)). pose proof (Z.mod_pos_bound (l + u) 2 ltac:(lia)).
    unfold search_dbl_body. rewrite (proj2 (Z.ltb_lt l u)) by lia.
    wp_step. eapply wp_mono; [apply in_interval_wp; lia|]. intros b1 Hb1.
    destruct b1.
    { wp_go. symmetry in Hb1. apply andb_true_iff in Hb1 as [? ?]. exists l. split; [done|].
      split_and!; [lia..|done|done]. }
    wp_step. eapply wp_mono; [apply in_interval_wp; lia|]. intros b2 Hb2.
    destruct b2.
    { wp_go. symmetry in Hb2. apply andb_true_iff in Hb2 as [? ?]. exists u. split; [done|].
      split_and!; [lia..|done|done]. }
    wp_step. eapply wp_mono; [apply in_interval_wp; lia|]. intros b3 Hb3.
    destruct b3.
    { wp_go. symmetry in Hb3. apply andb_true_iff in Hb3 as [? ?]. exists m. split; [done|].
      split_and!; [lia..|done|done]. }
    rewrite Hlo in Hb1. rewrite Hhi, andb_true_r in Hb2. cbn in Hb1.
    assert (Hfar : u <> l + 1).
    { intros ->. rewrite leb_ltb in Hb2. rewrite <- Hb1 in Hb2. done. }
    wp_go. destruct (leb a.[m] target) eqn:Hle; wp_go; rewrite ?shiftr_half.
    + split; [|lia]. split_and!; try lia; done.
    + split; [|lia]. split_and!; try lia; [done|].
      rewrite leb_ltb in Hle. apply negb_false_iff in Hle.
      destruct (ltb target a.[m + 1]) eqn:E; [done|].
      destruct (ltb_cotrans target a.[m + 1] a.[m] Hle); [congruence|].
      rewrite Hsorted in *; [done|lia..].
Qed.

Lemma ref_sort_search_dbl_ok :
  2 <= n ->
  wp (ref_sort_search_dbl ltb leb n a target) (fun '(st, i) =>
    st = REF_SUCCESS /\ 0 <= i <= n - 2 /\
    (ltb a.[0] target = true -> ltb target a.[n - 1] = true -> bracket i) /\
    (ltb a.[0] target = false -> i = 0) /\
    (ltb a.[0] target = true -> ltb target a.[n - 1] = false -> i = n - 2)).
Proof using All.
  intros Hn. unfold ref_sort_search_dbl.
  destruct (Z.ltb_spec n 1), (Z.eqb_spec n 1); try lia. wp_go.
  rewrite leb_ltb. destruct (ltb a.[0] target) eqn:Ht0; cbn [negb].
  2: { wp_go. split_and!; try lia; done. }
  wp_go. rewrite leb_ltb. destruct (ltb target a.[n - 1]) eqn:Ht1; cbn [negb].
  2: { wp_go. split_and!; try lia; done. }
  wp_go. rewrite shiftr_half.
  assert (0 <= (0 + (n - 2)) / 2 <= n - 2).
  { pose proof (Z.div_mod (0 + (n - 2)) 2 ltac:(lia)).
    pose proof (Z.mod_pos_bound (0 + (n - 2)) 2 ltac:(lia)). lia. }
  eapply wp_mono; [apply in_interval_wp; lia|]. intros b Hb. destruct b.
  { wp_go. symmetry in Hb. apply andb_true_iff in Hb as [? ?].
    split_and!; try done; try lia. all: intros; split_and!; try done; lia. }
  assert (n <> 2).
  { intros ->. change ((0 + (2 - 2)) / 2) with 0 in Hb. change (0 + 1) with (2 - 1) in Hb. rewrite Ht1, andb_true_r, leb_ltb, (ltb_asym _ _ Ht0) in Hb. done. }
  eapply wp_mono; [apply search_dbl_loop|].
  - split_and!; try lia; [by rewrite leb_ltb, (ltb_asym _ _ Ht0)|].
    by replace (n - 2 + 1) with (n - 1) by lia.
  - intros [st i] (i' & [= -> ->] & Hbr). split_and!; try done; apply Hbr.
Qed.
End search_dbl_proofs.

(** The swaps keep the array a permutation, whatever [rand] returns. *)
Lemma ref_sort_shuffle_ok rand n p :
  0 <= n -> n <= zlen p ->
  wp (ref_sort_shuffle rand n p) (fun '(st, p') =>
    st = REF_SUCCESS /\ zlen p' = zlen p /\ ztake n p' ≡ₚ zrange n).
Proof.
  intros Hn Hl. unfold ref_sort_shuffle. wp_step.
  apply (wp_fill (fun i => i)); [lia|lia| |].
  { intros i d Hi Hd _. by wp_go. }
  intros q Hlq Hq. wp_step.
  assert (Hid : ztake n q = zrange n).
  { apply arr_ext; rewrite zlen_ztake by lia; [by rewrite zlen_zrange|].
    intros k Hk. rewrite aat_ztake, aat_zrange, Hq by lia.
    destruct (Z.leb_spec 0 k), (Z.ltb_spec k n); try lia; done. }
  destruct (Z.eqb_spec n 0) as [->|].
  { apply wp_ret. apply wp_ret. by rewrite Hid. }
  apply (wp_for_up (fun _ q => zlen q = zlen p /\ ztake n q ≡ₚ zrange n)).
  - lia.
  - by rewrite Hid.
  - intros i r Hi [Hlr Hr]. cbn zeta.
    set (j := Z.max i _). assert (0 <= j < n) by lia.
    wp_go. fold (swap r j i). rewrite zlen_swap. split; [done|].
    by rewrite ztake_swap_permutation by lia.
  - intros r [Hlr Hr]. by wp_go.
Qed.

(** ** Properties *)

(** C11. The heap sort is defined and returns [REF_SUCCESS]; the first [n]
    elements of [sorted_index] become the numbers from 0 to [n - 1], each once,
    in an order in which the keys do not decrease, and the rest of the array is
    untouched. The statement covers the [int], [glob] and [dbl] versions: the
    comparison is a parameter. *)
Theorem ref_sort_heap_sorts {K} `{Inhabited K} (ltb : K -> K -> bool) `{!WeakOrder ltb}
    (n : Z) (original : list K) (sorted_index : list Z) :
  0 <= n -> 2 * n <= REF_INT_MAX -> n <= zlen original -> n <= zlen sorted_index ->
  exists si, ref_sort_heap ltb n original sorted_index = Some (REF_SUCCESS, si) /\
    zlen si = zlen sorted_index /\
    ztake n si ≡ₚ zrange n /\
    (forall k m, 0 <= k <= m -> m < n ->
       ltb original.[si.[m]] original.[si.[k]] = false) /\
    (forall k, n <= k -> si.[k] = sorted_index.[k]).
Proof.
  intros H0 H1 H2 H3.
  destruct (ref_sort_heap_ok ltb n original sorted_index H0 H1 H2 H3)
    as ([st si] & Heq & -> & Hrest). eauto.
Qed.

Lemma ref_sort_heap_sorts_witness :
  exists si, ref_sort_heap_int 5 [30; 10; 20; 10; 50] [9; 9; 9; 9; 9; 9] = Some (REF_SUCCESS, si) /\
    zlen si = 6 /\
    ztake 5 si ≡ₚ zrange 5 /\
    (forall k m, 0 <= k <= m -> m < 5 ->
       ([30; 10; 20; 10; 50].[si.[m]] <? [30; 10; 20; 10; 50].[si.[k]]) = false) /\
    (forall k, 5 <= k -> si.[k] = [9; 9; 9; 9; 9; 9].[k]).
Proof.
  apply (ref_sort_heap_sorts Z.ltb 5 [30; 10; 20; 10; 50] [9; 9; 9; 9; 9; 9]);
    vm_compute; congruence.
Defined.

(** [ref_sort_in_place_glob] sorts the first [n] elements of an array in
    place: they are a permutation of what they were and do not decrease. *)
Theorem ref_sort_in_place_glob_sorts `{Junk Z} (n : Z) (sorts : list Z) :
  0 <= n -> 2 * n <= REF_INT_MAX -> n <= zlen sorts ->
  exists s, ref_sort_in_place_glob n sorts = Some (REF_SUCCESS, s) /\
    zlen s = zlen sorts /\ ztake n s ≡ₚ ztake n sorts /\ ascending n s /\
    forall k, n <= k -> s.[k] = sorts.[k].
Proof.
  intros H0 H1 H2.
  destruct (ref_sort_in_place_glob_ok n sorts H0 H1 H2) as ([st s] & Heq & -> & Hrest). eauto.
Qed.

Lemma ref_sort_in_place_glob_sorts_witness :
  exists s, ref_sort_in_place_glob (H := fun _ => 1) 4 [7; 3; 5; 3] = Some (REF_SUCCESS, s) /\
    zlen s = 4 /\ ztake 4 s ≡ₚ [7; 3; 5; 3] /\ ascending 4 s /\
    forall k, 4 <= k -> s.[k] = [7; 3; 5; 3].[k].
Proof.
  apply (ref_sort_in_place_glob_sorts (H := fun _ => 1) 4 [7; 3; 5; 3]);
    vm_compute; congruence.
Defined.

(** C13. [ref_sort_unique_int] of at least one element returns each value once,
    in increasing order; [ref_sort_same] compares two such lists, so it
    answers whether the two arrays have the same set of elements. *)
Theorem ref_sort_same_iff_same_set `{Junk Z} (n : Z) (list0 list1 : list Z) :
  1 <= n -> n <= zlen list0 -> n <= zlen list1 ->
  exists same, ref_sort_same n list0 list1 = Some (REF_SUCCESS, same) /\
    (same = true <-> forall x, x ∈ ztake n list0 <-> x ∈ ztake n list1).
Proof.
  intros H0 H1 H2. destruct (ref_sort_same_ok n list0 list1 H0 H1 H2) as ([st b] & Heq & -> & ->).
  eexists. split; [done|]. by rewrite bool_decide_eq_true, canonical_eq.
Qed.

Lemma ref_sort_same_iff_same_set_witness :
  exists same, ref_sort_same (H := fun _ => 8) 4 [1; 2; 3; 1] [3; 3; 2; 1] = Some (REF_SUCCESS, same) /\
    (same = true <-> forall x, x ∈ [1; 2; 3; 1] <-> x ∈ [3; 3; 2; 1]).
Proof.
  apply (ref_sort_same_iff_same_set (H := fun _ => 8) 4 [1; 2; 3; 1] [3; 3; 2; 1]);
    vm_compute; congruence.
Defined.

(** Without elements the two functions are wrong: [ref_sort_unique_int]
    reports one unique value, and [ref_sort_same] then reads past the end of
    two empty arrays. *)
Theorem ref_sort_unique_int_empty `{Junk Z} (original unique : list Z) :
  ref_sort_unique_int 0 original unique = Some (REF_SUCCESS, (1, unique)) /\
  ref_sort_same 0 original unique = None.
Proof. done. Qed.

(** C12. Bisection in an array that does not decrease: [REF_SUCCESS] comes with a
    position of the target, [REF_NOT_FOUND] with [REF_EMPTY] and only when no
    element is the target; it always ends and never reads out of bounds. *)
Theorem ref_sort_search_correct (n : Z) (ascending_list : list Z) (target : Z) :
  n <= zlen ascending_list -> 2 * n <= REF_INT_MAX -> ascending n ascending_list ->
  exists st position, ref_sort_search_int n ascending_list target = Some (st, position) /\
    (st = REF_SUCCESS /\ 0 <= position < n /\ ascending_list.[position] = target \/
     st = REF_NOT_FOUND /\ position = REF_EMPTY /\
       forall i, 0 <= i < n -> ascending_list.[i] <> target).
Proof.
  intros H0 H1 H2.
  destruct (ref_sort_search_int_ok n ascending_list target H0 H1 H2) as ([st p] & Heq & Hpost).
  exists st, p. split; [done|]. by destruct st; cbn in Hpost; tauto.
Qed.

Lemma ref_sort_search_correct_witness :
  exists st position, ref_sort_search_int 4 [2; 4; 4; 9] 9 = Some (st, position) /\
    (st = REF_SUCCESS /\ 0 <= position < 4 /\ [2; 4; 4; 9].[position] = 9 \/
     st = REF_NOT_FOUND /\ position = REF_EMPTY /\
       forall i, 0 <= i < 4 -> [2; 4; 4; 9].[i] <> 9).
Proof.
  apply (ref_sort_search_correct 4 [2; 4; 4; 9] 9); [vm_compute; congruence..|].
  intros i j Hi Hj.
  assert (Hc : forall k, 0 <= k < 4 -> k = 0 \/ k = 1 \/ k = 2 \/ k = 3) by lia.
  destruct (Hc i ltac:(lia)) as [->|[->|[->| ->]]], (Hc j ltac:(lia)) as [->|[->|[->| ->]]];
    vm_compute; try congruence; lia.
Defined.

(** C17. The bound on [n] of the bisection is needed: a target strictly between the
    entries [k] and [k + 1] of an array that does not decrease, where [2 * k + 1] is
    above [REF_INT_MAX], leads the bisection from [(0, n - 1, n / 2)] to a turn that
    computes [lower + upper] above [REF_INT_MAX], although every index of the array
    is a [REF_INT]. *)
Theorem ref_sort_search_overflow (n : Z) (ascending_list : list Z) (target k : Z) :
  n <= zlen ascending_list -> n <= REF_INT_MAX -> ascending n ascending_list ->
  0 <= k -> k + 1 < n -> 2 * k + 1 > REF_INT_MAX ->
  ascending_list.[k] < target < ascending_list.[k + 1] ->
  ref_sort_search_int n ascending_list target = None /\
  exists lower upper mid,
    steps (search_body ascending_list target) (0, n - 1, n / 2) (lower, upper, mid) /\
    0 <= lower < mid /\ mid < upper < n /\
    (ascending_list.[mid] < target /\ mid + upper > REF_INT_MAX \/
     target < ascending_list.[mid] /\ lower + mid > REF_INT_MAX).
Proof.
  intros Hlen Hn Ha Hk Hkn Hbig Ht. pose proof Hbig as Hbig'. unfold REF_INT_MAX in Hbig'.
  pose proof (Z.div_mod n 2 ltac:(lia)). pose proof (Z.mod_pos_bound n 2 ltac:(lia)).
  destruct (search_overflow_reached n ascending_list target k (n / 2)) as ([[l u] m] & Hs & Ho); try done; [lia|].
  split; [|by exists l, u, m].
  assert (H0k : ascending_list.[0] <= ascending_list.[k]) by (apply Ha; lia).
  assert (Hkl : ascending_list.[k + 1] <= ascending_list.[n - 1]) by (apply Ha; lia).
  unfold ref_sort_search_int. rewrite !aget_aat by lia. cbn [obind].
  destruct (Z.ltb_spec n 1), (Z.ltb_spec target ascending_list.[0]),
    (Z.ltb_spec ascending_list.[n - 1] target), (Z.eqb_spec target ascending_list.[0]),
    (Z.eqb_spec target ascending_list.[n - 1]); try lia. cbn [orb]. rewrite shiftr_half.
  apply (loop_stuck _ _ _ _ Hs). by apply (search_overflows_stuck n).
Qed.

(** The shortest such array: its last two entries are not consecutive numbers. *)
Lemma ref_sort_search_overflow_witness :
  let n := 1073741826 in
  let a := zrange (n - 1) ++ [n] in
  2 * (n - 1) = REF_INT_MAX + 3 /\
  ref_sort_search_int n a (n - 1) = None /\
  exists lower upper mid,
    steps (search_body a (n - 1)) (0, n - 1, n / 2) (lower, upper, mid) /\
    0 <= lower < mid /\ mid < upper < n /\
    (a.[mid] < n - 1 /\ mid + upper > REF_INT_MAX \/ n - 1 < a.[mid] /\ lower + mid > REF_INT_MAX).
Proof.
  cbv zeta. split; [reflexivity|].
  destruct (gap_array 1073741826 ltac:(lia)) as (Hz & Hlow & Hlast). revert Hz Hlow Hlast.
  generalize (zrange (1073741826 - 1) ++ [1073741826]). intros a Hz Hlow Hlast.
  apply (ref_sort_search_overflow 1073741826 a (1073741826 - 1) 1073741824);
    [lia|unfold REF_INT_MAX; lia| |lia|lia|unfold REF_INT_MAX; lia|].
  - intros i j Hi Hj. destruct (Z.eq_dec i (1073741826 - 1)) as [->|], (Z.eq_dec j (1073741826 - 1)) as [->|];
      rewrite ?Hlast, ?Hlow by lia; lia.
  - change (1073741824 + 1) with (1073741826 - 1). rewrite Hlast, Hlow by lia. lia.
Defined.

(** C14. The search among intervals of non-decreasing keys (doubles without NaN)
    always ends with [REF_SUCCESS]: the interval that holds the target when
    the target is inside the range, else the first or the last interval. *)
Theorem ref_sort_search_dbl_bracket {REF_DBL : Type} `{Inhabited REF_DBL}
    (ltb leb : REF_DBL -> REF_DBL -> bool) `{!WeakOrder ltb}
    (n : Z) (ascending_list : list REF_DBL) (target : REF_DBL) :
  (forall x y, leb x y = negb (ltb y x)) ->
  2 <= n -> n <= zlen ascending_list -> 2 * n <= REF_INT_MAX ->
  (forall i j, 0 <= i <= j -> j < n -> ltb ascending_list.[j] ascending_list.[i] = false) ->
  exists position,
    ref_sort_search_dbl ltb leb n ascending_list target = Some (REF_SUCCESS, position) /\
    0 <= position <= n - 2 /\
    (ltb ascending_list.[0] target = true -> ltb target ascending_list.[n - 1] = true ->
       leb ascending_list.[position] target = true /\
       ltb target ascending_list.[position + 1] = true) /\
    (ltb ascending_list.[0] target = false -> position = 0) /\
    (ltb ascending_list.[0] target = true -> ltb target ascending_list.[n - 1] = false ->
       position = n - 2).
Proof.
  intros Hleb Hn Hlen Hmax Hs.
  destruct (ref_sort_search_dbl_ok ltb leb Hleb n ascending_list target Hlen Hmax Hs Hn)
    as ([st i] & Heq & -> & Hi & Hin & Hlo & Hhi).
  exists i. split_and!; try done; try lia; intros; by apply Hin.
Qed.

Lemma ref_sort_search_dbl_bracket_witness :
  exists position,
    ref_sort_search_dbl Z.ltb Z.leb 4 [1; 5; 5; 8] 6 = Some (REF_SUCCESS, position) /\
    0 <= position <= 2 /\
    ((1 <? 6) = true -> (6 <? 8) = true ->
       ([1; 5; 5; 8].[position] <=? 6) = true /\ (6 <? [1; 5; 5; 8].[position + 1]) = true) /\
    ((1 <? 6) = false -> position = 0) /\
    ((1 <? 6) = true -> (6 <? 8) = false -> position = 2).
Proof.
  apply (ref_sort_search_dbl_bracket Z.ltb Z.leb 4 [1; 5; 5; 8] 6).
  - intros x y. symmetry. rewrite <- Z.leb_antisym. done.
  - lia.
  - vm_compute. congruence.
  - vm_compute. congruence.
  - intros i j Hi Hj.
    assert (Hc : forall k, 0 <= k < 4 -> k = 0 \/ k = 1 \/ k = 2 \/ k = 3) by lia.
    destruct (Hc i ltac:(lia)) as [->|[->|[->| ->]]], (Hc j ltac:(lia)) as [->|[->|[->| ->]]];
      vm_compute; try congruence; lia.
Defined.

(** The shuffle leaves a permutation of 0 .. [n - 1] whatever [rand]
    returns. *)
Theorem ref_sort_shuffle_permutes (rand : Z -> Z) (n : Z) (permutation : list Z) :
  0 <= n -> n <= zlen permutation ->
  exists p, ref_sort_shuffle rand n permutation = Some (REF_SUCCESS, p) /\
    zlen p = zlen permutation /\ ztake n p ≡ₚ zrange n.
Proof.
  intros H0 H1. destruct (ref_sort_shuffle_ok rand n permutation H0 H1)
    as ([st p] & Heq & -> & Hrest). eauto.
Qed.

Lemma ref_sort_shuffle_permutes_witness :
  exists p, ref_sort_shuffle (fun k => 17 * k + 5) 4 [0; 0; 0; 0] = Some (REF_SUCCESS, p) /\
    zlen p = 4 /\ ztake 4 p ≡ₚ zrange 4.
Proof.
  apply (ref_sort_shuffle_permutes (fun k => 17 * k + 5) 4 [0; 0; 0; 0]); vm_compute; congruence.
Defined.
