(* ===== verification/RefDict.v ===== *)
(** * ref_dict.c: a map from integers to integers

    [REF_DICT] keeps its keys in increasing order in an array and the values
    in a second one; [dict_map] is the finite map the two arrays stand for.
    The theorems refine every operation to the operation of that name on
    [gmap]. [ref_dict_inspect] and [ref_dict_inspect_keys] print;
    [ref_dict_bcast] copies a dictionary between processes and has no model
    here. *)
From S2P Require Import Prelude RefSort.
From stdpp Require Import prelude list gmap.
From Stdlib Require Import ZArith Lia.
Open Scope Z_scope.
Open Scope ref_scope.

Record REF_DICT := mkREF_DICT {
  dict_n : Z;
  dict_max : Z;
  dict_key : list Z;
  dict_value : list Z
}.

Section ops.
Context `{Junk Z}.

Definition ref_dict_create : REF_STATUS * REF_DICT :=
  (REF_SUCCESS,
   {| dict_n := 0; dict_max := 10; dict_key := alloc 10; dict_value := alloc 10 |}).

(** The macros [ref_dict_safe_key] and [ref_dict_safe_keyvalue]. *)
Definition ref_dict_valid (d : REF_DICT) (key_index : Z) : bool :=
  (0 <=? key_index) && (key_index <? dict_n d).
Definition ref_dict_safe_key (d : REF_DICT) (key_index : Z) : option Z :=
  if ref_dict_valid d key_index then aget (dict_key d) key_index else Some REF_EMPTY.
Definition ref_dict_safe_keyvalue (d : REF_DICT) (key_index : Z) : option Z :=
  if ref_dict_valid d key_index then aget (dict_value d) key_index else Some REF_EMPTY.

Definition ref_dict_deep_copy (original : REF_DICT) : option (REF_STATUS * REF_DICT) :=
  let n := dict_n original in
  let max := dict_max original in
  let* '(key, value) :=
    for_up 0 n (fun key_index '(key, value) =>
      let* k := ref_dict_safe_key original key_index in
      let* v := ref_dict_safe_keyvalue original key_index in
      let* key := aset key key_index k in
      let* value := aset value key_index v in
      Some (key, value)) (alloc max, alloc max) in
  Some (REF_SUCCESS,
        {| dict_n := n; dict_max := max; dict_key := key; dict_value := value |}).

(** The search from the last key: the position of the key, or where to
    insert it. *)
Definition dict_insert_point (n : Z) (keys : list Z) (key : Z)
    : option (ctl Z (Z + Z)) :=
  forx_down (n - 1) (-1) (fun i insert_point =>
    let* ki := aget keys i in
    if ki =? key then Some (Exit (inl i))
    else if ki <? key then Some (Exit (inr (i + 1)))
    else Some (Next insert_point)) 0.

Definition ref_dict_store (d : REF_DICT) (key value : Z) : option (REF_STATUS * REF_DICT) :=
  let n := dict_n d in
  let* d :=
    if dict_max d =? n then
      let* max := ck_int (dict_max d + 1000) in
      Some {| dict_n := n; dict_max := max;
              dict_key := ref_realloc (dict_key d) max;
              dict_value := ref_realloc (dict_value d) max |}
    else Some d in
  let insert insert_point :=
    let* ks := for_down n insert_point (fun i ks =>
      let* v := aget ks (i - 1) in aset ks i v) (dict_key d) in
    let* vs := for_down n insert_point (fun i vs =>
      let* v := aget vs (i - 1) in aset vs i v) (dict_value d) in
    let* n := ck_int (n + 1) in
    let* ks := aset ks insert_point key in
    let* vs := aset vs insert_point value in
    Some (REF_SUCCESS,
          {| dict_n := n; dict_max := dict_max d; dict_key := ks; dict_value := vs |}) in
  let* c := dict_insert_point n (dict_key d) key in
  match c with
  | Exit (inl i) =>
      let* vs := aset (dict_value d) i value in
      Some (REF_SUCCESS,
            {| dict_n := n; dict_max := dict_max d; dict_key := dict_key d; dict_value := vs |})
  | Exit (inr insert_point) => insert insert_point
  | Next insert_point => insert insert_point
  end.

(** The integer is [*location]. *)
Definition ref_dict_location (d : REF_DICT) (key : Z) : option (REF_STATUS * Z) :=
  if 10 <? dict_n d then ref_sort_search_int (dict_n d) (dict_key d) key
  else
    let* c :=
      forx_up 0 (dict_n d) (fun i (_ : unit) =>
        let* ki := aget (dict_key d) i in
        if key =? ki then Some (Exit i) else Some (Next tt)) tt in
    match c with
    | Exit i => Some (REF_SUCCESS, i)
    | Next _ => Some (REF_NOT_FOUND, REF_EMPTY)
    end.

Definition ref_dict_remove (d : REF_DICT) (key : Z) : option (REF_STATUS * REF_DICT) :=
  let* '(st, location) := ref_dict_location d key in
  RSS st d (
  let n := dict_n d - 1 in
  let* ks := for_up location n (fun i ks =>
    let* v := aget ks (i + 1) in aset ks i v) (dict_key d) in
  let* vs := for_up location n (fun i vs =>
    let* v := aget vs (i + 1) in aset vs i v) (dict_value d) in
  Some (REF_SUCCESS,
        {| dict_n := n; dict_max := dict_max d; dict_key := ks; dict_value := vs |})).

(** [None] for the integer: [*value] is not written. *)
Definition ref_dict_value (d : REF_DICT) (key : Z) : option (REF_STATUS * option Z) :=
  let* '(st, location) := ref_dict_location d key in
  RSS st None (
  let* v := aget (dict_value d) location in
  Some (REF_SUCCESS, Some v)).

Definition ref_dict_has_key (d : REF_DICT) (key : Z) : option bool :=
  let* c :=
    forx_up 0 (dict_n d) (fun i (_ : unit) =>
      let* ki := aget (dict_key d) i in
      if key =? ki then Some (Exit tt) else Some (Next tt)) tt in
  match c with Exit _ => Some true | Next _ => Some false end.

Definition ref_dict_has_value (d : REF_DICT) (value : Z) : option bool :=
  let* c :=
    forx_up 0 (dict_n d) (fun i (_ : unit) =>
      let* vi := aget (dict_value d) i in
      if value =? vi then Some (Exit tt) else Some (Next tt)) tt in
  match c with Exit _ => Some true | Next _ => Some false end.
End ops.

(** ** Specification: a finite map *)

Definition dict_wf (d : REF_DICT) : Prop :=
  0 <= dict_n d <= dict_max d /\ 2 * dict_max d <= REF_INT_MAX /\
  zlen (dict_key d) = dict_max d /\ zlen (dict_value d) = dict_max d /\
  (forall i j, 0 <= i < j -> j < dict_n d -> (dict_key d).[i] < (dict_key d).[j]).

Definition dict_map (d : REF_DICT) : gmap Z Z :=
  list_to_map (zip (ztake (dict_n d) (dict_key d)) (ztake (dict_n d) (dict_value d))).

Inductive dict_cmd :=
  | CStore (key value : Z)
  | CRemove (key : Z)
  | CValue (key : Z)
  | CHasKey (key : Z)
  | CHasValue (value : Z).

(** The outputs of a command: its status and the value it gives, if any. *)
Definition dict_exec `{Junk Z} (c : dict_cmd) (d : REF_DICT)
    : option (REF_STATUS * option Z * REF_DICT) :=
  match c with
  | CStore k v => let* '(st, d) := ref_dict_store d k v in Some (st, None, d)
  | CRemove k => let* '(st, d) := ref_dict_remove d k in Some (st, None, d)
  | CValue k => let* '(st, v) := ref_dict_value d k in Some (st, v, d)
  | CHasKey k => let* b := ref_dict_has_key d k in Some (REF_SUCCESS, Some (Z.b2z b), d)
  | CHasValue v => let* b := ref_dict_has_value d v in Some (REF_SUCCESS, Some (Z.b2z b), d)
  end.

Fixpoint dict_run `{Junk Z} (cs : list dict_cmd) (d : REF_DICT)
    : option (list (REF_STATUS * option Z) * REF_DICT) :=
  match cs with
  | [] => Some ([], d)
  | c :: cs =>
      let* '(out, d) := dict_exec c d in
      let* '(outs, d) := dict_run cs d in
      Some (out :: outs, d)
  end.

Definition found (m : gmap Z Z) (k : Z) : REF_STATUS :=
  if m !! k is Some _ then REF_SUCCESS else REF_NOT_FOUND.

Definition dict_spec_exec (c : dict_cmd) (m : gmap Z Z) : REF_STATUS * option Z * gmap Z Z :=
  match c with
  | CStore k v => (REF_SUCCESS, None, <[k := v]> m)
  | CRemove k => (found m k, None, delete k m)
  | CValue k => (found m k, m !! k, m)
  | CHasKey k => (REF_SUCCESS, Some (Z.b2z (bool_decide (k ∈ dom m))), m)
  | CHasValue v => (REF_SUCCESS, Some (Z.b2z (bool_decide (v ∈ (map_to_list m).*2))), m)
  end.

Fixpoint dict_spec_run (cs : list dict_cmd) (m : gmap Z Z)
    : list (REF_STATUS * option Z) * gmap Z Z :=
  match cs with
  | [] => ([], m)
  | c :: cs =>
      let '(out, m) := dict_spec_exec c m in
      let '(outs, m) := dict_spec_run cs m in
      (out :: outs, m)
  end.

(** ** The arrays and the map *)

Lemma zip_lookup_aat (a b : list Z) n k v :
  0 <= n -> n <= zlen a -> n <= zlen b ->
  (k, v) ∈ zip (ztake n a) (ztake n b) <-> exists i, 0 <= i < n /\ a.[i] = k /\ b.[i] = v.
Proof.
  intros Hn Ha Hb. rewrite list_elem_of_lookup. setoid_rewrite lookup_zip_with_Some. split.
  - intros (i & x & y & [= -> ->] & Hx & Hy). exists (Z.of_nat i).
    pose proof (lookup_lt_Some _ _ _ Hx) as Hlt. unfold ztake in Hlt. rewrite length_take in Hlt.
    apply aat_of_lookup in Hx, Hy. rewrite aat_ztake in Hx, Hy by lia.
    split_and!; try lia; done.
  - intros (i & Hi & <- & <-). exists (Z.to_nat i), a.[i], b.[i].
    rewrite <- (aat_ztake n a), <- (aat_ztake n b) by lia.
    split_and!; [done|apply aat_lookup; rewrite zlen_ztake; lia..].
Qed.

Lemma keys_nodup d : dict_wf d ->
  NoDup (zip (ztake (dict_n d) (dict_key d)) (ztake (dict_n d) (dict_value d))).*1.
Proof.
  intros (Hn & _ & Hk & Hv & Hs). rewrite fst_zip.
  2: { unfold ztake. rewrite !length_take. unfold zlen in *. lia. }
  apply NoDup_alt. intros i j x Hi Hj.
  pose proof (lookup_lt_Some _ _ _ Hi) as Hli. pose proof (lookup_lt_Some _ _ _ Hj) as Hlj.
  unfold ztake in Hli, Hlj. rewrite length_take in Hli, Hlj.
  apply aat_of_lookup in Hi, Hj. rewrite aat_ztake in Hi, Hj by lia.
  destruct (Nat.lt_trichotomy i j) as [Hlt|[?|Hlt]]; [|done|].
  - specialize (Hs (Z.of_nat i) (Z.of_nat j) ltac:(lia) ltac:(lia)). lia.
  - specialize (Hs (Z.of_nat j) (Z.of_nat i) ltac:(lia) ltac:(lia)). lia.
Qed.

Lemma dict_map_lookup d k v : dict_wf d ->
  dict_map d !! k = Some v <->
  exists i, 0 <= i < dict_n d /\ (dict_key d).[i] = k /\ (dict_value d).[i] = v.
Proof.
  intros Hwf. pose proof Hwf as (Hn & _ & Hk & Hv & _). unfold dict_map.
  rewrite <- elem_of_list_to_map by by apply keys_nodup. apply zip_lookup_aat; lia.
Qed.

Lemma dict_map_key d i : dict_wf d -> 0 <= i < dict_n d ->
  dict_map d !! (dict_key d).[i] = Some (dict_value d).[i].
Proof. intros Hwf Hi. apply dict_map_lookup; eauto. Qed.

Lemma dict_map_none d k : dict_wf d ->
  (forall i, 0 <= i < dict_n d -> (dict_key d).[i] <> k) -> dict_map d !! k = None.
Proof.
  intros Hwf Hno. destruct (dict_map d !! k) as [v|] eqn:E; [|done].
  apply dict_map_lookup in E as (i & Hi & Hk & _); [|done]. by destruct (Hno i Hi).
Qed.

(** A map with the lookups of the arrays is the map of the dictionary. *)
Lemma dict_map_eq d m : dict_wf d ->
  (forall k v, m !! k = Some v <->
     exists i, 0 <= i < dict_n d /\ (dict_key d).[i] = k /\ (dict_value d).[i] = v) ->
  dict_map d = m.
Proof.
  intros Hwf Hm. apply map_eq. intros k. apply option_eq. intros v.
  by rewrite dict_map_lookup, Hm.
Qed.

(** ** Each operation against the map *)

(** Where a key is, or belongs. *)
Definition point_post (n : Z) (keys : list Z) (key : Z) (c : ctl Z (Z + Z)) : Prop :=
  let belongs p := 0 <= p <= n /\ (forall i, 0 <= i < p -> keys.[i] < key) /\
    (forall i, p <= i < n -> key < keys.[i]) in
  match c with
  | Exit (inl i) => 0 <= i < n /\ keys.[i] = key
  | Exit (inr p) => belongs p
  | Next p => belongs p
  end.

Lemma dict_insert_point_ok n keys key :
  0 <= n <= zlen keys ->
  (forall i j, 0 <= i < j -> j < n -> keys.[i] < keys.[j]) ->
  wp (dict_insert_point n keys key) (point_post n keys key).
Proof.
  intros Hn Hs. unfold dict_insert_point.
  apply (wp_forx_down (fun i p => p = 0 /\ forall j, i < j < n -> key < keys.[j])
    (fun r => point_post n keys key (Exit r))); [lia| | | |done].
  - split; [done|]. intros. lia.
  - intros i p Hi [-> Hgt]. wp_go; cbn [ctl_post point_post].
    + split; [lia|done].
    + split_and!; [lia|lia| |intros j Hj; apply Hgt; lia].
      intros j Hj. destruct (decide (j = i)) as [->|]; [done|].
      specialize (Hs j i ltac:(lia) ltac:(lia)). lia.
    + split; [done|]. intros j Hj. destruct (decide (j = i)) as [->|]; [lia|]. apply Hgt. lia.
  - intros p [-> Hgt]. cbn. split_and!; try lia. intros i Hi. apply Hgt. lia.
Qed.

(** The dictionary with [key] and [value] put in at [p]. *)
Lemma dict_inserted d max p key value ks vs :
  dict_wf d -> dict_n d < max -> 2 * max <= REF_INT_MAX ->
  zlen ks = max -> zlen vs = max ->
  point_post (dict_n d) (dict_key d) key (Next p) ->
  (forall k, 0 <= k <= dict_n d -> ks.[k] =
     if k <? p then (dict_key d).[k] else if k =? p then key else (dict_key d).[k - 1]) ->
  (forall k, 0 <= k <= dict_n d -> vs.[k] =
     if k <? p then (dict_value d).[k] else if k =? p then value else (dict_value d).[k - 1]) ->
  let d' := {| dict_n := dict_n d + 1; dict_max := max; dict_key := ks; dict_value := vs |} in
  dict_wf d' /\ dict_map d' = <[key := value]> (dict_map d).
Proof.
  intros Hwf Hmax Hroom Hks Hvs (Hp & Hlt & Hgt) Hk Hv d'.
  pose proof Hwf as (Hn & _ & _ & _ & Hs).
  assert (Hwf' : dict_wf d').
  { split_and!; cbn; try lia. intros i j Hi Hj. rewrite !Hk by lia.
    destruct (Z.ltb_spec i p), (Z.eqb_spec i p), (Z.ltb_spec j p), (Z.eqb_spec j p); try lia.
    - apply Hs; lia.
    - apply Hlt. lia.
    - specialize (Hlt i ltac:(lia)). specialize (Hgt (j - 1) ltac:(lia)). lia.
    - apply Hgt. lia.
    - apply Hs; lia. }
  split; [done|]. apply dict_map_eq; [done|]. intros k v. cbn.
  rewrite lookup_insert. destruct (decide (key = k)) as [<-|Hne].
  - split.
    + intros [= <-]. exists p. rewrite Hk, Hv by lia.
      destruct (Z.ltb_spec p p), (Z.eqb_spec p p); lia.
    + intros (i & Hi & Hki & Hvi). rewrite Hk in Hki by lia. rewrite Hv in Hvi by lia.
      destruct (Z.ltb_spec i p); [specialize (Hlt i ltac:(lia)); lia|].
      destruct (Z.eqb_spec i p); [by subst|]. specialize (Hgt (i - 1) ltac:(lia)). lia.
  - rewrite dict_map_lookup by done. split.
    + intros (i & Hi & <- & <-). destruct (Z_lt_le_dec i p).
      * exists i. rewrite Hk, Hv by lia. destruct (Z.ltb_spec i p); lia.
      * exists (i + 1). rewrite Hk, Hv by lia. rewrite !Z.add_simpl_r.
        destruct (Z.ltb_spec (i + 1) p), (Z.eqb_spec (i + 1) p); lia.
    + intros (i & Hi & <- & <-). rewrite Hk in Hne |- * by lia. rewrite Hv by lia.
      destruct (Z.ltb_spec i p); [exists i; split_and!; lia|].
      destruct (Z.eqb_spec i p); [done|]. exists (i - 1). split_and!; lia.
Qed.

(** Same keys, one value replaced. *)
Lemma dict_replaced d i value :
  dict_wf d -> 0 <= i < dict_n d ->
  let d' := {| dict_n := dict_n d; dict_max := dict_max d; dict_key := dict_key d;
               dict_value := upd (dict_value d) i value |} in
  dict_wf d' /\ dict_map d' = <[(dict_key d).[i] := value]> (dict_map d).
Proof.
  intros Hwf Hi d'. pose proof Hwf as (Hn & Hmax & Hlk & Hlv & Hs).
  assert (Hwf' : dict_wf d') by (split_and!; cbn; rewrite ?zlen_upd; try lia; done).
  split; [done|]. apply dict_map_eq; [done|]. intros k v. cbn.
  assert (Hinj : forall j, 0 <= j < dict_n d -> (dict_key d).[i] = (dict_key d).[j] -> i = j).
  { intros j Hj He. destruct (Z.lt_trichotomy i j) as [?|[?|?]]; [|done|].
    - specialize (Hs i j ltac:(lia) ltac:(lia)). lia.
    - specialize (Hs j i ltac:(lia) ltac:(lia)). lia. }
  rewrite lookup_insert. destruct (decide ((dict_key d).[i] = k)) as [<-|Hne].
  - split.
    + intros [= <-]. exists i. rewrite aat_upd_eq by lia. done.
    + intros (j & Hj & Hk & Hv). assert (i = j) as <- by (apply Hinj; [lia|congruence]).
      rewrite aat_upd_eq in Hv by lia. by rewrite Hv.
  - rewrite dict_map_lookup by done. split; intros (j & Hj & Hk & Hv); exists j;
      (rewrite aat_upd_ne in * by (try lia; intros ->; congruence)); done.
Qed.

(** The same dictionary in a longer block. *)
Lemma dict_grown `{Junk Z} d :
  dict_wf d -> 2 * (dict_max d + 1000) <= REF_INT_MAX ->
  let d' := {| dict_n := dict_n d; dict_max := dict_max d + 1000;
               dict_key := ref_realloc (dict_key d) (dict_max d + 1000);
               dict_value := ref_realloc (dict_value d) (dict_max d + 1000) |} in
  dict_wf d' /\ dict_map d' = dict_map d.
Proof.
  intros (Hn & Hmax & Hlk & Hlv & Hs) Hroom. split.
  - split_and!; cbn; rewrite ?zlen_realloc by lia; try lia.
    intros i j Hi Hj. rewrite !aat_realloc by lia. by apply Hs.
  - unfold dict_map; cbn. by rewrite !ztake_realloc by lia.
Qed.

Section proofs.
Context `{Junk Z}.
Implicit Types (d : REF_DICT) (key value : Z).

Lemma ref_dict_store_ok d key value :
  dict_wf d -> 2 * (dict_max d + 1000) <= REF_INT_MAX ->
  wp (ref_dict_store d key value) (fun '(st, d') =>
    st = REF_SUCCESS /\ dict_wf d' /\ dict_max d' <= dict_max d + 1000 /\
    dict_map d' = <[key := value]> (dict_map d)).
Proof.
  intros Hwf0 Hroom. unfold ref_dict_store. wp_step.
  apply (wp_mono (fun d1 => dict_wf d1 /\ dict_map d1 = dict_map d /\ dict_n d1 = dict_n d /\
    dict_n d1 < dict_max d1 <= dict_max d + 1000)).
  { pose proof (dict_grown d Hwf0 Hroom) as [Hg1 Hg2]. destruct Hwf0 as (Hn & Hmax & Hrest).
    wp_go; split_and!; cbn; try done; try lia. }
  intros d1 (Hwf & <- & <- & Hmax). pose proof Hwf as (Hn & Hm2 & Hlk & Hlv & Hs).
  assert (Hins : forall p, point_post (dict_n d1) (dict_key d1) key (Next p) ->
    wp (let* ks := for_down (dict_n d1) p (fun i ks =>
          let* v := aget ks (i - 1) in aset ks i v) (dict_key d1) in
        let* vs := for_down (dict_n d1) p (fun i vs =>
          let* v := aget vs (i - 1) in aset vs i v) (dict_value d1) in
        let* n := ck_int (dict_n d1 + 1) in
        let* ks := aset ks p key in
        let* vs := aset vs p value in
        Some (REF_SUCCESS,
          {| dict_n := n; dict_max := dict_max d1; dict_key := ks; dict_value := vs |}))
      (fun '(st, d') => st = REF_SUCCESS /\ dict_wf d' /\ dict_max d' <= dict_max d + 1000 /\
        dict_map d' = <[key := value]> (dict_map d1))).
  { intros p Hp. pose proof Hp as (Hpn & _ & _). wp_step. apply wp_shift_up; [lia|lia|].
    intros ks Hks Hk. wp_step. apply wp_shift_up; [lia|lia|]. intros vs Hvs Hv. wp_go.
    destruct (dict_inserted d1 (dict_max d1) p key value (upd ks p key) (upd vs p value))
      as [? ?]; try (rewrite ?zlen_upd; lia); try done; cycle 2.
    { split_and!; try done. cbn. lia. }
    - intros k Hkn. rewrite aat_upd, Hk by lia.
      destruct (Z.eqb_spec p k), (Z.ltb_spec k p), (Z.eqb_spec k p), (Z.ltb_spec p k),
        (Z.leb_spec k (dict_n d1)); try lia; done.
    - intros k Hkn. rewrite aat_upd, Hv by lia.
      destruct (Z.eqb_spec p k), (Z.ltb_spec k p), (Z.eqb_spec k p), (Z.ltb_spec p k),
        (Z.leb_spec k (dict_n d1)); try lia; done. }
  wp_step. eapply wp_mono; [apply dict_insert_point_ok; [lia|done]|].
  intros [p|[i|p]] Hp; [by apply Hins| |by apply Hins].
  destruct Hp as [Hi <-]. wp_go. split; [done|].
  destruct (dict_replaced d1 i value Hwf Hi) as [? ?]. split_and!; try done; try lia.
  all: cbn; lia.
Qed.

Lemma ref_dict_location_ok d key :
  dict_wf d -> wp (ref_dict_location d key) (search_post (dict_n d) (dict_key d) key).
Proof.
  intros (Hn & Hmax & Hlk & Hlv & Hs). unfold ref_dict_location. wp_step.
  - apply ref_sort_search_int_ok; [lia|lia|]. intros i j Hi Hj.
    destruct (decide (i = j)) as [->|]; [lia|]. specialize (Hs i j ltac:(lia) ltac:(lia)). lia.
  - wp_step. apply (wp_forx_up (fun i _ => forall j, 0 <= j < i -> (dict_key d).[j] <> key)
      (fun i => 0 <= i < dict_n d /\ (dict_key d).[i] = key)); [lia|lia| | |].
    + intros i [] Hi Hno. wp_go; cbn; [split; [lia|done]|].
      intros j Hj. destruct (decide (j = i)) as [->|]; [congruence|]. apply Hno. lia.
    + intros [] Hno. by wp_go.
    + intros i Hi. by wp_go.
Qed.

Lemma found_some d i : dict_wf d -> 0 <= i < dict_n d ->
  found (dict_map d) (dict_key d).[i] = REF_SUCCESS.
Proof. intros. unfold found. by rewrite dict_map_key. Qed.

Lemma dict_removed d i ks vs :
  dict_wf d -> 0 <= i < dict_n d ->
  zlen ks = dict_max d -> zlen vs = dict_max d ->
  (forall k, 0 <= k < dict_n d - 1 -> ks.[k] = (dict_key d).[if k <? i then k else k + 1]) ->
  (forall k, 0 <= k < dict_n d - 1 -> vs.[k] = (dict_value d).[if k <? i then k else k + 1]) ->
  let d' := {| dict_n := dict_n d - 1; dict_max := dict_max d;
               dict_key := ks; dict_value := vs |} in
  dict_wf d' /\ dict_map d' = delete (dict_key d).[i] (dict_map d).
Proof.
  intros Hwf Hi Hks Hvs Hk Hv d'. pose proof Hwf as (Hn & Hmax & Hlk & Hlv & Hs).
  assert (Hwf' : dict_wf d').
  { split_and!; cbn; try lia. intros p q Hp Hq. rewrite !Hk by lia.
    apply Hs; destruct (Z.ltb_spec p i), (Z.ltb_spec q i); lia. }
  split; [done|]. apply dict_map_eq; [done|]. intros k v. cbn.
  rewrite lookup_delete. destruct (decide ((dict_key d).[i] = k)) as [<-|Hne].
  - split; [done|]. intros (j & Hj & Hkj & _). rewrite Hk in Hkj by lia. exfalso.
    destruct (Z.ltb_spec j i).
    + specialize (Hs j i ltac:(lia) ltac:(lia)). lia.
    + specialize (Hs i (j + 1) ltac:(lia) ltac:(lia)). lia.
  - rewrite dict_map_lookup by done. split.
    + intros (j & Hj & <- & <-). assert (j <> i) by congruence. destruct (Z_lt_le_dec j i).
      * exists j. rewrite Hk, Hv by lia. destruct (Z.ltb_spec j i); lia.
      * exists (j - 1). rewrite Hk, Hv by lia. destruct (Z.ltb_spec (j - 1) i); [lia|].
        replace (j - 1 + 1) with j by lia. split_and!; lia.
    + intros (j & Hj & <- & <-). rewrite Hk, Hv by lia. eexists. split; [|done].
      destruct (Z.ltb_spec j i); lia.
Qed.

Lemma ref_dict_remove_ok d key :
  dict_wf d ->
  wp (ref_dict_remove d key) (fun '(st, d') =>
    st = found (dict_map d) key /\ dict_wf d' /\ dict_max d' = dict_max d /\
    dict_map d' = delete key (dict_map d)).
Proof.
  intros Hwf. pose proof Hwf as (Hn & Hmax & Hlk & Hlv & Hs). unfold ref_dict_remove.
  wp_step. eapply wp_mono; [by apply ref_dict_location_ok|].
  intros [st i] Hpost. destruct (decide (st = REF_SUCCESS)) as [->|Hne].
  - destruct Hpost as [Hi <-]. cbn [RSS]. wp_step. apply wp_shift_down; [lia|lia|].
    intros ks Hks Hk. wp_step. apply wp_shift_down; [lia|lia|]. intros vs Hvs Hv. wp_go.
    rewrite found_some by done. split; [done|]. cbn [dict_max].
    destruct (dict_removed d i ks vs) as [? ?]; try done; try lia.
    + intros k Hkn. rewrite Hk by lia.
      destruct (Z.leb_spec i k), (Z.ltb_spec k (dict_n d - 1)), (Z.ltb_spec k i); try lia; done.
    + intros k Hkn. rewrite Hv by lia.
      destruct (Z.leb_spec i k), (Z.ltb_spec k (dict_n d - 1)), (Z.ltb_spec k i); try lia; done.
  - assert (Hno : st = REF_NOT_FOUND /\ forall j, 0 <= j < dict_n d -> (dict_key d).[j] <> key)
      by (destruct st; cbn in Hpost; naive_solver).
    destruct Hno as [-> Hno]. apply dict_map_none in Hno; [|done].
    apply wp_ret. unfold found. rewrite Hno, delete_id by done. done.
Qed.

Lemma ref_dict_value_ok d key :
  dict_wf d ->
  ref_dict_value d key = Some (found (dict_map d) key, dict_map d !! key).
Proof.
  intros Hwf. apply wp_eq. pose proof Hwf as (Hn & Hmax & Hlk & Hlv & Hs). unfold ref_dict_value.
  wp_step. eapply wp_mono; [by apply ref_dict_location_ok|].
  intros [st i] Hpost. destruct (decide (st = REF_SUCCESS)) as [->|Hne].
  - destruct Hpost as [Hi <-]. cbn [RSS]. wp_go. by rewrite found_some, dict_map_key.
  - assert (Hno : st = REF_NOT_FOUND /\ forall j, 0 <= j < dict_n d -> (dict_key d).[j] <> key)
      by (destruct st; cbn in Hpost; naive_solver).
    destruct Hno as [-> Hno]. apply dict_map_none in Hno; [|done].
    apply wp_ret. unfold found. by rewrite Hno.
Qed.

(** A linear scan for a value among the first [n] elements. *)
Lemma scan_ok (a : list Z) n x :
  0 <= n <= zlen a ->
  wp (let* c := forx_up 0 n (fun i (_ : unit) =>
        let* ai := aget a i in
        if x =? ai then Some (Exit tt) else Some (Next tt)) tt in
      match c with Exit _ => Some true | Next _ => Some false end)
    (fun b => b = true <-> exists i, 0 <= i < n /\ a.[i] = x).
Proof.
  intros Hn. wp_step. apply (wp_forx_up (fun i _ => forall j, 0 <= j < i -> a.[j] <> x)
      (fun _ => exists i, 0 <= i < n /\ a.[i] = x)); [lia|lia| | |].
  - intros i [] Hi Hno. wp_go; cbn; [by exists i|].
    intros j Hj. destruct (decide (j = i)) as [->|]; [congruence|]. apply Hno. lia.
  - intros [] Hno. wp_go. split; [done|]. intros (i & Hi & He). by destruct (Hno i Hi).
  - intros [] Hi. by wp_go.
Qed.

Lemma ref_dict_has_key_ok d key :
  dict_wf d -> ref_dict_has_key d key = Some (bool_decide (key ∈ dom (dict_map d))).
Proof.
  intros Hwf. pose proof Hwf as (Hn & Hmax & Hlk & Hlv & Hs).
  destruct (scan_ok (dict_key d) (dict_n d) key) as (b & Heq & Hb); [lia|].
  unfold ref_dict_has_key. rewrite Heq. f_equal. apply eq_bool_decide.
  rewrite elem_of_dom. unfold is_Some. setoid_rewrite dict_map_lookup; [|done]. naive_solver.
Qed.

Lemma ref_dict_has_value_ok d value :
  dict_wf d ->
  ref_dict_has_value d value = Some (bool_decide (value ∈ (map_to_list (dict_map d)).*2)).
Proof.
  intros Hwf. pose proof Hwf as (Hn & Hmax & Hlk & Hlv & Hs).
  destruct (scan_ok (dict_value d) (dict_n d) value) as (b & Heq & Hb); [lia|].
  unfold ref_dict_has_value. rewrite Heq. f_equal. apply eq_bool_decide.
  rewrite list_elem_of_fmap, Hb. split.
  - intros (i & Hi & <-). exists ((dict_key d).[i], (dict_value d).[i]). split; [done|].
    apply elem_of_map_to_list. by apply dict_map_key.
  - intros ([k v] & -> & Hin). apply elem_of_map_to_list in Hin.
    apply dict_map_lookup in Hin; [|done]. naive_solver.
Qed.

Lemma dict_exec_ok c d :
  dict_wf d -> 2 * (dict_max d + 1000) <= REF_INT_MAX ->
  wp (dict_exec c d) (fun '(out, d') =>
    dict_wf d' /\ dict_max d' <= dict_max d + 1000 /\
    (out, dict_map d') = dict_spec_exec c (dict_map d)).
Proof.
  intros Hwf Hroom. destruct c as [k v|k|k|k|v]; cbn [dict_exec dict_spec_exec].
  - wp_step. eapply wp_mono; [by apply ref_dict_store_ok|].
    intros [st d'] (-> & ? & ? & Hm). wp_go. by rewrite Hm.
  - wp_step. eapply wp_mono; [by apply ref_dict_remove_ok|].
    intros [st d'] (-> & ? & ? & Hm). wp_go. rewrite Hm. split_and!; [done|lia|done].
  - rewrite ref_dict_value_ok by done. wp_go. split_and!; [done|lia|done].
  - rewrite ref_dict_has_key_ok by done. wp_go. split_and!; [done|lia|done].
  - rewrite ref_dict_has_value_ok by done. wp_go. split_and!; [done|lia|done].
Qed.
End proofs.

(** ** Properties *)

(** C15. Any sequence of calls on a fresh [REF_DICT] is defined and gives the
    statuses and values that a finite map gives; the arrays end up as a map
    with the same entries, keys in increasing order. *)
Theorem ref_dict_refines_gmap `{Junk Z} (cs : list dict_cmd) :
  2 * (10 + 1000 * zlen cs) <= REF_INT_MAX ->
  exists d', dict_run cs (snd ref_dict_create) = Some (fst (dict_spec_run cs ∅), d') /\
    dict_wf d' /\ dict_map d' = snd (dict_spec_run cs ∅).
Proof.
  intros Hroom.
  assert (Hwf : dict_wf (snd ref_dict_create)) by (split_and!; try done; cbn; lia).
  assert (Hc : dict_map (snd ref_dict_create) = ∅) by done. rewrite <- Hc.
  change 10 with (dict_max (snd ref_dict_create)) in Hroom.
  revert Hroom Hwf. generalize (snd ref_dict_create). clear Hc.
  induction cs as [|c cs IH]; intros d Hroom Hwf; [by exists d|].
  rewrite zlen_cons in Hroom. pose proof (zlen_nonneg cs). cbn [dict_run dict_spec_run].
  destruct (dict_exec_ok c d Hwf) as ([out d1] & -> & Hwf1 & Hm & <-); [lia|].
  cbn [obind]. destruct (IH d1) as (d2 & -> & Hwf2 & Hc2); [lia|done|].
  exists d2. cbn [obind]. by destruct (dict_spec_run cs (dict_map d1)).
Qed.

Lemma ref_dict_refines_gmap_witness :
  exists d', dict_run (H := fun _ => 3)
      [CStore 7 70; CStore 2 20; CStore 7 71; CValue 7; CRemove 2; CRemove 2; CHasKey 7; CHasValue 70]
      (snd (ref_dict_create (H := fun _ => 3))) =
    Some ([(REF_SUCCESS, None); (REF_SUCCESS, None); (REF_SUCCESS, None); (REF_SUCCESS, Some 71);
           (REF_SUCCESS, None); (REF_NOT_FOUND, None); (REF_SUCCESS, Some 1);
           (REF_SUCCESS, Some 0)], d') /\
    dict_wf d' /\ dict_map d' = {[7 := 71]}.
Proof.
  apply (ref_dict_refines_gmap (H := fun _ => 3)
    [CStore 7 70; CStore 2 20; CStore 7 71; CValue 7; CRemove 2; CRemove 2; CHasKey 7; CHasValue 70]).
  vm_compute. discriminate.
Defined.
