(* ===== verification/Rows.v ===== *)
(** * Tables of fixed width with a list of unused rows

    [ref_cell.c], [ref_geom.c] and [ref_cavity.c] keep records of [per] integers
    in one array. A record is in use when its first entry is not [REF_EMPTY]; the
    others are linked through their second entry. [rows_wf] is the invariant of
    such a table and the lemmas are the four things the code does with it: start
    it, extend it, take the first unused row, and give a row back. *)
From S2P Require Import Prelude.
From stdpp Require Import prelude list.
From Stdlib Require Import ZArith Lia.
Open Scope Z_scope.
Open Scope ref_scope.

(** The subscript [col + per * row] is an [int]. *)
Definition row_index (per col row : Z) : option Z :=
  let* k := ck_int (per * row) in ck_int (col + k).
Definition row_get (per : Z) (a : list Z) (col row : Z) : option Z :=
  let* k := row_index per col row in aget a k.
Definition row_put (per col row v : Z) (a : list Z) : option (list Z) :=
  let* k := row_index per col row in aset a k v.

(** The loop that links the rows from [lo] to [hi - 1], and the assignment that
    ends the list. *)
Definition link_rows (per lo hi : Z) (a : list Z) : option (list Z) :=
  let* a :=
    for_up lo hi (fun row a =>
      let* a := row_put per 0 row REF_EMPTY a in
      row_put per 1 row (row + 1) a) a in
  row_put per 1 (hi - 1) REF_EMPTY a.

(** The entries of a row, and the entries of a row in use. *)
Definition row_of (per : Z) (a : list Z) (row : Z) : list Z :=
  map (fun col => a.[col + per * row]) (zrange per).
Definition row_at (per max : Z) (a : list Z) (row : Z) : option (list Z) :=
  if bool_decide (0 <= row < max /\ a.[per * row] <> REF_EMPTY)
  then Some (row_of per a row) else None.

(** A function on rows with one of its values changed. *)
Definition row_upd {A : Type} (f : Z -> option A) (row : Z) (v : option A) (r : Z) : option A :=
  if r =? row then v else f r.

Section rows.
Context (per max : Z) (Hper : 2 <= per) (Hmax : per * max <= REF_INT_MAX).
Implicit Types (a : list Z).

Lemma row_index_ok col row :
  0 <= col < per -> 0 <= row < max ->
  row_index per col row = Some (col + per * row) /\ 0 <= col + per * row < per * max.
Proof using Hper Hmax.
  intros Hn Hc. unfold row_index.
  assert (0 <= per * row /\ col + per * row < per * max) as [] by nia.
  split; [|lia]. apply wp_eq. wp_go; alia.
Qed.

Lemma row_index_inj col row col' row' :
  0 <= col < per -> 0 <= col' < per ->
  col + per * row = col' + per * row' -> col = col' /\ row = row'.
Proof using Hper.
  intros Hn Hn' He. assert (row = row') as -> by (destruct (Z.lt_trichotomy row row') as [|[|]]; nia).
  lia.
Qed.

Lemma wp_row_get a col row (Q : Z -> Prop) :
  zlen a = per * max -> 0 <= col < per -> 0 <= row < max ->
  Q a.[col + per * row] -> wp (row_get per a col row) Q.
Proof using Hper Hmax.
  intros Hl Hn Hc HQ. unfold row_get. destruct (row_index_ok col row Hn Hc) as [-> ?].
  cbn [obind]. by apply wp_aget; [lia|].
Qed.

Lemma row_get_eq a col row :
  zlen a = per * max -> 0 <= col < per -> 0 <= row < max ->
  row_get per a col row = Some a.[col + per * row].
Proof using Hper Hmax. intros. apply wp_eq. by apply wp_row_get. Qed.

Lemma wp_row_put a col row v (Q : list Z -> Prop) :
  zlen a = per * max -> 0 <= col < per -> 0 <= row < max ->
  Q (upd a (col + per * row) v) -> wp (row_put per col row v a) Q.
Proof using Hper Hmax.
  intros Hl Hn Hc HQ. unfold row_put. destruct (row_index_ok col row Hn Hc) as [-> ?].
  cbn [obind]. by apply wp_aset; [lia|].
Qed.

Lemma aat_row_put {A} `{Inhabited A} (a : list A) col row v col' row' :
  zlen a = per * max -> 0 <= col < per -> 0 <= row < max ->
  0 <= col' < per -> 0 <= row' ->
  (upd a (col + per * row) v).[col' + per * row'] =
  if (col =? col') && (row =? row') then v else a.[col' + per * row'].
Proof using Hper Hmax.
  intros Hl Hn Hc Hn' Hc'. destruct (row_index_ok col row Hn Hc) as [_ Hb].
  rewrite aat_upd; [|lia|nia]. case Z.eqb_spec; intros He.
  - apply row_index_inj in He as [-> ->]; [|lia|lia]. by rewrite !Z.eqb_refl.
  - destruct (Z.eqb_spec col col'), (Z.eqb_spec row row'); subst; done.
Qed.

Lemma zlen_row_of a row : zlen (row_of per a row) = per.
Proof using Hper. unfold row_of. rewrite zlen_map, zlen_zrange; lia. Qed.

Lemma aat_row_of a row col :
  0 <= col < per -> (row_of per a row).[col] = a.[col + per * row].
Proof using.
  clear Hper. intros Hn. unfold row_of. rewrite aat_map by (rewrite zlen_zrange; lia).
  by rewrite aat_zrange by lia.
Qed.

Lemma row_of_ext a a' row :
  (forall col, 0 <= col < per -> a'.[col + per * row] = a.[col + per * row]) ->
  row_of per a' row = row_of per a row.
Proof using.
  intros He. unfold row_of. apply map_ext_in. intros col Hn.
  apply He. by apply elem_of_zrange, list_elem_of_In.
Qed.

(** A store to an entry changes its row. *)
Lemma row_of_put a col row v row' :
  zlen a = per * max -> 0 <= col < per -> 0 <= row < max -> 0 <= row' ->
  row_of per (upd a (col + per * row) v) row' =
  if row' =? row then upd (row_of per a row) col v else row_of per a row'.
Proof using Hper Hmax.
  intros Hl Hn Hc Hc'. case Z.eqb_spec; intros Hcc.
  - subst row'. apply arr_ext; [by rewrite zlen_upd, !zlen_row_of|]. rewrite zlen_row_of.
    intros i Hi. rewrite aat_row_of, aat_row_put, aat_upd, Z.eqb_refl, andb_true_r by (rewrite ?zlen_row_of; lia).
    case Z.eqb_spec; intros; [done|]. by rewrite aat_row_of.
  - apply row_of_ext. intros i Hi. rewrite aat_row_put by lia.
    by destruct (Z.eqb_spec row row'); [subst|rewrite andb_false_r].
Qed.

Lemma wp_link_rows lo hi a (Q : list Z -> Prop) :
  0 <= lo < hi -> hi <= max -> zlen a = per * max ->
  (forall a', zlen a' = per * max ->
     (forall row, lo <= row < hi -> a'.[per * row] = REF_EMPTY /\
        a'.[1 + per * row] = if row =? hi - 1 then REF_EMPTY else row + 1) ->
     (forall col row, 0 <= col < per -> 0 <= row < lo ->
        a'.[col + per * row] = a.[col + per * row]) -> Q a') ->
  wp (link_rows per lo hi a) Q.
Proof using Hper Hmax.
  intros Hlo Hhi Hl HQ. unfold link_rows. apply wp_bind.
  apply (wp_for_up (fun i c => zlen c = per * max /\
    (forall row, lo <= row < i -> c.[0 + per * row] = REF_EMPTY /\
       c.[1 + per * row] = row + 1) /\
    (forall col row, 0 <= col < per -> 0 <= row < lo ->
       c.[col + per * row] = a.[col + per * row]))); [lia| | |].
  - split; [done|]. split; [lia|done].
  - intros i c Hi (Hlc & Hdone & Hrest).
    apply wp_bind, wp_row_put; [done|lia|lia|]. apply wp_row_put; [by rewrite zlen_upd|lia|lia|].
    split; [by rewrite !zlen_upd|]. split.
    + intros row Hrow. rewrite !aat_row_put by (rewrite ?zlen_upd; lia). cbn [Z.eqb andb].
      destruct (Z.eqb_spec i row); [by subst|]. apply Hdone. lia.
    + intros col row Hcol Hrow. rewrite !aat_row_put by (rewrite ?zlen_upd; lia).
      destruct (Z.eqb_spec i row); [lia|]. rewrite !andb_false_r. by apply Hrest.
  - intros c (Hlc & Hdone & Hrest). apply wp_row_put; [done|lia|lia|].
    apply HQ; [by rewrite zlen_upd| |].
    + intros row Hrow. change (per * row) with (0 + per * row) at 1.
      destruct (Hdone row Hrow) as [Hd0 Hd1].
      rewrite !aat_row_put, Hd0, Hd1 by lia. cbn [Z.eqb andb].
      destruct (Z.eqb_spec (hi - 1) row), (Z.eqb_spec row (hi - 1)); lia || done.
    + intros col row Hcol Hrow. rewrite aat_row_put by lia.
      destruct (Z.eqb_spec (hi - 1) row); [lia|]. rewrite andb_false_r. by apply Hrest.
Qed.
End rows.

Section row_at.
Context (per : Z) (Hper : 2 <= per).
Implicit Types (a : list Z).

Lemma row_at_Some max a row l :
  row_at per max a row = Some l <->
  0 <= row < max /\ a.[per * row] <> REF_EMPTY /\ l = row_of per a row.
Proof using.
  unfold row_at. case_bool_decide as Hc; split.
  - intros [= <-]. destruct Hc. done.
  - by intros (_ & _ & ->).
  - done.
  - intros (? & ? & _). exfalso. by apply Hc.
Qed.

Lemma row_at_None max a row :
  row_at per max a row = None <-> ~ (0 <= row < max /\ a.[per * row] <> REF_EMPTY).
Proof using. unfold row_at. by case_bool_decide. Qed.

Lemma zlen_row_at max a row l : row_at per max a row = Some l -> zlen l = per.
Proof using Hper. intros (_ & _ & ->)%row_at_Some. by apply zlen_row_of. Qed.

Lemma aat_row_at max a row l col :
  row_at per max a row = Some l -> 0 <= col < per -> l.[col] = a.[col + per * row].
Proof using. intros (_ & _ & ->)%row_at_Some Hc. by apply aat_row_of. Qed.

(** [row_at] looks at the entries of the row only. *)
Lemma row_at_ext max max' a a' row :
  (0 <= row < max <-> 0 <= row < max') ->
  (forall col, 0 <= col < per -> 0 <= row < max -> a'.[col + per * row] = a.[col + per * row]) ->
  row_at per max' a' row = row_at per max a row.
Proof using Hper.
  intros Hm He. destruct (decide (0 <= row < max)) as [Hc|Hc].
  - unfold row_at. pose proof (He 0 ltac:(lia) Hc) as H0'. change (0 + per * row) with (per * row) in H0'.
    rewrite H0'. rewrite (bool_decide_ext _ (0 <= row < max /\ a.[per * row] <> REF_EMPTY)) by tauto.
    case_bool_decide; [|done]. f_equal. apply row_of_ext. intros col Hn. by apply He.
  - assert (row_at per max a row = None) as -> by (apply row_at_None; by intros [? _]).
    apply row_at_None. intros [? _]. tauto.
Qed.
End row_at.

(** ** The invariant

    [n] rows of [max] are in use and [bl] lists the others, from [blank]. *)
Record rows_wf (per n max blank : Z) (a : list Z) (bl : list Z) : Prop := {
  rw_max : 1 <= max;
  rw_size : per * max <= REF_INT_MAX;
  rw_len : zlen a = per * max;
  rw_chain : chain (fun row => a.[1 + per * row]) blank bl;
  rw_nodup : NoDup bl;
  rw_blank : forall row, row ∈ bl <-> 0 <= row < max /\ row_at per max a row = None;
  rw_n : n + zlen bl = max
}.

(** The rows in use, in order. *)
Definition used_rows (per max : Z) (a : list Z) : list Z :=
  filter (fun row => is_Some (row_at per max a row)) (zrange max).

Section wf.
Context (per : Z) (Hper : 2 <= per).
Implicit Types (a bl : list Z) (n max blank row : Z).

Lemma elem_of_used_rows max a row : row ∈ used_rows per max a <-> is_Some (row_at per max a row).
Proof using.
  unfold used_rows. rewrite list_elem_of_filter, elem_of_zrange. split; [by intros [? _]|].
  intros Hs. split; [done|]. destruct Hs as [l Hl]. by apply row_at_Some in Hl as [? _].
Qed.

Lemma zlen_used_rows n max blank a bl :
  rows_wf per n max blank a bl -> zlen (used_rows per max a) = n.
Proof using.
  intros Hwf. pose proof (rw_n _ _ _ _ _ _ Hwf) as Hn. pose proof (rw_max _ _ _ _ _ _ Hwf).
  assert (Hp : used_rows per max a ++ bl ≡ₚ zrange max).
  { apply NoDup_Permutation; [|apply NoDup_zrange|].
    - apply NoDup_app. split; [apply NoDup_filter, NoDup_zrange|]. split; [|apply Hwf].
      intros c Hc%elem_of_used_rows Hb%(rw_blank _ _ _ _ _ _ Hwf). destruct Hb as [_ Hb]. rewrite Hb in Hc.
      by destruct Hc.
    - intros c. rewrite elem_of_app, elem_of_used_rows, (rw_blank _ _ _ _ _ _ Hwf), elem_of_zrange.
      split; [intros [[l Hl]|[? _]]; [by apply row_at_Some in Hl as [? _]|done]|].
      intros Hc. destruct (row_at per max a c); [left; done|by right]. }
  apply Permutation_length in Hp. rewrite length_app in Hp.
  pose proof (zlen_zrange max ltac:(lia)). unfold zlen in *. lia.
Qed.

Lemma rows_n_bounds n max blank a bl : rows_wf per n max blank a bl -> 0 <= n <= max.
Proof using.
  intros Hwf. rewrite <- (zlen_used_rows _ _ _ _ _ Hwf). split; [apply zlen_nonneg|].
  rewrite (zlen_used_rows _ _ _ _ _ Hwf). pose proof (rw_n _ _ _ _ _ _ Hwf). pose proof (zlen_nonneg bl). lia.
Qed.

Lemma rows_blank_nil n max blank a bl :
  rows_wf per n max blank a bl -> blank = REF_EMPTY <-> bl = [].
Proof using.
  clear Hper. intros Hwf. pose proof (rw_chain _ _ _ _ _ _ Hwf) as Hch. split; [|by intros ->].
  intros ->. destruct bl as [|i bl]; [done|]. destruct Hch as [Hi _].
  assert (i ∈ i :: bl) as [? _]%(rw_blank _ _ _ _ _ _ Hwf) by set_solver. unfold REF_EMPTY in *. lia.
Qed.

(** A table of [max] linked rows. *)
Lemma rows_wf_start max a :
  1 <= max -> per * max <= REF_INT_MAX -> zlen a = per * max ->
  (forall row, 0 <= row < max -> a.[per * row] = REF_EMPTY /\
     a.[1 + per * row] = if row =? max - 1 then REF_EMPTY else row + 1) ->
  rows_wf per 0 max 0 a (seqZ 0 (max - 0)) /\ forall row, row_at per max a row = None.
Proof using.
  intros Hm Hs Hl Hlinked.
  assert (Hat : forall row, row_at per max a row = None).
  { intros row. apply row_at_None. intros [Hr Hx]. apply Hx. by apply Hlinked. }
  split; [|done]. constructor; try done.
  - apply chain_linked; [lia|]. intros j Hj. by apply Hlinked.
  - apply NoDup_seqZ.
  - intros row. rewrite Hat, elem_of_seqZ. split; [intros; split; [lia|done]|intros [? _]; lia].
  - unfold zlen. rewrite length_seqZ. lia.
Qed.

(** Linked rows behind a table with no unused one. *)
Lemma rows_wf_extend n max max' blank a a' :
  rows_wf per n max blank a [] -> max < max' -> per * max' <= REF_INT_MAX -> zlen a' = per * max' ->
  (forall row, max <= row < max' -> a'.[per * row] = REF_EMPTY /\
     a'.[1 + per * row] = if row =? max' - 1 then REF_EMPTY else row + 1) ->
  (forall col row, 0 <= col < per -> 0 <= row < max -> a'.[col + per * row] = a.[col + per * row]) ->
  rows_wf per n max' max a' (seqZ max (max' - max)) /\
  forall row, row_at per max' a' row = row_at per max a row.
Proof using Hper.
  intros Hwf Hm Hs Hl Hlinked Hold. pose proof (rw_max _ _ _ _ _ _ Hwf).
  assert (Hsame : forall row, row_at per max' a' row = row_at per max a row).
  { intros row. destruct (decide (max <= row < max')) as [Hc|Hc].
    - transitivity (@None (list Z)); [|symmetry; apply row_at_None; intros [? _]; lia].
      apply row_at_None. intros [_ Hx]. apply Hx. by apply Hlinked.
    - apply row_at_ext; [done|lia|]. intros col Hn Hr. by apply Hold. }
  split; [|done]. constructor; try done; [lia| | | |].
  - apply chain_linked; [lia|]. intros j Hj. by apply Hlinked.
  - apply NoDup_seqZ.
  - intros row. rewrite Hsame, elem_of_seqZ. split.
    + intros Hc. split; [lia|]. apply row_at_None. intros [? _]. lia.
    + intros [Hc Hn]. destruct (decide (max <= row)); [lia|].
      exfalso. assert (row ∈ []) by (apply (rw_blank _ _ _ _ _ _ Hwf); split; [lia|done]). set_solver.
  - pose proof (rw_n _ _ _ _ _ _ Hwf). unfold zlen in *. cbn in *. rewrite length_seqZ. lia.
Qed.

(** The rows other than [row] have the entries they had. *)
Definition rows_keep (max row : Z) a a' : Prop :=
  zlen a' = zlen a /\ forall col r, 0 <= col < per -> 0 <= r < max -> r <> row ->
    a'.[col + per * r] = a.[col + per * r].

Lemma row_at_keep max row a a' r :
  rows_keep max row a a' -> r <> row -> row_at per max a' r = row_at per max a r.
Proof using Hper. intros [_ Hk] Hr. apply row_at_ext; [done|done|]. intros. by apply Hk. Qed.

(** The first unused row gets entries. *)
Lemma rows_wf_take n max blank a a' row bl :
  rows_wf per n max blank a (row :: bl) -> rows_keep max row a a' ->
  a'.[per * row] <> REF_EMPTY ->
  rows_wf per (n + 1) max a.[1 + per * row] a' bl /\
  forall r, row_at per max a' r = row_upd (row_at per max a) row (Some (row_of per a' row)) r.
Proof using Hper.
  intros Hwf Hk Hv. pose proof (rw_chain _ _ _ _ _ _ Hwf) as [_ Hch].
  pose proof (rw_nodup _ _ _ _ _ _ Hwf) as [Hnin Hnd]%NoDup_cons.
  assert (row ∈ row :: bl) as [Hr _]%(rw_blank _ _ _ _ _ _ Hwf) by set_solver.
  assert (Hat : forall r, row_at per max a' r =
    row_upd (row_at per max a) row (Some (row_of per a' row)) r).
  { intros r. unfold row_upd. case Z.eqb_spec; intros; [subst; by apply row_at_Some|].
    by apply (row_at_keep max row). }
  split; [|done]. constructor; try apply Hwf; try done.
  - by rewrite (proj1 Hk), (rw_len _ _ _ _ _ _ Hwf).
  - eapply chain_ext; [|exact Hch]. cbn. intros c Hc.
    assert (c ∈ row :: bl) as [Hcr _]%(rw_blank _ _ _ _ _ _ Hwf) by set_solver.
    apply Hk; [lia|done|]. by intros ->.
  - intros c. rewrite Hat. unfold row_upd. pose proof (rw_blank _ _ _ _ _ _ Hwf c) as Hb.
    rewrite elem_of_cons in Hb. case Z.eqb_spec; intros Hcc; [|naive_solver].
    subst c. split; [done|by intros [_ ?]].
  - pose proof (rw_n _ _ _ _ _ _ Hwf) as Hn. rewrite zlen_cons in Hn. lia.
Qed.

(** A row in use becomes the first unused one. *)
Lemma rows_wf_release n max blank a a' row bl l :
  rows_wf per n max blank a bl -> row_at per max a row = Some l -> rows_keep max row a a' ->
  a'.[per * row] = REF_EMPTY -> a'.[1 + per * row] = blank ->
  rows_wf per (n - 1) max row a' (row :: bl) /\
  forall r, row_at per max a' r = row_upd (row_at per max a) row None r.
Proof using Hper.
  intros Hwf Hl Hk H0' H1'. apply row_at_Some in Hl as Hr. destruct Hr as (Hr & _ & _).
  assert (Hnb : row ∉ bl) by (intros [_ Hx]%(rw_blank _ _ _ _ _ _ Hwf); congruence).
  assert (Hat : forall r, row_at per max a' r = row_upd (row_at per max a) row None r).
  { intros r. unfold row_upd. case Z.eqb_spec; intros.
    - subst. apply row_at_None. by intros [_ ?].
    - by apply (row_at_keep max row). }
  split; [|done]. constructor; try apply Hwf; try done.
  - by rewrite (proj1 Hk), (rw_len _ _ _ _ _ _ Hwf).
  - split; [done|]. rewrite H1'. eapply chain_ext; [|apply Hwf]. cbn. intros c Hc.
    apply (rw_blank _ _ _ _ _ _ Hwf) in Hc as Hcr. apply Hk; [lia|lia|]. by intros ->.
  - constructor; [done|apply Hwf].
  - intros c. rewrite Hat, elem_of_cons, (rw_blank _ _ _ _ _ _ Hwf). unfold row_upd.
    case Z.eqb_spec; intros Hcc; [|naive_solver]. subst c. split; [done|]. intros. by left.
  - pose proof (rw_n _ _ _ _ _ _ Hwf) as Hn. rewrite zlen_cons. lia.
Qed.

(** A row in use gets other entries. *)
Lemma rows_wf_change n max blank a a' row bl l :
  rows_wf per n max blank a bl -> row_at per max a row = Some l -> rows_keep max row a a' ->
  a'.[per * row] <> REF_EMPTY ->
  rows_wf per n max blank a' bl /\
  forall r, row_at per max a' r = row_upd (row_at per max a) row (Some (row_of per a' row)) r.
Proof using Hper.
  intros Hwf Hl Hk Hv. apply row_at_Some in Hl as Hr. destruct Hr as (Hr & _ & _).
  assert (Hnb : row ∉ bl) by (intros [_ Hx]%(rw_blank _ _ _ _ _ _ Hwf); congruence).
  assert (Hat : forall r, row_at per max a' r =
    row_upd (row_at per max a) row (Some (row_of per a' row)) r).
  { intros r. unfold row_upd. case Z.eqb_spec; intros; [subst; by apply row_at_Some|].
    by apply (row_at_keep max row). }
  split; [|done]. constructor; try apply Hwf.
  - by rewrite (proj1 Hk), (rw_len _ _ _ _ _ _ Hwf).
  - eapply chain_ext; [|apply Hwf]. cbn. intros c Hc.
    apply (rw_blank _ _ _ _ _ _ Hwf) in Hc as Hcr. apply Hk; [lia|lia|]. by intros ->.
  - intros c. rewrite (rw_blank _ _ _ _ _ _ Hwf), Hat. unfold row_upd. case Z.eqb_spec; [|done].
    intros ->. split; [intros [_ ?]; congruence|by intros [_ ?]].
Qed.

(** A loop over the rows whose first entry is in use. *)
Lemma each_used_row {T R} max a (valid : Z -> option bool) (body : Z -> T -> option (ctl T R)) s :
  (forall row, 0 <= row < max ->
     valid row = Some (bool_decide (is_Some (row_at per max a row)))) ->
  forx_up 0 max (fun row s =>
    let* v := valid row in if v : bool then body row s else Some (Next s)) s =
  forl (used_rows per max a) body s.
Proof using.
  intros Hv. rewrite forx_forl. unfold used_rows. rewrite <- forl_filter.
  apply forl_ext. intros row s' Hr%elem_of_zrange. rewrite Hv by done. done.
Qed.
End wf.

(** ** The rows in use as a list of entries *)

Definition rows_list (per max : Z) (a : list Z) : list (list Z) := omap (row_at per max a) (zrange max).

Lemma omap_ext_in {X Y} (f g : X -> option Y) (l : list X) :
  (forall x, x ∈ l -> g x = f x) -> omap g l = omap f l.
Proof.
  induction l as [|x l IH]; intros He; [done|]. cbn. rewrite He by set_solver.
  rewrite IH by (intros; apply He; set_solver). done.
Qed.

(** One more element has a value. *)
Lemma omap_upd_perm {X Y} (f g : X -> option Y) (l : list X) x y :
  NoDup l -> x ∈ l -> f x = None -> g x = Some y ->
  (forall x', x' ∈ l -> x' <> x -> g x' = f x') -> omap g l ≡ₚ y :: omap f l.
Proof.
  intros Hnd (l1 & l2 & ->)%list_elem_of_split Hf Hg He.
  apply NoDup_app in Hnd as (_ & Hd & [Hn2 _]%NoDup_cons).
  assert (Hn1 : x ∉ l1) by (intros Hx; apply (Hd x Hx); set_solver).
  rewrite !omap_app. cbn. rewrite Hf, Hg.
  rewrite (omap_ext_in f g l1) by (intros x' Hx; apply He; [set_solver|by intros ->]).
  rewrite (omap_ext_in f g l2) by (intros x' Hx; apply He; [set_solver|by intros ->]).
  symmetry. apply Permutation_middle.
Qed.

Lemma omap_seq_more {Y} (f : Z -> option Y) n m :
  0 <= n <= m -> (forall i, n <= i -> f i = None) -> omap f (zrange m) = omap f (zrange n).
Proof.
  intros Hnm Hf. unfold zrange. replace (Z.to_nat m) with (Z.to_nat n + Z.to_nat (m - n))%nat by lia.
  rewrite seq_app, map_app, omap_app.
  assert (omap f (map Z.of_nat (seq (0 + Z.to_nat n) (Z.to_nat (m - n)))) = []) as ->.
  { generalize (Z.to_nat (m - n)) as k. intros k. assert (Hs : (Z.to_nat n <= 0 + Z.to_nat n)%nat) by lia.
    revert Hs. generalize (0 + Z.to_nat n)%nat as s. induction k as [|k IH]; intros s Hs; [done|].
    cbn. rewrite Hf by lia. apply IH. lia. }
  by rewrite app_nil_r.
Qed.

Lemma elem_of_rows_list per max a l :
  l ∈ rows_list per max a <-> exists row, row_at per max a row = Some l.
Proof.
  unfold rows_list. rewrite list_elem_of_omap. split.
  - intros (row & _ & Hl). by exists row.
  - intros (row & Hl). exists row. split; [|done]. apply row_at_Some in Hl as [Hr _].
    by apply elem_of_zrange.
Qed.

Lemma rows_list_none per max a : (forall row, row_at per max a row = None) -> rows_list per max a = [].
Proof.
  intros Hn. destruct (rows_list per max a) as [|l ls] eqn:He; [done|].
  assert (l ∈ rows_list per max a) as [row Hl]%elem_of_rows_list by (rewrite He; set_solver). congruence.
Qed.

(** A row that gets entries, and one that loses them. *)
Lemma rows_list_take per max a a' row l :
  0 <= row < max -> row_at per max a row = None ->
  (forall r, row_at per max a' r = row_upd (row_at per max a) row (Some l) r) ->
  rows_list per max a' ≡ₚ l :: rows_list per max a.
Proof.
  intros Hr Hn Hat. apply omap_upd_perm with (x := row); try done.
  - apply NoDup_zrange.
  - by apply elem_of_zrange.
  - rewrite Hat. unfold row_upd. by rewrite Z.eqb_refl.
  - intros r _ Hne. rewrite Hat. unfold row_upd. by case Z.eqb_spec.
Qed.

Lemma rows_list_release per max a a' row l :
  row_at per max a row = Some l ->
  (forall r, row_at per max a' r = row_upd (row_at per max a) row None r) ->
  rows_list per max a ≡ₚ l :: rows_list per max a'.
Proof.
  intros Hl Hat. apply row_at_Some in Hl as Hr. destruct Hr as [Hr _].
  apply omap_upd_perm with (x := row); try done.
  - apply NoDup_zrange.
  - by apply elem_of_zrange.
  - rewrite Hat. unfold row_upd. by rewrite Z.eqb_refl.
  - intros r _ Hne. rewrite Hat. unfold row_upd. by case Z.eqb_spec.
Qed.

Lemma rows_list_extend per max max' a a' :
  0 <= max <= max' -> (forall row, row_at per max' a' row = row_at per max a row) ->
  rows_list per max' a' = rows_list per max a.
Proof.
  intros Hm Hat. unfold rows_list. rewrite (omap_ext_in (row_at per max a)) by (intros; apply Hat).
  apply omap_seq_more; [done|]. intros i Hi. apply row_at_None. intros [? _]. lia.
Qed.

(** The list over the rows in use. *)
Lemma rows_list_used per max a :
  rows_list per max a = map (row_of per a) (used_rows per max a).
Proof.
  unfold rows_list, used_rows. induction (zrange max) as [|row l IH]; [done|].
  rewrite filter_cons. cbn [omap list_omap]. destruct (row_at per max a row) as [e|] eqn:He.
  - rewrite decide_True by done. cbn. apply row_at_Some in He as (_ & _ & ->). f_equal. exact IH.
  - rewrite decide_False by (intros [? ?]; done). exact IH.
Qed.

Lemma zlen_rows_list per n max blank a bl :
  rows_wf per n max blank a bl -> zlen (rows_list per max a) = n.
Proof. intros Hwf. rewrite rows_list_used, zlen_map. by apply zlen_used_rows with blank bl. Qed.
