(* ===== verification/Chains.v ===== *)
(** * Oriented faces and their sums

    What a mesh bounds is stated with alternating functions of three vertices: the
    sum of such a function over the faces of all elements counts every face with
    its orientation, so two equally oriented faces count twice and two opposite
    ones not at all. Two sets of faces are the same surface when every alternating
    function has the same sum over both. *)
From S2P Require Import Prelude.
From stdpp Require Import prelude list gmap.
From Stdlib Require Import ZArith Lia.
Open Scope Z_scope.
Open Scope ref_scope.

(** ** Sums *)

Definition zsum (l : list Z) : Z := foldr Z.add 0 l.

Lemma zsum_cons x l : zsum (x :: l) = x + zsum l.
Proof. done. Qed.
Lemma zsum_app l1 l2 : zsum (l1 ++ l2) = zsum l1 + zsum l2.
Proof. induction l1 as [|x l1 IH]; [done|]. rewrite <- app_comm_cons, !zsum_cons, IH. lia. Qed.
#[global] Instance zsum_proper : Proper ((≡ₚ) ==> (=)) zsum.
Proof. intros l1 l2 Hp. induction Hp; rewrite ?zsum_cons in *; lia. Qed.

Section sums.
Context {X : Type}.
Implicit Types (f g : X -> Z) (l : list X).

Definition sum_over f l : Z := zsum (map f l).

Lemma sum_over_nil f : sum_over f [] = 0.
Proof. done. Qed.
Lemma sum_over_cons f x l : sum_over f (x :: l) = f x + sum_over f l.
Proof. done. Qed.
Lemma sum_over_app f l1 l2 : sum_over f (l1 ++ l2) = sum_over f l1 + sum_over f l2.
Proof. unfold sum_over. by rewrite map_app, zsum_app. Qed.
Lemma sum_over_perm f l1 l2 : l1 ≡ₚ l2 -> sum_over f l1 = sum_over f l2.
Proof. intros Hp. unfold sum_over. by rewrite Hp. Qed.
Lemma sum_over_ext f g l : (forall x, x ∈ l -> f x = g x) -> sum_over f l = sum_over g l.
Proof.
  induction l as [|x l IH]; intros He; [done|]. rewrite !sum_over_cons, He by set_solver.
  rewrite IH by (intros; apply He; set_solver). done.
Qed.
Lemma sum_over_zero f l : (forall x, x ∈ l -> f x = 0) -> sum_over f l = 0.
Proof.
  induction l as [|x l IH]; intros He; [done|]. rewrite sum_over_cons, He by set_solver.
  rewrite IH; [done|]. intros; apply He; set_solver.
Qed.
Lemma sum_over_add f g l : sum_over (fun x => f x + g x) l = sum_over f l + sum_over g l.
Proof. induction l as [|x l IH]; [done|]. rewrite !sum_over_cons, IH. lia. Qed.
Lemma sum_over_sub f g l : sum_over (fun x => f x - g x) l = sum_over f l - sum_over g l.
Proof. induction l as [|x l IH]; [done|]. rewrite !sum_over_cons, IH. lia. Qed.
Lemma sum_over_filter f (P : X -> Prop) `{!forall x, Decision (P x)} l :
  (forall x, x ∈ l -> ~ P x -> f x = 0) -> sum_over f (filter P l) = sum_over f l.
Proof.
  induction l as [|x l IH]; intros Hz; [done|]. rewrite filter_cons, sum_over_cons.
  specialize (IH (fun y Hy => Hz y ltac:(set_solver))). case_decide; rewrite ?sum_over_cons; [lia|].
  rewrite Hz; [lia|set_solver|done].
Qed.
End sums.

Lemma sum_over_bind {X Y} (f : Y -> Z) (g : X -> list Y) (l : list X) :
  sum_over f (l ≫= g) = sum_over (fun x => sum_over f (g x)) l.
Proof. induction l as [|x l IH]; [done|]. by rewrite bind_cons, sum_over_app, sum_over_cons, IH. Qed.
Lemma sum_over_map {X Y} (f : Y -> Z) (g : X -> Y) (l : list X) :
  sum_over f (map g l) = sum_over (fun x => f (g x)) l.
Proof. unfold sum_over. by rewrite map_map. Qed.

(** ** Sums over a finite map *)

Definition map_sum {A} (f : A -> Z) (m : gmap Z A) : Z := map_fold (fun _ x acc => f x + acc) 0 m.

Lemma map_sum_empty {A} (f : A -> Z) : map_sum f ∅ = 0.
Proof. done. Qed.
Lemma map_sum_insert {A} (f : A -> Z) (m : gmap Z A) k x :
  m !! k = None -> map_sum f (<[k := x]> m) = f x + map_sum f m.
Proof. intros Hk. unfold map_sum. rewrite map_fold_insert_L; [done|intros; lia|done]. Qed.
Lemma map_sum_delete {A} (f : A -> Z) (m : gmap Z A) k x :
  m !! k = Some x -> map_sum f (delete k m) = map_sum f m - f x.
Proof.
  intros Hk. rewrite <- (insert_delete_id m k x Hk) at 2. rewrite map_sum_insert by apply lookup_delete_eq. lia.
Qed.
Lemma map_sum_list {A} (f : A -> Z) (m : gmap Z A) :
  map_sum f m = sum_over (fun kx => f kx.2) (map_to_list m).
Proof. unfold map_sum. rewrite map_fold_foldr. induction (map_to_list m) as [|[k x] l IH]; [done|]. cbn. by rewrite IH. Qed.

(** ** Alternating functions *)

Record alternating (phi : Z -> Z -> Z -> Z) : Prop := {
  alt_rotate : forall a b c, phi a b c = phi b c a;
  alt_swap : forall a b c, phi b a c = - phi a b c
}.

Definition on_face (phi : Z -> Z -> Z -> Z) (f : Z * Z * Z) : Z := let '(a, b, c) := f in phi a b c.

Section alternating.
Context (phi : Z -> Z -> Z -> Z) (Halt : alternating phi).

Lemma alt_01 a c : phi a a c = 0.
Proof using Halt. pose proof (alt_swap _ Halt a a c). lia. Qed.
Lemma alt_12 a b : phi a b b = 0.
Proof using Halt. rewrite (alt_rotate _ Halt). apply alt_01. Qed.
Lemma alt_02 a b : phi a b a = 0.
Proof using Halt. rewrite (alt_rotate _ Halt). apply alt_12. Qed.
Lemma alt_swap_12 a b c : phi a c b = - phi a b c.
Proof using Halt. rewrite (alt_rotate _ Halt a c b), (alt_rotate _ Halt a b c). apply (alt_swap _ Halt). Qed.
Lemma alt_reverse a b c : phi c b a = - phi a b c.
Proof using Halt. rewrite (alt_rotate _ Halt c b a). apply (alt_swap _ Halt). Qed.
End alternating.

(** The six orders of three vertices. *)
Lemma alt_orders (phi : Z -> Z -> Z -> Z) (Ha : alternating phi) a b c :
  phi b c a = phi a b c /\ phi c a b = phi a b c /\ phi b a c = - phi a b c /\ phi a c b = - phi a b c /\
  phi c b a = - phi a b c.
Proof.
  pose proof (alt_rotate _ Ha a b c). pose proof (alt_rotate _ Ha c a b).
  pose proof (alt_swap _ Ha a b c). pose proof (alt_swap_12 _ Ha a b c). pose proof (alt_reverse _ Ha a b c). lia.
Qed.

(** ** Closed surfaces

    Every side of a face is a side of exactly one face in the other direction. *)
Definition sides (f : Z * Z * Z) : list (Z * Z) := let '(a, b, c) := f in [(a, b); (b, c); (c, a)].

Definition matched (faces : list (Z * Z * Z)) : Prop :=
  forall i f a b, faces !! i = Some f -> (a, b) ∈ sides f ->
    exists j, (exists g, faces !! j = Some g /\ (b, a) ∈ sides g) /\
      forall j' g', faces !! j' = Some g' -> (b, a) ∈ sides g' -> j' = j.

Lemma NoDup_bind_index {X Y} (g : X -> list Y) (l : list X) :
  (forall x, x ∈ l -> NoDup (g x)) ->
  (forall i j x x' y, l !! i = Some x -> l !! j = Some x' -> y ∈ g x -> y ∈ g x' -> i = j) ->
  NoDup (l ≫= g).
Proof.
  induction l as [|x l IH]; intros Hg Hd; [constructor|]. rewrite bind_cons. apply NoDup_app. split; [apply Hg; set_solver|].
  split; [|apply IH; [intros; apply Hg; set_solver|]].
  - intros y Hy (x' & Hx' & (j & Hj)%list_elem_of_lookup_1)%list_elem_of_bind.
    assert (0%nat = S j) as [=] by (eapply (Hd 0%nat (S j)); done).
  - intros i j z z' y Hi Hj Hz Hz'. assert (S i = S j) as [= ->]; [|done].
    by eapply (Hd (S i) (S j)).
Qed.

Definition proper_sides (f : Z * Z * Z) : list (Z * Z) := filter (fun e => e.1 <> e.2) (sides f).

Lemma elem_of_proper_sides f a b : (a, b) ∈ proper_sides f <-> a <> b /\ (a, b) ∈ sides f.
Proof. unfold proper_sides. by rewrite list_elem_of_filter. Qed.

Lemma NoDup_proper_sides f : NoDup (proper_sides f).
Proof.
  destruct f as [[a b] c]. unfold proper_sides, sides. rewrite !filter_cons, filter_nil. cbn.
  repeat case_decide; repeat first [apply NoDup_nil_2 | apply NoDup_cons; split];
    rewrite ?not_elem_of_cons; repeat split; try apply not_elem_of_nil; intros [=]; congruence.
Qed.

Lemma matched_pairs faces :
  matched faces -> let e := faces ≫= proper_sides in
  NoDup e /\ forall a b, (a, b) ∈ e -> (b, a) ∈ e.
Proof.
  intros Hm e. assert (Hin : forall a b, (a, b) ∈ e <-> a <> b /\ exists i f, faces !! i = Some f /\ (a, b) ∈ sides f).
  { intros a b. unfold e. rewrite list_elem_of_bind. setoid_rewrite elem_of_proper_sides.
    setoid_rewrite list_elem_of_lookup. naive_solver. }
  split.
  - apply NoDup_bind_index; [intros; apply NoDup_proper_sides|].
    intros i j f f' [a b] Hi Hj [Hab Hf]%elem_of_proper_sides [_ Hf']%elem_of_proper_sides.
    destruct (Hm i f a b Hi Hf) as (k & (g & Hk & Hg) & _).
    destruct (Hm k g b a Hk Hg) as (i' & _ & Hu). by rewrite (Hu i f Hi Hf), (Hu j f' Hj Hf').
  - intros a b (Hab & i & f & Hi & Hf)%Hin. apply Hin. split; [done|].
    destruct (Hm i f a b Hi Hf) as (k & (g & Hk & Hg) & _). by exists k, g.
Qed.

Lemma matched_sum_zero faces (psi : Z -> Z -> Z) :
  matched faces -> (forall a b, psi b a = - psi a b) ->
  sum_over (fun f => sum_over (fun e => psi e.1 e.2) (sides f)) faces = 0.
Proof.
  intros [Hnd Hsym]%matched_pairs Hpsi.
  transitivity (sum_over (fun e => psi e.1 e.2) (faces ≫= proper_sides)).
  { rewrite sum_over_bind. apply sum_over_ext. intros f _. symmetry. apply sum_over_filter.
    intros [a b] _ Hab. cbn in *. assert (a = b) as -> by (destruct (decide (a = b)); tauto).
    pose proof (Hpsi b b). lia. }
  set (e := faces ≫= proper_sides) in *.
  assert (Hp : map (fun e => (e.2, e.1)) e ≡ₚ e).
  { apply NoDup_Permutation; [apply NoDup_fmap_2; [by intros [] [] [=]; subst|done]|done|].
    intros [a b]. rewrite list_elem_of_fmap. split.
    - intros ([a' b'] & [= -> ->] & He). by apply Hsym.
    - intros He. exists (b, a). split; [done|]. by apply Hsym. }
  assert (sum_over (fun e => psi e.1 e.2) e = - sum_over (fun e => psi e.1 e.2) e); [|lia].
  rewrite <- (sum_over_perm _ _ _ Hp) at 1. rewrite sum_over_map. cbn.
  clearbody e. clear - Hpsi. induction e as [|[a b] e IH]; [done|]. rewrite !sum_over_cons, IH. cbn. pose proof (Hpsi a b). lia.
Qed.
