(* ===== verification/Effect.v ===== *)
(** * Functions that update a state and may return early

    A C function that works on shared structures returns a [REF_STATUS], and the
    macros of ref_defs.h leave it in the middle. [fn S A] is a piece of such a
    function: it works on a state [S] and either goes on with a value ([Next]) or
    makes the function return ([Exit]). [fwp] is its weakest precondition, with
    one postcondition for each of the two. *)
From S2P Require Import Prelude.
From stdpp Require Import prelude list.
From Stdlib Require Import ZArith Lia.
Open Scope Z_scope.
Open Scope ref_scope.

Definition fn (S A : Type) : Type := S -> option (ctl (A * S) (REF_STATUS * S)).

Section fn.
Context {S : Type}.

Definition fret {A} (a : A) : fn S A := fun s => Some (Next (a, s)).
Definition fbind {A B} (m : fn S A) (k : A -> fn S B) : fn S B := fun s =>
  let* c := m s in
  match c with
  | Next (a, s) => k a s
  | Exit r => Some (Exit r)
  end.

(** [return st;] *)
Definition leave {A} (st : REF_STATUS) : fn S A := fun s => Some (Exit (st, s)).
(** An expression. *)
Definition use {A} (m : option A) : fn S A := fun s => let* a := m in Some (Next (a, s)).
Definition state : fn S S := fun s => Some (Next (s, s)).
Definition assign (f : S -> S) : fn S unit := fun s => Some (Next (tt, f s)).
Definition update (f : S -> option S) : fn S unit := fun s => let* s := f s in Some (Next (tt, s)).

(** [RSS] of a call that updates the state, and of one that only has a result. *)
Definition call (f : S -> option (REF_STATUS * S)) : fn S unit := fun s =>
  let* '(st, s) := f s in
  Some (match st with REF_SUCCESS => Next (tt, s) | _ => Exit (st, s) end).
Definition ask {A} (m : option (REF_STATUS * A)) : fn S A := fun s =>
  let* '(st, a) := m in
  Some (match st with REF_SUCCESS => Next (a, s) | _ => Exit (st, s) end).
(** [RXS] of a call that only has a result. *)
Definition ask_or {A} (allowed : REF_STATUS) (m : option (REF_STATUS * A)) : fn S A := fun s =>
  let* '(st, a) := m in
  Some (if bool_decide (st = REF_SUCCESS \/ st = allowed) then Next (a, s) else Exit (st, s)).
(** [RAS], [REIS] and [RUS]. *)
Definition require (b : bool) : fn S unit := if b then fret tt else leave REF_FAILURE.

(** A whole function. *)
Definition body (m : fn S unit) : S -> option (REF_STATUS * S) := fun s =>
  let* c := m s in
  Some (match c with Next (_, s) => (REF_SUCCESS, s) | Exit r => r end).

(** A loop of the development as a piece of a function. *)
Definition through {X}
    (L : (X -> S -> option (ctl S (REF_STATUS * S))) -> S -> option (ctl S (REF_STATUS * S)))
    (b : X -> fn S unit) : fn S unit := fun s =>
  let* c :=
    L (fun x s =>
      let* c := b x s in
      Some (match c with Next (_, s) => Next s | Exit r => Exit r end)) s in
  Some (match c with Next s => Next (tt, s) | Exit r => Exit r end).
(** The same with a local variable that the body updates. *)
Definition through_acc {X A}
    (L : (X -> A * S -> option (ctl (A * S) (REF_STATUS * S))) -> A * S -> option (ctl (A * S) (REF_STATUS * S)))
    (b : X -> A -> fn S A) (a : A) : fn S A := fun s => L (fun x '(a, s) => b x a s) (a, s).
(** A [while]: the body goes on ([Next]) or ends the loop ([Exit]). *)
Definition again {A B} (fuel : nat) (b : A -> fn S (ctl A B)) (a : A) : fn S B := fun s =>
  let* c :=
    loop fuel (fun '(a, s) =>
      let* c := b a s in
      Some (match c with
            | Next (Next a, s) => Next (a, s)
            | Next (Exit r, s) => Exit (Next (r, s))
            | Exit e => Exit (Exit e)
            end)) (a, s) in
  Some (c : ctl (B * S) (REF_STATUS * S)).
Definition each {X} (l : list X) : (X -> fn S unit) -> fn S unit := through (forl l).
(** [for (i = lo; i < hi; i++)] *)
Definition count (lo hi : Z) : (Z -> fn S unit) -> fn S unit := through (forx_up lo hi).
End fn.

Notation "'let!' x := m 'in' k" := (fbind m (fun x => k))
  (at level 10, x name, m at level 100, k at level 200) : ref_scope.
Notation "'let!' ' p := m 'in' k" := (fbind m (fun p => k))
  (at level 10, p strict pattern, m at level 100, k at level 200) : ref_scope.
Notation "m ;! k" := (fbind m (fun _ => k)) (at level 100, right associativity) : ref_scope.

(** ** Weakest preconditions *)

Section wp.
Context {S : Type}.
Implicit Types (E : REF_STATUS -> S -> Prop) (s : S).

Definition fpost {A} (Q : A -> S -> Prop) E (c : ctl (A * S) (REF_STATUS * S)) : Prop :=
  match c with
  | Next (a, s) => Q a s
  | Exit (st, s) => E st s
  end.
Definition fwp {A} (m : fn S A) (Q : A -> S -> Prop) E s : Prop := wp (m s) (fpost Q E).

Lemma fwp_mono {A} (m : fn S A) (Q Q' : A -> S -> Prop) E E' s :
  fwp m Q E s -> (forall a s, Q a s -> Q' a s) -> (forall st s, E st s -> E' st s) -> fwp m Q' E' s.
Proof.
  intros Hm HQ HE. eapply wp_mono; [exact Hm|]. intros [[a s']|[st s']]; cbn; [apply HQ|apply HE].
Qed.

Lemma fwp_ret {A} (a : A) (Q : A -> S -> Prop) E s : Q a s -> fwp (fret a) Q E s.
Proof. intros HQ. by apply wp_ret. Qed.

Lemma fwp_bind {A B} (m : fn S A) (k : A -> fn S B) (Q : B -> S -> Prop) E s :
  fwp m (fun a => fwp (k a) Q E) E s -> fwp (fbind m k) Q E s.
Proof.
  intros Hm. unfold fwp, fbind. apply wp_bind. eapply wp_mono; [exact Hm|].
  intros [[a s']|[st s']]; cbn; [done|]. intros HE. by apply wp_ret.
Qed.

Lemma fwp_leave {A} st (Q : A -> S -> Prop) E s : E st s -> fwp (leave st) Q E s.
Proof. intros HE. by apply wp_ret. Qed.

Lemma fwp_use {A} (m : option A) (Q : A -> S -> Prop) E s :
  wp m (fun a => Q a s) -> fwp (use m) Q E s.
Proof. intros Hm. apply wp_bind. eapply wp_mono; [exact Hm|]. intros a HQ. by apply wp_ret. Qed.

Lemma fwp_state (Q : S -> S -> Prop) E s : Q s s -> fwp state Q E s.
Proof. intros HQ. by apply wp_ret. Qed.

Lemma fwp_assign f (Q : unit -> S -> Prop) E s : Q tt (f s) -> fwp (assign f) Q E s.
Proof. intros HQ. by apply wp_ret. Qed.

Lemma fwp_update f (Q : unit -> S -> Prop) E s : wp (f s) (Q tt) -> fwp (update f) Q E s.
Proof. intros Hm. apply wp_bind. eapply wp_mono; [exact Hm|]. intros a HQ. by apply wp_ret. Qed.

Lemma fwp_call f (Q : unit -> S -> Prop) E s :
  wp (f s) (fun '(st, s') => if decide (st = REF_SUCCESS) then Q tt s' else E st s') ->
  fwp (call f) Q E s.
Proof.
  intros Hm. apply wp_bind. eapply wp_mono; [exact Hm|]. intros [st s'] HQ. apply wp_ret.
  by destruct st.
Qed.

Lemma fwp_ask {A} (m : option (REF_STATUS * A)) (Q : A -> S -> Prop) E s :
  wp m (fun '(st, a) => if decide (st = REF_SUCCESS) then Q a s else E st s) -> fwp (ask m) Q E s.
Proof.
  intros Hm. apply wp_bind. eapply wp_mono; [exact Hm|]. intros [st a] HQ. apply wp_ret.
  by destruct st.
Qed.

Lemma fwp_ask_or {A} allowed (m : option (REF_STATUS * A)) (Q : A -> S -> Prop) E s :
  wp m (fun '(st, a) => if decide (st = REF_SUCCESS \/ st = allowed) then Q a s else E st s) ->
  fwp (ask_or allowed m) Q E s.
Proof.
  intros Hm. apply wp_bind. eapply wp_mono; [exact Hm|]. intros [st a] HQ. apply wp_ret.
  case_decide; case_bool_decide; done.
Qed.

Lemma fwp_require b (Q : unit -> S -> Prop) E s :
  (b = true -> Q tt s) -> (b = false -> E REF_FAILURE s) -> fwp (require b) Q E s.
Proof. intros HT HF. destruct b; apply wp_ret; [by apply HT|by apply HF]. Qed.

Lemma wp_body (m : fn S unit) s (Q : REF_STATUS * S -> Prop) :
  fwp m (fun _ s => Q (REF_SUCCESS, s)) (fun st s => Q (st, s)) s -> wp (body m s) Q.
Proof.
  intros Hm. apply wp_bind. eapply wp_mono; [exact Hm|]. intros [[[] s']|[st s']] HQ; by apply wp_ret.
Qed.

(** A loop of the program over the elements of a list. *)
Lemma fwp_through {X} (l : list X) L b (P : list X -> S -> Prop) (Q : unit -> S -> Prop) E s :
  (forall body s, L body s = forl l body s) ->
  P [] s ->
  (forall pre x post s, l = pre ++ x :: post -> P pre s -> fwp (b x) (fun _ => P (pre ++ [x])) E s) ->
  (forall s, P l s -> Q tt s) ->
  fwp (through L b) Q E s.
Proof.
  intros HL H0 Hstep Hend. apply wp_bind. rewrite HL.
  apply wp_forl with (P := P) (Q := fun '(st, s) => E st s); [done| | |].
  - intros pre x post s' Hl HP. apply wp_bind. eapply wp_mono; [by eapply Hstep|].
    intros [[[] s'']|[st s'']] H; by apply wp_ret.
  - intros s' HP. apply wp_ret. by apply Hend.
  - intros [st s'] HE. by apply wp_ret.
Qed.

(** The same with a local variable. *)
Lemma fwp_through_acc {X A} (l : list X) L (b : X -> A -> fn S A) (P : list X -> A -> S -> Prop)
    (Q : A -> S -> Prop) E a s :
  (forall body x, L body x = forl l body x) ->
  P [] a s ->
  (forall pre x post a s, l = pre ++ x :: post -> P pre a s -> fwp (b x a) (P (pre ++ [x])) E s) ->
  (forall a s, P l a s -> Q a s) ->
  fwp (through_acc L b a) Q E s.
Proof.
  intros HL H0 Hstep Hend. unfold fwp, through_acc. rewrite HL.
  apply wp_forl with (P := fun pre '(a, s) => P pre a s) (Q := fun '(st, s) => E st s); [done| | |].
  - intros pre x post [a' s'] Hl HP. eapply wp_mono; [by eapply Hstep|]. by intros [[a'' s'']|[st s'']].
  - intros [a' s'] HP. by apply Hend.
  - by intros [st s'] HE.
Qed.

Lemma fwp_each {X} (l : list X) b (P : list X -> S -> Prop) (Q : unit -> S -> Prop) E s :
  P [] s ->
  (forall pre x post s, l = pre ++ x :: post -> P pre s -> fwp (b x) (fun _ => P (pre ++ [x])) E s) ->
  (forall s, P l s -> Q tt s) ->
  fwp (each l b) Q E s.
Proof. intros. by eapply fwp_through. Qed.

(** A loop whose body keeps an invariant. *)
Lemma fwp_each_inv {X} (l : list X) b (P : S -> Prop) (Q : unit -> S -> Prop) E s :
  P s -> (forall x s, x ∈ l -> P s -> fwp (b x) (fun _ => P) E s) -> (forall s, P s -> Q tt s) ->
  fwp (each l b) Q E s.
Proof.
  intros H0 Hstep Hend. apply fwp_each with (P := fun _ => P); [done| |done].
  intros pre x post s' -> HP. apply Hstep; [set_solver|done].
Qed.
End wp.
Section wp_count.
Context {S : Type}.

Lemma fwp_count lo hi (b : Z -> fn S unit) (P : Z -> S -> Prop) (Q : unit -> S -> Prop) E s :
  lo <= hi -> P lo s ->
  (forall i s, lo <= i < hi -> P i s -> fwp (b i) (fun _ => P (i + 1)) E s) ->
  (forall s, P hi s -> Q tt s) ->
  fwp (count lo hi b) Q E s.
Proof.
  intros Hle H0 Hstep Hend. apply wp_bind.
  apply wp_forx_up with (P := P) (Q := fun '(st, s) => E st s); [done|done| | |].
  - intros i s' Hi HP. apply wp_bind. eapply wp_mono; [by eapply Hstep|].
    intros [[[] s'']|[st s'']] H; by apply wp_ret.
  - intros s' HP. apply wp_ret. by apply Hend.
  - intros [st s'] HE. by apply wp_ret.
Qed.
End wp_count.

(** A [while] with a measure that each round of the body decreases. *)
Lemma fwp_again {S A B} (I : A -> S -> Prop) (m : A -> S -> Z) fuel (b : A -> fn S (ctl A B)) (Q : B -> S -> Prop) E a s :
  I a s -> m a s < Z.of_nat fuel -> (forall a s, I a s -> 0 <= m a s) ->
  (forall a s, I a s -> fwp (b a) (fun c s' =>
     match c with
     | Next a' => I a' s' /\ m a' s' < m a s
     | Exit r => Q r s'
     end) E s) ->
  fwp (again fuel b a) Q E s.
Proof.
  intros HI Hm Hpos Hstep. unfold fwp, again. apply wp_bind.
  apply (wp_mono (fpost Q E)); [|intros c Hc; by apply wp_ret].
  apply (wp_loop (fun '(a, s) => I a s) (fun '(a, s) => m a s)); [done|done|intros [a1 s1]; apply Hpos|].
  intros [a1 s1] HI1. apply wp_bind. eapply wp_mono; [by apply Hstep|].
  intros [[[a2|r] s2]|[st s2]] Hc; by apply wp_ret.
Qed.

(** The loop reaches the state [s'] with the local variable [a']. *)
Definition turns {S A B} (b : A -> fn S (ctl A B)) : A * S -> A * S -> Prop :=
  rtc (fun '(a, s) '(a', s') => b a s = Some (Next (Next a', s'))).

Lemma again_stuck {S A B} fuel (b : A -> fn S (ctl A B)) a s a' s' :
  turns b (a, s) (a', s') -> b a' s' = None -> again fuel b a s = None.
Proof.
  intros Ht Hstuck. unfold again. rewrite (loop_stuck fuel _ (a, s) (a', s')); [done| |].
  - eapply rtc_subrel, Ht. intros [a1 s1] [a2 s2] Hb. cbn. by rewrite Hb.
  - cbn. by rewrite Hstuck.
Qed.

(** [fwp_again] for a loop that does not end: it reaches a state of [G]. *)
Lemma again_reaches {S A B} (I G : A -> S -> Prop) (m : A -> S -> Z) (b : A -> fn S (ctl A B)) a s :
  I a s -> (forall a s, I a s -> 0 <= m a s) ->
  (forall a s, I a s -> G a s \/
     fwp (b a) (fun c s' => exists a', c = Next a' /\ I a' s' /\ m a' s' < m a s) (fun _ _ => False) s) ->
  exists a' s', turns b (a, s) (a', s') /\ I a' s' /\ G a' s'.
Proof.
  intros HI Hpos Hstep.
  destruct (loop_reaches (R := B) (fun '(a, s) => I a s) (fun '(a, s) => G a s) (fun '(a, s) => m a s)
    (fun '(a, s) => let* c := b a s in
       match c with Next (Next a', s') => Some (Next (a', s')) | _ => None end) (a, s))
    as ([a' s'] & Hs & HI' & HG); [done|by intros [a1 s1]; apply Hpos| |].
  - intros [a1 s1] HI1. destruct (Hstep a1 s1 HI1) as [HG|([[c s2]|[st s2]] & Hb & Hc)]; [by left| |done].
    right. destruct Hc as (a2 & -> & HI2 & Hlt). exists (a2, s2). by rewrite Hb.
  - exists a', s'. split; [|done]. eapply rtc_subrel, Hs. intros [a1 s1] [a2 s2].
    destruct (b a1 s1) as [[[[a3|r] s3]|[st s3]]|]; cbn; congruence.
Qed.
