(* ===== verification/RefAdj.v ===== *)
(** * ref_adj.c: for each node, a list of references

    [REF_ADJ] threads one singly linked list per node, and the list of unused
    items, through one array of items. [adj_refs] reads the references of a
    node off the links; [adj_wf] says that the lists partition the items, so
    every traversal ends and no two nodes share an item. The theorems refine
    [ref_adj_add], [ref_adj_remove] and the others to operations on one plain
    list per node. Printing ([ref_adj_inspect], [ref_adj_node_inspect],
    [ref_adj_tec_fill]) has no model. *)
From S2P Require Import Prelude.
From stdpp Require Import prelude list gmap.
From Stdlib Require Import ZArith Lia.
Open Scope Z_scope.
Open Scope ref_scope.

Record REF_ADJ_ITEM := mkREF_ADJ_ITEM { item_next : Z; item_ref : Z }.

#[global] Instance REF_ADJ_ITEM_inhabited : Inhabited REF_ADJ_ITEM :=
  populate {| item_next := -1; item_ref := -1 |}.

Record REF_ADJ := mkREF_ADJ {
  adj_nnode : Z;
  adj_nitem : Z;
  adj_first : list Z;
  adj_item : list REF_ADJ_ITEM;
  adj_blank : Z
}.

(** [(REF_INT)(0.5 * (REF_DBL)n)]: both steps are exact for 32-bit [n]. *)
Definition half_int (n : Z) : Z := Z.quot n 2.

Section ops.
Context `{Junk Z, Junk REF_ADJ_ITEM}.

(** Assignments to one member of an item. *)
Definition set_ref (items : list REF_ADJ_ITEM) (i r : Z) : option (list REF_ADJ_ITEM) :=
  let* it := aget items i in
  aset items i {| item_next := item_next it; item_ref := r |}.
Definition set_next (items : list REF_ADJ_ITEM) (i n : Z) : option (list REF_ADJ_ITEM) :=
  let* it := aget items i in
  aset items i {| item_next := n; item_ref := item_ref it |}.

(** The loop that links the items from [orig] to [nitem - 1] into a list,
    and the assignment that ends it. *)
Definition link_items (orig nitem : Z) (items : list REF_ADJ_ITEM)
    : option (list REF_ADJ_ITEM) :=
  let* items :=
    for_up orig nitem (fun i items =>
      let* items := set_ref items i REF_EMPTY in
      set_next items i (i + 1)) items in
  set_next items (nitem - 1) REF_EMPTY.

Definition ref_adj_create : option (REF_STATUS * REF_ADJ) :=
  let nnode := 10 in
  let nitem := 20 in
  let* first := for_up 0 nnode (fun i first => aset first i REF_EMPTY) (alloc nnode) in
  let* item := link_items 0 nitem (alloc nitem) in
  Some (REF_SUCCESS,
        {| adj_nnode := nnode; adj_nitem := nitem; adj_first := first;
           adj_item := item; adj_blank := 0 |}).

Definition ref_adj_deep_copy (original : REF_ADJ) : option (REF_STATUS * REF_ADJ) :=
  let nnode := adj_nnode original in
  let nitem := adj_nitem original in
  let* first :=
    for_up 0 nnode (fun i first =>
      let* v := aget (adj_first original) i in
      aset first i v) (alloc nnode) in
  let* item :=
    for_up 0 nitem (fun i item =>
      let* it := aget (adj_item original) i in
      let* item := set_ref item i (item_ref it) in
      set_next item i (item_next it)) (alloc nitem) in
  Some (REF_SUCCESS,
        {| adj_nnode := nnode; adj_nitem := nitem; adj_first := first;
           adj_item := item; adj_blank := adj_blank original |}).
End ops.

(** The macros of ref_adj.h. *)
Definition ref_adj_first (a : REF_ADJ) (node : Z) : option Z :=
  if (0 <=? node) && (node <? adj_nnode a) then aget (adj_first a) node
  else Some REF_EMPTY.
Definition ref_adj_valid (item : Z) : bool := negb (REF_EMPTY =? item).
Definition ref_adj_item_next (a : REF_ADJ) (item : Z) : option Z :=
  let* it := aget (adj_item a) item in Some (item_next it).
Definition ref_adj_item_ref (a : REF_ADJ) (item : Z) : option Z :=
  let* it := aget (adj_item a) item in Some (item_ref it).
Definition ref_adj_safe_ref (a : REF_ADJ) (item : Z) : option Z :=
  if ref_adj_valid item then ref_adj_item_ref a item else Some REF_EMPTY.
Definition ref_adj_empty (a : REF_ADJ) (node : Z) : option bool :=
  let* item := ref_adj_first a node in Some (negb (ref_adj_valid item)).

(** The loop of [each_ref_adj_node_item_with_ref]; the body gets the item, its
    reference and the state. The links are followed at most once per item. *)
Definition each_ref_adj_node_item_with_ref {T R : Type} (a : REF_ADJ) (node : Z)
    (body : Z -> Z -> T -> option (ctl T R)) (s : T) : option (ctl T R) :=
  let* item := ref_adj_first a node in
  let* ref := ref_adj_safe_ref a item in
  loop (Z.to_nat (adj_nitem a + 1)) (fun '(item, ref, s) =>
    if ref_adj_valid item then
      let* c := body item ref s in
      match c with
      | Exit r => Some (Exit (Exit r))
      | Next s =>
          let* item := ref_adj_item_next a item in
          let* ref := ref_adj_safe_ref a item in
          Some (Next (item, ref, s))
      end
    else Some (Exit (Next s))) (item, ref, s).

Section ops2.
Context `{Junk Z, Junk REF_ADJ_ITEM}.

(** The two blocks of [ref_adj_add] that make room. *)
Definition grow_first (a : REF_ADJ) (node : Z) : option REF_ADJ :=
  let max_limit := REF_INT_MAX in
  if adj_nnode a <=? node then
    let orig := adj_nnode a in
    let* chunk := ck_int (100 + Z.max 0 (node - orig)) in
    let chunk := Z.max chunk (half_int orig) in
    let chunk := Z.min chunk (max_limit - orig) in
    let* nnode := ck_int (orig + chunk) in
    let first := ref_realloc (adj_first a) nnode in
    let* first := for_up orig nnode (fun i first => aset first i REF_EMPTY) first in
    Some {| adj_nnode := nnode; adj_nitem := adj_nitem a; adj_first := first;
            adj_item := adj_item a; adj_blank := adj_blank a |}
  else Some a.

Definition grow_item (a : REF_ADJ) : option (REF_STATUS * REF_ADJ) :=
  let max_limit := REF_INT_MAX in
  if REF_EMPTY =? adj_blank a then
    RAS (negb (adj_nitem a =? max_limit)) a (
    let orig := adj_nitem a in
    let chunk := Z.max 100 (half_int orig) in
    let chunk := Z.min chunk (max_limit - orig) in
    let* nitem := ck_int (orig + chunk) in
    let item := ref_realloc (adj_item a) nitem in
    let* item := link_items orig nitem item in
    Some (REF_SUCCESS,
          {| adj_nnode := adj_nnode a; adj_nitem := nitem; adj_first := adj_first a;
             adj_item := item; adj_blank := orig |}))
  else Some (REF_SUCCESS, a).

Definition ref_adj_add (a : REF_ADJ) (node reference : Z) : option (REF_STATUS * REF_ADJ) :=
  if node <? 0 then Some (REF_INVALID, a)
  else
    let* a := grow_first a node in
    let* '(st, a) := grow_item a in
    RSS st a (
    let item := adj_blank a in
    let* blank := ref_adj_item_next a item in
    let* items := set_ref (adj_item a) item reference in
    let* f := ref_adj_first a node in
    let* items := set_next items item f in
    let* first := aset (adj_first a) node item in
    Some (REF_SUCCESS,
          {| adj_nnode := adj_nnode a; adj_nitem := adj_nitem a; adj_first := first;
             adj_item := items; adj_blank := blank |})).

(** Put [item] at the head of the unused list; [items] are the items after the
    list of its node was relinked. *)
Definition release_item (a : REF_ADJ) (first : list Z) (items : list REF_ADJ_ITEM) (item : Z)
    : option (REF_STATUS * REF_ADJ) :=
  let* items := set_next items item (adj_blank a) in
  let blank := item in
  let* items := set_ref items item REF_EMPTY in
  Some (REF_SUCCESS,
        {| adj_nnode := adj_nnode a; adj_nitem := adj_nitem a; adj_first := first;
           adj_item := items; adj_blank := blank |}).

Definition ref_adj_remove (a : REF_ADJ) (node reference : Z) : option (REF_STATUS * REF_ADJ) :=
  let* item := ref_adj_first a node in
  if negb (ref_adj_valid item) then Some (REF_INVALID, a)
  else
    let* r := ref_adj_item_ref a item in
    if reference =? r then
      let* next := ref_adj_item_next a item in
      let* first := aset (adj_first a) node next in
      release_item a first (adj_item a) item
    else
      let* c :=
        each_ref_adj_node_item_with_ref a node (fun item ref parent =>
          if ref =? reference then Some (Exit (item, parent))
          else Some (Next item)) REF_EMPTY in
      match c with
      | Next _ => Some (REF_INVALID, a)
      | Exit (item, parent) =>
          if REF_EMPTY =? parent then Some (REF_FAILURE, a)
          else
            let* next := ref_adj_item_next a item in
            let* items := set_next (adj_item a) parent next in
            release_item a (adj_first a) items item
      end.

Definition ref_adj_add_uniquely (a : REF_ADJ) (node reference : Z)
    : option (REF_STATUS * REF_ADJ) :=
  let* c :=
    each_ref_adj_node_item_with_ref a node (fun item ref (_ : unit) =>
      if ref =? reference then Some (Exit tt) else Some (Next tt)) tt in
  match c with
  | Exit _ => Some (REF_SUCCESS, a)
  | Next _ => ref_adj_add a node reference
  end.

(** The integer is [*degree]. *)
Definition ref_adj_degree (a : REF_ADJ) (node : Z) : option (REF_STATUS * Z) :=
  let* item := ref_adj_first a node in
  let* degree :=
    loop (Z.to_nat (adj_nitem a + 1)) (fun '(item, degree) =>
      if ref_adj_valid item then
        let degree := degree + 1 in
        let* item := ref_adj_item_next a item in
        Some (Next (item, degree))
      else Some (Exit degree)) (item, 0) in
  Some (REF_SUCCESS, degree).

(** The integers are [*min_degree] and [*min_degree_node]. *)
Definition ref_adj_min_degree_node (a : REF_ADJ) : option (REF_STATUS * (Z * Z)) :=
  let* c :=
    forx_up 0 (adj_nnode a) (fun node '(min_degree, min_degree_node) =>
      let* '(st, degree) := ref_adj_degree a node in
      match st with
      | REF_SUCCESS =>
          if 0 <? degree then
            if (REF_EMPTY =? min_degree_node) || (degree <? min_degree) then
              Some (Next (degree, node))
            else Some (Next (min_degree, min_degree_node))
          else Some (Next (min_degree, min_degree_node))
      | _ => Some (Exit (st, (min_degree, min_degree_node)))
      end) (REF_EMPTY, REF_EMPTY) in
  match c with
  | Next s => Some (REF_SUCCESS, s)
  | Exit r => Some r
  end.
End ops2.

(** ** The lists the links describe *)

(** The item after [i] ([chain] is followed along this function). *)
Definition inext (items : list REF_ADJ_ITEM) (i : Z) : Z := item_next items.[i].

(** The items of a node, read off the links, and their references. *)
Fixpoint adj_walk (fuel : nat) (items : list REF_ADJ_ITEM) (start : Z) : list Z :=
  match fuel with
  | O => []
  | S fuel =>
      if ref_adj_valid start then start :: adj_walk fuel items (item_next items.[start])
      else []
  end.

(** The head of the list of [n]; the unused items are the list of [-1]. *)
Definition adj_head (a : REF_ADJ) (n : Z) : Z :=
  if n =? -1 then adj_blank a else (adj_first a).[n].

Definition adj_items (a : REF_ADJ) (node : Z) : list Z :=
  if (0 <=? node) && (node <? adj_nnode a) then
    adj_walk (Z.to_nat (adj_nitem a + 1)) (adj_item a) (adj_first a).[node]
  else [].
Definition adj_refs (a : REF_ADJ) (node : Z) : list Z :=
  map (fun i => item_ref (adj_item a).[i]) (adj_items a node).

(** [adj_rep a cs own]: [cs n] is the list of node [n] ([n = -1]: the unused
    items) and [own i] the one list that item [i] is in. *)
Record adj_rep (a : REF_ADJ) (cs : Z -> list Z) (own : Z -> Z) : Prop := {
  rep_first : zlen (adj_first a) = adj_nnode a;
  rep_item : zlen (adj_item a) = adj_nitem a;
  rep_nnode : 1 <= adj_nnode a <= REF_INT_MAX;
  rep_nitem : 1 <= adj_nitem a <= REF_INT_MAX;
  rep_chain : forall n, -1 <= n < adj_nnode a -> chain (inext (adj_item a)) (adj_head a n) (cs n);
  rep_nodup : forall n, NoDup (cs n);
  rep_own : forall n i, i ∈ cs n <-> 0 <= i < adj_nitem a /\ own i = n;
  rep_owned : forall i, 0 <= i < adj_nitem a -> -1 <= own i < adj_nnode a
}.

Definition adj_wf (a : REF_ADJ) : Prop := exists cs own, adj_rep a cs own.

Section chains.
Implicit Types (items : list REF_ADJ_ITEM) (l : list Z).

Lemma adj_walk_chain items s l fuel :
  chain (inext items) s l -> (forall i, i ∈ l -> 0 <= i) -> (length l < fuel)%nat ->
  adj_walk fuel items s = l.
Proof.
  revert s fuel. induction l as [|i l IH]; intros s fuel; cbn.
  - intros -> _ Hf. destruct fuel; [lia|done].
  - intros [-> Hl] Hpos Hf. destruct fuel as [|fuel]; [lia|]. cbn.
    unfold ref_adj_valid. assert (0 <= i) by (apply Hpos; set_solver).
    destruct (Z.eqb_spec REF_EMPTY i); [unfold REF_EMPTY in *; lia|]. cbn.
    change (item_next items.[i]) with (inext items i). rewrite (IH _ fuel Hl); [done| |lia]. intros. apply Hpos. set_solver.
Qed.
End chains.

Section rep.
Context (a : REF_ADJ) (cs : Z -> list Z) (own : Z -> Z) (Hrep : adj_rep a cs own).

Lemma rep_in_range n i : i ∈ cs n -> 0 <= i < adj_nitem a.
Proof using Hrep. intros Hi. by apply (rep_own _ _ _ Hrep) in Hi as [? _]. Qed.

Lemma rep_out n : n < -1 \/ adj_nnode a <= n -> cs n = [].
Proof using Hrep.
  intros Hn. destruct (cs n) as [|i l] eqn:Hl; [done|].
  assert (i ∈ cs n) as [Hi Ho]%(rep_own _ _ _ Hrep) by (rewrite Hl; set_solver).
  pose proof (rep_owned _ _ _ Hrep i Hi). lia.
Qed.

Lemma rep_length n : zlen (cs n) <= adj_nitem a.
Proof using Hrep.
  pose proof (rep_nitem _ _ _ Hrep).
  destruct (NoDup_range_length (cs n) (adj_nitem a)) as [?| ->].
  - apply (rep_nodup _ _ _ Hrep).
  - apply rep_in_range.
  - done.
  - unfold zlen. cbn. lia.
Qed.

Lemma rep_head n l i : -1 <= n < adj_nnode a -> cs n = i :: l ->
  adj_head a n = i /\ 0 <= i < adj_nitem a /\ own i = n /\
  chain (inext (adj_item a)) (item_next (adj_item a).[i]) l /\ i ∉ l /\ NoDup l.
Proof using Hrep.
  intros Hn Hl. pose proof (rep_chain _ _ _ Hrep n Hn) as Hc.
  pose proof (rep_nodup _ _ _ Hrep n) as Hd. rewrite Hl in Hc, Hd.
  apply NoDup_cons in Hd as [? ?]. destruct Hc as [? ?].
  assert (i ∈ cs n) as [? ?]%(rep_own _ _ _ Hrep n i) by (rewrite Hl; set_solver).
  done.
Qed.

Lemma rep_head_nil n : -1 <= n < adj_nnode a -> cs n = [] <-> adj_head a n = REF_EMPTY.
Proof using Hrep.
  intros Hn. pose proof (rep_chain _ _ _ Hrep n Hn) as Hc. split.
  - intros Hl. by rewrite Hl in Hc.
  - intros Hh. destruct (cs n) as [|i l] eqn:Hl; [done|].
    apply rep_head in Hl; [|done]. unfold REF_EMPTY in *. lia.
Qed.

Lemma adj_items_rep n : 0 <= n -> adj_items a n = cs n.
Proof using Hrep.
  intros Hn. unfold adj_items.
  destruct (Z.leb_spec 0 n), (Z.ltb_spec n (adj_nnode a)); try lia; cbn.
  - apply adj_walk_chain.
    + pose proof (rep_chain _ _ _ Hrep n ltac:(lia)) as Hc. unfold adj_head in Hc.
      destruct (Z.eqb_spec n (-1)); [lia|done].
    + intros i Hi. apply rep_in_range in Hi; lia.
    + pose proof (rep_length n). unfold zlen in *. lia.
  - symmetry. apply rep_out. lia.
Qed.

(** Every traversal of the links is a loop over the list of items. *)
Lemma each_ref_adj_items {T R} node (body : Z -> Z -> T -> option (ctl T R)) s :
  each_ref_adj_node_item_with_ref a node body s =
  forl (adj_items a node) (fun i => body i (item_ref (adj_item a).[i])) s.
Proof using Hrep.
  unfold each_ref_adj_node_item_with_ref, ref_adj_first.
  destruct (Z.leb_spec 0 node), (Z.ltb_spec node (adj_nnode a)); cbn [andb obind];
    try (unfold adj_items; destruct (Z.leb_spec 0 node), (Z.ltb_spec node (adj_nnode a));
         try lia; cbn;
         pose proof (rep_nitem _ _ _ Hrep);
         destruct (Z.to_nat (adj_nitem a + 1)) eqn:Hf; [lia|done]).
  rewrite aget_aat by (rewrite (rep_first _ _ _ Hrep); lia). cbn [obind].
  rewrite adj_items_rep by lia.
  pose proof (rep_chain _ _ _ Hrep node ltac:(lia)) as Hc. unfold adj_head in Hc.
  destruct (Z.eqb_spec node (-1)); [lia|].
  pose proof (rep_length node) as Hlen.
  assert (Hin : forall i, i ∈ cs node -> 0 <= i < zlen (adj_item a)).
  { intros i Hi. rewrite (rep_item _ _ _ Hrep). by eapply rep_in_range. }
  revert Hc Hlen Hin. generalize (cs node) as l. intros l.
  assert (Hf : zlen l <= adj_nitem a ->
    zlen l < Z.of_nat (Z.to_nat (adj_nitem a + 1))) by lia.
  revert Hf. generalize (Z.to_nat (adj_nitem a + 1)) as fuel.
  generalize ((adj_first a).[node]) as start. revert s.
  induction l as [|i l IH]; intros s start fuel Hf Hc Hlen Hin;
    (destruct fuel as [|fuel]; [exfalso; unfold zlen in *; cbn in *; lia|]).
  - cbn in Hc. subst start. done.
  - destruct Hc as [-> Hc]. specialize (Hin i ltac:(set_solver)) as Hi.
    assert (Hv : ref_adj_valid i = true).
    { unfold ref_adj_valid. destruct (Z.eqb_spec REF_EMPTY i); [unfold REF_EMPTY in *; lia|done]. }
    unfold ref_adj_safe_ref at 1. rewrite Hv. unfold ref_adj_item_ref at 1.
    rewrite aget_aat by done. cbn [obind]. rewrite loop_S. cbn [obind forl].
    rewrite Hv. destruct (body i (item_ref (adj_item a).[i]) s) as [[s'|r]|];
      cbn [obind]; try done.
    unfold ref_adj_item_next at 1. rewrite aget_aat by done. cbn [obind].
    rewrite zlen_cons in *.
    rewrite <- (IH s' (item_next (adj_item a).[i]) fuel); [|lia|done|lia|set_solver].
    destruct (ref_adj_safe_ref a (item_next (adj_item a).[i])); done.
Qed.
End rep.

(** ** What the assignments do to the lists *)

Lemma wp_set_ref items i r (Q : list REF_ADJ_ITEM -> Prop) :
  0 <= i < zlen items ->
  Q (upd items i {| item_next := item_next items.[i]; item_ref := r |}) ->
  wp (set_ref items i r) Q.
Proof. intros. unfold set_ref. by wp_go. Qed.

Lemma wp_set_next items i n (Q : list REF_ADJ_ITEM -> Prop) :
  0 <= i < zlen items ->
  Q (upd items i {| item_next := n; item_ref := item_ref items.[i] |}) ->
  wp (set_next items i n) Q.
Proof. intros. unfold set_next. by wp_go. Qed.

Lemma wp_link_items orig nitem items (Q : list REF_ADJ_ITEM -> Prop) :
  0 <= orig < nitem -> nitem = zlen items ->
  (forall items', zlen items' = nitem ->
     (forall j, 0 <= j < orig -> items'.[j] = items.[j]) ->
     (forall j, orig <= j < nitem -> items'.[j] =
        {| item_next := if j =? nitem - 1 then REF_EMPTY else j + 1; item_ref := REF_EMPTY |}) ->
     Q items') ->
  wp (link_items orig nitem items) Q.
Proof.
  intros Ho Hn HQ. unfold link_items. apply wp_bind.
  apply (wp_fill (fun i => {| item_next := i + 1; item_ref := REF_EMPTY |})); [lia|lia| |].
  - intros i d Hi Hd _. apply wp_bind, wp_set_ref; [lia|].
    apply wp_set_next; [alia|]. rewrite aat_upd_eq by lia. apply upd_upd_eq.
  - intros d Hd Hg. apply wp_set_next; [lia|]. apply HQ.
    + rewrite zlen_upd. lia.
    + intros j Hj. rewrite aat_upd_ne by lia. rewrite Hg by lia.
      by destruct (Z.leb_spec orig j); [lia|].
    + intros j Hj. rewrite aat_upd by lia. rewrite !Hg by lia.
      destruct (Z.eqb_spec (nitem - 1) j), (Z.eqb_spec j (nitem - 1)); try lia;
        subst; repeat case Z.leb_spec; repeat case Z.ltb_spec; intros; try lia; done.
Qed.

(** Growing [first] adds nodes with empty lists. *)
Lemma rep_grow_first a cs own first nnode :
  adj_rep a cs own ->
  adj_nnode a <= nnode <= REF_INT_MAX -> zlen first = nnode ->
  (forall j, 0 <= j < nnode ->
     first.[j] = if j <? adj_nnode a then (adj_first a).[j] else REF_EMPTY) ->
  adj_rep {| adj_nnode := nnode; adj_nitem := adj_nitem a; adj_first := first;
             adj_item := adj_item a; adj_blank := adj_blank a |} cs own.
Proof.
  intros Hrep Hn Hl Hf. pose proof (rep_nnode _ _ _ Hrep).
  pose proof (rep_out _ _ _ Hrep) as Hout. pose proof (rep_owned _ _ _ Hrep) as Hod.
  destruct Hrep; constructor; cbn; try done; try lia.
  - intros n Hb. unfold adj_head. cbn.
    destruct (Z.eqb_spec n (-1)) as [->|]; [apply (rep_chain0 (-1)); lia|].
    rewrite Hf by lia. case Z.ltb_spec; intros.
    + specialize (rep_chain0 n ltac:(lia)). unfold adj_head in rep_chain0.
      by destruct (Z.eqb_spec n (-1)).
    + by rewrite Hout by (right; lia).
  - intros i Hi. specialize (Hod i Hi). lia.
Qed.

(** Growing [item] when no item is unused makes the new ones unused. *)
Lemma rep_grow_items a cs own items nitem :
  adj_rep a cs own -> adj_blank a = REF_EMPTY ->
  adj_nitem a < nitem <= REF_INT_MAX -> zlen items = nitem ->
  (forall j, 0 <= j < adj_nitem a -> items.[j] = (adj_item a).[j]) ->
  (forall j, adj_nitem a <= j < nitem ->
     item_next items.[j] = if j =? nitem - 1 then REF_EMPTY else j + 1) ->
  adj_rep {| adj_nnode := adj_nnode a; adj_nitem := nitem; adj_first := adj_first a;
             adj_item := items; adj_blank := adj_nitem a |}
    (fun n => if n =? -1 then seqZ (adj_nitem a) (nitem - adj_nitem a) else cs n)
    (fun i => if i <? adj_nitem a then own i else -1).
Proof.
  intros Hrep Hb Hn Hl Hold Hnew.
  assert (cs (-1) = []) as Hnil.
  { apply (rep_head_nil _ _ _ Hrep); [pose proof (rep_nnode _ _ _ Hrep); lia|done]. }
  pose proof (rep_in_range _ _ _ Hrep) as Hrg. pose proof (rep_nitem _ _ _ Hrep).
  pose proof (rep_nnode _ _ _ Hrep).
  destruct Hrep; constructor; cbn; try done; try lia.
  - intros n Hn'. unfold adj_head. cbn. case Z.eqb_spec; intros Hn1.
    + by apply chain_linked; [lia|].
    + eapply chain_ext; [|specialize (rep_chain0 n Hn'); unfold adj_head in rep_chain0;
        destruct (Z.eqb_spec n (-1)); [lia|done]].
      intros i Hi%Hrg. unfold inext. by rewrite Hold.
  - intros n. case Z.eqb_spec; [intros; apply NoDup_seqZ|done].
  - intros n i. case Z.eqb_spec; intros Hn1; case Z.ltb_spec; intros Hi;
      rewrite ?elem_of_seqZ; subst.
    + split; [lia|]. intros [? Ho].
      assert (i ∈ cs (-1)) as He by (apply rep_own0; lia). rewrite Hnil in He. set_solver.
    + lia.
    + rewrite rep_own0. split; intros [? ?]; split; (done || lia).
    + split; [intros Hc%Hrg; lia|]. intros [? ?]. lia.
  - intros i Hi. case Z.ltb_spec; intros; [apply rep_owned0; lia|lia].
Qed.

(** Moving item [i] from the list of [n] to the head of the list of [m]: the
    rest of [n] is [l] and other lists keep their links. *)
Lemma rep_move a cs own first items blank i n m l :
  adj_rep a cs own ->
  -1 <= n < adj_nnode a -> -1 <= m < adj_nnode a -> n <> m ->
  0 <= i < adj_nitem a -> own i = n ->
  let a' := {| adj_nnode := adj_nnode a; adj_nitem := adj_nitem a; adj_first := first;
               adj_item := items; adj_blank := blank |} in
  zlen first = adj_nnode a -> zlen items = adj_nitem a ->
  chain (inext items) (adj_head a' n) l -> NoDup l ->
  (forall j, j ∈ l <-> j ∈ cs n /\ j <> i) ->
  adj_head a' m = i -> item_next items.[i] = adj_head a m ->
  (forall k, -1 <= k < adj_nnode a -> k <> n -> k <> m -> adj_head a' k = adj_head a k) ->
  (forall j, 0 <= j < adj_nitem a -> own j <> n -> item_next items.[j] = item_next (adj_item a).[j]) ->
  adj_rep a' (fun k => if k =? n then l else if k =? m then i :: cs m else cs k)
    (fun j => if j =? i then m else own j).
Proof.
  intros Hrep Hn Hm Hnm Hi Hown a' Hzf Hzi Hc Hd Hl Hhm Hnext Hk Hj.
  pose proof (rep_own _ _ _ Hrep) as Ho.
  assert (Hkeep : forall k, -1 <= k < adj_nnode a -> k <> n -> chain (inext items) (adj_head a k) (cs k)).
  { intros k Hkr Hkn. eapply chain_ext; [|by apply (rep_chain _ _ _ Hrep)].
    intros j [? ?]%Ho. apply Hj; lia. }
  constructor; cbn; try done.
  - apply (rep_nnode _ _ _ Hrep).
  - apply (rep_nitem _ _ _ Hrep).
  - intros k Hkr. destruct (Z.eqb_spec k n) as [->|Hkn]; [done|].
    destruct (Z.eqb_spec k m) as [->|Hkm].
    + cbn. split; [done|]. unfold inext. rewrite Hnext. by apply Hkeep.
    + rewrite Hk by done. by apply Hkeep.
  - intros k. destruct (Z.eqb_spec k n) as [->|Hkn]; [done|].
    destruct (Z.eqb_spec k m) as [->|Hkm]; [|apply (rep_nodup _ _ _ Hrep)].
    apply NoDup_cons. split; [rewrite Ho; lia|apply (rep_nodup _ _ _ Hrep)].
  - intros k j. destruct (Z.eqb_spec k n) as [->|Hkn].
    + rewrite Hl, Ho. case Z.eqb_spec; [intros ->; lia|intros; lia].
    + destruct (Z.eqb_spec k m) as [->|Hkm].
      * rewrite elem_of_cons, Ho. case Z.eqb_spec; [intros ->; lia|intros; lia].
      * rewrite Ho. case Z.eqb_spec; [intros ->; lia|intros; lia].
  - intros j Hjr. case Z.eqb_spec; intros; [done|by apply (rep_owned _ _ _ Hrep)].
Qed.

(** ** The operations *)

Lemma half_int_bounds n : 0 <= n -> 0 <= half_int n <= n.
Proof.
  intros. unfold half_int. split; [apply Z.quot_pos; lia|].
  rewrite Z.quot_div_nonneg by lia. apply Z.div_le_upper_bound; lia.
Qed.

(** The references do not depend on the choice of the representation. *)
Lemma adj_refs_rep a cs own n :
  adj_rep a cs own ->
  adj_refs a n = if n <? 0 then [] else map (fun i => item_ref (adj_item a).[i]) (cs n).
Proof.
  intros Hrep. unfold adj_refs. case Z.ltb_spec; intros.
  - unfold adj_items. by destruct (Z.leb_spec 0 n); [lia|].
  - by rewrite (adj_items_rep _ _ _ Hrep).
Qed.

Lemma adj_items_map_ref a cs own items n :
  adj_rep a cs own ->
  (forall i, 0 <= i < adj_nitem a -> own i = n -> item_ref items.[i] = item_ref (adj_item a).[i]) ->
  map (fun i => item_ref items.[i]) (cs n) = map (fun i => item_ref (adj_item a).[i]) (cs n).
Proof.
  intros Hrep Hit. apply map_ext_in. intros i Hi%list_elem_of_In.
  apply (rep_own _ _ _ Hrep) in Hi as [? ?]. by apply Hit.
Qed.

Lemma rep_pos a cs own : adj_rep a cs own -> adj_wf a.
Proof. intros. by exists cs, own. Qed.

Section ops_ok.
Context `{Junk Z, Junk REF_ADJ_ITEM}.

Lemma ref_adj_create_ok :
  wp ref_adj_create (fun '(st, a) =>
    st = REF_SUCCESS /\ adj_wf a /\ forall n, adj_refs a n = []).
Proof.
  unfold ref_adj_create. apply wp_bind.
  apply (wp_fill (fun _ => REF_EMPTY)); [lia|alia| |].
  { intros i d Hi Hd _. apply wp_aset; [alia|done]. }
  intros first Hfl Hf. apply wp_bind, wp_link_items; [lia|by asimpl|].
  intros items Hil _ Hi. asimpl_all. apply wp_ret.
  assert (Hrep : adj_rep {| adj_nnode := 10; adj_nitem := 20; adj_first := first;
           adj_item := items; adj_blank := 0 |}
    (fun n => if n =? -1 then seqZ 0 20 else []) (fun _ => -1)).
  { constructor; cbn; unfold REF_INT_MAX; try lia; try done.
    - intros n Hn. unfold adj_head. cbn. case Z.eqb_spec; intros.
      + apply (chain_linked (inext items) 0 20); [lia|]. intros j Hj. unfold inext. by rewrite Hi.
      + cbn. rewrite Hf by lia. by destruct (Z.leb_spec 0 n), (Z.ltb_spec n 10); try lia.
    - intros n. case Z.eqb_spec; intros; [apply NoDup_seqZ|constructor].
    - intros n i. case Z.eqb_spec; intros; rewrite ?elem_of_seqZ; [lia|].
      split; [set_solver|lia]. }
  split_and!; [done|by eapply rep_pos|]. intros n. rewrite (adj_refs_rep _ _ _ _ Hrep).
  case Z.ltb_spec; intros; [done|]. by destruct (Z.eqb_spec n (-1)); [lia|].
Qed.

Lemma ref_adj_deep_copy_ok a :
  adj_wf a -> ref_adj_deep_copy a = Some (REF_SUCCESS, a).
Proof.
  intros (cs & own & Hrep). pose proof (rep_first _ _ _ Hrep) as Hf.
  pose proof (rep_item _ _ _ Hrep) as Hi. pose proof (rep_nnode _ _ _ Hrep).
  pose proof (rep_nitem _ _ _ Hrep). apply wp_eq.
  unfold ref_adj_deep_copy. apply wp_bind.
  apply (wp_fill (aat (adj_first a))); [lia|alia| |].
  { intros i d Hin Hd _. apply wp_bind, wp_aget; [lia|]. apply wp_aset; [alia|done]. }
  intros first Hfl Hfg. apply wp_bind.
  apply (wp_fill (aat (adj_item a))); [lia|alia| |].
  { intros i d Hin Hd _. apply wp_bind, wp_aget; [lia|].
    apply wp_bind, wp_set_ref; [alia|]. apply wp_set_next; [alia|].
    asimpl_all. rewrite aat_upd_eq by lia. rewrite upd_upd_eq. f_equal.
    by destruct (adj_item a).[i]. }
  intros items Hil Hig. asimpl_all. apply wp_ret. f_equal. destruct a; cbn in *.
  f_equal; apply arr_ext; try lia.
  - intros i Hir. rewrite Hfg by lia.
    by destruct (Z.leb_spec 0 i), (Z.ltb_spec i adj_nnode0); try lia.
  - intros i Hir. rewrite Hig by lia.
    by destruct (Z.leb_spec 0 i), (Z.ltb_spec i adj_nitem0); try lia.
Qed.

Lemma grow_first_ok a cs own node :
  adj_rep a cs own -> 0 <= node -> node + 100 <= REF_INT_MAX ->
  wp (grow_first a node) (fun a' =>
    adj_rep a' cs own /\ node < adj_nnode a' /\ adj_item a' = adj_item a /\
    adj_nitem a' = adj_nitem a /\ adj_blank a' = adj_blank a).
Proof.
  intros Hrep Hn Hmax. unfold grow_first. pose proof (rep_nnode _ _ _ Hrep).
  pose proof (half_int_bounds (adj_nnode a) ltac:(lia)).
  pose proof (rep_first _ _ _ Hrep) as Hf.
  case Z.leb_spec; intros; [|by apply wp_ret].
  apply wp_bind, wp_ck_int; [unfold REF_INT_MAX, REF_INT_MIN in *; lia|].
  apply wp_bind, wp_ck_int; [unfold REF_INT_MAX, REF_INT_MIN in *; lia|].
  set (nnode := adj_nnode a + _).
  assert (node < nnode <= REF_INT_MAX) by lia.
  apply wp_bind, (wp_fill (fun _ => REF_EMPTY)); [lia|rewrite zlen_realloc; lia| |].
  { intros i d Hi Hd _. apply wp_aset; [|done]. rewrite Hd, zlen_realloc; lia. }
  intros first Hfl Hfg. rewrite zlen_realloc in Hfl, Hfg by lia.
  apply wp_ret. split_and!; try done; cbn; [|lia].
  apply (rep_grow_first _ _ _ _ _ Hrep); [lia|done|].
  intros j Hj. rewrite Hfg by lia.
  destruct (Z.leb_spec (adj_nnode a) j), (Z.ltb_spec j nnode), (Z.ltb_spec j (adj_nnode a));
    try lia; try done. cbn. by rewrite aat_realloc by lia.
Qed.

Lemma grow_item_ok a cs own :
  adj_rep a cs own ->
  wp (grow_item a) (fun '(st, a') =>
    (st = REF_SUCCESS /\ adj_blank a' <> REF_EMPTY /\ adj_nnode a' = adj_nnode a /\
     exists cs' own', adj_rep a' cs' own' /\ (forall n, n <> -1 -> cs' n = cs n) /\
       forall i, 0 <= i < adj_nitem a -> (adj_item a').[i] = (adj_item a).[i]) \/
    (st = REF_FAILURE /\ a' = a /\ cs (-1) = [] /\ adj_nitem a = REF_INT_MAX)).
Proof.
  intros Hrep. unfold grow_item. pose proof (rep_nitem _ _ _ Hrep).
  pose proof (rep_nnode _ _ _ Hrep). pose proof (rep_item _ _ _ Hrep).
  pose proof (half_int_bounds (adj_nitem a) ltac:(lia)).
  case Z.eqb_spec; intros Hb; [|apply wp_ret; left; split_and!; eauto; by exists cs, own].
  case Z.eqb_spec; intros Hm; cbn [negb RAS].
  { apply wp_ret. right. split_and!; try done.
    apply (rep_head_nil _ _ _ Hrep); [lia|done]. }
  apply wp_bind, wp_ck_int; [unfold REF_INT_MAX, REF_INT_MIN in *; lia|].
  set (nitem := adj_nitem a + _).
  assert (adj_nitem a < nitem <= REF_INT_MAX) by lia.
  apply wp_bind, wp_link_items; [lia|by rewrite zlen_realloc by lia|].
  intros items Hil Hio Hin. apply wp_ret. left. cbn.
  assert (Hold : forall j, 0 <= j < adj_nitem a -> items.[j] = (adj_item a).[j]).
  { intros j Hj. rewrite Hio by lia. apply aat_realloc; lia. }
  split_and!; [done|unfold REF_EMPTY; lia|done|]. do 2 eexists.
  split; [apply (rep_grow_items _ _ _ _ _ Hrep); [done|lia|done|done|]|].
  - intros j Hj. by rewrite Hin.
  - split; [|done]. intros n Hn. cbn. by destruct (Z.eqb_spec n (-1)).
Qed.
End ops_ok.

(** The abstract operations: one list of references per node, the most recent
    first. *)
Definition refs_add (m : Z -> list Z) (node r : Z) : Z -> list Z :=
  fun n => if n =? node then r :: m node else m n.

Fixpoint remove_ref (r : Z) (l : list Z) : option (list Z) :=
  match l with
  | [] => None
  | x :: l => if x =? r then Some l else option_map (cons x) (remove_ref r l)
  end.

Lemma remove_ref_found {X} (f : X -> Z) r pre i post :
  f i = r -> (forall x, x ∈ pre -> f x <> r) ->
  remove_ref r (map f (pre ++ i :: post)) = Some (map f (pre ++ post)).
Proof.
  intros Hi Hpre. induction pre as [|x pre IH]; cbn.
  - by rewrite Hi, Z.eqb_refl.
  - destruct (Z.eqb_spec (f x) r); [exfalso; apply (Hpre x); set_solver|].
    rewrite IH; [done|set_solver].
Qed.

Lemma remove_ref_absent {X} (f : X -> Z) r l :
  (forall x, x ∈ l -> f x <> r) -> remove_ref r (map f l) = None.
Proof.
  intros Hl. induction l as [|x l IH]; cbn; [done|].
  destruct (Z.eqb_spec (f x) r); [exfalso; apply (Hl x); set_solver|].
  rewrite IH; [done|set_solver].
Qed.

(** How many references the nodes below [n] have. *)
Fixpoint refs_total (m : Z -> list Z) (n : nat) : Z :=
  match n with
  | O => 0
  | S n => refs_total m n + zlen (m (Z.of_nat n))
  end.

Lemma refs_total_le m m' n :
  (forall i, zlen (m i) <= zlen (m' i)) -> refs_total m n <= refs_total m' n.
Proof. intros Hm. induction n as [|n IH]; cbn; [done|]. specialize (Hm (Z.of_nat n)). lia. Qed.

Lemma refs_total_add m node r n : refs_total (refs_add m node r) n <= refs_total m n + 1.
Proof.
  enough (refs_total (refs_add m node r) n = refs_total m n +
    if (0 <=? node) && (node <? Z.of_nat n) then 1 else 0) as -> by (case_match; lia).
  induction n as [|n IH]; cbn [refs_total].
  - destruct (Z.leb_spec 0 node), (Z.ltb_spec node (Z.of_nat 0)); cbn; lia.
  - rewrite IH. unfold refs_add. destruct (Z.eqb_spec (Z.of_nat n) node) as [<-|].
    + rewrite zlen_cons.
      destruct (Z.leb_spec 0 (Z.of_nat n)), (Z.ltb_spec (Z.of_nat n) (Z.of_nat n)),
        (Z.ltb_spec (Z.of_nat n) (Z.of_nat (S n))); cbn; lia.
    + destruct (Z.leb_spec 0 node), (Z.ltb_spec node (Z.of_nat n)),
        (Z.ltb_spec node (Z.of_nat (S n))); cbn; lia.
Qed.

(** When no item is unused the nodes have a reference per item. *)
Lemma rep_total a cs own :
  adj_rep a cs own -> cs (-1) = [] ->
  adj_nitem a <= refs_total (adj_refs a) (Z.to_nat (adj_nnode a)).
Proof.
  intros Hrep Hnil. pose proof (rep_nitem _ _ _ Hrep). pose proof (rep_nnode _ _ _ Hrep).
  assert (Hc : forall n, refs_total (adj_refs a) n = zlen (concat (map cs (map Z.of_nat (seq 0 n))))).
  { induction n as [|n IH]; [done|]. cbn [refs_total].
    rewrite seq_S, !map_app, concat_app, zlen_app, IH. f_equal. cbn. rewrite app_nil_r.
    rewrite (adj_refs_rep _ _ _ _ Hrep). destruct (Z.ltb_spec (Z.of_nat n) 0); [lia|].
    by rewrite zlen_map. }
  rewrite Hc. rewrite <- (zlen_zrange (adj_nitem a)) by lia. unfold zlen.
  apply inj_le, submseteq_length, NoDup_submseteq; [apply NoDup_zrange|].
  intros i Hi%elem_of_zrange. pose proof (rep_owned _ _ _ Hrep i Hi) as Ho.
  assert (i ∈ cs (own i)) as Hin by by apply (rep_own _ _ _ Hrep).
  apply list_elem_of_In, in_concat. exists (cs (own i)). split; [|by apply list_elem_of_In].
  apply in_map, list_elem_of_In, elem_of_zrange.
  destruct (decide (own i = -1)) as [Heq|]; [|lia]. rewrite Heq, Hnil in Hin. set_solver.
Qed.

Section ops2_ok.
Context `{Junk Z, Junk REF_ADJ_ITEM}.

Lemma ref_adj_add_ok a node r :
  adj_wf a -> node + 100 <= REF_INT_MAX ->
  wp (ref_adj_add a node r) (fun '(st, a') =>
    adj_wf a' /\
    ((st = REF_SUCCESS /\ 0 <= node /\ forall n, adj_refs a' n = refs_add (adj_refs a) node r n) \/
     (st = REF_INVALID /\ node < 0 /\ a' = a) \/
     (st = REF_FAILURE /\ 0 <= node /\ (exists n, REF_INT_MAX <= refs_total (adj_refs a) n) /\
      forall n, adj_refs a' n = adj_refs a n))).
Proof.
  intros (cs & own & Hrep) Hmax. unfold ref_adj_add.
  case Z.ltb_spec; intros Hn.
  { apply wp_ret. split; [by eapply rep_pos|]. right; left. done. }
  apply wp_bind. eapply wp_mono; [by apply (grow_first_ok _ _ _ _ Hrep); lia|].
  intros a1 (Hrep1 & Hn1 & Hit1 & Hni1 & Hb1).
  apply wp_bind. eapply wp_mono; [by apply (grow_item_ok _ _ _ Hrep1)|].
  assert (Heq : forall n, adj_refs a1 n = adj_refs a n).
  { intros n. by rewrite (adj_refs_rep _ _ _ _ Hrep), (adj_refs_rep _ _ _ _ Hrep1), Hit1. }
  intros [st a2] [(-> & Hne & Hnn & cs2 & own2 & Hrep2 & Hcs & Hit)|(-> & -> & Hnil & Hm)];
    cbn [RSS]; last first.
  { apply wp_ret. split; [by eapply rep_pos|]. right; right. split_and!; [done|done| |done].
    exists (Z.to_nat (adj_nnode a1)). rewrite <- Hm.
    etrans; [by apply (rep_total _ _ _ Hrep1)|]. apply refs_total_le. intros i. by rewrite Heq. }
  pose proof (rep_nnode _ _ _ Hrep2) as Hnn2.
  destruct (cs2 (-1)) as [|i bl] eqn:Hbl.
  { apply (rep_head_nil _ _ _ Hrep2) in Hbl; [done|lia]. }
  destruct (rep_head _ _ _ Hrep2 (-1) bl i ltac:(lia) Hbl) as (Hh & Hir & Hio & Hc & Hil & Hnd).
  unfold adj_head in Hh. rewrite Z.eqb_refl in Hh. rewrite Hh.
  pose proof (rep_item _ _ _ Hrep2) as Hzi. pose proof (rep_first _ _ _ Hrep2) as Hzf.
  unfold ref_adj_item_next. apply wp_bind, wp_bind, wp_aget; [lia|]. apply wp_ret.
  apply wp_bind, wp_set_ref; [lia|].
  unfold ref_adj_first. destruct (Z.leb_spec 0 node), (Z.ltb_spec node (adj_nnode a2)); try lia.
  cbn [andb]. apply wp_bind, wp_aget; [lia|].
  apply wp_bind, wp_set_next; [alia|]. rewrite aat_upd_eq by lia. rewrite upd_upd_eq.
  cbn [item_ref]. apply wp_bind, wp_aset; [lia|]. apply wp_ret.
  assert (Hrep3 := rep_move a2 cs2 own2 (upd (adj_first a2) node i)
    (upd (adj_item a2) i {| item_next := (adj_first a2).[node]; item_ref := r |})
    (item_next (adj_item a2).[i]) i (-1) node bl Hrep2). cbv zeta in Hrep3.
  unfold adj_head in Hrep3. cbn [adj_blank adj_first] in Hrep3.
  destruct (Z.eqb_spec node (-1)) as [|_] in Hrep3; [lia|].
  specialize (Hrep3 ltac:(lia) ltac:(lia) ltac:(lia) Hir Hio ltac:(alia) ltac:(alia)).
  cbn [Z.eqb] in Hrep3.
  match type of Hrep3 with ?A -> ?B -> ?C -> ?D -> ?E -> ?F -> ?G -> _ =>
    assert A as HA; [|assert C as HC; [|assert D as HD; [|assert E as HE; [|assert F as HF;
      [|assert G as HG; [|specialize (Hrep3 HA Hnd HC HD HE HF HG)]]]]]] end.
  - eapply chain_ext; [|exact Hc]. intros j Hj. unfold inext. rewrite aat_upd_ne; [done|lia| |set_solver].
    assert (j ∈ cs2 (-1)) as []%(rep_own _ _ _ Hrep2) by (rewrite Hbl; set_solver). lia.
  - intros j. rewrite Hbl. set_solver.
  - by rewrite aat_upd_eq by lia.
  - by rewrite aat_upd_eq by lia.
  - intros k Hk Hk1 Hk2. destruct (Z.eqb_spec k (-1)); [done|]. by rewrite aat_upd_ne by lia.
  - intros j Hj Hoj. rewrite aat_upd_ne; [done|lia|lia|]. intros ->. by rewrite Hio in Hoj.
  - split; [by eapply rep_pos|]. left. split_and!; [done|lia|]. intros n.
    unfold refs_add. rewrite <- !Heq, (adj_refs_rep _ _ _ _ Hrep3).
    rewrite !(adj_refs_rep _ _ _ _ Hrep1). cbn [adj_item].
    assert (Hmap : forall n, 0 <= n -> map (fun j => item_ref (upd (adj_item a2) i
      {| item_next := (adj_first a2).[node]; item_ref := r |}).[j]) (cs n) =
      map (fun j => item_ref (adj_item a1).[j]) (cs n)).
    { clear n. intros n Hn'. apply map_ext_in. intros j Hj%list_elem_of_In.
      pose proof (rep_in_range _ _ _ Hrep1 _ _ Hj) as Hjr.
      rewrite <- Hcs in Hj by lia. apply (rep_own _ _ _ Hrep2) in Hj as [? ?].
      rewrite aat_upd_ne by (lia || (intros ->; lia)). by rewrite Hit. }
    destruct (Z.eqb_spec n (-1)) as [->|]; [by destruct (Z.eqb_spec (-1) node); [lia|]|].
    destruct (Z.ltb_spec n 0).
    { by destruct (Z.eqb_spec n node); [lia|]. }
    destruct (Z.eqb_spec n node) as [->|].
    * destruct (Z.ltb_spec node 0); [lia|]. cbn [map]. rewrite aat_upd_eq by lia.
      rewrite Hcs by lia. by rewrite Hmap.
    * rewrite Hcs by lia. by apply Hmap.
Qed.

(** The end of a removal: [items] and [first] are relinked around [i]. *)
Lemma release_item_ok a cs own node first items i l :
  adj_rep a cs own -> 0 <= node < adj_nnode a -> i ∈ cs node ->
  zlen first = adj_nnode a -> zlen items = adj_nitem a ->
  chain (inext items) first.[node] l -> NoDup l -> (forall j, j ∈ l <-> j ∈ cs node /\ j <> i) ->
  (forall k, 0 <= k < adj_nnode a -> k <> node -> first.[k] = (adj_first a).[k]) ->
  (forall j, 0 <= j < adj_nitem a -> own j <> node -> items.[j] = (adj_item a).[j]) ->
  (forall j, 0 <= j < adj_nitem a -> item_ref items.[j] = item_ref (adj_item a).[j]) ->
  wp (release_item a first items i) (fun '(st, a') =>
    st = REF_SUCCESS /\ adj_wf a' /\
    forall n, adj_refs a' n =
      if n =? node then map (fun j => item_ref (adj_item a).[j]) l else adj_refs a n).
Proof.
  intros Hrep Hn Hi Hzf Hzi Hc Hnd Hl Hfk Hij Href. unfold release_item.
  destruct (proj1 (rep_own _ _ _ Hrep node i) Hi) as [Hir Hio].
  apply wp_bind, wp_set_next; [lia|]. apply wp_bind, wp_set_ref; [alia|].
  rewrite aat_upd_eq by lia. rewrite upd_upd_eq. cbn [item_next]. apply wp_ret.
  set (items' := upd items i _).
  assert (Hne : forall j, 0 <= j < adj_nitem a -> j <> i -> items'.[j] = items.[j]).
  { intros j ? ?. unfold items'. by rewrite aat_upd_ne by lia. }
  assert (Hlr : forall j, j ∈ l -> 0 <= j < adj_nitem a /\ j <> i).
  { intros j [? ?]%Hl. split; [by eapply rep_in_range|done]. }
  assert (Hrep3 := rep_move a cs own first items' i i node (-1) l Hrep). cbv zeta in Hrep3.
  unfold adj_head in Hrep3. cbn [adj_blank adj_first] in Hrep3.
  destruct (Z.eqb_spec node (-1)) as [|_] in Hrep3; [lia|].
  assert (Hrep4 : adj_rep {| adj_nnode := adj_nnode a; adj_nitem := adj_nitem a;
      adj_first := first; adj_item := items'; adj_blank := i |}
    (fun k => if k =? node then l else if k =? -1 then i :: cs (-1) else cs k)
    (fun j => if j =? i then -1 else own j)).
  { apply Hrep3; try done; try lia; clear Hrep3.
    - unfold items'. by asimpl.
    - eapply chain_ext; [|exact Hc]. intros j [? ?]%Hlr. unfold inext. by rewrite Hne.
    - unfold items'. by rewrite aat_upd_eq by lia.
    - intros k Hk Hk1 Hk2. destruct (Z.eqb_spec k (-1)); [done|]. apply Hfk; lia.
    - intros j Hj Hoj. rewrite Hne; [by rewrite Hij|done|]. intros ->. done. }
  split_and!; [done|by eapply rep_pos|]. intros n.
  rewrite (adj_refs_rep _ _ _ _ Hrep4), (adj_refs_rep _ _ _ _ Hrep). cbn [adj_item].
  destruct (Z.ltb_spec n 0); [by destruct (Z.eqb_spec n node); [lia|]|].
  destruct (Z.eqb_spec n node) as [->|].
  - apply map_ext_in. intros j [? ?]%list_elem_of_In%Hlr. by rewrite Hne, Href.
  - destruct (Z.eqb_spec n (-1)); [lia|]. apply map_ext_in.
    intros j [? ?]%list_elem_of_In%(rep_own _ _ _ Hrep).
    rewrite Hne, Href; [done..|]. intros ->. lia.
Qed.

Lemma ref_adj_remove_ok a node r :
  adj_wf a ->
  wp (ref_adj_remove a node r) (fun '(st, a') =>
    adj_wf a' /\
    match remove_ref r (adj_refs a node) with
    | Some l => st = REF_SUCCESS /\
        forall n, adj_refs a' n = if n =? node then l else adj_refs a n
    | None => st = REF_INVALID /\ a' = a
    end).
Proof.
  intros (cs & own & Hrep). unfold ref_adj_remove, ref_adj_first.
  destruct (decide (0 <= node < adj_nnode a)) as [Hn|Hn]; last first.
  { replace ((0 <=? node) && (node <? adj_nnode a)) with false by
      (destruct (Z.leb_spec 0 node), (Z.ltb_spec node (adj_nnode a)); done || lia).
    cbn. apply wp_ret. split; [by eapply rep_pos|].
    rewrite (adj_refs_rep _ _ _ _ Hrep).
    destruct (Z.ltb_spec node 0); [done|]. by rewrite (rep_out _ _ _ Hrep node ltac:(lia)). }
  replace ((0 <=? node) && (node <? adj_nnode a)) with true by
    (destruct (Z.leb_spec 0 node), (Z.ltb_spec node (adj_nnode a)); done || lia).
  apply wp_bind, wp_aget; [rewrite (rep_first _ _ _ Hrep); lia|].
  assert (Hrf : adj_refs a node = map (fun i => item_ref (adj_item a).[i]) (cs node)).
  { rewrite (adj_refs_rep _ _ _ _ Hrep). by destruct (Z.ltb_spec node 0); [lia|]. }
  pose proof (rep_item _ _ _ Hrep) as Hzi. pose proof (rep_first _ _ _ Hrep) as Hzf.
  destruct (cs node) as [|i l] eqn:Hcs.
  { apply (rep_head_nil _ _ _ Hrep) in Hcs; [|lia]. unfold adj_head in Hcs.
    destruct (Z.eqb_spec node (-1)) as [|_]; [lia|]. rewrite Hcs. cbn. apply wp_ret.
    rewrite Hrf. split; [by eapply rep_pos|done]. }
  destruct (rep_head _ _ _ Hrep node l i ltac:(lia) Hcs) as (Hh & Hir & Hio & Hc & Hil & Hnd).
  unfold adj_head in Hh. destruct (Z.eqb_spec node (-1)) as [|_]; [lia|]. rewrite Hh.
  unfold ref_adj_valid. destruct (Z.eqb_spec REF_EMPTY i); [unfold REF_EMPTY in *; lia|].
  cbn [negb]. unfold ref_adj_item_ref at 1. apply wp_bind, wp_bind, wp_aget; [lia|].
  apply wp_ret. case Z.eqb_spec; intros Hr.
  { unfold ref_adj_item_next. apply wp_bind, wp_bind, wp_aget; [lia|]. apply wp_ret.
    apply wp_bind, wp_aset; [lia|]. eapply wp_mono.
    - apply (release_item_ok a cs own node _ _ i l Hrep); try done.
      + rewrite Hcs. set_solver.
      + by asimpl.
      + by rewrite aat_upd_eq by lia.
      + intros j. rewrite Hcs. set_solver.
      + intros k ? ?. by rewrite aat_upd_ne by lia.
    - intros [st a'] (-> & Hwf & Href). split; [done|]. rewrite Hrf. cbn.
      by rewrite <- Hr, Z.eqb_refl. }
  rewrite (each_ref_adj_items _ _ _ Hrep), (adj_items_rep _ _ _ Hrep) by lia.
  apply wp_bind.
  apply (wp_forl (fun pre parent => parent = default REF_EMPTY (last pre) /\
      forall j, j ∈ pre -> item_ref (adj_item a).[j] <> r)
    (fun '(x, parent) => exists pre post, cs node = pre ++ x :: post /\
      parent = default REF_EMPTY (last pre) /\ item_ref (adj_item a).[x] = r /\
      forall j, j ∈ pre -> item_ref (adj_item a).[j] <> r)).
  - split; [done|set_solver].
  - intros pre x post parent Hpp [-> Hpre]. case Z.eqb_spec; intros Hx; apply wp_ret.
    + exists pre, post. done.
    + split; [by rewrite last_snoc|]. intros j [?| ->%list_elem_of_singleton]%elem_of_app;
        [by apply Hpre|done].
  - intros parent [_ Hpre]. apply wp_ret. split; [by eapply rep_pos|].
    rewrite Hrf, <- Hcs, remove_ref_absent; [done|]. done.
  - intros [x parent] (pre & post & Hpp & -> & Hx & Hpre).
    destruct (decide (pre = [])) as [->|Hne].
    { rewrite Hcs in Hpp. injection Hpp as -> ->. by rewrite Hx in Hr. }
    destruct (exists_last Hne) as (pre1 & p & ->). rewrite last_snoc.
    change (default REF_EMPTY (Some p)) with p.
    pose proof (rep_nodup _ _ _ Hrep node) as Hdd. rewrite Hpp in Hdd.
    assert (Hin : forall j, j ∈ pre1 ++ p :: x :: post ->
      0 <= j < adj_nitem a /\ own j = node).
    { intros j Hj. apply (rep_own _ _ _ Hrep). by rewrite Hpp, <- app_assoc. }
    destruct (Hin p ltac:(set_solver)) as [Hpr Hpo].
    destruct (Hin x ltac:(set_solver)) as [Hxr Hxo].
    destruct (Z.eqb_spec REF_EMPTY p); [unfold REF_EMPTY in *; lia|].
    unfold ref_adj_item_next. apply wp_bind, wp_bind, wp_aget; [lia|]. apply wp_ret.
    apply wp_bind, wp_set_next; [lia|].
    rewrite <- app_assoc in Hdd, Hpp. cbn in Hdd, Hpp.
    assert (Hdd' := Hdd). apply NoDup_app in Hdd' as (Hd1 & Hd12 & Hd2).
    apply NoDup_cons in Hd2 as [Hpn Hd2]. apply NoDup_cons in Hd2 as [Hxn Hd2].
    assert (Hp12 : forall j, j ∈ pre1 ++ post -> j <> p).
    { intros j [Hj|Hj]%elem_of_app ->; [|set_solver]. apply (Hd12 p Hj). set_solver. }
    eapply wp_mono.
    + apply (release_item_ok a cs own node _ _ x (pre1 ++ p :: post) Hrep); try done.
      * rewrite Hpp. set_solver.
      * by asimpl.
      * eapply (chain_unlink (inext (adj_item a))); last first.
        { rewrite <- Hpp. pose proof (rep_chain _ _ _ Hrep node ltac:(lia)) as Hcc.
          unfold adj_head in Hcc. by destruct (Z.eqb_spec node (-1)); [lia|]. }
        { unfold inext. by rewrite aat_upd_eq by lia. }
        intros j Hj. unfold inext. rewrite aat_upd_ne; [done|lia| |by apply not_eq_sym, Hp12].
        apply (Hin j). set_solver.
      * apply NoDup_app. split_and!; [done|set_solver|apply NoDup_cons; set_solver].
      * intros j. rewrite Hpp. set_solver.
      * intros j Hj Ho. rewrite aat_upd_ne; [done|lia|lia|]. by intros ->.
      * intros j Hj. rewrite aat_upd by lia. by destruct (Z.eqb_spec p j) as [<-|].
    + intros [st a'] (-> & Hwf & Href). split; [done|]. rewrite Hrf, <- Hcs, Hpp.
      replace (pre1 ++ p :: x :: post) with ((pre1 ++ [p]) ++ x :: post)
        by by rewrite <- app_assoc.
      rewrite remove_ref_found by done. rewrite <- app_assoc. done.
Qed.

Lemma ref_adj_add_uniquely_ok a node r :
  adj_wf a -> node + 100 <= REF_INT_MAX ->
  wp (ref_adj_add_uniquely a node r) (fun '(st, a') =>
    if bool_decide (r ∈ adj_refs a node) then st = REF_SUCCESS /\ a' = a
    else Some (st, a') = ref_adj_add a node r).
Proof.
  intros Hwf Hmax. pose proof Hwf as (cs & own & Hrep). unfold ref_adj_add_uniquely.
  rewrite (each_ref_adj_items _ _ _ Hrep). apply wp_bind.
  apply (wp_forl (fun pre _ => forall j, j ∈ pre -> item_ref (adj_item a).[j] <> r)
    (fun _ => r ∈ adj_refs a node)).
  - set_solver.
  - intros pre x post [] Hpp Hpre. case Z.eqb_spec; intros Hx; apply wp_ret; cbn.
    + unfold adj_refs. apply list_elem_of_fmap. exists x. split; [done|]. rewrite Hpp. set_solver.
    + intros j [?| ->%list_elem_of_singleton]%elem_of_app; [by apply Hpre|done].
  - intros _ Hno. assert (Hnin : r ∉ adj_refs a node).
    { unfold adj_refs. intros (j & -> & Hj)%list_elem_of_fmap. by apply (Hno j). }
    destruct (ref_adj_add_ok a node r Hwf Hmax) as ([st a'] & Heq & _). rewrite Heq.
    apply wp_ret. by rewrite bool_decide_eq_false_2.
  - intros [] Hin. apply wp_ret. by rewrite bool_decide_eq_true_2.
Qed.

Lemma ref_adj_degree_ok a node :
  adj_wf a -> ref_adj_degree a node = Some (REF_SUCCESS, zlen (adj_refs a node)).
Proof.
  intros (cs & own & Hrep). apply wp_eq. unfold ref_adj_degree, ref_adj_first.
  rewrite (adj_refs_rep _ _ _ _ Hrep).
  assert (Hloop : forall l fuel start d,
    chain (inext (adj_item a)) start l -> (forall i, i ∈ l -> 0 <= i < adj_nitem a) ->
    zlen l < Z.of_nat fuel ->
    loop (R := Z) fuel (fun '(item, degree) =>
      if ref_adj_valid item then
        let degree := degree + 1 in
        let* item := ref_adj_item_next a item in
        Some (Next (item, degree))
      else Some (Exit degree)) (start, d) = Some (d + zlen l)).
  { intros l. induction l as [|i l IH]; intros fuel start d Hc Hin Hf;
      (destruct fuel as [|fuel]; [exfalso; unfold zlen in *; cbn in *; lia|]); rewrite loop_S.
    - cbn in Hc. subst start. cbn. f_equal. alia.
    - destruct Hc as [-> Hc]. pose proof (Hin i ltac:(set_solver)) as Hi.
      unfold ref_adj_valid at 1. destruct (Z.eqb_spec REF_EMPTY i); [unfold REF_EMPTY in *; lia|].
      cbn [negb]. unfold ref_adj_item_next at 1.
      rewrite aget_aat by (rewrite (rep_item _ _ _ Hrep); lia). cbn [obind].
      rewrite zlen_cons in *. rewrite (IH fuel); [f_equal; lia|done|set_solver|lia]. }
  pose proof (rep_nitem _ _ _ Hrep). pose proof (rep_nnode _ _ _ Hrep).
  destruct (Z.leb_spec 0 node), (Z.ltb_spec node (adj_nnode a)); cbn [andb]; apply wp_bind.
  - apply wp_aget; [rewrite (rep_first _ _ _ Hrep); lia|]. apply wp_bind.
    erewrite (Hloop (cs node)); [|pose proof (rep_chain _ _ _ Hrep node ltac:(lia)) as Hc;
      unfold adj_head in Hc; by destruct (Z.eqb_spec node (-1)); [lia|]
      |by apply (rep_in_range _ _ _ Hrep)|pose proof (rep_length _ _ _ Hrep node); lia].
    apply wp_ret, wp_ret. destruct (Z.ltb_spec node 0); [lia|]. by rewrite zlen_map.
  - apply wp_ret, wp_bind. erewrite (Hloop []); [|done|set_solver|alia].
    apply wp_ret, wp_ret. rewrite (rep_out _ _ _ Hrep node ltac:(lia)).
    by destruct (Z.ltb_spec node 0).
  - apply wp_ret, wp_bind. erewrite (Hloop []); [|done|set_solver|alia].
    apply wp_ret, wp_ret. by destruct (Z.ltb_spec node 0); [|lia].
  - lia.
Qed.

(** The least positive degree and the first node that has it. *)
Lemma ref_adj_min_degree_node_ok a :
  adj_wf a ->
  wp (ref_adj_min_degree_node a) (fun '(st, (d, node)) =>
    st = REF_SUCCESS /\
    if node =? REF_EMPTY then d = REF_EMPTY /\ forall n, 0 <= n < adj_nnode a -> adj_refs a n = []
    else 0 <= node < adj_nnode a /\ d = zlen (adj_refs a node) /\ 0 < d /\
      (forall n, 0 <= n < adj_nnode a -> adj_refs a n <> [] -> d <= zlen (adj_refs a n)) /\
      (forall n, 0 <= n < node -> adj_refs a n <> [] -> d < zlen (adj_refs a n))).
Proof.
  intros Hwf. pose proof Hwf as (cs & own & Hrep). unfold ref_adj_min_degree_node.
  pose proof (rep_nnode _ _ _ Hrep). apply wp_bind.
  apply (wp_forx_up (fun i '(d, node) =>
    if node =? REF_EMPTY then d = REF_EMPTY /\ forall n, 0 <= n < i -> adj_refs a n = []
    else 0 <= node < i /\ d = zlen (adj_refs a node) /\ 0 < d /\
      (forall n, 0 <= n < i -> adj_refs a n <> [] -> d <= zlen (adj_refs a n)) /\
      (forall n, 0 <= n < node -> adj_refs a n <> [] -> d < zlen (adj_refs a n)))
    (fun _ => False)); [lia| | |by intros [d node] ?; apply wp_ret|done].
  - cbn. split; [done|lia].
  - intros i [d node] Hi HI. rewrite ref_adj_degree_ok by done. cbn [obind].
    assert (Hz : 0 < zlen (adj_refs a i) <-> adj_refs a i <> []).
    { destruct (adj_refs a i); [split; [unfold zlen; cbn; lia|done]|].
      rewrite zlen_cons. pose proof (zlen_nonneg l). split; [done|lia]. }
    assert (Hsplit : forall (P : Z -> Prop), (forall n, 0 <= n < i -> P n) -> P i ->
      forall n, 0 <= n < i + 1 -> P n).
    { intros P HP HPi n Hn. destruct (decide (n = i)) as [->|]; [done|]. apply HP. lia. }
    case Z.ltb_spec; intros Hpos.
    + destruct (Z.eqb_spec REF_EMPTY node) as [<-|Hne]; cbn [orb].
      * apply wp_ret. cbn. destruct (Z.eqb_spec i REF_EMPTY); [unfold REF_EMPTY in *; lia|].
        destruct HI as [_ HI]. split_and!; [lia|lia|done|lia| |].
        { refine (Hsplit _ _ _); [|lia]. intros k Hk Hx. by rewrite HI in Hx. }
        { intros k Hk Hx. by rewrite HI in Hx. }
      * destruct (Z.eqb_spec node REF_EMPTY); [done|]. destruct HI as (? & ? & ? & HI1 & HI2).
        case Z.ltb_spec; intros Hlt; apply wp_ret; cbn.
        { destruct (Z.eqb_spec i REF_EMPTY); [unfold REF_EMPTY in *; lia|].
          split_and!; [lia|lia|done|lia| |].
          - refine (Hsplit _ _ _); [|lia]. intros k Hk He. specialize (HI1 k Hk He). lia.
          - intros k Hk He. specialize (HI1 k Hk He). lia. }
        { destruct (Z.eqb_spec node REF_EMPTY); [done|].
          split_and!; [lia|lia|done|lia| |done]. refine (Hsplit _ _ _); [done|lia]. }
    + assert (adj_refs a i = []) as Hnil.
      { destruct (decide (adj_refs a i = [])) as [?|Hne%Hz]; [done|lia]. }
      apply wp_ret. cbn. destruct (Z.eqb_spec node REF_EMPTY).
      * destruct HI as [-> HI]. split; [done|]. refine (Hsplit _ _ _); done.
      * destruct HI as (? & ? & ? & HI1 & HI2). split_and!; [lia|lia|done|lia| |done].
        refine (Hsplit _ _ _); [done|]. by rewrite Hnil.
Qed.
End ops2_ok.

(** ** For the clients

    What the structures built on [REF_ADJ] use: the head of a list, traversals in
    terms of the references, and how often a reference is listed. *)
Section clients.
Implicit Types (a : REF_ADJ).

Lemma ref_adj_first_ok a node :
  adj_wf a ->
  wp (ref_adj_first a node) (fun item =>
    match adj_refs a node with
    | [] => ref_adj_valid item = false
    | ref :: _ => ref_adj_valid item = true /\ ref_adj_item_ref a item = Some ref
    end).
Proof.
  intros (cs & own & Hrep). unfold ref_adj_first. rewrite (adj_refs_rep _ _ _ _ Hrep).
  destruct (Z.leb_spec 0 node), (Z.ltb_spec node (adj_nnode a)), (Z.ltb_spec node 0); try lia;
    cbn [andb]; try (by apply wp_ret);
    [|rewrite (rep_out _ _ _ Hrep node ltac:(lia)); by apply wp_ret].
  apply wp_aget; [rewrite (rep_first _ _ _ Hrep); lia|].
  assert (Hhead : adj_head a node = (adj_first a).[node])
    by (unfold adj_head; by destruct (Z.eqb_spec node (-1)); [lia|]).
  destruct (cs node) as [|i l] eqn:Hl; cbn [map].
  - apply (rep_head_nil _ _ _ Hrep) in Hl; [|lia]. by rewrite <- Hhead, Hl.
  - destruct (rep_head _ _ _ Hrep node l i ltac:(lia) Hl) as (Hi & Hr & _). rewrite <- Hhead, Hi.
    unfold ref_adj_valid, ref_adj_item_ref, REF_EMPTY. split.
    + destruct (Z.eqb_spec (-1) i); [lia|done].
    + by rewrite aget_aat by (rewrite (rep_item _ _ _ Hrep); lia).
Qed.

Lemma each_ref_adj_refs {T R} a node (body : Z -> T -> option (ctl T R)) s :
  adj_wf a ->
  each_ref_adj_node_item_with_ref a node (fun _ => body) s = forl (adj_refs a node) body s.
Proof.
  intros (cs & own & Hrep). rewrite (each_ref_adj_items _ _ _ Hrep). unfold adj_refs.
  by rewrite forl_map.
Qed.

Lemma adj_refs_neg a node : node < 0 -> adj_refs a node = [].
Proof. intros. unfold adj_refs, adj_items. by destruct (Z.leb_spec 0 node); [lia|]. Qed.

Lemma adj_refs_length a node : adj_wf a -> zlen (adj_refs a node) <= adj_nitem a.
Proof.
  intros (cs & own & Hrep). rewrite (adj_refs_rep _ _ _ _ Hrep).
  pose proof (rep_nitem _ _ _ Hrep). case Z.ltb_spec; intros.
  - change (zlen (@nil Z)) with 0. lia.
  - rewrite zlen_map. apply (rep_length _ _ _ Hrep).
Qed.

Lemma occ_remove_ref r l :
  match remove_ref r l with
  | Some l' => r ∈ l /\ (forall x, occ l' x = occ l x - Z.b2z (r =? x)) /\ zlen l' = zlen l - 1
  | None => r ∉ l
  end.
Proof.
  induction l as [|y l IH]; cbn; [set_solver|]. case Z.eqb_spec; intros Hy.
  - subst. split; [set_solver|]. split; [|rewrite zlen_cons; lia].
    intros x. rewrite occ_cons. lia.
  - destruct (remove_ref r l) as [l'|]; cbn.
    + destruct IH as (Hin & Hocc & Hlen). split; [set_solver|]. split; [|rewrite !zlen_cons; lia].
      intros x. rewrite !occ_cons, Hocc. lia.
    + set_solver.
Qed.

Definition refs_below (m : Z -> list Z) (k : nat) : list Z :=
  concat (map m (map Z.of_nat (seq 0 k))).

Lemma refs_below_S m k : refs_below m (S k) = refs_below m k ++ m (Z.of_nat k).
Proof.
  unfold refs_below. rewrite seq_S, !map_app, concat_app. cbn. by rewrite app_nil_r.
Qed.

Lemma zlen_refs_below m k : zlen (refs_below m k) = refs_total m k.
Proof. induction k as [|k IH]; [done|]. rewrite refs_below_S, zlen_app, IH. done. Qed.

Lemma occ_refs_below m k c nodes :
  (forall node, occ (m node) c <= occ nodes node) -> occ (refs_below m k) c <= zlen nodes.
Proof.
  intros Hocc.
  assert (Hf : forall l (z : Z),
    zlen (filter (fun x => x < z + 1) l) = zlen (filter (fun x => x < z) l) + occ l z).
  { intros l z. induction l as [|x l IH]; [done|]. rewrite occ_cons, !filter_cons.
    repeat case_decide; destruct (Z.eqb_spec x z); cbn [Z.b2z]; rewrite ?zlen_cons; lia. }
  assert (occ (refs_below m k) c <= zlen (filter (fun x => x < Z.of_nat k) nodes)) as Hk.
  { induction k as [|k IH]; [apply zlen_nonneg|]. rewrite refs_below_S, occ_app.
    replace (Z.of_nat (S k)) with (Z.of_nat k + 1) by lia. rewrite Hf. specialize (Hocc (Z.of_nat k)). lia. }
  pose proof (length_filter (fun x => x < Z.of_nat k) nodes). unfold zlen in *. lia.
Qed.

(** There are no more references than pairs of an element of [cells] and one of
    its nodes. *)
Lemma refs_total_bound m (cells : list Z) (nodes : Z -> list Z) per k :
  (forall c, zlen (nodes c) <= per) ->
  (forall node c, occ (m node) c <= occ (if bool_decide (c ∈ cells) then nodes c else []) node) ->
  refs_total m k <= per * zlen cells.
Proof.
  intros Hper Hocc. set (l := concat (map (replicate (Z.to_nat per)) cells)).
  assert (0 <= per) by (specialize (Hper 0); pose proof (zlen_nonneg (nodes 0)); lia).
  assert (Hl : zlen l = per * zlen cells).
  { unfold l. clear Hocc. induction cells as [|c cells IH]; [unfold zlen; cbn; lia|]. cbn [map concat].
    rewrite zlen_app, IH, zlen_cons. unfold zlen at 1. rewrite length_replicate. lia. }
  rewrite <- Hl, <- zlen_refs_below. apply occ_le_zlen. intros c.
  etransitivity; [by apply occ_refs_below|]. case_bool_decide as Hc; [|apply occ_nonneg].
  etransitivity; [apply Hper|]. apply list_elem_of_split in Hc as (la & lb & ->). unfold l.
  rewrite map_app, concat_app, occ_app. cbn [map concat]. rewrite occ_app.
  assert (occ (replicate (Z.to_nat per) c) c = per) as ->.
  { clear -H. rewrite <- (Z2Nat.id per) at 2 by done. induction (Z.to_nat per) as [|n IH]; [done|].
    cbn [replicate]. rewrite occ_cons, IH, Z.eqb_refl. cbn [Z.b2z]. lia. }
  pose proof (occ_nonneg (concat (map (replicate (Z.to_nat per)) la)) c).
  pose proof (occ_nonneg (concat (map (replicate (Z.to_nat per)) lb)) c). lia.
Qed.
End clients.

(** ** Sequences of calls *)

Inductive adj_cmd :=
  | AdjAdd (node r : Z)
  | AdjAddUniquely (node r : Z)
  | AdjRemove (node r : Z)
  | AdjDegree (node : Z)
  | AdjCopy.

Definition adj_exec `{Junk Z, Junk REF_ADJ_ITEM} (c : adj_cmd) (a : REF_ADJ)
    : option ((REF_STATUS * Z) * REF_ADJ) :=
  match c with
  | AdjAdd node r => let* '(st, a) := ref_adj_add a node r in Some ((st, 0), a)
  | AdjAddUniquely node r => let* '(st, a) := ref_adj_add_uniquely a node r in Some ((st, 0), a)
  | AdjRemove node r => let* '(st, a) := ref_adj_remove a node r in Some ((st, 0), a)
  | AdjDegree node => let* '(st, d) := ref_adj_degree a node in Some ((st, d), a)
  | AdjCopy => let* '(st, a) := ref_adj_deep_copy a in Some ((st, 0), a)
  end.

(** The same calls on one plain list of references per node. *)
Definition adj_spec (c : adj_cmd) (m : Z -> list Z) : (REF_STATUS * Z) * (Z -> list Z) :=
  match c with
  | AdjAdd node r =>
      if node <? 0 then ((REF_INVALID, 0), m) else ((REF_SUCCESS, 0), refs_add m node r)
  | AdjAddUniquely node r =>
      if node <? 0 then ((REF_INVALID, 0), m)
      else if bool_decide (r ∈ m node) then ((REF_SUCCESS, 0), m)
      else ((REF_SUCCESS, 0), refs_add m node r)
  | AdjRemove node r =>
      match remove_ref r (m node) with
      | Some l => ((REF_SUCCESS, 0), fun n => if n =? node then l else m n)
      | None => ((REF_INVALID, 0), m)
      end
  | AdjDegree node => ((REF_SUCCESS, zlen (m node)), m)
  | AdjCopy => ((REF_SUCCESS, 0), m)
  end.

Definition adj_cmd_ok (c : adj_cmd) : Prop :=
  match c with
  | AdjAdd node _ | AdjAddUniquely node _ => node + 100 <= REF_INT_MAX
  | _ => True
  end.

(** [k] more calls cannot use up the items. *)
Definition adj_sim (k : Z) (a : REF_ADJ) (m : Z -> list Z) : Prop :=
  adj_wf a /\ (forall n, adj_refs a n = m n) /\
  (forall n, refs_total (adj_refs a) n + k < REF_INT_MAX).

Lemma zlen_remove_ref r l l' : remove_ref r l = Some l' -> zlen l' <= zlen l.
Proof.
  revert l'. induction l as [|x l IH]; intros l'; cbn; [done|]. rewrite zlen_cons.
  case Z.eqb_spec; intros; [simplify_eq; lia|].
  destruct (remove_ref r l) as [l1|]; [|done]. simplify_eq/=. rewrite zlen_cons.
  specialize (IH l1 eq_refl). lia.
Qed.

Section sim.
Context `{Junk Z, Junk REF_ADJ_ITEM}.

Lemma adj_sim_weaken k k' a m : k' <= k -> adj_sim k a m -> adj_sim k' a m.
Proof. intros Hk (? & ? & Ht). split_and!; try done. intros n. specialize (Ht n). lia. Qed.

Lemma adj_add_sim a m node r k :
  node + 100 <= REF_INT_MAX -> adj_sim (k + 1) a m -> 0 <= k ->
  wp (let* '(st, a) := ref_adj_add a node r in Some ((st, 0), a)) (fun '(o, a') =>
    o = fst (adj_spec (AdjAdd node r) m) /\ adj_sim k a' (snd (adj_spec (AdjAdd node r) m))).
Proof.
  intros Hmax (Hwf & Hm & Ht) Hk. apply wp_bind. eapply wp_mono; [by apply ref_adj_add_ok|].
  intros [st a'] [Hwf' [(-> & Hn & Ha)|[(-> & Hn & ->)|(_ & _ & (n & Hn) & _)]]]; cbn.
  - destruct (Z.ltb_spec node 0); [lia|]. apply wp_ret. cbn. split; [done|].
    split; [done|split].
    + intros n. rewrite Ha. unfold refs_add. case Z.eqb_spec; intros; by rewrite Hm.
    + intros n. pose proof (refs_total_add (adj_refs a) node r n). specialize (Ht n).
      enough (refs_total (adj_refs a') n <= refs_total (refs_add (adj_refs a) node r) n) by lia.
      apply refs_total_le. intros. by rewrite Ha.
  - destruct (Z.ltb_spec node 0); [|lia]. apply wp_ret. split; [done|].
    apply (adj_sim_weaken (k + 1)); [lia|done].
  - specialize (Ht n). lia.
Qed.

Lemma adj_exec_sim c a m k :
  adj_cmd_ok c -> 0 <= k -> adj_sim (k + 1) a m ->
  wp (adj_exec c a) (fun '(o, a') => o = fst (adj_spec c m) /\ adj_sim k a' (snd (adj_spec c m))).
Proof.
  intros Hok Hk Hsim. pose proof Hsim as (Hwf & Hm & Ht).
  assert (Hsame : adj_sim k a m) by (apply (adj_sim_weaken (k + 1)); [lia|done]).
  destruct c as [node r|node r|node r|node|]; cbn [adj_exec].
  - by apply adj_add_sim.
  - apply wp_bind. eapply wp_mono; [by apply ref_adj_add_uniquely_ok|]. cbn.
    intros [st a']. rewrite Hm. case bool_decide_reflect; intros Hin.
    + intros [-> ->]. apply wp_ret. destruct (Z.ltb_spec node 0); [|done].
      rewrite <- Hm in Hin. unfold adj_refs, adj_items in Hin.
      destruct (Z.leb_spec 0 node); [lia|]. cbn in Hin. set_solver.
    + intros Heq. pose proof (adj_add_sim a m node r k Hok Hsim Hk) as Hadd.
      rewrite <- Heq in Hadd. cbn in Hadd. exact Hadd.
  - apply wp_bind. eapply wp_mono; [by apply ref_adj_remove_ok|]. cbn.
    intros [st a'] [Hwf' Hr]. rewrite Hm in Hr. apply wp_ret.
    destruct (remove_ref r (m node)) as [l|] eqn:Hl; [|by destruct Hr as [-> ->]].
    destruct Hr as [-> Hr]. split; [done|]. split; [done|split]; cbn.
    + intros n. rewrite Hr. case Z.eqb_spec; intros; [done|apply Hm].
    + intros n. specialize (Ht n).
      enough (refs_total (adj_refs a') n <= refs_total (adj_refs a) n) by lia.
      apply refs_total_le. intros i. rewrite Hr. case Z.eqb_spec; intros; [|done].
      subst i. rewrite Hm. by eapply zlen_remove_ref.
  - rewrite ref_adj_degree_ok by done. apply wp_ret. by rewrite Hm.
  - rewrite ref_adj_deep_copy_ok by done. by apply wp_ret.
Qed.

Lemma adj_create_sim k :
  0 <= k < REF_INT_MAX ->
  wp ref_adj_create (fun '(st, a) => st = REF_SUCCESS /\ adj_sim k a (fun _ => [])).
Proof.
  intros Hk. eapply wp_mono; [apply ref_adj_create_ok|].
  intros [st a] (-> & Hwf & Hm). split; [done|split; [done|split; [done|]]]. intros n.
  enough (refs_total (adj_refs a) n = 0) by lia.
  induction n as [|n IH]; cbn; [done|]. rewrite IH, Hm. done.
Qed.
End sim.

(** ** Properties *)

(** C2. Any sequence of fewer than 2^31 - 1 calls on a fresh [REF_ADJ] is
    defined (every traversal of the links ends, every access is inside its
    array), and returns the statuses and degrees, and leaves the references of
    every node in the order, that the same calls on one plain list per node
    give. *)
Theorem ref_adj_refines `{Junk Z, Junk REF_ADJ_ITEM} (cs : list adj_cmd) :
  Forall adj_cmd_ok cs -> zlen cs < REF_INT_MAX ->
  exists a0 a, ref_adj_create = Some (REF_SUCCESS, a0) /\
    run adj_exec cs a0 = Some (fst (spec_run adj_spec cs (fun _ => [])), a) /\
    adj_wf a /\ forall n, adj_refs a n = snd (spec_run adj_spec cs (fun _ => [])) n.
Proof.
  intros Hok Hlen. pose proof (zlen_nonneg cs).
  destruct (adj_create_sim (zlen cs)) as ([st a0] & -> & -> & Hsim); [lia|].
  destruct (run_refines adj_exec adj_spec adj_sim adj_cmd_ok cs a0 (fun _ => []))
    as (a & Hrun & Hwf & Hm & _); [by apply adj_exec_sim|done|done|].
  by exists a0, a.
Qed.

Lemma ref_adj_refines_witness :
  let cs := [AdjAdd 3 7; AdjAdd 3 8; AdjAddUniquely 3 7; AdjAdd 40 1; AdjAdd (-1) 5;
             AdjRemove 3 7; AdjRemove 3 9; AdjDegree 3; AdjCopy] in
  exists a0 a, ref_adj_create (H := fun _ => 77) (H0 := fun _ => inhabitant) = Some (REF_SUCCESS, a0) /\
    run (adj_exec (H := fun _ => 77) (H0 := fun _ => inhabitant)) cs a0 =
      Some (fst (spec_run adj_spec cs (fun _ => [])), a) /\
    adj_wf a /\ forall n, adj_refs a n = snd (spec_run adj_spec cs (fun _ => [])) n.
Proof.
  apply (ref_adj_refines (H := fun _ => 77) (H0 := fun _ => inhabitant)).
  - repeat (apply Forall_cons; split; [vm_compute; done|]). by apply Forall_nil.
  - vm_compute. reflexivity.
Defined.

(** [ref_adj_min_degree_node] finds the least positive degree and the first
    node that has it, and [REF_EMPTY] when no node has a reference. *)
Theorem ref_adj_min_degree_node_least `{Junk Z, Junk REF_ADJ_ITEM} (a : REF_ADJ) :
  adj_wf a ->
  exists d node, ref_adj_min_degree_node a = Some (REF_SUCCESS, (d, node)) /\
    if node =? REF_EMPTY then d = REF_EMPTY /\ forall n, 0 <= n < adj_nnode a -> adj_refs a n = []
    else 0 <= node < adj_nnode a /\ d = zlen (adj_refs a node) /\ 0 < d /\
      (forall n, 0 <= n < adj_nnode a -> adj_refs a n <> [] -> d <= zlen (adj_refs a n)) /\
      (forall n, 0 <= n < node -> adj_refs a n <> [] -> d < zlen (adj_refs a n)).
Proof.
  intros Hwf. destruct (ref_adj_min_degree_node_ok a Hwf) as ([st [d node]] & -> & -> & Hpost).
  by exists d, node.
Qed.

Definition adj_example : REF_ADJ :=
  {| adj_nnode := 2; adj_nitem := 2; adj_first := [0; -1];
     adj_item := [{| item_next := -1; item_ref := 9 |}; {| item_next := -1; item_ref := -1 |}];
     adj_blank := 1 |}.

Lemma adj_example_wf : adj_wf adj_example.
Proof.
  exists (fun n => if n =? 0 then [0] else if n =? -1 then [1] else []),
    (fun i => if i =? 0 then 0 else -1).
  assert (Hn : forall n, -1 <= n < 2 -> n = -1 \/ n = 0 \/ n = 1) by lia.
  constructor; cbn; unfold REF_INT_MAX; try lia; try done.
  - intros n [->|[->| ->]]%Hn; vm_compute; repeat split; reflexivity.
  - intros n. repeat case Z.eqb_spec; intros; repeat constructor; set_solver.
  - intros n i. repeat case Z.eqb_spec; intros; rewrite ?list_elem_of_singleton; try lia;
      (split; [set_solver|lia]).
  - intros i. case Z.eqb_spec; lia.
Qed.

Lemma ref_adj_min_degree_node_least_witness :
  adj_wf adj_example /\
  exists d node, ref_adj_min_degree_node adj_example = Some (REF_SUCCESS, (d, node)) /\
    if node =? REF_EMPTY then d = REF_EMPTY /\ forall n, 0 <= n < 2 -> adj_refs adj_example n = []
    else 0 <= node < 2 /\ d = zlen (adj_refs adj_example node) /\ 0 < d /\
      (forall n, 0 <= n < 2 -> adj_refs adj_example n <> [] -> d <= zlen (adj_refs adj_example n)) /\
      (forall n, 0 <= n < node -> adj_refs adj_example n <> [] -> d < zlen (adj_refs adj_example n)).
Proof.
  split; [apply adj_example_wf|].
  apply (ref_adj_min_degree_node_least (H := fun _ => 0) (H0 := fun _ => inhabitant) adj_example).
  apply adj_example_wf.
Defined.
