(* ===== verification/RefDbl.v ===== *)
(** * REF_DBL: double precision arithmetic

    The numerical code is written once over the operations of [Dbl]. Two
    instances matter: [binary64], the IEEE double arithmetic of the Standard
    Library's SpecFloat (every operation rounds to nearest even), on which the
    definitions run as the program does, and [rational], on which the
    operations are exact. [DblField] states what exact arithmetic satisfies;
    theorems that need it hold for [rational] and are about the algorithm, not
    about its rounding. [log] and [exp] are the C library's: parameters of
    both instances. *)
From S2P Require Import Prelude.
From stdpp Require Import prelude list.
From Stdlib Require Import ZArith Lia SpecFloat QArith Qcanon Field.
Open Scope Z_scope.
Open Scope ref_scope.

Class Dbl (D : Type) := {
  dofZ : Z -> D;
  dadd : D -> D -> D;
  dsub : D -> D -> D;
  dmul : D -> D -> D;
  ddiv : D -> D -> D;
  dopp : D -> D;
  dsqrt : D -> D;
  dlog : D -> D;
  dexp : D -> D;
  dltb : D -> D -> bool;
  dleb : D -> D -> bool;
  disfinite : D -> bool
}.

Declare Scope dbl_scope.
Delimit Scope dbl_scope with dbl.
Infix "+!" := dadd (at level 50, left associativity) : dbl_scope.
Infix "-!" := dsub (at level 50, left associativity) : dbl_scope.
Infix "*!" := dmul (at level 40, left associativity) : dbl_scope.
Infix "/!" := ddiv (at level 40, left associativity) : dbl_scope.
Notation "-! x" := (dopp x) (at level 35, right associativity) : dbl_scope.
Infix "<?!" := dltb (at level 70) : dbl_scope.
Infix "<=?!" := dleb (at level 70) : dbl_scope.
Open Scope dbl_scope.

Section macros.
Context {D : Type} `{Dbl D}.

#[global] Instance Dbl_inhabited : Inhabited D := populate (dofZ 0).

(** The literals [n]e-[k] and [n]e[k]: one correctly rounded operation. *)
Definition d_em (n k : Z) : D := dofZ n /! dofZ (10 ^ k).
Definition d_ep (n k : Z) : D := dofZ (n * 10 ^ k).

(** [ABS], [MIN] and [MAX] of ref_defs.h, [ref_math_divisible] of ref_math.h. *)
Definition dABS (a : D) : D := if dofZ 0 <?! a then a else -! a.
Definition dMIN (a b : D) : D := if a <?! b then a else b.
Definition dMAX (a b : D) : D := if b <?! a then a else b.
Definition ref_math_divisible (n d : D) : bool := dABS n <?! dABS (d_ep 1 20 *! d).
End macros.

(** ** IEEE double precision *)

Definition sf_isfinite (x : spec_float) : bool :=
  match x with
  | S754_zero _ | S754_finite _ _ _ => true
  | S754_infinity _ | S754_nan => false
  end.

Definition binary64 (libm_log libm_exp : spec_float -> spec_float) : Dbl spec_float := {|
  dofZ z := binary_normalize 53 1024 z 0 false;
  dadd := SFadd 53 1024;
  dsub := SFsub 53 1024;
  dmul := SFmul 53 1024;
  ddiv := SFdiv 53 1024;
  dopp := SFopp;
  dsqrt := SFsqrt 53 1024;
  dlog := libm_log;
  dexp := libm_exp;
  dltb := SFltb;
  dleb := SFleb;
  disfinite := sf_isfinite
|}.

(** ** Exact arithmetic *)

Class DblField (D : Type) `{Dbl D} := {
  dinv : D -> D;
  dbl_field : field_theory (dofZ 0) (dofZ 1) dadd dmul dsub dopp ddiv dinv (@eq D);
  dltb_irrefl x : (x <?! x) = false;
  dltb_opp x : (dofZ 0 <?! x) = false -> (-! x <?! dofZ 0) = false;
  dltb_asym x y : (x <?! y) = true -> (y <?! x) = false
}.

Definition Qcltb (x y : Qc) : bool :=
  match Qccompare x y with Lt => true | _ => false end.

Definition rational (sqrt log exp : Qc -> Qc) : Dbl Qc := {|
  dofZ z := Q2Qc (inject_Z z);
  dadd := Qcplus;
  dsub := Qcminus;
  dmul := Qcmult;
  ddiv := Qcdiv;
  dopp := Qcopp;
  dsqrt := sqrt;
  dlog := log;
  dexp := exp;
  dltb := Qcltb;
  dleb x y := negb (Qcltb y x);
  disfinite _ := true
|}.

Lemma Qcltb_lt x y : Qcltb x y = true <-> (x < y)%Qc.
Proof.
  unfold Qcltb, Qclt, Qccompare. rewrite Qlt_alt. destruct (_ ?= _)%Q; split; congruence.
Qed.

Lemma Qcltb_ge x y : Qcltb x y = false <-> (y <= x)%Qc.
Proof.
  rewrite <- not_true_iff_false, Qcltb_lt. split; [apply Qcnot_lt_le|apply Qcle_not_lt].
Qed.

Lemma rational_field sqrt log exp : @DblField Qc (rational sqrt log exp).
Proof.
  unshelve econstructor; cbn.
  - exact Qcinv.
  - exact Qcft.
  - intros x. apply Qcltb_ge, Qcle_refl.
  - intros x. rewrite !Qcltb_ge. intros Hx.
    apply (Qcopp_le_compat x 0%Qc) in Hx. exact Hx.
  - intros x y. rewrite Qcltb_lt, Qcltb_ge. apply Qclt_le_weak.
Qed.

(** The integers are where they should be. *)
Class DblChar0 (D : Type) `{Dbl D} := {
  dofZ_add x y : dofZ (x + y) = dofZ x +! dofZ y;
  dofZ_nonzero z : z <> 0 -> dofZ z <> dofZ 0
}.

Lemma rational_char0 sqrt log exp : @DblChar0 Qc (rational sqrt log exp).
Proof.
  constructor; cbn.
  - intros x y. apply Qc_is_canon. cbn. rewrite !Qred_correct. by rewrite inject_Z_plus.
  - intros z Hz Heq. apply Hz. apply Q2Qc_eq_iff in Heq. unfold Qeq in Heq. cbn in Heq. lia.
Qed.

(** Division by what the macro accepts is division by a non-zero number. *)
Section exact.
Context {D : Type} `{DblField D}.

Add Field dbl_field_exact : dbl_field.

Lemma dABS_nonneg x : (dABS x <?! dofZ 0) = false.
Proof.
  unfold dABS. destruct (dofZ 0 <?! x) eqn:Hx; [by apply dltb_asym|by apply dltb_opp].
Qed.

Lemma dABS_zero : dABS (dofZ 0) = dofZ 0.
Proof. unfold dABS. rewrite dltb_irrefl. ring. Qed.

Lemma divisible_nonzero n d : ref_math_divisible n d = true -> d <> dofZ 0.
Proof.
  unfold ref_math_divisible. intros Hd ->.
  replace (d_ep 1 20 *! dofZ 0) with (dofZ 0) in Hd by ring.
  rewrite dABS_zero, dABS_nonneg in Hd. done.
Qed.
End exact.
