(* ===== verification/Bytes.v ===== *)
(** * Values as bytes

    Binary files hold the representation of integers and of floating-point numbers in
    memory. The model is that of a little-endian machine with 32-bit [int] and
    64-bit [long]; the macros of ref_endian.h reverse the bytes of a variable. *)
From S2P Require Import Prelude RefDbl.
From stdpp Require Import prelude list.
From Stdlib Require Import ZArith Lia SpecFloat.
Open Scope Z_scope.
Open Scope ref_scope.

(** ** Integers *)

Fixpoint le_bytes (n : nat) (z : Z) : list Z :=
  match n with
  | O => []
  | S n => z mod 256 :: le_bytes n (z / 256)
  end.
Definition le_value (l : list Z) : Z := foldr (fun b v => b + 256 * v) 0 l.

(** The signed integer of [w] bits with the low bits of [v]. *)
Definition wrap (w v : Z) : Z := (v + 2 ^ (w - 1)) mod 2 ^ w - 2 ^ (w - 1).

(** [SWAP_INT] and [SWAP_LONG] *)
Definition swap_int (x : Z) : Z := wrap 32 (le_value (rev (le_bytes 4 x))).
Definition swap_long (x : Z) : Z := wrap 64 (le_value (rev (le_bytes 8 x))).
(** [SWAP_DBL], on the representation of the variable. *)
Definition swap_dbl (x : list Z) : list Z := rev x.

Lemma length_le_bytes n z : length (le_bytes n z) = n.
Proof. revert z. induction n as [|n IH]; intros z; cbn; [done|by rewrite IH]. Qed.

Lemma le_bytes_range n z : Forall (fun b => 0 <= b < 256) (le_bytes n z).
Proof.
  revert z. induction n as [|n IH]; intros z; cbn; [apply Forall_nil_2|]. apply Forall_cons. split; [|apply IH].
  apply Z.mod_pos_bound. lia.
Qed.

Lemma le_value_bytes n z : le_value (le_bytes n z) = z mod 256 ^ Z.of_nat n.
Proof.
  revert z. induction n as [|n IH]; intros z; cbn [le_bytes le_value foldr]; [by rewrite Z.mod_1_r|].
  fold (le_value (le_bytes n (z / 256))). rewrite IH, Nat2Z.inj_succ, Z.pow_succ_r by lia.
  rewrite Z.rem_mul_r by lia. done.
Qed.

Lemma le_bytes_mod n z z' : z mod 256 ^ Z.of_nat n = z' mod 256 ^ Z.of_nat n -> le_bytes n z = le_bytes n z'.
Proof.
  revert z z'. induction n as [|n IH]; intros z z' Hm; cbn [le_bytes]; [done|].
  rewrite Nat2Z.inj_succ, Z.pow_succ_r, !Z.rem_mul_r in Hm by lia.
  pose proof (Z.mod_pos_bound z 256 ltac:(lia)). pose proof (Z.mod_pos_bound z' 256 ltac:(lia)).
  f_equal; [lia|]. apply IH. lia.
Qed.

Lemma le_bytes_value l : Forall (fun b => 0 <= b < 256) l -> le_bytes (length l) (le_value l) = l.
Proof.
  induction 1 as [|b l Hb Hl IH]; [done|]. cbn [length le_bytes le_value foldr]. fold (le_value l).
  assert ((b + 256 * le_value l) / 256 = le_value l) as -> by (symmetry; apply (Z.div_unique _ _ _ b); lia).
  assert ((b + 256 * le_value l) mod 256 = b) as -> by (symmetry; apply (Z.mod_unique _ _ (le_value l)); lia).
  by rewrite IH.
Qed.

Lemma wrap_id w v : 0 < w -> - 2 ^ (w - 1) <= v < 2 ^ (w - 1) -> wrap w v = v.
Proof.
  intros Hw Hv. unfold wrap. assert (2 ^ w = 2 * 2 ^ (w - 1)) as -> by (rewrite <- Z.pow_succ_r by lia; f_equal; lia).
  rewrite Z.mod_small by lia. lia.
Qed.

Lemma wrap_mod w v v' : 0 < w -> v mod 2 ^ w = v' mod 2 ^ w -> wrap w v = wrap w v'.
Proof.
  intros Hw Hm. unfold wrap. assert (0 < 2 ^ w) by (apply Z.pow_pos_nonneg; lia).
  by rewrite <- (Z.add_mod_idemp_l v), <- (Z.add_mod_idemp_l v'), Hm by lia.
Qed.

Lemma wrap_low w v : 0 < w -> wrap w v mod 2 ^ w = v mod 2 ^ w.
Proof.
  intros Hw. unfold wrap. assert (0 < 2 ^ w) by (apply Z.pow_pos_nonneg; lia).
  rewrite Zminus_mod_idemp_l. f_equal. lia.
Qed.

(** An integer is read back from its bytes, and from the reversed ones after the swap. *)
Lemma bytes_of_wrap n w v : w = 8 * Z.of_nat n -> 0 < w -> le_bytes n (wrap w v) = le_bytes n v.
Proof.
  intros -> Hw. apply le_bytes_mod. change 256 with (2 ^ 8). rewrite <- Z.pow_mul_r by lia. by apply wrap_low.
Qed.

Lemma wrap_bytes n w v : w = 8 * Z.of_nat n -> 0 < w -> wrap w (le_value (le_bytes n v)) = wrap w v.
Proof.
  intros -> Hw. apply wrap_mod; [done|]. rewrite le_value_bytes. change 256 with (2 ^ 8).
  rewrite <- Z.pow_mul_r by lia. apply Z.mod_mod. apply Z.pow_nonzero; lia.
Qed.

Lemma rev_bytes n w l : w = 8 * Z.of_nat n -> 0 < w -> length l = n -> Forall (fun b => 0 <= b < 256) l ->
  le_bytes n (wrap w (le_value l)) = l.
Proof. intros Hw Hpos Hl Hb. rewrite bytes_of_wrap by done. subst n. by apply le_bytes_value. Qed.

(** What is written for an integer, in one of the four formats. *)
Definition int_size (fat : bool) : nat := if fat then 8 else 4.
Definition int_bytes (swap fat : bool) (z : Z) : list Z :=
  let b := le_bytes (int_size fat) z in if swap then rev b else b.

Lemma length_int_bytes swap fat z : length (int_bytes swap fat z) = int_size fat.
Proof. unfold int_bytes. destruct swap; rewrite ?length_rev; apply length_le_bytes. Qed.

Lemma int_bytes_range swap fat z : Forall (fun b => 0 <= b < 256) (int_bytes swap fat z).
Proof.
  unfold int_bytes. pose proof (le_bytes_range (int_size fat) z) as Hl. destruct swap; [|done].
  rewrite Forall_forall in *. intros b. rewrite list_elem_of_In, <- in_rev, <- list_elem_of_In. apply Hl.
Qed.

Lemma int_in_range z : REF_INT_MIN <= z <= REF_INT_MAX -> wrap 32 z = z.
Proof. intros Hz. apply wrap_id; [lia|]. unfold REF_INT_MIN, REF_INT_MAX in Hz. change (2 ^ (32 - 1)) with 2147483648. lia. Qed.
Lemma long_in_range z : REF_INT_MIN <= z <= REF_INT_MAX -> wrap 64 z = z.
Proof. intros Hz. apply wrap_id; [lia|]. unfold REF_INT_MIN, REF_INT_MAX in Hz. change (2 ^ (64 - 1)) with 9223372036854775808. lia. Qed.

Lemma swap_int_bytes z : le_bytes 4 (swap_int z) = rev (le_bytes 4 z).
Proof.
  unfold swap_int. apply rev_bytes; [done|done|by rewrite length_rev, length_le_bytes|].
  exact (int_bytes_range true false z).
Qed.
Lemma swap_long_bytes z : le_bytes 8 (swap_long z) = rev (le_bytes 8 z).
Proof.
  unfold swap_long. apply rev_bytes; [done|done|by rewrite length_rev, length_le_bytes|].
  exact (int_bytes_range true true z).
Qed.

(** The value read from four or eight bytes of the file. *)
Definition read_int (swap : bool) (b : list Z) : Z :=
  let v := wrap 32 (le_value b) in if swap then swap_int v else v.
Definition read_long (swap : bool) (b : list Z) : Z :=
  let v := wrap 64 (le_value b) in wrap 32 (if swap then swap_long v else v).

Lemma read_int_bytes swap z : REF_INT_MIN <= z <= REF_INT_MAX -> read_int swap (int_bytes swap false z) = z.
Proof.
  intros Hz. unfold read_int, int_bytes, int_size. destruct swap.
  - unfold swap_int. rewrite rev_bytes; [|done|done|by rewrite length_rev, length_le_bytes|exact (int_bytes_range true false z)].
    rewrite rev_involutive, wrap_bytes by done. by apply int_in_range.
  - rewrite wrap_bytes by done. by apply int_in_range.
Qed.
Lemma read_long_bytes swap z : REF_INT_MIN <= z <= REF_INT_MAX -> read_long swap (int_bytes swap true z) = z.
Proof.
  intros Hz. unfold read_long, int_bytes, int_size. destruct swap.
  - unfold swap_long. rewrite rev_bytes; [|done|done|by rewrite length_rev, length_le_bytes|exact (int_bytes_range true true z)].
    rewrite rev_involutive, wrap_bytes, long_in_range by done. by apply int_in_range.
  - rewrite wrap_bytes, long_in_range by done. by apply int_in_range.
Qed.

(** ** Floating-point numbers

    The eight bytes of a [REF_DBL]; [dbl_rep] are the values that have a
    representation. *)
Class DblBytes (D : Type) := {
  dbl_bytes : D -> list Z;
  bytes_dbl : list Z -> D;
  dbl_rep : D -> Prop;
  length_dbl_bytes x : length (dbl_bytes x) = 8%nat;
  bytes_dbl_bytes x : dbl_rep x -> bytes_dbl (dbl_bytes x) = x
}.

(** The format binary64 of IEEE 754: sign, eleven bits of exponent, 52 of fraction. *)
Definition bits64 (x : spec_float) : Z :=
  let sign (s : bool) := if s then 2 ^ 63 else 0 in
  match x with
  | S754_zero s => sign s
  | S754_infinity s => sign s + 2047 * 2 ^ 52
  | S754_nan => 2047 * 2 ^ 52 + 2 ^ 51
  | S754_finite s m e =>
      if Z.pos m <? 2 ^ 52 then sign s + Z.pos m
      else sign s + (e + 1075) * 2 ^ 52 + (Z.pos m - 2 ^ 52)
  end.

Definition float64 (b : Z) : spec_float :=
  let s := 2 ^ 63 <=? b in
  let e := (b / 2 ^ 52) mod 2048 in
  let f := b mod 2 ^ 52 in
  if e =? 2047 then if f =? 0 then S754_infinity s else S754_nan
  else if e =? 0 then match f with Z.pos m => S754_finite s m (-1074) | _ => S754_zero s end
  else match f + 2 ^ 52 with Z.pos m => S754_finite s m (e - 1075) | _ => S754_zero s end.

Lemma digits_bound m k : (digits2_pos m <=? k)%positive = true <-> Z.pos m < 2 ^ Z.pos k.
Proof.
  assert (Hd : digits2_pos m = Pos.size m) by (induction m as [m IH|m IH|]; cbn; rewrite ?IH; done).
  rewrite Hd, Pos.leb_le. split.
  - intros Hk. pose proof (Pos.size_gt m) as Hg. apply Pos2Z.pos_lt_pos in Hg. rewrite Pos2Z.inj_pow in Hg.
    eapply Z.lt_le_trans; [exact Hg|]. apply Z.pow_le_mono_r; lia.
  - intros Hm. destruct (Pos.leb_spec (Pos.size m) k) as [|Hgt]; [done|]. exfalso.
    pose proof (Pos.size_le m) as Hl. apply Pos2Z.pos_le_pos in Hl. rewrite Pos2Z.inj_pow, (Pos2Z.inj_xO m) in Hl.
    assert (2 ^ (Z.pos k + 1) <= 2 ^ Z.pos (Pos.size m)) by (apply Z.pow_le_mono_r; lia).
    rewrite Z.pow_add_r, Z.pow_1_r in * by lia. change (Z.pos 2) with 2 in Hl. lia.
Qed.

Lemma bounded_cases m e : bounded 53 1024 m e = true ->
  (Z.pos m < 2 ^ 52 /\ e = -1074) \/ (2 ^ 52 <= Z.pos m < 2 ^ 53 /\ -1074 <= e <= 971).
Proof.
  unfold bounded, canonical_mantissa, fexp, SpecFloat.emin. rewrite andb_true_iff, Z.eqb_eq, Z.leb_le. intros [Hc He].
  pose proof (digits_bound m 52) as H52. pose proof (digits_bound m 53) as H53. rewrite Pos.leb_le in H52, H53.
  change (Z.pos 52) with 52 in H52. change (Z.pos 53) with 53 in H53.
  destruct (Z.lt_ge_cases (Z.pos m) (2 ^ 52)) as [Hm|Hm]; [left|right].
  - split; [done|]. apply H52 in Hm. lia.
  - assert (~ (digits2_pos m <= 52)%positive) by (rewrite H52; lia).
    split; [split; [done|apply H53; lia]|lia].
Qed.

(** The three fields are recovered. *)
Lemma float64_fields (s : bool) e f : 0 <= e < 2048 -> 0 <= f < 2 ^ 52 ->
  let b := (if s then 2 ^ 63 else 0) + e * 2 ^ 52 + f in
  (2 ^ 63 <=? b) = s /\ (b / 2 ^ 52) mod 2048 = e /\ b mod 2 ^ 52 = f /\ 0 <= b < 2 ^ 64.
Proof.
  intros He Hf b. change (2 ^ 63) with (2048 * 2 ^ 52) in *. change (2 ^ 64) with (4096 * 2 ^ 52).
  set (p := 2 ^ 52) in *. assert (0 < p) by done. clearbody p.
  assert (Hb : b = ((if s then 2048 else 0) + e) * p + f) by (unfold b; destruct s; lia). clearbody b. subst b.
  split; [destruct s; [apply Z.leb_le|apply Z.leb_gt]; nia|].
  rewrite Z.div_add_l, (Z.div_small f), Z.add_0_r by lia. split; [|split; [|destruct s; nia]].
  - destruct s; [|by rewrite Z.mod_small]. rewrite Z.add_comm. rewrite <- (Z.mul_1_l 2048) at 1. rewrite Z.mod_add by lia. by apply Z.mod_small.
  - rewrite Z.add_comm, Z.mod_add by lia. by apply Z.mod_small.
Qed.

Lemma float64_bits x : valid_binary 53 1024 x = true -> float64 (bits64 x) = x /\ 0 <= bits64 x < 2 ^ 64.
Proof.
  destruct x as [s|s| |s m e]; intros Hx.
  - destruct s; vm_compute; done.
  - destruct s; vm_compute; done.
  - vm_compute. done.
  - apply bounded_cases in Hx as [[Hm ->]|[Hm He]]; unfold bits64.
    + rewrite (proj2 (Z.ltb_lt _ _) Hm).
      destruct (float64_fields s 0 (Z.pos m) ltac:(lia) ltac:(lia)) as (Hs & He & Hf & Hb).
      rewrite Z.mul_0_l, Z.add_0_r in *. split; [|done]. unfold float64. by rewrite Hs, He, Hf.
    + rewrite (proj2 (Z.ltb_ge _ _)) by lia.
      destruct (float64_fields s (e + 1075) (Z.pos m - 2 ^ 52) ltac:(lia) ltac:(lia)) as (Hs & He' & Hf & Hb).
      split; [|done]. unfold float64. rewrite Hs, He', Hf.
      destruct (Z.eqb_spec (e + 1075) 2047); [lia|]. destruct (Z.eqb_spec (e + 1075) 0); [lia|].
      rewrite Z.sub_add. f_equal. lia.
Qed.

#[global, program] Instance binary64_bytes : DblBytes spec_float := {|
  dbl_bytes x := le_bytes 8 (bits64 x);
  bytes_dbl l := float64 (le_value l);
  dbl_rep x := valid_binary 53 1024 x = true
|}.
Next Obligation. intros x. apply length_le_bytes. Qed.
Next Obligation.
  intros x Hx. destruct (float64_bits x Hx) as [Hf Hb]. cbn beta. rewrite le_value_bytes.
  change (256 ^ Z.of_nat 8) with (2 ^ 64). by rewrite Z.mod_small.
Qed.

(** ** Files

    A file that is read is the list of the bytes from the current position on; a file
    that is written, the bytes so far. [fread] of [n] items fails when the file is too
    short for all of them. *)
Fixpoint blocks (size n : nat) (l : list Z) : list (list Z) :=
  match n with
  | O => []
  | S n => take size l :: blocks size n (drop size l)
  end.

Definition fread (size : nat) (n : Z) (file : list Z) : option (list (list Z) * list Z) :=
  if Z.of_nat size * n <=? zlen file
  then Some (blocks size (Z.to_nat n) file, drop (size * Z.to_nat n) file) else None.

Lemma blocks_concat size ls rest :
  Forall (fun b => length b = size) ls -> blocks size (length ls) (concat ls ++ rest) = ls.
Proof.
  induction 1 as [|b ls Hb Hls IH]; [done|]. cbn [length blocks concat]. rewrite <- app_assoc, <- Hb.
  rewrite take_app_length, drop_app_length. by rewrite Hb, IH.
Qed.

Lemma fread_concat size n ls rest :
  Forall (fun b => length b = size) ls -> zlen ls = n -> fread size n (concat ls ++ rest) = Some (ls, rest).
Proof.
  intros Hls <-. assert (Hz : length (concat ls) = (size * length ls)%nat).
  { clear -Hls. induction Hls as [|b ls Hb Hls IH]; cbn [concat length]; [lia|]. rewrite length_app. lia. }
  unfold fread, zlen. rewrite length_app, Hz, Nat2Z.id.
  rewrite (proj2 (Z.leb_le _ _)) by lia. rewrite blocks_concat by done. do 2 f_equal. rewrite <- Hz. apply drop_app_length.
Qed.
