(* ===== verification/RefMatrix.v ===== *)
(** * ref_matrix.c: dense and symmetric 3x3 matrices

    A symmetric matrix is its six upper entries, an eigensystem the twelve
    numbers [eig(0..2)], [vec(xyz, v)], a general matrix its entries in
    column order. An output array is returned with the status; a function that
    writes all of it takes no input for it. The definitions run on doubles
    ([binary64]); the theorems on what [ref_matrix_inv_gen] and the others
    compute are over exact arithmetic ([DblField]). Indices are not checked
    against [REF_INT]: every caller has at most seven columns. Printing
    ([ref_matrix_show_*]) has no model. *)
From S2P Require Import Prelude RefDbl.
From stdpp Require Import prelude list.
From Stdlib Require Import ZArith Lia SpecFloat QArith Qcanon Field.
Open Scope Z_scope.
Open Scope ref_scope.
Open Scope dbl_scope.

Definition ref_matrix_vec (xyz v : Z) : Z := xyz + 3 + 3 * v.

Section matrix.
Context {D : Type} `{Dbl D, Junk D}.

(** [gridSign(a, b)] *)
Definition gridSign (a b : D) : D := if dofZ 0 <=?! b then dABS a else -! (dABS a).

(** One rotation that makes [m] tridiagonal: [d] and [e]. *)
Definition tridiagonal (m : list D) : option (list D * list D) :=
  let* m0 := aget m 0 in let* m1 := aget m 1 in let* m2 := aget m 2 in
  let* m3 := aget m 3 in let* m4 := aget m 4 in let* m5 := aget m 5 in
  let L := dsqrt (m1 *! m1 +! m2 *! m2) in
  if ref_math_divisible m1 L && ref_math_divisible m2 L then
    let u := m1 /! L in
    let v := m2 /! L in
    let s := dofZ 2 *! u *! m4 +! v *! (m5 -! m3) in
    Some ([m0; m3 +! v *! s; m5 -! v *! s;
           dofZ 1; dofZ 0; dofZ 0;
           dofZ 0; u; v;
           dofZ 0; v; -! u],
          [L; m4 -! u *! s; dofZ 0])
  else
    Some ([m0; m3; m5;
           dofZ 1; dofZ 0; dofZ 0;
           dofZ 0; dofZ 1; dofZ 0;
           dofZ 0; dofZ 0; dofZ 1],
          [m1; m4; dofZ 0]).

(** One row of the QL sweep from [mm] up to [l]; the state is
    [(d, e, c, c2, c3, s, s2, p)]. *)
Definition ql_row (mm ii : Z) (st : list D * list D * D * D * D * D * D * D)
    : option (list D * list D * D * D * D * D * D * D) :=
  let '(d, e, c, c2, c3, s, s2, p) := st in
  let c3 := c2 in
  let c2 := c in
  let s2 := s in
  let i := mm - ii - 1 in
  let* ei := aget e i in
  let g := c *! ei in
  let h := c *! p in
  let r := dsqrt (p *! p +! ei *! ei) in
  let* e := aset e (i + 1) (s *! r) in
  let* ei := aget e i in
  let s := ei /! r in
  let c := p /! r in
  let* di := aget d i in
  let p := c *! di -! s *! g in
  let* di := aget d i in
  let* d := aset d (i + 1) (h +! s *! (c *! g +! s *! di)) in
  let* d :=
    for_up 0 3 (fun k d =>
      let* h := aget d (ref_matrix_vec k (i + 1)) in
      let* vi := aget d (ref_matrix_vec k i) in
      let* d := aset d (ref_matrix_vec k (i + 1)) (s *! vi +! c *! h) in
      let* vi := aget d (ref_matrix_vec k i) in
      aset d (ref_matrix_vec k i) (c *! vi -! s *! h)) d in
  Some (d, e, c, c2, c3, s, s2, p).

(** The body of [do ... while (REF_TRUE)]; the state is
    [(j, d, e, f, c3, s2)] and [Exit (None, ..)] reports no convergence. *)
Definition ql_iteration (l mm : Z) (tst1 : D) (st : Z * list D * list D * D * D * D)
    : option (ctl (Z * list D * list D * D * D * D)
                  (bool * (list D * list D * D * D * D))) :=
  let '(j, d, e, f, c3, s2) := st in
  let j := j + 1 in
  if 30 <? j then Some (Exit (false, (d, e, f, c3, s2)))
  else
    let l1 := l + 1 in
    let l2 := l1 + 1 in
    let* g := aget d l in
    let* dl1 := aget d l1 in
    let* el := aget e l in
    let p := (dl1 -! g) /! (dofZ 2 *! el) in
    let r := dsqrt (p *! p +! dofZ 1) in
    let* d := aset d l (el /! (p +! gridSign r p)) in
    let* d := aset d l1 (el *! (p +! gridSign r p)) in
    let* dl1 := aget d l1 in
    let* dl := aget d l in
    let h := g -! dl in
    let* d :=
      if l2 <=? 2 then
        for_up l2 3 (fun i d => let* di := aget d i in aset d i (di -! h)) d
      else Some d in
    let f := f +! h in
    let* p := aget d mm in
    let c := dofZ 1 in
    let c2 := c in
    let* el1 := aget e l1 in
    let s := dofZ 0 in
    let mml := mm - l in
    let* '(d, e, c, c2, c3, s, s2, p) :=
      for_up 0 mml (ql_row mm) (d, e, c, c2, c3, s, s2, p) in
    let* el := aget e l in
    let p := -! s *! s2 *! c3 *! el1 *! el /! dl1 in
    let* e := aset e l (s *! p) in
    let* d := aset d l (c *! p) in
    let* el := aget e l in
    let tst2 := tst1 +! dABS el in
    if dABS (tst2 -! tst1) <?! d_em 1 14 then Some (Exit (true, (d, e, f, c3, s2)))
    else Some (Next (j, d, e, f, c3, s2)).

(** The body of the loop over rows; the state is [(d, e, f, tst1, c3, s2)]. *)
Definition ql_row_loop (l : Z) (st : list D * list D * D * D * D * D)
    : option (ctl (list D * list D * D * D * D * D) (list D)) :=
  let '(d, e, f, tst1, c3, s2) := st in
  let* dl := aget d l in
  let* el := aget e l in
  let h := dABS dl +! dABS el in
  let tst1 := if tst1 <?! h then h else tst1 in
  let* c :=
    forx_up l 3 (fun mm (_ : unit) =>
      let* emm := aget e mm in
      let tst2 := tst1 +! dABS emm in
      if dABS (tst2 -! tst1) <?! d_em 1 14 then Some (Exit mm) else Some (Next tt)) tt in
  let mm := match c with Exit mm => mm | Next _ => 3 end in
  let* '(converged, (d, e, f, c3, s2)) :=
    if negb (mm =? l) then loop 32 (ql_iteration l mm tst1) (0, d, e, f, c3, s2)
    else Some (true, (d, e, f, c3, s2)) in
  if converged : bool then
    let* dl := aget d l in
    let* d := aset d l (dl +! f) in
    Some (Next (d, e, f, tst1, c3, s2))
  else Some (Exit d).

(** The array is the eigensystem. *)
Definition ref_matrix_diag_m (m : list D) : option (REF_STATUS * list D) :=
  let* m0 := aget m 0 in let* m1 := aget m 1 in let* m2 := aget m 2 in
  let* m3 := aget m 3 in let* m4 := aget m 4 in let* m5 := aget m 5 in
  if negb (disfinite m0) || negb (disfinite m1) || negb (disfinite m2) ||
     negb (disfinite m3) || negb (disfinite m4) || negb (disfinite m5)
  then Some (REF_INVALID, alloc 12)
  else
    let* '(d, e) := tridiagonal m in
    let* c := forx_up 0 3 ql_row_loop (d, e, dofZ 0, dofZ 0, dofZ 0, dofZ 0) in
    match c with
    | Next (d, _, _, _, _, _) => Some (REF_SUCCESS, d)
    | Exit d => Some (REF_FAILURE, d)
    end.
End matrix.

(** ** Symmetric matrices *)

Section sym.
Context {D : Type} `{Dbl D, Junk D}.
Local Notation zero := (dofZ 0).
Local Notation one := (dofZ 1).

(** Reading the entries a straight-line function names. *)
Definition with3 {A} (v : list D) (k : D -> D -> D -> option A) : option A :=
  let* v0 := aget v 0 in let* v1 := aget v 1 in let* v2 := aget v 2 in k v0 v1 v2.
Definition with6 {A} (m : list D) (k : D -> D -> D -> D -> D -> D -> option A) : option A :=
  with3 m (fun m0 m1 m2 =>
  let* m3 := aget m 3 in let* m4 := aget m 4 in let* m5 := aget m 5 in
  k m0 m1 m2 m3 m4 m5).
Definition with9 {A} (a : list D)
    (k : D -> D -> D -> D -> D -> D -> D -> D -> D -> option A) : option A :=
  with6 a (fun a0 a1 a2 a3 a4 a5 =>
  let* a6 := aget a 6 in let* a7 := aget a 7 in let* a8 := aget a 8 in
  k a0 a1 a2 a3 a4 a5 a6 a7 a8).
Definition with12 {A} (d : list D)
    (k : D -> D -> D -> D -> D -> D -> D -> D -> D -> D -> D -> D -> option A) : option A :=
  with9 d (fun d0 d1 d2 d3 d4 d5 d6 d7 d8 =>
  let* d9 := aget d 9 in let* d10 := aget d 10 in let* d11 := aget d 11 in
  k d0 d1 d2 d3 d4 d5 d6 d7 d8 d9 d10 d11).

(** The macro [ref_matrix_vt_m_v] of ref_matrix.h. *)
Definition ref_matrix_vt_m_v (m v : list D) : option D :=
  with6 m (fun m0 m1 m2 m3 m4 m5 => with3 v (fun v0 v1 v2 =>
  Some (v0 *! (m0 *! v0 +! m1 *! v1 +! m2 *! v2) +!
        v1 *! (m1 *! v0 +! m3 *! v1 +! m4 *! v2) +!
        v2 *! (m2 *! v0 +! m4 *! v1 +! m5 *! v2)))).

(** The pairs are [*f] and [df_dv]. *)
Definition ref_matrix_sqrt_vt_m_v_deriv (m v : list D) : option (REF_STATUS * (D * list D)) :=
  with6 m (fun m0 m1 m2 m3 m4 m5 => with3 v (fun v0 v1 v2 =>
  let half := d_em 5 1 in
  let f := dsqrt (v0 *! (m0 *! v0 +! m1 *! v1 +! m2 *! v2) +!
                  v1 *! (m1 *! v0 +! m3 *! v1 +! m4 *! v2) +!
                  v2 *! (m2 *! v0 +! m4 *! v1 +! m5 *! v2)) in
  Some (REF_SUCCESS,
    (f,
     [half /! f *! (v0 *! m0 +! (m0 *! v0 +! m1 *! v1 +! m2 *! v2) +! v1 *! m1 +! v2 *! m2);
      half /! f *! (v0 *! m1 +! v1 *! m3 +! (m1 *! v0 +! m3 *! v1 +! m4 *! v2) +! v2 *! m4);
      half /! f *! (v0 *! m2 +! v1 *! m4 +! v2 *! m5 +! (m2 *! v0 +! m4 *! v1 +! m5 *! v2))])))).

Definition ref_matrix_vt_m_v_deriv (m v : list D) : option (REF_STATUS * (D * list D)) :=
  with6 m (fun m0 m1 m2 m3 m4 m5 => with3 v (fun v0 v1 v2 =>
  Some (REF_SUCCESS,
    (v0 *! (m0 *! v0 +! m1 *! v1 +! m2 *! v2) +!
     v1 *! (m1 *! v0 +! m3 *! v1 +! m4 *! v2) +!
     v2 *! (m2 *! v0 +! m4 *! v1 +! m5 *! v2),
     [(m0 *! v0 +! m1 *! v1 +! m2 *! v2) +! v0 *! m0 +! v1 *! m1 +! v2 *! m2;
      (m1 *! v0 +! m3 *! v1 +! m4 *! v2) +! v0 *! m1 +! v1 *! m3 +! v2 *! m4;
      (m2 *! v0 +! m4 *! v1 +! m5 *! v2) +! v0 *! m2 +! v1 *! m4 +! v2 *! m5])))).

Definition ref_matrix_det_m2 (m : list D) : option (REF_STATUS * D) :=
  with3 m (fun m0 m1 m2 => Some (REF_SUCCESS, m0 *! m2 -! m1 *! m1)).

(** Exchange two eigenvectors, the loop of [ref_matrix_descending_eig]. *)
Definition swap_vec (a b : Z) (d : list D) : option (list D) :=
  for_up 0 3 (fun i d =>
    let* temp := aget d (ref_matrix_vec i a) in
    let* vb := aget d (ref_matrix_vec i b) in
    let* d := aset d (ref_matrix_vec i a) vb in
    aset d (ref_matrix_vec i b) temp) d.
Definition swap_if_greater (a b : Z) (d : list D) : option (list D) :=
  let* ea := aget d a in
  let* eb := aget d b in
  if ea <?! eb then
    let* d := aset d a eb in
    let* d := aset d b ea in
    swap_vec a b d
  else Some d.

Definition ref_matrix_descending_eig (d : list D) : option (REF_STATUS * list D) :=
  let* d := swap_if_greater 0 1 d in
  let* d := swap_if_greater 0 2 d in
  let* d := swap_if_greater 1 2 d in
  Some (REF_SUCCESS, d).

Definition ref_matrix_descending_eig_twod (d : list D) : option (REF_STATUS * list D) :=
  let* '(best_dot, zdir) :=
    for_up 0 3 (fun i '(best_dot, zdir) =>
      let* v0 := aget d (ref_matrix_vec 0 i) in
      let* v1 := aget d (ref_matrix_vec 1 i) in
      let* v2 := aget d (ref_matrix_vec 2 i) in
      let dot := dABS (zero *! v0 +! zero *! v1 +! one *! v2) in
      if best_dot <?! dot then Some (dot, i) else Some (best_dot, zdir))
      (-! dofZ 2, REF_EMPTY) in
  RAS (negb (REF_EMPTY =? zdir)) d (
  let* d :=
    if negb (2 =? zdir) then
      let* temp := aget d 2 in
      let* ez := aget d zdir in
      let* d := aset d 2 ez in
      let* d := aset d zdir temp in
      swap_vec 2 zdir d
    else Some d in
  let* d := swap_if_greater 0 1 d in
  Some (REF_SUCCESS, d)).

Definition ref_matrix_form_m (d : list D) : option (REF_STATUS * list D) :=
  with12 d (fun d0 d1 d2 d3 d4 d5 d6 d7 d8 d9 d10 d11 =>
  Some (REF_SUCCESS,
    [d3 *! d0 *! d3 +! d6 *! d1 *! d6 +! d9 *! d2 *! d9;
     d3 *! d0 *! d4 +! d6 *! d1 *! d7 +! d9 *! d2 *! d10;
     d3 *! d0 *! d5 +! d6 *! d1 *! d8 +! d9 *! d2 *! d11;
     d4 *! d0 *! d4 +! d7 *! d1 *! d7 +! d10 *! d2 *! d10;
     d4 *! d0 *! d5 +! d7 *! d1 *! d8 +! d10 *! d2 *! d11;
     d5 *! d0 *! d5 +! d8 *! d1 *! d8 +! d11 *! d2 *! d11])).

Definition ref_matrix_form_m2 (d : list D) : option (REF_STATUS * list D) :=
  with6 d (fun d0 d1 d2 d3 d4 d5 =>
  Some (REF_SUCCESS,
    [d2 *! d0 *! d2 +! d4 *! d1 *! d4;
     d2 *! d0 *! d3 +! d4 *! d1 *! d5;
     d3 *! d0 *! d3 +! d5 *! d1 *! d5])).

Definition ref_matrix_jacob_m (m : list D) : option (REF_STATUS * list D) :=
  let* '(st, d) := ref_matrix_diag_m m in
  RSS st (alloc 9) (
  with12 d (fun d0 d1 d2 d3 d4 d5 d6 d7 d8 d9 d10 d11 =>
  let d0 := dsqrt d0 in
  let d1 := dsqrt d1 in
  let d2 := dsqrt d2 in
  Some (REF_SUCCESS,
    [d0 *! d3; d0 *! d4; d0 *! d5;
     d1 *! d6; d1 *! d7; d1 *! d8;
     d2 *! d9; d2 *! d10; d2 *! d11]))).

(** Apply [f] to the three eigenvalues. *)
Definition map_eig (f : D -> D) (d : list D) : option (list D) :=
  for_up 0 3 (fun i d => let* e := aget d i in aset d i (f e)) d.

Definition ref_matrix_log_m (m : list D) : option (REF_STATUS * list D) :=
  let* '(st, d) := ref_matrix_diag_m m in
  RSS st (alloc 6) (
  let* d := map_eig dlog d in
  ref_matrix_form_m d).

Definition ref_matrix_exp_m (m : list D) : option (REF_STATUS * list D) :=
  let* '(st, d) := ref_matrix_diag_m m in
  RSS st (alloc 6) (
  let* d := map_eig dexp d in
  ref_matrix_form_m d).

(** Replace an eigenvalue by its inverse, in [ref_matrix_sqrt_m]. *)
Definition invert_eig (i : Z) (d : list D) : option (REF_STATUS * list D) :=
  let* e := aget d i in
  if negb (ref_math_divisible one e) then Some (REF_DIV_ZERO, d)
  else
    let* d := aset d i (one /! e) in
    Some (REF_SUCCESS, d).

(** From [d[0] = sqrt(d[0])] on: the pair is [sqrt_m] and [inv_sqrt_m]. *)
Definition sqrt_system (d : list D) : option (REF_STATUS * (list D * list D)) :=
  let* d := map_eig dsqrt d in
  let* '(st, sqrt_m) := ref_matrix_form_m d in
  RSS st (sqrt_m, alloc 6) (
  let* '(st, d) := invert_eig 0 d in
  RSS st (sqrt_m, alloc 6) (
  let* '(st, d) := invert_eig 1 d in
  RSS st (sqrt_m, alloc 6) (
  let* '(st, d) := invert_eig 2 d in
  RSS st (sqrt_m, alloc 6) (
  let* '(st, inv_sqrt_m) := ref_matrix_form_m d in
  RSS st (sqrt_m, inv_sqrt_m) (
  Some (REF_SUCCESS, (sqrt_m, inv_sqrt_m))))))).

Definition ref_matrix_sqrt_m (m : list D) : option (REF_STATUS * (list D * list D)) :=
  let* '(st, d) := ref_matrix_diag_m m in
  RSS st (alloc 6, alloc 6) (
  with3 d (fun d0 d1 d2 =>
  if (d0 <?! zero) || (d1 <?! zero) || (d2 <?! zero)
  then Some (REF_FAILURE, (alloc 6, alloc 6))
  else sqrt_system d)).

Definition ref_matrix_sqrt_abs_m (m : list D) : option (REF_STATUS * (list D * list D)) :=
  let* '(st, d) := ref_matrix_diag_m m in
  RSS st (alloc 6, alloc 6) (
  let* d := map_eig dABS d in
  sqrt_system d).

Definition ref_matrix_weight_m (m0 m1 : list D) (m1_weight : D)
    : option (REF_STATUS * list D) :=
  let* avg :=
    for_up 0 6 (fun i avg =>
      let* a := aget m0 i in
      let* b := aget m1 i in
      aset avg i ((one -! m1_weight) *! a +! m1_weight *! b)) (alloc 6) in
  Some (REF_SUCCESS, avg).

Definition ref_matrix_mult_m (a b : list D) : option (REF_STATUS * list D) :=
  with6 a (fun a0 a1 a2 a3 a4 a5 => with6 b (fun b0 b1 b2 b3 b4 b5 =>
  Some (REF_SUCCESS,
    [a0 *! b0 +! a1 *! b1 +! a2 *! b2;
     a1 *! b0 +! a3 *! b1 +! a4 *! b2;
     a2 *! b0 +! a4 *! b1 +! a5 *! b2;
     a0 *! b1 +! a1 *! b3 +! a2 *! b4;
     a1 *! b1 +! a3 *! b3 +! a4 *! b4;
     a2 *! b1 +! a4 *! b3 +! a5 *! b4;
     a0 *! b2 +! a1 *! b4 +! a2 *! b5;
     a1 *! b2 +! a3 *! b4 +! a4 *! b5;
     a2 *! b2 +! a4 *! b4 +! a5 *! b5]))).

Definition ref_matrix_mult_m0m1m0 (a b : list D) : option (REF_STATUS * list D) :=
  let* '(_, product) := ref_matrix_mult_m a b in
  with6 a (fun a0 a1 a2 a3 a4 a5 =>
  with9 product (fun p0 p1 p2 p3 p4 p5 p6 p7 p8 =>
  Some (REF_SUCCESS,
    [p0 *! a0 +! p3 *! a1 +! p6 *! a2;
     p0 *! a1 +! p3 *! a3 +! p6 *! a4;
     p0 *! a2 +! p3 *! a4 +! p6 *! a5;
     p1 *! a1 +! p4 *! a3 +! p7 *! a4;
     p1 *! a2 +! p4 *! a4 +! p7 *! a5;
     p2 *! a2 +! p5 *! a4 +! p8 *! a5]))).

Definition ref_matrix_vect_mult (a x : list D) : option (REF_STATUS * list D) :=
  with9 a (fun a0 a1 a2 a3 a4 a5 a6 a7 a8 => with3 x (fun x0 x1 x2 =>
  Some (REF_SUCCESS,
    [a0 *! x0 +! a1 *! x1 +! a2 *! x2;
     a3 *! x0 +! a4 *! x1 +! a5 *! x2;
     a6 *! x0 +! a7 *! x1 +! a8 *! x2]))).

(** The two functions differ in the square root and in the bound put on the
    eigenvalues. *)
Definition limit_metric (sqrt_m : list D -> option (REF_STATUS * (list D * list D)))
    (limit : D -> D) (m1 m2 : list D) : option (REF_STATUS * list D) :=
  let* '(sqrt_m1_status, (m1half, m1neghalf)) := sqrt_m m1 in
  if bool_decide (REF_DIV_ZERO = sqrt_m1_status) then
    let* m12 :=
      for_up 0 6 (fun i m12 => let* x := aget m2 i in aset m12 i x) (alloc 6) in
    Some (REF_SUCCESS, m12)
  else
    RSS sqrt_m1_status (alloc 6) (
    let* '(st, m2bar) := ref_matrix_mult_m0m1m0 m1neghalf m2 in
    RSS st (alloc 6) (
    let* '(st, m12bar_system) := ref_matrix_diag_m m2bar in
    RSS st (alloc 6) (
    let* m12bar_system := map_eig limit m12bar_system in
    let* '(st, m12bar) := ref_matrix_form_m m12bar_system in
    RSS st (alloc 6) (
    ref_matrix_mult_m0m1m0 m1half m12bar)))).

Definition ref_matrix_intersect (m1 m2 : list D) : option (REF_STATUS * list D) :=
  limit_metric ref_matrix_sqrt_m (dMAX one) m1 m2.

Definition ref_matrix_bound (m1 m2 : list D) : option (REF_STATUS * list D) :=
  limit_metric ref_matrix_sqrt_abs_m (dMIN one) m1 m2.

Definition ref_matrix_healthy_m (m : list D) : option REF_STATUS :=
  let floor := -! d_em 1 15 in
  let* '(st, system) := ref_matrix_diag_m m in
  match st with
  | REF_SUCCESS =>
      with3 system (fun e0 e1 e2 =>
      if (e0 <?! floor) || (e1 <?! floor) || (e2 <?! floor) then Some REF_FAILURE
      else Some REF_SUCCESS)
  | _ => Some st
  end.

Definition ref_matrix_twod_m (m : list D) : option (REF_STATUS * list D) :=
  let* m := aset m 2 zero in
  let* m := aset m 4 zero in
  let* m := aset m 5 one in
  Some (REF_SUCCESS, m).

(** Two by two: the eigensystem of [m]. *)
Definition ref_matrix_diag_m2 (m : list D) : option (REF_STATUS * list D) :=
  with3 m (fun m0 m1 m2 =>
  if negb (disfinite m0) || negb (disfinite m1) || negb (disfinite m2)
  then Some (REF_INVALID, alloc 6)
  else
    let half := d_em 5 1 in
    let c2 := half *! (m0 -! m2) in
    let s2 := m1 in
    let norm := dMAX (dABS c2) (dABS s2) in
    let finish c2 s2 :=
      let s := dsqrt (half *! (one -! c2)) in
      let c := half *! s2 /! s in
      let cc := c *! c in
      let ss := s *! s in
      let mid := s2 *! m1 in
      Some (REF_SUCCESS,
        [cc *! m2 -! mid +! ss *! m0; cc *! m0 +! mid +! ss *! m2; s; -! c; c; s]) in
    if ref_math_divisible c2 norm && ref_math_divisible s2 norm then
      let c2 := c2 /! norm in
      let s2 := s2 /! norm in
      let l := dsqrt (c2 *! c2 +! s2 *! s2) in
      RAS (ref_math_divisible c2 l) (alloc 6) (
      RAS (ref_math_divisible s2 l) (alloc 6) (
      let c2 := c2 /! l in
      let s2 := s2 /! l in
      if zero <?! c2 then finish (-! c2) (-! s2) else finish c2 s2))
    else finish (-! one) zero).
End sym.

(** ** General matrices *)

Section gen.
Context {D : Type} `{Dbl D, Junk D}.
Local Notation zero := (dofZ 0).
Local Notation one := (dofZ 1).

Definition ref_matrix_m_full (m : list D) : option (REF_STATUS * list D) :=
  with6 m (fun m0 m1 m2 m3 m4 m5 =>
  Some (REF_SUCCESS, [m0; m1; m2; m1; m3; m4; m2; m4; m5])).

Definition ref_matrix_full_m (full : list D) : option (REF_STATUS * list D) :=
  with9 full (fun f0 f1 f2 f3 f4 f5 f6 f7 f8 =>
  Some (REF_SUCCESS, [f0; f3; f6; f4; f7; f8])).

(** [for j, for i: out(i, j) = f i j], column by column. *)
Definition fill_matrix (rows cols : Z) (f : Z -> Z -> option D) (out : list D)
    : option (list D) :=
  for_up 0 cols (fun j out =>
    for_up 0 rows (fun i out =>
      let* x := f i j in
      aset out (i + rows * j) x) out) out.

(** [acc = init; for k: acc += f k] *)
Definition accumulate (n : Z) (init : D) (f : Z -> option D) : option D :=
  for_up 0 n (fun k acc => let* x := f k in Some (acc +! x)) init.

Definition ref_matrix_mult_gen (n : Z) (a b r : list D) : option (REF_STATUS * list D) :=
  let* r :=
    fill_matrix n n (fun i j =>
      accumulate n zero (fun k =>
        let* x := aget a (i + k * n) in
        let* y := aget b (k + j * n) in
        Some (x *! y))) r in
  Some (REF_SUCCESS, r).

Definition ref_matrix_transpose_gen (n : Z) (a at_ : list D) : option (REF_STATUS * list D) :=
  let* at_ :=
    for_up 0 n (fun j at_ =>
      for_up 0 n (fun i at_ =>
        let* x := aget a (i + n * j) in
        aset at_ (j + n * i) x) at_) at_ in
  Some (REF_SUCCESS, at_).

(** Rows of a matrix with [n] rows: exchange, scale and eliminate, over the
    columns from [lo] to [hi - 1]. *)
Definition swap_rows (n lo hi r0 r1 : Z) (a : list D) : option (list D) :=
  for_up lo hi (fun k a =>
    let* x := aget a (r0 + n * k) in
    let* y := aget a (r1 + n * k) in
    let* a := aset a (r0 + n * k) y in
    aset a (r1 + n * k) x) a.
Definition eliminate_row (n lo hi i j : Z) (scale : D) (a : list D) : option (list D) :=
  for_up lo hi (fun k a =>
    let* x := aget a (i + k * n) in
    let* y := aget a (j + k * n) in
    aset a (i + k * n) (x -! scale *! y)) a.

(** The row at or below [j] with the largest entry in column [j]. *)
Definition best_row (n j : Z) (a : list D) : option Z :=
  for_up (j + 1) n (fun k best =>
    let* x := aget a (k + n * j) in
    let* y := aget a (best + n * j) in
    Some (if dABS y <?! dABS x then k else best)) j.

(** The loop that scales row [j] of [a] and [inv]; [Exit] is the division by
    zero. *)
Definition scale_row (n j : Z) (pivot : D) (s : list D * list D)
    : option (ctl (list D * list D) (list D)) :=
  forx_up 0 n (fun k '(a, inv) =>
    let* x := aget a (j + k * n) in
    if negb (ref_math_divisible x pivot) then Some (Exit inv)
    else
      let* a := aset a (j + k * n) (x /! pivot) in
      let* y := aget inv (j + k * n) in
      if negb (ref_math_divisible y pivot) then Some (Exit inv)
      else
        let* inv := aset inv (j + k * n) (y /! pivot) in
        Some (Next (a, inv))) s.

(** The elimination loops of [ref_matrix_inv_gen], over the rows from [lo] to
    [hi - 1]. *)
Definition eliminate_rows (n lo hi j : Z) (s : list D * list D)
    : option (ctl (list D * list D) (list D)) :=
  forx_up lo hi (fun i '(a, inv) =>
    let* x := aget a (i + j * n) in
    let* y := aget a (j + j * n) in
    if negb (ref_math_divisible x y) then Some (Exit inv)
    else
      let scale := x /! y in
      let* a := eliminate_row n 0 n i j scale a in
      let* inv := eliminate_row n 0 n i j scale inv in
      Some (Next (a, inv))) s.

(** One column of the Gauss-Jordan elimination. *)
Definition inv_gen_column (n j : Z) (s : list D * list D)
    : option (ctl (list D * list D) (list D)) :=
  let '(a, inv) := s in
  let* best := best_row n j a in
  let* '(a, inv) :=
    if negb (best =? j) then
      let* a := swap_rows n 0 n j best a in
      let* inv := swap_rows n 0 n j best inv in
      Some (a, inv)
    else Some (a, inv) in
  let* pivot := aget a (j + n * j) in
  let* c := scale_row n j pivot (a, inv) in
  match c with
  | Exit inv => Some (Exit inv)
  | Next s =>
      let* c := eliminate_rows n (j + 1) n j s in
      match c with
      | Exit inv => Some (Exit inv)
      | Next s => eliminate_rows n 0 j j s
      end
  end.

Definition ref_matrix_inv_gen (n : Z) (orig inv : list D) : option (REF_STATUS * list D) :=
  let '(st, a) := ref_malloc (n * n) in
  RSS st inv (
  let* a := fill_matrix n n (fun i j => aget orig (i + n * j)) a in
  let* inv := fill_matrix n n (fun _ _ => Some zero) inv in
  let* inv := for_up 0 n (fun i inv => aset inv (i + n * i) one) inv in
  let* c := forx_up 0 n (inv_gen_column n) (a, inv) in
  match c with
  | Exit inv => Some (REF_DIV_ZERO, inv)
  | Next (_, inv) => Some (REF_SUCCESS, inv)
  end).

Definition ref_matrix_inv_m (m : list D) : option (REF_STATUS * list D) :=
  let* '(st, a) := ref_matrix_m_full m in
  RSS st (alloc 6) (
  let* '(st, inv) := ref_matrix_inv_gen 3 a (alloc 9) in
  RSS st (alloc 6) (
  ref_matrix_full_m inv)).

(** The second component is [*det]. *)
Definition ref_matrix_det_gen (n : Z) (orig : list D) : option (REF_STATUS * D) :=
  let '(st, a) := ref_malloc (n * n) in
  RSS st zero (
  let* a := fill_matrix n n (fun i j => aget orig (i + n * j)) a in
  let* c :=
    forx_up 0 n (fun j '(a, det) =>
      let* p := aget a (j + n * j) in
      let det := det *! p in
      let* c :=
        forx_up (j + 1) n (fun i a =>
          let* x := aget a (i + j * n) in
          let* y := aget a (j + j * n) in
          if negb (ref_math_divisible x y) then Some (Exit tt)
          else
            let scale := x /! y in
            let* a := eliminate_row n 0 n i j scale a in
            Some (Next a)) a in
      match c with
      | Exit _ => Some (Exit tt)
      | Next a => Some (Next (a, det))
      end) (a, one) in
  match c with
  | Exit _ => Some (REF_SUCCESS, zero)
  | Next (_, det) => Some (REF_SUCCESS, det)
  end).

Definition ref_matrix_det_m (m : list D) : option (REF_STATUS * D) :=
  let* '(st, a) := ref_matrix_m_full m in
  RSS st zero (
  ref_matrix_det_gen 3 a).

(** One column of the forward elimination of [ref_matrix_solve_ab]. *)
Definition solve_ab_column (rows cols col : Z) (s : list D * bool)
    : option (ctl (list D * bool) (list D)) :=
  let '(ab, ill_condition) := s in
  let* p := aget ab (col + rows * col) in
  let* '(largest_pivot, pivot_row) :=
    for_up (col + 1) rows (fun i '(largest_pivot, pivot_row) =>
      let* x := aget ab (i + rows * col) in
      let pivot := dABS x in
      if largest_pivot <?! pivot then Some (pivot, i) else Some (largest_pivot, pivot_row))
      (dABS p, col) in
  let* ab :=
    if negb (pivot_row =? col) then swap_rows rows col cols pivot_row col ab
    else Some ab in
  let* pivot := aget ab (col + rows * col) in
  let* c :=
    forx_up col cols (fun j '(ab, ill_condition) =>
      let* x := aget ab (col + j * rows) in
      if negb (ref_math_divisible x pivot) then Some (Exit ab)
      else
        let ill_condition := if dABS pivot <?! d_em 1 13 then true else ill_condition in
        let* ab := aset ab (col + j * rows) (x /! pivot) in
        Some (Next (ab, ill_condition))) (ab, ill_condition) in
  match c with
  | Exit ab => Some (Exit ab)
  | Next (ab, ill_condition) =>
      let* ab :=
        for_up (col + 1) rows (fun i ab =>
          let* factor := aget ab (i + col * rows) in
          for_up col cols (fun j ab =>
            let* x := aget ab (i + j * rows) in
            let* y := aget ab (col + j * rows) in
            aset ab (i + j * rows) (x -! y *! factor)) ab) ab in
      Some (Next (ab, ill_condition))
  end.

(** The back substitution for one right hand side. *)
Definition solve_ab_back (rows col : Z) (ab : list D) : option (ctl (list D) (list D)) :=
  forx_down (rows - 1) (-1) (fun row ab =>
    let* rhs := aget ab (row + col * rows) in
    let* rhs :=
      for_up (row + 1) rows (fun k rhs =>
        let* x := aget ab (row + k * rows) in
        let* y := aget ab (k + col * rows) in
        Some (rhs -! x *! y)) rhs in
    let* diag := aget ab (row + row * rows) in
    if negb (ref_math_divisible rhs diag) then Some (Exit ab)
    else
      let* ab := aset ab (row + col * rows) (rhs /! diag) in
      Some (Next ab)) ab.

Definition ref_matrix_solve_ab (rows cols : Z) (ab : list D) : option (REF_STATUS * list D) :=
  let* c := forx_up 0 rows (solve_ab_column rows cols) (ab, false) in
  match c with
  | Exit ab => Some (REF_DIV_ZERO, ab)
  | Next (ab, ill_condition) =>
      let* c :=
        forx_up rows cols (fun col ab =>
          let* c := solve_ab_back rows col ab in
          match c with
          | Next ab => Some (Next ab)
          | Exit ab => Some (Exit ab)
          end) ab in
      match c with
      | Exit ab => Some (REF_DIV_ZERO, ab)
      | Next ab => Some (if ill_condition : bool then REF_ILL_CONDITIONED else REF_SUCCESS, ab)
      end
  end.

Definition ref_matrix_ax (rows : Z) (a x ax : list D) : option (REF_STATUS * list D) :=
  let* ax :=
    for_up 0 rows (fun row ax =>
      let* s := accumulate rows zero (fun col =>
        let* y := aget a (row + rows * col) in
        let* z := aget x col in
        Some (y *! z)) in
      aset ax row s) ax in
  Some (REF_SUCCESS, ax).

(** The row that the macro [fill_ab] writes. *)
Definition fill_ab (row : Z) (n1 n0 ab : list D) : option (list D) :=
  with3 n1 (fun a0 a1 a2 => with3 n0 (fun b0 b1 b2 =>
  let two := dofZ 2 in
  let* ab := aset ab (row + 0 * 6) ((a0 -! b0) *! (a0 -! b0)) in
  let* ab := aset ab (row + 1 * 6) (two *! (a0 -! b0) *! (a1 -! b1)) in
  let* ab := aset ab (row + 2 * 6) (two *! (a0 -! b0) *! (a2 -! b2)) in
  let* ab := aset ab (row + 3 * 6) ((a1 -! b1) *! (a1 -! b1)) in
  let* ab := aset ab (row + 4 * 6) (two *! (a1 -! b1) *! (a2 -! b2)) in
  aset ab (row + 5 * 6) ((a2 -! b2) *! (a2 -! b2)))).

Definition ref_matrix_imply_m (xyz0 xyz1 xyz2 xyz3 : list D) : option (REF_STATUS * list D) :=
  let m := replicate 6 zero in
  let ab := alloc 42 in
  let* ab := fill_ab 0 xyz1 xyz0 ab in
  let* ab := fill_ab 1 xyz2 xyz0 ab in
  let* ab := fill_ab 2 xyz3 xyz0 ab in
  let* ab := fill_ab 3 xyz2 xyz1 ab in
  let* ab := fill_ab 4 xyz3 xyz1 ab in
  let* ab := fill_ab 5 xyz3 xyz2 ab in
  let* ab := for_up 0 6 (fun i ab => aset ab (i + 6 * 6) one) ab in
  let* '(st, ab) := ref_matrix_solve_ab 6 7 ab in
  RSS st m (
  let* m := for_up 0 6 (fun i m => let* x := aget ab (i + 6 * 6) in aset m i x) m in
  Some (REF_SUCCESS, m)).

(** [ref_matrix_qr]: the pair is [q] and [r]. *)
Definition ref_matrix_qr (m n : Z) (a q r : list D) : option (REF_STATUS * (list D * list D)) :=
  let* q := fill_matrix m n (fun i j => aget a (i + m * j)) q in
  let* r := fill_matrix n n (fun _ _ => Some zero) r in
  let* c :=
    forx_up 0 n (fun k '(q, r) =>
      let* rkk := aget r (k + n * k) in
      let* rkk := accumulate m rkk (fun i =>
        let* x := aget q (i + m * k) in Some (x *! x)) in
      let* r := aset r (k + n * k) (dsqrt rkk) in
      let* c :=
        forx_up 0 m (fun i q =>
          let* x := aget q (i + m * k) in
          let* rkk := aget r (k + n * k) in
          if negb (ref_math_divisible x rkk) then Some (Exit q)
          else
            let* q := aset q (i + m * k) (x /! rkk) in
            Some (Next q)) q in
      match c with
      | Exit q => Some (Exit (q, r))
      | Next q =>
          let* s :=
            for_up (k + 1) n (fun j '(q, r) =>
              let* rkj := aget r (k + n * j) in
              let* rkj := accumulate m rkj (fun i =>
                let* x := aget a (i + m * j) in
                let* y := aget q (i + m * k) in
                Some (x *! y)) in
              let* r := aset r (k + n * j) rkj in
              let* q :=
                for_up 0 m (fun i q =>
                  let* x := aget q (i + m * j) in
                  let* rkj := aget r (k + n * j) in
                  let* y := aget q (i + m * k) in
                  aset q (i + m * j) (x -! rkj *! y)) q in
              Some (q, r)) (q, r) in
          Some (Next s)
      end) (q, r) in
  match c with
  | Exit s => Some (REF_DIV_ZERO, s)
  | Next s => Some (REF_SUCCESS, s)
  end.

Definition ref_matrix_orthog (n : Z) (a : list D) : option REF_STATUS :=
  let* c :=
    forx_up 0 n (fun i _ =>
      forx_up (i + 1) n (fun j _ =>
        let* norm := accumulate n zero (fun k =>
          let* x := aget a (k + n * i) in
          let* y := aget a (k + n * j) in
          Some (x *! y)) in
        if d_em 1 13 <?! dABS norm then Some (Exit tt) else Some (Next tt)) tt) tt in
  match c with
  | Exit _ => Some REF_INVALID
  | Next _ => Some REF_SUCCESS
  end.

(** A 3x3 product, the loops of [ref_matrix_jac_m_jact]. *)
Definition fill_matrix3 (f : Z -> Z -> Z -> option D) : option (list D) :=
  for_up 0 3 (fun i out =>
    for_up 0 3 (fun j out =>
      let* x := accumulate 3 zero (f i j) in
      aset out (i + 3 * j) x) out) (alloc 9).

Definition ref_matrix_jac_m_jact (jac m : list D) : option (REF_STATUS * list D) :=
  let* '(st, full) := ref_matrix_m_full m in
  RSS st (alloc 6) (
  let* jac_m :=
    fill_matrix3 (fun i j k =>
      let* x := aget jac (i + 3 * k) in
      let* y := aget full (k + 3 * j) in
      Some (x *! y)) in
  let* full_jac_m_jact :=
    fill_matrix3 (fun i j k =>
      let* x := aget jac_m (i + 3 * k) in
      let* y := aget jac (j + 3 * k) in
      Some (x *! y)) in
  ref_matrix_full_m full_jac_m_jact).

Definition ref_matrix_extract2 (m r s : list D) : option (REF_STATUS * list D) :=
  with3 r (fun r0 r1 r2 => with3 s (fun s0 s1 s2 =>
  let q := [r0; r1; r2; s0; s1; s2; zero; zero; zero] in
  let* '(st, m3) := ref_matrix_jac_m_jact q m in
  RSS st (alloc 3) (
  with6 m3 (fun e0 e1 _ e3 _ _ => Some (REF_SUCCESS, [e0; e1; e3]))))).
End gen.

(** ** Entries and rows *)

(** Entry [(i, j)] of a matrix with [n] rows. *)
Definition mat {D} `{Dbl D} (n : Z) (a : list D) (i j : Z) : D := a.[i + n * j].

Lemma mat_index_inj n i j i' j' :
  0 <= i < n -> 0 <= i' < n -> i + n * j = i' + n * j' -> i = i' /\ j = j'.
Proof. intros Hi Hi' He. assert (j = j') by nia. subst. lia. Qed.

Lemma mat_index_range n m i j :
  0 <= i < n -> 0 <= j < m -> 0 <= i + n * j < n * m.
Proof. nia. Qed.

(** Finite sums, in the order in which a loop adds them up. *)
Fixpoint dsum_nat {D} `{Dbl D} (k : nat) (f : Z -> D) : D :=
  match k with
  | O => dofZ 0
  | S k => dsum_nat k f +! f (Z.of_nat k)
  end.
Definition dsum {D} `{Dbl D} (n : Z) (f : Z -> D) : D := dsum_nat (Z.to_nat n) f.

Section rows.
Context {D : Type} `{Dbl D}.
Implicit Types (a : list D) (n m i j k lo hi : Z).

Lemma mat_upd n m a i j i' j' x :
  zlen a = n * m -> 0 <= i < n -> 0 <= j < m -> 0 <= i' < n -> 0 <= j' < m ->
  mat n (upd a (i + n * j) x) i' j' =
    if (i =? i') && (j =? j') then x else mat n a i' j'.
Proof.
  intros Hl Hi Hj Hi' Hj'. unfold mat.
  pose proof (mat_index_range n m i j Hi Hj). pose proof (mat_index_range n m i' j' Hi' Hj').
  rewrite aat_upd by lia.
  destruct (Z.eqb_spec i i') as [->|Hne], (Z.eqb_spec j j') as [->|Hne']; cbn [andb].
  - by rewrite Z.eqb_refl.
  - case Z.eqb_spec; [intros He; by apply mat_index_inj in He as []|done].
  - case Z.eqb_spec; [intros He; by apply mat_index_inj in He as []|done].
  - case Z.eqb_spec; [intros He; by apply mat_index_inj in He as []|done].
Qed.

(** The loops over the columns of a row: [f] of the old matrix is written to
    row [r], and only there. *)
Lemma wp_swap_rows n m lo hi r0 r1 a (Q : list D -> Prop) :
  zlen a = n * m -> 0 <= r0 < n -> 0 <= r1 < n -> r0 <> r1 -> 0 <= lo <= hi -> hi <= m ->
  (forall b, zlen b = n * m ->
     (forall i k, 0 <= i < n -> 0 <= k < m -> mat n b i k =
        if (lo <=? k) && (k <? hi) then
          if i =? r0 then mat n a r1 k else if i =? r1 then mat n a r0 k else mat n a i k
        else mat n a i k) -> Q b) ->
  wp (swap_rows n lo hi r0 r1 a) Q.
Proof.
  intros Hl Hr0 Hr1 Hne Hlo Hhi HQ. unfold swap_rows.
  apply (wp_for_up (fun c b => zlen b = n * m /\
    forall i k, 0 <= i < n -> 0 <= k < m -> mat n b i k =
      if (lo <=? k) && (k <? c) then
        if i =? r0 then mat n a r1 k else if i =? r1 then mat n a r0 k else mat n a i k
      else mat n a i k)); [lia| | |by intros b [? ?]; apply HQ].
  - split; [done|]. intros i k Hi Hk. by destruct (Z.leb_spec lo k), (Z.ltb_spec k lo); try lia.
  - intros c b Hc [Hb Hg].
    pose proof (mat_index_range n m r0 c Hr0 ltac:(lia)).
    pose proof (mat_index_range n m r1 c Hr1 ltac:(lia)).
    apply wp_bind, wp_aget; [lia|]. apply wp_bind, wp_aget; [lia|].
    apply wp_bind, wp_aset; [lia|]. apply wp_aset; [by rewrite zlen_upd; lia|].
    split; [by rewrite !zlen_upd|]. intros i k Hi Hk.
    rewrite (mat_upd n m) by (rewrite ?zlen_upd; lia).
    rewrite (mat_upd n m) by (rewrite ?zlen_upd; lia).
    fold (mat n b r0 c) (mat n b r1 c). rewrite !Hg by lia.
    destruct (Z.eqb_spec c k) as [->|Hck]; rewrite ?andb_true_r, ?andb_false_r.
    + destruct (Z.leb_spec lo k), (Z.ltb_spec k k), (Z.ltb_spec k (k + 1)); try lia. cbn [andb].
      destruct (Z.eqb_spec r1 i), (Z.eqb_spec i r0), (Z.eqb_spec r0 i), (Z.eqb_spec i r1);
        subst; try lia; done.
    + destruct (Z.leb_spec lo k), (Z.ltb_spec k c), (Z.ltb_spec k (c + 1)); try lia; done.
Qed.

Lemma wp_eliminate_row n m lo hi i j scale a (Q : list D -> Prop) :
  zlen a = n * m -> 0 <= i < n -> 0 <= j < n -> i <> j -> 0 <= lo <= hi -> hi <= m ->
  (forall b, zlen b = n * m ->
     (forall r k, 0 <= r < n -> 0 <= k < m -> mat n b r k =
        if (r =? i) && ((lo <=? k) && (k <? hi)) then mat n a i k -! scale *! mat n a j k
        else mat n a r k) -> Q b) ->
  wp (eliminate_row n lo hi i j scale a) Q.
Proof.
  intros Hl Hi Hj Hne Hlo Hhi HQ. unfold eliminate_row.
  apply (wp_for_up (fun c b => zlen b = n * m /\
    forall r k, 0 <= r < n -> 0 <= k < m -> mat n b r k =
      if (r =? i) && ((lo <=? k) && (k <? c)) then mat n a i k -! scale *! mat n a j k
      else mat n a r k)); [lia| | |by intros b [? ?]; apply HQ].
  - split; [done|]. intros r k Hr Hk. replace ((lo <=? k) && (k <? lo)) with false.
    { by rewrite andb_false_r. }
    by destruct (Z.leb_spec lo k), (Z.ltb_spec k lo); try lia.
  - intros c b Hc [Hb Hg].
    pose proof (mat_index_range n m i c Hi ltac:(lia)).
    pose proof (mat_index_range n m j c Hj ltac:(lia)).
    replace (c * n) with (n * c) by lia.
    apply wp_bind, wp_aget; [lia|]. apply wp_bind, wp_aget; [lia|]. apply wp_aset; [lia|].
    split; [by rewrite !zlen_upd|]. intros r k Hr Hk.
    rewrite (mat_upd n m) by (rewrite ?zlen_upd; lia).
    fold (mat n b i c) (mat n b j c). rewrite !Hg by lia.
    destruct (Z.eqb_spec i r) as [->|], (Z.eqb_spec c k) as [->|]; cbn [andb];
      rewrite ?Z.eqb_refl; cbn [andb];
      repeat case Z.eqb_spec; repeat case Z.leb_spec; repeat case Z.ltb_spec; intros;
      cbn [andb]; try lia; done.
Qed.

(** Division of row [j] of both matrices, when no division is refused. *)
Lemma wp_scale_row n j pivot a inv (Q : ctl (list D * list D) (list D) -> Prop) :
  zlen a = n * n -> zlen inv = n * n -> 0 <= j < n ->
  (forall a' inv', zlen a' = n * n -> zlen inv' = n * n ->
     (forall k, 0 <= k < n -> ref_math_divisible (mat n a j k) pivot = true) ->
     (forall r k, 0 <= r < n -> 0 <= k < n -> mat n a' r k =
        if r =? j then mat n a j k /! pivot else mat n a r k) ->
     (forall r k, 0 <= r < n -> 0 <= k < n -> mat n inv' r k =
        if r =? j then mat n inv j k /! pivot else mat n inv r k) ->
     Q (Next (a', inv'))) ->
  (forall inv', Q (Exit inv')) ->
  wp (scale_row n j pivot (a, inv)) Q.
Proof.
  intros Hla Hli Hj HQ HQ'. unfold scale_row.
  apply (wp_forx_up (fun c '(a', inv') => zlen a' = n * n /\ zlen inv' = n * n /\
    (forall k, 0 <= k < c -> ref_math_divisible (mat n a j k) pivot = true) /\
    (forall r k, 0 <= r < n -> 0 <= k < n -> mat n a' r k =
      if (r =? j) && (k <? c) then mat n a j k /! pivot else mat n a r k) /\
    (forall r k, 0 <= r < n -> 0 <= k < n -> mat n inv' r k =
      if (r =? j) && (k <? c) then mat n inv j k /! pivot else mat n inv r k))
    (fun _ => True)); [lia| | | |].
  - split_and!; try done; [lia|..]; intros r k Hr Hk;
      (destruct (Z.ltb_spec k 0); [lia|]); by rewrite andb_false_r.
  - intros c [a' inv'] Hc (Ha & Hi & Hd & Hga & Hgi).
    pose proof (mat_index_range n n j c Hj ltac:(lia)).
    replace (c * n) with (n * c) by lia.
    apply wp_bind, wp_aget; [lia|]. fold (mat n a' j c). rewrite !Hga by lia.
    destruct (Z.ltb_spec c c); [lia|]. rewrite andb_false_r.
    destruct (ref_math_divisible (mat n a j c) pivot) eqn:Hdc; cbn [negb]; [|by apply wp_ret].
    apply wp_bind, wp_aset; [lia|]. apply wp_bind, wp_aget; [lia|].
    destruct (ref_math_divisible inv'.[j + n * c] pivot); cbn [negb]; [|by apply wp_ret].
    apply wp_bind, wp_aset; [lia|]. apply wp_ret. cbn.
    split_and!; [by rewrite zlen_upd|by rewrite zlen_upd|..].
    + intros k Hk. destruct (decide (k = c)) as [->|]; [done|]. apply Hd. lia.
    + intros r k Hr Hk. rewrite (mat_upd n n) by lia. rewrite Hga by lia.
      destruct (Z.eqb_spec j r), (Z.eqb_spec r j), (Z.eqb_spec c k), (Z.ltb_spec k c),
        (Z.ltb_spec k (c + 1)); subst; try lia; done.
    + intros r k Hr Hk. rewrite (mat_upd n n) by lia. fold (mat n inv' j c).
      rewrite !Hgi by lia.
      rewrite (Z.ltb_irrefl c), andb_false_r.
      destruct (Z.eqb_spec j r), (Z.eqb_spec r j), (Z.eqb_spec c k), (Z.ltb_spec k c),
        (Z.ltb_spec k (c + 1)); subst; try lia; done.
  - intros [a' inv'] (Ha & Hi & Hd & Hga & Hgi). apply HQ; try done.
    + intros r k Hr Hk. rewrite Hga by lia. by destruct (Z.ltb_spec k n); [rewrite andb_true_r|lia].
    + intros r k Hr Hk. rewrite Hgi by lia. by destruct (Z.ltb_spec k n); [rewrite andb_true_r|lia].
  - intros inv' _. apply HQ'.
Qed.

Lemma wp_fill_matrix n m (f : Z -> Z -> option D) (g : Z -> Z -> D) out (Q : list D -> Prop) :
  0 <= n -> 0 <= m -> zlen out = n * m ->
  (forall i j, 0 <= i < n -> 0 <= j < m -> f i j = Some (g i j)) ->
  (forall b, zlen b = n * m ->
     (forall i j, 0 <= i < n -> 0 <= j < m -> mat n b i j = g i j) -> Q b) ->
  wp (fill_matrix n m f out) Q.
Proof.
  intros Hn Hm Hl Hf HQ. unfold fill_matrix.
  apply (wp_for_up (fun c b => zlen b = n * m /\
    forall i j, 0 <= i < n -> 0 <= j < c -> mat n b i j = g i j)); [lia| | |by intros b [? ?]; apply HQ].
  - split; [done|lia].
  - intros c b Hc [Hb Hg].
    apply (wp_for_up (fun r b => zlen b = n * m /\
      (forall i, 0 <= i < r -> mat n b i c = g i c) /\
      forall i j, 0 <= i < n -> 0 <= j < c -> mat n b i j = g i j)); [lia| | |].
    + split_and!; [done|lia|done].
    + intros r b' Hr (Hb' & Hg1 & Hg2). rewrite Hf by lia. cbn [obind].
      pose proof (mat_index_range n m r c Hr Hc). apply wp_aset; [lia|].
      split_and!; [by rewrite zlen_upd|..].
      * intros i Hi. rewrite (mat_upd n m) by lia. rewrite Z.eqb_refl, andb_true_r.
        case Z.eqb_spec; [by intros ->|]. intros. apply Hg1. lia.
      * intros i j Hi Hj. rewrite (mat_upd n m) by lia.
        destruct (Z.eqb_spec c j); [lia|]. rewrite andb_false_r. by apply Hg2.
    + intros b' (Hb' & Hg1 & Hg2). split; [done|]. intros i j Hi Hj.
      destruct (decide (j = c)) as [->|]; [by apply Hg1|]. apply Hg2; lia.
Qed.

Lemma wp_best_row n j a (Q : Z -> Prop) :
  zlen a = n * n -> 0 <= j < n -> (forall best, j <= best < n -> Q best) ->
  wp (best_row n j a) Q.
Proof.
  intros Hl Hj HQ. unfold best_row.
  apply (wp_for_up (fun c best => j <= best < c)); [lia|lia| |by intros; apply HQ].
  intros c best Hc Hb.
  pose proof (mat_index_range n n c j ltac:(lia) Hj).
  pose proof (mat_index_range n n best j ltac:(lia) Hj).
  apply wp_bind, wp_aget; [lia|]. apply wp_bind, wp_aget; [lia|]. apply wp_ret.
  case_match; lia.
Qed.
End rows.

(** ** Gauss-Jordan elimination in exact arithmetic *)

Section exact.
Context {D : Type} `{DblField D, Junk D}.
Implicit Types (a inv orig : list D) (n i j k : Z).

Add Field matrix_field : dbl_field.

(** The entries of the identity. *)
Definition delta i j : D := if i =? j then dofZ 1 else dofZ 0.

Lemma dsum_nat_ext (m : nat) (f g : Z -> D) :
  (forall i, 0 <= i < Z.of_nat m -> f i = g i) -> dsum_nat m f = dsum_nat m g.
Proof.
  induction m as [|m IH]; intros Hfg; cbn; [done|].
  rewrite IH by (intros; apply Hfg; lia). by rewrite Hfg by lia.
Qed.
Lemma dsum_ext n (f g : Z -> D) :
  (forall i, 0 <= i < n -> f i = g i) -> dsum n f = dsum n g.
Proof. intros Hfg. apply dsum_nat_ext. intros. apply Hfg. lia. Qed.

Lemma dsum_linear n s (f g : Z -> D) :
  dsum n (fun l => f l -! s *! g l) = dsum n f -! s *! dsum n g.
Proof. unfold dsum. induction (Z.to_nat n) as [|m IH]; cbn; [ring|]. rewrite IH. ring. Qed.

Lemma dsum_div n p (f : Z -> D) :
  p <> dofZ 0 -> dsum n (fun l => f l /! p) = dsum n f /! p.
Proof. intros Hp. unfold dsum. induction (Z.to_nat n) as [|m IH]; cbn; [by field|]. rewrite IH. by field. Qed.

Lemma dsum_delta n i (f : Z -> D) :
  0 <= i < n -> dsum n (fun l => delta i l *! f l) = f i.
Proof.
  intros Hi. unfold dsum.
  enough (Hg : forall m : nat, dsum_nat m (fun l => delta i l *! f l) =
    if i <? Z.of_nat m then f i else dofZ 0).
  { rewrite Hg. destruct (Z.ltb_spec i (Z.of_nat (Z.to_nat n))); [done|lia]. }
  induction m as [|m IH]; cbn [dsum_nat].
  - by destruct (Z.ltb_spec i (Z.of_nat 0)); [lia|].
  - rewrite IH. unfold delta.
    destruct (Z.ltb_spec i (Z.of_nat m)), (Z.eqb_spec i (Z.of_nat m)),
      (Z.ltb_spec i (Z.of_nat (S m))); subst; try lia; ring.
Qed.

(** [a] is what the row operations that turned the identity into [inv] turn
    [orig] into. *)
Definition row_equiv n orig a inv : Prop :=
  forall i k, 0 <= i < n -> 0 <= k < n ->
    mat n a i k = dsum n (fun l => mat n inv i l *! mat n orig l k).

(** The columns before [j] are those of the identity. *)
Definition unit_columns n j a : Prop :=
  forall i c, 0 <= i < n -> 0 <= c < j -> mat n a i c = delta i c.

Lemma row_equiv_swap n orig a inv a' inv' r0 r1 :
  row_equiv n orig a inv -> 0 <= r0 < n -> 0 <= r1 < n ->
  (forall i k, 0 <= i < n -> 0 <= k < n -> mat n a' i k =
     if i =? r0 then mat n a r1 k else if i =? r1 then mat n a r0 k else mat n a i k) ->
  (forall i k, 0 <= i < n -> 0 <= k < n -> mat n inv' i k =
     if i =? r0 then mat n inv r1 k else if i =? r1 then mat n inv r0 k else mat n inv i k) ->
  row_equiv n orig a' inv'.
Proof.
  intros He Hr0 Hr1 Ha Hi i k Hir Hkr. rewrite Ha by lia.
  rewrite (dsum_ext n _ (fun l => (if i =? r0 then mat n inv r1 l else if i =? r1
    then mat n inv r0 l else mat n inv i l) *! mat n orig l k))
    by (intros; by rewrite Hi by lia).
  destruct (Z.eqb_spec i r0); [by apply He|]. destruct (Z.eqb_spec i r1); by apply He.
Qed.

Lemma row_equiv_scale n orig a inv a' inv' j p :
  row_equiv n orig a inv -> 0 <= j < n -> p <> dofZ 0 ->
  (forall r k, 0 <= r < n -> 0 <= k < n -> mat n a' r k =
     if r =? j then mat n a j k /! p else mat n a r k) ->
  (forall r k, 0 <= r < n -> 0 <= k < n -> mat n inv' r k =
     if r =? j then mat n inv j k /! p else mat n inv r k) ->
  row_equiv n orig a' inv'.
Proof.
  intros He Hj Hp Ha Hi i k Hir Hkr. rewrite Ha by lia.
  rewrite (dsum_ext n _ (fun l => (if i =? j then mat n inv j l /! p else mat n inv i l)
    *! mat n orig l k)) by (intros; by rewrite Hi by lia).
  destruct (Z.eqb_spec i j); [|by apply He]. rewrite He by lia. rewrite <- dsum_div by done.
  apply dsum_ext. intros. by field.
Qed.

Lemma row_equiv_eliminate n orig a inv a' inv' i j s :
  row_equiv n orig a inv -> 0 <= i < n -> 0 <= j < n ->
  (forall r k, 0 <= r < n -> 0 <= k < n -> mat n a' r k =
     if r =? i then mat n a i k -! s *! mat n a j k else mat n a r k) ->
  (forall r k, 0 <= r < n -> 0 <= k < n -> mat n inv' r k =
     if r =? i then mat n inv i k -! s *! mat n inv j k else mat n inv r k) ->
  row_equiv n orig a' inv'.
Proof.
  intros He Hi Hj Ha Hinv r k Hir Hkr. rewrite Ha by lia.
  rewrite (dsum_ext n _ (fun l => (if r =? i then mat n inv i l -! s *! mat n inv j l
    else mat n inv r l) *! mat n orig l k)) by (intros; by rewrite Hinv by lia).
  destruct (Z.eqb_spec r i); [|by apply He]. rewrite !He by lia. rewrite <- dsum_linear.
  apply dsum_ext. intros. ring.
Qed.

Definition gj_inv n orig j (s : list D * list D) : Prop :=
  let '(a, inv) := s in
  zlen a = n * n /\ zlen inv = n * n /\ row_equiv n orig a inv /\ unit_columns n j a.

(** The elimination loops clear column [j] in the rows they visit. *)
Lemma eliminate_rows_ok n orig lo hi j s (Q : ctl (list D * list D) (list D) -> Prop) :
  gj_inv n orig j s -> 0 <= j < n -> 0 <= lo <= hi -> hi <= n -> ~ (lo <= j < hi) ->
  mat n (fst s) j j = dofZ 1 ->
  (forall s', gj_inv n orig j s' ->
     (forall i, 0 <= i < n -> mat n (fst s') i j =
        if (lo <=? i) && (i <? hi) then dofZ 0 else mat n (fst s) i j) -> Q (Next s')) ->
  (forall inv, Q (Exit inv)) ->
  wp (eliminate_rows n lo hi j s) Q.
Proof.
  destruct s as [a inv]. cbn. intros Hgj Hj Hlo Hhi Hnj Hjj HQ HQ'. unfold eliminate_rows.
  apply (wp_forx_up (fun c s => gj_inv n orig j s /\
    forall i, 0 <= i < n -> mat n (fst s) i j =
      if (lo <=? i) && (i <? c) then dofZ 0 else mat n a i j) (fun _ => True));
    [lia| | |by intros s [? ?]; apply HQ|by intros; apply HQ'].
  - split; [done|]. intros i Hi. cbn. by destruct (Z.leb_spec lo i), (Z.ltb_spec i lo); try lia.
  - intros c [a1 inv1] Hc [(Ha & Hi & He & Hu) Hg]. cbn in Hg.
    pose proof (mat_index_range n n c j ltac:(lia) Hj).
    pose proof (mat_index_range n n j j Hj Hj).
    replace (c + j * n) with (c + n * j) by lia. replace (j + j * n) with (j + n * j) by lia.
    apply wp_bind, wp_aget; [lia|]. apply wp_bind, wp_aget; [lia|].
    fold (mat n a1 c j) (mat n a1 j j). rewrite !Hg by lia.
    destruct (Z.leb_spec lo c), (Z.ltb_spec c c); try lia. cbn [andb].
    replace ((lo <=? j) && (j <? c)) with false by
      (destruct (Z.leb_spec lo j), (Z.ltb_spec j c); done || lia).
    rewrite Hjj. destruct (ref_math_divisible _ _) eqn:Hdiv; cbn [negb]; [|by apply wp_ret].
    apply divisible_nonzero in Hdiv.
    apply wp_bind, (wp_eliminate_row n n); [done|lia|lia|lia|lia|lia|]. intros a2 Ha2 Hg2.
    apply wp_bind, (wp_eliminate_row n n); [done|lia|lia|lia|lia|lia|]. intros inv2 Hi2 Hgi2.
    assert (Hcol : forall r k, 0 <= r < n -> 0 <= k < n -> mat n a2 r k =
      if r =? c then mat n a1 c k -! mat n a c j /! dofZ 1 *! mat n a1 j k else mat n a1 r k).
    { intros r k Hr Hk. rewrite Hg2 by lia.
      destruct (Z.leb_spec 0 k), (Z.ltb_spec k n); try lia. by rewrite andb_true_r. }
    apply wp_ret. cbn. split_and!; [done|done|..].
    + apply (row_equiv_eliminate n orig a1 inv1 a2 inv2 c j (mat n a c j /! dofZ 1));
        [done|lia|lia|done|].
      intros r k Hr Hk. rewrite Hgi2 by lia.
      destruct (Z.leb_spec 0 k), (Z.ltb_spec k n); try lia. by rewrite andb_true_r.
    + intros r k Hr Hk. rewrite Hcol by lia. destruct (Z.eqb_spec r c) as [->|]; [|by apply Hu].
      rewrite (Hu c k), (Hu j k) by lia. unfold delta at 2.
      destruct (Z.eqb_spec j k); [lia|]. by field.
    + intros r Hr. rewrite Hcol by lia. rewrite !Hg by lia.
      replace ((lo <=? j) && (j <? c)) with false by
        (destruct (Z.leb_spec lo j), (Z.ltb_spec j c); done || lia).
      rewrite Hjj.
      destruct (Z.eqb_spec r c) as [->|].
      * destruct (Z.leb_spec lo c), (Z.ltb_spec c c), (Z.ltb_spec c (c + 1)); try lia.
        cbn [andb]. by field.
      * destruct (Z.leb_spec lo r), (Z.ltb_spec r c), (Z.ltb_spec r (c + 1)); try lia; done.
Qed.

Lemma inv_gen_column_ok n orig j s :
  gj_inv n orig j s -> 0 <= j < n ->
  wp (inv_gen_column n j s) (ctl_post (gj_inv n orig (j + 1)) (fun _ => True)).
Proof.
  destruct s as [a inv]. intros (Ha & Hi & He & Hu) Hj. unfold inv_gen_column.
  apply wp_bind, wp_best_row; [done|done|]. intros best Hb. apply wp_bind.
  apply (wp_mono (gj_inv n orig j)).
  { destruct (Z.eqb_spec best j) as [->|Hne]; cbn [negb]; [by apply wp_ret|].
    apply wp_bind, (wp_swap_rows n n); [done|lia..|]. intros a1 Ha1 Hg1.
    apply wp_bind, (wp_swap_rows n n); [done|lia..|]. intros inv1 Hi1 Hgi1.
    assert (Hs1 : forall i k, 0 <= i < n -> 0 <= k < n -> mat n a1 i k = if i =? j
      then mat n a best k else if i =? best then mat n a j k else mat n a i k).
    { intros i k Hir Hkr. rewrite Hg1 by lia.
      by destruct (Z.leb_spec 0 k), (Z.ltb_spec k n); try lia. }
    apply wp_ret. split_and!; [done|done| |].
    - eapply (row_equiv_swap n orig a inv a1 inv1 j best); [done|lia|lia|done|].
      intros i k Hir Hkr. rewrite Hgi1 by lia.
      by destruct (Z.leb_spec 0 k), (Z.ltb_spec k n); try lia.
    - intros i c Hir Hcr. rewrite Hs1 by lia. unfold delta.
      destruct (Z.eqb_spec i j) as [->|]; [|destruct (Z.eqb_spec i best) as [->|]];
        rewrite Hu by lia; unfold delta; repeat case Z.eqb_spec; intros; try lia; done. }
  clear a inv Ha Hi He Hu. intros [a inv] (Ha & Hi & He & Hu).
  pose proof (mat_index_range n n j j Hj Hj). apply wp_bind, wp_aget; [lia|].
  fold (mat n a j j). apply wp_bind, wp_scale_row; [done|done|done| |by intros; apply wp_ret].
  intros a1 inv1 Ha1 Hi1 Hd Hg1 Hgi1.
  assert (Hp : mat n a j j <> dofZ 0) by (eapply divisible_nonzero, (Hd j); lia).
  assert (Hgj : gj_inv n orig j (a1, inv1)).
  { split_and!; [done|done|by eapply row_equiv_scale|].
    intros i c Hir Hcr. rewrite Hg1 by lia. destruct (Z.eqb_spec i j) as [->|]; [|by apply Hu].
    rewrite Hu by lia. unfold delta. destruct (Z.eqb_spec j c); [lia|]. by field. }
  apply wp_bind, (eliminate_rows_ok n orig); [done|done|lia|lia|lia| | |by intros; apply wp_ret].
  { cbn. rewrite Hg1, Z.eqb_refl by lia. by field. }
  intros s2 Hgj2 Hc2. cbn in Hc2.
  apply (eliminate_rows_ok n orig); [done|done|lia|lia|lia| | |done].
  { rewrite Hc2 by lia. destruct (Z.leb_spec (j + 1) j); [lia|]. cbn [andb].
    rewrite Hg1, Z.eqb_refl by lia. by field. }
  intros [a3 inv3] (Ha3 & Hi3 & He3 & Hu3) Hc3. cbn in Hc3. split_and!; try done.
  intros i c Hir Hcr. destruct (decide (c = j)) as [->|]; [|apply Hu3; lia].
  rewrite Hc3, Hc2 by lia. unfold delta.
  destruct (Z.leb_spec 0 i), (Z.ltb_spec i j), (Z.leb_spec (j + 1) i), (Z.ltb_spec i n),
    (Z.eqb_spec i j); try lia; cbn [andb]; try done.
  subst i. rewrite Hg1, Z.eqb_refl by lia. by field.
Qed.

Lemma ref_matrix_inv_gen_ok n orig inv :
  0 <= n -> zlen orig = n * n -> zlen inv = n * n ->
  wp (ref_matrix_inv_gen n orig inv) (fun '(st, inv') =>
    st = REF_DIV_ZERO \/
    (st = REF_SUCCESS /\ zlen inv' = n * n /\
     forall i k, 0 <= i < n -> 0 <= k < n ->
       dsum n (fun l => mat n inv' i l *! mat n orig l k) = delta i k)).
Proof.
  intros Hn Ho Hi. unfold ref_matrix_inv_gen, ref_malloc.
  destruct (Z.ltb_spec (n * n) 0); [lia|]. cbn [RSS].
  apply wp_bind, (wp_fill_matrix n n _ (mat n orig)); [lia|lia|by rewrite zlen_alloc by lia| |].
  { intros i j Hir Hjr. pose proof (mat_index_range n n i j Hir Hjr).
    by rewrite aget_aat by lia. }
  intros a Ha Hga. apply wp_bind, (wp_fill_matrix n n _ (fun _ _ => dofZ 0)); [lia|lia|done|done|].
  intros z Hz Hgz. apply wp_bind.
  apply (wp_for_up (fun c b => zlen b = n * n /\
    forall i k, 0 <= i < n -> 0 <= k < n -> mat n b i k =
      if (i =? k) && (k <? c) then dofZ 1 else dofZ 0)); [lia| | |].
  { split; [done|]. intros i k Hir Hkr. rewrite Hgz by lia.
    by destruct (Z.ltb_spec k 0); [lia|rewrite andb_false_r]. }
  { intros c b Hc [Hb Hg]. pose proof (mat_index_range n n c c Hc Hc).
    replace (c + n * c) with (c + n * c) by lia. apply wp_aset; [lia|].
    split; [by rewrite zlen_upd|]. intros i k Hir Hkr. rewrite (mat_upd n n) by lia.
    rewrite Hg by lia. destruct (Z.eqb_spec c i), (Z.eqb_spec c k), (Z.eqb_spec i k),
      (Z.ltb_spec k c), (Z.ltb_spec k (c + 1)); subst; try lia; done. }
  intros id [Hid Hgid]. apply wp_bind.
  apply (wp_forx_up (gj_inv n orig) (fun _ => True)); [lia| | | |].
  - split_and!; [done|done| |intros ? ? ? ?; lia].
    intros i k Hir Hkr. rewrite Hga by lia.
    rewrite (dsum_ext n _ (fun l => delta i l *! mat n orig l k)).
    + by rewrite dsum_delta by lia.
    + intros l Hl. rewrite Hgid by lia. unfold delta.
      destruct (Z.ltb_spec l n); [|lia]. by rewrite andb_true_r.
  - intros j s Hj Hs. by apply inv_gen_column_ok.
  - intros [a' inv'] (Ha' & Hi' & He & Hu). apply wp_ret. right. split_and!; [done|done|].
    intros i k Hir Hkr. rewrite <- He by lia. by apply Hu.
  - intros inv' _. apply wp_ret. by left.
Qed.
End exact.

(** ** Gauss elimination in exact arithmetic *)

Section solve.
Context {D : Type} `{DblField D, Junk D}.
Implicit Types (ab : list D) (rows cols col i j k : Z) (x : Z -> D).

Add Field solve_field : dbl_field.

Lemma dsum_S n (f : Z -> D) : 0 <= n -> dsum (n + 1) f = dsum n f +! f n.
Proof.
  intros Hn. unfold dsum. replace (Z.to_nat (n + 1)) with (S (Z.to_nat n)) by lia.
  cbn. by rewrite Z2Nat.id by lia.
Qed.

Lemma dsum_zero n (f : Z -> D) : (forall k, 0 <= k < n -> f k = dofZ 0) -> dsum n f = dofZ 0.
Proof.
  intros Hf. unfold dsum.
  assert (Hf' : forall k, 0 <= k < Z.of_nat (Z.to_nat n) -> f k = dofZ 0) by (intros; apply Hf; lia).
  revert Hf'. induction (Z.to_nat n) as [|m IH]; intros Hf'; cbn; [done|].
  rewrite IH by (intros; apply Hf'; lia). rewrite Hf' by lia. ring.
Qed.

(** The terms from [lo] on. *)
Definition from_term lo (f : Z -> D) (k : Z) : D := if lo <=? k then f k else dofZ 0.

Lemma dsum_first n lo (f : Z -> D) :
  0 <= lo < n -> (forall k, 0 <= k < lo -> f k = dofZ 0) ->
  dsum n f = f lo +! dsum n (from_term (lo + 1) f).
Proof.
  intros Hlo Hz. unfold dsum.
  enough (Hg : forall m : nat, dsum_nat m f =
    (if lo <? Z.of_nat m then f lo else dofZ 0) +! dsum_nat m (from_term (lo + 1) f)).
  { rewrite Hg. destruct (Z.ltb_spec lo (Z.of_nat (Z.to_nat n))); [done|lia]. }
  induction m as [|m IH]; cbn [dsum_nat].
  - destruct (Z.ltb_spec lo (Z.of_nat 0)); [lia|ring].
  - rewrite IH. unfold from_term at 3.
    destruct (Z.ltb_spec lo (Z.of_nat m)), (Z.ltb_spec lo (Z.of_nat (S m))),
      (Z.leb_spec (lo + 1) (Z.of_nat m)); try lia; [ring| |].
    + replace lo with (Z.of_nat m) by lia. ring.
    + rewrite (Hz (Z.of_nat m)) by lia. ring.
Qed.

Lemma dsum_scale n s (f : Z -> D) : dsum n (fun k => s *! f k) = s *! dsum n f.
Proof. unfold dsum. induction (Z.to_nat n) as [|m IH]; cbn; [ring|]. rewrite IH. ring. Qed.

(** [x] solves the equations of the rows for the right hand side in column
    [col]. *)
Definition row_eq rows ab col x r : Prop :=
  dsum rows (fun k => mat rows ab r k *! x k) = mat rows ab r col.
Definition solves rows ab col x : Prop :=
  forall r, 0 <= r < rows -> row_eq rows ab col x r.

(** After [c] columns: upper triangular with a unit diagonal so far. *)
Definition triangular rows c ab : Prop :=
  forall r k, 0 <= r < rows -> 0 <= k < c ->
    (k < r -> mat rows ab r k = dofZ 0) /\ (k = r -> mat rows ab r k = dofZ 1).

Definition solve_inv rows cols orig c (s : list D * bool) : Prop :=
  let '(ab, _) := s in
  zlen ab = rows * cols /\ triangular rows c ab /\
  forall col x, rows <= col < cols -> solves rows ab col x -> solves rows orig col x.

(** Each kind of row operation keeps the solutions. *)
Lemma row_eq_combine rows ab ab' col x r r' s :
  (forall k, 0 <= k < rows \/ k = col ->
     mat rows ab r k = mat rows ab' r k +! s *! mat rows ab' r' k) ->
  row_eq rows ab' col x r -> row_eq rows ab' col x r' -> row_eq rows ab col x r.
Proof.
  unfold row_eq. intros Hk Hr Hr'. rewrite (Hk col) by lia. rewrite <- Hr, <- Hr'.
  replace (dsum rows (fun k => mat rows ab' r k *! x k) +!
    s *! dsum rows (fun k => mat rows ab' r' k *! x k)) with
    (dsum rows (fun k => mat rows ab' r k *! x k) -!
      (-! s) *! dsum rows (fun k => mat rows ab' r' k *! x k)) by ring.
  rewrite <- dsum_linear. apply dsum_ext. intros k Hkr. rewrite Hk by lia. ring.
Qed.

Lemma row_eq_scaled rows ab ab' col x r p :
  (forall k, 0 <= k < rows \/ k = col -> mat rows ab r k = p *! mat rows ab' r k) ->
  row_eq rows ab' col x r -> row_eq rows ab col x r.
Proof.
  unfold row_eq. intros Hk Hr. rewrite (Hk col) by lia. rewrite <- Hr, <- dsum_scale.
  apply dsum_ext. intros k Hkr. rewrite Hk by lia. ring.
Qed.

Lemma row_eq_same rows ab ab' col x r r' :
  (forall k, 0 <= k < rows \/ k = col -> mat rows ab r k = mat rows ab' r' k) ->
  row_eq rows ab' col x r' -> row_eq rows ab col x r.
Proof.
  unfold row_eq. intros Hk Hr. rewrite (Hk col) by lia. rewrite <- Hr.
  apply dsum_ext. intros k Hkr. by rewrite Hk by lia.
Qed.

(** The pivot search stays between [col] and the last row. *)
Lemma wp_pivot_row rows cols col ab p (Q : D * Z -> Prop) :
  zlen ab = rows * cols -> 0 <= col < rows -> rows <= cols ->
  (forall v best, col <= best < rows -> Q (v, best)) ->
  wp (for_up (col + 1) rows (fun i '(largest_pivot, pivot_row) =>
      let* x := aget ab (i + rows * col) in
      let pivot := dABS x in
      if largest_pivot <?! pivot then Some (pivot, i) else Some (largest_pivot, pivot_row))
      (p, col)) Q.
Proof.
  intros Hl Hc Hrc HQ.
  apply (wp_for_up (fun c '(_, best) => col <= best < c)); [lia|lia| |by intros [v b] ?; apply HQ].
  intros c [v best] Hcr Hb. pose proof (mat_index_range rows cols c col ltac:(lia) ltac:(lia)).
  apply wp_bind, wp_aget; [lia|]. case_match; apply wp_ret; lia.
Qed.

(** The loop that divides the pivot row from column [col] on. *)
Lemma wp_normalize rows cols col pivot ab ill (Q : ctl (list D * bool) (list D) -> Prop) :
  zlen ab = rows * cols -> 0 <= col < rows -> rows <= cols ->
  (forall ab' ill', zlen ab' = rows * cols ->
     (forall r k, 0 <= r < rows -> 0 <= k < cols -> mat rows ab' r k =
        if (r =? col) && (col <=? k) then mat rows ab col k /! pivot else mat rows ab r k) ->
     ref_math_divisible (mat rows ab col col) pivot = true -> Q (Next (ab', ill'))) ->
  (forall ab', Q (Exit ab')) ->
  wp (forx_up col cols (fun j '(ab, ill_condition) =>
      let* x := aget ab (col + j * rows) in
      if negb (ref_math_divisible x pivot) then Some (Exit ab)
      else
        let ill_condition := if dABS pivot <?! d_em 1 13 then true else ill_condition in
        let* ab := aset ab (col + j * rows) (x /! pivot) in
        Some (Next (ab, ill_condition))) (ab, ill)) Q.
Proof.
  intros Hl Hc Hrc HQ HQ'.
  apply (wp_forx_up (fun c '(b, _) => zlen b = rows * cols /\
    (col < c -> ref_math_divisible (mat rows ab col col) pivot = true) /\
    forall r k, 0 <= r < rows -> 0 <= k < cols -> mat rows b r k =
      if (r =? col) && ((col <=? k) && (k <? c)) then mat rows ab col k /! pivot
      else mat rows ab r k) (fun _ => True)); [lia| | | |by intros; apply HQ'].
  - split_and!; [done|lia|]. intros r k Hr Hk.
    replace ((col <=? k) && (k <? col)) with false; [by rewrite andb_false_r|].
    by destruct (Z.leb_spec col k), (Z.ltb_spec k col); try lia.
  - intros c [b ill'] Hcr (Hb & Hd & Hg).
    pose proof (mat_index_range rows cols col c Hc ltac:(lia)).
    replace (col + c * rows) with (col + rows * c) by lia.
    apply wp_bind, wp_aget; [lia|]. fold (mat rows b col c). rewrite Hg by lia.
    rewrite Z.ltb_irrefl, !andb_false_r.
    destruct (ref_math_divisible (mat rows ab col c) pivot) eqn:Hdc; cbn [negb]; [|by apply wp_ret].
    apply wp_bind, wp_aset; [lia|]. apply wp_ret. split_and!; [by rewrite zlen_upd| |].
    + intros _. destruct (decide (c = col)) as [->|]; [done|]. apply Hd. lia.
    + intros r k Hr Hk. rewrite (mat_upd rows cols) by lia. rewrite Hg by lia.
      destruct (Z.eqb_spec col r), (Z.eqb_spec r col), (Z.eqb_spec c k), (Z.leb_spec col k),
        (Z.ltb_spec k c), (Z.ltb_spec k (c + 1)); subst; try lia; done.
  - intros [b ill'] (Hb & Hd & Hg). apply HQ; [done| |apply Hd; lia].
    intros r k Hr Hk. rewrite Hg by lia. destruct (Z.ltb_spec k cols); [|lia].
    by rewrite andb_true_r.
Qed.

(** The elimination of one row below the pivot. *)
Lemma wp_eliminate_below rows cols col i factor ab (Q : list D -> Prop) :
  zlen ab = rows * cols -> 0 <= col < rows -> 0 <= i < rows -> i <> col -> rows <= cols ->
  (forall b, zlen b = rows * cols ->
     (forall r k, 0 <= r < rows -> 0 <= k < cols -> mat rows b r k =
        if (r =? i) && (col <=? k) then mat rows ab i k -! mat rows ab col k *! factor
        else mat rows ab r k) -> Q b) ->
  wp (for_up col cols (fun j ab =>
        let* x := aget ab (i + j * rows) in
        let* y := aget ab (col + j * rows) in
        aset ab (i + j * rows) (x -! y *! factor)) ab) Q.
Proof.
  intros Hl Hc Hi Hne Hrc HQ.
  apply (wp_for_up (fun c b => zlen b = rows * cols /\
    forall r k, 0 <= r < rows -> 0 <= k < cols -> mat rows b r k =
      if (r =? i) && ((col <=? k) && (k <? c)) then mat rows ab i k -! mat rows ab col k *! factor
      else mat rows ab r k)); [lia| | |].
  - split; [done|]. intros r k Hr Hk.
    replace ((col <=? k) && (k <? col)) with false; [by rewrite andb_false_r|].
    by destruct (Z.leb_spec col k), (Z.ltb_spec k col); try lia.
  - intros c b Hcr [Hb Hg].
    pose proof (mat_index_range rows cols i c Hi ltac:(lia)).
    pose proof (mat_index_range rows cols col c Hc ltac:(lia)).
    replace (i + c * rows) with (i + rows * c) by lia.
    replace (col + c * rows) with (col + rows * c) by lia.
    apply wp_bind, wp_aget; [lia|]. apply wp_bind, wp_aget; [lia|]. apply wp_aset; [lia|].
    fold (mat rows b i c) (mat rows b col c).
    split; [by rewrite zlen_upd|]. intros r k Hr Hk. rewrite (mat_upd rows cols) by lia.
    rewrite !Hg by lia. rewrite Z.ltb_irrefl, !andb_false_r.
    destruct (Z.eqb_spec i r), (Z.eqb_spec r i), (Z.eqb_spec c k), (Z.leb_spec col k),
      (Z.ltb_spec k c), (Z.ltb_spec k (c + 1)); subst; try lia; done.
  - intros b [Hb Hg]. apply HQ; [done|]. intros r k Hr Hk. rewrite Hg by lia.
    destruct (Z.ltb_spec k cols); [|lia]. by rewrite andb_true_r.
Qed.

Lemma solve_ab_swap_ok rows cols orig col r ab ill (Q : list D -> Prop) :
  solve_inv rows cols orig col (ab, ill) -> 0 <= col < rows -> rows <= cols -> col <= r < rows ->
  (forall b, solve_inv rows cols orig col (b, ill) -> Q b) ->
  wp (if negb (r =? col) then swap_rows rows col cols r col ab else Some ab) Q.
Proof.
  intros (Hl & Ht & Hs) Hc Hrc Hr HQ.
  destruct (Z.eqb_spec r col) as [->|Hne]; cbn [negb]; [by apply wp_ret, HQ|].
  apply (wp_swap_rows rows cols); [done|lia..|]. intros b Hb Hg.
  assert (Hfull : forall i k, 0 <= i < rows -> 0 <= k < cols -> mat rows b i k =
    if i =? r then mat rows ab col k else if i =? col then mat rows ab r k else mat rows ab i k).
  { intros i k Hi Hk. rewrite Hg by lia.
    destruct (Z.leb_spec col k), (Z.ltb_spec k cols); try lia; cbn [andb]; [done|].
    assert (Hz : forall j, col <= j < rows -> mat rows ab j k = dofZ 0).
    { intros j Hj. apply (proj1 (Ht j k ltac:(lia) ltac:(lia))). lia. }
    destruct (Z.eqb_spec i r) as [->|]; [by rewrite !Hz by lia|].
    destruct (Z.eqb_spec i col) as [->|]; [by rewrite !Hz by lia|done]. }
  apply HQ. split_and!; [done| |].
  - intros i k Hi Hk. rewrite Hfull by lia.
    destruct (Z.eqb_spec i r) as [->|]; [|destruct (Z.eqb_spec i col) as [->|]].
    + split; [|lia]. intros _. apply (Ht col k); lia.
    + split; [|lia]. intros _. apply (Ht r k); lia.
    + by apply Ht.
  - intros c x Hcr Hsol. apply Hs; [done|]. intros i Hi.
    destruct (decide (i = r)) as [->|]; [|destruct (decide (i = col)) as [->|]].
    + apply (row_eq_same _ _ b _ _ _ col); [|by apply Hsol]. intros k Hk. rewrite Hfull by lia.
      destruct (Z.eqb_spec col r); [lia|]. by rewrite Z.eqb_refl.
    + apply (row_eq_same _ _ b _ _ _ r); [|apply Hsol; lia]. intros k Hk. rewrite Hfull by lia.
      by rewrite Z.eqb_refl.
    + apply (row_eq_same _ _ b _ _ _ i); [|by apply Hsol]. intros k Hk. rewrite Hfull by lia.
      by destruct (Z.eqb_spec i r), (Z.eqb_spec i col).
Qed.

Lemma solve_ab_column_ok rows cols orig col s :
  solve_inv rows cols orig col s -> 0 <= col < rows -> rows <= cols ->
  wp (solve_ab_column rows cols col s)
    (ctl_post (solve_inv rows cols orig (col + 1)) (fun _ => True)).
Proof.
  destruct s as [ab ill]. intros Hinv Hc Hrc. pose proof Hinv as (Hl & _ & _).
  unfold solve_ab_column.
  pose proof (mat_index_range rows cols col col Hc ltac:(lia)).
  apply wp_bind, wp_aget; [lia|].
  apply wp_bind, (wp_pivot_row rows cols); [done|done|done|]. intros v r Hr. apply wp_bind.
  apply (solve_ab_swap_ok rows cols orig col r ab ill); [done|done|done|done|].
  clear ab Hinv Hl v. intros ab (Hl & Ht & Hs). apply wp_bind, wp_aget; [lia|].
  fold (mat rows ab col col). set (pivot := mat rows ab col col).
  apply wp_bind, (wp_normalize rows cols); [done|done|done| |by intros; apply wp_ret].
  intros ab1 ill1 Hl1 Hg1 Hd%divisible_nonzero.
  assert (Hz : forall j k, col <= j < rows -> 0 <= k < col -> mat rows ab j k = dofZ 0).
  { intros j k Hj Hk. apply (Ht j k); lia. }
  assert (Hf1 : forall r k, 0 <= r < rows -> 0 <= k < cols -> mat rows ab1 r k =
    if r =? col then mat rows ab col k /! pivot else mat rows ab r k).
  { intros i k Hi Hk. rewrite Hg1 by lia. destruct (Z.eqb_spec i col) as [->|]; [|done].
    cbn [andb]. case Z.leb_spec; intros; [done|]. rewrite !Hz by lia. by field. }
  assert (Hs1 : forall c x, rows <= c < cols -> solves rows ab1 c x -> solves rows orig c x).
  { intros c x Hcr Hsol. apply Hs; [done|]. intros i Hi.
    destruct (decide (i = col)) as [->|].
    - apply (row_eq_scaled _ _ ab1 _ _ _ pivot); [|by apply Hsol].
      intros k Hk. rewrite Hf1, Z.eqb_refl by lia. by field.
    - apply (row_eq_same _ _ ab1 _ _ _ i); [|by apply Hsol]. intros k Hk. rewrite Hf1 by lia.
      by destruct (Z.eqb_spec i col). }
  assert (Ht1 : triangular rows col ab1).
  { intros i k Hi Hk. rewrite Hf1 by lia. destruct (Z.eqb_spec i col) as [->|]; [|by apply Ht].
    split; [|lia]. intros _. rewrite Hz by lia. by field. }
  assert (Hu1 : mat rows ab1 col col = dofZ 1).
  { rewrite Hf1, Z.eqb_refl by lia. fold pivot. by field. }
  apply wp_bind.
  apply (wp_for_up (fun i b => zlen b = rows * cols /\ triangular rows col b /\
    mat rows b col col = dofZ 1 /\ (forall r, col < r < i -> mat rows b r col = dofZ 0) /\
    forall c x, rows <= c < cols -> solves rows b c x -> solves rows orig c x)); [lia| | |].
  - split_and!; try done. lia.
  - clear ab1 ab Hl1 Hg1 Hf1 Hs1 Ht1 Hu1 Hl Ht Hs pivot Hd Hz.
    intros i b Hi (Hb & Ht & Hu & Hz & Hs).
    pose proof (mat_index_range rows cols i col ltac:(lia) ltac:(lia)).
    replace (i + col * rows) with (i + rows * col) by lia.
    apply wp_bind, wp_aget; [lia|]. fold (mat rows b i col).
    apply (wp_eliminate_below rows cols); [done|lia..|]. intros b' Hb' Hg.
    assert (Hf : forall r k, 0 <= r < rows -> 0 <= k < cols -> mat rows b' r k =
      if r =? i then mat rows b i k -! mat rows b i col *! mat rows b col k else mat rows b r k).
    { intros r' k Hr' Hk. rewrite Hg by lia. destruct (Z.eqb_spec r' i) as [->|]; [|done].
      cbn [andb]. case Z.leb_spec; intros; [ring|].
      rewrite (proj1 (Ht col k ltac:(lia) ltac:(lia)) ltac:(lia)). ring. }
    split_and!; [done| | | |].
    + intros r' k Hr' Hk. rewrite Hf by lia. destruct (Z.eqb_spec r' i) as [->|]; [|by apply Ht].
      split; [|lia]. intros _. rewrite (proj1 (Ht i k ltac:(lia) ltac:(lia)) ltac:(lia)).
      rewrite (proj1 (Ht col k ltac:(lia) ltac:(lia)) ltac:(lia)). ring.
    + rewrite Hf by lia. by destruct (Z.eqb_spec col i); [lia|].
    + intros r' Hr'. rewrite Hf by lia. destruct (Z.eqb_spec r' i) as [->|]; [|apply Hz; lia].
      rewrite Hu. ring.
    + intros c x Hcr Hsol. apply Hs; [done|]. intros r' Hr'.
      destruct (decide (r' = i)) as [->|].
      * apply (row_eq_combine _ _ b' _ _ _ col (mat rows b i col)); [|apply Hsol; lia..].
        intros k Hk. rewrite !Hf by lia. rewrite Z.eqb_refl.
        destruct (Z.eqb_spec col i); [lia|]. ring.
      * apply (row_eq_same _ _ b' _ _ _ r'); [|by apply Hsol]. intros k Hk. rewrite Hf by lia.
        by destruct (Z.eqb_spec r' i).
  - intros b (Hb & Htb & Hub & Hzb & Hsb). apply wp_ret. split_and!; [done| |done].
    intros i k Hi Hk. destruct (decide (k = col)) as [->|]; [|apply Htb; lia].
    split; [intros; apply Hzb; lia|by intros <-].
Qed.

(** The back substitution leaves the solution in its column. *)
Lemma solve_ab_back_ok rows cols col ab (Q : ctl (list D) (list D) -> Prop) :
  zlen ab = rows * cols -> 0 <= rows <= col -> col < cols -> triangular rows rows ab ->
  (forall ab', zlen ab' = rows * cols ->
     (forall r k, 0 <= r < rows -> 0 <= k < cols -> k <> col -> mat rows ab' r k = mat rows ab r k) ->
     solves rows ab col (fun r => mat rows ab' r col) -> Q (Next ab')) ->
  (forall ab', Q (Exit ab')) ->
  wp (solve_ab_back rows col ab) Q.
Proof.
  intros Hl Hrc Hcol Ht HQ HQ'. unfold solve_ab_back.
  apply (wp_forx_down (fun c b => zlen b = rows * cols /\
    (forall r k, 0 <= r < rows -> 0 <= k < cols -> k <> col \/ r <= c ->
       mat rows b r k = mat rows ab r k) /\
    forall r, c < r < rows -> row_eq rows ab col (fun k => mat rows b k col) r)
    (fun _ => True)); [lia| | | |by intros; apply HQ'].
  - split_and!; [done|done|lia].
  - intros row b Hrow (Hb & Hsame & Hsol).
    pose proof (mat_index_range rows cols row col ltac:(lia) ltac:(lia)).
    replace (row + col * rows) with (row + rows * col) by lia.
    apply wp_bind, wp_aget; [lia|]. fold (mat rows b row col). apply wp_bind.
    apply (wp_for_up (fun c rhs => rhs = mat rows b row col -! dsum c (from_term (row + 1)
      (fun k => mat rows ab row k *! mat rows b k col)))); [lia| | |].
    + rewrite dsum_zero; [ring|]. intros k Hk. unfold from_term.
      by destruct (Z.leb_spec (row + 1) k); [lia|].
    + intros c rhs Hc ->.
      pose proof (mat_index_range rows cols row c ltac:(lia) ltac:(lia)).
      pose proof (mat_index_range rows cols c col ltac:(lia) ltac:(lia)).
      replace (row + c * rows) with (row + rows * c) by lia.
      replace (c + col * rows) with (c + rows * col) by lia.
      apply wp_bind, wp_aget; [lia|]. apply wp_bind, wp_aget; [lia|]. apply wp_ret.
      fold (mat rows b row c) (mat rows b c col). rewrite dsum_S by lia.
      unfold from_term at 3. destruct (Z.leb_spec (row + 1) c); [|lia].
      rewrite (Hsame row c) by lia. ring.
    + intros rhs ->.
      pose proof (mat_index_range rows cols row row ltac:(lia) ltac:(lia)).
      replace (row + row * rows) with (row + rows * row) by lia.
      apply wp_bind, wp_aget; [lia|]. fold (mat rows b row row).
      rewrite (Hsame row row) by lia.
      rewrite (proj2 (Ht row row ltac:(lia) ltac:(lia)) eq_refl).
      destruct (ref_math_divisible _ _) eqn:Hdiv; cbn [negb]; [|by apply wp_ret].
      apply divisible_nonzero in Hdiv.
      apply wp_bind, wp_aset; [lia|]. apply wp_ret.
      set (xr := (_ -! _) /! _). cbn.
      assert (Hg : forall r k, 0 <= r < rows -> 0 <= k < cols ->
        mat rows (upd b (row + rows * col) xr) r k =
          if (row =? r) && (col =? k) then xr else mat rows b r k).
      { intros r k Hr Hk. by apply (mat_upd rows cols); [lia..|]. }
      split_and!; [by rewrite zlen_upd| |].
      * intros r k Hr Hk Hor. rewrite Hg by lia.
        destruct (Z.eqb_spec row r), (Z.eqb_spec col k); cbn [andb]; try lia; apply Hsame; lia.
      * intros r Hr. unfold row_eq.
        rewrite (dsum_first rows r) by (lia || (intros k Hk;
          rewrite (proj1 (Ht r k ltac:(lia) ltac:(lia)) ltac:(lia)); ring)).
        rewrite (proj2 (Ht r r ltac:(lia) ltac:(lia)) eq_refl).
        rewrite (dsum_ext rows (from_term (r + 1) _) (from_term (r + 1)
          (fun k => mat rows ab r k *! mat rows b k col))).
        2:{ intros k Hk. unfold from_term. case Z.leb_spec; intros; [|done].
            rewrite Hg by lia. by destruct (Z.eqb_spec row k); [lia|]. }
        rewrite Hg by lia. rewrite Z.eqb_refl, andb_true_r.
        destruct (Z.eqb_spec row r) as [<-|Hne].
        -- unfold xr. rewrite (Hsame row col) by lia. by field.
        -- rewrite <- (Hsol r ltac:(lia)).
           rewrite (dsum_first rows r (fun k => mat rows ab r k *! mat rows b k col))
             by (lia || (intros k Hk; rewrite (proj1 (Ht r k ltac:(lia) ltac:(lia)) ltac:(lia)); ring)).
           by rewrite (proj2 (Ht r r ltac:(lia) ltac:(lia)) eq_refl).
  - intros b (Hb & Hsame & Hsol). apply HQ; [done| |].
    + intros r k Hr Hk Hne. apply Hsame; [done|done|by left].
    + intros r Hr. apply Hsol. lia.
Qed.

Lemma ref_matrix_solve_ab_ok rows cols ab :
  0 <= rows <= cols -> zlen ab = rows * cols ->
  wp (ref_matrix_solve_ab rows cols ab) (fun '(st, ab') =>
    st = REF_DIV_ZERO \/
    ((st = REF_SUCCESS \/ st = REF_ILL_CONDITIONED) /\ zlen ab' = rows * cols /\
     forall col, rows <= col < cols -> solves rows ab col (fun r => mat rows ab' r col))).
Proof.
  intros Hrc Hl. unfold ref_matrix_solve_ab. apply wp_bind.
  apply (wp_forx_up (solve_inv rows cols ab) (fun _ => True)); [lia| | | |].
  - split_and!; [done|intros ? ? ? ?; lia|done].
  - intros col s Hc Hs. apply solve_ab_column_ok; [done|lia|lia].
  - intros [ab1 ill] (Hl1 & Ht1 & Hs1). apply wp_bind.
    apply (wp_forx_up (fun c b => zlen b = rows * cols /\
      (forall r k, 0 <= r < rows -> 0 <= k < cols -> k < rows \/ c <= k ->
         mat rows b r k = mat rows ab1 r k) /\
      forall k, rows <= k < c -> solves rows ab1 k (fun r => mat rows b r k)) (fun _ => True));
      [lia| | | |].
    + split_and!; [done|done|lia].
    + intros col b Hc (Hb & Hsame & Hsol). apply wp_bind.
      apply (solve_ab_back_ok rows cols); [done|lia|lia| | |by intros; apply wp_ret].
      { intros r k Hr Hk. rewrite Hsame by lia. by apply Ht1. }
      intros b' Hb' Hsame' Hsol'. apply wp_ret. split_and!; [done| |].
      * intros r k Hr Hk Hor. rewrite Hsame' by lia. apply Hsame; lia.
      * intros k Hk r Hr. destruct (decide (k = col)) as [->|].
        -- specialize (Hsol' r Hr). unfold row_eq in *.
           rewrite (Hsame r col) in Hsol' by lia. rewrite <- Hsol'.
           apply dsum_ext. intros j Hj. by rewrite Hsame by lia.
        -- specialize (Hsol k ltac:(lia) r Hr). unfold row_eq in *. rewrite <- Hsol.
           apply dsum_ext. intros j Hj. by rewrite Hsame' by lia.
    + intros b (Hb & _ & Hsol). apply wp_ret. right. split; [destruct ill; [by right|by left]|split; [done|]].
      intros col Hc. apply Hs1; [done|]. apply Hsol. lia.
    + intros b _. apply wp_ret. by left.
  - intros b _. apply wp_ret. by left.
Qed.
End solve.

Lemma wp_map_eig {D} `{Dbl D, Junk D} (f : D -> D) (d : list D) (Q : list D -> Prop) :
  3 <= zlen d -> (forall d', zlen d' = zlen d -> Q d') -> wp (map_eig f d) Q.
Proof.
  intros Hd HQ. unfold map_eig.
  apply (wp_for_up (fun _ d' => zlen d' = zlen d)); [lia|done| |done].
  intros i d' Hi Hd'. apply wp_bind, wp_aget; [lia|]. apply wp_aset; [lia|]. by rewrite zlen_upd.
Qed.

Lemma wp_with12 {D} `{Dbl D} {A} (d : list D) k (Q : A -> Prop) :
  zlen d = 12 ->
  wp (k d.[0] d.[1] d.[2] d.[3] d.[4] d.[5] d.[6] d.[7] d.[8] d.[9] d.[10] d.[11]) Q ->
  wp (with12 d k) Q.
Proof.
  intros Hd HQ. unfold with12, with9, with6, with3. repeat (apply wp_bind, wp_aget; [lia|]). done.
Qed.

Lemma log_m_defined {D} `{Dbl D, Junk D} (m d : list D) :
  ref_matrix_diag_m m = Some (REF_SUCCESS, d) -> zlen d = 12 ->
  exists l, ref_matrix_log_m m = Some (REF_SUCCESS, l) /\ zlen l = 6.
Proof.
  intros Hm Hd. unfold ref_matrix_log_m. rewrite Hm. cbn [obind RSS].
  enough (wp (let* d := map_eig dlog d in ref_matrix_form_m d)
    (fun '(st, l) => st = REF_SUCCESS /\ zlen l = 6)) as ([st l] & -> & -> & ?) by by exists l.
  apply wp_bind, wp_map_eig; [lia|]. intros d' Hd'. unfold ref_matrix_form_m.
  apply wp_with12; [lia|]. by apply wp_ret.
Qed.

(** The metric of a new node: the logarithm of the identity is computed. *)
Class LogIdentity (D : Type) `{Dbl D, Junk D} :=
  log_identity : exists l,
    ref_matrix_log_m [dofZ 1; dofZ 0; dofZ 0; dofZ 1; dofZ 0; dofZ 1] = Some (REF_SUCCESS, l) /\
    zlen l = 6.

#[global] Instance binary64_log_identity (libm_log libm_exp : spec_float -> spec_float)
    `{Junk spec_float} : @LogIdentity spec_float (binary64 libm_log libm_exp) _.
Proof.
  eapply log_m_defined; [vm_compute; reflexivity|reflexivity].
Qed.

(** ** Proofs: the sweep of [ref_matrix_diag_m] past its arrays *)

Lemma tridiagonal_lengths {D} `{Dbl D} (m d e : list D) :
  tridiagonal m = Some (d, e) -> zlen d = 12 /\ zlen e = 3.
Proof.
  unfold tridiagonal. intros Ht. do 6 (destruct (aget m _); cbn [obind] in Ht; [|done]).
  destruct (_ && _); injection Ht as <- <-; done.
Qed.

(** What follows the sweep in a turn of the QL iteration. *)
Definition after_sweep {D} `{Dbl D} (tst1 f dl1 el1 : D) (st : list D * list D * D * D * D * D * D * D)
    : option (ctl (Z * list D * list D * D * D * D) (bool * (list D * list D * D * D * D))) :=
  let '(d, e, c, c2, c3, s, s2, p) := st in
  let* el := aget e 0 in
  let p := -! s *! s2 *! c3 *! el1 *! el /! dl1 in
  let* e := aset e 0 (s *! p) in
  let* d := aset d 0 (c *! p) in
  let* el := aget e 0 in
  if dABS (tst1 +! dABS el -! tst1) <?! d_em 1 14 then Some (Exit (true, (d, e, f, c3, s2)))
  else Some (Next (1, d, e, f, c3, s2)).

(** A turn for the first row with [mm = 3] reaches the sweep. *)
Lemma ql_iteration_sweep {D} `{Dbl D} (d e : list D) tst1 f c3 s2 :
  12 <= zlen d -> 3 <= zlen e ->
  exists d1 f1 dl1, zlen d1 = zlen d /\ d1.[3] = d.[3] /\
    ql_iteration 0 3 tst1 (0, d, e, f, c3, s2) =
    obind (for_up 0 3 (ql_row 3) (d1, e, dofZ 1, dofZ 1, c3, dofZ 0, s2, d.[3]))
      (after_sweep tst1 f1 dl1 e.[1]).
Proof.
  intros Hd He. unfold ql_iteration.
  change (30 <? 0 + 1) with false. change (0 + 1 + 1 <=? 2) with true. change (0 + 1 + 1) with 2.
  change (0 + 1) with 1. change (3 - 0) with 3.
  do 3 (rewrite aget_aat by lia; cbn [obind]). do 2 (rewrite aset_upd by (rewrite ?zlen_upd; lia); cbn [obind]).
  do 2 (rewrite aget_aat by (rewrite !zlen_upd; lia); cbn [obind]).
  match goal with |- context [for_up 2 3 ?b ?d0] => set (low := for_up 2 3 b d0) end.
  assert (Hlow : wp low (fun d1 => zlen d1 = zlen d /\ d1.[3] = d.[3])).
  { apply (wp_for_up (fun _ d1 => zlen d1 = zlen d /\ d1.[3] = d.[3])); [lia| | |done].
    - rewrite !zlen_upd, !aat_upd by (rewrite ?zlen_upd; lia). done.
    - intros i d1 Hi [Hz H3]. apply wp_bind, wp_aget; [lia|]. apply wp_aset; [lia|].
      rewrite zlen_upd, aat_upd by lia. destruct (Z.eqb_spec i 3); [lia|done]. }
  destruct Hlow as (d1 & -> & Hz & H3). cbn [obind].
  rewrite !aget_aat by lia. cbn [obind]. rewrite H3. by eexists d1, _, _.
Qed.

(** Its first row writes [e] at 3. *)
Lemma ql_row_past {D} `{Dbl D} (d e : list D) c c2 c3 s s2 p :
  zlen e = 3 -> ql_row 3 0 (d, e, c, c2, c3, s, s2, p) = None.
Proof.
  intros He. unfold ql_row. cbn [Z.sub Z.add]. rewrite aget_aat by lia. cbn [obind].
  by rewrite aset_out by lia.
Qed.

Lemma ql_iteration_past {D} `{Dbl D} (d e : list D) tst1 f c3 s2 :
  12 <= zlen d -> zlen e = 3 -> ql_iteration 0 3 tst1 (0, d, e, f, c3, s2) = None.
Proof.
  intros Hd He. destruct (ql_iteration_sweep d e tst1 f c3 s2) as (d1 & f1 & dl1 & _ & _ & ->); [lia..|].
  unfold for_up. change (Z.to_nat (3 - 0)) with 3%nat. cbn [for_nat]. by rewrite ql_row_past.
Qed.

(** With a fourth entry in [e] and a fourth vector in [d] the turn is defined, and
    that entry is written. *)
Lemma ql_iteration_fourth {D} `{Dbl D} (d e : list D) tst1 f c3 s2 :
  15 <= zlen d -> zlen e = 4 ->
  wp (ql_iteration 0 3 tst1 (0, d, e, f, c3, s2)) (fun c =>
    match c with Next (_, _, e', _, _, _) | Exit (_, (_, e', _, _, _)) =>
      e'.[3] = dofZ 0 *! dsqrt (d.[3] *! d.[3] +! e.[2] *! e.[2]) end).
Proof.
  intros Hd He. destruct (ql_iteration_sweep d e tst1 f c3 s2) as (d1 & f1 & dl1 & Hd1 & H3 & ->); [lia..|].
  rewrite <- H3. clear H3. set (w := dofZ 0 *! _). rewrite <- Hd1 in Hd. clear Hd1.
  apply wp_bind, (wp_for_up (fun ii '(d, e', c, c2, c3, s, s2, p) => 15 <= zlen d /\ zlen e' = 4 /\
    (if ii =? 0 then e' = e /\ s = dofZ 0 /\ p = d1.[3] else e'.[3] = w))); [lia|done| |].
  - intros ii [[[[[[[d2 e2] c] c2] c3'] s] s2'] p] Hii (Hz & Hze & Hst). unfold ql_row.
    apply wp_bind, wp_aget; [lia|]. apply wp_bind, wp_aset; [lia|]. apply wp_bind, wp_aget; [rewrite zlen_upd; lia|].
    apply wp_bind, wp_aget; [lia|]. apply wp_bind, wp_aget; [lia|]. apply wp_bind, wp_aset; [lia|].
    apply wp_bind, (wp_for_up (fun _ d => 15 <= zlen d)); [lia|by rewrite zlen_upd| |].
    + intros k d3 Hk Hd3. unfold ref_matrix_vec. apply wp_bind, wp_aget; [lia|]. apply wp_bind, wp_aget; [lia|].
      apply wp_bind, wp_aset; [lia|]. apply wp_bind, wp_aget; [rewrite zlen_upd; lia|].
      apply wp_aset; [rewrite zlen_upd; lia|]. by rewrite !zlen_upd.
    + intros d3 Hd3. apply wp_ret. rewrite zlen_upd. split; [done|]. split; [done|].
      destruct (Z.eqb_spec (ii + 1) 0); [lia|]. rewrite aat_upd by lia.
      destruct (Z.eqb_spec ii 0) as [->|Hne]; [by destruct Hst as (-> & -> & ->)|].
      destruct (Z.eqb_spec (3 - ii - 1 + 1) 3); [lia|done].
  - intros [[[[[[[d2 e2] c] c2] c3'] s] s2'] p] (Hz & Hze & Hst). cbn in Hst. unfold after_sweep.
    apply wp_bind, wp_aget; [lia|]. apply wp_bind, wp_aset; [lia|]. apply wp_bind, wp_aset; [lia|].
    apply wp_bind, wp_aget; [rewrite zlen_upd; lia|].
    destruct (_ <?! _); apply wp_ret; by rewrite aat_upd by lia.
Qed.

(** ** Properties *)

(** C9. In exact arithmetic [ref_matrix_inv_gen] is defined for every square
    matrix, and when it does not report a division by zero the product of its
    result with the matrix is the identity. *)
Theorem ref_matrix_inv_gen_inverts {D : Type} `{DblField D, Junk D} (n : Z) (orig inv : list D) :
  0 <= n -> zlen orig = n * n -> zlen inv = n * n ->
  exists st inv', ref_matrix_inv_gen n orig inv = Some (st, inv') /\
    (st = REF_DIV_ZERO \/
     st = REF_SUCCESS /\ zlen inv' = n * n /\
     forall i k, 0 <= i < n -> 0 <= k < n ->
       dsum n (fun l => mat n inv' i l *! mat n orig l k) = delta i k).
Proof.
  intros Hn Ho Hi. destruct (ref_matrix_inv_gen_ok n orig inv Hn Ho Hi) as ([st inv'] & Heq & Hpost).
  by exists st, inv'.
Qed.

#[local] Instance rational_example : Dbl Qc := rational id id id.
#[local] Instance rational_example_field : DblField Qc := rational_field id id id.
#[local] Instance rational_example_junk : Junk Qc := fun _ => dofZ 7.

Lemma ref_matrix_inv_gen_inverts_witness :
  fst <$> ref_matrix_inv_gen 2 (map dofZ [0; 1; 2; 3]) (map dofZ [9; 9; 9; 9]) = Some REF_SUCCESS /\
  exists st inv', ref_matrix_inv_gen 2 (map dofZ [0; 1; 2; 3]) (map dofZ [9; 9; 9; 9]) = Some (st, inv') /\
    (st = REF_DIV_ZERO \/
     st = REF_SUCCESS /\ zlen inv' = 4 /\
     forall i k, 0 <= i < 2 -> 0 <= k < 2 ->
       dsum 2 (fun l => mat 2 inv' i l *! mat 2 (map dofZ [0; 1; 2; 3]) l k) = delta i k).
Proof.
  split; [vm_compute; reflexivity|].
  apply (ref_matrix_inv_gen_inverts 2 (map dofZ [0; 1; 2; 3]) (map dofZ [9; 9; 9; 9]));
    [lia|reflexivity|reflexivity].
Defined.

(** C10. In exact arithmetic [ref_matrix_solve_ab] is defined for every system,
    and unless it reports a division by zero each column after the matrix is
    replaced by a solution of the linear equations with that right hand side. *)
Theorem ref_matrix_solve_ab_solves {D : Type} `{DblField D, Junk D} (rows cols : Z) (ab : list D) :
  0 <= rows <= cols -> zlen ab = rows * cols ->
  exists st ab', ref_matrix_solve_ab rows cols ab = Some (st, ab') /\
    (st = REF_DIV_ZERO \/
     (st = REF_SUCCESS \/ st = REF_ILL_CONDITIONED) /\ zlen ab' = rows * cols /\
     forall col r, rows <= col < cols -> 0 <= r < rows ->
       dsum rows (fun k => mat rows ab r k *! mat rows ab' k col) = mat rows ab r col).
Proof.
  intros Hrc Hl. destruct (ref_matrix_solve_ab_ok rows cols ab Hrc Hl) as ([st ab'] & Heq & Hpost).
  exists st, ab'. split; [done|]. destruct Hpost as [?|(? & ? & Hsol)]; [by left|right].
  split; [done|]. split; [done|]. intros col r Hc Hr. exact (Hsol col Hc r Hr).
Qed.

Lemma ref_matrix_solve_ab_solves_witness :
  fst <$> ref_matrix_solve_ab 2 3 (map dofZ [0; 1; 2; 3; 4; 5]) = Some REF_SUCCESS /\
  exists st ab', ref_matrix_solve_ab 2 3 (map dofZ [0; 1; 2; 3; 4; 5]) = Some (st, ab') /\
    (st = REF_DIV_ZERO \/
     (st = REF_SUCCESS \/ st = REF_ILL_CONDITIONED) /\ zlen ab' = 6 /\
     forall col r, 2 <= col < 3 -> 0 <= r < 2 ->
       dsum 2 (fun k => mat 2 (map dofZ [0; 1; 2; 3; 4; 5]) r k *! mat 2 ab' k col) =
       mat 2 (map dofZ [0; 1; 2; 3; 4; 5]) r col).
Proof.
  split; [vm_compute; reflexivity|].
  apply (ref_matrix_solve_ab_solves 2 3 (map dofZ [0; 1; 2; 3; 4; 5])); [lia|reflexivity].
Defined.

(** [ref_matrix_det_gen] does not exchange rows: for the matrix that swaps two
    coordinates, whose determinant is -1, it returns 0 with [REF_SUCCESS], on
    doubles and in exact arithmetic. *)
Theorem ref_matrix_det_gen_zero_pivot (libm_log libm_exp : spec_float -> spec_float)
    `{Junk spec_float} :
  (let _ := binary64 libm_log libm_exp in
   ref_matrix_det_gen 2 [dofZ 0; dofZ 1; dofZ 1; dofZ 0] = Some (REF_SUCCESS, dofZ 0)) /\
  ref_matrix_det_gen (D := Qc) 2 [dofZ 0; dofZ 1; dofZ 1; dofZ 0] = Some (REF_SUCCESS, dofZ 0).
Proof. split; vm_compute; reflexivity. Qed.

Section ieee.
Context (libm_log libm_exp : spec_float -> spec_float) `{Junk spec_float}.
#[local] Instance ieee : Dbl spec_float := binary64 libm_log libm_exp.

(** When the magnitudes of the first row add up to infinity, the test for a small
    sub-diagonal entry subtracts infinity from infinity and always fails. *)
Lemma small_test_infinite (x : spec_float) :
  (dABS (S754_infinity false +! dABS x -! S754_infinity false) <?! d_em 1 14) = false.
Proof. by destruct x as [[]|[]| |[] m e]. Qed.

Lemma ql_row_loop_infinite (d e : list spec_float) :
  zlen d = 12 -> zlen e = 3 -> dABS d.[0] +! dABS e.[0] = S754_infinity false ->
  ql_row_loop 0 (d, e, dofZ 0, dofZ 0, dofZ 0, dofZ 0) = None.
Proof.
  intros Hd He Hinf. unfold ql_row_loop. rewrite !aget_aat by lia. cbn [obind]. rewrite Hinf.
  change (dofZ 0 <?! S754_infinity false) with true. cbn iota.
  rewrite (forx_search 3 (fun _ => false) 0).
  - change (existsb _ _) with false. cbn [obind]. change (negb (3 =? 0)) with true. cbn iota.
    by rewrite loop_S, ql_iteration_past by lia.
  - intros mm Hmm. rewrite aget_aat by lia. cbn [obind]. by rewrite small_test_infinite.
Qed.

(** C18. The test for infinite and NaN entries does not keep [ref_matrix_diag_m]
    inside its arrays. For every matrix of finite doubles whose first row, made
    tridiagonal, has magnitudes that add up to infinity, the test for a small
    sub-diagonal entry fails for all three entries, so [mm] is 3, and the first turn of
    the QL iteration writes [e[3]] of an array of three: the turn is undefined however
    many entries [d] has more, and with one entry more in [e] (and the fourth vector in
    [d] that it then reads) it is defined and has written that entry. *)
Theorem ref_matrix_diag_m_overflow (m d e : list spec_float) :
  zlen m = 6 -> forallb disfinite m = true -> tridiagonal m = Some (d, e) ->
  dABS d.[0] +! dABS e.[0] = S754_infinity false ->
  ref_matrix_diag_m m = None /\
  (forall mm, 0 <= mm < 3 ->
     (dABS (S754_infinity false +! dABS e.[mm] -! S754_infinity false) <?! d_em 1 14) = false) /\
  (forall y, ql_iteration 0 3 (S754_infinity false) (0, d ++ y, e, dofZ 0, dofZ 0, dofZ 0) = None) /\
  (forall x y, 3 <= zlen y -> exists c,
     ql_iteration 0 3 (S754_infinity false) (0, d ++ y, e ++ [x], dofZ 0, dofZ 0, dofZ 0) = Some c /\
     match c with Next (_, _, e', _, _, _) | Exit (_, (_, e', _, _, _)) =>
       e'.[3] = dofZ 0 *! dsqrt (d.[3] *! d.[3] +! e.[2] *! e.[2]) end).
Proof.
  intros Hm Hfin Ht Hinf. destruct (tridiagonal_lengths m d e Ht) as [Hd He]. split; [|split; [|split]].
  - unfold ref_matrix_diag_m. do 6 (rewrite aget_aat by lia; cbn [obind]).
    assert (Hf : forall i, 0 <= i < 6 -> disfinite m.[i] = true).
    { intros i Hi. rewrite forallb_forall in Hfin. apply Hfin, list_elem_of_In, elem_of_aat. exists i. split; [lia|done]. }
    rewrite !Hf by lia. cbn [negb orb]. rewrite Ht. cbn [obind].
    unfold forx_up. change (Z.to_nat (3 - 0)) with 3%nat. cbn [forx_nat].
    by rewrite (ql_row_loop_infinite d e Hd He Hinf).
  - intros mm _. exact (small_test_infinite e.[mm]).
  - intros y. apply ql_iteration_past; [|done]. rewrite zlen_app, Hd. pose proof (zlen_nonneg y). lia.
  - intros x y Hy. destruct (ql_iteration_fourth (d ++ y) (e ++ [x]) (S754_infinity false) (dofZ 0) (dofZ 0) (dofZ 0))
      as (c & Heq & Hc); [rewrite zlen_app; lia|rewrite zlen_app, He; done|].
    exists c. split; [exact Heq|]. rewrite !aat_app_l in Hc by lia. exact Hc.
Qed.
End ieee.

(** The entry of 1e160 is squared under the root. *)
Lemma ref_matrix_diag_m_overflow_witness :
  exists (m d e : list spec_float),
    m = (let _ := ieee id id in [dofZ 1; d_ep 1 160; dofZ 0; dofZ 1; dofZ 0; dofZ 1]) /\
    @tridiagonal _ (ieee id id) m = Some (d, e) /\
    @ref_matrix_diag_m _ (ieee id id) (fun _ => S754_nan) m = None.
Proof.
  eexists _, _, _. split; [reflexivity|]. split; [vm_compute; reflexivity|].
  eapply (ref_matrix_diag_m_overflow id id); [reflexivity|vm_compute; reflexivity..].
Defined.
