(* ===== verification/RefMpi.v ===== *)
(** * ref_mpi.h: the communicator

    The members of [REF_MPI] that the modelled code reads. A process of a
    parallel run is a state that carries its own [REF_MPI]. *)
From S2P Require Import Prelude.
From stdpp Require Import prelude list.
From Stdlib Require Import ZArith Lia.
Open Scope Z_scope.
Open Scope ref_scope.

Record REF_MPI := mkREF_MPI { mpi_n : Z; mpi_id : Z; mpi_timing : Z }.

Definition ref_mpi_n (m : REF_MPI) : Z := mpi_n m.
Definition ref_mpi_rank (m : REF_MPI) : Z := mpi_id m.
Definition ref_mpi_para (m : REF_MPI) : bool := 1 <? mpi_n m.
