(* ===== verification/RefNode.v ===== *)
(** * ref_node.c: the vertices of one process

    [REF_NODE] keeps, for each local index, the global index (or, for an
    unused local index, the link to the next unused one), the owning part, the
    age and the coordinates and metric, and an array of the local indices
    sorted by global index that [ref_node_local] searches. It also keeps the
    stack of global indices freed by removals. [node_wf] is the invariant of
    the operations, [node_map] the finite map from global to local indices
    that the sorted arrays stand for. The geometry that ref_node.c computes
    from the coordinates (ratio, quality, volumes) has no model; nor has
    printing. *)
From S2P Require Import Prelude RefMpi RefSort RefDbl RefMatrix.
From stdpp Require Import prelude list gmap.
From Stdlib Require Import ZArith Lia SpecFloat.
Open Scope Z_scope.
Open Scope ref_scope.
Open Scope dbl_scope.

Record REF_NODE (D : Type) := mkREF_NODE {
  node_n : Z;
  node_max : Z;
  node_blank : Z;
  node_global : list Z;
  node_sorted_global : list Z;
  node_sorted_local : list Z;
  node_part : list Z;
  node_age : list Z;
  node_real : list D;
  node_naux : Z;
  node_aux : list D;
  node_mpi : REF_MPI;
  node_n_unused : Z;
  node_max_unused : Z;
  node_unused_global : list Z;
  node_old_n_global : Z;
  node_new_n_global : Z;
  node_min_volume : D;
  node_min_uv_area : D;
  node_same_normal_tol : D;
  node_tet_quality : Z;
  node_tri_quality : Z;
  node_ratio_method : Z
}.
#[global] Arguments mkREF_NODE {D}.
#[global] Arguments node_n {D}.
#[global] Arguments node_max {D}.
#[global] Arguments node_blank {D}.
#[global] Arguments node_global {D}.
#[global] Arguments node_sorted_global {D}.
#[global] Arguments node_sorted_local {D}.
#[global] Arguments node_part {D}.
#[global] Arguments node_age {D}.
#[global] Arguments node_real {D}.
#[global] Arguments node_naux {D}.
#[global] Arguments node_aux {D}.
#[global] Arguments node_mpi {D}.
#[global] Arguments node_n_unused {D}.
#[global] Arguments node_max_unused {D}.
#[global] Arguments node_unused_global {D}.
#[global] Arguments node_old_n_global {D}.
#[global] Arguments node_new_n_global {D}.
#[global] Arguments node_min_volume {D}.
#[global] Arguments node_min_uv_area {D}.
#[global] Arguments node_same_normal_tol {D}.
#[global] Arguments node_tet_quality {D}.
#[global] Arguments node_tri_quality {D}.
#[global] Arguments node_ratio_method {D}.

(** Assignments to one member. *)
Section setters.
Context {D : Type}.
Implicit Types (r : REF_NODE D).
Definition set_node_n (x : Z) r : REF_NODE D :=
  mkREF_NODE x (node_max r) (node_blank r) (node_global r) (node_sorted_global r)
    (node_sorted_local r) (node_part r) (node_age r) (node_real r) (node_naux r)
    (node_aux r) (node_mpi r) (node_n_unused r) (node_max_unused r) (node_unused_global
    r) (node_old_n_global r) (node_new_n_global r) (node_min_volume r) (node_min_uv_area
    r) (node_same_normal_tol r) (node_tet_quality r) (node_tri_quality r)
    (node_ratio_method r).
Definition set_node_max (x : Z) r : REF_NODE D :=
  mkREF_NODE (node_n r) x (node_blank r) (node_global r) (node_sorted_global r)
    (node_sorted_local r) (node_part r) (node_age r) (node_real r) (node_naux r)
    (node_aux r) (node_mpi r) (node_n_unused r) (node_max_unused r) (node_unused_global
    r) (node_old_n_global r) (node_new_n_global r) (node_min_volume r) (node_min_uv_area
    r) (node_same_normal_tol r) (node_tet_quality r) (node_tri_quality r)
    (node_ratio_method r).
Definition set_node_blank (x : Z) r : REF_NODE D :=
  mkREF_NODE (node_n r) (node_max r) x (node_global r) (node_sorted_global r)
    (node_sorted_local r) (node_part r) (node_age r) (node_real r) (node_naux r)
    (node_aux r) (node_mpi r) (node_n_unused r) (node_max_unused r) (node_unused_global
    r) (node_old_n_global r) (node_new_n_global r) (node_min_volume r) (node_min_uv_area
    r) (node_same_normal_tol r) (node_tet_quality r) (node_tri_quality r)
    (node_ratio_method r).
Definition set_node_global (x : list Z) r : REF_NODE D :=
  mkREF_NODE (node_n r) (node_max r) (node_blank r) x (node_sorted_global r)
    (node_sorted_local r) (node_part r) (node_age r) (node_real r) (node_naux r)
    (node_aux r) (node_mpi r) (node_n_unused r) (node_max_unused r) (node_unused_global
    r) (node_old_n_global r) (node_new_n_global r) (node_min_volume r) (node_min_uv_area
    r) (node_same_normal_tol r) (node_tet_quality r) (node_tri_quality r)
    (node_ratio_method r).
Definition set_node_sorted_global (x : list Z) r : REF_NODE D :=
  mkREF_NODE (node_n r) (node_max r) (node_blank r) (node_global r) x (node_sorted_local
    r) (node_part r) (node_age r) (node_real r) (node_naux r) (node_aux r) (node_mpi r)
    (node_n_unused r) (node_max_unused r) (node_unused_global r) (node_old_n_global r)
    (node_new_n_global r) (node_min_volume r) (node_min_uv_area r) (node_same_normal_tol
    r) (node_tet_quality r) (node_tri_quality r) (node_ratio_method r).
Definition set_node_sorted_local (x : list Z) r : REF_NODE D :=
  mkREF_NODE (node_n r) (node_max r) (node_blank r) (node_global r) (node_sorted_global
    r) x (node_part r) (node_age r) (node_real r) (node_naux r) (node_aux r) (node_mpi
    r) (node_n_unused r) (node_max_unused r) (node_unused_global r) (node_old_n_global
    r) (node_new_n_global r) (node_min_volume r) (node_min_uv_area r)
    (node_same_normal_tol r) (node_tet_quality r) (node_tri_quality r)
    (node_ratio_method r).
Definition set_node_part (x : list Z) r : REF_NODE D :=
  mkREF_NODE (node_n r) (node_max r) (node_blank r) (node_global r) (node_sorted_global
    r) (node_sorted_local r) x (node_age r) (node_real r) (node_naux r) (node_aux r)
    (node_mpi r) (node_n_unused r) (node_max_unused r) (node_unused_global r)
    (node_old_n_global r) (node_new_n_global r) (node_min_volume r) (node_min_uv_area r)
    (node_same_normal_tol r) (node_tet_quality r) (node_tri_quality r)
    (node_ratio_method r).
Definition set_node_age (x : list Z) r : REF_NODE D :=
  mkREF_NODE (node_n r) (node_max r) (node_blank r) (node_global r) (node_sorted_global
    r) (node_sorted_local r) (node_part r) x (node_real r) (node_naux r) (node_aux r)
    (node_mpi r) (node_n_unused r) (node_max_unused r) (node_unused_global r)
    (node_old_n_global r) (node_new_n_global r) (node_min_volume r) (node_min_uv_area r)
    (node_same_normal_tol r) (node_tet_quality r) (node_tri_quality r)
    (node_ratio_method r).
Definition set_node_real (x : list D) r : REF_NODE D :=
  mkREF_NODE (node_n r) (node_max r) (node_blank r) (node_global r) (node_sorted_global
    r) (node_sorted_local r) (node_part r) (node_age r) x (node_naux r) (node_aux r)
    (node_mpi r) (node_n_unused r) (node_max_unused r) (node_unused_global r)
    (node_old_n_global r) (node_new_n_global r) (node_min_volume r) (node_min_uv_area r)
    (node_same_normal_tol r) (node_tet_quality r) (node_tri_quality r)
    (node_ratio_method r).
Definition set_node_aux (x : list D) r : REF_NODE D :=
  mkREF_NODE (node_n r) (node_max r) (node_blank r) (node_global r) (node_sorted_global
    r) (node_sorted_local r) (node_part r) (node_age r) (node_real r) (node_naux r) x
    (node_mpi r) (node_n_unused r) (node_max_unused r) (node_unused_global r)
    (node_old_n_global r) (node_new_n_global r) (node_min_volume r) (node_min_uv_area r)
    (node_same_normal_tol r) (node_tet_quality r) (node_tri_quality r)
    (node_ratio_method r).
Definition set_node_n_unused (x : Z) r : REF_NODE D :=
  mkREF_NODE (node_n r) (node_max r) (node_blank r) (node_global r) (node_sorted_global
    r) (node_sorted_local r) (node_part r) (node_age r) (node_real r) (node_naux r)
    (node_aux r) (node_mpi r) x (node_max_unused r) (node_unused_global r)
    (node_old_n_global r) (node_new_n_global r) (node_min_volume r) (node_min_uv_area r)
    (node_same_normal_tol r) (node_tet_quality r) (node_tri_quality r)
    (node_ratio_method r).
Definition set_node_max_unused (x : Z) r : REF_NODE D :=
  mkREF_NODE (node_n r) (node_max r) (node_blank r) (node_global r) (node_sorted_global
    r) (node_sorted_local r) (node_part r) (node_age r) (node_real r) (node_naux r)
    (node_aux r) (node_mpi r) (node_n_unused r) x (node_unused_global r)
    (node_old_n_global r) (node_new_n_global r) (node_min_volume r) (node_min_uv_area r)
    (node_same_normal_tol r) (node_tet_quality r) (node_tri_quality r)
    (node_ratio_method r).
Definition set_node_unused_global (x : list Z) r : REF_NODE D :=
  mkREF_NODE (node_n r) (node_max r) (node_blank r) (node_global r) (node_sorted_global
    r) (node_sorted_local r) (node_part r) (node_age r) (node_real r) (node_naux r)
    (node_aux r) (node_mpi r) (node_n_unused r) (node_max_unused r) x (node_old_n_global
    r) (node_new_n_global r) (node_min_volume r) (node_min_uv_area r)
    (node_same_normal_tol r) (node_tet_quality r) (node_tri_quality r)
    (node_ratio_method r).
Definition set_node_old_n_global (x : Z) r : REF_NODE D :=
  mkREF_NODE (node_n r) (node_max r) (node_blank r) (node_global r) (node_sorted_global
    r) (node_sorted_local r) (node_part r) (node_age r) (node_real r) (node_naux r)
    (node_aux r) (node_mpi r) (node_n_unused r) (node_max_unused r) (node_unused_global
    r) x (node_new_n_global r) (node_min_volume r) (node_min_uv_area r)
    (node_same_normal_tol r) (node_tet_quality r) (node_tri_quality r)
    (node_ratio_method r).
Definition set_node_new_n_global (x : Z) r : REF_NODE D :=
  mkREF_NODE (node_n r) (node_max r) (node_blank r) (node_global r) (node_sorted_global
    r) (node_sorted_local r) (node_part r) (node_age r) (node_real r) (node_naux r)
    (node_aux r) (node_mpi r) (node_n_unused r) (node_max_unused r) (node_unused_global
    r) (node_old_n_global r) x (node_min_volume r) (node_min_uv_area r)
    (node_same_normal_tol r) (node_tet_quality r) (node_tri_quality r)
    (node_ratio_method r).
End setters.


(** [REF_EMPTY] ends the list of unused indices, so an index is shifted by 2. *)
Definition next2index (next : Z) : Z := - next - 2.
Definition index2next (index : Z) : Z := -2 - index.

Definition REF_NODE_REAL_PER : Z := 15.

(** [(REF_INT)(1.5 * (REF_DBL)orig)], exact in double precision. *)
Definition half_more (orig : Z) : Z := Z.quot (3 * orig) 2.

Section macros.
Context {D : Type}.
Implicit Types (r : REF_NODE D).

Definition ref_node_valid r (node : Z) : option bool :=
  if (-1 <? node) && (node <? node_max r) then
    let* g := aget (node_global r) node in
    Some (0 <=? g)
  else Some false.

Definition ref_node_global r (node : Z) : option Z :=
  let* v := ref_node_valid r node in
  if v : bool then aget (node_global r) node else Some REF_EMPTY.

Definition ref_node_owned r (node : Z) : option bool :=
  let* p := aget (node_part r) node in
  Some (ref_mpi_rank (node_mpi r) =? p).

(** The loop [each_ref_node_valid_node] when its body does not change [r]. *)
Definition each_ref_node_valid_node {T} r (body : Z -> T -> option T) (s : T) : option T :=
  for_up 0 (node_max r) (fun node s =>
    let* v := ref_node_valid r node in
    if v : bool then body node s else Some s) s.

(** The subscript of [real], an [int]. *)
Definition real_index (ireal node : Z) : option Z :=
  let* m := ck_int (REF_NODE_REAL_PER * node) in
  ck_int (ireal + m).
End macros.

Section ops.
Context {D : Type} `{Dbl D, Junk D, Junk Z}.
Implicit Types (r : REF_NODE D).

Definition ref_node_create (mpi : REF_MPI) : option (REF_STATUS * REF_NODE D) :=
  let max := 20 in
  let* global := for_up 0 max (fun node g => aset g node (index2next (node + 1))) (alloc max) in
  let* global := aset global (max - 1) REF_EMPTY in
  Some (REF_SUCCESS,
    mkREF_NODE 0 max (index2next 0) global (alloc max) (alloc max) (alloc max) (alloc max)
      (alloc (REF_NODE_REAL_PER * max)) 0 [] mpi 0 10 (alloc 10) REF_EMPTY REF_EMPTY
      (d_em 1 15) (dofZ 0) (dofZ 1 -! d_em 1 8) 2 2 1).

(** [for (i = 0; i < n; i++) dst[i] = src[i]] *)
Definition copy_array {A} (n : Z) (src dst : list A) : option (list A) :=
  for_up 0 n (fun i dst => let* x := aget src i in aset dst i x) dst.

Definition ref_node_deep_copy (mpi : REF_MPI) (original : REF_NODE D)
    : option (REF_STATUS * REF_NODE D) :=
  let max := node_max original in
  let* global := copy_array max (node_global original) (alloc max) in
  let* sorted_global := copy_array max (node_sorted_global original) (alloc max) in
  let* sorted_local := copy_array max (node_sorted_local original) (alloc max) in
  let* part := copy_array max (node_part original) (alloc max) in
  let* age := copy_array max (node_age original) (alloc max) in
  let* nreal := ck_int (REF_NODE_REAL_PER * max) in
  let* real :=
    for_up 0 max (fun node real =>
      for_up 0 REF_NODE_REAL_PER (fun i real =>
        let* k := real_index i node in
        let* x := aget (node_real original) k in
        aset real k x) real) (alloc nreal) in
  let naux := node_naux original in
  let* aux :=
    if 0 <? naux then
      let* nnaux := ck_int (naux * max) in
      for_up 0 max (fun node aux =>
        for_up 0 naux (fun i aux =>
          let* k := ck_int (naux * node) in
          let* k := ck_int (i + k) in
          let* x := aget (node_aux original) k in
          aset aux k x) aux) (alloc nnaux)
    else Some [] in
  let* unused_global :=
    copy_array (node_n_unused original) (node_unused_global original)
      (alloc (node_max_unused original)) in
  Some (REF_SUCCESS,
    mkREF_NODE (node_n original) max (node_blank original) global sorted_global sorted_local
      part age real naux aux mpi (node_n_unused original) (node_max_unused original)
      unused_global (node_old_n_global original) (node_new_n_global original)
      (node_min_volume original) (node_min_uv_area original) (node_same_normal_tol original)
      (node_tet_quality original) (node_tri_quality original) (node_ratio_method original)).

(** [dst[node] = src[n2o[node]]] for the nodes in use. *)
Definition permute_array {A} (n : Z) (n2o : list Z) (src dst : list A) : option (list A) :=
  for_up 0 n (fun node dst =>
    let* old := aget n2o node in
    let* x := aget src old in
    aset dst node x) dst.

Definition ref_node_pack r (o2n n2o : list Z) : option (REF_STATUS * REF_NODE D) :=
  let* '(st, copy) := ref_node_deep_copy (node_mpi r) r in
  RSS st r (
  let n := node_n r in
  let max := node_max r in
  let* global := permute_array n n2o (node_global copy) (node_global r) in
  let* '(global, blank) :=
    if n <? max then
      let* global :=
        for_up n max (fun node g => aset g node (index2next (node + 1))) global in
      let* global := aset global (max - 1) REF_EMPTY in
      Some (global, index2next n)
    else Some (global, REF_EMPTY) in
  let* sorted_local :=
    for_up 0 n (fun node sl =>
      let* l := aget (node_sorted_local copy) node in
      let* x := aget o2n l in
      aset sl node x) (node_sorted_local r) in
  let* part := permute_array n n2o (node_part copy) (node_part r) in
  let* age := permute_array n n2o (node_age copy) (node_age r) in
  let* real :=
    for_up 0 n (fun node real =>
      for_up 0 REF_NODE_REAL_PER (fun i real =>
        let* old := aget n2o node in
        let* k := real_index i old in
        let* x := aget (node_real copy) k in
        let* k := real_index i node in
        aset real k x) real) (node_real r) in
  let naux := node_naux r in
  let* aux :=
    if 0 <? naux then
      for_up 0 n (fun node aux =>
        for_up 0 naux (fun i aux =>
          let* old := aget n2o node in
          let* k := ck_int (naux * old) in
          let* k := ck_int (i + k) in
          let* x := aget (node_aux copy) k in
          let* k := ck_int (naux * node) in
          let* k := ck_int (i + k) in
          aset aux k x) aux) (node_aux r)
    else Some (node_aux r) in
  Some (REF_SUCCESS,
    set_node_aux aux (set_node_real real (set_node_age age (set_node_part part
      (set_node_sorted_local sorted_local (set_node_blank blank
        (set_node_global global r)))))))).

Definition ref_node_metric_set r (node : Z) (m : list D) : option (REF_STATUS * REF_NODE D) :=
  let* real :=
    for_up 0 6 (fun i real =>
      let* k := real_index (i + 3) node in
      let* x := aget m i in
      aset real k x) (node_real r) in
  let r := set_node_real real r in
  let* '(st, log_m) := ref_matrix_log_m m in
  RSS st r (
  let* real :=
    for_up 0 6 (fun i real =>
      let* k := real_index (i + 9) node in
      let* x := aget log_m i in
      aset real k x) (node_real r) in
  Some (REF_SUCCESS, set_node_real real r)).

Definition ref_node_metric_form r (node : Z) (m11 m12 m13 m22 m23 m33 : D)
    : option (REF_STATUS * REF_NODE D) :=
  let* '(st, r) := ref_node_metric_set r node [m11; m12; m13; m22; m23; m33] in
  RSS st r (Some (REF_SUCCESS, r)).

Definition ref_node_metric_get r (node : Z) : option (REF_STATUS * list D) :=
  let* m :=
    for_up 0 6 (fun i m =>
      let* k := real_index (i + 3) node in
      let* x := aget (node_real r) k in
      aset m i x) (alloc 6) in
  Some (REF_SUCCESS, m).

(** The block of [ref_node_add_core] that makes room. *)
Definition node_grow r : option (REF_NODE D) :=
  if REF_EMPTY =? node_blank r then
    let orig := node_max r in
    let* c := ck_int (half_more orig) in
    let chunk := Z.max 5000 c in
    let* max := ck_int (orig + chunk) in
    let global := ref_realloc (node_global r) max in
    let* global :=
      for_up orig max (fun extra g => aset g extra (index2next (extra + 1))) global in
    let* global := aset global (max - 1) REF_EMPTY in
    let r := set_node_blank (index2next orig) (set_node_global global (set_node_max max r)) in
    let r := set_node_sorted_global (ref_realloc (node_sorted_global r) max) r in
    let r := set_node_sorted_local (ref_realloc (node_sorted_local r) max) r in
    let r := set_node_part (ref_realloc (node_part r) max) r in
    let r := set_node_age (ref_realloc (node_age r) max) r in
    let r := set_node_real (ref_realloc (node_real r) (REF_NODE_REAL_PER * max)) r in
    let r :=
      if 0 <? node_naux r then set_node_aux (ref_realloc (node_aux r) (node_naux r * max)) r
      else r in
    Some r
  else Some r.

(** [node] is the value of [*node] before the call; the pair after the status
    is [*node] and the structure. *)
Definition ref_node_add_core r (global node : Z) : option (REF_STATUS * (Z * REF_NODE D)) :=
  if global <? 0 then Some (REF_INVALID, (node, r))
  else
    let* r := node_grow r in
    let node := next2index (node_blank r) in
    let* blank := aget (node_global r) node in
    let* globals := aset (node_global r) node global in
    let* part := aset (node_part r) node (ref_mpi_rank (node_mpi r)) in
    let* age := aset (node_age r) node 0 in
    let r := set_node_age age (set_node_part part (set_node_global globals
               (set_node_blank blank r))) in
    let* '(st, r) :=
      ref_node_metric_form r node (dofZ 1) (dofZ 0) (dofZ 0) (dofZ 1) (dofZ 0) (dofZ 1) in
    RSS st (node, r) (
    let* n := ck_int (node_n r + 1) in
    Some (REF_SUCCESS, (node, set_node_n n r))).

(** The integer is [*local]. *)
Definition ref_node_local r (global : Z) : option (REF_STATUS * Z) :=
  let* '(st, location) := ref_sort_search_glob (node_n r) (node_sorted_global r) global in
  match st with
  | REF_SUCCESS =>
      if location =? REF_EMPTY then Some (REF_NOT_FOUND, REF_EMPTY)
      else
        let* local := aget (node_sorted_local r) location in
        Some (REF_SUCCESS, local)
  | _ => Some (st, REF_EMPTY)
  end.

(** The place of [global] in the sorted arrays, searched from the end. *)
Definition node_insert_point r (global : Z) : option Z :=
  let* c :=
    forx_down (node_n r - 2) (-1) (fun location (_ : unit) =>
      let* g := aget (node_sorted_global r) location in
      if g <? global then Some (Exit (location + 1)) else Some (Next tt)) tt in
  match c with
  | Exit insert_point => Some insert_point
  | Next _ => Some 0
  end.

Definition ref_node_add r (global node : Z) : option (REF_STATUS * (Z * REF_NODE D)) :=
  if global <? 0 then Some (REF_INVALID, (node, r))
  else
    let* '(status, node) := ref_node_local r global in
    match status with
    | REF_SUCCESS => Some (REF_SUCCESS, (node, r))
    | _ =>
        RXS status REF_NOT_FOUND (node, r) (
        let* '(st, (node, r)) := ref_node_add_core r global node in
        RSS st (node, r) (
        let* insert_point := node_insert_point r global in
        let* sorted_global :=
          for_down (node_n r - 1) insert_point (fun location a =>
            let* v := aget a (location - 1) in aset a location v) (node_sorted_global r) in
        let* sorted_local :=
          for_down (node_n r - 1) insert_point (fun location a =>
            let* v := aget a (location - 1) in aset a location v) (node_sorted_local r) in
        let* sorted_global := aset sorted_global insert_point global in
        let* sorted_local := aset sorted_local insert_point node in
        Some (REF_SUCCESS,
          (node, set_node_sorted_local sorted_local (set_node_sorted_global sorted_global r)))))
    end.

Definition ref_node_rebuild_sorted_global r : option (REF_STATUS * REF_NODE D) :=
  let '(st, pack) := ref_malloc (node_n r) in
  RSS st r (
  let* '(sorted_global, pack, _) :=
    each_ref_node_valid_node r (fun node '(sorted_global, pack, nnode) =>
      let* g := aget (node_global r) node in
      let* sorted_global := aset sorted_global nnode g in
      let* pack := aset pack nnode node in
      Some (sorted_global, pack, nnode + 1)) (node_sorted_global r, pack, 0) in
  let r := set_node_sorted_global sorted_global r in
  let* '(st, sorted_local) :=
    ref_sort_heap_glob (node_n r) (node_sorted_global r) (node_sorted_local r) in
  let r := set_node_sorted_local sorted_local r in
  RSS st r (
  let* '(sorted_global, sorted_local) :=
    for_up 0 (node_n r) (fun node '(sorted_global, sorted_local) =>
      let* l := aget sorted_local node in
      let* p := aget pack l in
      let* sorted_local := aset sorted_local node p in
      let* l := aget sorted_local node in
      let* g := aget (node_global r) l in
      let* sorted_global := aset sorted_global node g in
      Some (sorted_global, sorted_local)) (node_sorted_global r, node_sorted_local r) in
  Some (REF_SUCCESS,
    set_node_sorted_local sorted_local (set_node_sorted_global sorted_global r)))).

(** The three loops of [ref_node_add_many]: the requested global indices that
    have no node yet, ... *)
Definition collect_unknown r (n : Z) (global_orig global : list Z) : option (list Z * Z) :=
  for_up 0 n (fun i '(global, nadd) =>
    let* g := aget global_orig i in
    let* '(status, _) := ref_node_local r g in
    if bool_decide (REF_NOT_FOUND = status) then
      let* global := aset global nadd g in
      Some (global, nadd + 1)
    else Some (global, nadd)) (global, 0).

(** ... [REF_EMPTY] over all but the first of equal ones, ... *)
Definition blank_duplicates (nadd : Z) (sorted global : list Z) : option (list Z * Z) :=
  for_up 1 nadd (fun i '(global, j) =>
    let* si := aget sorted i in
    let* gi := aget global si in
    let* sj := aget sorted j in
    let* gj := aget global sj in
    if negb (gi =? gj) then Some (global, i)
    else
      let* global := aset global si REF_EMPTY in
      Some (global, j)) (global, 0).

(** ... and a node for each of the rest. *)
Definition add_each r (nadd : Z) (global : list Z)
    : option (ctl (REF_NODE D) (REF_STATUS * REF_NODE D)) :=
  forx_up 0 nadd (fun i r =>
    let* g := aget global i in
    if negb (REF_EMPTY =? g) then
      let* '(st, (_, r)) := ref_node_add_core r g REF_EMPTY in
      match st with
      | REF_SUCCESS => Some (Next r)
      | _ => Some (Exit (st, r))
      end
    else Some (Next r)) r.

Definition ref_node_add_many r (n : Z) (global_orig : list Z)
    : option (REF_STATUS * REF_NODE D) :=
  let '(st, global) := ref_malloc n in
  RSS st r (
  let* '(global, nadd) := collect_unknown r n global_orig global in
  let '(st, sorted) := ref_malloc nadd in
  RSS st r (
  let* '(st, sorted) := ref_sort_heap_glob nadd global sorted in
  RSS st r (
  let* '(global, _) := blank_duplicates nadd sorted global in
  let* c := add_each r nadd global in
  match c with
  | Exit res => Some res
  | Next r =>
      let* '(st, r) := ref_node_rebuild_sorted_global r in
      RSS st r (Some (REF_SUCCESS, r))
  end))).
End ops.

Section ops2.
Context {D : Type} `{Dbl D, Junk D, Junk Z}.
Implicit Types (r : REF_NODE D).

Definition ref_node_initialize_n_global r (n_global : Z) : REF_STATUS * REF_NODE D :=
  (REF_SUCCESS, set_node_new_n_global n_global (set_node_old_n_global n_global r)).

Definition ref_node_push_unused r (unused_global : Z) : option (REF_STATUS * REF_NODE D) :=
  let* r :=
    if node_max_unused r =? node_n_unused r then
      let* max := ck_int (node_max_unused r + 1000) in
      Some (set_node_unused_global (ref_realloc (node_unused_global r) max)
             (set_node_max_unused max r))
    else Some r in
  let* unused := aset (node_unused_global r) (node_n_unused r) unused_global in
  let* n := ck_int (node_n_unused r + 1) in
  Some (REF_SUCCESS, set_node_n_unused n (set_node_unused_global unused r)).

(** The integer is [*new_global]. *)
Definition ref_node_pop_unused r : option (REF_STATUS * (Z * REF_NODE D)) :=
  if 0 =? node_n_unused r then Some (REF_FAILURE, (REF_EMPTY, r))
  else
    let r := set_node_n_unused (node_n_unused r - 1) r in
    let* g := aget (node_unused_global r) (node_n_unused r) in
    Some (REF_SUCCESS, (g, r)).

(** [global] is the value of [*global] before the call. *)
Definition ref_node_next_global r (global : Z) : option (REF_STATUS * (Z * REF_NODE D)) :=
  if 0 <? node_n_unused r then
    let* '(st, (global, r)) := ref_node_pop_unused r in
    RSS st (global, r) (Some (REF_SUCCESS, (global, r)))
  else
    let '(st, r) :=
      if REF_EMPTY =? node_new_n_global r then ref_node_initialize_n_global r (node_n r)
      else (REF_SUCCESS, r) in
    RSS st (global, r) (
    let global := node_new_n_global r in
    let* n := ck_glob (node_new_n_global r + 1) in
    Some (REF_SUCCESS, (global, set_node_new_n_global n r))).

Definition ref_node_shift_unused r (equal_and_above shift : Z) : option (REF_STATUS * REF_NODE D) :=
  let* unused :=
    for_up 0 (node_n_unused r) (fun i unused =>
      let* g := aget unused i in
      if equal_and_above <=? g then
        let* g := ck_glob (g + shift) in
        aset unused i g
      else Some unused) (node_unused_global r) in
  Some (REF_SUCCESS, set_node_unused_global unused r).

(** Close the gap at [location] in one sorted array. *)
Definition close_gap r (location : Z) (a : list Z) : option (list Z) :=
  for_up location (node_n r - 1) (fun i a => let* v := aget a (i + 1) in aset a i v) a.

(** Put a local index at the head of the unused ones. *)
Definition free_local r (node : Z) : option (REF_NODE D) :=
  let* global := aset (node_global r) node (node_blank r) in
  let* n := ck_int (node_n r - 1) in
  Some (set_node_n n (set_node_blank (index2next node) (set_node_global global r))).

Definition ref_node_remove r (node : Z) : option (REF_STATUS * REF_NODE D) :=
  let* v := ref_node_valid r node in
  if negb v then Some (REF_INVALID, r)
  else
    let* g := aget (node_global r) node in
    let* '(st, location) := ref_sort_search_glob (node_n r) (node_sorted_global r) g in
    RSS st r (
    let* sorted_global := close_gap r location (node_sorted_global r) in
    let* sorted_local := close_gap r location (node_sorted_local r) in
    let r := set_node_sorted_local sorted_local (set_node_sorted_global sorted_global r) in
    let* g := aget (node_global r) node in
    let* '(st, r) := ref_node_push_unused r g in
    RSS st r (
    let* r := free_local r node in
    Some (REF_SUCCESS, r))).

Definition ref_node_remove_invalidates_sorted r (node : Z) : option (REF_STATUS * REF_NODE D) :=
  let* v := ref_node_valid r node in
  if negb v then Some (REF_INVALID, r)
  else
    let* g := aget (node_global r) node in
    let* '(st, r) := ref_node_push_unused r g in
    RSS st r (
    let* r := free_local r node in
    Some (REF_SUCCESS, r)).

Definition ref_node_remove_without_global r (node : Z) : option (REF_STATUS * REF_NODE D) :=
  let* v := ref_node_valid r node in
  if negb v then Some (REF_INVALID, r)
  else
    let* g := aget (node_global r) node in
    let* '(st, location) := ref_sort_search_glob (node_n r) (node_sorted_global r) g in
    RSS st r (
    let* sorted_global := close_gap r location (node_sorted_global r) in
    let* sorted_local := close_gap r location (node_sorted_local r) in
    let r := set_node_sorted_local sorted_local (set_node_sorted_global sorted_global r) in
    let* r := free_local r node in
    Some (REF_SUCCESS, r)).

Definition ref_node_remove_without_global_invalidates_sorted r (node : Z)
    : option (REF_STATUS * REF_NODE D) :=
  let* v := ref_node_valid r node in
  if negb v then Some (REF_INVALID, r)
  else
    let* r := free_local r node in
    Some (REF_SUCCESS, r).

(** The array is [sorted_globals]. *)
Definition ref_node_eliminate_unused_offset (nglobal : Z) (sorted_globals : list Z)
    (nunused : Z) (sorted_unused : list Z) : option (REF_STATUS * list Z) :=
  let* '(sorted_globals, _) :=
    for_up 0 nglobal (fun i '(sorted_globals, offset) =>
      let* g := aget sorted_globals i in
      let* offset :=
        loop (S (Z.to_nat nunused)) (fun offset =>
          if offset <? nunused then
            let* u := aget sorted_unused offset in
            if u <? g then
              let* offset := ck_int (offset + 1) in
              Some (Next offset)
            else Some (Exit offset)
          else Some (Exit offset)) offset in
      let* g := ck_glob (g - offset) in
      let* sorted_globals := aset sorted_globals i g in
      Some (sorted_globals, offset)) (sorted_globals, 0) in
  Some (REF_SUCCESS, sorted_globals).

(** The pair is [*active1] and [*nactive]. *)
Definition ref_node_eliminate_active_parts (n : Z) (counts : list Z) (chunk active0 : Z)
    : option (REF_STATUS * (Z * Z)) :=
  let* nactive := aget counts active0 in
  let* active1 := ck_int (active0 + 1) in
  let* '(active1, nactive) :=
    loop (S (Z.to_nat n)) (fun '(active1, nactive) =>
      if active1 <? n then
        let* c := aget counts active1 in
        let* total := ck_int (nactive + c) in
        if total <=? chunk then
          let* active1 := ck_int (active1 + 1) in
          Some (Next (active1, total))
        else Some (Exit (active1, nactive))
      else Some (Exit (active1, nactive))) (active1, nactive) in
  Some (REF_SUCCESS, (active1, nactive)).

(** Number the nodes that satisfy [keep] from [nnode] on: [o2n] and the next
    number. *)
Definition number_nodes r (keep : Z -> option bool) (s : list Z * Z) : option (list Z * Z) :=
  each_ref_node_valid_node r (fun node '(o2n, nnode) =>
    let* k := keep node in
    if k : bool then
      let* o2n := aset o2n node nnode in
      Some (o2n, nnode + 1)
    else Some (o2n, nnode)) s.

(** The end of both compactions: the check of the count and [n2o]. *)
Definition invert_numbering r (o2n : list Z) (nnode : Z) (n2o : list Z)
    : option (REF_STATUS * (list Z * list Z)) :=
  RAS (nnode =? node_n r) (o2n, n2o) (
  let* n2o :=
    each_ref_node_valid_node r (fun node n2o =>
      let* k := aget o2n node in
      aset n2o k node) n2o in
  Some (REF_SUCCESS, (o2n, n2o))).

(** [ref_malloc_init(o2n, max, REF_INT, REF_EMPTY)] *)
Definition malloc_empty (n : Z) : option (REF_STATUS * list Z) :=
  let '(st, a) := ref_malloc n in
  RSS st a (
  let* a := for_up 0 n (fun i a => aset a i REF_EMPTY) a in
  Some (REF_SUCCESS, a)).

(** The pair is [*o2n_ptr] and [*n2o_ptr]. *)
Definition ref_node_stable_compact r : option (REF_STATUS * (list Z * list Z)) :=
  let* '(st, o2n) := malloc_empty (node_max r) in
  RSS st (o2n, []) (
  let '(st, n2o) := ref_malloc (node_n r) in
  RSS st (o2n, n2o) (
  let* '(o2n, nnode) := number_nodes r (fun _ => Some true) (o2n, 0) in
  invert_numbering r o2n nnode n2o)).

Definition ref_node_compact r : option (REF_STATUS * (list Z * list Z)) :=
  let* '(st, o2n) := malloc_empty (node_max r) in
  RSS st (o2n, []) (
  let '(st, n2o) := ref_malloc (node_n r) in
  RSS st (o2n, n2o) (
  let* s := number_nodes r (ref_node_owned r) (o2n, 0) in
  let* '(o2n, nnode) :=
    number_nodes r (fun node => let* b := ref_node_owned r node in Some (negb b)) s in
  invert_numbering r o2n nnode n2o)).

(** Without the output: the status only ([REF_FAILURE]: a global index twice). *)
Definition ref_node_tattle_global r (global : Z) : option REF_STATUS :=
  let* '(ref_status, _) := ref_node_local r global in
  if bool_decide (ref_status = REF_NOT_FOUND) || bool_decide (ref_status = REF_SUCCESS) then
    let* c :=
      forx_up 0 (node_max r) (fun node found_from_exhaustive =>
        let* v := ref_node_valid r node in
        if v : bool then
          let* g := ref_node_global r node in
          if global =? g then
            if found_from_exhaustive : bool then Some (Exit tt) else Some (Next true)
          else Some (Next found_from_exhaustive)
        else Some (Next found_from_exhaustive)) false in
    match c with
    | Next _ => Some REF_SUCCESS
    | Exit _ => Some REF_FAILURE
    end
  else Some ref_status.
End ops2.

(** ** The invariant *)

(** The local indices in use. *)
Definition valid_nodes {D} (r : REF_NODE D) : list Z :=
  filter (fun i => 0 <= (node_global r).[i]) (zrange (node_max r)).

(** The map from global to local indices. *)
Definition node_map {D} (r : REF_NODE D) : gmap Z Z :=
  list_to_map (map (fun i => ((node_global r).[i], i)) (valid_nodes r)).

(** Everything but the sorted arrays; [bl] is the list of unused indices. *)
Record node_core {D} (r : REF_NODE D) (bl : list Z) : Prop := {
  nc_max : 1 <= node_max r <= REF_INT_MAX;
  nc_global : zlen (node_global r) = node_max r;
  nc_sorted_global : zlen (node_sorted_global r) = node_max r;
  nc_sorted_local : zlen (node_sorted_local r) = node_max r;
  nc_part : zlen (node_part r) = node_max r;
  nc_age : zlen (node_age r) = node_max r;
  nc_real : zlen (node_real r) = REF_NODE_REAL_PER * node_max r;
  nc_naux : 0 <= node_naux r;
  nc_aux : 0 < node_naux r -> zlen (node_aux r) = node_naux r * node_max r;
  nc_unused : 0 <= node_n_unused r <= node_max_unused r;
  nc_max_unused : 1 <= node_max_unused r <= REF_INT_MAX;
  nc_unused_global : zlen (node_unused_global r) = node_max_unused r;
  nc_chain : chain (fun i => next2index (node_global r).[i]) (next2index (node_blank r)) bl;
  nc_nodup : NoDup bl;
  nc_blank : forall i, i ∈ bl <-> 0 <= i < node_max r /\ (node_global r).[i] < 0;
  nc_n : node_n r = zlen (valid_nodes r);
  nc_distinct : forall i j, i ∈ valid_nodes r -> j ∈ valid_nodes r ->
    (node_global r).[i] = (node_global r).[j] -> i = j
}.

(** The sorted arrays list the nodes in use in increasing order of their global
    indices. *)
Record node_sorted {D} (r : REF_NODE D) : Prop := {
  ns_perm : ztake (node_n r) (node_sorted_local r) ≡ₚ valid_nodes r;
  ns_global : forall k, 0 <= k < node_n r ->
    (node_sorted_global r).[k] = (node_global r).[(node_sorted_local r).[k]];
  ns_lt : forall p q, 0 <= p < q -> q < node_n r ->
    (node_sorted_global r).[p] < (node_sorted_global r).[q]
}.

Definition node_wf {D} (r : REF_NODE D) : Prop := (exists bl, node_core r bl) /\ node_sorted r.

Section core.
Context {D : Type}.
Implicit Types (r : REF_NODE D).

Lemma elem_of_valid_nodes r i :
  i ∈ valid_nodes r <-> 0 <= i < node_max r /\ 0 <= (node_global r).[i].
Proof. unfold valid_nodes. rewrite list_elem_of_filter, elem_of_zrange. tauto. Qed.

Lemma NoDup_valid_nodes r : NoDup (valid_nodes r).
Proof. apply NoDup_filter, NoDup_zrange. Qed.

Lemma valid_nodes_permutation r l :
  NoDup l -> (forall i, i ∈ l <-> 0 <= i < node_max r /\ 0 <= (node_global r).[i]) ->
  l ≡ₚ valid_nodes r.
Proof.
  intros Hl Hi. apply NoDup_Permutation; [done|apply NoDup_valid_nodes|].
  intros i. by rewrite Hi, elem_of_valid_nodes.
Qed.

Lemma ref_node_valid_eq r node :
  zlen (node_global r) = node_max r ->
  ref_node_valid r node = Some (bool_decide (node ∈ valid_nodes r)).
Proof.
  intros Hl. unfold ref_node_valid.
  destruct (Z.ltb_spec (-1) node), (Z.ltb_spec node (node_max r)); cbn [andb].
  - rewrite aget_aat by lia. cbn. f_equal. apply eq_bool_decide.
    rewrite elem_of_valid_nodes, Z.leb_le. lia.
  - symmetry. f_equal. apply bool_decide_eq_false_2. rewrite elem_of_valid_nodes. lia.
  - symmetry. f_equal. apply bool_decide_eq_false_2. rewrite elem_of_valid_nodes. lia.
  - symmetry. f_equal. apply bool_decide_eq_false_2. rewrite elem_of_valid_nodes. lia.
Qed.

Lemma node_map_lookup r bl g i :
  node_core r bl ->
  node_map r !! g = Some i <-> i ∈ valid_nodes r /\ (node_global r).[i] = g.
Proof.
  intros Hc. unfold node_map.
  rewrite <- elem_of_list_to_map.
  - rewrite list_elem_of_fmap. split.
    + by intros (j & [= -> ->] & ?).
    + intros [? <-]. by exists i.
  - rewrite <- list_fmap_compose. apply NoDup_fmap_2_strong; [|apply NoDup_valid_nodes].
    intros. by apply (nc_distinct _ _ Hc).
Qed.

Lemma node_map_None r bl g :
  node_core r bl ->
  node_map r !! g = None <-> forall i, i ∈ valid_nodes r -> (node_global r).[i] <> g.
Proof.
  intros Hc. rewrite eq_None_not_Some. split.
  - intros Hn i Hi Hg. apply Hn. exists i. by apply (node_map_lookup r bl).
  - intros Hn [i Hi]. apply (node_map_lookup r bl) in Hi as [? ?]; [|done]. by eapply Hn.
Qed.

Lemma node_map_eq r bl (m : gmap Z Z) :
  node_core r bl ->
  (forall g i, m !! g = Some i <-> i ∈ valid_nodes r /\ (node_global r).[i] = g) ->
  node_map r = m.
Proof.
  intros Hc Hm. apply map_eq. intros g. apply option_eq. intros i.
  by rewrite (node_map_lookup r bl), Hm.
Qed.

Lemma nc_n_range r bl : node_core r bl -> 0 <= node_n r <= node_max r.
Proof.
  intros Hc. pose proof (nc_max _ _ Hc). rewrite (nc_n _ _ Hc).
  pose proof (zlen_nonneg (valid_nodes r)). split; [lia|].
  destruct (NoDup_range_length (valid_nodes r) (node_max r)) as [?| ->]; [| |done|].
  - apply NoDup_valid_nodes.
  - intros i Hi. by apply elem_of_valid_nodes in Hi as [? _].
  - unfold zlen. cbn. lia.
Qed.

Lemma nc_blank_head r bl :
  node_core r bl ->
  (node_blank r = REF_EMPTY /\ bl = []) \/
  exists i rest, bl = i :: rest /\ next2index (node_blank r) = i /\ node_blank r <> REF_EMPTY /\
    0 <= i < node_max r /\ (node_global r).[i] < 0.
Proof.
  intros Hc. pose proof (nc_chain _ _ Hc) as Hch. destruct bl as [|i rest]; cbn in Hch.
  - left. unfold next2index, REF_EMPTY in *. split; [lia|done].
  - right. destruct Hch as [Hi _]. exists i, rest.
    assert (i ∈ i :: rest) as [? ?]%(nc_blank _ _ Hc) by set_solver.
    split_and!; try done; try lia. unfold next2index, REF_EMPTY in *. lia.
Qed.

(** Facts about the sorted arrays. *)
Lemma ns_elem r k :
  node_sorted r -> 0 <= node_n r <= zlen (node_sorted_local r) -> 0 <= k < node_n r ->
  (node_sorted_local r).[k] ∈ valid_nodes r.
Proof.
  intros Hs Hn Hk. rewrite <- (ns_perm _ Hs). apply elem_of_ztake; [lia|]. eauto.
Qed.

Lemma ns_find r i :
  node_sorted r -> 0 <= node_n r <= zlen (node_sorted_local r) -> i ∈ valid_nodes r ->
  exists k, 0 <= k < node_n r /\ (node_sorted_local r).[k] = i /\
    (node_sorted_global r).[k] = (node_global r).[i].
Proof.
  intros Hs Hn Hi. rewrite <- (ns_perm _ Hs) in Hi. apply elem_of_ztake in Hi as (k & Hk & <-); [|lia].
  exists k. split; [done|split; [done|]]. by apply (ns_global _ Hs).
Qed.

Lemma ns_ascending r : node_sorted r -> ascending (node_n r) (node_sorted_global r).
Proof.
  intros Hs p q Hp Hq. destruct (decide (p = q)) as [->|]; [lia|].
  pose proof (ns_lt _ Hs p q ltac:(lia) Hq). lia.
Qed.
End core.

Section local.
Context {D : Type} `{Dbl D, Junk D, Junk Z}.
Implicit Types (r : REF_NODE D).

Lemma node_wf_range r : node_wf r ->
  0 <= node_n r <= node_max r /\ zlen (node_sorted_local r) = node_max r /\
  zlen (node_sorted_global r) = node_max r /\ zlen (node_global r) = node_max r.
Proof.
  intros [[bl Hc] _]. pose proof (nc_n_range _ _ Hc).
  by rewrite (nc_sorted_local _ _ Hc), (nc_sorted_global _ _ Hc), (nc_global _ _ Hc).
Qed.

(** The search finds the place of the global index of a node in use. *)
Lemma search_global_ok r g :
  node_wf r -> 2 * node_n r <= REF_INT_MAX ->
  wp (ref_sort_search_glob (node_n r) (node_sorted_global r) g) (fun '(st, k) =>
    match node_map r !! g with
    | Some i => st = REF_SUCCESS /\ 0 <= k < node_n r /\ (node_sorted_local r).[k] = i /\
        (node_sorted_global r).[k] = g
    | None => st = REF_NOT_FOUND /\ k = REF_EMPTY
    end).
Proof.
  intros Hwf Hmax. pose proof (node_wf_range r Hwf) as (Hn & Hl & Hg & Hgl).
  pose proof Hwf as [[bl Hc] Hs].
  eapply wp_mono; [apply ref_sort_search_int_ok; [lia|done|by apply ns_ascending]|].
  intros [st k] Hpost. destruct (node_map r !! g) as [i|] eqn:Hm.
  - apply (node_map_lookup r bl) in Hm as [Hi Hgi]; [|done].
    destruct (ns_find r i Hs ltac:(lia) Hi) as (k' & Hk' & Hsl & Hsg).
    assert ((st, k) = (REF_SUCCESS, k')) as [= -> ->].
    { eapply search_post_found; [|exact Hk'| |exact Hpost]; [by apply (ns_lt _ Hs)|].
      by rewrite Hsg. }
    split_and!; try done; try lia.
  - rewrite (node_map_None r bl) in Hm by done.
    destruct st; cbn in Hpost; try (by destruct Hpost as (? & ? & _)).
    destruct Hpost as [Hk Hsg]. exfalso.
    apply (Hm (node_sorted_local r).[k]); [apply ns_elem; [done|lia|done]|].
    by rewrite <- (ns_global _ Hs).
Qed.

Lemma ref_node_local_ok r g :
  node_wf r -> 2 * node_n r <= REF_INT_MAX ->
  ref_node_local r g =
    Some (match node_map r !! g with
          | Some i => (REF_SUCCESS, i)
          | None => (REF_NOT_FOUND, REF_EMPTY)
          end).
Proof.
  intros Hwf Hmax. pose proof (node_wf_range r Hwf) as (Hn & Hl & _). apply wp_eq.
  unfold ref_node_local. apply wp_bind. eapply wp_mono; [by apply search_global_ok|].
  intros [st k]. destruct (node_map r !! g) as [i|].
  - intros (-> & Hk & <- & _). destruct (Z.eqb_spec k REF_EMPTY); [unfold REF_EMPTY in *; lia|].
    apply wp_bind, wp_aget; [lia|]. by apply wp_ret.
  - intros [-> ->]. by apply wp_ret.
Qed.
End local.

(** ** Adding a node *)

(** The arrays can still grow, and the subscripts of [real] stay in range. *)
Definition node_room {D} (r : REF_NODE D) : Prop :=
  REF_NODE_REAL_PER * (node_max r + Z.max 5000 (half_more (node_max r))) <= REF_INT_MAX.

(** [r'] is [r] with more room: the same nodes, in the same places. *)
Record node_frame {D} `{Inhabited D} (r r' : REF_NODE D) : Prop := {
  nf_n : node_n r' = node_n r;
  nf_max : node_max r <= node_max r';
  nf_valid : forall i, i ∈ valid_nodes r' <-> i ∈ valid_nodes r;
  nf_global : forall i, i ∈ valid_nodes r -> (node_global r').[i] = (node_global r).[i];
  nf_sorted_global : forall k, 0 <= k < node_max r ->
    (node_sorted_global r').[k] = (node_sorted_global r).[k];
  nf_sorted_local : forall k, 0 <= k < node_max r ->
    (node_sorted_local r').[k] = (node_sorted_local r).[k];
  nf_part : forall k, 0 <= k < node_max r -> (node_part r').[k] = (node_part r).[k];
  nf_real : forall k, 0 <= k < REF_NODE_REAL_PER * node_max r -> (node_real r').[k] = (node_real r).[k];
  nf_mpi : node_mpi r' = node_mpi r;
  nf_n_unused : node_n_unused r' = node_n_unused r;
  nf_unused : node_unused_global r' = node_unused_global r;
  nf_max_unused : node_max_unused r' = node_max_unused r;
  nf_new : node_new_n_global r' = node_new_n_global r
}.

Section add.
Context {D : Type} `{Dbl D, Junk D, Junk Z}.
Implicit Types (r : REF_NODE D).

Lemma half_more_bounds n : 0 <= n -> n <= half_more n <= 2 * n.
Proof.
  intros Hn. unfold half_more. rewrite Z.quot_div_nonneg by lia. split.
  - apply Z.div_le_lower_bound; lia.
  - apply Z.div_le_upper_bound; lia.
Qed.

Lemma node_frame_refl r : node_frame r r.
Proof. by constructor. Qed.

Lemma node_frame_map r r' bl bl' :
  node_core r bl -> node_core r' bl' -> node_frame r r' -> node_map r' = node_map r.
Proof.
  intros Hc Hc' Hf. apply (node_map_eq r' bl'); [done|]. intros g i.
  rewrite (node_map_lookup r bl) by done. rewrite (nf_valid _ _ Hf).
  split; intros [Hi Hg]; (split; [done|]); by rewrite <- Hg, (nf_global _ _ Hf).
Qed.

Lemma real_index_ok ireal node :
  0 <= ireal < REF_NODE_REAL_PER -> 0 <= node ->
  REF_NODE_REAL_PER * (node + 1) <= REF_INT_MAX ->
  real_index ireal node = Some (ireal + REF_NODE_REAL_PER * node).
Proof.
  intros Hi Hn Hmax. apply wp_eq. unfold real_index, REF_NODE_REAL_PER in *.
  apply wp_bind, wp_ck_int; [unfold REF_INT_MIN; lia|].
  apply wp_ck_int; [unfold REF_INT_MIN; lia|done].
Qed.

(** The loops that write six entries of [real]. *)
Lemma wp_real_loop off node (m real : list D) (Q : list D -> Prop) :
  0 <= off -> off + 6 <= REF_NODE_REAL_PER -> 6 <= zlen m -> 0 <= node ->
  REF_NODE_REAL_PER * (node + 1) <= zlen real -> zlen real <= REF_INT_MAX ->
  (forall real', zlen real' = zlen real ->
     (forall k, 0 <= k < zlen real -> ~ (off <= k - REF_NODE_REAL_PER * node < off + 6) -> real'.[k] = real.[k]) -> Q real') ->
  wp (for_up 0 6 (fun i real =>
        let* k := real_index (i + off) node in
        let* x := aget m i in
        aset real k x) real) Q.
Proof.
  intros Ho Ho6 Hm Hn Hl Hmax HQ.
  apply (wp_for_up (fun _ real' => zlen real' = zlen real /\
    forall k, 0 <= k < zlen real -> ~ (off <= k - REF_NODE_REAL_PER * node < off + 6) -> real'.[k] = real.[k])); [lia|done| |].
  - intros i real' Hi [Hr' Hk']. unfold REF_NODE_REAL_PER in *.
    rewrite real_index_ok by (unfold REF_NODE_REAL_PER; lia). cbn [obind].
    apply wp_bind, wp_aget; [lia|]. apply wp_aset; [unfold REF_NODE_REAL_PER; lia|]. unfold REF_NODE_REAL_PER.
    split; [by rewrite zlen_upd|]. intros k Hk Hout. rewrite aat_upd_ne by lia. by apply Hk'.
  - intros real' [Hr' Hk']. by apply HQ.
Qed.

Lemma ref_node_metric_form_ident `{!LogIdentity D} r node (Q : _ -> Prop) :
  zlen (node_real r) = REF_NODE_REAL_PER * node_max r ->
  REF_NODE_REAL_PER * node_max r <= REF_INT_MAX -> 0 <= node < node_max r ->
  (forall real, zlen real = REF_NODE_REAL_PER * node_max r ->
     (forall i j, 0 <= i < 3 -> 0 <= j < node_max r ->
        real.[i + REF_NODE_REAL_PER * j] = (node_real r).[i + REF_NODE_REAL_PER * j]) ->
     Q (REF_SUCCESS, set_node_real real r)) ->
  wp (ref_node_metric_form r node (dofZ 1) (dofZ 0) (dofZ 0) (dofZ 1) (dofZ 0) (dofZ 1)) Q.
Proof.
  intros Hl Hmax Hn HQ. unfold ref_node_metric_form, ref_node_metric_set.
  pose proof (@log_identity D _ _ _) as (l & Hlog & Hll).
  unfold REF_NODE_REAL_PER in *.
  apply wp_bind, wp_bind, wp_real_loop; [lia|done|alia|lia|unfold REF_NODE_REAL_PER; lia|lia|].
  intros real Hr Hk. rewrite Hlog. cbn [obind RSS].
  apply wp_bind, wp_real_loop; [lia|done|lia|lia|unfold REF_NODE_REAL_PER; cbn; lia|cbn; lia|].
  cbn [node_real set_node_real]. intros real' Hr' Hk'. apply wp_ret, wp_ret. apply HQ; [lia|].
  intros i j Hi Hj. unfold REF_NODE_REAL_PER in *. rewrite Hk' by lia. apply Hk; lia.
Qed.

Lemma node_grow_ok r bl :
  node_core r bl -> node_room r ->
  wp (node_grow r) (fun r' => exists bl', node_core r' bl' /\
    (bl' <> [] /\ bl' = blank_after bl (node_max r) (node_max r')) /\ node_frame r r' /\
    (node_max r' = node_max r \/
     (node_n r = node_max r /\ node_max r' = node_max r + Z.max 5000 (half_more (node_max r))))).
Proof.
  intros Hc Hroom. unfold node_grow, node_room, REF_NODE_REAL_PER, REF_INT_MAX in *.
  pose proof (nc_max _ _ Hc) as Hm. unfold REF_INT_MAX in Hm.
  pose proof (half_more_bounds (node_max r) ltac:(lia)) as Hh.
  pose proof (nc_global _ _ Hc) as Hlg.
  destruct (Z.eqb_spec REF_EMPTY (node_blank r)) as [He|Hne]; last first.
  { apply wp_ret. exists bl. destruct (nc_blank_head _ _ Hc) as [[? _]|(i & rest & -> & _)]; [done|].
    split_and!; [done|done|done|apply node_frame_refl|by left]. }
  destruct (nc_blank_head _ _ Hc) as [[_ ->]|(? & ? & _ & _ & ? & _)]; [|done].
  apply wp_bind, wp_ck_int; [unfold REF_INT_MIN, REF_INT_MAX; lia|].
  apply wp_bind, wp_ck_int; [unfold REF_INT_MIN, REF_INT_MAX; lia|].
  set (max := node_max r + Z.max 5000 (half_more (node_max r))).
  assert (node_max r + 5000 <= max) by lia.
  apply wp_bind, (wp_fill (fun e => index2next (e + 1))); [lia|rewrite zlen_realloc; lia| |].
  { intros i d Hi Hd _. apply wp_aset; [|done]. rewrite Hd, zlen_realloc; lia. }
  intros g Hg Hgg. rewrite zlen_realloc in Hg, Hgg by lia.
  apply wp_bind, wp_aset; [lia|]. apply wp_ret.
  set (g' := upd g (max - 1) REF_EMPTY).
  assert (Hg' : zlen g' = max) by by unfold g'; rewrite zlen_upd.
  assert (Hallv : forall i, 0 <= i < node_max r -> 0 <= (node_global r).[i]).
  { intros i Hi. destruct (Z_lt_le_dec (node_global r).[i] 0); [|done].
    assert (i ∈ @nil Z) as Hn by (apply (nc_blank _ _ Hc); done). by apply not_elem_of_nil in Hn. }
  assert (Hold : forall i, 0 <= i < node_max r -> g'.[i] = (node_global r).[i]).
  { intros i Hi. unfold g'. rewrite aat_upd_ne by lia. rewrite Hgg by lia.
    destruct (Z.leb_spec (node_max r) i); [lia|]. cbn [andb]. apply aat_realloc; lia. }
  assert (Hnew : forall i, node_max r <= i < max ->
    g'.[i] = if i =? max - 1 then REF_EMPTY else index2next (i + 1)).
  { intros i Hi. unfold g'. rewrite aat_upd by lia. rewrite Hgg by lia.
    destruct (Z.eqb_spec (max - 1) i), (Z.eqb_spec i (max - 1)), (Z.leb_spec (node_max r) i),
      (Z.ltb_spec i max); try lia; done. }
  assert (Hneg : forall i, node_max r <= i < max -> g'.[i] < 0).
  { intros i Hi. rewrite Hnew by lia. unfold REF_EMPTY, index2next. case_match; lia. }
  match goal with |- exists bl', node_core ?x bl' /\ _ => set (r' := x) end.
  assert (Hproj : node_global r' = g' /\ node_max r' = max /\ node_n r' = node_n r /\
    node_blank r' = index2next (node_max r) /\
    node_sorted_global r' = ref_realloc (node_sorted_global r) max /\
    node_sorted_local r' = ref_realloc (node_sorted_local r) max /\
    node_part r' = ref_realloc (node_part r) max /\
    node_age r' = ref_realloc (node_age r) max /\
    node_real r' = ref_realloc (node_real r) (15 * max) /\
    node_naux r' = node_naux r /\
    node_aux r' = (if 0 <? node_naux r then ref_realloc (node_aux r) (node_naux r * max)
      else node_aux r) /\
    node_mpi r' = node_mpi r /\ node_n_unused r' = node_n_unused r /\
    node_max_unused r' = node_max_unused r /\ node_unused_global r' = node_unused_global r /\
    node_new_n_global r' = node_new_n_global r).
  { unfold r'. cbn [node_naux set_node_real set_node_age set_node_part set_node_sorted_local
      set_node_sorted_global set_node_blank set_node_global set_node_max].
    destruct (0 <? node_naux r); split_and!; reflexivity. }
  clearbody r'.
  destruct Hproj as (Hrg & Hrm & Hrn & Hrb & Hrsg & Hrsl & Hrp & Hra & Hrr & Hrna & Hrax &
    Hrmpi & Hrnu & Hrmu & Hru & Hrnew).
  assert (Hv : forall i, i ∈ valid_nodes r' <-> i ∈ valid_nodes r).
  { intros i. rewrite !elem_of_valid_nodes, Hrg, Hrm. split.
    - intros [Hi Hgi]. destruct (Z_lt_le_dec i (node_max r)); [|specialize (Hneg i); lia].
      split; [lia|]. by rewrite <- Hold by lia.
    - intros [Hi Hgi]. rewrite Hold by lia. lia. }
  exists (seqZ (node_max r) (max - node_max r)).
  assert (Hf : node_frame r r').
  { constructor; try done; try lia.
    - intros i Hi%elem_of_valid_nodes. rewrite Hrg. apply Hold. lia.
    - intros k Hk. rewrite Hrsg. pose proof (nc_sorted_global _ _ Hc). apply aat_realloc; lia.
    - intros k Hk. rewrite Hrsl. pose proof (nc_sorted_local _ _ Hc). apply aat_realloc; lia.
    - intros k Hk. rewrite Hrp. pose proof (nc_part _ _ Hc). apply aat_realloc; lia.
    - intros k Hk. rewrite Hrr. pose proof (nc_real _ _ Hc). unfold REF_NODE_REAL_PER in *. apply aat_realloc; lia. }
  assert (Hvn : valid_nodes r' ≡ₚ valid_nodes r).
  { apply NoDup_Permutation; [apply NoDup_valid_nodes..|done]. }
  split_and!; [|rewrite seqZ_cons by lia; done|by rewrite Hrm|done|].
  - pose proof (nc_unused _ _ Hc). pose proof (nc_max_unused _ _ Hc).
    pose proof (nc_unused_global _ _ Hc). pose proof (nc_naux _ _ Hc).
    constructor; rewrite ?Hrg, ?Hrm, ?Hrn, ?Hrb, ?Hrsg, ?Hrsl, ?Hrp, ?Hra, ?Hrr, ?Hrna, ?Hrax,
      ?Hrnu, ?Hrmu, ?Hru; unfold REF_INT_MAX, REF_NODE_REAL_PER; try done; try lia;
      try (rewrite zlen_realloc by lia; done).
    + intros Hna. rewrite (proj2 (Z.ltb_lt _ _) Hna). rewrite zlen_realloc; [done|nia].
    + replace (next2index (index2next (node_max r))) with (node_max r)
        by (unfold next2index, index2next; lia).
      apply chain_linked; [lia|]. intros j Hj. rewrite Hnew by lia.
      unfold next2index, index2next, REF_EMPTY. destruct (Z.eqb_spec j (max - 1)); lia.
    + apply NoDup_seqZ.
    + intros i. rewrite elem_of_seqZ. split.
      * intros Hi. split; [lia|]. apply Hneg. lia.
      * intros [Hi Hgi]. destruct (Z_lt_le_dec i (node_max r)); [|lia].
        specialize (Hallv i). rewrite Hold in Hgi by lia. lia.
    + rewrite (nc_n _ _ Hc). unfold zlen. by rewrite Hvn.
    + intros i j Hi%Hv Hj%Hv. pose proof Hi as Hi'%elem_of_valid_nodes.
      pose proof Hj as Hj'%elem_of_valid_nodes. rewrite !Hold by lia.
      by apply (nc_distinct _ _ Hc).
  - right. split; [|done]. rewrite (nc_n _ _ Hc).
    rewrite <- (zlen_zrange (node_max r)) by lia. unfold zlen.
    f_equal. apply Permutation_length, Permutation_sym, valid_nodes_permutation; [apply NoDup_zrange|].
    intros i. rewrite elem_of_zrange. split; [|lia]. intros Hi. split; [done|by apply Hallv].
Qed.

(** [r'] is [r] with the local index [node] given to the global index [g];
    the sorted arrays are not updated yet. *)
Record node_added r (g node : Z) r' : Prop := {
  na_core : exists bl, node_core r' bl;
  na_n : node_n r' = node_n r + 1;
  na_fresh : node ∉ valid_nodes r;
  na_valid : forall i, i ∈ valid_nodes r' <-> i = node \/ i ∈ valid_nodes r;
  na_node : (node_global r').[node] = g;
  na_global : forall i, i ∈ valid_nodes r -> (node_global r').[i] = (node_global r).[i];
  na_sorted_global : forall k, 0 <= k < node_max r ->
    (node_sorted_global r').[k] = (node_sorted_global r).[k];
  na_sorted_local : forall k, 0 <= k < node_max r ->
    (node_sorted_local r').[k] = (node_sorted_local r).[k];
  na_part : (node_part r').[node] = ref_mpi_rank (node_mpi r);
  na_parts : forall i, i ∈ valid_nodes r -> (node_part r').[i] = (node_part r).[i];
  na_xyz : forall i j, 0 <= i < 3 -> 0 <= j < node_max r ->
    (node_real r').[i + REF_NODE_REAL_PER * j] = (node_real r).[i + REF_NODE_REAL_PER * j];
  na_max : node_max r <= node_max r' /\ (node_max r' = node_max r \/
    (node_n r = node_max r /\ node_max r' = node_max r + Z.max 5000 (half_more (node_max r))));
  na_mpi : node_mpi r' = node_mpi r;
  na_n_unused : node_n_unused r' = node_n_unused r;
  na_unused : node_unused_global r' = node_unused_global r;
  na_max_unused : node_max_unused r' = node_max_unused r;
  na_new : node_new_n_global r' = node_new_n_global r
}.

Lemma ref_node_add_core_ok `{!LogIdentity D} r bl g node0 :
  node_core r bl -> node_room r -> 0 <= g ->
  (forall i, i ∈ valid_nodes r -> (node_global r).[i] <> g) ->
  wp (ref_node_add_core r g node0) (fun '(st, (node, r')) =>
    st = REF_SUCCESS /\ node_added r g node r' /\
    exists rest, node_core r' rest /\ node :: rest = blank_after bl (node_max r) (node_max r')).
Proof.
  intros Hc Hroom Hg Hnew. unfold ref_node_add_core. destruct (Z.ltb_spec g 0); [lia|].
  apply wp_bind. eapply wp_mono; [by eapply node_grow_ok|].
  intros r1 (bl1 & Hc1 & [Hne Hafter] & Hf & Hmax).
  pose proof (nc_max _ _ Hc) as Hm. pose proof (nc_max _ _ Hc1) as Hm1.
  pose proof (nc_global _ _ Hc1) as Hlg. pose proof (nc_part _ _ Hc1) as Hlp.
  pose proof (nc_age _ _ Hc1) as Hla. pose proof (nc_n_range _ _ Hc1) as Hn1.
  unfold node_room, REF_NODE_REAL_PER, REF_INT_MAX in Hroom.
  pose proof (half_more_bounds (node_max r) ltac:(lia)) as Hh.
  destruct (nc_blank_head _ _ Hc1) as [[_ ->]|(i & rest & -> & Hnx & Hb & Hir & Hgi)]; [done|].
  rewrite Hnx. apply wp_bind, wp_aget; [lia|]. apply wp_bind, wp_aset; [lia|].
  apply wp_bind, wp_aset; [lia|]. apply wp_bind, wp_aset; [lia|].
  apply wp_bind, ref_node_metric_form_ident; [apply (nc_real _ _ Hc1)|
    unfold REF_NODE_REAL_PER, REF_INT_MAX; cbn; lia|done|].
  cbn [node_max set_node_age set_node_part set_node_global set_node_blank].
  intros real Hreal Hxyz. cbn [RSS]. apply wp_bind, wp_ck_int; [unfold REF_INT_MIN, REF_INT_MAX; cbn; lia|].
  apply wp_ret. split; [done|]. cbn [node_n set_node_real set_node_age set_node_part
    set_node_global set_node_blank].
  match goal with |- node_added _ _ _ ?x /\ _ => set (r' := x) end.
  assert (Hgl : node_global r' = upd (node_global r1) i g) by done.
  assert (Hfresh : i ∉ valid_nodes r).
  { intros Hi. rewrite <- (nf_valid _ _ Hf), elem_of_valid_nodes in Hi. lia. }
  assert (Hv : forall j, j ∈ valid_nodes r' <-> j = i \/ j ∈ valid_nodes r).
  { intros j. rewrite <- (nf_valid _ _ Hf), !elem_of_valid_nodes, Hgl.
    change (node_max r') with (node_max r1). split.
    - intros [Hj Hgj]. rewrite aat_upd in Hgj by lia. destruct (Z.eqb_spec i j); [by left|by right].
    - intros [->|[Hj Hgj]]; [by rewrite aat_upd_eq by lia|].
      split; [done|]. rewrite aat_upd by lia. by case Z.eqb_spec. }
  assert (Hgo : forall j, j ∈ valid_nodes r -> (node_global r').[j] = (node_global r).[j]).
  { intros j Hj. rewrite Hgl. rewrite <- (nf_global _ _ Hf) by done.
    apply aat_upd_ne; [lia| |by intros ->].
    apply (nf_valid _ _ Hf), elem_of_valid_nodes in Hj. lia. }
  assert (Hgn : (node_global r').[i] = g) by by rewrite Hgl, aat_upd_eq by lia.
  pose proof (nc_nodup _ _ Hc1) as Hnd. apply NoDup_cons in Hnd as [Hir2 Hnd].
  assert (Hrest : node_core r' rest).
  { pose proof (nc_chain _ _ Hc1) as [_ Hch].
    destruct Hc1; constructor; try done.
    + rewrite Hgl. by asimpl.
    + change (node_part r') with (upd (node_part r1) i (ref_mpi_rank (node_mpi r1))). by asimpl.
    + change (node_age r') with (upd (node_age r1) i 0). by asimpl.
    + change (node_blank r') with ((node_global r1).[i]).
      eapply chain_ext; [|exact Hch]. intros j Hj. cbn beta. rewrite Hgl.
      rewrite aat_upd_ne; [done|lia| |by intros ->].
      assert (j ∈ i :: rest) as [? _]%nc_blank0 by set_solver. lia.
    + intros j. rewrite Hgl. change (node_max r') with (node_max r1). split.
      * intros Hj. assert (j ∈ i :: rest) as [? ?]%nc_blank0 by set_solver.
        split; [done|]. rewrite aat_upd_ne; [done|lia|lia|by intros ->].
      * intros [Hj Hgj]. rewrite aat_upd in Hgj by lia. destruct (Z.eqb_spec i j); [lia|].
        assert (j ∈ i :: rest) as Hj' by (apply nc_blank0; done). set_solver.
    + change (node_n r') with (node_n r1 + 1). rewrite nc_n0.
      replace (zlen (valid_nodes r1) + 1) with (zlen (i :: valid_nodes r1))
        by (rewrite zlen_cons; lia).
      unfold zlen. f_equal. apply Permutation_length, valid_nodes_permutation.
      * apply NoDup_cons. split; [by rewrite (nf_valid _ _ Hf)|apply NoDup_valid_nodes].
      * intros j. rewrite <- elem_of_valid_nodes, Hv, elem_of_cons, (nf_valid _ _ Hf). done.
    + intros j k [->|Hj]%Hv [->|Hk]%Hv; rewrite ?Hgn, ?(Hgo _ Hj), ?(Hgo _ Hk); intros Heq;
        [done|by apply Hnew in Hk|by apply Hnew in Hj|].
      apply (nc_distinct _ _ Hc); done. }
  split; [|exists rest; split; [exact Hrest|exact Hafter]].
  constructor; try done.
  - by exists rest.
  - change (node_n r') with (node_n r1 + 1). by rewrite (nf_n _ _ Hf).
  - intros k Hk. apply (nf_sorted_global _ _ Hf). done.
  - intros k Hk. apply (nf_sorted_local _ _ Hf). done.
  - change (node_part r') with (upd (node_part r1) i (ref_mpi_rank (node_mpi r1))).
    rewrite aat_upd_eq by lia. by rewrite (nf_mpi _ _ Hf).
  - intros j Hj. change (node_part r') with (upd (node_part r1) i (ref_mpi_rank (node_mpi r1))).
    pose proof Hj as [Hjr _]%elem_of_valid_nodes. pose proof (nf_max _ _ Hf). rewrite aat_upd_ne; [by apply (nf_part _ _ Hf)|lia|lia|by intros ->].
  - intros k j Hk Hj. change (node_real r') with real. pose proof (nf_max _ _ Hf). rewrite Hxyz; [|done|cbn; lia].
    cbn [node_real set_node_age set_node_part set_node_global set_node_blank].
    apply (nf_real _ _ Hf). unfold REF_NODE_REAL_PER. lia.
  - split; [apply (nf_max _ _ Hf)|exact Hmax].
  - apply (nf_mpi _ _ Hf).
  - apply (nf_n_unused _ _ Hf).
  - apply (nf_unused _ _ Hf).
  - apply (nf_max_unused _ _ Hf).
  - apply (nf_new _ _ Hf).
Qed.

Lemma node_added_map r bl g node r' :
  node_core r bl -> node_added r g node r' -> node_map r' = <[g := node]> (node_map r).
Proof.
  intros Hc Ha. destruct (na_core _ _ _ _ Ha) as [bl' Hc'].
  apply (node_map_eq r' bl'); [done|]. intros h i. rewrite (na_valid _ _ _ _ Ha).
  destruct (decide (h = g)) as [->|Hne].
  - rewrite lookup_insert_eq. split.
    + intros [= <-]. split; [by left|apply (na_node _ _ _ _ Ha)].
    + intros [[->|Hi] Hg]; [done|]. f_equal.
      apply (nc_distinct _ _ Hc').
      * apply (na_valid _ _ _ _ Ha). by left.
      * apply (na_valid _ _ _ _ Ha). by right.
      * by rewrite (na_node _ _ _ _ Ha).
  - rewrite lookup_insert_ne by done. rewrite (node_map_lookup r bl) by done. split.
    + intros [Hi <-]. split; [by right|]. by apply (na_global _ _ _ _ Ha).
    + intros [[->|Hi] Hg]; [by rewrite (na_node _ _ _ _ Ha) in Hg|].
      by rewrite (na_global _ _ _ _ Ha) in Hg.
Qed.

(** The insertion point: smaller global indices before, larger from it on. *)
Lemma node_insert_point_ok r g n (Q : Z -> Prop) :
  node_n r = n + 1 -> 0 <= n <= zlen (node_sorted_global r) ->
  (forall p q, 0 <= p < q -> q < n -> (node_sorted_global r).[p] < (node_sorted_global r).[q]) ->
  (forall ip, 0 <= ip <= n ->
     (forall k, 0 <= k < ip -> (node_sorted_global r).[k] < g) ->
     (forall k, ip <= k < n -> g <= (node_sorted_global r).[k]) -> Q ip) ->
  wp (node_insert_point r g) Q.
Proof.
  intros Hn Hl Hs HQ. unfold node_insert_point. rewrite Hn.
  replace (n + 1 - 2) with (n - 1) by lia. apply wp_bind.
  apply (wp_forx_down (fun c _ => forall k, c < k < n -> g <= (node_sorted_global r).[k])
    (fun ip => 0 <= ip <= n /\ (forall k, 0 <= k < ip -> (node_sorted_global r).[k] < g) /\
       (forall k, ip <= k < n -> g <= (node_sorted_global r).[k]))); [lia|lia| | |].
  - intros c [] Hc Hk. apply wp_bind, wp_aget; [lia|]. case Z.ltb_spec; intros Hlt; apply wp_ret; cbn.
    + split; [lia|]. split; [|intros k ?; apply Hk; lia].
      intros k Hkc. destruct (decide (k = c)) as [->|]; [done|].
      specialize (Hs k c ltac:(lia) ltac:(lia)). lia.
    + intros k ?. destruct (decide (k = c)) as [->|]; [done|]. apply Hk. lia.
  - intros [] Hk. apply wp_ret. apply HQ; [lia|lia|]. intros k ?. apply Hk. lia.
  - intros ip (? & ? & ?). apply wp_ret. by apply HQ.
Qed.

(** Inserting the new node in both sorted arrays. *)
Lemma node_insert_ok r bl r1 g node ip sg sl :
  node_core r bl -> node_sorted r -> node_added r g node r1 ->
  (forall i, i ∈ valid_nodes r -> (node_global r).[i] <> g) ->
  0 <= ip <= node_n r ->
  (forall k, 0 <= k < ip -> (node_sorted_global r).[k] < g) ->
  (forall k, ip <= k < node_n r -> g <= (node_sorted_global r).[k]) ->
  zlen sg = node_max r1 -> zlen sl = node_max r1 ->
  (forall k, 0 <= k <= node_n r -> sg.[k] =
     if k <? ip then (node_sorted_global r).[k] else if k =? ip then g
     else (node_sorted_global r).[k - 1]) ->
  (forall k, 0 <= k <= node_n r -> sl.[k] =
     if k <? ip then (node_sorted_local r).[k] else if k =? ip then node
     else (node_sorted_local r).[k - 1]) ->
  node_wf (set_node_sorted_local sl (set_node_sorted_global sg r1)).
Proof.
  intros Hc Hs Ha Hnew Hip Hlt Hge Hlsg Hlsl Hsg Hsl.
  destruct (na_core _ _ _ _ Ha) as [bl1 Hc1].
  pose proof (nc_n_range _ _ Hc) as Hn. pose proof (nc_n_range _ _ Hc1) as Hn1.
  pose proof (na_n _ _ _ _ Ha) as Hn'. pose proof (nc_sorted_local _ _ Hc) as Hlr.
  pose proof (na_max _ _ _ _ Ha) as [Hmm _].
  set (r2 := set_node_sorted_local _ _).
  assert (Hv2 : valid_nodes r2 = valid_nodes r1) by done.
  assert (Hc2 : node_core r2 bl1).
  { destruct Hc1; constructor; try done. }
  split; [by exists bl1|]. constructor; cbn [r2 node_n node_sorted_local node_sorted_global
    node_global set_node_sorted_local set_node_sorted_global].
  - rewrite Hv2, Hn'. rewrite (gap_permutation (node_sorted_local r) sl (node_n r) ip node);
      [|lia|lia|lia|done].
    rewrite (ns_perm _ Hs). apply valid_nodes_permutation.
    + apply NoDup_cons. split; [apply (na_fresh _ _ _ _ Ha)|apply NoDup_valid_nodes].
    + intros i. by rewrite <- elem_of_valid_nodes, (na_valid _ _ _ _ Ha), elem_of_cons.
  - intros k Hk. rewrite Hn' in Hk. rewrite Hsg, Hsl by lia.
    assert (Hval : forall j, 0 <= j < node_n r -> (node_sorted_global r).[j] =
      (node_global r1).[(node_sorted_local r).[j]]).
    { intros j Hj. rewrite (ns_global _ Hs) by done. symmetry. apply (na_global _ _ _ _ Ha).
      apply ns_elem; [done|lia|done]. }
    destruct (Z.ltb_spec k ip); [apply Hval; lia|].
    destruct (Z.eqb_spec k ip); [by rewrite (na_node _ _ _ _ Ha)|]. apply Hval. lia.
  - intros p q Hp Hq. rewrite Hn' in Hq. rewrite !Hsg by lia.
    assert (Hgt : forall k, ip <= k < node_n r -> g < (node_sorted_global r).[k]).
    { intros k Hk. specialize (Hge k Hk).
      assert ((node_sorted_global r).[k] <> g); [|lia].
      rewrite (ns_global _ Hs) by lia. apply Hnew, ns_elem; [done|lia|lia]. }
    destruct (Z.ltb_spec p ip), (Z.ltb_spec q ip), (Z.eqb_spec p ip), (Z.eqb_spec q ip);
      try lia; try (apply (ns_lt _ Hs); lia); try (apply Hlt; lia); try (apply Hgt; lia).
Qed.

Lemma ref_node_add_spec `{!LogIdentity D} r bl g node0 :
  node_core r bl -> node_sorted r -> node_room r -> 0 <= g ->
  wp (ref_node_add r g node0) (fun '(st, (node, r')) =>
    st = REF_SUCCESS /\ node_wf r' /\
    match node_map r !! g with
    | Some i => node = i /\ r' = r
    | None => node ∉ valid_nodes r /\ node_n r' = node_n r + 1 /\
        node_map r' = <[g := node]> (node_map r) /\
        (node_max r' = node_max r \/
         (node_n r = node_max r /\
          node_max r' = node_max r + Z.max 5000 (half_more (node_max r)))) /\
        node_mpi r' = node_mpi r /\
        node_n_unused r' = node_n_unused r /\ node_unused_global r' = node_unused_global r /\
        node_max_unused r' = node_max_unused r /\ node_new_n_global r' = node_new_n_global r /\
        (exists rest, node_core r' rest /\ node :: rest = blank_after bl (node_max r) (node_max r')) /\
        (forall i, i ∈ valid_nodes r -> (node_part r').[i] = (node_part r).[i]) /\
        (node_part r').[node] = ref_mpi_rank (node_mpi r) /\
        forall i j, 0 <= i < 3 -> 0 <= j < node_max r ->
          (node_real r').[i + REF_NODE_REAL_PER * j] = (node_real r).[i + REF_NODE_REAL_PER * j]
    end).
Proof.
  intros Hc Hs Hroom Hg. assert (Hwf : node_wf r) by (split; [by exists bl|done]).
  pose proof (nc_max _ _ Hc) as Hm. pose proof (nc_n_range _ _ Hc) as Hn.
  pose proof Hroom as Hroom'. unfold node_room, REF_NODE_REAL_PER, REF_INT_MAX in Hroom'.
  pose proof (half_more_bounds (node_max r) ltac:(lia)) as Hh.
  unfold ref_node_add. destruct (Z.ltb_spec g 0); [lia|].
  rewrite ref_node_local_ok by (done || unfold REF_INT_MAX; lia). cbn [obind].
  destruct (node_map r !! g) as [i|] eqn:Hmap; [by apply wp_ret|].
  unfold RXS. rewrite bool_decide_eq_true_2 by by right.
  rewrite (node_map_None r bl) in Hmap by done.
  apply wp_bind. eapply wp_mono; [by eapply ref_node_add_core_ok|].
  intros [st [node r1]] (-> & Ha & (rest & Hrest & Hafter)). cbn [RSS].
  destruct (na_core _ _ _ _ Ha) as [bl1 Hc1]. pose proof (na_n _ _ _ _ Ha) as Hn1.
  pose proof (nc_n_range _ _ Hc1) as Hnr1. pose proof (nc_sorted_global _ _ Hc1) as Hlsg1.
  pose proof (nc_sorted_local _ _ Hc1) as Hlsl1.
  apply wp_bind, (node_insert_point_ok r1 g (node_n r)); [done|lia| |].
  { intros p q Hp Hq. rewrite !(na_sorted_global _ _ _ _ Ha) by lia. by apply (ns_lt _ Hs). }
  intros ip Hip Hlt Hge.
  rewrite Hn1. replace (node_n r + 1 - 1) with (node_n r) by lia.
  apply wp_bind, wp_shift_up; [lia|lia|]. intros sg Hlsg Hsg.
  apply wp_bind, wp_shift_up; [lia|lia|]. intros sl Hlsl Hsl.
  apply wp_bind, wp_aset; [lia|]. apply wp_bind, wp_aset; [lia|]. apply wp_ret.
  split; [done|]. split.
  - apply (node_insert_ok r bl r1 g node ip); try done.
    + intros k Hk. rewrite <- (na_sorted_global _ _ _ _ Ha) by lia. by apply Hlt.
    + intros k Hk. rewrite <- (na_sorted_global _ _ _ _ Ha) by lia. by apply Hge.
    + rewrite zlen_upd. lia.
    + rewrite zlen_upd. lia.
    + intros k Hk. rewrite aat_upd by lia. rewrite Hsg by lia.
      destruct (Z.eqb_spec ip k), (Z.ltb_spec k ip), (Z.eqb_spec k ip), (Z.ltb_spec ip k),
        (Z.leb_spec k (node_n r)); try lia; cbn [andb]; try done;
        apply (na_sorted_global _ _ _ _ Ha); lia.
    + intros k Hk. rewrite aat_upd by lia. rewrite Hsl by lia.
      destruct (Z.eqb_spec ip k), (Z.ltb_spec k ip), (Z.eqb_spec k ip), (Z.ltb_spec ip k),
        (Z.leb_spec k (node_n r)); try lia; cbn [andb]; try done;
        apply (na_sorted_local _ _ _ _ Ha); lia.
  - split; [apply (na_fresh _ _ _ _ Ha)|]. split; [done|].
    split; [exact (node_added_map r bl g node r1 Hc Ha)|].
    split; [apply (na_max _ _ _ _ Ha)|]. split; [apply (na_mpi _ _ _ _ Ha)|].
    split; [apply (na_n_unused _ _ _ _ Ha)|]. split; [apply (na_unused _ _ _ _ Ha)|].
    split; [apply (na_max_unused _ _ _ _ Ha)|]. split; [apply (na_new _ _ _ _ Ha)|].
    split; [exists rest; split; [destruct Hrest; constructor; try done; cbn [node_sorted_global node_sorted_local set_node_sorted_global set_node_sorted_local node_max]; rewrite zlen_upd; lia|exact Hafter]|].
    split; [exact (na_parts _ _ _ _ Ha)|]. split; [exact (na_part _ _ _ _ Ha)|exact (na_xyz _ _ _ _ Ha)].
Qed.

Lemma ref_node_add_ok `{!LogIdentity D} r g node0 :
  node_wf r -> node_room r -> 0 <= g ->
  wp (ref_node_add r g node0) (fun '(st, (node, r')) =>
    st = REF_SUCCESS /\ node_wf r' /\
    match node_map r !! g with
    | Some i => node = i /\ r' = r
    | None => node ∉ valid_nodes r /\ node_n r' = node_n r + 1 /\
        node_map r' = <[g := node]> (node_map r) /\
        (node_max r' = node_max r \/
         (node_n r = node_max r /\
          node_max r' = node_max r + Z.max 5000 (half_more (node_max r)))) /\
        node_mpi r' = node_mpi r /\
        node_n_unused r' = node_n_unused r /\ node_unused_global r' = node_unused_global r /\
        node_max_unused r' = node_max_unused r /\ node_new_n_global r' = node_new_n_global r
    end).
Proof.
  intros [[bl Hc] Hs] Hroom Hg. eapply wp_mono; [by apply (ref_node_add_spec r bl)|].
  intros [st [node r']] (-> & Hwf' & Hm). split; [done|]. split; [done|]. destruct (node_map r !! g); [done|]. tauto.
Qed.
End add.

(** ** Sizes

    With at most [p] nodes in use so far the arrays have at most
    [5000 + 2.5 p] elements; up to [node_budget] nodes they can grow. *)
Definition node_budget : Z := 20000000.
Definition node_size {D} (p : Z) (r : REF_NODE D) : Prop :=
  0 <= p /\ node_n r <= p /\ 2 * node_max r <= 10000 + 5 * p.

Section size.
Context {D : Type}.
Implicit Types (r : REF_NODE D).

Lemma half_more_double n : 0 <= n -> 2 * half_more n <= 3 * n.
Proof.
  intros Hn. unfold half_more. rewrite Z.quot_div_nonneg by lia.
  apply Z.mul_div_le. lia.
Qed.

Lemma node_size_room r p :
  0 <= node_max r -> node_size p r -> p <= node_budget -> node_room r /\ 2 * node_n r <= REF_INT_MAX.
Proof.
  intros Hm (Hp & Hn & Hmax) Hb. pose proof (half_more_double (node_max r) Hm).
  unfold node_room, node_budget, REF_NODE_REAL_PER, REF_INT_MAX in *. lia.
Qed.

Lemma node_size_mono r p q : p <= q -> node_size p r -> node_size q r.
Proof. intros Hpq (? & ? & ?). unfold node_size. lia. Qed.

(** The growth of the arrays keeps the bound. *)
Lemma node_size_grow r r' p :
  0 <= node_max r -> node_size p r -> node_n r' = node_n r + 1 ->
  node_max r' = node_max r \/
    (node_n r = node_max r /\ node_max r' = node_max r + Z.max 5000 (half_more (node_max r))) ->
  node_size (p + 1) r'.
Proof.
  intros Hm (Hp & Hn & Hmax) Hn' Hgrow. pose proof (half_more_double (node_max r) Hm).
  unfold node_size. lia.
Qed.
End size.

(** ** Removing a node *)

Section remove.
Context {D : Type} `{Dbl D, Junk D, Junk Z}.
Implicit Types (r : REF_NODE D).

(** [r'] is [r] without the local index [node]; the sorted arrays are not
    updated yet. *)
Record node_freed r (node : Z) r' : Prop := {
  fr_core : exists bl, node_core r' bl;
  fr_n : node_n r' = node_n r - 1;
  fr_max : node_max r' = node_max r;
  fr_valid : forall i, i ∈ valid_nodes r' <-> i <> node /\ i ∈ valid_nodes r;
  fr_global : forall i, i ∈ valid_nodes r' -> (node_global r').[i] = (node_global r).[i];
  fr_sorted_global : node_sorted_global r' = node_sorted_global r;
  fr_sorted_local : node_sorted_local r' = node_sorted_local r;
  fr_mpi : node_mpi r' = node_mpi r;
  fr_new : node_new_n_global r' = node_new_n_global r
}.

Lemma free_local_ok r bl node :
  node_core r bl -> node ∈ valid_nodes r ->
  wp (free_local r node) (fun r' => node_freed r node r' /\
    node_n_unused r' = node_n_unused r /\ node_max_unused r' = node_max_unused r /\
    node_unused_global r' = node_unused_global r).
Proof.
  intros Hc Hv. pose proof Hv as [Hnr Hg]%elem_of_valid_nodes. unfold free_local.
  pose proof (nc_global _ _ Hc) as Hlg. pose proof (nc_max _ _ Hc) as Hm.
  pose proof (nc_n_range _ _ Hc) as Hn.
  apply wp_bind, wp_aset; [lia|]. apply wp_bind, wp_ck_int; [unfold REF_INT_MIN, REF_INT_MAX in *; lia|].
  apply wp_ret. split; [|done]. match goal with |- node_freed _ _ ?x => set (r' := x) end.
  assert (Hb : node_blank r < 0).
  { destruct (nc_blank_head _ _ Hc) as [[-> _]|(i & rest & _ & Hi & _ & ? & _)];
      [done|unfold next2index in Hi; lia]. }
  assert (Hgl : node_global r' = upd (node_global r) node (node_blank r)) by done.
  assert (Hvr : forall i, i ∈ valid_nodes r' <-> i <> node /\ i ∈ valid_nodes r).
  { intros i. rewrite !elem_of_valid_nodes, Hgl. change (node_max r') with (node_max r). split.
    - intros [Hi Hgi]. rewrite aat_upd in Hgi by lia. destruct (Z.eqb_spec node i); [lia|].
      split; [done|]. done.
    - intros (Hne & Hi & Hgi). rewrite aat_upd_ne by lia. done. }
  assert (Hnb : node ∉ bl).
  { intros Hin. apply (nc_blank _ _ Hc) in Hin. lia. }
  constructor; try done.
  - exists (node :: bl). pose proof (nc_chain _ _ Hc) as Hch. destruct Hc; constructor; try done.
    + rewrite Hgl. by asimpl.
    + change (node_blank r') with (index2next node). cbn [chain].
      split; [unfold next2index, index2next; lia|]. rewrite Hgl, aat_upd_eq by lia.
      eapply chain_ext; [|exact Hch]. intros i Hi. cbn beta. rewrite aat_upd_ne; [done|lia| |by intros ->].
      apply nc_blank0 in Hi. lia.
    + apply NoDup_cons. done.
    + intros i. rewrite elem_of_cons, nc_blank0, Hgl. change (node_max r') with (node_max r).
      destruct (decide (i = node)) as [->|Hne].
      * rewrite aat_upd_eq by lia. split; [by intros _|by left].
      * split.
        -- intros [?|[? ?]]; [done|]. rewrite aat_upd_ne by lia. done.
        -- intros [Hi Hgi]. rewrite aat_upd_ne in Hgi by lia. by right.
    + change (node_n r') with (node_n r - 1). rewrite nc_n0.
      assert (Hp : node :: valid_nodes r' ≡ₚ valid_nodes r).
      { apply valid_nodes_permutation.
        - apply NoDup_cons. split; [|apply NoDup_valid_nodes]. rewrite Hvr. tauto.
        - intros i. rewrite elem_of_cons, Hvr, <- elem_of_valid_nodes.
          destruct (decide (i = node)) as [->|]; tauto. }
      unfold zlen. rewrite <- Hp. cbn. lia.
    + intros i j [? Hi]%Hvr [? Hj]%Hvr. rewrite Hgl.
      apply elem_of_valid_nodes in Hi as Hi'. apply elem_of_valid_nodes in Hj as Hj'.
      rewrite !aat_upd_ne by lia. by apply nc_distinct0.
  - intros i [Hne Hi]%Hvr. rewrite Hgl. apply elem_of_valid_nodes in Hi. by rewrite aat_upd_ne by lia.
Qed.

Lemma node_freed_map r bl node r' :
  node_core r bl -> node_freed r node r' -> node ∈ valid_nodes r ->
  node_map r' = delete (node_global r).[node] (node_map r).
Proof.
  intros Hc Hf Hv. destruct (fr_core _ _ _ Hf) as [bl' Hc'].
  apply (node_map_eq r' bl'); [done|]. intros g i.
  destruct (decide (g = (node_global r).[node])) as [->|Hne].
  - rewrite lookup_delete_eq. split; [done|]. intros [Hi Hg].
    rewrite (fr_global _ _ _ Hf) in Hg by done. apply (fr_valid _ _ _ Hf) in Hi as [Hin Hi].
    exfalso. apply Hin. by apply (nc_distinct _ _ Hc).
  - rewrite lookup_delete_ne by done. rewrite (node_map_lookup r bl) by done. split.
    + intros [Hi <-]. assert (i ∈ valid_nodes r') as Hi'.
      { apply (fr_valid _ _ _ Hf). split; [by intros ->|done]. }
      split; [done|]. by apply (fr_global _ _ _ Hf).
    + intros [Hi <-]. rewrite (fr_global _ _ _ Hf) by done. apply (fr_valid _ _ _ Hf) in Hi. tauto.
Qed.

(** Closing the gap at the place of the node in both sorted arrays. *)
Lemma node_delete_ok r bl node r1 k0 sg sl :
  node_core r bl -> node_sorted r -> node ∈ valid_nodes r ->
  0 <= k0 < node_n r -> (node_sorted_local r).[k0] = node ->
  node_freed (set_node_sorted_local sl (set_node_sorted_global sg r)) node r1 ->
  zlen sg = node_max r -> zlen sl = node_max r ->
  (forall k, 0 <= k < node_n r - 1 -> sg.[k] =
     if k <? k0 then (node_sorted_global r).[k] else (node_sorted_global r).[k + 1]) ->
  (forall k, 0 <= k < node_n r - 1 -> sl.[k] =
     if k <? k0 then (node_sorted_local r).[k] else (node_sorted_local r).[k + 1]) ->
  node_wf r1.
Proof.
  intros Hc Hs Hv Hk0 Hsl0 Hf Hlsg Hlsl Hsg Hsl.
  destruct (fr_core _ _ _ Hf) as [bl1 Hc1]. split; [by exists bl1|].
  pose proof (nc_n_range _ _ Hc) as Hn. pose proof (nc_sorted_local _ _ Hc) as Hlr.
  assert (Hn1 : node_n r1 = node_n r - 1) by apply (fr_n _ _ _ Hf).
  assert (Hsg1 : node_sorted_global r1 = sg) by apply (fr_sorted_global _ _ _ Hf).
  assert (Hsl1 : node_sorted_local r1 = sl) by apply (fr_sorted_local _ _ _ Hf).
  assert (Hvv : forall i, i ∈ valid_nodes r1 <-> i <> node /\ i ∈ valid_nodes r)
    by apply (fr_valid _ _ _ Hf).
  assert (Hgap : ztake (node_n r - 1 + 1) (node_sorted_local r) ≡ₚ node :: ztake (node_n r - 1) sl).
  { apply (gap_permutation sl (node_sorted_local r) (node_n r - 1) k0); [lia..|].
    intros k Hk. destruct (Z.ltb_spec k k0), (Z.eqb_spec k k0); try lia.
    - rewrite Hsl by lia. by destruct (Z.ltb_spec k k0); [|lia].
    - by subst k.
    - rewrite Hsl by lia. destruct (Z.ltb_spec (k - 1) k0); [lia|]. f_equal. lia. }
  replace (node_n r - 1 + 1) with (node_n r) in Hgap by lia. rewrite (ns_perm _ Hs) in Hgap.
  assert (Hnd : NoDup (node :: ztake (node_n r - 1) sl)).
  { rewrite <- Hgap. apply NoDup_valid_nodes. }
  apply NoDup_cons in Hnd as [Hnin Hnd].
  constructor; rewrite ?Hn1, ?Hsg1, ?Hsl1.
  - apply valid_nodes_permutation; [done|]. intros i. rewrite <- elem_of_valid_nodes, Hvv, Hgap.
    rewrite elem_of_cons. split; [intros Hi; split; [by intros ->|by right]|]. intros [? [?|?]]; done.
  - intros k Hk. rewrite Hsg, Hsl by lia.
    assert (Hval : forall j, 0 <= j < node_n r -> j <> k0 -> (node_sorted_global r).[j] =
      (node_global r1).[(node_sorted_local r).[j]]).
    { intros j Hj Hne. rewrite (ns_global _ Hs) by done. symmetry. apply (fr_global _ _ _ Hf).
      apply Hvv. split; [|apply ns_elem; [done|lia|done]].
      intros Heq. pose proof (ns_global _ Hs j Hj) as Hj1. rewrite Heq, <- Hsl0 in Hj1.
      rewrite <- (ns_global _ Hs) in Hj1 by lia.
      destruct (Z.lt_trichotomy j k0) as [Hlt|[?|Hlt]]; [|done|].
      - pose proof (ns_lt _ Hs j k0 ltac:(lia) ltac:(lia)). lia.
      - pose proof (ns_lt _ Hs k0 j ltac:(lia) ltac:(lia)). lia. }
    destruct (Z.ltb_spec k k0); apply Hval; lia.
  - intros p q Hp Hq. rewrite !Hsg by lia.
    destruct (Z.ltb_spec p k0), (Z.ltb_spec q k0); apply (ns_lt _ Hs); lia.
Qed.

(** The unused global indices, the most recent last. *)
Definition node_unused r : list Z := ztake (node_n_unused r) (node_unused_global r).

Lemma ref_node_push_unused_ok r bl g :
  node_core r bl -> node_max_unused r + 1000 <= REF_INT_MAX ->
  wp (ref_node_push_unused r g) (fun '(st, r') =>
    st = REF_SUCCESS /\ node_unused r' = node_unused r ++ [g] /\
    node_max_unused r' <= Z.max (node_max_unused r) (node_n_unused r + 1000) /\
    node_n_unused r' = node_n_unused r + 1 /\ node_core r' bl /\
    exists u n m, r' = set_node_n_unused n (set_node_unused_global u (set_node_max_unused m r))).
Proof.
  intros Hc Hmax. unfold ref_node_push_unused. pose proof (nc_unused _ _ Hc) as Hu.
  pose proof (nc_max_unused _ _ Hc) as Hmu. pose proof (nc_unused_global _ _ Hc) as Hl.
  apply wp_bind.
  apply (wp_mono (fun r1 => exists u m,
    r1 = set_node_unused_global u (set_node_max_unused m r) /\ zlen u = m /\
    node_n_unused r < m <= Z.max (node_max_unused r) (node_n_unused r + 1000) /\
    ztake (node_n_unused r) u = node_unused r)).
  { case Z.eqb_spec; intros He.
    - apply wp_bind, wp_ck_int; [unfold REF_INT_MIN, REF_INT_MAX in *; lia|]. apply wp_ret.
      exists (ref_realloc (node_unused_global r) (node_max_unused r + 1000)), (node_max_unused r + 1000).
      split; [done|]. split; [apply zlen_realloc; lia|]. split; [lia|].
      unfold node_unused. apply ztake_realloc; lia.
    - apply wp_ret. exists (node_unused_global r), (node_max_unused r).
      split; [by destruct r|]. split; [done|]. split; [lia|done]. }
  intros r1 (u & m & -> & Hlu & Hm & Ht).
  cbn [node_n_unused node_unused_global set_node_unused_global set_node_max_unused].
  apply wp_bind, wp_aset; [lia|]. apply wp_bind, wp_ck_int; [unfold REF_INT_MIN, REF_INT_MAX in *; lia|].
  apply wp_ret. split; [done|]. split; [|split; [cbn; lia|split; [done|split]]].
  - unfold node_unused at 1. cbn. rewrite ztake_S_upd by lia. by rewrite Ht.
  - destruct Hc; constructor; try done; cbn; try lia. by rewrite zlen_upd.
  - by eexists _, _, _.
Qed.

Lemma close_gap_ok r a loc (Q : list Z -> Prop) :
  0 <= loc < node_n r -> node_n r <= zlen a ->
  (forall b, zlen b = zlen a ->
     (forall k, 0 <= k < node_n r - 1 -> b.[k] = if k <? loc then a.[k] else a.[k + 1]) -> Q b) ->
  wp (close_gap r loc a) Q.
Proof.
  intros Hloc Hl HQ. unfold close_gap. apply wp_shift_down; [lia|lia|]. intros b Hb Hg.
  apply HQ; [done|]. intros k Hk. rewrite Hg by lia.
  destruct (Z.leb_spec loc k), (Z.ltb_spec k (node_n r - 1)), (Z.ltb_spec k loc); try lia; done.
Qed.

Lemma ref_node_remove_ok r node :
  node_wf r -> 2 * node_n r <= REF_INT_MAX -> node_max_unused r + 1000 <= REF_INT_MAX ->
  wp (ref_node_remove r node) (fun '(st, r') =>
    node_wf r' /\
    if bool_decide (node ∈ valid_nodes r) then
      st = REF_SUCCESS /\ node_map r' = delete (node_global r).[node] (node_map r) /\
      node_unused r' = node_unused r ++ [(node_global r).[node]] /\
      node_n r' = node_n r - 1 /\ node_max r' = node_max r /\
      node_new_n_global r' = node_new_n_global r /\
      node_n_unused r' = node_n_unused r + 1 /\
      node_max_unused r' <= Z.max (node_max_unused r) (node_n_unused r + 1000)
    else st = REF_INVALID /\ r' = r).
Proof.
  intros Hwf Hmax Hmu. pose proof Hwf as [[bl Hc] Hs]. unfold ref_node_remove.
  pose proof (nc_global _ _ Hc) as Hlg. pose proof (nc_n_range _ _ Hc) as Hn.
  pose proof (nc_sorted_global _ _ Hc) as Hlsg. pose proof (nc_sorted_local _ _ Hc) as Hlsl.
  rewrite ref_node_valid_eq by done. cbn [obind].
  case_bool_decide as Hv; cbn [negb]; [|by apply wp_ret].
  pose proof Hv as [Hnr Hg]%elem_of_valid_nodes.
  apply wp_bind, wp_aget; [lia|]. apply wp_bind.
  eapply wp_mono; [by apply search_global_ok|]. intros [st k].
  assert (Hm : node_map r !! (node_global r).[node] = Some node) by (by apply (node_map_lookup r bl)).
  rewrite Hm. intros (-> & Hk & Hslk & _). cbn [RSS].
  apply wp_bind, close_gap_ok; [done|lia|]. intros sg Hsgl Hsg.
  apply wp_bind, close_gap_ok; [done|lia|]. intros sl Hsll Hsl.
  set (r1 := set_node_sorted_local sl (set_node_sorted_global sg r)).
  assert (Hc1 : node_core r1 bl).
  { destruct Hc; constructor; try done; cbn; lia. }
  apply wp_bind, wp_aget; [cbn; lia|]. apply wp_bind.
  eapply wp_mono; [by apply (ref_node_push_unused_ok r1 bl)|].
  intros [st r2] (-> & Hu & Hmu2 & Hnu2 & Hc2 & (u & n & m & ->)). cbn [RSS].
  apply wp_bind. eapply wp_mono; [by apply (free_local_ok _ bl node Hc2)|].
  intros r3 (Hf & Hnu & Hmu3 & Hun). apply wp_ret.
  assert (Hf' : node_freed r1 node r3).
  { destruct Hf. constructor; done. }
  split; [exact (node_delete_ok r bl node r3 k sg sl Hc Hs Hv Hk Hslk Hf' (eq_trans Hsgl Hlsg) (eq_trans Hsll Hlsl) Hsg Hsl)|].
  split; [done|]. split; [exact (node_freed_map r1 bl node r3 Hc1 Hf' Hv)|].
  split; [unfold node_unused in *; by rewrite Hnu, Hun|].
  split; [apply (fr_n _ _ _ Hf')|]. split; [apply (fr_max _ _ _ Hf')|].
  split; [apply (fr_new _ _ _ Hf')|]. rewrite Hmu3, Hnu. done.
Qed.

Lemma ref_node_remove_without_global_ok r node :
  node_wf r -> 2 * node_n r <= REF_INT_MAX ->
  wp (ref_node_remove_without_global r node) (fun '(st, r') =>
    node_wf r' /\
    if bool_decide (node ∈ valid_nodes r) then
      st = REF_SUCCESS /\ node_map r' = delete (node_global r).[node] (node_map r) /\
      node_unused r' = node_unused r /\
      node_n r' = node_n r - 1 /\ node_max r' = node_max r /\
      node_new_n_global r' = node_new_n_global r /\
      node_n_unused r' = node_n_unused r /\ node_max_unused r' = node_max_unused r
    else st = REF_INVALID /\ r' = r).
Proof.
  intros Hwf Hmax. pose proof Hwf as [[bl Hc] Hs]. unfold ref_node_remove_without_global.
  pose proof (nc_global _ _ Hc) as Hlg. pose proof (nc_n_range _ _ Hc) as Hn.
  pose proof (nc_sorted_global _ _ Hc) as Hlsg. pose proof (nc_sorted_local _ _ Hc) as Hlsl.
  rewrite ref_node_valid_eq by done. cbn [obind].
  case_bool_decide as Hv; cbn [negb]; [|by apply wp_ret].
  pose proof Hv as [Hnr Hg]%elem_of_valid_nodes.
  apply wp_bind, wp_aget; [lia|]. apply wp_bind.
  eapply wp_mono; [by apply search_global_ok|]. intros [st k].
  assert (Hm : node_map r !! (node_global r).[node] = Some node) by (by apply (node_map_lookup r bl)).
  rewrite Hm. intros (-> & Hk & Hslk & _). cbn [RSS].
  apply wp_bind, close_gap_ok; [done|lia|]. intros sg Hsgl Hsg.
  apply wp_bind, close_gap_ok; [done|lia|]. intros sl Hsll Hsl.
  set (r1 := set_node_sorted_local sl (set_node_sorted_global sg r)).
  assert (Hc1 : node_core r1 bl).
  { destruct Hc; constructor; try done; cbn; lia. }
  apply wp_bind. eapply wp_mono; [by apply (free_local_ok _ bl node Hc1)|].
  intros r3 (Hf & Hnu & Hmu3 & Hun). apply wp_ret.
  split; [exact (node_delete_ok r bl node r3 k sg sl Hc Hs Hv Hk Hslk Hf (eq_trans Hsgl Hlsg) (eq_trans Hsll Hlsl) Hsg Hsl)|].
  split; [done|]. split; [exact (node_freed_map r1 bl node r3 Hc1 Hf Hv)|].
  split; [unfold node_unused in *; by rewrite Hnu, Hun|].
  split; [apply (fr_n _ _ _ Hf)|]. split; [apply (fr_max _ _ _ Hf)|].
  split; [apply (fr_new _ _ _ Hf)|]. done.
Qed.
End remove.

(** ** Creation and the stack of unused global indices *)

Section create.
Context {D : Type} `{Dbl D, Junk D, Junk Z}.
Implicit Types (r : REF_NODE D).

Lemma ref_node_create_spec mpi :
  wp (ref_node_create (D:=D) mpi) (fun '(st, r) =>
    st = REF_SUCCESS /\ (node_core r (seqZ 0 20) /\ node_sorted r) /\ node_map r = ∅ /\ node_unused r = [] /\ node_n r = 0 /\
    node_max r = 20 /\ node_max_unused r = 10 /\ node_new_n_global r = REF_EMPTY /\
    node_mpi r = mpi).
Proof.
  unfold ref_node_create. apply wp_bind, (wp_fill (fun n => index2next (n + 1))); [lia|alia| |].
  { intros i d Hi Hd _. apply wp_aset; [rewrite Hd; alia|done]. }
  intros g Hg Hgg. rewrite zlen_alloc in Hg, Hgg by lia.
  apply wp_bind, wp_aset; [lia|]. apply wp_ret.
  match goal with |- _ /\ (node_core ?x _ /\ _) /\ _ => set (r := x) end.
  assert (Hgl : node_global r = upd g (20 - 1) REF_EMPTY) by done.
  assert (Hnew : forall i, 0 <= i < 20 ->
    (node_global r).[i] = if i =? 19 then REF_EMPTY else index2next (i + 1)).
  { intros i Hi. rewrite Hgl, aat_upd by lia. rewrite Hgg by lia.
    destruct (Z.eqb_spec (20 - 1) i), (Z.eqb_spec i 19), (Z.leb_spec 0 i), (Z.ltb_spec i 20);
      try lia; done. }
  assert (Hneg : forall i, 0 <= i < 20 -> (node_global r).[i] < 0).
  { intros i Hi. rewrite Hnew by lia. unfold REF_EMPTY, index2next. case_match; lia. }
  assert (Hv : valid_nodes r = []).
  { apply elem_of_nil_inv. intros i [Hi ?]%elem_of_valid_nodes. specialize (Hneg i Hi). lia. }
  split; [done|]. split; [split|].
  - constructor; try done; try (cbn; asimpl; done).
    + cbn. apply (chain_linked _ 0 20); [lia|]. intros j Hj. rewrite Hnew by lia.
      destruct (Z.eqb_spec j 19), (Z.eqb_spec j (20 - 1)); unfold next2index, index2next, REF_EMPTY in *; lia.
    + apply NoDup_seqZ.
    + intros i. rewrite elem_of_seqZ. change (node_max r) with 20. split; [|lia].
      intros Hi. split; [lia|]. apply Hneg. lia.
    + by rewrite Hv.
    + rewrite Hv. set_solver.
  - constructor.
    + by rewrite Hv.
    + cbn. lia.
    + cbn. lia.
  - split; [unfold node_map; by rewrite Hv|]. done.
Qed.

Lemma ref_node_create_ok mpi :
  wp (ref_node_create (D:=D) mpi) (fun '(st, r) =>
    st = REF_SUCCESS /\ node_wf r /\ node_map r = ∅ /\ node_unused r = [] /\ node_n r = 0 /\
    node_max r = 20 /\ node_max_unused r = 10 /\ node_new_n_global r = REF_EMPTY /\
    node_mpi r = mpi).
Proof.
  eapply wp_mono; [apply ref_node_create_spec|]. intros [st r] (-> & [Hc Hs] & Hr). split; [done|].
  split; [split; [by eexists|done]|done].
Qed.

Lemma ref_node_pop_unused_ok r :
  node_wf r ->
  wp (ref_node_pop_unused r) (fun '(st, (g, r')) =>
    match last (node_unused r) with
    | None => st = REF_FAILURE /\ g = REF_EMPTY /\ r' = r
    | Some u => st = REF_SUCCESS /\ g = u /\ r' = set_node_n_unused (node_n_unused r - 1) r /\
        node_unused r' = removelast (node_unused r)
    end).
Proof.
  intros [[bl Hc] _]. unfold ref_node_pop_unused, node_unused.
  pose proof (nc_unused _ _ Hc) as Hu. pose proof (nc_unused_global _ _ Hc) as Hl.
  destruct (Z.eqb_spec 0 (node_n_unused r)) as [Hz|Hz].
  - rewrite <- Hz. apply wp_ret. cbn. done.
  - rewrite last_ztake by lia. cbn [node_n_unused node_unused_global set_node_n_unused].
    apply wp_bind, wp_aget; [lia|]. apply wp_ret. split; [done|]. split; [done|].
    split; [done|]. cbn. by rewrite removelast_ztake by lia.
Qed.

(** Assignments to the members that the invariant does not bound. *)
Lemma node_wf_set_new r n : node_wf r -> node_wf (set_node_new_n_global n r).
Proof. intros [[bl Hc] Hs]. split; [exists bl; by destruct Hc|by destruct Hs]. Qed.

Lemma node_wf_set_old r n : node_wf r -> node_wf (set_node_old_n_global n r).
Proof. intros [[bl Hc] Hs]. split; [exists bl; by destruct Hc|by destruct Hs]. Qed.

Lemma node_wf_set_n_unused r n :
  0 <= n <= node_max_unused r -> node_wf r -> node_wf (set_node_n_unused n r).
Proof. intros Hn [[bl Hc] Hs]. split; [exists bl; by destruct Hc|by destruct Hs]. Qed.

Lemma node_map_size r : node_wf r -> Z.of_nat (size (node_map r)) = node_n r.
Proof.
  intros [[bl Hc] _]. rewrite (nc_n _ _ Hc). unfold node_map.
  assert (Hnd : NoDup (map (fun i => ((node_global r).[i], i)) (valid_nodes r)).*1).
  { rewrite <- list_fmap_compose. apply NoDup_fmap_2_strong; [|apply NoDup_valid_nodes].
    intros. by apply (nc_distinct _ _ Hc). }
  rewrite <- length_map_to_list, map_to_list_to_map by done.
  unfold zlen. by rewrite length_map.
Qed.

Lemma ref_node_next_global_ok r g0 :
  node_wf r -> node_new_n_global r < REF_LONG_MAX -> node_n r < REF_LONG_MAX ->
  REF_EMPTY <= node_new_n_global r ->
  wp (ref_node_next_global r g0) (fun '(st, (g, r')) =>
    st = REF_SUCCESS /\ node_wf r' /\ node_map r' = node_map r /\
    node_n r' = node_n r /\ node_max r' = node_max r /\
    node_max_unused r' = node_max_unused r /\ node_n_unused r' <= node_n_unused r /\
    match last (node_unused r) with
    | Some u => g = u /\ node_unused r' = removelast (node_unused r) /\
        node_new_n_global r' = node_new_n_global r
    | None => node_unused r' = node_unused r /\ node_new_n_global r' = g + 1 /\
        g = if node_new_n_global r =? REF_EMPTY then node_n r else node_new_n_global r
    end).
Proof.
  intros Hwf Hnew Hn Hlow. pose proof (node_wf_range r Hwf) as (Hnn & _).
  pose proof Hwf as [[bl Hc] _]. pose proof (nc_unused _ _ Hc) as Hu.
  pose proof (nc_unused_global _ _ Hc) as Hl.
  unfold ref_node_next_global. case Z.ltb_spec; intros Hpos.
  - apply wp_bind. eapply wp_mono; [by apply ref_node_pop_unused_ok|].
    intros [st [g r']]. assert (last (node_unused r) = Some (node_unused_global r).[node_n_unused r - 1])
      as -> by (apply last_ztake; lia).
    intros (-> & -> & -> & Hun). cbn [RSS]. apply wp_ret.
    split; [done|]. split; [apply node_wf_set_n_unused; [lia|done]|].
    split; [done|]. split; [done|]. split; [done|]. split; [done|].
    split; [cbn; lia|]. done.
  - assert (Hz : node_n_unused r = 0) by lia.
    assert (last (node_unused r) = None) as -> by (unfold node_unused; by rewrite Hz).
    unfold REF_LONG_MAX, REF_EMPTY in *.
    destruct (Z.eqb_spec (-1) (node_new_n_global r)) as [He|He];
      destruct (Z.eqb_spec (node_new_n_global r) (-1)); try lia; cbn [RSS].
    + apply wp_bind, wp_ck_glob; [unfold REF_LONG_MIN, REF_LONG_MAX; cbn; lia|]. apply wp_ret.
      split; [done|]. split; [by apply node_wf_set_new, node_wf_set_new, node_wf_set_old|]. cbn. done.
    + apply wp_bind, wp_ck_glob; [unfold REF_LONG_MIN, REF_LONG_MAX; cbn; lia|]. apply wp_ret.
      split; [done|]. split; [by apply node_wf_set_new|]. cbn. done.
Qed.
End create.

(** ** Sequences of operations

    What the nodes of a process are: a finite map from global to local indices,
    the stack of unused global indices and the next new one. The local index of
    a new node is any unused one. *)
Inductive node_command :=
  | NodeAdd (global : Z)
  | NodeRemove (node : Z)
  | NodeRemoveWithoutGlobal (node : Z)
  | NodeLocal (global : Z)
  | NodeNextGlobal.

Record node_spec := mkNodeSpec {
  spec_map : gmap Z Z;
  spec_unused : list Z;
  spec_new : Z
}.

Inductive node_step : node_command -> node_spec -> REF_STATUS * Z -> node_spec -> Prop :=
  | step_add_negative g a : g < 0 -> node_step (NodeAdd g) a (REF_INVALID, REF_EMPTY) a
  | step_add_present g a i :
      spec_map a !! g = Some i -> node_step (NodeAdd g) a (REF_SUCCESS, i) a
  | step_add_new g a i :
      0 <= g -> 0 <= i -> spec_map a !! g = None ->
      (forall h, spec_map a !! h <> Some i) ->
      node_step (NodeAdd g) a (REF_SUCCESS, i)
        (mkNodeSpec (<[g := i]> (spec_map a)) (spec_unused a) (spec_new a))
  | step_remove g a i :
      spec_map a !! g = Some i ->
      node_step (NodeRemove i) a (REF_SUCCESS, REF_EMPTY)
        (mkNodeSpec (delete g (spec_map a)) (spec_unused a ++ [g]) (spec_new a))
  | step_remove_absent a i :
      (forall g, spec_map a !! g <> Some i) ->
      node_step (NodeRemove i) a (REF_INVALID, REF_EMPTY) a
  | step_remove_without_global g a i :
      spec_map a !! g = Some i ->
      node_step (NodeRemoveWithoutGlobal i) a (REF_SUCCESS, REF_EMPTY)
        (mkNodeSpec (delete g (spec_map a)) (spec_unused a) (spec_new a))
  | step_remove_without_global_absent a i :
      (forall g, spec_map a !! g <> Some i) ->
      node_step (NodeRemoveWithoutGlobal i) a (REF_INVALID, REF_EMPTY) a
  | step_local g a i :
      spec_map a !! g = Some i -> node_step (NodeLocal g) a (REF_SUCCESS, i) a
  | step_local_absent g a :
      spec_map a !! g = None -> node_step (NodeLocal g) a (REF_NOT_FOUND, REF_EMPTY) a
  | step_next_unused a u :
      last (spec_unused a) = Some u ->
      node_step NodeNextGlobal a (REF_SUCCESS, u)
        (mkNodeSpec (spec_map a) (removelast (spec_unused a)) (spec_new a))
  | step_next_new a g :
      last (spec_unused a) = None ->
      g = (if spec_new a =? REF_EMPTY then Z.of_nat (size (spec_map a)) else spec_new a) ->
      node_step NodeNextGlobal a (REF_SUCCESS, g)
        (mkNodeSpec (spec_map a) (spec_unused a) (g + 1)).

Section refinement.
Context {D : Type} `{Dbl D, Junk D, Junk Z}.
Implicit Types (r : REF_NODE D).

Definition node_exec (c : node_command) r : option ((REF_STATUS * Z) * REF_NODE D) :=
  match c with
  | NodeAdd g => let* '(st, (i, r)) := ref_node_add r g REF_EMPTY in Some ((st, i), r)
  | NodeRemove i => let* '(st, r) := ref_node_remove r i in Some ((st, REF_EMPTY), r)
  | NodeRemoveWithoutGlobal i =>
      let* '(st, r) := ref_node_remove_without_global r i in Some ((st, REF_EMPTY), r)
  | NodeLocal g => let* '(st, i) := ref_node_local r g in Some ((st, i), r)
  | NodeNextGlobal =>
      let* '(st, (g, r)) := ref_node_next_global r REF_EMPTY in Some ((st, g), r)
  end.

Definition node_abs r : node_spec :=
  mkNodeSpec (node_map r) (node_unused r) (node_new_n_global r).

(** The structure stands for the abstract state and [k] more calls keep the
    arrays in the range of [REF_INT]; [p] bounds what has been in use. *)
Definition node_sim (k : Z) r (a : node_spec) : Prop :=
  node_wf r /\ a = node_abs r /\
  exists p, p + k <= node_budget /\ node_size p r /\ node_n_unused r <= p /\
    node_max_unused r <= 1010 + p /\ REF_EMPTY <= node_new_n_global r <= p.

Lemma valid_node_global r bl i :
  node_core r bl -> i ∈ valid_nodes r -> node_map r !! (node_global r).[i] = Some i.
Proof. intros Hc Hi. by apply (node_map_lookup r bl). Qed.

Lemma invalid_node_map r bl i :
  node_core r bl -> i ∉ valid_nodes r -> forall g, node_map r !! g <> Some i.
Proof. intros Hc Hi g Hg. apply (node_map_lookup r bl) in Hg as [? _]; done. Qed.

Lemma node_exec_simulates `{!LogIdentity D} c r a k :
  0 <= k -> node_sim (k + 1) r a ->
  wp (node_exec c r) (fun '(o, r') => exists a', node_step c a o a' /\ node_sim k r' a').
Proof.
  intros Hk (Hwf & -> & p & Hpk & Hsz & Hu & Hmu & Hnew).
  pose proof Hwf as [[bl Hc] _]. pose proof (nc_unused _ _ Hc) as Hur.
  pose proof (node_wf_range r Hwf) as (Hnn & _).
  destruct (node_size_room r p ltac:(lia) Hsz ltac:(lia)) as [Hroom Hn2].
  pose proof Hsz as (Hp & Hn & Hm).
  assert (Hmu2 : node_max_unused r + 1000 <= REF_INT_MAX)
    by (unfold node_budget, REF_INT_MAX in *; lia).
  assert (Hkeep : node_sim k r (node_abs r)) by (split; [done|split; [done|exists p; split; [lia|split; [done|lia]]]]).
  destruct c as [g|i|i|g|]; cbn [node_exec].
  - destruct (Z_lt_le_dec g 0).
    + unfold ref_node_add. rewrite (proj2 (Z.ltb_lt g 0)) by lia. cbn [obind]. apply wp_ret.
      exists (node_abs r). split; [by constructor|done].
    + apply wp_bind. eapply wp_mono; [by apply ref_node_add_ok|]. intros [st [i r']] (-> & Hwf' & Hr').
      apply wp_ret. destruct (node_map r !! g) as [j|] eqn:Hg.
      * destruct Hr' as [-> ->]. exists (node_abs r). split; [by apply step_add_present|done].
      * destruct Hr' as (Hi & Hn' & Hmap & Hmax & _ & Hnu & Hun & Hmu' & Hnew').
        exists (node_abs r'). pose proof Hwf' as [[bl' Hc'] _]. split.
        -- unfold node_abs at 2. unfold node_unused. rewrite Hmap, Hnu, Hun, Hnew'.
           change (ztake _ _) with (node_unused r).
           apply (step_add_new g (node_abs r) i); [done| |done|by eapply invalid_node_map].
           assert (i ∈ valid_nodes r') as [? _]%elem_of_valid_nodes; [|lia].
           apply (node_map_lookup r' bl' g i Hc'). by rewrite Hmap, lookup_insert_eq.
        -- split; [done|]. split; [done|]. exists (p + 1).
           split; [lia|]. split; [exact (node_size_grow r r' p ltac:(lia) Hsz Hn' Hmax)|].
           rewrite Hnu, Hmu', Hnew'. lia.
  - apply wp_bind. eapply wp_mono; [by apply ref_node_remove_ok|]. intros [st r'] (Hwf' & Hr').
    apply wp_ret. case_bool_decide as Hi.
    + destruct Hr' as (-> & Hmap & Hun & Hn' & Hmax' & Hnew' & Hnu' & Hmu').
      exists (node_abs r'). split.
      * unfold node_abs at 2. rewrite Hmap, Hun, Hnew'.
        apply (step_remove _ (node_abs r)). by eapply valid_node_global.
      * split; [done|]. split; [done|]. exists (p + 1). unfold node_size. lia.
    + destruct Hr' as [-> ->]. exists (node_abs r). split; [|done].
      apply step_remove_absent. by eapply invalid_node_map.
  - apply wp_bind. eapply wp_mono; [by apply ref_node_remove_without_global_ok|].
    intros [st r'] (Hwf' & Hr'). apply wp_ret. case_bool_decide as Hi.
    + destruct Hr' as (-> & Hmap & Hun & Hn' & Hmax' & Hnew' & Hnu' & Hmu').
      exists (node_abs r'). split.
      * unfold node_abs at 2. rewrite Hmap, Hun, Hnew'.
        apply (step_remove_without_global _ (node_abs r)). by eapply valid_node_global.
      * split; [done|]. split; [done|]. exists (p + 1). unfold node_size. lia.
    + destruct Hr' as [-> ->]. exists (node_abs r). split; [|done].
      apply step_remove_without_global_absent. by eapply invalid_node_map.
  - rewrite ref_node_local_ok by done. exists ((match node_map r !! g with
      | Some i => (REF_SUCCESS, i) | None => (REF_NOT_FOUND, REF_EMPTY) end), r).
    split; [by destruct (node_map r !! g)|]. exists (node_abs r). split; [|done].
    destruct (node_map r !! g) eqn:Hg; by constructor.
  - unfold node_budget, REF_EMPTY in *.
    apply wp_bind. eapply wp_mono; [apply ref_node_next_global_ok; [done|unfold REF_LONG_MAX; lia..|
      unfold REF_EMPTY; lia]|].
    intros [st [g r']] (-> & Hwf' & Hmap & Hn' & Hmax' & Hmu' & Hnu' & Hl). apply wp_ret.
    exists (node_abs r'). destruct (last (node_unused r)) as [u|] eqn:Hlast.
    + destruct Hl as (-> & Hun & Hnew'). split.
      * unfold node_abs at 2. rewrite Hmap, Hun, Hnew'. by apply (step_next_unused (node_abs r)).
      * split; [done|]. split; [done|]. exists p. unfold node_size, node_budget, REF_EMPTY. lia.
    + destruct Hl as (Hun & Hnew' & Hg). split.
      * unfold node_abs at 2. rewrite Hmap, Hun, Hnew'. apply (step_next_new (node_abs r)); [done|].
        cbn [node_abs spec_new spec_map]. by rewrite node_map_size.
      * split; [done|]. split; [done|]. exists (p + 1). unfold REF_EMPTY in Hg.
        unfold node_size, node_budget, REF_EMPTY. case_match; lia.
Qed.

Lemma node_run_ok `{!LogIdentity D} mpi cs :
  zlen cs <= node_budget ->
  exists r0 os r a,
    ref_node_create (D:=D) mpi = Some (REF_SUCCESS, r0) /\
    run node_exec cs r0 = Some (os, r) /\
    spec_steps node_step cs (mkNodeSpec ∅ [] REF_EMPTY) os a /\
    node_wf r /\ a = node_abs r.
Proof.
  intros Hcs. destruct (ref_node_create_ok (D:=D) mpi) as ([st r0] & Hcr & -> & Hwf & Hm & Hu & Hn &
    Hmax & Hmu & Hnew & _).
  assert (Hsim : node_sim (zlen cs) r0 (mkNodeSpec ∅ [] REF_EMPTY)).
  { split; [done|]. split; [unfold node_abs; by rewrite Hm, Hu, Hnew|]. exists 0.
    pose proof Hwf as [[bl Hc] _]. pose proof (nc_unused _ _ Hc).
    assert (zlen (node_unused r0) = node_n_unused r0).
    { apply zlen_ztake. rewrite (nc_unused_global _ _ Hc). lia. }
    rewrite Hu in *. unfold zlen in *. cbn in *. rewrite Hnew. unfold node_size, REF_EMPTY. lia. }
  destruct (run_simulates node_exec node_step node_sim (fun _ => True) cs r0
    {| spec_map := ∅; spec_unused := []; spec_new := REF_EMPTY |})
    as (os & r & a & Hrun & Hsteps & Hwf' & Ha & _);
    [intros c r a k _; apply node_exec_simulates|by apply Forall_true|exact Hsim|].
  by exists r0, os, r, a.
Qed.

(** C1. From an empty structure, any sequence of up to 20,000,000 additions,
    removals, lookups and requests of a new global index is defined, and its
    results are results of the finite map from global to local indices with
    the stack of freed global indices: a global index has one node, a new
    node gets an unused local index, a removed global index is handed out
    again (last freed first), and the arrays stay consistent. *)
Theorem ref_node_refines `{!LogIdentity D} mpi cs :
  zlen cs <= node_budget ->
  exists r0 os r a,
    ref_node_create (D:=D) mpi = Some (REF_SUCCESS, r0) /\
    run node_exec cs r0 = Some (os, r) /\
    spec_steps node_step cs (mkNodeSpec ∅ [] REF_EMPTY) os a /\
    node_wf r /\ a = node_abs r.
Proof. apply node_run_ok. Qed.
End refinement.

(** ** Rebuilding the sorted arrays *)

Section valid_loop.
Context {D : Type} `{Dbl D, Junk D, Junk Z}.
Implicit Types (r : REF_NODE D).

(** The loop over the nodes in use is a loop over the list [valid_nodes]. *)
Lemma wp_each_valid_node {T} r (P : list Z -> T -> Prop) body (s : T) (Q : T -> Prop) :
  zlen (node_global r) = node_max r -> 0 <= node_max r ->
  P [] s ->
  (forall pre x post s, valid_nodes r = pre ++ x :: post -> P pre s ->
     wp (body x s) (P (pre ++ [x]))) ->
  (forall s, P (valid_nodes r) s -> Q s) ->
  wp (each_ref_node_valid_node r body s) Q.
Proof.
  intros Hl Hm Hnil Hstep HQ. unfold each_ref_node_valid_node.
  set (keep := fun i => 0 <= (node_global r).[i]).
  apply (wp_for_up (fun i s => P (filter keep (zrange i)) s)); [lia|done| |done].
  intros i s' Hi Hs'. rewrite ref_node_valid_eq by done. cbn [obind].
  rewrite zrange_S, filter_app by lia. rewrite filter_cons, filter_nil. case_bool_decide as Hv.
  - pose proof Hv as [_ Hg]%elem_of_valid_nodes.
    rewrite decide_True by done.
    destruct (zrange_app (i + 1) (node_max r) ltac:(lia)) as [l Hz].
    apply (Hstep _ _ (filter keep l)); [|done].
    unfold valid_nodes. fold keep. rewrite Hz, zrange_S, !filter_app by lia.
    rewrite filter_cons, filter_nil, decide_True by done. by rewrite <- app_assoc.
  - rewrite decide_False; [rewrite app_nil_r; by apply wp_ret|].
    intros Hg. apply Hv, elem_of_valid_nodes. done.
Qed.

Lemma zlen_valid_prefix r pre x post :
  valid_nodes r = pre ++ x :: post -> zlen pre < zlen (valid_nodes r).
Proof. intros ->. rewrite zlen_app, zlen_cons. pose proof (zlen_nonneg post). lia. Qed.

Lemma aat_valid_prefix r pre x post :
  valid_nodes r = pre ++ x :: post -> (valid_nodes r).[zlen pre] = x.
Proof. intros ->. rewrite aat_app_r by lia. by rewrite Z.sub_diag. Qed.

(** What the structure keeps when the sorted arrays are replaced. *)
Lemma node_core_set_sorted r bl sg sl :
  node_core r bl -> zlen sg = node_max r -> zlen sl = node_max r ->
  node_core (set_node_sorted_local sl (set_node_sorted_global sg r)) bl.
Proof. intros Hc Hg Hl. by destruct Hc. Qed.

Lemma valid_aat r bl k :
  node_core r bl -> 0 <= k < node_n r -> (valid_nodes r).[k] ∈ valid_nodes r.
Proof. intros Hc Hk. rewrite (nc_n _ _ Hc) in Hk. apply elem_of_aat. eauto. Qed.

Lemma pack_inj r k m :
  0 <= k < zlen (valid_nodes r) -> 0 <= m < zlen (valid_nodes r) ->
  (valid_nodes r).[k] = (valid_nodes r).[m] -> k = m.
Proof.
  intros Hk Hm Heq. pose proof (NoDup_lookup (valid_nodes r) (Z.to_nat k) (Z.to_nat m)
    (valid_nodes r).[k] (NoDup_valid_nodes r)) as Hn.
  rewrite aat_lookup, Heq in Hn by done. rewrite aat_lookup in Hn by done.
  specialize (Hn eq_refl eq_refl). lia.
Qed.

(** An ascending arrangement of the nodes in use makes the structure
    well-formed again. *)
Lemma node_wf_of_order r bl sg sl si :
  node_core r bl -> zlen sg = node_max r -> zlen sl = node_max r ->
  node_n r <= zlen si -> ztake (node_n r) si ≡ₚ zrange (node_n r) ->
  (forall k, 0 <= k < node_n r -> sl.[k] = (valid_nodes r).[si.[k]]) ->
  (forall k, 0 <= k < node_n r -> sg.[k] = (node_global r).[sl.[k]]) ->
  (forall k m, 0 <= k <= m -> m < node_n r -> sg.[k] <= sg.[m]) ->
  node_wf (set_node_sorted_local sl (set_node_sorted_global sg r)).
Proof.
  intros Hc Hlg Hll Hsi Hperm Hsl Hsg Hle. pose proof (nc_n_range _ _ Hc) as Hn.
  pose proof (nc_n _ _ Hc) as Hnv.
  pose proof (perm_range si (node_n r) ltac:(lia) Hperm) as Hr.
  split; [exists bl; by apply node_core_set_sorted|].
  constructor; cbn [node_n node_sorted_local node_sorted_global node_global
    set_node_sorted_local set_node_sorted_global]; [|done|].
  - change (valid_nodes _) with (valid_nodes r).
    rewrite (arr_ext (ztake (node_n r) sl) (map (aat (valid_nodes r)) (ztake (node_n r) si))).
    + rewrite Hperm, map_aat_zrange by lia. rewrite Hnv. by rewrite ztake_full.
    + by rewrite zlen_map, !zlen_ztake by lia.
    + intros k Hk. rewrite zlen_ztake in Hk by lia.
      rewrite aat_map by (rewrite zlen_ztake; lia). by rewrite !aat_ztake, Hsl by lia.
  - intros p q Hp Hq. pose proof (Hle p q ltac:(lia) Hq) as Hpq.
    assert (sg.[p] <> sg.[q]); [|lia]. intros Heq. rewrite !Hsg, !Hsl in Heq by lia.
    assert (p = q); [|lia]. apply (perm_inj si (node_n r) ltac:(lia) Hperm); [lia..|].
    apply (pack_inj r); [rewrite <- Hnv; apply Hr; lia..|].
    apply (nc_distinct _ _ Hc); [..|done]; apply (valid_aat r bl); try done; apply Hr; lia.
Qed.
End valid_loop.

Section rebuild.
Context {D : Type} `{Dbl D, Junk D, Junk Z}.
Implicit Types (r : REF_NODE D).

(** Packing the nodes in use: their indices and global indices. *)
Lemma rebuild_pack_ok r bl (pack : list Z) (Q : _ -> Prop) :
  node_core r bl -> zlen pack = node_n r ->
  (forall sg, zlen sg = node_max r ->
     (forall k, 0 <= k < node_n r -> sg.[k] = (node_global r).[(valid_nodes r).[k]]) ->
     Q (sg, valid_nodes r, node_n r)) ->
  wp (each_ref_node_valid_node r (fun node '(sorted_global, pack, nnode) =>
      let* g := aget (node_global r) node in
      let* sorted_global := aset sorted_global nnode g in
      let* pack := aset pack nnode node in
      Some (sorted_global, pack, nnode + 1)) (node_sorted_global r, pack, 0)) Q.
Proof.
  intros Hc Hlp HQ. pose proof (nc_max _ _ Hc) as Hm. pose proof (nc_n _ _ Hc) as Hnv.
  pose proof (nc_n_range _ _ Hc) as Hn. pose proof (nc_global _ _ Hc) as Hlg.
  apply (wp_each_valid_node r (fun pre '(sg, pk, nnode) =>
    nnode = zlen pre /\ zlen sg = node_max r /\ zlen pk = node_n r /\
    (forall k, 0 <= k < zlen pre -> sg.[k] = (node_global r).[(valid_nodes r).[k]]) /\
    (forall k, 0 <= k < zlen pre -> pk.[k] = (valid_nodes r).[k]))); [lia|lia| | |].
  - split; [done|]. split; [apply (nc_sorted_global _ _ Hc)|]. split; [done|].
    split; intros k Hk; unfold zlen in Hk; cbn in Hk; lia.
  - intros pre x post [[sg pk] nnode] Hv (-> & Hsg & Hpk & Hg & Hp).
    pose proof (zlen_valid_prefix _ _ _ _ Hv) as Hlt. pose proof (zlen_nonneg pre) as Hpre.
    assert (x ∈ valid_nodes r) as [Hx _]%elem_of_valid_nodes by (rewrite Hv; set_solver).
    apply wp_bind, wp_aget; [lia|]. apply wp_bind, wp_aset; [lia|].
    apply wp_bind, wp_aset; [lia|]. apply wp_ret. rewrite !zlen_upd, zlen_app, zlen_cons, zlen_nil.
    pose proof (aat_valid_prefix _ _ _ _ Hv) as Hat.
    split; [lia|]. split; [done|]. split; [done|]. split; intros k Hk; rewrite aat_upd by lia;
      destruct (Z.eqb_spec (zlen pre) k) as [<-|]; rewrite ?Hat; try done; [apply Hg|apply Hp]; lia.
  - intros [[sg pk] nnode] (-> & Hsg & Hpk & Hg & Hp). rewrite <- Hnv in Hg, Hp |- *.
    rewrite (arr_ext pk (valid_nodes r)); [by apply HQ|lia|]. intros k Hk. apply Hp. lia.
Qed.

Lemma ref_node_rebuild_sorted_global_ok r bl :
  node_core r bl -> 2 * node_n r <= REF_INT_MAX ->
  wp (ref_node_rebuild_sorted_global r) (fun '(st, r') =>
    st = REF_SUCCESS /\ node_wf r' /\
    exists sg sl, r' = set_node_sorted_local sl (set_node_sorted_global sg r)).
Proof.
  intros Hc Hmax. pose proof (nc_max _ _ Hc) as Hm. pose proof (nc_n _ _ Hc) as Hnv.
  pose proof (nc_n_range _ _ Hc) as Hn. pose proof (nc_global _ _ Hc) as Hlg.
  pose proof (nc_sorted_local _ _ Hc) as Hlsl.
  unfold ref_node_rebuild_sorted_global, ref_malloc.
  destruct (Z.ltb_spec (node_n r) 0); [lia|]. cbn [RSS].
  apply wp_bind, (rebuild_pack_ok r bl); [done|by apply zlen_alloc|]. intros sg Hsg Hg.
  apply wp_bind. eapply wp_mono; [apply ref_sort_heap_ok; cbn; lia || apply _|].
  cbn [node_n node_sorted_global node_sorted_local set_node_sorted_global set_node_sorted_local
    node_global].
  intros [st si] (-> & Hlsi & Hperm & Hord & _). cbn [RSS].
  pose proof (perm_range si (node_n r) ltac:(lia) Hperm) as Hr.
  apply wp_bind.
  apply (wp_for_up (fun i '(sg', sl') => zlen sg' = node_max r /\ zlen sl' = node_max r /\
    (forall k, 0 <= k < node_n r -> sl'.[k] = if k <? i then (valid_nodes r).[si.[k]] else si.[k]) /\
    (forall k, 0 <= k < i -> sg'.[k] = (node_global r).[sl'.[k]]))); [lia| | |].
  - split; [done|]. split; [lia|]. split; [|lia].
    intros k Hk. by destruct (Z.ltb_spec k 0); [lia|].
  - intros i [sg' sl'] Hi (Hl1 & Hl2 & Hsl' & Hsg').
    apply wp_bind, wp_aget; [lia|]. rewrite Hsl' by lia. destruct (Z.ltb_spec i i); [lia|].
    apply wp_bind, wp_aget; [rewrite <- Hnv; by apply Hr|].
    apply wp_bind, wp_aset; [lia|]. apply wp_bind, wp_aget; [rewrite zlen_upd; lia|].
    rewrite aat_upd_eq by lia.
    pose proof (valid_aat r bl si.[i] Hc (Hr i Hi)) as [Hv _]%elem_of_valid_nodes.
    apply wp_bind, wp_aget; [lia|]. apply wp_bind, wp_aset; [lia|]. apply wp_ret.
    rewrite !zlen_upd. split; [done|]. split; [done|]. split.
    + intros k Hk. rewrite aat_upd by lia. destruct (Z.eqb_spec i k) as [<-|].
      * by destruct (Z.ltb_spec i (i + 1)); [|lia].
      * rewrite Hsl' by lia. destruct (Z.ltb_spec k i), (Z.ltb_spec k (i + 1)); try lia; done.
    + intros k Hk. rewrite !aat_upd by lia. destruct (Z.eqb_spec i k) as [<-|]; [done|].
      apply Hsg'. lia.
  - intros [sg' sl'] (Hl1 & Hl2 & Hsl' & Hsg'). apply wp_ret. split; [done|].
    split; [|by eexists sg', sl'].
    assert (Hsl2 : forall k, 0 <= k < node_n r -> sl'.[k] = (valid_nodes r).[si.[k]]).
    { intros k Hk. rewrite Hsl' by done. by destruct (Z.ltb_spec k (node_n r)); [|lia]. }
    apply (node_wf_of_order r bl sg' sl' si); try done; [lia|].
    intros k m Hk Hlt. rewrite !Hsg', !Hsl2 by lia.
    rewrite <- !Hg by (apply Hr; lia). specialize (Hord k m Hk Hlt). lia.
Qed.
End rebuild.

(** ** Adding many nodes *)

Section add_many.
Context {D : Type} `{Dbl D, Junk D, Junk Z}.
Implicit Types (r : REF_NODE D).

Lemma collect_unknown_ok r n orig global0 (Q : _ -> Prop) :
  node_wf r -> 2 * node_n r <= REF_INT_MAX -> 0 <= n <= zlen orig -> zlen global0 = n ->
  (forall global nadd, zlen global = n -> 0 <= nadd <= n ->
     ztake nadd global = filter (fun g => node_map r !! g = None) (ztake n orig) ->
     Q (global, nadd)) ->
  wp (collect_unknown r n orig global0) Q.
Proof.
  intros Hwf Hmax Hn Hl HQ. unfold collect_unknown.
  apply (wp_for_up (fun i '(global, nadd) => zlen global = n /\ 0 <= nadd <= i /\
    ztake nadd global = filter (fun g => node_map r !! g = None) (ztake i orig))); [lia| | |].
  - split; [done|]. split; [lia|]. done.
  - intros i [global nadd] Hi (Hlg & Hna & Ht). apply wp_bind, wp_aget; [lia|].
    rewrite ref_node_local_ok by done. cbn [obind]. rewrite ztake_S, filter_app by lia.
    rewrite filter_cons, filter_nil, <- Ht.
    destruct (node_map r !! orig.[i]) eqn:Hm; cbn.
    + rewrite decide_False by done. apply wp_ret. rewrite app_nil_r. split; [done|]. split; [lia|done].
    + rewrite decide_True by done. apply wp_bind, wp_aset; [lia|]. apply wp_ret.
      rewrite zlen_upd, ztake_S_upd by lia. split; [done|]. split; [lia|done].
  - intros [global nadd] (Hlg & Hna & Ht). by apply HQ.
Qed.

(** In a sorted arrangement, the first place of each run of equal values. *)
Definition run_first (sorted global : list Z) (k : Z) : Prop :=
  k = 0 \/ global.[sorted.[k - 1]] <> global.[sorted.[k]].

#[local] Instance run_first_dec sorted global k : Decision (run_first sorted global k).
Proof. unfold run_first. apply _. Defined.

Lemma run_first_exists sorted global m :
  0 <= m -> exists k, 0 <= k <= m /\ run_first sorted global k /\
    global.[sorted.[k]] = global.[sorted.[m]].
Proof.
  intros Hm. pattern m. apply (Z.right_induction _ ltac:(solve_proper) 0); [| |done]; cbn.
  - exists 0. split; [lia|]. split; [by left|done].
  - intros k Hk (k' & Hk' & Hf & Heq). destruct (decide (run_first sorted global (Z.succ k))) as [Hf'|Hf'].
    + exists (Z.succ k). split; [lia|done].
    + exists k'. split; [lia|]. split; [done|]. rewrite Heq.
      destruct (decide (global.[sorted.[k]] = global.[sorted.[Z.succ k]])); [done|].
      exfalso. apply Hf'. right. by replace (Z.succ k - 1) with k by lia.
Qed.

(** The loop blanks exactly the places that are not the first of their run. *)
Lemma blank_duplicates_runs nadd sorted global (Q : _ -> Prop) :
  0 < nadd <= zlen global -> zlen sorted = nadd -> ztake nadd sorted ≡ₚ zrange nadd ->
  (forall global' j, zlen global' = zlen global ->
     (forall k, 0 <= k < nadd -> global'.[sorted.[k]] =
        if decide (run_first sorted global k) then global.[sorted.[k]] else REF_EMPTY) ->
     Q (global', j)) ->
  wp (blank_duplicates nadd sorted global) Q.
Proof.
  intros Hn Hls Hperm HQ. unfold blank_duplicates.
  pose proof (perm_range sorted nadd ltac:(lia) Hperm) as Hr.
  pose proof (perm_inj sorted nadd ltac:(lia) Hperm) as Hinj.
  set (first := run_first sorted global).
  apply (wp_for_up (fun i '(global', j) => zlen global' = zlen global /\ 0 <= j < i /\
    global.[sorted.[j]] = global.[sorted.[i - 1]] /\ global'.[sorted.[j]] = global.[sorted.[j]] /\
    (forall k, 0 <= k < nadd -> global'.[sorted.[k]] =
       if decide (i <= k \/ first k) then global.[sorted.[k]] else REF_EMPTY))); [lia| | |].
  - split; [done|]. split; [lia|]. split; [done|]. split; [done|]. intros k Hk.
    rewrite decide_True; [done|]. destruct (decide (k = 0)) as [->|]; [by right; left|left; lia].
  - intros i [global' j] Hi (Hl & Hj & Hji & Hjj & Hkeep).
    pose proof (Hr i ltac:(lia)) as Hri. pose proof (Hr j ltac:(lia)) as Hrj.
    apply wp_bind, wp_aget; [lia|]. apply wp_bind, wp_aget; [lia|].
    apply wp_bind, wp_aget; [lia|]. apply wp_bind, wp_aget; [lia|].
    rewrite Hjj, Hkeep, decide_True by (lia || (left; lia)). replace (i + 1 - 1) with i by lia.
    case Z.eqb_spec; intros Heq; cbn [negb].
    + apply wp_bind, wp_aset; [lia|]. apply wp_ret. rewrite zlen_upd.
      assert (Hnf : ~ first i) by (intros [?|Hne]; [lia|apply Hne; congruence]).
      split; [done|]. split; [lia|]. split; [done|]. split.
      * rewrite aat_upd_ne; [done|lia|lia|]. intros Hs. apply Hinj in Hs; lia.
      * intros k Hk. rewrite aat_upd by (lia || apply Hr; lia).
        destruct (Z.eqb_spec sorted.[i] sorted.[k]) as [Hs|Hs].
        -- apply Hinj in Hs as <-; [|lia..]. rewrite decide_False; [done|]. intros [?|?]; [lia|done].
        -- assert (k <> i) by (intros ->; done). rewrite Hkeep by done.
           apply decide_ext. split; (intros [?|?]; [left; lia|by right]).
    + apply wp_ret. assert (Hf : first i) by (right; congruence).
      split; [done|]. split; [lia|]. split; [done|].
      split; [by rewrite Hkeep, decide_True by (lia || (left; lia))|].
      intros k Hk. rewrite Hkeep by done. apply decide_ext.
      destruct (decide (k = i)) as [->|]; [split; by right|].
      split; (intros [?|?]; [left; lia|by right]).
  - intros [global' j] (Hl & _ & _ & _ & Hkeep). apply HQ; [done|]. intros k Hk.
    rewrite Hkeep by done. apply decide_ext. split; [intros [?|?]; [lia|done]|by right].
Qed.

(** After the duplicates are blanked every value is there once. *)
Lemma blank_duplicates_ok nadd sorted global (Q : _ -> Prop) :
  0 <= nadd <= zlen global -> zlen sorted = nadd -> ztake nadd sorted ≡ₚ zrange nadd ->
  (forall k m, 0 <= k <= m -> m < nadd -> global.[sorted.[k]] <= global.[sorted.[m]]) ->
  (forall k, 0 <= k < nadd -> 0 <= global.[k]) ->
  (forall global' j, zlen global' = zlen global ->
     (forall g, 0 <= g -> (exists k, 0 <= k < nadd /\ global'.[k] = g) <->
        g ∈ ztake nadd global) ->
     (forall k, 0 <= k < nadd -> global'.[k] = REF_EMPTY \/ 0 <= global'.[k]) ->
     (forall k m, 0 <= k < nadd -> 0 <= m < nadd -> global'.[k] = global'.[m] ->
        k = m \/ global'.[k] = REF_EMPTY) ->
     Q (global', j)) ->
  wp (blank_duplicates nadd sorted global) Q.
Proof.
  intros Hn Hls Hperm Hord Hpos HQ.
  destruct (decide (nadd <= 0)) as [Hz|Hz].
  { unfold blank_duplicates, for_up. rewrite Z2Nat.nonpos by lia. apply wp_ret.
    apply HQ; [done| |lia|lia]. intros g _. assert (nadd = 0) as -> by lia.
    split; [intros (? & ? & _); lia|]. intros []%elem_of_nil. }
  apply blank_duplicates_runs; [lia|done|done|]. intros global' j Hl Hg'.
  pose proof (perm_range sorted nadd ltac:(lia) Hperm) as Hr.
  pose proof (perm_surj sorted nadd ltac:(lia) Hperm) as Hsurj.
  apply HQ; [done| | |].
  - intros g Hg. rewrite elem_of_ztake by lia. split.
    + intros (k & Hk & <-). destruct (Hsurj k Hk) as (m & Hm & <-).
      rewrite Hg' in Hg |- * by done. case_decide; [eauto|unfold REF_EMPTY in *; lia].
    + intros (k & Hk & <-). destruct (Hsurj k Hk) as (m & Hm & <-).
      destruct (run_first_exists sorted global m ltac:(lia)) as (m' & Hm1 & Hf1 & <-).
      exists sorted.[m']. split; [apply Hr; lia|]. rewrite Hg' by lia. by rewrite decide_True.
  - intros k Hk. destruct (Hsurj k Hk) as (m & Hm & <-). rewrite Hg' by done.
    case_decide; [right; by apply Hpos|by left].
  - intros k m Hk Hm. destruct (Hsurj k Hk) as (k' & Hk' & <-), (Hsurj m Hm) as (m' & Hm' & <-).
    rewrite !Hg' by done. destruct (decide (run_first sorted global k')) as [Hfk|]; [|by right].
    destruct (decide (run_first sorted global m')) as [Hfm|]; [|intros ->; by right].
    intros Heq. left. f_equal.
    assert (Hlt : forall a b, 0 <= a < b -> b < nadd -> run_first sorted global b ->
      global.[sorted.[a]] <> global.[sorted.[b]]).
    { intros a b Ha Hb [?|Hne] He; [lia|].
      pose proof (Hord a (b - 1) ltac:(lia) ltac:(lia)). pose proof (Hord (b - 1) b ltac:(lia) ltac:(lia)). lia. }
    destruct (Z.lt_trichotomy k' m') as [?|[?|?]]; [|done|]; exfalso.
    + apply (Hlt k' m'); [lia|lia|done|done].
    + apply (Hlt m' k'); [lia|lia|done|done].
Qed.

(** The nodes made so far: those of [r] and those of the first [i] elements
    of [global]. *)
Record added_up_to r (global : list Z) (i p : Z) r' : Prop := {
  au_core : exists bl, node_core r' bl;
  au_size : node_size p r';
  au_old : node_map r ⊆ node_map r';
  au_dom : forall g, is_Some (node_map r' !! g) <->
    is_Some (node_map r !! g) \/ exists k, 0 <= k < i /\ global.[k] = g /\ g <> REF_EMPTY;
  au_unused : node_unused r' = node_unused r;
  au_new : node_new_n_global r' = node_new_n_global r
}.

Lemma add_each_ok `{!LogIdentity D} r nadd global p (Q : _ -> Prop) :
  (exists bl, node_core r bl) -> node_size p r -> p + nadd <= node_budget ->
  0 <= nadd <= zlen global ->
  (forall k, 0 <= k < nadd -> global.[k] = REF_EMPTY \/ 0 <= global.[k]) ->
  (forall k, 0 <= k < nadd -> node_map r !! global.[k] = None) ->
  (forall k m, 0 <= k < nadd -> 0 <= m < nadd -> global.[k] = global.[m] ->
     k = m \/ global.[k] = REF_EMPTY) ->
  (forall r', added_up_to r global nadd (p + nadd) r' -> Q (Next r')) ->
  wp (add_each r nadd global) Q.
Proof.
  intros Hcore Hsz Hb Hn Hpos Hnew Hdist HQ. unfold add_each.
  apply (wp_forx_up (fun i r' => added_up_to r global i (p + i) r') (fun _ => False)); [lia| | |done|done].
  - constructor; try done; [by rewrite Z.add_0_r|]. intros g. split; [by left|].
    intros [?|(k & Hk & _)]; [done|lia].
  - intros i r1 Hi [[bl Hc] Hsz1 Hold Hdom Hun1 Hnew1]. apply wp_bind, wp_aget; [lia|].
    destruct (Z.eqb_spec REF_EMPTY global.[i]) as [He|He]; cbn [negb].
    + apply wp_ret. constructor; try done; [by exists bl|apply (node_size_mono r1 (p + i)); [lia|done]|].
      intros g. rewrite Hdom. split; (intros [?|(k & Hk & Hg & Hne)]; [by left|right]).
      * exists k. split; [lia|done].
      * exists k. split; [|done]. assert (k <> i) by (intros ->; congruence). lia.
    + destruct (Hpos i Hi) as [|Hp]; [done|]. pose proof (nc_max _ _ Hc) as Hm1.
      destruct (node_size_room r1 (p + i) ltac:(lia) Hsz1 ltac:(lia)) as [Hroom _].
      assert (Hn1 : node_map r1 !! global.[i] = None).
      { apply eq_None_not_Some. rewrite Hdom. intros [[x Hx]|(k & Hk & Hg & _)].
        - by rewrite Hnew in Hx.
        - destruct (Hdist k i ltac:(lia) ltac:(lia) Hg) as [->|?]; [lia|congruence]. }
      apply wp_bind. eapply wp_mono; [apply (ref_node_add_core_ok r1 bl); [done|done|done|]|].
      { by apply (node_map_None r1 bl). }
      intros [st [node r2]] (-> & Ha & _). apply wp_ret. cbn.
      pose proof (node_added_map r1 bl _ node r2 Hc Ha) as Hmap.
      constructor.
      * apply (na_core _ _ _ _ Ha).
      * replace (p + (i + 1)) with (p + i + 1) by lia. apply (node_size_grow r1); [lia|done|apply (na_n _ _ _ _ Ha)|].
        apply (na_max _ _ _ _ Ha).
      * rewrite Hmap. etrans; [exact Hold|]. by apply insert_subseteq.
      * intros g. rewrite Hmap. destruct (decide (g = global.[i])) as [->|Hne].
        -- rewrite lookup_insert_eq. split; [|by eexists]. intros _. right. exists i. split; [lia|done].
        -- rewrite lookup_insert_ne, Hdom by done.
           split; (intros [?|(k & Hk & Hg & Hng)]; [by left|right]).
           ++ exists k. split; [lia|done].
           ++ exists k. split; [|done]. assert (k <> i) by (intros ->; congruence). lia.
      * unfold node_unused. by rewrite (na_n_unused _ _ _ _ Ha), (na_unused _ _ _ _ Ha).
      * by rewrite (na_new _ _ _ _ Ha).
Qed.

Lemma node_map_set_sorted r sg sl :
  node_map (set_node_sorted_local sl (set_node_sorted_global sg r)) = node_map r.
Proof. done. Qed.

(** C6. [ref_node_add_many] gives a node to each of the global indices that
    has none, whatever their order and repetitions, keeps the nodes there are
    and leaves the sorted arrays consistent. *)
Theorem ref_node_add_many_adds `{!LogIdentity D} r n orig p :
  node_wf r -> node_size p r -> p + n <= node_budget -> 0 <= n <= zlen orig ->
  (forall i, 0 <= i < n -> 0 <= orig.[i]) ->
  exists r', ref_node_add_many r n orig = Some (REF_SUCCESS, r') /\
    node_wf r' /\ node_map r ⊆ node_map r' /\
    dom (node_map r') = dom (node_map r) ∪ list_to_set (ztake n orig) /\
    node_unused r' = node_unused r /\ node_size (p + n) r'.
Proof.
  intros Hwf Hsz Hb Hn Hpos. pose proof (node_wf_range r Hwf) as (Hnn & _).
  destruct (node_size_room r p ltac:(lia) Hsz ltac:(lia)) as [Hroom Hn2].
  pose proof Hsz as (Hp0 & _).
  assert (Hwp : wp (ref_node_add_many r n orig) (fun '(st, r') => st = REF_SUCCESS /\
    node_wf r' /\ node_map r ⊆ node_map r' /\
    dom (node_map r') = dom (node_map r) ∪ list_to_set (ztake n orig) /\
    node_unused r' = node_unused r /\ node_size (p + n) r')).
  2: { destruct Hwp as ([st r'] & -> & -> & Hrest). by exists r'. }
  unfold ref_node_add_many, ref_malloc. destruct (Z.ltb_spec n 0); [lia|]. cbn [RSS].
  apply wp_bind, collect_unknown_ok; [done|done|lia|by apply zlen_alloc|].
  intros global nadd Hlg Hna Ht. destruct (Z.ltb_spec nadd 0); [lia|]. cbn [RSS].
  assert (Hg : forall k, 0 <= k < nadd -> node_map r !! global.[k] = None /\ global.[k] ∈ ztake n orig).
  { intros k Hk. apply (list_elem_of_filter (fun g => node_map r !! g = None)). rewrite <- Ht.
    apply elem_of_ztake; [lia|]. eauto. }
  assert (Hg0 : forall k, 0 <= k < nadd -> 0 <= global.[k]).
  { intros k Hk. destruct (Hg k Hk) as [_ (i & Hi & <-)%elem_of_ztake]; [|lia]. by apply Hpos. }
  apply wp_bind. eapply wp_mono; [apply ref_sort_heap_ok; [apply _|lia|unfold node_budget, REF_INT_MAX in *; lia|lia|rewrite zlen_alloc by lia; lia]|].
  intros [st sorted] (-> & Hls & Hperm & Hord & _). cbn [RSS]. rewrite zlen_alloc in Hls by lia.
  apply wp_bind, blank_duplicates_ok; [lia|lia|done| |done|].
  { intros k m Hk Hm. specialize (Hord k m Hk Hm). lia. }
  intros global' j Hlg' Hset Hpos' Hdist.
  apply wp_bind, (add_each_ok r nadd global' p); [apply Hwf|done|lia|lia|done| |done|].
  { intros k Hk. destruct (Hpos' k Hk) as [->|Hp].
    - pose proof Hwf as [[bl Hc] _]. apply (node_map_None r bl); [done|].
      intros i [_ Hi]%elem_of_valid_nodes. unfold REF_EMPTY. lia.
    - assert (global'.[k] ∈ ztake nadd global) as Hin by (apply Hset; [done|]; eauto).
      rewrite Ht in Hin. by apply list_elem_of_filter in Hin as [? _]. }
  intros r1 [[bl Hc] Hsz1 Hold Hdom Hun _].
  destruct (node_size_room r1 (p + nadd)) as [_ Hn1]; [pose proof (nc_max _ _ Hc); lia|done|lia|].
  apply wp_bind. eapply wp_mono; [by apply (ref_node_rebuild_sorted_global_ok r1 bl)|].
  intros [st r2] (-> & Hwf2 & (sg & sl & ->)). cbn [RSS]. apply wp_ret.
  split; [done|]. split; [done|]. rewrite node_map_set_sorted. split; [done|].
  split; [|split; [done|by apply (node_size_mono _ (p + nadd)); [lia|]]].
  apply set_eq. intros g. rewrite elem_of_dom, Hdom, elem_of_union, elem_of_dom, elem_of_list_to_set.
  split.
  - intros [?|(k & Hk & Hgk & Hne)]; [by left|right].
    destruct (Hpos' k Hk) as [|Hp]; [congruence|].
    assert (g ∈ ztake nadd global) as Hin by (apply Hset; [lia|]; eauto).
    rewrite Ht in Hin. by apply list_elem_of_filter in Hin as [_ ?].
  - intros [?|Hin]; [by left|]. destruct (node_map r !! g) eqn:Hm; [left; by eexists|right].
    assert (Hp : 0 <= g) by (apply elem_of_ztake in Hin as (i & Hi & <-); [by apply Hpos|lia]).
    assert (g ∈ ztake nadd global) as Hin'.
    { rewrite Ht. by apply list_elem_of_filter. }
    apply Hset in Hin' as (k & Hk & Hgk); [|done]. exists k. split; [done|]. split; [done|].
    unfold REF_EMPTY. lia.
Qed.
End add_many.

(** ** Removals that leave the sorted arrays for later *)

Section invalidates.
Context {D : Type} `{Dbl D, Junk D, Junk Z}.
Implicit Types (r : REF_NODE D).

(** Invariant of a sequence of removals: [node_sim] without the sorted
    arrays; [k] more calls fit. *)
Definition node_unsorted (k : Z) r : Prop :=
  (exists bl, node_core r bl) /\
  node_max_unused r + 1000 * k <= REF_INT_MAX /\ 2 * node_n r <= REF_INT_MAX.

Lemma ref_node_remove_invalidates_sorted_ok r i k :
  0 <= k -> node_unsorted (k + 1) r ->
  wp (ref_node_remove_invalidates_sorted r i) (fun '(st, r') =>
    node_unsorted k r' /\ node_step (NodeRemove i) (node_abs r) (st, REF_EMPTY) (node_abs r')).
Proof.
  intros Hk ([bl Hc] & Hmu & Hn2). unfold ref_node_remove_invalidates_sorted.
  pose proof (nc_global _ _ Hc) as Hlg. pose proof (nc_unused _ _ Hc) as Hu.
  rewrite ref_node_valid_eq by done. cbn [obind]. case_bool_decide as Hv; cbn [negb].
  - pose proof Hv as [Hr _]%elem_of_valid_nodes. apply wp_bind, wp_aget; [lia|].
    apply wp_bind. eapply wp_mono; [apply (ref_node_push_unused_ok r bl); [done|lia]|].
    intros [st r1] (-> & Hun & Hmu1 & Hnu1 & Hc1 & (u & n & m & ->)). cbn [RSS].
    apply wp_bind. eapply wp_mono; [by apply (free_local_ok _ bl i Hc1)|].
    intros r2 (Hf & Hnu & Hmu2 & Hun2). apply wp_ret. split.
    + split; [apply (fr_core _ _ _ Hf)|]. rewrite Hmu2, (fr_n _ _ _ Hf). cbn in *. lia.
    + assert (Hmap : node_map r2 = delete (node_global r).[i] (node_map r))
        by exact (node_freed_map _ bl i r2 Hc1 Hf Hv).
      assert (Hun' : node_unused r2 = node_unused r ++ [(node_global r).[i]])
        by (unfold node_unused in *; by rewrite Hnu, Hun2).
      unfold node_abs at 2. rewrite Hmap, Hun', (fr_new _ _ _ Hf).
      apply (step_remove _ (node_abs r)). by eapply valid_node_global.
  - apply wp_ret. split; [by split; [exists bl|lia]|].
    apply step_remove_absent. by eapply invalid_node_map.
Qed.

Lemma node_remove_deterministic r i o1 a1 o2 a2 :
  (exists bl, node_core r bl) ->
  node_step (NodeRemove i) (node_abs r) o1 a1 -> node_step (NodeRemove i) (node_abs r) o2 a2 ->
  o1 = o2 /\ a1 = a2.
Proof.
  intros [bl Hc] H1' H2'. inversion H1' as [| | |g ? ? Hg| ? ? Hg| | | | | |];
    inversion H2' as [| | |h ? ? Hh| ? ? Hh| | | | | |]; subst; cbn in *; try done;
    try (by exfalso; eapply Hg); try (by exfalso; eapply Hh).
  apply (node_map_lookup r bl) in Hg as [_ <-], Hh as [_ <-]; done.
Qed.

Definition remove_exec i r : option (REF_STATUS * REF_NODE D) := ref_node_remove r i.
Definition remove_invalidates_exec i r : option (REF_STATUS * REF_NODE D) :=
  ref_node_remove_invalidates_sorted r i.

(** C8. Removing nodes with [ref_node_remove_invalidates_sorted] and then
    rebuilding the sorted arrays once is the same as removing them with
    [ref_node_remove]: the same results, nodes and unused global indices. *)
Theorem ref_node_remove_invalidates_equiv r nodes :
  node_wf r -> 2 * node_n r <= REF_INT_MAX ->
  node_max_unused r + 1000 * zlen nodes <= REF_INT_MAX ->
  exists os r1 r2 r3,
    run remove_exec nodes r = Some (os, r1) /\
    run remove_invalidates_exec nodes r = Some (os, r2) /\
    ref_node_rebuild_sorted_global r2 = Some (REF_SUCCESS, r3) /\
    node_wf r1 /\ node_wf r3 /\ node_abs r3 = node_abs r1.
Proof.
  intros Hwf Hn2 Hmu.
  assert (Hgen : forall q, node_wf r -> node_unsorted (zlen nodes) q -> node_abs q = node_abs r ->
    2 * node_n r <= REF_INT_MAX -> node_max_unused r + 1000 * zlen nodes <= REF_INT_MAX ->
    exists os r1 r2, run remove_exec nodes r = Some (os, r1) /\
      run remove_invalidates_exec nodes q = Some (os, r2) /\ node_wf r1 /\
      node_unsorted 0 r2 /\ node_abs r2 = node_abs r1).
  { clear. induction nodes as [|i nodes IH] in r |- *; intros q Hwf Hq Habs Hn Hmu.
    { exists [], r, q. done. }
    rewrite zlen_cons in Hq, Hmu. pose proof (zlen_nonneg nodes). cbn [run].
    destruct (ref_node_remove_ok r i Hwf Hn ltac:(lia)) as ([st r1] & Hr1 & Hwf1 & Hpost).
    destruct (ref_node_remove_invalidates_sorted_ok q i (zlen nodes) ltac:(lia) Hq)
      as ([st' q1] & Hq1 & Hq' & Hstep).
    unfold remove_exec at 1, remove_invalidates_exec at 1. rewrite Hr1, Hq1. cbn [obind].
    assert (Hstep1 : node_step (NodeRemove i) (node_abs r) (st, REF_EMPTY) (node_abs r1) /\
      2 * node_n r1 <= REF_INT_MAX /\ node_max_unused r1 + 1000 * zlen nodes <= REF_INT_MAX).
    { pose proof Hwf as [[bl Hc] _]. pose proof (nc_unused _ _ Hc). case_bool_decide as Hv.
      - destruct Hpost as (-> & Hm & Hu & ? & ? & Hnew & ? & ?). split; [|lia].
        unfold node_abs at 2. rewrite Hm, Hu, Hnew. apply (step_remove _ (node_abs r)).
        by eapply valid_node_global.
      - destruct Hpost as [-> ->]. split; [|lia]. apply step_remove_absent.
        by eapply invalid_node_map. }
    destruct Hstep1 as (Hstep1 & Hn1 & Hmu1). rewrite Habs in Hstep.
    destruct (node_remove_deterministic r i _ _ _ _ (proj1 Hwf) Hstep Hstep1) as [[= ->] Habs'].
    destruct (IH r1 q1 Hwf1 Hq' Habs' Hn1 Hmu1) as (os & r2 & q2 & -> & -> & ?). cbn [obind].
    by exists (st :: os), r2, q2. }
  pose proof Hwf as [[bl Hc] _]. pose proof (nc_unused _ _ Hc).
  destruct (Hgen r Hwf) as (os & r1 & r2 & Hr1 & Hr2 & Hwf1 & ([bl2 Hc2] & _ & Hn2') & Habs);
    [split; [by exists bl|lia]|done|done|done|].
  destruct (ref_node_rebuild_sorted_global_ok r2 bl2 Hc2 Hn2') as ([st r3] & Hr3 & -> & Hwf3 & (sg & sl & ->)).
  exists os, r1, r2. eexists. split; [done|]. split; [done|]. split; [exact Hr3|].
  split; [done|]. split; [done|]. done.
Qed.
End invalidates.

(** ** Closing the gaps of the global numbering *)

(** How many elements of [l] are below [g]. *)
Definition count_below (g : Z) (l : list Z) : Z := zlen (filter (fun u => u < g) l).

Section offset.
Implicit Types (a sg su : list Z).

Lemma count_below_at g a n o :
  0 <= o <= n -> n <= zlen a -> (forall k, 0 <= k < o -> a.[k] < g) ->
  (forall k, o <= k < n -> g <= a.[k]) -> count_below g (ztake n a) = o.
Proof.
  intros Ho Hn Hlt Hge. unfold count_below.
  assert (ztake n a = ztake o a ++ drop (Z.to_nat o) (ztake n a)) as ->.
  { unfold ztake. rewrite <- (take_drop (Z.to_nat o) (take (Z.to_nat n) a)) at 1.
    by rewrite take_take, Nat.min_l by lia. }
  rewrite filter_app, (filter_all _ (ztake o a)), filter_none.
  - rewrite app_nil_r. apply zlen_ztake. lia.
  - apply Forall_forall. intros x Hx. apply elem_of_aat in Hx as (k & Hk & <-).
    assert (zlen (drop (Z.to_nat o) (ztake n a)) = n - o) as Hd.
    { assert (Hz : zlen (ztake n a) = n) by (apply zlen_ztake; lia).
      unfold zlen in *. rewrite length_drop. lia. }
    rewrite aat_drop, aat_ztake by lia. specialize (Hge (o + k) ltac:(lia)). lia.
  - apply Forall_forall. intros x (k & Hk & <-)%elem_of_ztake; [|lia]. by apply Hlt.
Qed.

(** The inner loop moves [offset] to the first unused index that is not
    below [g]. *)
Lemma offset_loop_ok g nunused su offset (Q : Z -> Prop) :
  0 <= offset <= nunused -> nunused <= zlen su -> nunused <= REF_INT_MAX ->
  ascending nunused su -> (forall k, 0 <= k < offset -> su.[k] < g) ->
  (forall o, offset <= o <= nunused -> (forall k, 0 <= k < o -> su.[k] < g) ->
     count_below g (ztake nunused su) = o -> Q o) ->
  wp (loop (S (Z.to_nat nunused)) (fun offset =>
        if offset <? nunused then
          let* u := aget su offset in
          if u <? g then
            let* offset := ck_int (offset + 1) in
            Some (Next offset)
          else Some (Exit offset)
        else Some (Exit offset)) offset) Q.
Proof.
  intros Ho Hn Hmax Hasc Hlt HQ.
  apply (wp_loop (fun o => offset <= o <= nunused /\ forall k, 0 <= k < o -> su.[k] < g)
    (fun o => nunused - o)); [split; [lia|done]|lia|lia|].
  intros o [Hor Hol]. case Z.ltb_spec; intros Hon.
  - apply wp_bind, wp_aget; [lia|]. case Z.ltb_spec; intros Hu.
    + apply wp_bind, wp_ck_int; [unfold REF_INT_MIN in *; lia|]. apply wp_ret. cbn.
      split; [split; [lia|]|lia]. intros k Hk. destruct (decide (k = o)) as [->|]; [done|]. apply Hol. lia.
    + apply wp_ret. cbn. apply HQ; [lia|done|]. apply count_below_at; [lia|lia|done|].
      intros k Hk. specialize (Hasc o k ltac:(lia) ltac:(lia)). lia.
  - apply wp_ret. cbn. apply HQ; [lia|done|]. apply count_below_at; [lia|lia|done|lia].
Qed.

(** [ref_node_eliminate_unused_offset] subtracts from each global index
    the number of unused indices below it. *)
Theorem ref_node_eliminate_unused_offset_subtracts nglobal sg nunused su :
  0 <= nglobal <= zlen sg -> 0 <= nunused <= zlen su -> nunused <= REF_INT_MAX ->
  ascending nglobal sg -> ascending nunused su ->
  (forall i, 0 <= i < nglobal -> 0 <= sg.[i] <= REF_LONG_MAX) ->
  exists sg', ref_node_eliminate_unused_offset nglobal sg nunused su = Some (REF_SUCCESS, sg') /\
    zlen sg' = zlen sg /\
    (forall i, 0 <= i < nglobal -> sg'.[i] = sg.[i] - count_below sg.[i] (ztake nunused su)) /\
    (forall i, nglobal <= i < zlen sg -> sg'.[i] = sg.[i]).
Proof.
  intros Hn Hu Hmax Hasc Hasu Hr.
  assert (Hwp : wp (ref_node_eliminate_unused_offset nglobal sg nunused su) (fun '(st, sg') =>
    st = REF_SUCCESS /\ zlen sg' = zlen sg /\
    (forall i, 0 <= i < nglobal -> sg'.[i] = sg.[i] - count_below sg.[i] (ztake nunused su)) /\
    (forall i, nglobal <= i < zlen sg -> sg'.[i] = sg.[i]))).
  2: { destruct Hwp as ([st sg'] & -> & -> & ?). by exists sg'. }
  unfold ref_node_eliminate_unused_offset. apply wp_bind.
  apply (wp_for_up (fun i '(sg', o) => zlen sg' = zlen sg /\ 0 <= o <= nunused /\
    (i < nglobal -> forall k, 0 <= k < o -> su.[k] < sg.[i]) /\
    (forall k, 0 <= k < i -> sg'.[k] = sg.[k] - count_below sg.[k] (ztake nunused su)) /\
    (forall k, i <= k < zlen sg -> sg'.[k] = sg.[k]))); [lia| | |].
  - split; [done|]. split; [lia|]. split; [lia|]. split; [lia|done].
  - intros i [sg' o] Hi (Hl & Ho & Hbelow & Hdone & Hrest). apply wp_bind, wp_aget; [lia|].
    rewrite Hrest by lia. apply wp_bind, offset_loop_ok; [lia|lia|done|done|by apply Hbelow; lia|].
    intros o' Ho' Hbelow' Hcount. specialize (Hr i Hi) as Hri.
    apply wp_bind, wp_ck_glob; [unfold REF_LONG_MIN, REF_LONG_MAX, REF_INT_MAX in *; lia|].
    apply wp_bind, wp_aset; [lia|]. apply wp_ret. rewrite zlen_upd.
    split; [done|]. split; [lia|]. split; [|split].
    + intros Hi' k Hk. specialize (Hbelow' k Hk). specialize (Hasc i (i + 1) ltac:(lia) ltac:(lia)). lia.
    + intros k Hk. rewrite aat_upd by lia. destruct (Z.eqb_spec i k) as [<-|]; [by rewrite Hcount|].
      apply Hdone. lia.
    + intros k Hk. rewrite aat_upd_ne by lia. apply Hrest. lia.
  - intros [sg' o] (Hl & Ho & _ & Hdone & Hrest). by apply wp_ret.
Qed.
End offset.

Lemma ref_node_eliminate_unused_offset_subtracts_witness :
  exists sg', ref_node_eliminate_unused_offset 4 [1; 2; 5; 6] 3 [0; 3; 4] = Some (REF_SUCCESS, sg') /\
    zlen sg' = 4 /\
    (forall i, 0 <= i < 4 -> sg'.[i] = [1; 2; 5; 6].[i] - count_below [1; 2; 5; 6].[i] (ztake 3 [0; 3; 4])) /\
    (forall i, 4 <= i < 4 -> sg'.[i] = [1; 2; 5; 6].[i]).
Proof.
  assert (Hc : forall k, 0 <= k < 4 -> k = 0 \/ k = 1 \/ k = 2 \/ k = 3) by lia.
  apply (ref_node_eliminate_unused_offset_subtracts 4 [1; 2; 5; 6] 3 [0; 3; 4]);
    [vm_compute; split; congruence|vm_compute; split; congruence|vm_compute; congruence| | |].
  - intros i j Hi Hj.
    destruct (Hc i ltac:(lia)) as [->|[->|[->| ->]]], (Hc j ltac:(lia)) as [->|[->|[->| ->]]];
      vm_compute; try congruence; lia.
  - intros i j Hi Hj.
    destruct (Hc i ltac:(lia)) as [->|[->|[->| ->]]], (Hc j ltac:(lia)) as [->|[->|[->| ->]]];
      vm_compute; try congruence; lia.
  - intros i Hi. destruct (Hc i Hi) as [->|[->|[->| ->]]]; vm_compute; split; congruence.
Defined.

(** ** Compaction: a numbering without gaps *)

Section compact.
Context {D : Type} `{Dbl D, Junk D, Junk Z}.
Implicit Types (r : REF_NODE D) (o2n n2o l : list Z).

(** [o2n] numbers the elements of [l] from [n0] on. *)
Definition numbers o2n (n0 : Z) l : Prop := forall k, 0 <= k < zlen l -> o2n.[l.[k]] = n0 + k.

Lemma malloc_empty_ok n :
  0 <= n -> wp (malloc_empty n) (fun '(st, a) => st = REF_SUCCESS /\ zlen a = n /\
    forall i, 0 <= i < n -> a.[i] = REF_EMPTY).
Proof.
  intros Hn. unfold malloc_empty, ref_malloc. destruct (Z.ltb_spec n 0); [lia|]. cbn [RSS].
  apply wp_bind, (wp_fill (fun _ => REF_EMPTY)); [lia|rewrite zlen_alloc; lia| |].
  - intros i d Hi Hd _. apply wp_aset; [rewrite Hd, zlen_alloc; lia|done].
  - intros a Ha Hg. rewrite zlen_alloc in Ha, Hg by lia. apply wp_ret. split; [done|]. split; [done|].
    intros i Hi. rewrite Hg by done. by destruct (Z.leb_spec 0 i), (Z.ltb_spec i n); try lia.
Qed.

Lemma number_nodes_ok r bl (keep : Z -> option bool) (P : Z -> Prop) `{!forall i, Decision (P i)}
    o2n0 n0 :
  node_core r bl -> zlen o2n0 = node_max r ->
  (forall i, i ∈ valid_nodes r -> keep i = Some (bool_decide (P i))) ->
  wp (number_nodes r keep (o2n0, n0)) (fun '(o2n, nnode) =>
    zlen o2n = node_max r /\ nnode = n0 + zlen (filter P (valid_nodes r)) /\
    numbers o2n n0 (filter P (valid_nodes r)) /\
    (forall i, 0 <= i -> i ∉ filter P (valid_nodes r) -> o2n.[i] = o2n0.[i])).
Proof.
  intros Hc Hl Hkeep. pose proof (nc_max _ _ Hc) as Hm. pose proof (nc_global _ _ Hc) as Hlg.
  unfold number_nodes.
  apply (wp_each_valid_node r (fun pre '(o2n, nnode) => zlen o2n = node_max r /\
    nnode = n0 + zlen (filter P pre) /\ numbers o2n n0 (filter P pre) /\
    (forall i, 0 <= i -> i ∉ filter P pre -> o2n.[i] = o2n0.[i]))); [done|lia| | |done].
  - split; [done|]. rewrite filter_nil. split; [unfold zlen; cbn; lia|]. split; [|done].
    intros k Hk. unfold zlen in Hk. cbn in Hk. lia.
  - intros pre x post [o2n nnode] Hv (Hlo & -> & Hnum & Hrest).
    assert (Hx : x ∈ valid_nodes r) by (rewrite Hv; set_solver).
    rewrite Hkeep by done. cbn [obind]. rewrite filter_app, filter_cons, filter_nil.
    pose proof Hx as [Hxr _]%elem_of_valid_nodes. case_bool_decide as HP; cbn.
    + rewrite decide_True by done. apply wp_bind, wp_aset; [lia|]. apply wp_ret.
      assert (Hxp : x ∉ filter P pre).
      { intros [_ Hin]%list_elem_of_filter. pose proof (NoDup_valid_nodes r) as Hnd. rewrite Hv in Hnd.
        apply NoDup_app in Hnd as (_ & Hnd & _). apply (Hnd x Hin). set_solver. }
      rewrite zlen_upd, zlen_app, zlen_cons, zlen_nil. split; [done|]. split; [lia|]. split.
      * intros k Hk. rewrite zlen_app, zlen_cons in Hk; change (zlen (@nil Z)) with 0 in Hk.
        destruct (decide (k = zlen (filter P pre))) as [->|].
        -- rewrite aat_app_r, Z.sub_diag, aat_cons_0 by lia. apply aat_upd_eq. lia.
        -- assert ((filter P pre).[k] ∈ filter P pre) as Hin
             by (apply elem_of_aat; exists k; split; [lia|done]).
           rewrite aat_app_l by lia. rewrite aat_upd_ne; [apply Hnum; lia|lia| |].
           ++ apply list_elem_of_filter in Hin as [_ Hin].
              assert ((filter P pre).[k] ∈ valid_nodes r) as [? _]%elem_of_valid_nodes; [|lia].
              rewrite Hv. set_solver.
           ++ intros Heq. apply Hxp. by rewrite Heq.
      * intros i Hi Hin. rewrite aat_upd_ne; [apply Hrest; [done|]; set_solver|lia|done|].
        intros ->. apply Hin. set_solver.
    + rewrite decide_False by done. apply wp_ret. rewrite app_nil_r. done.
Qed.

(** [o2n] numbers the nodes in use in the order [l]: [n2o] is [l]. *)
Lemma invert_numbering_ok r bl o2n l n2o0 :
  node_core r bl -> zlen o2n = node_max r -> zlen n2o0 = node_n r ->
  l ≡ₚ valid_nodes r -> numbers o2n 0 l ->
  invert_numbering r o2n (zlen l) n2o0 = Some (REF_SUCCESS, (o2n, l)).
Proof.
  intros Hc Hlo Hln Hp Hnum. pose proof (nc_max _ _ Hc) as Hm. pose proof (nc_global _ _ Hc) as Hlg.
  assert (Hll : zlen l = node_n r) by (rewrite (nc_n _ _ Hc); unfold zlen; by rewrite Hp).
  unfold invert_numbering. rewrite Hll, Z.eqb_refl. cbn [RAS]. apply wp_eq, wp_bind.
  apply (wp_each_valid_node r (fun pre n2o => zlen n2o = node_n r /\
    forall k, 0 <= k < node_n r -> l.[k] ∈ pre -> n2o.[k] = l.[k])); [done|lia| | |].
  - split; [done|]. intros k _ []%elem_of_nil.
  - intros pre x post n2o Hv [Hl Hg].
    assert (Hx : x ∈ valid_nodes r) by (rewrite Hv; set_solver).
    pose proof Hx as [Hxr _]%elem_of_valid_nodes. rewrite <- Hp in Hx.
    apply elem_of_aat in Hx as (m & Hm' & <-). apply wp_bind, wp_aget; [lia|].
    rewrite Hnum by done. rewrite Z.add_0_l. apply wp_aset; [lia|]. rewrite zlen_upd. split; [done|].
    intros k Hk Hin. rewrite aat_upd by lia. destruct (Z.eqb_spec m k) as [<-|Hne]; [done|].
    apply Hg; [done|]. apply elem_of_app in Hin as [?|Hin]; [done|]. exfalso. apply Hne.
    apply list_elem_of_singleton in Hin. pose proof (Hnum k ltac:(lia)) as H1'.
    rewrite Hin, Hnum in H1' by done. lia.
  - intros n2o [Hl Hg]. apply wp_ret. do 2 f_equal. apply arr_ext; [lia|]. intros k Hk.
    apply Hg; [lia|]. rewrite <- Hp. apply elem_of_aat. exists k. split; [lia|done].
Qed.

(** The numbering of one compaction: the owned nodes first, then the others,
    each in increasing order of their indices. *)
Definition compact_order r : list Z :=
  filter (fun i => (node_part r).[i] = ref_mpi_rank (node_mpi r)) (valid_nodes r) ++
  filter (fun i => (node_part r).[i] <> ref_mpi_rank (node_mpi r)) (valid_nodes r).

Lemma filter_split {A} (P Q : A -> Prop) `{!forall x, Decision (P x), !forall x, Decision (Q x)}
    (l : list A) :
  (forall x, Q x <-> ~ P x) -> filter P l ++ filter Q l ≡ₚ l.
Proof.
  intros HQ. induction l as [|x l IH]; [done|]. rewrite !filter_cons.
  destruct (decide (P x)), (decide (Q x)); try (specialize (HQ x); tauto).
  - cbn. by rewrite IH.
  - by rewrite <- Permutation_middle, IH.
Qed.

(** [ref_node_compact] numbers the nodes in use without gaps, the owned
    ones before the ghosts: [o2n] and [n2o] are inverse to each other, and
    [o2n] is [REF_EMPTY] elsewhere. *)
Theorem ref_node_compact_numbers r :
  node_wf r ->
  exists o2n, ref_node_compact r = Some (REF_SUCCESS, (o2n, compact_order r)) /\
    zlen o2n = node_max r /\ compact_order r ≡ₚ valid_nodes r /\
    numbers o2n 0 (compact_order r) /\
    forall i, 0 <= i < node_max r -> i ∉ valid_nodes r -> o2n.[i] = REF_EMPTY.
Proof.
  intros [[bl Hc] _]. pose proof (nc_max _ _ Hc) as Hm. pose proof (nc_part _ _ Hc) as Hlp.
  pose proof (nc_n_range _ _ Hc) as Hn.
  set (own := fun i => (node_part r).[i] = ref_mpi_rank (node_mpi r)).
  set (ghost := fun i => (node_part r).[i] <> ref_mpi_rank (node_mpi r)).
  assert (Hp : compact_order r ≡ₚ valid_nodes r) by by apply filter_split.
  assert (Howned : forall i, i ∈ valid_nodes r -> ref_node_owned r i = Some (bool_decide (own i))).
  { intros i [Hi _]%elem_of_valid_nodes. unfold ref_node_owned. rewrite aget_aat by lia. cbn.
    f_equal. apply eq_bool_decide. rewrite Z.eqb_eq. split; congruence. }
  destruct (malloc_empty_ok (node_max r) ltac:(lia)) as ([st o0] & Ho0 & -> & Hl0 & He0).
  destruct (number_nodes_ok r bl (ref_node_owned r) own o0 0 Hc Hl0 Howned)
    as ([o1 n1] & Ho1 & Hl1 & -> & Hnum1 & Hr1).
  destruct (number_nodes_ok r bl (fun i => let* b := ref_node_owned r i in Some (negb b)) ghost o1
    (0 + zlen (filter own (valid_nodes r))) Hc Hl1) as ([o2 n2] & Ho2 & Hl2 & -> & Hnum2 & Hr2).
  { intros i Hi. rewrite Howned by done. cbn. f_equal. by rewrite <- bool_decide_not. }
  exists o2. assert (Hnum : numbers o2 0 (compact_order r)).
  { intros k Hk. unfold compact_order in *. fold own in Hk |- *; fold ghost in Hk |- *.
    rewrite zlen_app in Hk. destruct (Z_lt_le_dec k (zlen (filter own (valid_nodes r)))).
    - rewrite aat_app_l by lia.
      assert ((filter own (valid_nodes r)).[k] ∈ filter own (valid_nodes r)) as Hin
        by (apply elem_of_aat; exists k; split; [lia|done]).
      pose proof Hin as [Hown [Hr _]%elem_of_valid_nodes]%list_elem_of_filter.
      rewrite Hr2; [apply Hnum1; lia|lia|]. intros [Hg _]%list_elem_of_filter. done.
    - rewrite aat_app_r, Hnum2 by lia. lia. }
  split; [|split; [done|split; [done|split; [done|]]]].
  - unfold ref_node_compact. rewrite Ho0. cbn [obind RSS]. unfold ref_malloc.
    destruct (Z.ltb_spec (node_n r) 0); [lia|]. cbn [RSS]. rewrite Ho1. cbn [obind]. rewrite Ho2. cbn [obind].
    replace (0 + zlen (filter own (valid_nodes r)) + zlen (filter ghost (valid_nodes r)))
      with (zlen (compact_order r)) by (unfold compact_order; rewrite zlen_app; done).
    apply (invert_numbering_ok r bl); [done|done|apply zlen_alloc; lia|done|done].
  - intros i Hi Hv. rewrite Hr2, Hr1, He0; [done|done|lia| |lia|];
      intros [_ ?]%list_elem_of_filter; done.
Qed.

(** [ref_node_stable_compact] numbers the nodes in use in increasing
    order of their indices. *)
Theorem ref_node_stable_compact_numbers r :
  node_wf r ->
  exists o2n, ref_node_stable_compact r = Some (REF_SUCCESS, (o2n, valid_nodes r)) /\
    zlen o2n = node_max r /\ numbers o2n 0 (valid_nodes r) /\
    forall i, 0 <= i < node_max r -> i ∉ valid_nodes r -> o2n.[i] = REF_EMPTY.
Proof.
  intros [[bl Hc] _]. pose proof (nc_max _ _ Hc) as Hm. pose proof (nc_n_range _ _ Hc) as Hn.
  assert (Hall : filter (fun _ => True) (valid_nodes r) = valid_nodes r)
    by (apply filter_all, Forall_forall; done).
  destruct (malloc_empty_ok (node_max r) ltac:(lia)) as ([st o0] & Ho0 & -> & Hl0 & He0).
  destruct (number_nodes_ok r bl (fun _ => Some true) (fun _ => True) o0 0 Hc Hl0)
    as ([o1 n1] & Ho1 & Hl1 & -> & Hnum1 & Hr1); [done|]. rewrite Hall in *.
  exists o1. split; [|split; [done|split; [done|]]].
  - unfold ref_node_stable_compact. rewrite Ho0. cbn [obind RSS]. unfold ref_malloc.
    destruct (Z.ltb_spec (node_n r) 0); [lia|]. cbn [RSS]. rewrite Ho1. cbn [obind].
    apply (invert_numbering_ok r bl); [done|done|apply zlen_alloc; lia|done|done].
  - intros i Hi Hv. rewrite Hr1, He0; [done|done|lia|done].
Qed.
End compact.

(** ** Copies and packing *)

Section pack.
Context {D : Type} `{Dbl D, Junk D, Junk Z}.
Implicit Types (r : REF_NODE D) (o2n n2o : list Z).

(** The subscripts of [real] and [aux] are in the range of [REF_INT]. *)
Definition node_indexable r : Prop :=
  REF_NODE_REAL_PER * node_max r <= REF_INT_MAX /\ node_naux r * node_max r <= REF_INT_MAX.

#[local] Instance dbl_inhabited : Inhabited D := populate (dofZ 0).

Lemma copy_array_ok {A} `{Inhabited A} n (src dst : list A) (Q : list A -> Prop) :
  0 <= n <= zlen src -> n <= zlen dst ->
  (forall d, zlen d = zlen dst -> ztake n d = ztake n src -> Q d) ->
  wp (copy_array n src dst) Q.
Proof.
  intros Hn Hl HQ. unfold copy_array. apply (wp_fill (fun i => src.[i])); [lia|lia| |].
  - intros i d Hi Hd _. apply wp_bind, wp_aget; [lia|]. apply wp_aset; [lia|done].
  - intros d Hd Hg. apply HQ; [done|]. apply arr_ext; [by rewrite !zlen_ztake by lia|].
    intros i Hi. rewrite zlen_ztake in Hi by lia. rewrite !aat_ztake, Hg by lia.
    by destruct (Z.leb_spec 0 i), (Z.ltb_spec i n); try lia.
Qed.

Lemma copy_array_full {A} `{Inhabited A} n (src dst : list A) (Q : list A -> Prop) :
  zlen src = n -> zlen dst = n -> Q src -> wp (copy_array n src dst) Q.
Proof.
  intros Hs Hd HQ. pose proof (zlen_nonneg src). apply copy_array_ok; [lia|lia|].
  intros d Hld Ht. assert (d = src) as ->; [|done].
  rewrite <- (ztake_full d), <- (ztake_full src). by rewrite Hld, Hd, Hs.
Qed.

(** The subscript of an entry of [aux]. *)
Lemma aux_index_ok naux i node max :
  0 <= i < naux -> 0 <= node < max -> naux * max <= REF_INT_MAX ->
  (let* k := ck_int (naux * node) in ck_int (i + k)) = Some (i + naux * node).
Proof.
  intros Hi Hn Hm. apply wp_eq. assert (naux * node + i < naux * max) by nia.
  apply wp_bind, wp_ck_int; [unfold REF_INT_MIN; nia|].
  apply wp_ck_int; [unfold REF_INT_MIN; nia|done].
Qed.

Lemma real_index_in i node max :
  0 <= i < REF_NODE_REAL_PER -> 0 <= node < max -> REF_NODE_REAL_PER * max <= REF_INT_MAX ->
  real_index i node = Some (i + REF_NODE_REAL_PER * node).
Proof. intros Hi Hn Hm. apply real_index_ok; [done|lia|]. unfold REF_NODE_REAL_PER in *. lia. Qed.

(** A deep copy has the same nodes, the same sorted arrays, the same
    coordinates and the same stack of unused global indices. *)
Lemma ref_node_deep_copy_ok mpi r bl :
  node_core r bl -> node_indexable r ->
  wp (ref_node_deep_copy mpi r) (fun '(st, c) => st = REF_SUCCESS /\
    node_n c = node_n r /\ node_max c = node_max r /\ node_blank c = node_blank r /\
    node_global c = node_global r /\ node_sorted_global c = node_sorted_global r /\
    node_sorted_local c = node_sorted_local r /\ node_part c = node_part r /\
    node_age c = node_age r /\ node_real c = node_real r /\ node_naux c = node_naux r /\
    (0 < node_naux r -> node_aux c = node_aux r) /\ node_mpi c = mpi /\
    node_n_unused c = node_n_unused r /\ node_unused c = node_unused r).
Proof.
  intros Hc [Hreal Haux]. unfold ref_node_deep_copy.
  pose proof (nc_max _ _ Hc) as Hm. pose proof (nc_unused _ _ Hc) as Hu.
  pose proof (nc_unused_global _ _ Hc) as Hlu. pose proof (nc_naux _ _ Hc) as Hna.
  pose proof (nc_global _ _ Hc) as Hlg. pose proof (nc_sorted_global _ _ Hc) as Hlsg.
  pose proof (nc_sorted_local _ _ Hc) as Hlsl. pose proof (nc_part _ _ Hc) as Hlp.
  pose proof (nc_age _ _ Hc) as Hla. pose proof (nc_real _ _ Hc) as Hlr.
  do 5 (apply wp_bind, copy_array_full; [done|apply zlen_alloc; lia|]).
  apply wp_bind, wp_ck_int; [unfold REF_NODE_REAL_PER, REF_INT_MIN in *; lia|].
  apply wp_bind, (wp_fill_blocks (aat (node_real r))); [done|lia|rewrite zlen_alloc; unfold REF_NODE_REAL_PER; lia| |].
  { intros node i d Hnode Hi Hd. rewrite zlen_alloc in Hd by (unfold REF_NODE_REAL_PER; lia).
    rewrite (real_index_in i node (node_max r)) by done. cbn [obind].
    unfold REF_NODE_REAL_PER in *. apply wp_bind, wp_aget; [lia|]. apply wp_aset; [lia|done]. }
  intros real Hr Hrg _. rewrite zlen_alloc in Hr by (unfold REF_NODE_REAL_PER; lia).
  assert (real = node_real r) as -> by (apply arr_ext; [lia|intros; apply Hrg; lia]).
  apply wp_bind, (wp_mono (fun aux => 0 < node_naux r -> aux = node_aux r)).
  { case Z.ltb_spec; intros Hpos; [|apply wp_ret; lia].
    pose proof (nc_aux _ _ Hc Hpos) as Hlaux.
    apply wp_bind, wp_ck_int; [unfold REF_INT_MIN; nia|].
    apply (wp_fill_blocks (aat (node_aux r))); [lia|lia|rewrite zlen_alloc; lia| |].
    - intros node i d Hnode Hi Hd. rewrite zlen_alloc in Hd by lia.
      pose proof (aux_index_ok (node_naux r) i node (node_max r) Hi Hnode Haux) as Hix.
      destruct (ck_int (node_naux r * node)) as [k|]; [|done]. cbn in Hix |- *. rewrite Hix. cbn.
      apply wp_bind, wp_aget; [nia|]. apply wp_aset; [nia|done].
    - intros aux Hx Hxg _ _. rewrite zlen_alloc in Hx by lia.
      apply arr_ext; [lia|]. intros. apply Hxg. lia. }
  intros aux Hx. apply wp_bind, copy_array_ok; [lia|rewrite zlen_alloc; lia|].
  intros u _ Hun. apply wp_ret. repeat (split; [done|]). exact Hun.
Qed.

(** The blank chain of the packed structure. *)
Lemma pack_global_ok r (global0 : list Z) (Q : _ -> Prop) :
  0 <= node_n r <= node_max r -> 1 <= node_max r -> zlen global0 = node_max r ->
  (forall k, 0 <= k < node_n r -> 0 <= global0.[k]) ->
  (forall g blank, zlen g = node_max r ->
     (forall k, 0 <= k < node_n r -> g.[k] = global0.[k]) ->
     (exists bl, chain (fun i => next2index g.[i]) (next2index blank) bl /\ NoDup bl /\
        forall i, i ∈ bl <-> 0 <= i < node_max r /\ g.[i] < 0) ->
     (forall i, 0 <= i < node_max r -> 0 <= g.[i] <-> i < node_n r) -> Q (g, blank)) ->
  wp (if node_n r <? node_max r then
        let* global :=
          for_up (node_n r) (node_max r) (fun node g => aset g node (index2next (node + 1))) global0 in
        let* global := aset global (node_max r - 1) REF_EMPTY in
        Some (global, index2next (node_n r))
      else Some (global0, REF_EMPTY)) Q.
Proof.
  intros Hn Hm Hl Hpos HQ. case Z.ltb_spec; intros Hlt.
  - apply wp_bind, (wp_fill (fun node => index2next (node + 1))); [lia|lia| |].
    { intros i d Hi Hd _. apply wp_aset; [lia|done]. }
    intros g Hg Hgg. rewrite Hl in *. apply wp_bind, wp_aset; [lia|]. apply wp_ret.
    set (g' := upd g (node_max r - 1) REF_EMPTY).
    assert (Hold : forall k, 0 <= k < node_n r -> g'.[k] = global0.[k]).
    { intros k Hk. unfold g'. rewrite aat_upd_ne by lia. rewrite Hgg by lia.
      by destruct (Z.leb_spec (node_n r) k); [lia|]. }
    assert (Hnew : forall k, node_n r <= k < node_max r ->
      g'.[k] = if k =? node_max r - 1 then REF_EMPTY else index2next (k + 1)).
    { intros k Hk. unfold g'. rewrite aat_upd by lia. rewrite Hgg by lia.
      destruct (Z.eqb_spec (node_max r - 1) k), (Z.eqb_spec k (node_max r - 1)),
        (Z.leb_spec (node_n r) k), (Z.ltb_spec k (node_max r)); try lia; done. }
    assert (Hneg : forall k, node_n r <= k < node_max r -> g'.[k] < 0).
    { intros k Hk. rewrite Hnew by lia. unfold REF_EMPTY, index2next. case_match; lia. }
    apply HQ; [unfold g'; by rewrite zlen_upd|done| |].
    + exists (seqZ (node_n r) (node_max r - node_n r)). split; [|split; [apply NoDup_seqZ|]].
      * replace (next2index (index2next (node_n r))) with (node_n r) by (unfold next2index, index2next; lia).
        apply chain_linked; [lia|]. intros j Hj. rewrite Hnew by lia.
        case Z.eqb_spec; unfold next2index, index2next, REF_EMPTY; lia.
      * intros i. rewrite elem_of_seqZ. split; [intros Hi; split; [lia|apply Hneg; lia]|].
        intros [Hi Hgi]. destruct (Z_lt_le_dec i (node_n r)); [|lia].
        rewrite Hold in Hgi by lia. specialize (Hpos i ltac:(lia)). lia.
    + intros i Hi. split.
      * intros Hgi. destruct (Z_lt_le_dec i (node_n r)); [done|]. specialize (Hneg i ltac:(lia)). lia.
      * intros ?. rewrite Hold by lia. apply Hpos. lia.
  - apply wp_ret, HQ; [done|done| |].
    + exists []. split; [done|]. split; [apply NoDup_nil_2|]. intros i. split; [by intros []%elem_of_nil|].
      intros [Hi Hgi]. specialize (Hpos i ltac:(lia)). lia.
    + intros i Hi. split; [lia|]. intros _. apply Hpos. lia.
Qed.

Lemma permute_array_ok {A} `{Inhabited A} n n2o (src dst : list A) (Q : list A -> Prop) :
  0 <= n <= zlen dst -> n <= zlen n2o ->
  (forall k, 0 <= k < n -> 0 <= n2o.[k] < zlen src) ->
  (forall d, zlen d = zlen dst -> (forall k, 0 <= k < n -> d.[k] = src.[n2o.[k]]) -> Q d) ->
  wp (permute_array n n2o src dst) Q.
Proof.
  intros Hn Hl Hr HQ. unfold permute_array. apply (wp_fill (fun k => src.[n2o.[k]])); [lia|lia| |].
  - intros i d Hi Hd _. apply wp_bind, wp_aget; [lia|]. apply wp_bind, wp_aget; [by apply Hr|].
    apply wp_aset; [lia|done].
  - intros d Hd Hg. apply HQ; [done|]. intros k Hk. rewrite Hg by lia.
    by destruct (Z.leb_spec 0 k), (Z.ltb_spec k n); try lia.
Qed.

(** Blocks of [per] entries, one block for each node. *)
Lemma block_index per i node : 0 <= i < per -> 0 <= node ->
  (i + per * node) mod per = i /\ (i + per * node) / per = node.
Proof.
  intros Hi Hn. rewrite Z.mul_comm. split.
  - rewrite Z.mod_add by lia. by apply Z.mod_small.
  - rewrite Z.div_add by lia. rewrite Z.div_small by lia. lia.
Qed.

(** The structure after the renumbering. *)
Record node_packed r o2n n2o r' : Prop := {
  np_n : node_n r' = node_n r;
  np_max : node_max r' = node_max r;
  np_global_len : zlen (node_global r') = node_max r;
  np_global : forall k, 0 <= k < node_n r -> (node_global r').[k] = (node_global r).[n2o.[k]];
  np_blank : exists bl, chain (fun i => next2index (node_global r').[i]) (next2index (node_blank r')) bl /\
    NoDup bl /\ forall i, i ∈ bl <-> 0 <= i < node_max r /\ (node_global r').[i] < 0;
  np_valid : forall i, 0 <= i < node_max r -> 0 <= (node_global r').[i] <-> i < node_n r;
  np_sorted_global : node_sorted_global r' = node_sorted_global r;
  np_sorted_len : zlen (node_sorted_local r') = node_max r;
  np_sorted_local : forall k, 0 <= k < node_n r ->
    (node_sorted_local r').[k] = o2n.[(node_sorted_local r).[k]];
  np_part_len : zlen (node_part r') = node_max r;
  np_part : forall k, 0 <= k < node_n r -> (node_part r').[k] = (node_part r).[n2o.[k]];
  np_age_len : zlen (node_age r') = node_max r;
  np_age : forall k, 0 <= k < node_n r -> (node_age r').[k] = (node_age r).[n2o.[k]];
  np_real_len : zlen (node_real r') = zlen (node_real r);
  np_real : forall k i, 0 <= k < node_n r -> 0 <= i < REF_NODE_REAL_PER ->
    (node_real r').[i + REF_NODE_REAL_PER * k] = (node_real r).[i + REF_NODE_REAL_PER * n2o.[k]];
  np_naux : node_naux r' = node_naux r;
  np_aux_len : zlen (node_aux r') = zlen (node_aux r);
  np_aux : forall k i, 0 <= k < node_n r -> 0 <= i < node_naux r ->
    (node_aux r').[i + node_naux r * k] = (node_aux r).[i + node_naux r * n2o.[k]];
  np_unused : node_n_unused r' = node_n_unused r /\ node_max_unused r' = node_max_unused r /\
    node_unused_global r' = node_unused_global r
}.

Lemma ref_node_pack_ok r bl o2n n2o :
  node_core r bl -> node_sorted r -> node_indexable r ->
  zlen o2n = node_max r -> zlen n2o = node_n r ->
  (forall k, 0 <= k < node_n r -> n2o.[k] ∈ valid_nodes r) ->
  wp (ref_node_pack r o2n n2o) (fun '(st, r') => st = REF_SUCCESS /\ node_packed r o2n n2o r').
Proof.
  intros Hc Hs Hix Hlo Hln Hv. unfold ref_node_pack.
  pose proof (nc_max _ _ Hc) as Hm. pose proof (nc_n_range _ _ Hc) as Hn.
  pose proof (nc_global _ _ Hc) as Hlg. pose proof (nc_sorted_local _ _ Hc) as Hlsl.
  pose proof (nc_part _ _ Hc) as Hlp. pose proof (nc_age _ _ Hc) as Hla.
  pose proof (nc_real _ _ Hc) as Hlr. pose proof Hix as [Hreal Haux].
  assert (Hvr : forall k, 0 <= k < node_n r -> 0 <= n2o.[k] < node_max r /\ 0 <= (node_global r).[n2o.[k]]).
  { intros k Hk. by apply elem_of_valid_nodes, Hv. }
  apply wp_bind. eapply wp_mono; [by apply (ref_node_deep_copy_ok (node_mpi r) r bl)|].
  intros [st c] (-> & _ & _ & _ & Hcg & _ & Hcl & Hcp & Hca & Hcr & _ & Hcx & _). cbn [RSS].
  rewrite Hcg, Hcl, Hcp, Hca, Hcr.
  apply wp_bind, permute_array_ok; [lia|lia|intros k Hk; rewrite Hlg; by apply Hvr|].
  intros g0 Hlg0 Hg0. rewrite Hlg in Hlg0.
  apply wp_bind, (pack_global_ok r g0); [lia|lia|done| |].
  { intros k Hk. rewrite Hg0 by done. by apply Hvr. }
  intros g blank Hg Hgk Hchain Hgv.
  apply wp_bind, (wp_fill (fun k => o2n.[(node_sorted_local r).[k]])); [lia|lia| |].
  { intros k d Hk Hd _. pose proof (ns_elem r k Hs ltac:(lia) Hk) as [? _]%elem_of_valid_nodes.
    apply wp_bind, wp_aget; [lia|]. apply wp_bind, wp_aget; [lia|]. apply wp_aset; [lia|done]. }
  intros sl Hsl Hslk.
  apply wp_bind, permute_array_ok; [lia|lia|intros k Hk; rewrite Hlp; by apply Hvr|]. intros part Hpl Hpk.
  apply wp_bind, permute_array_ok; [lia|lia|intros k Hk; rewrite Hla; by apply Hvr|]. intros age Hal Hak.
  apply wp_bind, (wp_fill_blocks (fun j => (node_real r).[j mod REF_NODE_REAL_PER +
    REF_NODE_REAL_PER * n2o.[j / REF_NODE_REAL_PER]]));
    [done|lia|unfold REF_NODE_REAL_PER in *; lia| |].
  { intros k i d Hk Hi Hd. destruct (block_index _ _ k Hi ltac:(lia)) as [-> ->].
    destruct (Hvr k Hk) as [Hr _].
    apply wp_bind, wp_aget; [lia|]. rewrite !(real_index_in i _ (node_max r)) by (done || lia).
    cbn [obind]. unfold REF_NODE_REAL_PER in *.
    apply wp_bind, wp_aget; [lia|]. apply wp_aset; [lia|done]. }
  intros real Hrl Hrk _.
  apply wp_bind, (wp_mono (fun aux => zlen aux = zlen (node_aux r) /\
    forall k i, 0 <= k < node_n r -> 0 <= i < node_naux r ->
      aux.[i + node_naux r * k] = (node_aux r).[i + node_naux r * n2o.[k]])).
  { case Z.ltb_spec; intros Hpos; [|apply wp_ret; split; [done|lia]].
    pose proof (nc_aux _ _ Hc Hpos) as Hlaux. rewrite Hcx by done.
    apply (wp_fill_blocks (fun j => (node_aux r).[j mod node_naux r + node_naux r * n2o.[j / node_naux r]]));
      [lia|lia|nia| |].
    - intros k i d Hk Hi Hd. destruct (block_index _ _ k Hi ltac:(lia)) as [-> ->].
      destruct (Hvr k Hk) as [Hr _]. apply wp_bind, wp_aget; [lia|].
      pose proof (aux_index_ok (node_naux r) i n2o.[k] (node_max r) Hi Hr Haux) as Hi1.
      pose proof (aux_index_ok (node_naux r) i k (node_max r) Hi ltac:(lia) Haux) as Hi2.
      destruct (ck_int (node_naux r * n2o.[k])) as [k1|]; [|done]. cbn in Hi1 |- *. rewrite Hi1. cbn.
      apply wp_bind, wp_aget; [nia|].
      destruct (ck_int (node_naux r * k)) as [k2|]; [|done]. cbn in Hi2 |- *. rewrite Hi2. cbn.
      apply wp_aset; [nia|done].
    - intros aux Hxl Hxk _. split; [done|]. intros k i Hk Hi. rewrite Hxk by nia.
      by destruct (block_index _ _ k Hi ltac:(lia)) as [-> ->]. }
  intros aux [Hxl Hxk]. apply wp_ret. split; [done|].
  constructor; cbn; try done; try lia.
  - intros k Hk. rewrite Hgk by done. by apply Hg0.
  - intros k Hk. rewrite Hslk by lia. by destruct (Z.leb_spec 0 k), (Z.ltb_spec k (node_n r)); try lia.
  - intros k i Hk Hi. rewrite Hrk by (unfold REF_NODE_REAL_PER in *; lia).
    by destruct (block_index _ _ k Hi ltac:(lia)) as [-> ->].
Qed.

Lemma numbers_inv r bl o2n n2o :
  node_core r bl -> zlen n2o = node_n r -> n2o ≡ₚ valid_nodes r -> numbers o2n 0 n2o ->
  forall i, i ∈ valid_nodes r -> 0 <= o2n.[i] < node_n r /\ n2o.[o2n.[i]] = i.
Proof.
  intros Hc Hl Hp Hnum i Hi. rewrite <- Hp in Hi. apply elem_of_aat in Hi as (k & Hk & <-).
  rewrite Hnum by done. rewrite Z.add_0_l. split; [lia|done].
Qed.

(** C7. [ref_node_pack] with the result of a compaction moves the nodes to
    the local indices below [n], each with its global index, part, age,
    coordinates, metric and auxiliary data, and keeps the structure
    consistent: looking up a global index gives the new local index. *)
Theorem ref_node_pack_renumbers r o2n n2o :
  node_wf r -> node_indexable r -> zlen o2n = node_max r -> zlen n2o = node_n r ->
  n2o ≡ₚ valid_nodes r -> numbers o2n 0 n2o ->
  exists r', ref_node_pack r o2n n2o = Some (REF_SUCCESS, r') /\
    node_wf r' /\ node_packed r o2n n2o r' /\ valid_nodes r' ≡ₚ zrange (node_n r) /\
    node_map r' = aat o2n <$> node_map r.
Proof.
  intros [[bl Hc] Hs] Hix Hlo Hln Hp Hnum. pose proof (nc_n_range _ _ Hc) as Hn.
  pose proof (nc_sorted_local _ _ Hc) as Hlsl. pose proof (numbers_inv r bl o2n n2o Hc Hln Hp Hnum) as Hinv.
  assert (Hv : forall k, 0 <= k < node_n r -> n2o.[k] ∈ valid_nodes r).
  { intros k Hk. rewrite <- Hp. apply elem_of_aat. exists k. split; [lia|done]. }
  destruct (ref_node_pack_ok r bl o2n n2o Hc Hs Hix Hlo Hln Hv) as ([st r'] & Hpack & -> & Hpk).
  exists r'. pose proof (np_n _ _ _ _ Hpk) as Hn'. pose proof (np_max _ _ _ _ Hpk) as Hm'.
  assert (Hvi : forall i, i ∈ valid_nodes r' <-> 0 <= i < node_n r).
  { intros i. rewrite elem_of_valid_nodes, Hm'. split.
    - intros [Hi Hg]. apply (np_valid _ _ _ _ Hpk) in Hg; lia.
    - intros Hi. split; [lia|]. apply (np_valid _ _ _ _ Hpk); lia. }
  assert (Hperm : valid_nodes r' ≡ₚ zrange (node_n r)).
  { symmetry. apply valid_nodes_permutation; [apply NoDup_zrange|].
    intros i. by rewrite elem_of_zrange, <- elem_of_valid_nodes, Hvi. }
  destruct (np_blank _ _ _ _ Hpk) as (bl' & Hch & Hnd & Hbl).
  assert (Hc' : node_core r' bl').
  { destruct (np_unused _ _ _ _ Hpk) as (Hu1 & Hu2 & Hu3).
    destruct Hc; constructor; rewrite ?Hm', ?Hu1, ?Hu2, ?Hu3; try done; try (by destruct Hpk).
    - by rewrite (np_sorted_global _ _ _ _ Hpk).
    - by rewrite (np_real_len _ _ _ _ Hpk).
    - by rewrite (np_naux _ _ _ _ Hpk).
    - intros Hx. rewrite (np_naux _ _ _ _ Hpk) in Hx |- *. rewrite (np_aux_len _ _ _ _ Hpk). auto.
    - rewrite Hn'. unfold zlen. rewrite Hperm. fold (zlen (zrange (node_n r))).
      rewrite zlen_zrange by lia. done.
    - intros i j Hi%Hvi Hj%Hvi. rewrite !(np_global _ _ _ _ Hpk) by done. intros Heq.
      apply nc_distinct0 in Heq; [|by apply Hv..].
      pose proof (Hnum i ltac:(lia)) as Hi'. pose proof (Hnum j ltac:(lia)) as Hj'. rewrite Heq in Hi'. lia. }
  split; [done|]. split; [split; [by exists bl'|]|split; [done|split; [done|]]].
  - constructor; rewrite Hn'.
    + rewrite Hperm. rewrite (arr_ext (ztake _ _) (map (aat o2n) (ztake (node_n r) (node_sorted_local r)))).
      * rewrite (ns_perm _ Hs), <- Hp. rewrite (arr_ext (map _ _) (zrange (node_n r))); [done| |].
        -- rewrite zlen_map, zlen_zrange by lia. lia.
        -- intros k Hk. rewrite zlen_map in Hk. rewrite aat_map, aat_zrange, Hnum by lia. lia.
      * rewrite zlen_map, !zlen_ztake; [done|lia|rewrite (np_sorted_len _ _ _ _ Hpk); lia].
      * intros k Hk. rewrite zlen_ztake in Hk by (rewrite (np_sorted_len _ _ _ _ Hpk); lia).
        rewrite aat_map by (rewrite zlen_ztake; lia). rewrite !aat_ztake by lia.
        by apply (np_sorted_local _ _ _ _ Hpk).
    + intros k Hk. rewrite (np_sorted_global _ _ _ _ Hpk), (np_sorted_local _ _ _ _ Hpk) by done.
      destruct (Hinv _ (ns_elem r k Hs ltac:(lia) Hk)) as [Hr Heq].
      rewrite (np_global _ _ _ _ Hpk), Heq by done. by apply (ns_global _ Hs).
    + intros p q Hpq Hq. rewrite (np_sorted_global _ _ _ _ Hpk). by apply (ns_lt _ Hs).
  - apply (node_map_eq r' bl'); [done|]. intros g i. rewrite lookup_fmap_Some, Hvi. split.
    + intros (j & <- & [Hj Hg]%(node_map_lookup r bl)); [|done]. destruct (Hinv j Hj) as [Hr Heq].
      split; [done|]. by rewrite (np_global _ _ _ _ Hpk), Heq.
    + intros [Hi Hg]. exists n2o.[i]. split; [rewrite Hnum by lia; lia|].
      apply (node_map_lookup r bl); [done|]. split; [by apply Hv|].
      by rewrite <- (np_global _ _ _ _ Hpk).
Qed.
End pack.

(** ** Examples

    A process that made four nodes and removed two: the hypotheses of the
    theorems hold, with the arithmetic of doubles. *)
Module NodeExample.
#[local] Instance double : Dbl spec_float := binary64 (fun x => x) (fun x => x).
#[local] Instance junk_double : Junk spec_float := fun _ => S754_nan.
#[local] Instance junk_int : Junk Z := fun k => Z.of_nat k - 7.

Definition mpi : REF_MPI := mkREF_MPI 2 1 0.
Definition commands : list node_command :=
  [NodeAdd 30; NodeAdd 10; NodeAdd 20; NodeAdd 10; NodeRemove 1; NodeRemove 1; NodeLocal 20;
   NodeLocal 10; NodeAdd 5; NodeRemoveWithoutGlobal 0; NodeNextGlobal; NodeNextGlobal].
Definition empty_node : REF_NODE spec_float :=
  match ref_node_create mpi with
  | Some (_, r) => r
  | None => mkREF_NODE 0 0 0 [] [] [] [] [] [] 0 [] mpi 0 0 [] 0 0 S754_nan S754_nan S754_nan 0 0 0
  end.
Definition node : REF_NODE spec_float :=
  match run node_exec commands empty_node with
  | Some (_, r) => r
  | None => empty_node
  end.

Lemma node_wf_node : node_wf node.
Proof.
  destruct (node_run_ok (D:=spec_float) mpi commands) as (r0 & os & r & a & Hc & Hr & _ & Hwf & _).
  { vm_compute. congruence. }
  unfold node, empty_node. rewrite Hc, Hr. done.
Qed.
End NodeExample.

Section witnesses.
Import NodeExample.
Existing Instances double junk_double junk_int.

Lemma ref_node_refines_witness :
  fst <$> run node_exec commands empty_node =
    Some [(REF_SUCCESS, 0); (REF_SUCCESS, 1); (REF_SUCCESS, 2); (REF_SUCCESS, 1);
          (REF_SUCCESS, -1); (REF_INVALID, -1); (REF_SUCCESS, 2); (REF_NOT_FOUND, -1);
          (REF_SUCCESS, 1); (REF_SUCCESS, -1); (REF_SUCCESS, 10); (REF_SUCCESS, 2)] /\
  exists r0 os r a,
    ref_node_create (D:=spec_float) mpi = Some (REF_SUCCESS, r0) /\
    run node_exec commands r0 = Some (os, r) /\
    spec_steps node_step commands (mkNodeSpec ∅ [] REF_EMPTY) os a /\
    node_wf r /\ a = node_abs r.
Proof.
  split; [vm_compute; reflexivity|]. apply (ref_node_refines mpi commands). vm_compute. congruence.
Defined.

Lemma ref_node_add_many_adds_witness :
  exists r', ref_node_add_many node 5 [50; 7; 50; 20; 7] = Some (REF_SUCCESS, r') /\
    node_wf r' /\ node_map node ⊆ node_map r' /\
    dom (node_map r') = dom (node_map node) ∪ list_to_set (ztake 5 [50; 7; 50; 20; 7]) /\
    node_unused r' = node_unused node /\ node_size 8 r'.
Proof.
  apply (ref_node_add_many_adds node 5 [50; 7; 50; 20; 7] 3).
  - exact node_wf_node.
  - vm_compute. split_and!; congruence.
  - vm_compute. congruence.
  - vm_compute. split; congruence.
  - intros i Hi. assert (i = 0 \/ i = 1 \/ i = 2 \/ i = 3 \/ i = 4) as [->|[->|[->|[->| ->]]]] by lia;
      vm_compute; congruence.
Defined.

Lemma ref_node_remove_invalidates_equiv_witness :
  exists os r1 r2 r3,
    run remove_exec [2; 2; 0] node = Some (os, r1) /\
    run remove_invalidates_exec [2; 2; 0] node = Some (os, r2) /\
    ref_node_rebuild_sorted_global r2 = Some (REF_SUCCESS, r3) /\
    node_wf r1 /\ node_wf r3 /\ node_abs r3 = node_abs r1.
Proof.
  apply (ref_node_remove_invalidates_equiv node [2; 2; 0]);
    [exact node_wf_node|vm_compute; congruence|vm_compute; congruence].
Defined.

Lemma ref_node_compact_numbers_witness :
  compact_order node = [1; 2] /\
  exists o2n, ref_node_compact node = Some (REF_SUCCESS, (o2n, compact_order node)) /\
    zlen o2n = node_max node /\ compact_order node ≡ₚ valid_nodes node /\
    numbers o2n 0 (compact_order node) /\
    forall i, 0 <= i < node_max node -> i ∉ valid_nodes node -> o2n.[i] = REF_EMPTY.
Proof.
  split; [vm_compute; reflexivity|]. apply (ref_node_compact_numbers node). exact node_wf_node.
Defined.

Lemma ref_node_stable_compact_numbers_witness :
  exists o2n, ref_node_stable_compact node = Some (REF_SUCCESS, (o2n, valid_nodes node)) /\
    zlen o2n = node_max node /\ numbers o2n 0 (valid_nodes node) /\
    forall i, 0 <= i < node_max node -> i ∉ valid_nodes node -> o2n.[i] = REF_EMPTY.
Proof. apply (ref_node_stable_compact_numbers node). exact node_wf_node. Defined.

Lemma ref_node_pack_renumbers_witness :
  exists r', ref_node_pack node (upd (upd (map (fun _ => REF_EMPTY) (zrange 20)) 1 0) 2 1) [1; 2] =
      Some (REF_SUCCESS, r') /\
    node_wf r' /\
    node_packed node (upd (upd (map (fun _ => REF_EMPTY) (zrange 20)) 1 0) 2 1) [1; 2] r' /\
    valid_nodes r' ≡ₚ zrange (node_n node) /\
    node_map r' =
      aat (upd (upd (map (fun _ => REF_EMPTY) (zrange 20)) 1 0) 2 1) <$> node_map node.
Proof.
  apply (ref_node_pack_renumbers node (upd (upd (map (fun _ => REF_EMPTY) (zrange 20)) 1 0) 2 1) [1; 2]).
  - exact node_wf_node.
  - split; vm_compute; congruence.
  - vm_compute. reflexivity.
  - vm_compute. reflexivity.
  - change (valid_nodes node) with [1; 2]. reflexivity.
  - intros k Hk. assert (k = 0 \/ k = 1) as [->| ->] by (unfold zlen in Hk; cbn in Hk; lia);
      vm_compute; reflexivity.
Defined.
End witnesses.
