(* ===== verification/RefAgents.v ===== *)
(** * ref_agents.c: the searches that are under way

    [REF_AGENTS] keeps the agents that walk the donor mesh in one array: the active ones
    are doubly linked, the last one first to be popped, and the unused ones are singly
    linked through [next]. [segment] is the doubly linked list; [agents_wf] is the
    invariant. [ref_agents_refines] shows that the operations are those of a stack from
    whose middle agents can be removed. *)
From S2P Require Import Prelude RefDbl RefMpi RefNode.
From stdpp Require Import prelude list.
From Stdlib Require Import ZArith Lia.
Open Scope Z_scope.
Open Scope ref_scope.

Inductive REF_AGENT_MODE := REF_AGENT_UNUSED | REF_AGENT_WALKING | REF_AGENT_AT_BOUNDARY | REF_AGENT_HOP_PART
  | REF_AGENT_SUGGESTION | REF_AGENT_ENCLOSING | REF_AGENT_TERMINATED | REF_AGENT_NEW | REF_AGENT_MODE_LAST.
#[global] Instance agent_mode_eq_dec : EqDecision REF_AGENT_MODE.
Proof. solve_decision. Defined.

(** An agent: the links, and what it carries. The arrays [xyz] and [bary] have three and
    four elements. *)
Record REF_AGENT (D : Type) := mkREF_AGENT {
  agent_mode : REF_AGENT_MODE;
  agent_previous : Z;
  agent_next : Z;
  agent_home : Z;
  agent_node : Z;
  agent_part : Z;
  agent_seed : Z;
  agent_global : Z;
  agent_step : Z;
  agent_xyz : D * D * D;
  agent_bary : D * D * D * D
}.
#[global] Arguments mkREF_AGENT {D}.
#[global] Arguments agent_mode {D}.
#[global] Arguments agent_previous {D}.
#[global] Arguments agent_next {D}.
#[global] Arguments agent_home {D}.
#[global] Arguments agent_node {D}.
#[global] Arguments agent_part {D}.
#[global] Arguments agent_seed {D}.
#[global] Arguments agent_global {D}.
#[global] Arguments agent_step {D}.
#[global] Arguments agent_xyz {D}.
#[global] Arguments agent_bary {D}.
#[global] Instance agent_inhabited {D} `{Inhabited D} : Inhabited (REF_AGENT D) :=
  populate (mkREF_AGENT REF_AGENT_UNUSED 0 0 0 0 0 0 0 0 inhabitant inhabitant).

Record REF_AGENTS (D : Type) := mkREF_AGENTS {
  agents_n : Z;
  agents_max : Z;
  agents_blank : Z;
  agents_last : Z;
  agents_agent : list (REF_AGENT D);
  agents_mpi : REF_MPI
}.
#[global] Arguments mkREF_AGENTS {D}.
#[global] Arguments agents_n {D}.
#[global] Arguments agents_max {D}.
#[global] Arguments agents_blank {D}.
#[global] Arguments agents_last {D}.
#[global] Arguments agents_agent {D}.
#[global] Arguments agents_mpi {D}.

(** Assignments to one member. *)
Section setters.
Context {D : Type}.
Implicit Types (a : REF_AGENT D) (r : REF_AGENTS D).
Definition set_agent_mode (x : REF_AGENT_MODE) a : REF_AGENT D :=
  mkREF_AGENT x (agent_previous a) (agent_next a) (agent_home a) (agent_node a) (agent_part a) (agent_seed a)
    (agent_global a) (agent_step a) (agent_xyz a) (agent_bary a).
Definition set_agent_previous (x : Z) a : REF_AGENT D :=
  mkREF_AGENT (agent_mode a) x (agent_next a) (agent_home a) (agent_node a) (agent_part a) (agent_seed a)
    (agent_global a) (agent_step a) (agent_xyz a) (agent_bary a).
Definition set_agent_next (x : Z) a : REF_AGENT D :=
  mkREF_AGENT (agent_mode a) (agent_previous a) x (agent_home a) (agent_node a) (agent_part a) (agent_seed a)
    (agent_global a) (agent_step a) (agent_xyz a) (agent_bary a).
Definition set_agents_n (x : Z) r : REF_AGENTS D :=
  mkREF_AGENTS x (agents_max r) (agents_blank r) (agents_last r) (agents_agent r) (agents_mpi r).
Definition set_agents_blank (x : Z) r : REF_AGENTS D :=
  mkREF_AGENTS (agents_n r) (agents_max r) x (agents_last r) (agents_agent r) (agents_mpi r).
Definition set_agents_last (x : Z) r : REF_AGENTS D :=
  mkREF_AGENTS (agents_n r) (agents_max r) (agents_blank r) x (agents_agent r) (agents_mpi r).
Definition set_agents_agent (x : list (REF_AGENT D)) r : REF_AGENTS D :=
  mkREF_AGENTS (agents_n r) (agents_max r) (agents_blank r) (agents_last r) x (agents_mpi r).
End setters.

Section ops.
Context {D : Type} `{Junk (REF_AGENT D)}.
Implicit Types (r : REF_AGENTS D) (id : Z).

(** An assignment to members of one agent. *)
Definition put_agent id (f : REF_AGENT D -> REF_AGENT D) (l : list (REF_AGENT D)) : option (list (REF_AGENT D)) :=
  let* a := aget l id in aset l id (f a).
Definition update_agent id f r : option (REF_AGENTS D) :=
  let* l := put_agent id f (agents_agent r) in Some (set_agents_agent l r).
Definition agent r id : option (REF_AGENT D) := aget (agents_agent r) id.

(** The loop that marks agents as unused and links them, and the assignment that ends
    the list. *)
Definition link_agents (lo hi : Z) (l : list (REF_AGENT D)) : option (list (REF_AGENT D)) :=
  let* l :=
    for_up lo hi (fun id l =>
      put_agent id (fun a => set_agent_next (id + 1) (set_agent_previous REF_EMPTY (set_agent_mode REF_AGENT_UNUSED a))) l) l in
  put_agent (hi - 1) (set_agent_next REF_EMPTY) l.

Definition ref_agents_create (ref_mpi : REF_MPI) : option (REF_STATUS * REF_AGENTS D) :=
  let max := 10 in
  let* l := link_agents 0 max (alloc max) in
  Some (REF_SUCCESS, mkREF_AGENTS 0 max 0 REF_EMPTY l ref_mpi).

(** The block that makes room when no agent is unused. *)
Definition agents_grow r : option (REF_AGENTS D) :=
  if REF_EMPTY =? agents_blank r then
    let orig := agents_max r in
    let* more := ck_int (half_more orig) in
    let chunk := Z.max 5000 more in
    let* max := ck_int (orig + chunk) in
    let* l := link_agents orig max (ref_realloc (agents_agent r) max) in
    Some (mkREF_AGENTS (agents_n r) max orig (agents_last r) l (agents_mpi r))
  else Some r.

(** The integer is [*id]. *)
Definition ref_agents_new r : option (REF_STATUS * (Z * REF_AGENTS D)) :=
  let* r := agents_grow r in
  let id := agents_blank r in
  let* a := agent r id in
  let r := set_agents_blank (agent_next a) r in
  let* r :=
    if negb (REF_EMPTY =? agents_last r) then update_agent (agents_last r) (set_agent_next id) r else Some r in
  let* r :=
    update_agent id (fun a =>
      set_agent_next REF_EMPTY (set_agent_previous (agents_last r) (set_agent_mode REF_AGENT_NEW a))) r in
  let r := set_agents_last id r in
  let* n := ck_int (agents_n r + 1) in
  Some (REF_SUCCESS, (id, set_agents_n n r)).

Definition restarted (part seed : Z) (a : REF_AGENT D) : REF_AGENT D :=
  mkREF_AGENT REF_AGENT_WALKING (agent_previous a) (agent_next a) (agent_home a) (agent_node a) part seed REF_EMPTY 0
    (agent_xyz a) (agent_bary a).
Definition ref_agents_restart r (part seed id : Z) : option (REF_STATUS * REF_AGENTS D) :=
  let* r := update_agent id (restarted part seed) r in Some (REF_SUCCESS, r).

Definition pushed (home node part seed : Z) (xyz : D * D * D) (a : REF_AGENT D) : REF_AGENT D :=
  mkREF_AGENT REF_AGENT_WALKING (agent_previous a) (agent_next a) home node part seed REF_EMPTY 0 xyz (agent_bary a).
Definition ref_agents_push r (node part seed : Z) (xyz : D * D * D) : option (REF_STATUS * (Z * REF_AGENTS D)) :=
  let* '(st, (id, r)) := ref_agents_new r in
  RSS st (id, r) (
  let* r := update_agent id (pushed (ref_mpi_rank (agents_mpi r)) node part seed xyz) r in
  Some (REF_SUCCESS, (id, r))).

Definition ref_agent_valid (a : REF_AGENT D) : bool := bool_decide (agent_mode a <> REF_AGENT_UNUSED).

Definition ref_agents_remove r id : option (REF_STATUS * REF_AGENTS D) :=
  if (id <? 0) || (agents_max r <=? id) then Some (REF_INVALID, r)
  else
    let* a := agent r id in
    if negb (ref_agent_valid a) then Some (REF_INVALID, r)
    else
      let r := if agents_last r =? id then set_agents_last (agent_previous a) r else r in
      let* a := agent r id in
      let* r :=
        if negb (REF_EMPTY =? agent_previous a) then
          update_agent (agent_previous a) (set_agent_next (agent_next a)) r else Some r in
      let* a := agent r id in
      let* r :=
        if negb (REF_EMPTY =? agent_next a) then
          update_agent (agent_next a) (set_agent_previous (agent_previous a)) r else Some r in
      let* r :=
        update_agent id (fun a =>
          set_agent_next (agents_blank r) (set_agent_previous REF_EMPTY (set_agent_mode REF_AGENT_UNUSED a))) r in
      let r := set_agents_blank id r in
      let* n := ck_int (agents_n r - 1) in
      Some (REF_SUCCESS, set_agents_n n r).

(** The last agent: [*node], [*part], [*seed] and [xyz]. *)
Definition ref_agents_pop r : option (REF_STATUS * (option (Z * Z * Z * (D * D * D)) * REF_AGENTS D)) :=
  if REF_EMPTY =? agents_last r then Some (REF_NOT_FOUND, (None, r))
  else
    let id := agents_last r in
    let* a := agent r id in
    let* '(st, r) := ref_agents_remove r id in
    RSS st (Some (agent_node a, agent_part a, agent_seed a, agent_xyz a), r)
      (Some (REF_SUCCESS, (Some (agent_node a, agent_part a, agent_seed a, agent_xyz a), r))).

Definition ref_agents_delete r (node : Z) : option (REF_STATUS * REF_AGENTS D) :=
  if node <? 0 then Some (REF_INVALID, r)
  else
    let* c :=
      forx_up 0 (agents_max r) (fun id r =>
        let* a := agent r id in
        if ref_agent_valid a then
          if node =? agent_node a then
            let* '(st, r) := ref_agents_remove r id in
            match st with
            | REF_SUCCESS => Some (Next r)
            | _ => Some (Exit (st, r))
            end
          else Some (Next r)
        else Some (Next r)) r in
    match c with
    | Exit (st, r) => Some (st, r)
    | Next r => Some (REF_SUCCESS, r)
    end.
End ops.

(** ** Doubly linked lists

    [segment next prev before first last after l]: the elements of [l] from [first] to
    [last], linked both ways, between [before] and [after]. *)
Fixpoint segment (next prev : Z -> Z) (before first last after : Z) (l : list Z) : Prop :=
  match l with
  | [] => first = after /\ last = before
  | x :: l => first = x /\ prev x = before /\ segment next prev x (next x) last after l
  end.

Section segments.
Implicit Types (next prev : Z -> Z) (l : list Z).

Lemma segment_ext next prev next' prev' b f e a l :
  (forall x, x ∈ l -> next' x = next x /\ prev' x = prev x) -> segment next prev b f e a l -> segment next' prev' b f e a l.
Proof.
  revert b f. induction l as [|x l IH]; intros b f Hext; [done|]. cbn. intros (-> & Hp & Hl).
  destruct (Hext x ltac:(set_solver)) as [-> ->]. split; [done|]. split; [done|]. apply IH; [|done]. set_solver.
Qed.

Lemma segment_app next prev b f e a l1 l2 :
  segment next prev b f e a (l1 ++ l2) <->
  exists m n, segment next prev b f m n l1 /\ segment next prev m n e a l2.
Proof.
  revert b f. induction l1 as [|x l1 IH]; intros b f; cbn.
  - split; [by exists b, f|]. by intros (m & n & [-> ->] & Hl).
  - rewrite IH. naive_solver.
Qed.

(** The ends. *)
Lemma segment_last next prev b f e a l : segment next prev b f e a l -> e = default b (last l) .
Proof.
  revert b f. induction l as [|x l IH]; intros b f; cbn; [by intros [_ ->]|]. intros (_ & _ & Hl).
  rewrite (IH _ _ Hl). destruct l as [|y l]; [done|]. cbn [last]. by destruct (last (y :: l)) eqn:Hlast; [|by apply last_None in Hlast].
Qed.
Lemma segment_first next prev b f e a l : segment next prev b f e a l -> f = default a (head l).
Proof. destruct l; cbn; by intros [-> _]. Qed.

(** What follows a segment can be changed, and what comes before it. *)
Lemma segment_set_after next prev next' b f e a a' l :
  NoDup l -> segment next prev b f e a l ->
  (forall x, x ∈ l -> next' x = if x =? e then a' else next x) ->
  segment next' prev b (match l with [] => a' | _ => f end) e a' l.
Proof.
  revert b f. induction l as [|x l IH]; intros b f Hnd; cbn; [by intros [_ ->]|]. intros (-> & Hp & Hl) Hext.
  apply NoDup_cons in Hnd as [Hx Hnd]. split; [done|]. split; [done|].
  pose proof (segment_last _ _ _ _ _ _ _ Hl) as He. pose proof (segment_first _ _ _ _ _ _ _ Hl) as Hf.
  rewrite Hext by set_solver. destruct l as [|y l].
  - cbn in He. rewrite He, Z.eqb_refl. done.
  - specialize (IH x (next x) Hnd Hl). rewrite (proj2 (Z.eqb_neq x e)); [apply IH; set_solver|].
    intros ->. apply Hx. rewrite He. destruct (last (y :: l)) as [z|] eqn:Hlast; [|by apply last_None in Hlast].
    by apply last_Some_elem_of in Hlast.
Qed.

Lemma segment_set_before next prev prev' b b' f e a l :
  NoDup l -> segment next prev b f e a l ->
  (forall x, x ∈ l -> prev' x = if x =? f then b' else prev x) ->
  segment next prev' b' f (match l with [] => b' | _ => e end) a l.
Proof.
  destruct l as [|x l]; cbn; [by intros _ [-> _]|]. intros [Hx Hnd]%NoDup_cons (-> & Hp & Hl) Hext.
  split; [done|]. split; [by rewrite Hext, Z.eqb_refl by set_solver|]. eapply segment_ext; [|exact Hl]. intros y Hy.
  split; [done|]. rewrite Hext by set_solver. destruct (Z.eqb_spec y x); [by subst|done].
Qed.
End segments.

(** ** The invariant

    [l] are the active agents from the first to the last, [bl] the unused ones. *)
Section invariant.
Context {D : Type} `{Inhabited D}.
Implicit Types (a : list (REF_AGENT D)) (r : REF_AGENTS D) (l bl : list Z).

Definition next_in a (id : Z) : Z := agent_next a.[id].
Definition previous_in a (id : Z) : Z := agent_previous a.[id].

Record agents_wf r l bl : Prop := {
  aw_max : 1 <= agents_max r <= REF_INT_MAX;
  aw_len : zlen (agents_agent r) = agents_max r;
  aw_ids : l ++ bl ≡ₚ zrange (agents_max r);
  aw_n : agents_n r = zlen l;
  aw_active : exists first, segment (next_in (agents_agent r)) (previous_in (agents_agent r)) REF_EMPTY first (agents_last r) REF_EMPTY l;
  aw_unused : chain (next_in (agents_agent r)) (agents_blank r) bl;
  aw_mode : forall id, id ∈ l -> agent_mode (agents_agent r).[id] <> REF_AGENT_UNUSED;
  aw_mode_unused : forall id, id ∈ bl -> agent_mode (agents_agent r).[id] = REF_AGENT_UNUSED
}.

Section facts.
Context r l bl (Hwf : agents_wf r l bl).

Lemma agent_ids id : id ∈ l \/ id ∈ bl <-> 0 <= id < agents_max r.
Proof using Hwf. by rewrite <- elem_of_app, (aw_ids _ _ _ Hwf), elem_of_zrange. Qed.

Lemma agent_ids_nodup : NoDup (l ++ bl).
Proof using Hwf. rewrite (aw_ids _ _ _ Hwf). apply NoDup_zrange. Qed.

Lemma agent_active_range id : id ∈ l -> 0 <= id < zlen (agents_agent r).
Proof using Hwf. intros Hid. rewrite (aw_len _ _ _ Hwf). apply agent_ids. by left. Qed.

Lemma agent_apart id id' : id ∈ l -> id' ∈ bl -> id <> id'.
Proof using Hwf. intros Hl Hb ->. pose proof agent_ids_nodup as (_ & Hx & _)%NoDup_app. by apply (Hx id'). Qed.

Lemma agents_last_of : agents_last r = default REF_EMPTY (last l).
Proof using Hwf. destruct (aw_active _ _ _ Hwf) as [first Hs]. by apply segment_last in Hs. Qed.

Lemma agents_n_range : agents_n r <= agents_max r.
Proof using Hwf.
  rewrite (aw_n _ _ _ Hwf). pose proof (Permutation_length (aw_ids _ _ _ Hwf)) as Hpl. rewrite length_app in Hpl.
  pose proof (aw_max _ _ _ Hwf). pose proof (zlen_zrange (agents_max r) ltac:(lia)). unfold zlen in *. lia.
Qed.

(** An agent is active exactly when its mode says so. *)
Lemma agent_valid_ok id : 0 <= id < agents_max r -> ref_agent_valid (agents_agent r).[id] = bool_decide (id ∈ l).
Proof using Hwf.
  intros Hid. unfold ref_agent_valid. apply bool_decide_ext. split; [|apply (aw_mode _ _ _ Hwf)].
  intros Hm. apply agent_ids in Hid as [Hl|Hb]; [done|]. by rewrite (aw_mode_unused _ _ _ Hwf) in Hm.
Qed.
End facts.

(** What an agent carries besides its links. *)
Definition carried (a : REF_AGENT D) : REF_AGENT D := set_agent_next 0 (set_agent_previous 0 a).

Lemma put_agent_ok id f a : 0 <= id < zlen a -> put_agent id f a = Some (upd a id (f a.[id])).
Proof. intros Hid. unfold put_agent. rewrite aget_aat by done. cbn [obind]. by apply aset_upd. Qed.

Lemma update_agent_ok id f r : 0 <= id < zlen (agents_agent r) ->
  update_agent id f r = Some (set_agents_agent (upd (agents_agent r) id (f (agents_agent r).[id])) r).
Proof. intros Hid. unfold update_agent. by rewrite put_agent_ok. Qed.

(** Changing what an active agent carries. *)
Lemma agents_wf_carry r l bl id f :
  agents_wf r l bl -> id ∈ l -> (forall x : REF_AGENT D, agent_next (f x) = agent_next x /\ agent_previous (f x) = agent_previous x /\ agent_mode (f x) <> REF_AGENT_UNUSED) ->
  agents_wf (set_agents_agent (upd (agents_agent r) id (f (agents_agent r).[id])) r) l bl.
Proof.
  intros Hwf Hid Hf. pose proof (agent_active_range _ _ _ Hwf _ Hid) as Hr. destruct (Hf (agents_agent r).[id]) as (Hn & Hp & Hm).
  assert (Hsame : forall x, next_in (upd (agents_agent r) id (f (agents_agent r).[id])) x = next_in (agents_agent r) x /\
    previous_in (upd (agents_agent r) id (f (agents_agent r).[id])) x = previous_in (agents_agent r) x).
  { intros x. unfold next_in, previous_in. destruct (decide (x = id)) as [->|Hx]; [by rewrite aat_upd_eq|].
    destruct (decide (0 <= x)); [by rewrite aat_upd_ne by lia|]. unfold aat, aget. by rewrite (proj2 (Z.ltb_lt x 0)) by lia. }
  constructor; cbn; try apply Hwf.
  - by rewrite zlen_upd, (aw_len _ _ _ Hwf).
  - destruct (aw_active _ _ _ Hwf) as [first Hs]. exists first. eapply segment_ext; [|exact Hs]. intros; apply Hsame.
  - eapply chain_ext; [|apply (aw_unused _ _ _ Hwf)]. intros; apply Hsame.
  - intros x Hx. destruct (decide (x = id)) as [->|Hne]; [by rewrite aat_upd_eq|].
    pose proof (agent_active_range _ _ _ Hwf _ Hx). rewrite aat_upd_ne by lia. by apply (aw_mode _ _ _ Hwf).
  - intros x Hx. pose proof (agent_apart _ _ _ Hwf id x Hid Hx). assert (0 <= x < agents_max r) by (apply (agent_ids _ _ _ Hwf); by right).
    rewrite aat_upd_ne by lia. by apply (aw_mode_unused _ _ _ Hwf).
Qed.
End invariant.

(** ** Linking and growing *)

Section ops_ok.
Context {D : Type} `{Inhabited D, Junk (REF_AGENT D)}.
Implicit Types (a : list (REF_AGENT D)) (r : REF_AGENTS D) (l bl : list Z).

Lemma wp_link_agents lo hi a (Q : list (REF_AGENT D) -> Prop) :
  0 <= lo < hi -> hi <= zlen a ->
  (forall a', zlen a' = zlen a -> (forall i, 0 <= i < lo -> a'.[i] = a.[i]) ->
     (forall i, lo <= i < hi -> agent_mode a'.[i] = REF_AGENT_UNUSED /\ next_in a' i = if i =? hi - 1 then REF_EMPTY else i + 1) -> Q a') ->
  wp (link_agents lo hi a) Q.
Proof.
  intros Hlo Hhi HQ. unfold link_agents. apply wp_bind.
  apply (wp_for_up (fun i d => zlen d = zlen a /\ (forall j, 0 <= j < lo -> d.[j] = a.[j]) /\
    forall j, lo <= j < i -> agent_mode d.[j] = REF_AGENT_UNUSED /\ next_in d j = j + 1)); [lia| | |].
  - split; [done|]. split; [done|lia].
  - intros i d Hi (Hl & Hold & Hnew). rewrite put_agent_ok by lia. apply wp_ret. split; [by rewrite zlen_upd|]. split.
    + intros j Hj. rewrite aat_upd_ne by lia. by apply Hold.
    + intros j Hj. unfold next_in. destruct (decide (j = i)) as [->|]; [by rewrite aat_upd_eq by lia|]. rewrite aat_upd_ne by lia. apply Hnew. lia.
  - intros d (Hl & Hold & Hnew). rewrite put_agent_ok by lia. apply wp_ret, HQ; [by rewrite zlen_upd| |].
    + intros i Hi. rewrite aat_upd_ne by lia. by apply Hold.
    + intros i Hi. unfold next_in. destruct (Hnew i Hi) as [Hm Hn]. case Z.eqb_spec; intros Hii.
      * subst i. by rewrite aat_upd_eq by lia.
      * rewrite aat_upd_ne by lia. by split; [|exact Hn].
Qed.

Lemma ref_agents_create_ok mpi :
  wp (ref_agents_create mpi) (fun '(st, r) => st = REF_SUCCESS /\ agents_wf r [] (seqZ 0 10) /\ agents_mpi r = mpi).
Proof.
  unfold ref_agents_create. apply wp_bind, wp_link_agents; [lia|rewrite zlen_alloc; lia|]. intros a Hl _ Hnew. apply wp_ret.
  split; [done|]. split; [|done]. rewrite zlen_alloc in Hl by lia. constructor; cbn [agents_max agents_agent agents_n agents_last agents_blank]; try done.
  - by exists REF_EMPTY.
  - apply (chain_linked _ 0 10); [lia|]. intros j Hj. by apply Hnew.
  - intros id Hid. by apply not_elem_of_nil in Hid.
  - intros id Hid%elem_of_seqZ. apply Hnew. lia.
Qed.

(** As many agents as can be active before [max] grows out of range. *)
Definition agents_budget : Z := 800000000.

Lemma agents_grow_ok r l bl :
  agents_wf r l bl -> zlen l <= agents_budget ->
  wp (agents_grow r) (fun r' => exists id bl', agents_wf r' l (id :: bl') /\ agents_mpi r' = agents_mpi r /\
    forall x, x ∈ l -> (agents_agent r').[x] = (agents_agent r).[x]).
Proof.
  intros Hwf Hroom. unfold agents_grow. pose proof (aw_max _ _ _ Hwf) as Hm. pose proof (aw_len _ _ _ Hwf) as Hl.
  pose proof (aw_unused _ _ _ Hwf) as Hch. case Z.eqb_spec; intros Hb.
  - assert (bl = []) as ->.
    { destruct bl as [|id bl]; [done|]. destruct Hch as [Hid _]. assert (0 <= id < agents_max r) by (apply (agent_ids _ _ _ Hwf); right; set_solver).
      unfold REF_EMPTY in *. lia. }
    pose proof (aw_ids _ _ _ Hwf) as Hids. rewrite app_nil_r in Hids. apply Permutation_length in Hids as Hlen.
    assert (Hn : zlen l = agents_max r) by (pose proof (zlen_zrange (agents_max r) ltac:(lia)); unfold zlen in *; lia).
    pose proof (half_more_bounds (agents_max r) ltac:(lia)) as Hh. pose proof (half_more_double (agents_max r) ltac:(lia)) as Hh2.
    unfold agents_budget in Hroom. apply wp_bind, wp_ck_int; [unfold REF_INT_MIN, REF_INT_MAX; lia|].
    set (max := agents_max r + Z.max 5000 (half_more (agents_max r))).
    assert (Hmax : agents_max r < max <= REF_INT_MAX) by (unfold max, REF_INT_MAX; lia).
    apply wp_bind, wp_ck_int; [unfold REF_INT_MIN; lia|]. apply wp_bind, wp_link_agents; [lia|rewrite zlen_realloc; lia|].
    rewrite zlen_realloc by lia. intros a Hla Hold Hnew. apply wp_ret. exists (agents_max r), (seqZ (agents_max r + 1) (max - (agents_max r + 1))).
    assert (Hcons : agents_max r :: seqZ (agents_max r + 1) (max - (agents_max r + 1)) = seqZ (agents_max r) (max - agents_max r)).
    { rewrite (seqZ_cons (agents_max r)) by lia. f_equal. f_equal; lia. }
    rewrite Hcons. assert (Hsame : forall x, x ∈ l -> a.[x] = (agents_agent r).[x]).
    { intros x Hx. pose proof (agent_active_range _ _ _ Hwf x Hx) as Hr. rewrite Hold by lia. rewrite aat_realloc by lia. done. }
    split; [|done]. constructor; cbn; try done; [lia| | | | | |].
    + rewrite Hids. apply NoDup_Permutation; [|apply NoDup_zrange|].
      * apply NoDup_app. split; [apply NoDup_zrange|]. split; [|apply NoDup_seqZ]. intros x Hx%elem_of_zrange Hx'%elem_of_seqZ. lia.
      * intros x. rewrite elem_of_app, !elem_of_zrange, elem_of_seqZ. lia.
    + apply Hwf.
    + destruct (aw_active _ _ _ Hwf) as [first Hs]. exists first. eapply segment_ext; [|exact Hs]. intros x Hx. unfold next_in, previous_in.
      by rewrite Hsame.
    + apply chain_linked; [lia|]. intros j Hj. by apply Hnew.
    + intros id Hid. rewrite Hsame by done. by apply (aw_mode _ _ _ Hwf).
    + intros id Hid%elem_of_seqZ. apply Hnew. lia.
  - apply wp_ret. destruct bl as [|id bl]; [done|]. by exists id, bl.
Qed.

(** ** Starting and ending an agent *)

(** An assignment to a neighbour, where there is one. *)
Lemma wp_update_neighbour r id f : (id <> REF_EMPTY -> 0 <= id < zlen (agents_agent r)) ->
  wp (if negb (REF_EMPTY =? id) then update_agent id f r else Some r) (fun r' => exists a, r' = set_agents_agent a r /\
    zlen a = zlen (agents_agent r) /\ forall x, 0 <= x < zlen (agents_agent r) ->
      a.[x] = if (x =? id) && negb (REF_EMPTY =? id) then f (agents_agent r).[x] else (agents_agent r).[x]).
Proof.
  intros Hid. case Z.eqb_spec; intros He; cbn [negb].
  - apply wp_ret. exists (agents_agent r). split; [by destruct r|]. split; [done|]. intros x Hx. by rewrite andb_false_r.
  - rewrite update_agent_ok by (apply Hid; by intros ->). apply wp_ret. eexists. split; [reflexivity|]. split; [by rewrite zlen_upd|].
    intros x Hx. rewrite andb_true_r. case Z.eqb_spec; intros Hx'; [subst x; by rewrite aat_upd_eq|].
    rewrite aat_upd_ne; [done|apply Hid; by intros ->|lia|done].
Qed.

Lemma ref_agents_new_ok r l bl :
  agents_wf r l bl -> zlen l <= agents_budget ->
  wp (ref_agents_new r) (fun '(st, (id, r')) => st = REF_SUCCESS /\ id ∉ l /\ (exists bl', agents_wf r' (l ++ [id]) bl') /\
    agents_mpi r' = agents_mpi r /\ forall x, x ∈ l -> carried (agents_agent r').[x] = carried (agents_agent r).[x]).
Proof.
  intros Hwf Hroom. unfold ref_agents_new. apply wp_bind. eapply wp_mono; [by apply (agents_grow_ok r l bl)|].
  intros r1 (id & bl' & Hwf1 & Hmpi & Hsame). pose proof (aw_unused _ _ _ Hwf1) as [Hb Hch]. cbv zeta. rewrite Hb.
  pose proof (agent_ids_nodup _ _ _ Hwf1) as Hnd. apply NoDup_app in Hnd as (Hndl & Hapart & [Hidb Hndb]%NoDup_cons).
  assert (Hid : 0 <= id < agents_max r1) by (apply (agent_ids _ _ _ Hwf1); right; set_solver). pose proof (aw_len _ _ _ Hwf1) as Hl.
  assert (Hidl : id ∉ l) by (intros Hx; apply (Hapart id Hx); set_solver).
  pose proof (agents_last_of _ _ _ Hwf1) as Hlast. destruct (aw_active _ _ _ Hwf1) as [first Hseg].
  set (a := agents_agent r1) in *.
  apply wp_bind. unfold agent. apply wp_aget; [fold a; lia|]. fold a.
  (* the last agent gets the new one as its next *)
  assert (Hlastin : agents_last r1 <> REF_EMPTY -> agents_last r1 ∈ l)
    by (rewrite Hlast; destruct (last l) eqn:Hz; [by apply last_Some_elem_of in Hz|done]).
  apply wp_bind. eapply wp_mono; [apply (wp_update_neighbour (set_agents_blank (agent_next a.[id]) r1) (agents_last r1))|].
  { intros He. by apply (agent_active_range _ _ _ Hwf1), Hlastin. }
  cbn [set_agents_blank agents_agent]. fold a.
  intros r2 (a2 & -> & Hl2 & Ha2). apply wp_bind. rewrite update_agent_ok by (cbn; lia). apply wp_ret. cbv zeta.
  cbn [set_agents_agent set_agents_blank set_agents_last agents_n agents_max agents_blank agents_last agents_agent agents_mpi].
  pose proof (aw_n _ _ _ Hwf1) as Hn. apply wp_bind, wp_ck_int; [rewrite Hn; pose proof (zlen_nonneg l); unfold agents_budget, REF_INT_MIN, REF_INT_MAX in *; lia|].
  apply wp_ret. split; [done|]. split; [done|].
  set (a3 := upd a2 id _). set (r3 := set_agents_n _ _).
  assert (Ha3 : forall x, 0 <= x < zlen a -> x <> id -> a3.[x] = if (x =? agents_last r1) && negb (REF_EMPTY =? agents_last r1) then set_agent_next id a.[x] else a.[x]).
  { intros x Hx Hne. unfold a3. rewrite aat_upd_ne by lia. by apply Ha2. }
  assert (Ha3l : forall x, x ∈ l -> previous_in a3 x = previous_in a x /\ agent_mode a3.[x] = agent_mode a.[x] /\ carried a3.[x] = carried a.[x] /\
    next_in a3 x = if x =? agents_last r1 then id else next_in a x).
  { intros x Hx. pose proof (agent_active_range _ _ _ Hwf1 x Hx) as Hxr. fold a in Hxr. unfold previous_in, next_in. rewrite Ha3 by (done || by intros ->).
    case Z.eqb_spec; intros Hxl; cbn [andb]; [|done]. destruct (Z.eqb_spec REF_EMPTY (agents_last r1)); cbn [negb]; [unfold REF_EMPTY in *; lia|done]. }
  assert (Ha3b : forall x, x ∈ bl' -> a3.[x] = a.[x]).
  { intros x Hx. assert (Hxr : 0 <= x < agents_max r1) by (apply (agent_ids _ _ _ Hwf1); right; set_solver).
    rewrite Ha3 by (lia || by intros ->). destruct (Z.eqb_spec x (agents_last r1)) as [->|]; [|done]. cbn [andb].
    destruct (Z.eqb_spec REF_EMPTY (agents_last r1)) as [|He]; [done|]. exfalso.
    apply (Hapart (agents_last r1)); [apply Hlastin; by intros Hx'; rewrite Hx' in He|set_solver]. }
  assert (Hidv : a3.[id] = set_agent_next REF_EMPTY (set_agent_previous (agents_last r1) (set_agent_mode REF_AGENT_NEW a2.[id]))).
  { unfold a3. by rewrite aat_upd_eq by lia. }
  split; [|split; [done|]; intros x Hx; change (agents_agent r3) with a3; rewrite (proj1 (proj2 (proj2 (Ha3l x Hx)))), <- Hsame by done; done].
  exists bl'. constructor; cbn [r3 set_agents_n set_agents_last set_agents_agent set_agents_blank agents_n agents_max agents_blank agents_last agents_agent].
  - apply Hwf1.
  - unfold a3. rewrite zlen_upd. lia.
  - rewrite <- (aw_ids _ _ _ Hwf1). by rewrite <- app_assoc.
  - rewrite zlen_app, Hn. done.
  - exists (match l with [] => id | _ => first end). apply segment_app. exists (agents_last r1), id. split.
    + eapply segment_set_after; [done| |]; [eapply segment_ext; [|exact Hseg]|].
      * intros x Hx. split; [reflexivity|]. by apply Ha3l.
      * intros x Hx. by apply Ha3l.
    + cbn. split; [done|]. unfold previous_in, next_in. rewrite Hidv. done.
  - eapply chain_ext; [|exact Hch]. intros x Hx. unfold next_in. by rewrite Ha3b.
  - intros x [Hx| ->%list_elem_of_singleton]%elem_of_app; [|by rewrite Hidv]. rewrite (proj1 (proj2 (Ha3l x Hx))). by apply (aw_mode _ _ _ Hwf1).
  - intros x Hx. rewrite Ha3b by done. apply (aw_mode_unused _ _ _ Hwf1). set_solver.
Qed.

Lemma ref_agents_push_ok r l bl node part seed xyz :
  agents_wf r l bl -> zlen l <= agents_budget ->
  wp (ref_agents_push r node part seed xyz) (fun '(st, (id, r')) => st = REF_SUCCESS /\ id ∉ l /\ (exists bl', agents_wf r' (l ++ [id]) bl') /\
    agents_mpi r' = agents_mpi r /\ (forall x, x ∈ l -> carried (agents_agent r').[x] = carried (agents_agent r).[x]) /\
    exists a : REF_AGENT D, carried (agents_agent r').[id] = carried (pushed (ref_mpi_rank (agents_mpi r)) node part seed xyz a)).
Proof.
  intros Hwf Hroom. unfold ref_agents_push. apply wp_bind. eapply wp_mono; [by apply (ref_agents_new_ok r l bl)|].
  intros [st [id r1]] (-> & Hid & (bl' & Hwf1) & Hmpi & Hsame). cbn [RSS].
  assert (Hin : id ∈ l ++ [id]) by set_solver. pose proof (agent_active_range _ _ _ Hwf1 _ Hin) as Hr.
  apply wp_bind. rewrite update_agent_ok by done. apply wp_ret, wp_ret. split; [done|]. split; [done|].
  split; [exists bl'; by apply agents_wf_carry|]. split; [done|]. cbn [agents_agent set_agents_agent]. split.
  - intros x Hx. pose proof (agent_active_range _ _ _ Hwf1 x ltac:(set_solver)). rewrite aat_upd_ne by (lia || by intros ->). by apply Hsame.
  - exists (agents_agent r1).[id]. by rewrite aat_upd_eq, Hmpi.
Qed.

Lemma ref_agents_remove_invalid r l bl id : agents_wf r l bl -> id ∉ l -> ref_agents_remove r id = Some (REF_INVALID, r).
Proof.
  intros Hwf Hid. unfold ref_agents_remove. destruct (Z.ltb_spec id 0); [done|]. destruct (Z.leb_spec (agents_max r) id); [done|]. cbn [orb].
  unfold agent. rewrite aget_aat by (rewrite (aw_len _ _ _ Hwf); lia). cbn [obind].
  rewrite (agent_valid_ok _ _ _ Hwf), bool_decide_eq_false_2 by (done || lia). done.
Qed.

(** The links around an active agent. *)
Lemma links_around r l1 id l2 bl :
  agents_wf r (l1 ++ id :: l2) bl ->
  let a := agents_agent r in
  previous_in a id = default REF_EMPTY (last l1) /\ next_in a id = default REF_EMPTY (head l2) /\
  (exists first, segment (next_in a) (previous_in a) REF_EMPTY first (previous_in a id) id l1) /\
  segment (next_in a) (previous_in a) id (next_in a id) (agents_last r) REF_EMPTY l2.
Proof.
  intros Hwf a. destruct (aw_active _ _ _ Hwf) as [first Hs]. apply segment_app in Hs as (m & n & Hs1 & -> & Hp & Hs2).
  pose proof (segment_last _ _ _ _ _ _ _ Hs1) as Hm. pose proof (segment_first _ _ _ _ _ _ _ Hs2) as Hn.
  fold a in Hp, Hs1, Hs2, Hn. rewrite Hp. split; [done|]. split; [done|]. split; [by exists first|done].
Qed.

(** The state after the links around [id] have been closed. *)
Lemma agents_wf_unlink r l1 id l2 bl a' :
  agents_wf r (l1 ++ id :: l2) bl ->
  let a := agents_agent r in
  let p := previous_in a id in
  let n := next_in a id in
  zlen a' = zlen a -> agent_mode a'.[id] = REF_AGENT_UNUSED -> next_in a' id = agents_blank r ->
  (forall x, 0 <= x < zlen a -> x <> id -> agent_mode a'.[x] = agent_mode a.[x] /\
    next_in a' x = (if (x =? p) && negb (REF_EMPTY =? p) then n else next_in a x) /\
    previous_in a' x = (if (x =? n) && negb (REF_EMPTY =? n) then p else previous_in a x)) ->
  agents_wf (mkREF_AGENTS (agents_n r - 1) (agents_max r) id (if agents_last r =? id then p else agents_last r) a' (agents_mpi r))
    (l1 ++ l2) (id :: bl).
Proof.
  intros Hwf a p n Hl' Hm' Hn' Hval. pose proof (links_around r l1 id l2 bl Hwf) as (Hp & Hn & (first & Hs1) & Hs2).
  fold a in Hp, Hn, Hs1, Hs2. fold p in Hp, Hs1. fold n in Hn, Hs2. pose proof (agent_ids_nodup _ _ _ Hwf) as (Hndl & Hapart & Hndb)%NoDup_app.
  pose proof Hndl as (Hnd1 & Ha12 & [Hid2 Hnd2]%NoDup_cons)%NoDup_app. pose proof (aw_len _ _ _ Hwf) as Hl. fold a in Hl.
  pose proof (agent_active_range _ _ _ Hwf) as Hrange. fold a in Hrange.
  assert (Hid1 : id ∉ l1) by (intros Hx; apply (Ha12 id Hx); set_solver).
  assert (Hpin : p <> REF_EMPTY -> p ∈ l1) by (rewrite Hp; destruct (last l1) eqn:E; [by apply last_Some_elem_of in E|done]).
  assert (Hnin : n <> REF_EMPTY -> n ∈ l2) by (rewrite Hn; destruct l2; [done|set_solver]).
  assert (H1 : forall x, x ∈ l1 -> next_in a' x = (if x =? p then n else next_in a x) /\ previous_in a' x = previous_in a x).
  { intros x Hx. pose proof (Hrange x ltac:(set_solver)) as Hxr. destruct (Hval x Hxr ltac:(by intros ->)) as (_ & -> & ->).
    destruct (Z.eqb_spec x p), (Z.eqb_spec REF_EMPTY p), (Z.eqb_spec x n), (Z.eqb_spec REF_EMPTY n); cbn [andb negb]; try done;
      unfold REF_EMPTY in *; try lia; exfalso; apply (Ha12 x Hx), elem_of_cons; right; replace x with n by lia; apply Hnin; lia. }
  assert (H2 : forall x, x ∈ l2 -> next_in a' x = next_in a x /\ previous_in a' x = if x =? n then p else previous_in a x).
  { intros x Hx. pose proof (Hrange x ltac:(set_solver)) as Hxr. destruct (Hval x Hxr ltac:(by intros ->)) as (_ & -> & ->).
    destruct (Z.eqb_spec x p), (Z.eqb_spec REF_EMPTY p), (Z.eqb_spec x n), (Z.eqb_spec REF_EMPTY n); cbn [andb negb]; try done;
      unfold REF_EMPTY in *; try lia; exfalso; (apply (Ha12 x); [replace x with p by lia; apply Hpin; lia|apply elem_of_cons; by right]). }
  constructor; cbn [agents_max agents_agent agents_n agents_last agents_blank]; fold a.
  - apply Hwf.
  - lia.
  - rewrite <- (aw_ids _ _ _ Hwf), <- !app_assoc. cbn. by rewrite Permutation_middle.
  - rewrite (aw_n _ _ _ Hwf), !zlen_app, zlen_cons. lia.
  - exists (match l1 with [] => n | _ => first end). apply segment_app. exists p, n. split.
    + eapply segment_set_after; [done| |intros x Hx; by apply H1]. eapply segment_ext; [|exact Hs1]. intros x Hx. split; [reflexivity|]. by apply H1.
    + assert (Hlast : (if agents_last r =? id then p else agents_last r) = match l2 with [] => p | _ => agents_last r end).
      { pose proof (segment_last _ _ _ _ _ _ _ Hs2) as He. destruct l2 as [|y l2]; [cbn in He; by rewrite He, Z.eqb_refl|].
        case Z.eqb_spec; [|done]. intros Hlid. exfalso. apply Hid2. rewrite <- Hlid, He.
        destruct (last (y :: l2)) as [z|] eqn:Hz; [by apply last_Some_elem_of in Hz|by apply last_None in Hz]. }
      rewrite Hlast. eapply segment_set_before; [done| |intros x Hx; by apply H2]. eapply segment_ext; [|exact Hs2].
      intros x Hx. split; [by apply H2|reflexivity].
  - split; [done|]. rewrite Hn'. eapply chain_ext; [|apply (aw_unused _ _ _ Hwf)]. fold a. intros x Hx.
    assert (Hxr : 0 <= x < zlen a) by (rewrite Hl; apply (agent_ids _ _ _ Hwf); by right).
    assert (Hxl : x ∉ l1 ++ id :: l2) by (intros Hy; by apply (Hapart x)). destruct (Hval x Hxr ltac:(intros ->; set_solver)) as (_ & -> & _).
    destruct (Z.eqb_spec x p), (Z.eqb_spec REF_EMPTY p); cbn [andb negb]; try done. exfalso. apply Hxl. subst x. apply elem_of_app. left. apply Hpin. lia.
  - intros x Hx. assert (Hxl : x ∈ l1 ++ id :: l2) by set_solver. destruct (Hval x (Hrange x Hxl)) as (-> & _); [intros ->; set_solver|].
    by apply (aw_mode _ _ _ Hwf).
  - intros x [->|Hx]%elem_of_cons; [done|]. assert (Hxr : 0 <= x < zlen a) by (rewrite Hl; apply (agent_ids _ _ _ Hwf); by right).
    assert (Hxl : x ∉ l1 ++ id :: l2) by (intros Hy; by apply (Hapart x)). destruct (Hval x Hxr ltac:(intros ->; set_solver)) as (-> & _).
    by apply (aw_mode_unused _ _ _ Hwf).
Qed.

Lemma ref_agents_remove_ok r l1 id l2 bl :
  agents_wf r (l1 ++ id :: l2) bl ->
  wp (ref_agents_remove r id) (fun '(st, r') => st = REF_SUCCESS /\ agents_wf r' (l1 ++ l2) (id :: bl) /\ agents_mpi r' = agents_mpi r /\
    agents_max r' = agents_max r /\
    forall x, 0 <= x < agents_max r -> x <> id -> carried (agents_agent r').[x] = carried (agents_agent r).[x]).
Proof.
  intros Hwf. pose proof (links_around r l1 id l2 bl Hwf) as (Hp & Hn & _). cbv zeta in Hp, Hn. pose proof (aw_len _ _ _ Hwf) as Hl.
  pose proof (agents_wf_unlink r l1 id l2 bl) as Hunlink. cbv zeta in Hunlink. set (a := agents_agent r) in *.
  set (p := previous_in a id) in *. set (n := next_in a id) in *. pose proof (agent_active_range _ _ _ Hwf) as Hrange. fold a in Hrange.
  assert (Hid : 0 <= id < zlen a) by (apply Hrange; set_solver).
  assert (Hndl : NoDup (l1 ++ id :: l2)) by (pose proof (agent_ids_nodup _ _ _ Hwf) as (? & _)%NoDup_app; done).
  apply NoDup_app in Hndl as (_ & Ha12 & _).
  assert (Hpin : p <> REF_EMPTY -> p ∈ l1) by (rewrite Hp; destruct (last l1) eqn:E; [by apply last_Some_elem_of in E|done]).
  assert (Hnin : n <> REF_EMPTY -> n ∈ l2) by (rewrite Hn; destruct l2; [done|set_solver]).
  unfold ref_agents_remove, agent. destruct (Z.ltb_spec id 0); [lia|]. destruct (Z.leb_spec (agents_max r) id); [lia|]. cbn [orb].
  fold a. rewrite aget_aat by done. cbn [obind]. unfold a at 1. rewrite (agent_valid_ok _ _ _ Hwf) by lia.
  rewrite bool_decide_eq_true_2 by set_solver. cbn [negb]. fold a. fold (previous_in a id). fold p.
  set (last' := if agents_last r =? id then p else agents_last r).
  replace (if agents_last r =? id then set_agents_last p r else r) with (set_agents_last last' r)
    by (unfold last'; destruct (agents_last r =? id); [done|by destruct r]).
  cbn [set_agents_last agents_agent]. fold a. rewrite aget_aat by done. cbn [obind]. fold (previous_in a id). fold (next_in a id). fold p n.
  apply wp_bind. eapply wp_mono; [apply (wp_update_neighbour (set_agents_last last' r) p (set_agent_next n))|].
  { intros He. apply Hrange. apply Hpin in He. set_solver. }
  cbn [set_agents_last agents_agent]. fold a. intros r2 (a2 & -> & Hl2 & Ha2). cbn [set_agents_agent agents_agent]. rewrite aget_aat by lia. cbn [obind].
  assert (Ha2id : a2.[id] = a.[id]).
  { rewrite Ha2 by done. destruct (Z.eqb_spec id p) as [Hip|]; [|done]. destruct (Z.eqb_spec REF_EMPTY p) as [|He]; [done|].
    exfalso. apply (Ha12 id); [rewrite Hip; apply Hpin; by intros Hx; rewrite Hx in He|set_solver]. }
  rewrite Ha2id. fold (previous_in a id). fold (next_in a id). fold p n. apply wp_bind.
  eapply wp_mono; [apply (wp_update_neighbour (set_agents_agent a2 (set_agents_last last' r)) n (set_agent_previous p))|].
  { cbn [set_agents_agent agents_agent]. rewrite Hl2. intros He. apply Hrange. apply Hnin in He. set_solver. }
  cbn [set_agents_agent agents_agent]. rewrite Hl2. intros r3 (a3 & -> & Hl3 & Ha3).
  apply wp_bind. rewrite update_agent_ok by (cbn; lia). apply wp_ret. cbv zeta.
  cbn [set_agents_agent set_agents_blank set_agents_last agents_n agents_max agents_blank agents_last agents_agent agents_mpi].
  pose proof (aw_n _ _ _ Hwf) as Hcount. pose proof (aw_max _ _ _ Hwf). pose proof (zlen_nonneg (l1 ++ id :: l2)).
  pose proof (agents_n_range _ _ _ Hwf). apply wp_bind, wp_ck_int; [unfold REF_INT_MIN; lia|]. apply wp_ret. split; [done|].
  set (a4 := upd a3 id _).
  assert (Hid4 : a4.[id] = set_agent_next (agents_blank r) (set_agent_previous REF_EMPTY (set_agent_mode REF_AGENT_UNUSED a3.[id])))
    by (unfold a4; by rewrite aat_upd_eq by lia).
  assert (Ha4 : forall x, 0 <= x < zlen a -> x <> id -> a4.[x] = if (x =? n) && negb (REF_EMPTY =? n) then set_agent_previous p a2.[x] else a2.[x]).
  { intros x Hx Hne. unfold a4. rewrite aat_upd_ne by lia. by apply Ha3. }
  split; [|split; [done|]; split; [done|]].
  - apply (Hunlink a4 Hwf); [unfold a4; rewrite zlen_upd; lia|by rewrite Hid4|unfold next_in; by rewrite Hid4|].
    intros x Hx Hne. unfold next_in, previous_in. rewrite Ha4, Ha2 by done.
    by destruct ((x =? n) && negb (REF_EMPTY =? n)), ((x =? p) && negb (REF_EMPTY =? p)).
  - intros x Hx Hne. cbn [set_agents_n agents_agent]. rewrite Ha4, Ha2 by lia.
    by destruct ((x =? n) && negb (REF_EMPTY =? n)), ((x =? p) && negb (REF_EMPTY =? p)).
Qed.

Lemma agents_delete_loop r l bl node :
  agents_wf r l bl -> 0 <= node ->
  wp (ref_agents_delete r node) (fun '(st, r') => st = REF_SUCCESS /\ agents_mpi r' = agents_mpi r /\
    (exists bl', agents_wf r' (filter (fun id => agent_node (agents_agent r).[id] <> node) l) bl') /\
    forall x, x ∈ l -> agent_node (agents_agent r).[x] <> node -> carried (agents_agent r').[x] = carried (agents_agent r).[x]).
Proof.
  intros Hwf Hnode. unfold ref_agents_delete. destruct (Z.ltb_spec node 0); [lia|]. pose proof (aw_max _ _ _ Hwf) as Hmax.
  set (kept := fun i id => id < i -> agent_node (agents_agent r).[id] <> node).
  set (left := fun i => filter (kept i) l).
  assert (Hleft : forall i id, id ∈ left i <-> id ∈ l /\ (id < i -> agent_node (agents_agent r).[id] <> node))
    by (intros i id; unfold left; rewrite list_elem_of_filter; naive_solver).
  apply wp_bind. apply (wp_forx_up (fun i r1 => agents_mpi r1 = agents_mpi r /\ agents_max r1 = agents_max r /\ (exists bl1, agents_wf r1 (left i) bl1) /\
    forall x, x ∈ left i -> carried (agents_agent r1).[x] = carried (agents_agent r).[x]) (fun _ => False)); [lia| | | |done].
  - split; [done|]. split; [done|]. split; [|done]. exists bl. unfold left. rewrite filter_all; [done|]. apply Forall_forall. intros id Hid Hlt.
    assert (0 <= id < agents_max r) by (apply (agent_ids _ _ _ Hwf); by left). lia.
  - intros i r1 Hi (Hmpi & Hmx & (bl1 & Hwf1) & Hsame). unfold agent. apply wp_bind, wp_aget; [rewrite (aw_len _ _ _ Hwf1); lia|].
    rewrite (agent_valid_ok _ _ _ Hwf1) by lia. case_bool_decide as Hin.
    + assert (Hnd : agent_node (agents_agent r1).[i] = agent_node (agents_agent r).[i]) by exact (f_equal agent_node (Hsame i Hin)). rewrite Hnd.
      case Z.eqb_spec; intros He.
      * pose proof Hin as Hin'. apply list_elem_of_split in Hin' as (l1 & l2 & Hl12). rewrite Hl12 in Hwf1.
        pose proof (agent_ids_nodup _ _ _ Hwf1) as (Hndl & _)%NoDup_app. apply wp_bind.
        eapply wp_mono; [by apply (ref_agents_remove_ok r1 l1 i l2 bl1)|]. intros [st r2] (-> & Hwf2 & Hmpi2 & Hmx2 & Hsame2). apply wp_ret.
        assert (Hl2 : left (i + 1) = l1 ++ l2).
        { transitivity (filter (fun id => id <> i) (left i)).
          - unfold left. rewrite list_filter_filter. apply list_filter_iff. intros id. unfold kept. split.
            + intros Hk. split; [intros ->; lia|intros; apply Hk; lia].
            + intros [Hne Hk] Hlt. apply Hk. lia.
          - rewrite Hl12, filter_app, filter_cons_False by naive_solver. apply NoDup_app in Hndl as (_ & Hx & [Hy _]%NoDup_cons).
            f_equal; apply filter_all, Forall_forall; intros id Hid ->; [apply (Hx i Hid); set_solver|done]. }
        cbn. split; [congruence|]. split; [congruence|]. rewrite Hl2. split; [by exists (i :: bl1)|]. intros x Hx.
        rewrite Hsame2; [apply Hsame; rewrite Hl12; set_solver| |].
        -- apply (agent_ids _ _ _ Hwf1). left. set_solver.
        -- intros ->. apply NoDup_app in Hndl as (_ & Hx1 & [Hy _]%NoDup_cons). apply elem_of_app in Hx as [Hx|Hx]; [apply (Hx1 i Hx); set_solver|done].
      * apply wp_ret. cbn. assert (Hl2 : left (i + 1) = left i).
        { apply list_filter_iff. intros id. unfold kept. split; [intros Hk Hlt; apply Hk; lia|]. intros Hk Hlt.
          destruct (decide (id = i)) as [->|]; [by intros Hx|]. apply Hk. lia. }
        rewrite Hl2. split; [done|]. split; [done|]. split; [by exists bl1|done].
    + apply wp_ret. cbn. assert (Hl2 : left (i + 1) = left i).
      { unfold left in *. rewrite list_elem_of_filter in Hin. apply filter_iff_in. intros id Hid. unfold kept. split; [intros Hk Hlt; apply Hk; lia|].
        intros Hk Hlt. destruct (decide (id = i)) as [->|]; [|apply Hk; lia]. exfalso. apply Hin. split; [unfold kept; lia|done]. }
      rewrite Hl2. split; [done|]. split; [done|]. split; [by exists bl1|done].
  - intros r1 (Hmpi & Hmx & (bl1 & Hwf1) & Hsame). apply wp_ret. split; [done|]. split; [done|].
    assert (Hall : left (agents_max r) = filter (fun id => agent_node (agents_agent r).[id] <> node) l).
    { apply filter_iff_in. intros id Hid. unfold kept. assert (0 <= id < agents_max r) by (apply (agent_ids _ _ _ Hwf); by left).
      split; [intros Hk; apply Hk; lia|done]. }
    rewrite <- Hall. split; [by exists bl1|]. intros x Hx Hne. apply Hsame. rewrite Hall. by apply list_elem_of_filter.
Qed.
End ops_ok.

(** ** The stack

    What the calls do to the active agents, each with its index and what it carries. *)
Section stack.
Context {D : Type} `{Inhabited D, Junk (REF_AGENT D)}.
Implicit Types (r : REF_AGENTS D) (s : list (Z * REF_AGENT D)) (xyz : D * D * D).

Inductive agents_command :=
  | AgentsPush (node part seed : Z) (xyz : D * D * D)
  | AgentsRemove (id : Z)
  | AgentsPop
  | AgentsDelete (node : Z).

(** The status, the index, and what is popped. *)
Definition agents_output : Type := REF_STATUS * Z * option (Z * Z * Z * (D * D * D)).

Definition agents_exec (c : agents_command) r : option (agents_output * REF_AGENTS D) :=
  match c with
  | AgentsPush node part seed xyz => let* '(st, (id, r)) := ref_agents_push r node part seed xyz in Some ((st, id, None), r)
  | AgentsRemove id => let* '(st, r) := ref_agents_remove r id in Some ((st, 0, None), r)
  | AgentsPop => let* '(st, (out, r)) := ref_agents_pop r in Some ((st, 0, out), r)
  | AgentsDelete node => let* '(st, r) := ref_agents_delete r node in Some ((st, 0, None), r)
  end.

Inductive agents_step (rank : Z) : agents_command -> list (Z * REF_AGENT D) -> agents_output -> list (Z * REF_AGENT D) -> Prop :=
  | step_push node part seed xyz s id a : id ∉ map fst s ->
      agents_step rank (AgentsPush node part seed xyz) s (REF_SUCCESS, id, None) (s ++ [(id, carried (pushed rank node part seed xyz a))])
  | step_remove id a s1 s2 : id ∉ map fst (s1 ++ s2) -> agents_step rank (AgentsRemove id) (s1 ++ (id, a) :: s2) (REF_SUCCESS, 0, None) (s1 ++ s2)
  | step_remove_none id s : id ∉ map fst s -> agents_step rank (AgentsRemove id) s (REF_INVALID, 0, None) s
  | step_pop id a s : agents_step rank AgentsPop (s ++ [(id, a)])
      (REF_SUCCESS, 0, Some (agent_node a, agent_part a, agent_seed a, agent_xyz a)) s
  | step_pop_none : agents_step rank AgentsPop [] (REF_NOT_FOUND, 0, None) []
  | step_delete node s : 0 <= node ->
      agents_step rank (AgentsDelete node) s (REF_SUCCESS, 0, None) (filter (fun x => agent_node x.2 <> node) s)
  | step_delete_none node s : node < 0 -> agents_step rank (AgentsDelete node) s (REF_INVALID, 0, None) s.

(** The stack a state holds. *)
Definition stack_of r (l : list Z) : list (Z * REF_AGENT D) := map (fun id => (id, carried (agents_agent r).[id])) l.

Definition agents_sim (rank k : Z) r s : Prop :=
  zlen s + k <= agents_budget /\ ref_mpi_rank (agents_mpi r) = rank /\ exists l bl, agents_wf r l bl /\ s = stack_of r l.

Lemma stack_ids r l : map fst (stack_of r l) = l.
Proof. unfold stack_of. rewrite map_map. apply map_id. Qed.

Lemma stack_ext r r' l : (forall x, x ∈ l -> carried (agents_agent r').[x] = carried (agents_agent r).[x]) -> stack_of r' l = stack_of r l.
Proof. intros Hx. apply map_ext_in. intros id Hid%list_elem_of_In. by rewrite Hx. Qed.

Lemma zlen_stack r l : zlen (stack_of r l) = zlen l.
Proof. apply zlen_map. Qed.

Lemma agents_exec_push rank k r s node part seed xyz :
  0 <= k -> agents_sim rank (k + 1) r s ->
  wp (agents_exec (AgentsPush node part seed xyz) r) (fun '(o, r') => exists s', agents_step rank (AgentsPush node part seed xyz) s o s' /\ agents_sim rank k r' s').
Proof.
  intros Hk (Hb & Hrank & l & bl & Hwf & ->). rewrite zlen_stack in Hb. apply wp_bind. eapply wp_mono; [apply (ref_agents_push_ok r l bl); [done|lia]|].
  intros [st [id r']] (-> & Hid & (bl' & Hwf') & Hmpi & Hsame & a & Ha). apply wp_ret. eexists. split; [apply (step_push rank node part seed xyz _ id a); by rewrite stack_ids|].
  split; [rewrite zlen_app, zlen_stack; change (zlen [_]) with 1; lia|]. split; [by rewrite Hmpi|]. exists (l ++ [id]), bl'. split; [done|].
  unfold stack_of at 2. rewrite map_app. f_equal; [symmetry; by apply stack_ext|]. cbn [map]. by rewrite Ha, Hrank.
Qed.

Lemma agents_remove_sim rank k r l1 id l2 bl :
  0 <= k -> ref_mpi_rank (agents_mpi r) = rank -> agents_wf r (l1 ++ id :: l2) bl -> zlen (l1 ++ id :: l2) + (k + 1) <= agents_budget ->
  wp (ref_agents_remove r id) (fun '(st, r') => st = REF_SUCCESS /\ agents_sim rank k r' (stack_of r (l1 ++ l2)) /\
    id ∉ map fst (stack_of r (l1 ++ l2))).
Proof.
  intros Hk Hrank Hwf Hb. eapply wp_mono; [by apply (ref_agents_remove_ok r l1 id l2 bl)|]. intros [st r'] (-> & Hwf' & Hmpi & Hmx & Hsame).
  pose proof (agent_ids_nodup _ _ _ Hwf) as ((_ & Hx & [Hy _]%NoDup_cons)%NoDup_app & _)%NoDup_app.
  assert (Hid : id ∉ l1 ++ l2) by (intros [Hl|Hl]%elem_of_app; [apply (Hx id Hl); set_solver|done]).
  split; [done|]. split; [|by rewrite stack_ids]. rewrite zlen_app, zlen_cons in Hb. split; [rewrite zlen_stack, zlen_app; lia|]. split; [by rewrite Hmpi|].
  exists (l1 ++ l2), (id :: bl). split; [done|]. symmetry. apply stack_ext. intros x Hxin. apply Hsame; [|by intros ->].
  apply (agent_ids _ _ _ Hwf). left. set_solver.
Qed.

Lemma agents_exec_remove rank k r s id :
  0 <= k -> agents_sim rank (k + 1) r s ->
  wp (agents_exec (AgentsRemove id) r) (fun '(o, r') => exists s', agents_step rank (AgentsRemove id) s o s' /\ agents_sim rank k r' s').
Proof.
  intros Hk (Hb & Hrank & l & bl & Hwf & ->). rewrite zlen_stack in Hb. apply wp_bind. destruct (decide (id ∈ l)) as [Hin|Hin].
  - apply list_elem_of_split in Hin as (l1 & l2 & ->). eapply wp_mono; [by apply (agents_remove_sim rank k r l1 id l2 bl)|].
    intros [st r'] (-> & Hsim & Hid). apply wp_ret. eexists. split; [|exact Hsim]. unfold stack_of in *. rewrite !map_app in *. cbn [map]. apply step_remove. by rewrite map_app.
  - rewrite (ref_agents_remove_invalid _ _ _ _ Hwf Hin). apply wp_ret, wp_ret. eexists. split; [apply step_remove_none; by rewrite stack_ids|].
    split; [rewrite zlen_stack; lia|]. split; [done|]. by exists l, bl.
Qed.

Lemma agents_exec_pop rank k r s :
  0 <= k -> agents_sim rank (k + 1) r s ->
  wp (agents_exec AgentsPop r) (fun '(o, r') => exists s', agents_step rank AgentsPop s o s' /\ agents_sim rank k r' s').
Proof.
  intros Hk (Hb & Hrank & l & bl & Hwf & ->). rewrite zlen_stack in Hb. apply wp_bind. unfold ref_agents_pop.
  pose proof (agents_last_of _ _ _ Hwf) as Hlast. destruct l as [|id l _] using rev_ind.
  - rewrite Hlast. cbn. apply wp_ret, wp_ret. exists []. split; [constructor|]. split; [change (zlen (@nil (Z * REF_AGENT D))) with 0; change (zlen (@nil Z)) with 0 in Hb; lia|]. split; [done|]. by exists [], bl.
  - rewrite last_snoc in Hlast. cbn in Hlast. pose proof (agent_active_range _ _ _ Hwf id ltac:(set_solver)) as Hr. rewrite Hlast.
    destruct (Z.eqb_spec REF_EMPTY id); [unfold REF_EMPTY in *; lia|]. unfold agent. apply wp_bind, wp_aget; [done|].
    apply wp_bind. eapply wp_mono; [by apply (agents_remove_sim rank k r l id [] bl)|]. intros [st r'] (-> & Hsim & _). cbn [RSS]. apply wp_ret, wp_ret.
    rewrite app_nil_r in Hsim. exists (stack_of r l). split; [|done]. unfold stack_of at 1. rewrite map_app. cbn [map].
    apply (step_pop rank id (carried (agents_agent r).[id])).
Qed.

Lemma agents_exec_delete rank k r s node :
  0 <= k -> agents_sim rank (k + 1) r s ->
  wp (agents_exec (AgentsDelete node) r) (fun '(o, r') => exists s', agents_step rank (AgentsDelete node) s o s' /\ agents_sim rank k r' s').
Proof.
  intros Hk (Hb & Hrank & l & bl & Hwf & ->). rewrite zlen_stack in Hb. apply wp_bind. destruct (decide (node < 0)) as [Hneg|Hpos].
  - unfold ref_agents_delete. destruct (Z.ltb_spec node 0); [|lia]. apply wp_ret, wp_ret. eexists. split; [by constructor|].
    split; [rewrite zlen_stack; lia|]. split; [done|]. by exists l, bl.
  - eapply wp_mono; [apply (agents_delete_loop r l bl node Hwf); lia|]. intros [st r'] (-> & Hmpi & (bl' & Hwf') & Hsame). apply wp_ret.
    eexists. split; [constructor; lia|]. set (l' := filter _ l) in *.
    assert (Hst : filter (fun x => agent_node x.2 <> node) (stack_of r l) = stack_of r' l').
    { transitivity (stack_of r l').
      - unfold stack_of, l'. clear. induction l as [|x l IH]; [done|]. cbn [map]. rewrite !filter_cons. cbn [snd]. change (agent_node (carried (agents_agent r).[x])) with (agent_node (agents_agent r).[x]).
        destruct (decide (agent_node (agents_agent r).[x] <> node)); [cbn [map]; by rewrite IH|exact IH].
      - symmetry. apply stack_ext. intros x Hx. unfold l' in Hx. apply list_elem_of_filter in Hx as [Hne Hx]. by apply Hsame. }
    rewrite Hst. split; [|split; [by rewrite Hmpi|by exists l', bl']]. rewrite zlen_stack.
    pose proof (length_filter (fun id => agent_node (agents_agent r).[id] <> node) l) as Hlen. unfold l', zlen in *. lia.
Qed.

Lemma agents_run_ok mpi cs :
  zlen cs <= agents_budget ->
  exists r0 os r s, ref_agents_create mpi = Some (REF_SUCCESS, r0) /\ run agents_exec cs r0 = Some (os, r) /\
    spec_steps (agents_step (ref_mpi_rank mpi)) cs [] os s /\ exists l bl, agents_wf r l bl /\ s = stack_of r l.
Proof.
  intros Hlen. destruct (ref_agents_create_ok mpi) as ([st r0] & Hcr & -> & Hwf & Hmpi).
  destruct (run_simulates agents_exec (agents_step (ref_mpi_rank mpi)) (agents_sim (ref_mpi_rank mpi)) (fun _ => True) cs r0 [])
    as (os & r & s & Hrun & Hsteps & (_ & _ & Hrep)).
  - intros [node part seed xyz|id| |node] r s k _; [apply agents_exec_push|apply agents_exec_remove|apply agents_exec_pop|apply agents_exec_delete].
  - by apply Forall_forall.
  - split; [done|]. split; [by rewrite Hmpi|]. by exists [], (seqZ 0 10).
  - by exists r0, os, r, s.
Qed.

(** Starting an agent again changes what it carries and leaves the others. *)
Lemma ref_agents_restart_ok r l bl part seed id :
  agents_wf r l bl -> id ∈ l ->
  exists r', ref_agents_restart r part seed id = Some (REF_SUCCESS, r') /\ agents_wf r' l bl /\
    stack_of r' l = map (fun x => if x.1 =? id then (id, carried (restarted part seed x.2)) else x) (stack_of r l).
Proof.
  intros Hwf Hid. pose proof (agent_active_range _ _ _ Hwf id Hid) as Hr. unfold ref_agents_restart. rewrite update_agent_ok by done. cbn [obind].
  eexists. split; [reflexivity|]. split; [by apply agents_wf_carry|]. unfold stack_of. rewrite map_map. apply map_ext_in. intros x Hx%list_elem_of_In.
  pose proof (agent_active_range _ _ _ Hwf x Hx) as Hxr. cbn [fst snd agents_agent set_agents_agent]. case Z.eqb_spec; intros Hxi.
  - subst x. by rewrite aat_upd_eq.
  - by rewrite aat_upd_ne by lia.
Qed.
End stack.

(** C38. Any sequence of up to 800,000,000 calls of [ref_agents_push], [ref_agents_remove],
    [ref_agents_pop] and [ref_agents_delete] on fresh [REF_AGENTS] is defined (every access is
    in bounds, every loop ends, no [int] overflows) and does to the active agents what the same
    calls do to a stack: a push puts a walking agent under an unused index on top, a pop gives
    back the node, part, seed and coordinates of the top one, a removal takes one agent out of
    the middle, a deletion those of a node, and every other agent keeps its index, its place
    and what it carries. The links in both directions and the list of unused agents agree with
    the stack afterwards. *)
Theorem ref_agents_refines {D : Type} `{Inhabited D, Junk (REF_AGENT D)} (mpi : REF_MPI) (cs : list (@agents_command D)) :
  zlen cs <= agents_budget ->
  exists r0 os r s, ref_agents_create mpi = Some (REF_SUCCESS, r0) /\ run agents_exec cs r0 = Some (os, r) /\
    spec_steps (agents_step (ref_mpi_rank mpi)) cs [] os s /\ exists l bl, agents_wf r l bl /\ s = stack_of r l.
Proof. apply agents_run_ok. Qed.

(** Agents with integers for coordinates, on process 1 of 2. *)
Module AgentsExample.
#[local] Instance junk_agent : Junk (REF_AGENT Z) := fun _ => inhabitant.
Definition mpi : REF_MPI := mkREF_MPI 2 1 0.
Definition commands : list (@agents_command Z) :=
  [AgentsPush 4 0 7 (1, 2, 3); AgentsPush 5 1 8 (4, 5, 6); AgentsPush 4 1 9 (7, 8, 9); AgentsPush 6 0 2 (0, 1, 0);
   AgentsRemove 1; AgentsRemove 1; AgentsDelete 4; AgentsPush 3 0 0 (2, 2, 2); AgentsPop; AgentsPop; AgentsPop].
End AgentsExample.

#[local] Existing Instance AgentsExample.junk_agent.
Lemma ref_agents_refines_witness :
  zlen AgentsExample.commands <= agents_budget /\
  exists r0 os r s, ref_agents_create AgentsExample.mpi = Some (REF_SUCCESS, r0) /\
    run agents_exec AgentsExample.commands r0 = Some (os, r) /\
    os = [(REF_SUCCESS, 0, None); (REF_SUCCESS, 1, None); (REF_SUCCESS, 2, None); (REF_SUCCESS, 3, None);
          (REF_SUCCESS, 0, None); (REF_INVALID, 0, None); (REF_SUCCESS, 0, None); (REF_SUCCESS, 2, None);
          (REF_SUCCESS, 0, Some (3, 0, 0, (2, 2, 2))); (REF_SUCCESS, 0, Some (6, 0, 2, (0, 1, 0))); (REF_NOT_FOUND, 0, None)] /\
    spec_steps (agents_step 1) AgentsExample.commands [] os s.
Proof.
  split; [vm_compute; congruence|].
  destruct (ref_agents_refines AgentsExample.mpi AgentsExample.commands) as (r0 & os & r & s & Hcr & Hrun & Hsteps & _); [vm_compute; congruence|].
  exists r0, os, r, s. split; [exact Hcr|]. split; [exact Hrun|]. split; [|exact Hsteps].
  assert (Hall : (let* '(_, r0) := ref_agents_create AgentsExample.mpi in
    let* '(os, _) := run agents_exec AgentsExample.commands r0 in Some os) = Some os) by (by rewrite Hcr; cbn [obind]; rewrite Hrun).
  vm_compute in Hall. congruence.
Defined.
