(* ===== verification/RefGlobals.v ===== *)
(** * ref_node.c: the global numbering of the processes of a parallel run

    Between two synchronisations every process numbers the vertices that it makes on
    its own, from [old_n_global] on, and keeps the numbers of those that it removes.
    [ref_node_synchronize_globals] puts the new ranges one after another and closes the
    gaps. It is run by all processes at once: a definition on a list of [REF_NODE], one
    for each rank. What happens between two collective calls concerns one process only
    ([everywhere]); what all compute from the same values is computed once. *)
From S2P Require Import Prelude RefSort RefDbl Bytes RefMpi RefNode.
From stdpp Require Import prelude list sorting gmap.
From Stdlib Require Import ZArith Lia.
Open Scope Z_scope.
Open Scope ref_scope.

(** ** The collective calls of MPI

    What every process receives when the processes contribute the entries of the
    list. *)
Class MPI := {
  MPI_Allgather : list Z -> list Z;
  MPI_Allgatherv : list Z -> list (list Z) -> list Z
}.
(** What the standard says of them: the contributions in the order of the ranks. *)
Class MPILaws `{MPI} := {
  allgather_spec scalars : MPI_Allgather scalars = scalars;
  allgatherv_spec counts arrays :
    Forall2 (fun count a => 0 <= count <= zlen a) counts arrays ->
    MPI_Allgatherv counts arrays = concat (zip_with ztake counts arrays)
}.

Section calls.
Context `{MPI}.

(** [array] on every process; the list has the [scalar] of each. *)
Definition ref_mpi_allgather (scalars : list Z) : option (REF_STATUS * list Z) :=
  if 1 <? zlen scalars then Some (REF_SUCCESS, MPI_Allgather scalars)
  else let* scalar := aget scalars 0 in Some (REF_SUCCESS, [scalar]).

Definition ref_mpi_allgatherv (counts : list Z) (local_arrays : list (list Z)) : option (REF_STATUS * list Z) :=
  if 1 <? zlen local_arrays then Some (REF_SUCCESS, MPI_Allgatherv counts local_arrays)
  else
    let* count := aget counts 0 in
    let* local_array := aget local_arrays 0 in
    if count <=? zlen local_array then Some (REF_SUCCESS, ztake count local_array) else None.
End calls.

(** One step of every process. When some processes return from the function and others
    wait for them in a collective call, the run does not go on. *)
Definition agreed (statuses : list REF_STATUS) : option REF_STATUS :=
  match statuses with
  | [] => Some REF_SUCCESS
  | st :: rest => if forallb (fun st' => bool_decide (st' = st)) rest then Some st else None
  end.
Definition everywhere {A} (f : A -> option (REF_STATUS * A)) (w : list A) : option (REF_STATUS * list A) :=
  let* results := mapM f w in
  let* st := agreed (map fst results) in
  Some (st, map snd results).

Section globals.
Context {D : Type} `{MPI, Junk Z}.
Implicit Types (r : REF_NODE D) (w : list (REF_NODE D)).

(** ** ref_node_shift_new_globals *)

(** The sum of [counts] from [lo] to [hi - 1] *)
Definition sum_counts (counts : list Z) (lo hi : Z) : option Z :=
  for_up lo hi (fun proc s => let* k := aget counts proc in ck_glob (s + k)) 0.

Definition shift_valid_globals r (offset : Z) : option (REF_NODE D) :=
  for_up 0 (node_max r) (fun node r =>
    let* v := ref_node_valid r node in
    if v : bool then
      let* g := ref_node_global r node in
      if node_old_n_global r <=? g then
        let* g := aget (node_global r) node in
        let* g := ck_glob (g + offset) in
        let* global := aset (node_global r) node g in
        Some (set_node_global global r)
      else Some r
    else Some r) r.

Definition shift_sorted_globals r (offset : Z) : option (REF_NODE D) :=
  let* sorted_global :=
    loop (S (Z.to_nat (node_n r))) (fun '(node, sorted_global) =>
      if 0 <=? node then
        let* g := aget sorted_global node in
        if node_old_n_global r <=? g then
          let* g := ck_glob (g + offset) in
          let* sorted_global := aset sorted_global node g in
          Some (Next (node - 1, sorted_global))
        else Some (Exit sorted_global)
      else Some (Exit sorted_global)) (node_n r - 1, node_sorted_global r) in
  Some (set_node_sorted_global sorted_global r).

(** One process, after the exchange. *)
Definition shift_new_globals_here (everyones_new_nodes : list Z) r : option (REF_STATUS * REF_NODE D) :=
  let ref_mpi := node_mpi r in
  let* offset := sum_counts everyones_new_nodes 0 (ref_mpi_rank ref_mpi) in
  let* total_new_nodes := sum_counts everyones_new_nodes 0 (ref_mpi_n ref_mpi) in
  let* '(st, r) :=
    if negb (0 =? offset) then
      let* r := shift_valid_globals r offset in
      let* r := shift_sorted_globals r offset in
      ref_node_shift_unused r (node_old_n_global r) offset
    else Some (REF_SUCCESS, r) in
  RSS st r (
  let* n_global := ck_glob (total_new_nodes + node_old_n_global r) in
  Some (ref_node_initialize_n_global r n_global)).

Definition ref_node_shift_new_globals w : option (REF_STATUS * list (REF_NODE D)) :=
  let* new_nodes :=
    mapM (fun r =>
      let* k := ck_glob (node_new_n_global r - node_old_n_global r) in
      Some (wrap 32 k)) w in
  let* '(st, everyones_new_nodes) := ref_mpi_allgather new_nodes in
  RSS st w (
  everywhere (shift_new_globals_here everyones_new_nodes) w).

(** ** ref_node_eliminate_unused_globals *)

Definition sort_unused_here r : option (REF_STATUS * REF_NODE D) :=
  let* '(st, unused) := ref_sort_in_place_glob (node_n_unused r) (node_unused_global r) in
  Some (st, set_node_unused_global unused r).

(** The two loops that fill [active_counts], and the sum. *)
Definition choose_active (n : Z) (counts : list Z) (active0 active1 : Z) : option (list Z * Z) :=
  let* active_counts := for_up 0 n (fun part a => aset a part 0) (alloc n) in
  let* active_counts :=
    for_up active0 active1 (fun part a => let* k := aget counts part in aset a part k) active_counts in
  let* total_active :=
    for_up active0 active1 (fun part s => let* k := aget active_counts part in ck_int (s + k)) 0 in
  Some (active_counts, total_active).

(** One process, after the exchange of the active ones. *)
Definition eliminate_active_here (active0 active1 total_active : Z) (unused : list Z) r : option (REF_STATUS * REF_NODE D) :=
  let rank := ref_mpi_rank (node_mpi r) in
  let r := if (active0 <=? rank) && (rank <? active1) then set_node_n_unused 0 r else r in
  let* '(st, sorted_global) := ref_node_eliminate_unused_offset (node_n r) (node_sorted_global r) total_active unused in
  RSS st r (
  let r := set_node_sorted_global sorted_global r in
  let* '(st, unused_global) :=
    ref_node_eliminate_unused_offset (node_n_unused r) (node_unused_global r) total_active unused in
  RSS st r (
  Some (REF_SUCCESS, set_node_unused_global unused_global r))).

(** The end, on one process. *)
Definition update_globals_here (total_unused : Z) r : option (REF_STATUS * REF_NODE D) :=
  let* global :=
    for_up 0 (node_n r) (fun i global =>
      let* local := aget (node_sorted_local r) i in
      let* g := aget (node_sorted_global r) i in
      aset global local g) (node_global r) in
  let r := set_node_global global r in
  let* n_global := ck_glob (node_old_n_global r - total_unused) in
  Some (ref_node_initialize_n_global r n_global).

(** The body of the loop over the slices of processes. *)
Definition eliminate_active (counts : list Z) (chunk active0 : Z) w : option (REF_STATUS * (Z * list (REF_NODE D))) :=
  let n := zlen w in
  let* '(st, (active1, _)) := ref_node_eliminate_active_parts n counts chunk active0 in
  RSS st (active1, w) (
  let* '(active_counts, total_active) := choose_active n counts active0 active1 in
  let '(st, unused) := ref_malloc (A:=Z) total_active in
  RSS st (active1, w) (
  let* '(st, unused) := ref_mpi_allgatherv active_counts (map node_unused_global w) in
  RSS st (active1, w) (
  let* '(st, unused) := ref_sort_in_place_glob total_active unused in
  RSS st (active1, w) (
  let* '(st, w) := everywhere (eliminate_active_here active0 active1 total_active unused) w in
  Some (st, (active1, w)))))).

Definition ref_node_eliminate_unused_globals w : option (REF_STATUS * list (REF_NODE D)) :=
  let n := zlen w in
  let* '(st, w) := everywhere sort_unused_here w in
  RSS st w (
  let* '(st, counts) := ref_mpi_allgather (map node_n_unused w) in
  RSS st w (
  let* total_unused := sum_counts counts 0 n in
  let chunk := wrap 32 (Z.quot total_unused n + 1) in
  let chunk := Z.max chunk 100000 in
  let* '(st, w) :=
    loop (S (Z.to_nat n)) (fun '(active0, w) =>
      if active0 <? n then
        let* '(st, (active1, w)) := eliminate_active counts chunk active0 w in
        match st with
        | REF_SUCCESS => Some (Next (active1, w))
        | _ => Some (Exit (st, w))
        end
      else Some (Exit (REF_SUCCESS, w))) (0, w) in
  RSS st w (
  everywhere (update_globals_here total_unused) w))).

Definition ref_node_synchronize_globals w : option (REF_STATUS * list (REF_NODE D)) :=
  let* '(st, w) := ref_node_shift_new_globals w in
  RSS st w (ref_node_eliminate_unused_globals w).
End globals.
