(* ===== verification/RefGlobalsSpec.v ===== *)
(** * The global numbering of all processes

    [compact]: closing the gaps of a set of numbers keeps the order of the others and
    makes them 0 to their count less one; done in slices it gives the same. So the
    synchronisation numbers the vertices of all processes without gaps, a shared vertex
    alike everywhere. *)
From S2P Require Import Prelude RefSort RefDbl Bytes RefMpi RefNode RefGlobals.
From stdpp Require Import prelude list sorting gmap.
From Stdlib Require Import ZArith Lia.
Open Scope Z_scope.
Open Scope ref_scope.

(** ** Closing gaps *)

(** The number of [x] once the numbers of [unused] are taken out. *)
Definition compact (unused : list Z) (x : Z) : Z := x - count_below x unused.

Section counting.
Implicit Types (u p q : list Z).

Lemma count_below_app x p q : count_below x (p ++ q) = count_below x p + count_below x q.
Proof. unfold count_below. by rewrite filter_app, zlen_app. Qed.
Lemma count_below_perm x p q : p ≡ₚ q -> count_below x p = count_below x q.
Proof. intros Hp. unfold count_below, zlen. by rewrite Hp. Qed.
Lemma compact_perm p q x : p ≡ₚ q -> compact p x = compact q x.
Proof. intros Hp. unfold compact. by rewrite (count_below_perm x p q Hp). Qed.

(** Distinct numbers between two bounds. *)
Lemma NoDup_between u lo n : NoDup u -> Forall (fun x => lo <= x < lo + n) u -> 0 <= n -> zlen u <= n.
Proof.
  intros Hnd Hr Hn. assert (Hsub : u ⊆+ seqZ lo n).
  { apply NoDup_submseteq; [done|]. intros x Hx. rewrite Forall_forall in Hr. apply elem_of_seqZ. by apply Hr. }
  apply submseteq_length in Hsub. rewrite length_seqZ in Hsub. unfold zlen. lia.
Qed.

Lemma count_between u x y : x <= y ->
  count_below y u = count_below x u + zlen (filter (fun z => x <= z < y) u).
Proof.
  intros Hxy. unfold count_below. induction u as [|z u IH]; [done|]. rewrite !filter_cons.
  repeat case_decide; rewrite ?zlen_cons; lia.
Qed.

Lemma compact_mono u x y : NoDup u -> x ∉ u -> x < y -> compact u x < compact u y.
Proof.
  intros Hnd Hx Hxy. unfold compact. rewrite (count_between u x y) by lia.
  enough (zlen (filter (fun z => x <= z < y) u) <= y - x - 1) by lia.
  apply (NoDup_between _ (x + 1)); [by apply NoDup_filter| |lia].
  apply Forall_forall. intros z [Hz Hin]%list_elem_of_filter. assert (z <> x) by (by intros ->). lia.
Qed.

Lemma compact_lt u x y : NoDup u -> x ∉ u -> y ∉ u -> compact u x < compact u y <-> x < y.
Proof.
  intros Hnd Hx Hy. split; [|by apply compact_mono]. intros Hlt. destruct (Z.lt_total x y) as [|[->|Hyx]]; [done|lia|].
  pose proof (compact_mono u y x Hnd Hy Hyx). lia.
Qed.
Lemma compact_inj u x y : NoDup u -> x ∉ u -> y ∉ u -> compact u x = compact u y <-> x = y.
Proof.
  intros Hnd Hx Hy. split; [|by intros ->]. intros Heq. destruct (Z.lt_total x y) as [Hl|[->|Hl]]; [|done|].
  - pose proof (compact_mono u x y Hnd Hx Hl). lia.
  - pose proof (compact_mono u y x Hnd Hy Hl). lia.
Qed.

(** Two rounds are one. *)
Lemma compact_twice p q x : NoDup (p ++ q) -> x ∉ p ++ q ->
  compact (map (compact p) q) (compact p x) = compact (p ++ q) x.
Proof.
  intros (Hp & Hpq & _)%NoDup_app Hx. assert (Hxp : x ∉ p) by set_solver.
  assert (Hc : count_below (compact p x) (map (compact p) q) = count_below x q).
  { unfold count_below, zlen. f_equal.
    assert (Hq : forall z, z ∈ q -> z ∉ p) by (intros z Hz Hin; by apply (Hpq z)). clear Hpq Hx.
    induction q as [|z q IH]; [done|]. cbn [map]. rewrite !filter_cons.
    pose proof (compact_lt p z x Hp (Hq z ltac:(set_solver)) Hxp) as Hlt.
    assert (Hq' : forall z, z ∈ q -> z ∉ p) by (intros z' Hz'; apply Hq; set_solver).
    do 2 case_decide; try tauto; cbn [length]; by rewrite IH. }
  unfold compact at 1. rewrite Hc. unfold compact. rewrite count_below_app. lia.
Qed.

Lemma compact_range u n x : NoDup u -> Forall (fun z => 0 <= z < n) u -> x ∉ u -> 0 <= x < n ->
  0 <= compact u x < n - zlen u.
Proof.
  intros Hnd Hr Hx Hxn. unfold compact.
  assert (Hlow : count_below x u <= x).
  { apply (NoDup_between _ 0); [by apply NoDup_filter| |lia]. apply Forall_forall. intros z [Hz Hin]%list_elem_of_filter.
    rewrite Forall_forall in Hr. specialize (Hr z Hin). lia. }
  assert (Hhigh : zlen u <= count_below x u + (n - x - 1)).
  { assert (Hall : zlen u = count_below n u).
    { unfold count_below. f_equal. symmetry. apply filter_all. eapply Forall_impl; [exact Hr|]. cbn. lia. }
    rewrite Hall, (count_between u x n) by lia.
    enough (zlen (filter (fun z => x <= z < n) u) <= n - x - 1) by lia.
    apply (NoDup_between _ (x + 1)); [by apply NoDup_filter| |lia].
    apply Forall_forall. intros z [Hz Hin]%list_elem_of_filter. assert (z <> x) by (by intros ->). lia. }
  lia.
Qed.

(** Every number is given out. *)
Lemma compact_onto u n h : NoDup u -> Forall (fun z => 0 <= z < n) u -> 0 <= n ->
  0 <= h < n - zlen u -> exists x, 0 <= x < n /\ x ∉ u /\ compact u x = h.
Proof.
  intros Hnd Hr Hn Hh. set (rest := filter (fun x => x ∉ u) (zrange n)).
  assert (Hlen : zlen rest = n - zlen u).
  { assert (Hin : filter (fun x => x ∈ u) (zrange n) ≡ₚ u).
    { apply NoDup_Permutation; [apply NoDup_filter, NoDup_zrange|done|]. intros x. rewrite list_elem_of_filter, elem_of_zrange.
      rewrite Forall_forall in Hr. split; [tauto|]. intros Hx. split; [done|by apply Hr]. }
    assert (Hsplit : filter (fun x => x ∈ u) (zrange n) ++ rest ≡ₚ zrange n) by (apply filter_split; tauto).
    apply Permutation_length in Hsplit. rewrite length_app, Hin in Hsplit. pose proof (zlen_zrange n Hn) as Hz. unfold zlen in *. lia. }
  assert (Hperm : map (compact u) rest ≡ₚ zrange (n - zlen u)).
  { apply submseteq_length_Permutation.
    - apply NoDup_submseteq.
      + apply NoDup_fmap_2_strong; [|apply NoDup_filter, NoDup_zrange]. intros x y [Hx _]%list_elem_of_filter [Hy _]%list_elem_of_filter.
        by apply compact_inj.
      + intros y (x & -> & [Hx Hxr]%list_elem_of_filter)%list_elem_of_fmap. apply elem_of_zrange.
        apply elem_of_zrange in Hxr. by apply compact_range.
    - rewrite length_map. pose proof (zlen_zrange (n - zlen u) ltac:(lia)) as Hz. unfold zlen in *. lia. }
  assert (Hin : h ∈ map (compact u) rest) by (rewrite Hperm; by apply elem_of_zrange).
  apply list_elem_of_fmap in Hin as (x & -> & [Hx Hxr]%list_elem_of_filter). exists x. apply elem_of_zrange in Hxr. done.
Qed.
End counting.

(** ** Changing the numbers of one process *)

Section relabel.
Context {D : Type}.
Implicit Types (r : REF_NODE D).

Definition live r (g : Z) : Prop := exists i, i ∈ valid_nodes r /\ (node_global r).[i] = g.

(** The numbers in use. *)
Definition globals r : list Z := map (fun i => (node_global r).[i]) (valid_nodes r).
Lemma elem_of_globals r g : g ∈ globals r <-> live r g.
Proof.
  unfold globals, live. change (map ?f ?l) with (f <$> l). rewrite list_elem_of_fmap. split; intros (i & Hi); exists i; naive_solver.
Qed.
Lemma live_map r bl g : node_core r bl -> live r g <-> exists i, node_map r !! g = Some i.
Proof. intros Hc. unfold live. by setoid_rewrite (node_map_lookup r bl). Qed.

(** [r'] is [r] with the numbers [f], the unused numbers [u] and the next number [n]. *)
Record relabelled (f : Z -> Z) (u : list Z) (n : Z) r r' : Prop := {
  rl_wf : node_wf r';
  rl_valid : valid_nodes r' = valid_nodes r;
  rl_global : forall i, i ∈ valid_nodes r -> (node_global r').[i] = f (node_global r).[i];
  rl_unused : node_unused r' = u;
  rl_old : node_old_n_global r' = n;
  rl_new : node_new_n_global r' = n;
  rl_mpi : node_mpi r' = node_mpi r;
  rl_rest : node_max r' = node_max r /\ node_n r' = node_n r /\ node_blank r' = node_blank r /\ node_part r' = node_part r /\
    node_age r' = node_age r /\ node_real r' = node_real r /\ node_aux r' = node_aux r
}.

Definition set_numbers (g sg : list Z) (k : Z) (u : list Z) (n : Z) r : REF_NODE D :=
  set_node_new_n_global n (set_node_old_n_global n (set_node_unused_global u (set_node_n_unused k
    (set_node_sorted_global sg (set_node_global g r))))).

Lemma set_numbers_ok r f g sg k u n :
  node_wf r ->
  zlen g = node_max r -> zlen sg = node_max r -> zlen u = node_max_unused r -> 0 <= k <= node_max_unused r ->
  (forall i, 0 <= i < node_max r -> g.[i] = if decide (i ∈ valid_nodes r) then f (node_global r).[i] else (node_global r).[i]) ->
  (forall p, 0 <= p < node_n r -> sg.[p] = f (node_sorted_global r).[p]) ->
  (forall x y, live r x -> live r y -> x < y -> f x < f y) -> (forall x, live r x -> 0 <= f x) ->
  relabelled f (ztake k u) n r (set_numbers g sg k u n r).
Proof.
  intros Hwf Hzg Hzs Hzu Hk Hg Hsg Hmono Hpos. pose proof Hwf as [[bl Hc] Hs]. pose proof (nc_n_range _ _ Hc) as Hn.
  set (r' := set_numbers g sg k u n r).
  assert (Hneg : forall i, 0 <= i < node_max r -> 0 <= g.[i] <-> 0 <= (node_global r).[i]).
  { intros i Hi. rewrite Hg by done. case_decide as Hv; [|done]. apply elem_of_valid_nodes in Hv as Hv'.
    split; [tauto|]. intros _. apply Hpos. by exists i. }
  assert (Hv : valid_nodes r' = valid_nodes r).
  { unfold valid_nodes. change (node_max r') with (node_max r). change (node_global r') with g.
    apply filter_iff_in. intros i Hi%elem_of_zrange. by apply Hneg. }
  assert (Hgv : forall i, i ∈ valid_nodes r -> g.[i] = f (node_global r).[i]).
  { intros i Hi. apply elem_of_valid_nodes in Hi as Hi'. rewrite Hg by tauto. by rewrite decide_True. }
  assert (Hgn : forall i, 0 <= i < node_max r -> (node_global r).[i] < 0 -> g.[i] = (node_global r).[i]).
  { intros i Hi Hneg'. rewrite Hg by done. rewrite decide_False; [done|]. intros [_ ?]%elem_of_valid_nodes. lia. }
  assert (Hinj : forall x y, live r x -> live r y -> f x = f y -> x = y).
  { intros x y Hx Hy Heq. destruct (Z.lt_total x y) as [Hl|[->|Hl]]; [|done|].
    - specialize (Hmono x y Hx Hy Hl). lia.
    - specialize (Hmono y x Hy Hx Hl). lia. }
  assert (Hwf' : node_wf r').
  { split; [exists bl|].
    - constructor; rewrite ?Hv; try (by destruct Hc).
      + apply (chain_ext (fun i => next2index (node_global r).[i])); [|apply (nc_chain _ _ Hc)].
        intros i Hi. apply (nc_blank _ _ Hc) in Hi as [Hi Hl]. change (node_global r') with g. by rewrite Hgn.
      + intros i. rewrite (nc_blank _ _ Hc). change (node_max r') with (node_max r). change (node_global r') with g.
        split; intros [Hi Hl]; (split; [done|]); [by rewrite Hgn|]. destruct (Z.lt_ge_cases (node_global r).[i] 0) as [|Hge]; [done|].
        apply Hneg in Hge; [lia|done].
      + intros i j Hi Hj. change (node_global r') with g. rewrite !Hgv by done. intros Heq.
        apply (nc_distinct _ _ Hc); [done|done|]. apply Hinj; [by exists i|by exists j|done].
    - constructor; rewrite ?Hv.
      + exact (ns_perm _ Hs).
      + intros p Hp. change (node_n r') with (node_n r) in Hp. change (node_sorted_global r') with sg. change (node_sorted_local r') with (node_sorted_local r).
        change (node_global r') with g.
        assert (Hin : (node_sorted_local r).[p] ∈ valid_nodes r) by (apply ns_elem; [done|rewrite (nc_sorted_local _ _ Hc); lia|done]).
        by rewrite Hsg, Hgv, (ns_global _ Hs) by done.
      + intros p q Hp Hq. change (node_n r') with (node_n r) in Hq. change (node_sorted_global r') with sg.
        assert (Hlive : forall k, 0 <= k < node_n r -> live r (node_sorted_global r).[k]).
        { intros k' Hk'. exists (node_sorted_local r).[k']. split; [apply ns_elem; [done|rewrite (nc_sorted_local _ _ Hc); lia|done]|].
          by rewrite (ns_global _ Hs). }
        rewrite !Hsg by lia. apply Hmono; [apply Hlive; lia|apply Hlive; lia|]. by apply (ns_lt _ Hs). }
  constructor; try done.
Qed.

Lemma relabelled_map f u n r r' h v : node_wf r -> relabelled f u n r r' ->
  node_map r' !! h = Some v <-> exists g, node_map r !! g = Some v /\ h = f g.
Proof.
  intros [[bl Hc] _] Hr. destruct (rl_wf _ _ _ _ _ Hr) as [[bl' Hc'] _].
  rewrite (node_map_lookup r' bl' h v Hc'), (rl_valid _ _ _ _ _ Hr). setoid_rewrite (fun g => node_map_lookup r bl g v Hc). split.
  - intros [Hv <-]. exists (node_global r).[v]. split; [done|]. by apply (rl_global _ _ _ _ _ Hr).
  - intros (g & [Hv <-] & ->). split; [done|]. by apply (rl_global _ _ _ _ _ Hr).
Qed.
End relabel.

(** ** Every process *)

Definition sumZ (l : list Z) : Z := foldr Z.add 0 l.
Lemma sumZ_app l l' : sumZ (l ++ l') = sumZ l + sumZ l'.
Proof. unfold sumZ. induction l as [|x l IH]; cbn; [lia|]. rewrite IH. lia. Qed.
Lemma sumZ_nonneg l : Forall (Z.le 0) l -> 0 <= sumZ l.
Proof. unfold sumZ. induction 1; cbn; lia. Qed.
Lemma sumZ_take_le l n : Forall (Z.le 0) l -> 0 <= sumZ (ztake n l) <= sumZ l.
Proof.
  intros Hl. rewrite <- (take_drop (Z.to_nat n) l) at 3. fold (ztake n l). rewrite sumZ_app.
  pose proof (sumZ_nonneg (ztake n l) (Forall_take _ _ _ Hl)). pose proof (sumZ_nonneg (drop (Z.to_nat n) l) (Forall_drop _ _ _ Hl)). lia.
Qed.
Lemma sumZ_take_S l n : 0 <= n < zlen l -> sumZ (ztake (n + 1) l) = sumZ (ztake n l) + l.[n].
Proof. intros Hn. rewrite ztake_S, sumZ_app by done. cbn. lia. Qed.

Lemma sum_counts_ok counts hi :
  0 <= hi <= zlen counts -> Forall (Z.le 0) counts -> sumZ counts <= REF_LONG_MAX ->
  wp (sum_counts counts 0 hi) (fun s => s = sumZ (ztake hi counts)).
Proof.
  intros Hhi Hpos Hmax. apply (wp_for_up (fun i s => s = sumZ (ztake i counts))); [lia|done| |done].
  intros i s Hi ->. apply wp_bind, wp_aget; [lia|]. pose proof (sumZ_take_le counts (i + 1) Hpos) as Hb. rewrite sumZ_take_S in Hb by lia.
  apply wp_ck_glob; [unfold REF_LONG_MIN, REF_LONG_MAX in *; lia|]. by rewrite sumZ_take_S by lia.
Qed.

Lemma agreed_success l : Forall (fun st => st = REF_SUCCESS) l -> agreed l = Some REF_SUCCESS.
Proof.
  destruct 1 as [|st l -> Hl]; [done|]. cbn [agreed]. replace (forallb _ l) with true; [done|]. symmetry. apply forallb_forall.
  intros st' Hin. rewrite Forall_forall in Hl. apply bool_decide_eq_true_2, Hl. by apply list_elem_of_In.
Qed.

(** All succeed: [Q] says what happens at each rank. *)
Lemma everywhere_ok {A} (f : A -> option (REF_STATUS * A)) w (Q : nat -> A -> A -> Prop) :
  (forall i r, w !! i = Some r -> wp (f r) (fun '(st, r') => st = REF_SUCCESS /\ Q i r r')) ->
  wp (everywhere f w) (fun '(st, w') => st = REF_SUCCESS /\ length w' = length w /\
    forall i r, w !! i = Some r -> exists r', w' !! i = Some r' /\ Q i r r').
Proof.
  intros Hf. unfold everywhere. apply wp_bind.
  apply (wp_mono (fun results => Forall (fun x => x.1 = REF_SUCCESS) results /\ length results = length w /\
    forall i r, w !! i = Some r -> exists x, results !! i = Some x /\ Q i r x.2)).
  - revert Q Hf. induction w as [|r w IH]; intros Q Hf; cbn [mapM]; [by apply wp_ret|].
    destruct (Hf 0%nat r eq_refl) as ([st r'] & -> & -> & Hr). cbn [mbind option_bind].
    destruct (IH (fun i => Q (S i))) as (results & -> & Hst & Hlen & Hres); [intros i x Hi; by apply (Hf (S i))|]. cbn [mbind option_bind mret option_ret].
    apply wp_ret. split; [by apply Forall_cons|]. split; [cbn; lia|]. intros [|i] x Hx; [|by apply Hres]. injection Hx as <-. by exists (REF_SUCCESS, r').
  - intros results (Hst & Hlen & Hres). rewrite agreed_success by (by apply Forall_map). cbn [obind]. apply wp_ret.
    split; [done|]. split; [by rewrite length_map|]. intros i r Hr. destruct (Hres i r Hr) as (x & Hx & HQ). exists x.2. split; [|done].
    change (map snd results) with (snd <$> results). by rewrite list_lookup_fmap, Hx.
Qed.

(** ** The new ranges one after another *)

Definition shifted (n off x : Z) : Z := if n <=? x then x + off else x.
Lemma shifted_mono n off x y : 0 <= off -> x < y -> shifted n off x < shifted n off y.
Proof. intros Ho Hl. unfold shifted. destruct (Z.leb_spec n x), (Z.leb_spec n y); lia. Qed.
Lemma shifted_0 n x : shifted n 0 x = x.
Proof. unfold shifted. destruct (n <=? x); lia. Qed.

Section shift.
Context {D : Type} `{MPI, Junk Z}.
Implicit Types (r : REF_NODE D).

Lemma shift_valid_globals_ok r off :
  node_wf r -> 0 <= off -> (forall x, live r x -> x + off <= REF_LONG_MAX) ->
  wp (shift_valid_globals r off) (fun r' => exists g, r' = set_node_global g r /\ zlen g = node_max r /\
    forall i, 0 <= i < node_max r -> g.[i] =
      if decide (i ∈ valid_nodes r) then shifted (node_old_n_global r) off (node_global r).[i] else (node_global r).[i]).
Proof.
  intros [[bl Hc] _] Ho Hmax. pose proof (nc_max _ _ Hc) as Hm. pose proof (nc_global _ _ Hc) as Hzg.
  apply (wp_for_up (fun i r' => exists g, r' = set_node_global g r /\ zlen g = node_max r /\
    (forall j, 0 <= j < i -> g.[j] =
      if decide (j ∈ valid_nodes r) then shifted (node_old_n_global r) off (node_global r).[j] else (node_global r).[j]) /\
    forall j, i <= j < node_max r -> g.[j] = (node_global r).[j])); [lia| | |].
  - exists (node_global r). split; [by destruct r|]. split; [done|]. split; [lia|done].
  - intros i r' Hi (g & -> & Hz & Hdone & Hrest).
    assert (Hval : ref_node_valid (set_node_global g r) i = Some (0 <=? (node_global r).[i])).
    { unfold ref_node_valid. cbn [node_max node_global set_node_global]. rewrite (proj2 (Z.ltb_lt (-1) i)), (proj2 (Z.ltb_lt i _)) by lia. cbn [andb].
      rewrite aget_aat by lia. cbn [obind]. by rewrite Hrest by lia. }
    unfold ref_node_global. rewrite Hval. cbn [obind].
    assert (Hkeep : forall b, (b = false -> i ∉ valid_nodes r \/ (node_global r).[i] < node_old_n_global r) -> b = false ->
      exists g', set_node_global g r = set_node_global g' r /\ zlen g' = node_max r /\
      (forall j, 0 <= j < i + 1 -> g'.[j] =
        if decide (j ∈ valid_nodes r) then shifted (node_old_n_global r) off (node_global r).[j] else (node_global r).[j]) /\
      forall j, i + 1 <= j < node_max r -> g'.[j] = (node_global r).[j]).
    { intros b Hb Hfalse. exists g. split; [done|]. split; [done|]. split; [|intros j Hj; apply Hrest; lia].
      intros j Hj. destruct (decide (j = i)) as [->|]; [|apply Hdone; lia]. rewrite Hrest by lia. case_decide as Hv; [|done].
      destruct (Hb Hfalse) as [|Hlt]; [done|]. unfold shifted. by rewrite (proj2 (Z.leb_gt _ _)). }
    case Z.leb_spec; intros Hg.
    + assert (Hv : i ∈ valid_nodes r) by (apply elem_of_valid_nodes; lia). cbn [node_global set_node_global node_old_n_global].
      apply wp_bind, wp_aget; [lia|]. rewrite Hrest by lia. case Z.leb_spec; intros Hold.
      * apply wp_bind, wp_aget; [lia|]. rewrite Hrest by lia. specialize (Hmax (node_global r).[i] ltac:(by exists i)).
        apply wp_bind, wp_ck_glob; [unfold REF_LONG_MIN in *; lia|]. apply wp_bind, wp_aset; [lia|]. apply wp_ret.
        exists (upd g i ((node_global r).[i] + off)). split; [done|]. split; [by rewrite zlen_upd|]. split; intros j Hj; rewrite aat_upd by lia.
        -- case Z.eqb_spec; intros Hij; [|apply Hdone; lia]. subst j. rewrite decide_True by done. unfold shifted. by rewrite (proj2 (Z.leb_le _ _)).
        -- rewrite (proj2 (Z.eqb_neq _ _)) by lia. apply Hrest. lia.
      * apply wp_ret. apply (Hkeep false); [by right|done].
    + apply wp_ret. apply (Hkeep false); [|done]. left. intros [_ ?]%elem_of_valid_nodes. lia.
  - intros r' (g & -> & Hz & Hdone & _). exists g. by split.
Qed.

Lemma shift_sorted_globals_ok r off :
  node_wf r -> 0 <= off -> (forall x, live r x -> x + off <= REF_LONG_MAX) ->
  forall g, wp (shift_sorted_globals (set_node_global g r) off) (fun r' => exists sg,
    r' = set_node_sorted_global sg (set_node_global g r) /\ zlen sg = node_max r /\
    forall p, 0 <= p < node_n r -> sg.[p] = shifted (node_old_n_global r) off (node_sorted_global r).[p]).
Proof.
  intros [[bl Hc] Hs] Ho Hmax g. pose proof (nc_n_range _ _ Hc) as Hn. pose proof (nc_sorted_global _ _ Hc) as Hzs.
  set (s0 := node_sorted_global r) in *. set (N := node_old_n_global r).
  assert (Hasc : ascending (node_n r) s0) by by apply ns_ascending.
  assert (Hlive : forall p, 0 <= p < node_n r -> live r s0.[p]).
  { intros p Hp. exists (node_sorted_local r).[p]. split; [apply ns_elem; [done|rewrite (nc_sorted_local _ _ Hc); lia|done]|].
    unfold s0. by rewrite (ns_global _ Hs). }
  unfold shift_sorted_globals. cbn [node_n node_sorted_global node_old_n_global set_node_global]. fold s0 N. apply wp_bind.
  apply (wp_mono (fun sg => zlen sg = node_max r /\ forall p, 0 <= p < node_n r -> sg.[p] = shifted N off s0.[p])).
  2: { intros sg [Hz Hp]. apply wp_ret. by exists sg. }
  apply (wp_loop (fun '(node, sg) => -1 <= node < node_n r /\ zlen sg = node_max r /\
    (forall p, node < p < node_n r -> sg.[p] = shifted N off s0.[p]) /\
    forall p, 0 <= p <= node -> sg.[p] = s0.[p]) (fun '(node, _) => node + 1)).
  - split; [lia|]. split; [done|]. split; [lia|done].
  - lia.
  - intros [node sg] (? & _). lia.
  - intros [node sg] (Hr & Hz & Hdone & Hrest). case Z.leb_spec; intros Hnode.
    + apply wp_bind, wp_aget; [lia|]. rewrite Hrest by lia. case Z.leb_spec; intros Hold.
      * specialize (Hmax s0.[node] (Hlive node ltac:(lia))). destruct (Hlive node ltac:(lia)) as (j & [_ Hj]%elem_of_valid_nodes & Hgj).
        apply wp_bind, wp_ck_glob; [unfold REF_LONG_MIN in *; lia|]. apply wp_bind, wp_aset; [lia|]. apply wp_ret.
        split; [|lia]. split; [lia|]. split; [by rewrite zlen_upd|]. split; intros p Hp; rewrite aat_upd by lia.
        -- case Z.eqb_spec; intros Hpn; [|apply Hdone; lia]. subst p. unfold shifted. by rewrite (proj2 (Z.leb_le _ _)).
        -- rewrite (proj2 (Z.eqb_neq _ _)) by lia. apply Hrest. lia.
      * apply wp_ret. split; [done|]. intros p Hp. destruct (decide (node < p)) as [Hlt|Hge]; [apply Hdone; lia|].
        rewrite Hrest by lia. specialize (Hasc p node ltac:(lia) ltac:(lia)). unfold shifted. by rewrite (proj2 (Z.leb_gt _ _)) by lia.
    + apply wp_ret. split; [done|]. intros p Hp. apply Hdone. lia.
Qed.

Lemma ref_node_shift_unused_ok r n off :
  0 <= node_n_unused r <= zlen (node_unused_global r) -> 0 <= off ->
  Forall (fun x => 0 <= x /\ x + off <= REF_LONG_MAX) (node_unused r) ->
  wp (ref_node_shift_unused r n off) (fun '(st, r') => st = REF_SUCCESS /\ exists u,
    r' = set_node_unused_global u r /\ zlen u = zlen (node_unused_global r) /\
    ztake (node_n_unused r) u = map (shifted n off) (node_unused r)).
Proof.
  intros Hn Ho Hr. rewrite Forall_forall in Hr. unfold ref_node_shift_unused. apply wp_bind.
  assert (Hin : forall i, 0 <= i < node_n_unused r -> 0 <= (node_unused_global r).[i] /\ (node_unused_global r).[i] + off <= REF_LONG_MAX).
  { intros i Hi. apply Hr. unfold node_unused. apply elem_of_ztake; [lia|]. by exists i. }
  apply (wp_for_up (fun i u => zlen u = zlen (node_unused_global r) /\
    (forall j, 0 <= j < i -> u.[j] = shifted n off (node_unused_global r).[j]) /\
    forall j, i <= j < node_n_unused r -> u.[j] = (node_unused_global r).[j])); [lia| | |].
  - split; [done|]. split; [lia|done].
  - intros i u Hi (Hz & Hdone & Hrest). apply wp_bind, wp_aget; [lia|]. rewrite Hrest by lia. specialize (Hin i Hi). case Z.leb_spec; intros Hg.
    + apply wp_bind, wp_ck_glob; [unfold REF_LONG_MIN in *; lia|]. apply wp_aset; [lia|]. split; [by rewrite zlen_upd|].
      split; intros j Hj; rewrite aat_upd by lia.
      * case Z.eqb_spec; intros Hji; [|apply Hdone; lia]. subst j. unfold shifted. by rewrite (proj2 (Z.leb_le _ _)).
      * rewrite (proj2 (Z.eqb_neq _ _)) by lia. apply Hrest. lia.
    + apply wp_ret. split; [done|]. split; [|intros j Hj; apply Hrest; lia]. intros j Hj. destruct (decide (j = i)) as [->|]; [|apply Hdone; lia].
      rewrite Hrest by lia. unfold shifted. by rewrite (proj2 (Z.leb_gt _ _)).
  - intros u (Hz & Hdone & _). apply wp_ret. split; [done|]. exists u. split; [done|]. split; [done|].
    unfold node_unused. apply arr_ext; [by rewrite zlen_map, !zlen_ztake by lia|]. intros i Hi. rewrite zlen_ztake in Hi by lia.
    rewrite aat_map by (rewrite zlen_ztake; lia). rewrite !aat_ztake by lia. by apply Hdone.
Qed.
End shift.

Section shift_here.
Context {D : Type} `{MPI, Junk Z}.
Implicit Types (r : REF_NODE D).

Lemma shift_new_globals_here_ok r everyones :
  let off := sumZ (ztake (ref_mpi_rank (node_mpi r)) everyones) in
  let n := node_old_n_global r in
  node_wf r -> 0 <= ref_mpi_rank (node_mpi r) <= zlen everyones -> ref_mpi_n (node_mpi r) = zlen everyones ->
  Forall (Z.le 0) everyones -> 0 <= n -> n + sumZ everyones <= REF_LONG_MAX ->
  (forall x, live r x \/ x ∈ node_unused r -> 0 <= x /\ x + off <= REF_LONG_MAX) ->
  wp (shift_new_globals_here everyones r) (fun '(st, r') => st = REF_SUCCESS /\
    relabelled (shifted n off) (map (shifted n off) (node_unused r)) (sumZ everyones + n) r r').
Proof.
  intros off n Hwf Hrank Hn Hpos Hn0 Htotal Hrange. pose proof Hwf as [[bl Hc] Hs].
  pose proof (nc_unused _ _ Hc) as Hu. pose proof (nc_unused_global _ _ Hc) as Hzu.
  pose proof (sumZ_take_le everyones (ref_mpi_rank (node_mpi r)) Hpos) as Hoff. fold off in Hoff.
  unfold shift_new_globals_here. rewrite Hn. apply wp_bind. eapply wp_mono; [apply sum_counts_ok; [lia|done|lia]|]. intros o ->. fold off.
  apply wp_bind. eapply wp_mono; [apply sum_counts_ok; [pose proof (zlen_nonneg everyones); lia|done|lia]|]. intros total ->. rewrite ztake_full.
  apply wp_bind.
  apply (wp_mono (fun '(st, r1) => st = REF_SUCCESS /\ node_old_n_global r1 = n /\ forall m,
    relabelled (shifted n off) (map (shifted n off) (node_unused r)) m r (set_node_new_n_global m (set_node_old_n_global m r1)))).
  2: { intros [st r1] (-> & Hold & Hr). cbn [RSS]. rewrite Hold. apply wp_bind, wp_ck_glob; [unfold REF_LONG_MIN in *; lia|].
    apply wp_ret. split; [done|]. apply Hr. }
  case Z.eqb_spec; intros Hz; cbn [negb].
  - apply wp_ret. split; [done|]. split; [done|]. intros m. rewrite <- Hz.
    replace (map (shifted n 0) (node_unused r)) with (node_unused r).
    2: { symmetry. rewrite <- (map_id (node_unused r)) at 2. apply map_ext. apply shifted_0. }
    apply (set_numbers_ok r (shifted n 0) (node_global r) (node_sorted_global r) (node_n_unused r) (node_unused_global r) m);
      try (done || apply Hc).
    + intros i Hi. rewrite shifted_0. by case_decide.
    + intros p Hp. by rewrite shifted_0.
    + intros x y _ _. by rewrite !shifted_0.
    + intros x Hx. rewrite shifted_0. apply Hrange. by left.
  - apply wp_bind. eapply wp_mono; [apply shift_valid_globals_ok; [done|lia|intros x Hx; apply Hrange; by left]|].
    intros r1 (g & -> & Hzg & Hg). apply wp_bind.
    eapply wp_mono; [apply shift_sorted_globals_ok; [done|lia|intros x Hx; apply Hrange; by left]|].
    intros r2 (sg & -> & Hzs & Hsg).
    eapply wp_mono; [apply ref_node_shift_unused_ok; cbn; [lia|lia|]|].
    { apply Forall_forall. intros x Hx. apply Hrange. right. exact Hx. }
    intros [st r3] (-> & u & -> & Hzu' & Hu'). split; [done|]. split; [done|]. intros m.
    cbn [node_n_unused set_node_sorted_global set_node_global node_old_n_global node_unused_global] in *.
    change (node_unused (set_node_sorted_global sg (set_node_global g r))) with (node_unused r) in Hu'. fold n in Hu'. rewrite <- Hu'.
    apply (set_numbers_ok r (shifted n off) g sg (node_n_unused r) u m); [done|done|done|lia|lia|exact Hg|exact Hsg| |].
    + intros x y _ _. apply shifted_mono. lia.
    + intros x Hx. destruct (Hrange x) as [? _]; [by left|]. unfold shifted. destruct (n <=? x); lia.
Qed.
End shift_here.

(** ** The run *)

Section world.
Context {D : Type}.
Implicit Types (r : REF_NODE D) (w : list (REF_NODE D)).

Definition fresh r : Z := node_new_n_global r - node_old_n_global r.
(** The number that the vertex [x] of the process [i] gets when the ranges of the new
    ones are put one after another from [n] on. *)
Definition number (n : Z) w (i : nat) (x : Z) : Z := shifted n (sumZ (map fresh (take i w))) x.
Definition all_live n w : list Z := concat (imap (fun i r => map (number n w i) (globals r)) w).
Definition all_unused n w : list Z := concat (imap (fun i r => map (number n w i) (node_unused r)) w).
Definition span n w : Z := n + sumZ (map fresh w).

(** The processes agree on the numbers below [n]: each number is in use, maybe on
    several processes, or one of them has it as unused; a new number is so on the process that
    gave it out. *)
Record world_ok (n : Z) w : Prop := {
  wo_size : 1 <= zlen w <= REF_INT_MAX;
  wo_mpi : forall i r, w !! i = Some r -> ref_mpi_rank (node_mpi r) = Z.of_nat i /\ ref_mpi_n (node_mpi r) = zlen w;
  wo_node : forall i r, w !! i = Some r -> node_wf r;
  wo_start : 0 <= n;
  wo_new : forall i r, w !! i = Some r -> node_old_n_global r = n /\ 0 <= fresh r <= REF_INT_MAX;
  wo_total : span n w <= REF_LONG_MAX;
  wo_few : 2 * sumZ (map node_n_unused w) <= REF_INT_MAX;
  wo_range : forall i r, w !! i = Some r -> Forall (fun x => 0 <= x < node_new_n_global r) (globals r ++ node_unused r);
  wo_unused : NoDup (all_unused n w);
  wo_cover : forall x, 0 <= x < span n w -> x ∈ all_unused n w <-> x ∉ all_live n w
}.

Lemma world_range n w i r x : world_ok n w -> w !! i = Some r -> live r x \/ x ∈ node_unused r -> 0 <= x < node_new_n_global r.
Proof.
  intros Hw Hi Hx. pose proof (wo_range _ _ Hw i r Hi) as Hr. rewrite Forall_forall in Hr. apply Hr, elem_of_app.
  destruct Hx as [?|?]; [left; by apply elem_of_globals|by right].
Qed.

Lemma map_fresh_nonneg n w : world_ok n w -> Forall (Z.le 0) (map fresh w).
Proof.
  intros Hw. apply Forall_map, Forall_forall. intros r (i & Hi)%list_elem_of_lookup. cbn.
  by destruct (wo_new _ _ Hw i r Hi) as [_ [? _]].
Qed.

(** The numbers of the process [i] end where those of the next begin. *)
Lemma offset_bound n w i r : world_ok n w -> w !! i = Some r ->
  0 <= sumZ (map fresh (take i w)) /\ node_new_n_global r + sumZ (map fresh (take i w)) <= span n w.
Proof.
  intros Hw Hi. pose proof (map_fresh_nonneg n w Hw) as Hpos. destruct (wo_new _ _ Hw i r Hi) as [Hold _].
  assert (Hsplit : w = take i w ++ r :: drop (S i) w) by (by rewrite take_drop_middle).
  assert (Hsum : sumZ (map fresh w) = sumZ (map fresh (take i w)) + (fresh r + sumZ (map fresh (drop (S i) w)))).
  { rewrite Hsplit at 1. by rewrite map_app, sumZ_app. }
  assert (Hpos' : Forall (Z.le 0) (map fresh (take i w)) /\ Forall (Z.le 0) (map fresh (drop (S i) w))).
  { rewrite Hsplit, map_app, Forall_app in Hpos. cbn [map] in Hpos. destruct Hpos as [? [_ ?]%Forall_cons]. done. }
  destruct Hpos' as [H1 H2]. apply sumZ_nonneg in H1, H2. unfold span, fresh in *. lia.
Qed.
End world.

Section shift_all.
Context {D : Type} `{MPI, !MPILaws, Junk Z}.
Implicit Types (r : REF_NODE D) (w : list (REF_NODE D)).

Lemma ref_mpi_allgather_ok l : l <> [] -> wp (ref_mpi_allgather l) (fun '(st, a) => st = REF_SUCCESS /\ a = l).
Proof.
  intros Hl. unfold ref_mpi_allgather. case Z.ltb_spec; intros Hz; [apply wp_ret; by rewrite allgather_spec|].
  destruct l as [|x [|y l]]; [done| |unfold zlen in Hz; cbn in Hz; lia]. apply wp_ret. done.
Qed.

Lemma wp_mapM {A B} (f : A -> option B) (g : A -> B) l : (forall x, x ∈ l -> f x = Some (g x)) -> mapM f l = Some (map g l).
Proof.
  induction l as [|x l IH]; intros Hf; [done|]. cbn [mapM map]. rewrite Hf by set_solver. cbn [mbind option_bind].
  rewrite IH by (intros y Hy; apply Hf; set_solver). done.
Qed.

Lemma ref_node_shift_new_globals_ok n w :
  world_ok n w ->
  wp (ref_node_shift_new_globals w) (fun '(st, w') => st = REF_SUCCESS /\ length w' = length w /\
    forall i r, w !! i = Some r -> exists r', w' !! i = Some r' /\
      relabelled (number n w i) (map (number n w i) (node_unused r)) (span n w) r r').
Proof.
  intros Hw. pose proof (wo_size _ _ Hw) as Hsz. unfold ref_node_shift_new_globals. rewrite (wp_mapM _ fresh).
  2: { intros r (i & Hi)%list_elem_of_lookup. destruct (wo_new _ _ Hw i r Hi) as [_ Hf]. unfold fresh in *.
    unfold ck_glob. rewrite (proj2 (Z.leb_le _ _)), (proj2 (Z.leb_le _ (REF_LONG_MAX))) by (unfold REF_LONG_MIN, REF_LONG_MAX, REF_INT_MAX in *; lia).
    cbn [andb obind]. rewrite int_in_range; [done|unfold REF_INT_MIN, REF_INT_MAX in *; lia]. }
  cbn [obind]. apply wp_bind. eapply wp_mono; [apply ref_mpi_allgather_ok|].
  { destruct w; [unfold zlen in Hsz; cbn in Hsz; lia|done]. }
  intros [st everyones] [-> ->]. cbn [RSS]. apply (everywhere_ok _ w (fun i r r' =>
    relabelled (number n w i) (map (number n w i) (node_unused r)) (span n w) r r')).
  intros i r Hi. destruct (wo_mpi _ _ Hw i r Hi) as [Hrank Hn]. destruct (wo_new _ _ Hw i r Hi) as [Hold Hf].
  destruct (offset_bound n w i r Hw Hi) as [Ho1 Ho2]. pose proof (wo_total _ _ Hw) as Ht. pose proof (lookup_lt_Some _ _ _ Hi) as Hlt.
  assert (Hoff : sumZ (ztake (ref_mpi_rank (node_mpi r)) (map fresh w)) = sumZ (map fresh (take i w))).
  { rewrite Hrank. unfold ztake. rewrite Nat2Z.id. f_equal. apply firstn_map. }
  eapply wp_mono; [apply shift_new_globals_here_ok; rewrite ?Hoff, ?zlen_map; try done|].
  - by apply (wo_node _ _ Hw i).
  - rewrite Hrank. unfold zlen. lia.
  - by apply (map_fresh_nonneg n).
  - rewrite Hold. apply (wo_start _ _ Hw).
  - rewrite Hold. exact Ht.
  - intros x Hx. pose proof (world_range n w i r x Hw Hi Hx). lia.
  - intros [st r'] [-> Hr]. split; [done|]. rewrite Hoff, Hold in Hr. unfold number, span. rewrite Z.add_comm. exact Hr.
Qed.
End shift_all.

(** ** The unused numbers of some processes *)

Section eliminate.
Context {D : Type} `{MPI, !MPILaws, Junk Z}.
Implicit Types (r : REF_NODE D) (w : list (REF_NODE D)).

Lemma sort_unused_here_ok r :
  node_wf r -> 2 * node_n_unused r <= REF_INT_MAX ->
  wp (sort_unused_here r) (fun '(st, r') => st = REF_SUCCESS /\ exists u, r' = set_node_unused_global u r /\
    zlen u = zlen (node_unused_global r) /\ node_unused r' ≡ₚ node_unused r /\ ascending (node_n_unused r) u).
Proof.
  intros [[bl Hc] _] Hmax. pose proof (nc_unused _ _ Hc) as Hu. pose proof (nc_unused_global _ _ Hc) as Hz.
  unfold sort_unused_here. apply wp_bind. eapply wp_mono; [apply ref_sort_in_place_glob_ok; lia|].
  intros [st u] (-> & Hzu & Hp & Hasc & _). apply wp_ret. split; [done|]. by exists u.
Qed.

Lemma ref_node_eliminate_active_parts_ok n counts chunk a :
  zlen counts = n -> n <= REF_INT_MAX -> Forall (Z.le 0) counts -> sumZ counts <= REF_INT_MAX -> 0 <= a < n ->
  wp (ref_node_eliminate_active_parts n counts chunk a) (fun '(st, (b, _)) => st = REF_SUCCESS /\ a < b <= n).
Proof.
  intros Hz Hn Hpos Hsum Ha. unfold ref_node_eliminate_active_parts. apply wp_bind, wp_aget; [lia|].
  apply wp_bind, wp_ck_int; [unfold REF_INT_MIN; lia|]. apply wp_bind.
  apply (wp_mono (fun '(b, _) => a < b <= n)); [|intros [b k] Hb; by apply wp_ret].
  apply (wp_loop (fun '(b, k) => a < b <= n /\ k = sumZ (ztake b counts) - sumZ (ztake a counts)) (fun '(b, _) => n - b)).
  - split; [lia|]. rewrite sumZ_take_S by lia. lia.
  - lia.
  - intros [b k] [? _]. lia.
  - intros [b k] [Hb ->]. case Z.ltb_spec; intros Hbn; [|apply wp_ret; cbn; lia].
    apply wp_bind, wp_aget; [lia|]. pose proof (sumZ_take_le counts (b + 1) Hpos) as Hb1. pose proof (sumZ_take_le counts a Hpos) as Ha1.
    rewrite sumZ_take_S in Hb1 by lia.
    assert (Hle : sumZ (ztake a counts) <= sumZ (ztake b counts)).
    { pose proof (sumZ_take_le (ztake b counts) a (Forall_take _ _ _ Hpos)) as Hab.
      replace (ztake a (ztake b counts)) with (ztake a counts) in Hab; [lia|]. unfold ztake. rewrite take_take. f_equal. lia. }
    assert (Hcb : 0 <= counts.[b]). { rewrite Forall_forall in Hpos. apply Hpos, elem_of_aat. exists b. split; [lia|done]. }
    apply wp_bind, wp_ck_int; [unfold REF_INT_MIN, REF_INT_MAX in *; lia|]. case Z.leb_spec; intros Hchunk; [|apply wp_ret; cbn; lia].
    apply wp_bind, wp_ck_int; [unfold REF_INT_MIN; lia|]. apply wp_ret. split; [|lia]. split; [lia|]. rewrite sumZ_take_S by lia. lia.
Qed.

Lemma choose_active_ok n counts a b :
  zlen counts = n -> Forall (Z.le 0) counts -> sumZ counts <= REF_INT_MAX -> 0 <= a -> a < b <= n ->
  wp (choose_active n counts a b) (fun '(active, total) =>
    active = map (fun i => if (a <=? i) && (i <? b) then counts.[i] else 0) (zrange n) /\
    total = sumZ (ztake b counts) - sumZ (ztake a counts)).
Proof.
  intros Hz Hpos Hsum Ha Hb. unfold choose_active. apply wp_bind, (wp_fill (fun _ => 0)); [lia|rewrite zlen_alloc by lia; lia| |].
  { intros i d Hi Hzd _. rewrite zlen_alloc in Hzd by lia. apply wp_aset; [lia|done]. }
  intros z Hzz Hz0. rewrite zlen_alloc in Hzz, Hz0 by lia. apply wp_bind, (wp_fill (fun i => counts.[i])); [lia|lia| |].
  { intros i d Hi Hzd _. apply wp_bind, wp_aget; [lia|]. apply wp_aset; [lia|done]. }
  intros act Hza Hact.
  assert (Heq : act = map (fun i => if (a <=? i) && (i <? b) then counts.[i] else 0) (zrange n)).
  { apply arr_ext; [rewrite zlen_map, zlen_zrange by lia; lia|]. intros i Hi. rewrite aat_map, aat_zrange by (rewrite ?zlen_zrange by lia; lia).
    rewrite Hact by lia. destruct ((a <=? i) && (i <? b)); [done|]. rewrite Hz0 by lia.
    by rewrite (proj2 (Z.leb_le 0 i)), (proj2 (Z.ltb_lt i n)) by lia. }
  apply wp_bind. apply (wp_mono (fun s => s = sumZ (ztake b counts) - sumZ (ztake a counts))); [|intros s ->; by apply wp_ret].
  assert (Hle : forall i, a <= i <= n -> sumZ (ztake a counts) <= sumZ (ztake i counts) <= REF_INT_MAX).
  { intros i Hi. pose proof (sumZ_take_le counts i Hpos) as Hi1. pose proof (sumZ_take_le (ztake i counts) a (Forall_take _ _ _ Hpos)) as Hab.
    replace (ztake a (ztake i counts)) with (ztake a counts) in Hab; [lia|]. unfold ztake. rewrite take_take. f_equal. lia. }
  apply (wp_for_up (fun i s => s = sumZ (ztake i counts) - sumZ (ztake a counts))); [lia|lia| |done].
  intros i s Hi ->. apply wp_bind, wp_aget; [lia|]. rewrite Hact by lia. rewrite (proj2 (Z.leb_le _ _)), (proj2 (Z.ltb_lt _ _)) by lia. cbn [andb].
  pose proof (Hle i ltac:(lia)). pose proof (Hle (i + 1) ltac:(lia)) as Hle2. rewrite sumZ_take_S in * by lia.
  pose proof (sumZ_take_le counts a Hpos).
  assert (Hcb : 0 <= counts.[i]). { rewrite Forall_forall in Hpos. apply Hpos, elem_of_aat. exists i. split; [lia|done]. }
  apply wp_ck_int; [unfold REF_INT_MIN, REF_INT_MAX in *; lia|]. lia.
Qed.

Lemma ref_mpi_allgatherv_ok counts arrays :
  Forall2 (fun count a => 0 <= count <= zlen a) counts arrays -> counts <> [] ->
  wp (ref_mpi_allgatherv counts arrays) (fun '(st, a) => st = REF_SUCCESS /\ a = concat (zip_with ztake counts arrays)).
Proof.
  intros Hall Hne. unfold ref_mpi_allgatherv. case Z.ltb_spec; intros Hz; [apply wp_ret; by rewrite allgatherv_spec|].
  destruct Hall as [|count a counts arrays Hc Hall]; [done|].
  destruct Hall; [|unfold zlen in Hz; cbn in Hz; lia]. cbn [zip_with concat]. rewrite app_nil_r.
  apply wp_bind, wp_ret, wp_bind, wp_ret. rewrite (proj2 (Z.leb_le _ _)) by lia. by apply wp_ret.
Qed.

(** ** One slice, on one process

    [r] is [r0] after the unused numbers [p] were taken out: the first [k] of its own are
    still to come. *)
Definition processed (p : list Z) (k : Z) r0 r : Prop :=
  exists sg u, r = set_node_unused_global u (set_node_n_unused k (set_node_sorted_global sg r0)) /\
    zlen sg = zlen (node_sorted_global r0) /\ zlen u = zlen (node_unused_global r0) /\
    (forall i, 0 <= i < node_n r0 -> sg.[i] = compact p (node_sorted_global r0).[i]) /\
    (forall i, 0 <= i < k -> u.[i] = compact p (node_unused_global r0).[i]).

(** The offsets that a sorted list of numbers brings about. *)
Lemma offsets_ok p q t k (s s0 active : list Z) :
  0 <= k <= zlen s0 -> zlen s = zlen s0 -> ascending k s0 -> (forall i, 0 <= i < k -> s.[i] = compact p s0.[i]) ->
  NoDup (p ++ q) -> Forall (fun x => 0 <= x < t) (p ++ q) -> t <= REF_LONG_MAX ->
  (forall i, 0 <= i < k -> s0.[i] ∉ p ++ q /\ 0 <= s0.[i] < t) ->
  active ≡ₚ map (compact p) q -> ascending (zlen active) active -> zlen active <= REF_INT_MAX ->
  wp (ref_node_eliminate_unused_offset k s (zlen active) active) (fun '(st, s') => st = REF_SUCCESS /\ zlen s' = zlen s0 /\
    forall i, 0 <= i < k -> s'.[i] = compact (p ++ q) s0.[i]).
Proof.
  intros Hk Hz Hasc Hs Hnd Hr Ht Hout Hact Hasca Hmax. pose proof Hnd as (Hp & _ & _)%NoDup_app.
  rewrite Forall_app in Hr. destruct Hr as [Hrp _].
  assert (Hnotp : forall i, 0 <= i < k -> s0.[i] ∉ p) by (intros i Hi Hin; destruct (Hout i Hi) as [Hno _]; apply Hno, elem_of_app; by left).
  destruct (ref_node_eliminate_unused_offset_subtracts k s (zlen active) active) as (s' & -> & Hzs & Hvals & _).
  - lia.
  - pose proof (zlen_nonneg active). lia.
  - done.
  - intros i j Hi Hj. rewrite !Hs by lia. specialize (Hasc i j Hi Hj). destruct (Z.eq_dec s0.[i] s0.[j]) as [->|]; [lia|].
    assert (Hl : s0.[i] < s0.[j]) by lia. pose proof (compact_mono p _ _ Hp (Hnotp i ltac:(lia)) Hl). lia.
  - done.
  - intros i Hi. rewrite Hs by done. pose proof (compact_range p t s0.[i] Hp Hrp (Hnotp i Hi) ltac:(by apply Hout)).
    pose proof (zlen_nonneg p). lia.
  - apply wp_ret. split; [done|]. split; [lia|]. intros i Hi. rewrite Hvals, Hs by done. rewrite ztake_full, (count_below_perm _ _ _ Hact).
    rewrite <- (compact_twice p q s0.[i]); [done|done|by apply Hout].
Qed.

Lemma eliminate_active_here_ok p q t a b active k r0 r :
  node_wf r0 -> processed p k r0 r -> 0 <= k <= node_n_unused r0 -> ascending (node_n_unused r0) (node_unused_global r0) ->
  NoDup (p ++ q) -> Forall (fun x => 0 <= x < t) (p ++ q) -> t <= REF_LONG_MAX ->
  (forall x, live r0 x -> x ∉ p ++ q /\ 0 <= x < t) ->
  let k' := if (a <=? ref_mpi_rank (node_mpi r0)) && (ref_mpi_rank (node_mpi r0) <? b) then 0 else k in
  (forall i, 0 <= i < k' -> (node_unused_global r0).[i] ∉ p ++ q /\ 0 <= (node_unused_global r0).[i] < t) ->
  active ≡ₚ map (compact p) q -> ascending (zlen active) active -> zlen active <= REF_INT_MAX ->
  wp (eliminate_active_here a b (zlen active) active r) (fun '(st, r') => st = REF_SUCCESS /\ processed (p ++ q) k' r0 r').
Proof.
  intros Hwf (sg & u & -> & Hzs & Hzu & Hsg & Hu) Hk Hasc Hnd Hr Ht Hlive k' Hun Hact Hasca Hmax.
  pose proof Hwf as [[bl Hc] Hs]. pose proof (nc_n_range _ _ Hc) as Hn. pose proof (nc_sorted_global _ _ Hc) as Hzsg.
  pose proof (nc_unused _ _ Hc) as Hnu. pose proof (nc_unused_global _ _ Hc) as Hzug.
  assert (Hk' : 0 <= k' <= k) by (unfold k'; destruct (_ && _); lia).
  unfold eliminate_active_here. cbn [node_mpi set_node_unused_global set_node_n_unused set_node_sorted_global].
  set (r1 := if _ : bool then _ else _).
  assert (Hr1 : r1 = set_node_unused_global u (set_node_n_unused k' (set_node_sorted_global sg r0))).
  { unfold r1, k'. by destruct (_ && _). }
  rewrite Hr1. cbn [node_n node_sorted_global node_n_unused node_unused_global set_node_unused_global set_node_n_unused set_node_sorted_global].
  apply wp_bind. eapply wp_mono; [apply (offsets_ok p q t _ sg (node_sorted_global r0)); try done; [lia| |]|].
  - by apply ns_ascending.
  - intros i Hi. apply Hlive. exists (node_sorted_local r0).[i].
    split; [apply ns_elem; [done|rewrite (nc_sorted_local _ _ Hc); lia|done]|by rewrite (ns_global _ Hs)].
  - intros [st sg'] (-> & Hzs' & Hsg'). cbn [RSS node_n_unused node_unused_global set_node_unused_global set_node_n_unused set_node_sorted_global].
    apply wp_bind. eapply wp_mono; [apply (offsets_ok p q t _ u (node_unused_global r0)); try done; [lia| |]|].
    + intros i j Hi Hj. apply Hasc; lia.
    + intros i Hi. apply Hu. lia.
    + intros [st u'] (-> & Hzu' & Hu'). cbn [RSS]. apply wp_ret. split; [done|]. exists sg', u'. done.
Qed.
End eliminate.
