(* ===== verification/RefGlobalsRun.v ===== *)
(** * The synchronisation of all processes

    [synchronized] is what [ref_node_synchronize_globals] does to a run whose
    processes agree on the numbers ([world_ok]): each slice of processes takes its unused
    numbers out of those of all, and the end result does not depend on the slices. *)
From S2P Require Import Prelude RefSort RefDbl Bytes RefMpi RefNode RefGlobals RefGlobalsSpec.
From stdpp Require Import prelude list sorting gmap.
From Stdlib Require Import ZArith Lia SpecFloat.
Open Scope Z_scope.
Open Scope ref_scope.

(** ** All slices, on all processes *)

Section eliminate_all.
Context {D : Type} `{MPI, !MPILaws, Junk Z}.
Implicit Types (r : REF_NODE D) (w : list (REF_NODE D)).

Definition unused_of w : list Z := concat (map node_unused w).

(** The processes agree on all numbers. *)
Record numbered (t : Z) w : Prop := {
  nb_size : 1 <= zlen w <= REF_INT_MAX;
  nb_mpi : forall i r, w !! i = Some r -> ref_mpi_rank (node_mpi r) = Z.of_nat i;
  nb_node : forall i r, w !! i = Some r -> node_wf r;
  nb_start : 0 <= t <= REF_LONG_MAX;
  nb_old : forall i r, w !! i = Some r -> node_old_n_global r = t;
  nb_few : 2 * zlen (unused_of w) <= REF_INT_MAX;
  nb_unused : NoDup (unused_of w);
  nb_range : Forall (fun x => 0 <= x < t) (unused_of w);
  nb_live : forall i r x, w !! i = Some r -> live r x -> x ∉ unused_of w /\ 0 <= x < t
}.

Lemma zlen_node_unused r : node_wf r -> zlen (node_unused r) = node_n_unused r /\ 0 <= node_n_unused r <= zlen (node_unused_global r).
Proof.
  intros [[bl Hc] _]. pose proof (nc_unused _ _ Hc). pose proof (nc_unused_global _ _ Hc). split; [apply zlen_ztake|]; lia.
Qed.

Lemma zlen_unused_of w : (forall i r, w !! i = Some r -> node_wf r) ->
  sumZ (map node_n_unused w) = zlen (unused_of w) /\ Forall (Z.le 0) (map node_n_unused w).
Proof.
  induction w as [|r w IH]; intros Hw; [split; [done|apply Forall_nil_2]|]. destruct IH as [IH1 IH2]; [intros i; apply (Hw (S i))|].
  destruct (zlen_node_unused r (Hw 0%nat r eq_refl)) as [Hz Hr]. unfold unused_of in *. cbn [map concat]. rewrite zlen_app, Hz, <- IH1.
  split; [done|]. apply Forall_cons. split; [lia|done].
Qed.

Lemma unused_of_app w w' : unused_of (w ++ w') = unused_of w ++ unused_of w'.
Proof. unfold unused_of. by rewrite map_app, concat_app. Qed.

Lemma elem_of_unused_of w i r x : w !! i = Some r -> x ∈ node_unused r -> x ∈ unused_of w.
Proof.
  intros Hi Hx. unfold unused_of. apply list_elem_of_In, in_concat. exists (node_unused r).
  split; [apply in_map, list_elem_of_In; by eapply list_elem_of_lookup_2|by apply list_elem_of_In].
Qed.

(** The unused numbers of a slice. *)
Lemma concat_slice {A} (F : A -> list Z) (l : list A) a b :
  concat (imap (fun i x => if (a <=? i)%nat && (i <? b)%nat then F x else []) l) = concat (map F (take (b - a) (drop a l))).
Proof.
  revert a b. induction l as [|x l IH]; intros a b; [by rewrite drop_nil, take_nil|]. cbn [imap concat].
  assert (Hext : forall a' b', (forall i, ((a <=? S i)%nat && (S i <? b)%nat) = ((a' <=? i)%nat && (i <? b')%nat)) ->
    concat (imap ((fun i x => if (a <=? i)%nat && (i <? b)%nat then F x else []) ∘ S) l) = concat (map F (take (b' - a') (drop a' l)))).
  { intros a' b' Hab. rewrite <- IH. f_equal. apply imap_ext. intros i y _. cbn [compose]. unfold compose. by rewrite Hab. }
  destruct a as [|a].
  - destruct b as [|b].
    + rewrite (Hext 0%nat 0%nat) by done. done.
    + rewrite (Hext 0%nat b) by (intros i; by destruct b). cbn. by rewrite Nat.sub_0_r.
  - rewrite (Hext a (pred b)).
    + cbn [drop Nat.leb andb app]. by destruct b.
    + intros i. destruct b as [|b]; [|done]. cbn. by rewrite !andb_false_r.
Qed.

(** One slice: [p] are the unused numbers of the processes before [a], [q] those of the
    processes from [a] to [b - 1]. *)
Section slice.
Variables (t a b : Z) (w0 w : list (REF_NODE D)).
Hypothesis Hw : numbered t w0.
Hypothesis Hab : 0 <= a < b.
Hypothesis Hb : b <= zlen w0.
Hypothesis Hlen : length w = length w0.
Let p := unused_of (ztake a w0).
Let q := unused_of (take (Z.to_nat b - Z.to_nat a) (drop (Z.to_nat a) w0)).
Hypothesis Hproc : forall i r0, w0 !! i = Some r0 -> exists r, w !! i = Some r /\
  processed p (if Z.of_nat i <? a then 0 else node_n_unused r0) r0 r.
Let act := map (fun i => if (a <=? i) && (i <? b) then (map node_n_unused w0).[i] else 0) (zrange (zlen w0)).

Lemma slice_split : unused_of (ztake b w0) = p ++ q /\ unused_of w0 = (p ++ q) ++ unused_of (drop (Z.to_nat b) w0).
Proof using All.
  assert (Hpq : unused_of (ztake b w0) = p ++ q).
  { unfold p, q. rewrite <- unused_of_app. f_equal. unfold ztake. rewrite take_take_drop. f_equal. lia. }
  split; [done|]. rewrite <- Hpq, <- unused_of_app. unfold ztake. by rewrite take_drop.
Qed.

Lemma slice_ok : NoDup (p ++ q) /\ Forall (fun x => 0 <= x < t) (p ++ q) /\ 2 * zlen (map (compact p) q) <= REF_INT_MAX.
Proof using All.
  destruct slice_split as [_ Hall]. pose proof (nb_unused _ _ Hw) as Hnd. pose proof (nb_range _ _ Hw) as Hr. pose proof (nb_few _ _ Hw) as Hfew.
  rewrite Hall in *. split; [by apply NoDup_app in Hnd as (? & _)|]. split; [by apply Forall_app in Hr as [? _]|].
  rewrite zlen_map. rewrite !zlen_app in Hfew. pose proof (zlen_nonneg p). pose proof (zlen_nonneg (unused_of (drop (Z.to_nat b) w0))). lia.
Qed.

(** What each process contributes. *)
Lemma slice_active i r0 : w0 !! i = Some r0 -> act !! i = Some (if (a <=? Z.of_nat i) && (Z.of_nat i <? b) then node_n_unused r0 else 0).
Proof using All.
  intros Hi. pose proof (lookup_lt_Some _ _ _ Hi) as Hlt. unfold act. change (map ?f ?l) with (f <$> l). rewrite list_lookup_fmap.
  assert (Hzr : zrange (zlen w0) !! i = Some (Z.of_nat i)).
  { unfold zrange. change (map ?f ?l) with (f <$> l). rewrite list_lookup_fmap, lookup_seq_lt by (unfold zlen; lia). done. }
  rewrite Hzr. cbn. destruct (_ && _); [|done]. unfold aat, aget. rewrite (proj2 (Z.ltb_ge _ _)) by lia. rewrite Nat2Z.id.
  by rewrite list_lookup_fmap, Hi.
Qed.
Lemma length_slice_active : length act = length w0.
Proof using All. unfold act. rewrite length_map. pose proof (zlen_zrange (zlen w0) ltac:(lia)). unfold zlen in *. lia. Qed.

Lemma slice_gather : concat (zip_with ztake act (map node_unused_global w)) = map (compact p) q.
Proof using All.
  transitivity (concat (imap (fun i r0 => if (Z.to_nat a <=? i)%nat && (i <? Z.to_nat b)%nat then map (compact p) (node_unused r0) else []) w0)).
  - f_equal. apply list_eq. intros i. rewrite lookup_zip_with, list_lookup_imap. destruct (w0 !! i) as [r0|] eqn:Hi; cbn [fmap option_fmap option_map].
    + rewrite (slice_active i r0 Hi). cbn [mbind option_bind]. destruct (Hproc i r0 Hi) as (r & Hr & sg & u & -> & _ & Hzu & _ & Hu).
      change (map node_unused_global w) with (node_unused_global <$> w). rewrite list_lookup_fmap, Hr.
      cbn [fmap option_fmap option_map mbind option_bind node_unused_global set_node_unused_global].
      destruct (zlen_node_unused r0 (nb_node _ _ Hw i r0 Hi)) as [Hz0 Hk0]. f_equal.
      destruct (Z.leb_spec a (Z.of_nat i)), (Z.ltb_spec (Z.of_nat i) b); cbn [andb];
        destruct (Nat.leb_spec (Z.to_nat a) i), (Nat.ltb_spec i (Z.to_nat b)); cbn [andb]; try lia; try done.
      rewrite (proj2 (Z.ltb_ge (Z.of_nat i) a)) in Hu by lia. apply arr_ext; [rewrite zlen_map, zlen_ztake by lia; lia|].
      intros j Hj. rewrite zlen_ztake in Hj by lia. rewrite aat_map by lia. rewrite aat_ztake, Hu by lia. unfold node_unused. by rewrite aat_ztake by lia.
    + rewrite (proj2 (lookup_ge_None act i)); [done|]. apply lookup_ge_None in Hi. rewrite length_slice_active. lia.
  - rewrite (concat_slice (fun r0 => map (compact p) (node_unused r0))). unfold q, unused_of. by rewrite concat_map, map_map.
Qed.

Lemma slice_contributions : Forall2 (fun count arr => 0 <= count <= zlen arr) act (map node_unused_global w).
Proof using All.
  apply Forall2_same_length_lookup. split; [by rewrite length_map, length_slice_active|]. intros i c arr Hc Harr.
  change (map node_unused_global w) with (node_unused_global <$> w) in Harr. rewrite list_lookup_fmap in Harr.
  destruct (w0 !! i) as [r0|] eqn:Hi; [|apply lookup_ge_None in Hi; apply lookup_lt_Some in Hc; rewrite length_slice_active in Hc; lia].
  destruct (Hproc i r0 Hi) as (r & Hr & sg & u & -> & _ & Hzu & _). rewrite Hr in Harr. injection Harr as <-.
  rewrite (slice_active i r0 Hi) in Hc. injection Hc as <-. destruct (zlen_node_unused r0 (nb_node _ _ Hw i r0 Hi)) as [Hz0 Hk0].
  cbn. destruct (_ && _); lia.
Qed.

Lemma slice_count :
  sumZ (ztake b (map node_n_unused w0)) - sumZ (ztake a (map node_n_unused w0)) = zlen (map (compact p) q).
Proof using All.
  assert (Hpre : forall c, sumZ (ztake c (map node_n_unused w0)) = zlen (unused_of (ztake c w0))).
  { intros c. unfold ztake. change (map node_n_unused w0) with (node_n_unused <$> w0). rewrite <- fmap_take.
    apply zlen_unused_of. intros i r Hi. apply lookup_take_Some in Hi as [Hi _]. by apply (nb_node _ _ Hw i). }
  rewrite !Hpre, (proj1 slice_split), zlen_map, zlen_app. fold p. lia.
Qed.

(** What the slice does on one process. *)
Lemma slice_here active i r0 r :
  w0 !! i = Some r0 -> w !! i = Some r -> ascending (node_n_unused r0) (node_unused_global r0) ->
  active ≡ₚ map (compact p) q -> ascending (zlen active) active ->
  wp (eliminate_active_here a b (zlen active) active r) (fun '(st, r') => st = REF_SUCCESS /\
    processed (p ++ q) (if Z.of_nat i <? b then 0 else node_n_unused r0) r0 r').
Proof using All.
  intros Hi Hr Hasc Hperm Hasca. destruct (Hproc i r0 Hi) as (r1 & Hr1 & Hp1). rewrite Hr in Hr1. injection Hr1 as <-.
  destruct slice_split as [_ Hall], slice_ok as (Hnd & Hrange & Hfits). destruct (zlen_node_unused r0 (nb_node _ _ Hw i r0 Hi)) as [Hz0 Hk0].
  eapply wp_mono; [apply (eliminate_active_here_ok p q t a b active (if Z.of_nat i <? a then 0 else node_n_unused r0) r0 r); try done|].
  - by apply (nb_node _ _ Hw i).
  - destruct (Z.of_nat i <? a); lia.
  - apply (nb_start _ _ Hw).
  - intros x Hx. destruct (nb_live _ _ Hw i r0 x Hi Hx) as [Hno Hrx]. split; [|done]. rewrite Hall in Hno.
    intros Hin. apply Hno, elem_of_app. by left.
  - rewrite (nb_mpi _ _ Hw i r0 Hi). intros j Hj.
    assert (Hib : b <= Z.of_nat i /\ 0 <= j < node_n_unused r0).
    { destruct (Z.leb_spec a (Z.of_nat i)), (Z.ltb_spec (Z.of_nat i) b), (Z.ltb_spec (Z.of_nat i) a); cbn [andb] in Hj; lia. }
    assert (Hin : (node_unused_global r0).[j] ∈ unused_of (drop (Z.to_nat b) w0)).
    { apply (elem_of_unused_of _ (i - Z.to_nat b) r0); [rewrite lookup_drop, <- Hi; f_equal; lia|].
      unfold node_unused. apply elem_of_ztake; [lia|]. exists j. split; [lia|done]. }
    pose proof (nb_unused _ _ Hw) as Hnd'. pose proof (nb_range _ _ Hw) as Hr'. rewrite Hall in Hnd', Hr'. split.
    + apply NoDup_app in Hnd' as (_ & Hdis & _). intros Hpq'. by apply (Hdis _ Hpq').
    + rewrite Forall_forall in Hr'. apply Hr', elem_of_app. by right.
  - assert (Hza : zlen active = zlen (map (compact p) q)) by (unfold zlen; by rewrite Hperm). unfold REF_INT_MAX in *. pose proof (zlen_nonneg active). lia.
  - intros [st r'] [-> Hp']. split; [done|]. rewrite (nb_mpi _ _ Hw i r0 Hi) in Hp'.
    destruct (Z.leb_spec a (Z.of_nat i)), (Z.ltb_spec (Z.of_nat i) b), (Z.ltb_spec (Z.of_nat i) a); cbn [andb] in Hp'; (done || lia).
Qed.
End slice.

Lemma eliminate_active_ok t w0 chunk a w :
  numbered t w0 -> (forall i r, w0 !! i = Some r -> ascending (node_n_unused r) (node_unused_global r)) ->
  0 <= a < zlen w0 -> length w = length w0 ->
  (forall i r0, w0 !! i = Some r0 -> exists r, w !! i = Some r /\
     processed (unused_of (ztake a w0)) (if Z.of_nat i <? a then 0 else node_n_unused r0) r0 r) ->
  wp (eliminate_active (map node_n_unused w0) chunk a w) (fun '(st, (b, w')) => st = REF_SUCCESS /\ a < b <= zlen w0 /\ length w' = length w0 /\
    forall i r0, w0 !! i = Some r0 -> exists r, w' !! i = Some r /\
      processed (unused_of (ztake b w0)) (if Z.of_nat i <? b then 0 else node_n_unused r0) r0 r).
Proof.
  intros Hw Hasc Ha Hlen Hproc. pose proof (nb_size _ _ Hw) as Hsz. pose proof (nb_few _ _ Hw) as Hfew.
  destruct (zlen_unused_of w0 (nb_node _ _ Hw)) as [Hsum Hpos]. pose proof (zlen_nonneg (unused_of w0)) as Hu0.
  assert (Hzc : zlen (map node_n_unused w0) = zlen w0) by by rewrite zlen_map.
  assert (Hzw : zlen w = zlen w0) by (unfold zlen; by rewrite Hlen).
  unfold eliminate_active. rewrite Hzw. apply wp_bind. eapply wp_mono; [apply ref_node_eliminate_active_parts_ok; [done|lia|done|lia|done]|].
  intros [st [b k]] [-> Hb]. cbn [RSS]. apply wp_bind. eapply wp_mono; [apply choose_active_ok; [done|done|lia|lia|done]|].
  intros [active total] [-> ->].
  assert (Hab : 0 <= a < b) by lia. destruct Hb as [_ Hb].
  destruct (slice_split t a b w0 w Hw Hab Hb Hlen Hproc) as [Hpq _], (slice_ok t a b w0 w Hw Hab Hb Hlen Hproc) as (_ & _ & Hfits).
  rewrite (slice_count t a b w0 w Hw Hab Hb Hlen Hproc).
  unfold ref_malloc. rewrite (proj2 (Z.ltb_ge _ _)) by apply zlen_nonneg. cbn [RSS].
  apply wp_bind. eapply wp_mono; [apply ref_mpi_allgatherv_ok; [exact (slice_contributions t a b w0 w Hw Hab Hb Hlen Hproc)|]|].
  { intros Hnil%(f_equal length). rewrite (length_slice_active t a b w0 w Hw Hab Hb Hlen Hproc) in Hnil. unfold zlen in Hsz. cbn in Hnil. lia. }
  intros [st arr] [-> ->]. rewrite (slice_gather t a b w0 w Hw Hab Hb Hlen Hproc). cbn [RSS].
  apply wp_bind. eapply wp_mono; [apply ref_sort_in_place_glob_ok; [apply zlen_nonneg|done|lia]|].
  intros [st srt] (-> & Hzsrt & Hperm & Hascs & _). rewrite <- Hzsrt in Hperm at 1. rewrite !ztake_full in Hperm. rewrite <- Hzsrt in Hascs. cbn [RSS]. rewrite <- Hzsrt.
  apply wp_bind. eapply wp_mono; [apply (everywhere_ok _ w (fun i _ r' => forall r0, w0 !! i = Some r0 ->
    processed (unused_of (ztake b w0)) (if Z.of_nat i <? b then 0 else node_n_unused r0) r0 r'))|].
  - intros i r Hr. destruct (w0 !! i) as [r0|] eqn:Hi; [|apply lookup_ge_None in Hi; apply lookup_lt_Some in Hr; lia].
    rewrite Hpq. eapply wp_mono; [apply (slice_here t a b w0 w Hw Hab Hb Hlen Hproc srt i r0 r); try done; by apply (Hasc i)|].
    intros [st r'] [-> Hp']. split; [done|]. intros r2 Hr2. by assert (r0 = r2) as <- by congruence.
  - intros [st w'] (-> & Hlen' & Hw'). apply wp_ret. split; [done|]. split; [lia|]. split; [by rewrite Hlen'|].
    intros i r0 Hi. destruct (Hproc i r0 Hi) as (r & Hr & _). destruct (Hw' i r Hr) as (r' & Hr' & Hp'). exists r'. split; [done|]. by apply Hp'.
Qed.
End eliminate_all.

Section synchronize.
Context {D : Type} `{MPI, !MPILaws, Junk Z}.
Implicit Types (r : REF_NODE D) (w : list (REF_NODE D)).

Lemma update_globals_here_ok p t r0 r :
  node_wf r0 -> processed p 0 r0 r -> node_old_n_global r0 = t -> NoDup p -> Forall (fun x => 0 <= x < t) p ->
  0 <= t <= REF_LONG_MAX -> zlen p <= REF_INT_MAX -> (forall x, live r0 x -> x ∉ p /\ 0 <= x < t) ->
  wp (update_globals_here (zlen p) r) (fun '(st, r') => st = REF_SUCCESS /\ relabelled (compact p) [] (t - zlen p) r0 r').
Proof.
  intros Hwf (sg & u & -> & Hzs & Hzu & Hsg & _) Hold Hnd Hr Ht Hp Hlive. pose proof Hwf as [[bl Hc] Hs].
  pose proof (nc_n_range _ _ Hc) as Hn. pose proof (nc_global _ _ Hc) as Hzg. pose proof (nc_sorted_local _ _ Hc) as Hzl.
  pose proof (nc_sorted_global _ _ Hc) as Hzsg. pose proof (nc_unused _ _ Hc) as Hnu. pose proof (nc_unused_global _ _ Hc) as Hzug.
  pose proof (zlen_nonneg p) as Hp0.
  unfold update_globals_here. cbn [node_n node_sorted_local node_sorted_global node_global set_node_unused_global set_node_n_unused set_node_sorted_global].
  assert (Hin : forall i, 0 <= i < node_n r0 -> (node_sorted_local r0).[i] ∈ valid_nodes r0) by (intros i Hi; apply ns_elem; [done|lia|done]).
  apply wp_bind.
  apply (wp_for_up (fun i g => zlen g = node_max r0 /\ forall v, 0 <= v < node_max r0 ->
    g.[v] = if decide (v ∈ ztake i (node_sorted_local r0)) then compact p (node_global r0).[v] else (node_global r0).[v])); [lia| | |].
  - split; [done|]. intros v Hv. rewrite decide_False; [done|]. apply not_elem_of_nil.
  - intros i g Hi [Hz Hg]. apply wp_bind, wp_aget; [lia|]. apply wp_bind, wp_aget; [lia|].
    pose proof (Hin i Hi) as [Hv _]%elem_of_valid_nodes. apply wp_aset; [lia|]. split; [by rewrite zlen_upd|].
    intros v Hv'. rewrite aat_upd, ztake_S by lia. case Z.eqb_spec; intros Hiv.
    + subst v. rewrite decide_True by (apply elem_of_app; right; by apply list_elem_of_singleton). by rewrite Hsg, (ns_global _ Hs).
    + rewrite Hg by done. destruct (decide (v ∈ ztake i (node_sorted_local r0))) as [Hl|Hl].
      * by rewrite decide_True by (apply elem_of_app; by left).
      * rewrite decide_False; [done|]. intros [?|Heq%list_elem_of_singleton]%elem_of_app; [done|by subst].
  - intros g [Hz Hg]. apply wp_bind, wp_ck_glob; [cbn; unfold REF_LONG_MIN, REF_LONG_MAX, REF_INT_MAX in *; lia|]. apply wp_ret. split; [done|].
    cbn [node_old_n_global set_node_global set_node_unused_global set_node_n_unused set_node_sorted_global]. rewrite Hold.
    apply (set_numbers_ok r0 (compact p) g sg 0 u (t - zlen p)); [done|done|lia|lia|lia| |done| |].
    + intros v Hv. rewrite Hg by done. pose proof (ns_perm _ Hs) as Hperm. do 2 case_decide; try done; exfalso; rewrite Hperm in *; done.
    + intros x y Hx Hy Hxy. apply compact_mono; [done|by apply Hlive|done].
    + intros x Hx. destruct (Hlive x Hx) as [Hno Hrx]. by apply (compact_range p t x Hnd Hr Hno Hrx).
Qed.

Lemma relabelled_after_sort f u n r v r' : relabelled f u n (set_node_unused_global v r) r' -> relabelled f u n r r'.
Proof. intros [? ? ? ? ? ? ? ?]. by constructor. Qed.

(** Sorting the unused numbers of every process changes nothing else. *)
Lemma numbered_sorted t w w0 :
  numbered t w -> length w0 = length w ->
  (forall i r, w !! i = Some r -> exists r0, w0 !! i = Some r0 /\ exists u, r0 = set_node_unused_global u r /\
     zlen u = zlen (node_unused_global r) /\ node_unused r0 ≡ₚ node_unused r) ->
  numbered t w0 /\ unused_of w0 ≡ₚ unused_of w.
Proof.
  intros Hw Hlen Hsort.
  assert (Hback : forall i r0, w0 !! i = Some r0 -> exists r, w !! i = Some r /\ exists u, r0 = set_node_unused_global u r /\
     zlen u = zlen (node_unused_global r) /\ node_unused r0 ≡ₚ node_unused r).
  { intros i r0 Hi. destruct (w !! i) as [r|] eqn:Hr; [|apply lookup_ge_None in Hr; apply lookup_lt_Some in Hi; lia].
    exists r. split; [done|]. destruct (Hsort i r Hr) as (r1 & Hr1 & Hu). rewrite Hi in Hr1. by injection Hr1 as <-. }
  assert (Hperm : unused_of w0 ≡ₚ unused_of w).
  { clear Hw Hsort. revert w0 Hlen Hback. induction w as [|r w IH]; intros [|r0 w0] Hlen Hback; try done.
    destruct (Hback 0%nat r0 eq_refl) as (r1 & [= <-] & u & _ & _ & Hp). unfold unused_of in *. cbn [map concat]. rewrite Hp. f_equiv.
    apply IH; [by injection Hlen|]. intros i. apply (Hback (S i)). }
  split; [|done]. destruct Hw as [Hsz Hmpi Hnode Hstart Hold Hfew Hun Hrange Hlive].
  assert (Hz : zlen w0 = zlen w) by (unfold zlen; by rewrite Hlen).
  constructor.
  - by rewrite Hz.
  - intros i r0 Hi. destruct (Hback i r0 Hi) as (r & Hr & u & -> & _). exact (Hmpi i r Hr).
  - intros i r0 Hi. destruct (Hback i r0 Hi) as (r & Hr & u & -> & Hzu & _). destruct (Hnode i r Hr) as [[bl Hc] Hs].
    split; [exists bl|by destruct Hs]. pose proof (nc_unused_global _ _ Hc). destruct Hc. constructor; try done. cbn. lia.
  - done.
  - intros i r0 Hi. destruct (Hback i r0 Hi) as (r & Hr & u & -> & _). exact (Hold i r Hr).
  - unfold zlen in *. by rewrite Hperm.
  - by rewrite Hperm.
  - by rewrite Hperm.
  - intros i r0 x Hi Hx. destruct (Hback i r0 Hi) as (r & Hr & u & -> & _). rewrite Hperm. exact (Hlive i r x Hr Hx).
Qed.

Lemma processed_nothing r : processed [] (node_n_unused r) r r.
Proof.
  exists (node_sorted_global r), (node_unused_global r). split; [by destruct r|]. split; [done|]. split; [done|].
  unfold compact, count_below. cbn. change (zlen []) with 0. split; intros; lia.
Qed.

(** The loop over the slices. *)
Lemma eliminate_slices_ok t w0 chunk :
  numbered t w0 -> (forall i r0, w0 !! i = Some r0 -> ascending (node_n_unused r0) (node_unused_global r0)) ->
  wp (loop (S (Z.to_nat (zlen w0))) (fun '(active0, w) =>
        if active0 <? zlen w0 then
          let* '(st, (active1, w)) := eliminate_active (map node_n_unused w0) chunk active0 w in
          match st with
          | REF_SUCCESS => Some (Next (active1, w))
          | _ => Some (Exit (st, w))
          end
        else Some (Exit (REF_SUCCESS, w))) (0, w0)) (fun '(st, w1) => st = REF_SUCCESS /\ length w1 = length w0 /\
    forall i r0, w0 !! i = Some r0 -> exists r, w1 !! i = Some r /\ processed (unused_of w0) 0 r0 r).
Proof.
  intros Hw0 Hasc. pose proof (zlen_nonneg w0) as Hz0.
  apply (wp_loop (fun '(a, w1) => 0 <= a <= zlen w0 /\ length w1 = length w0 /\ forall i r0, w0 !! i = Some r0 -> exists r, w1 !! i = Some r /\
    processed (unused_of (ztake a w0)) (if Z.of_nat i <? a then 0 else node_n_unused r0) r0 r) (fun '(a, _) => zlen w0 - a)); [|lia| |].
  - split; [lia|]. split; [done|]. intros i r0 Hi. exists r0. split; [done|]. rewrite (proj2 (Z.ltb_ge _ _)) by lia. apply processed_nothing.
  - intros [a w1] [? _]. lia.
  - intros [a w1] (Ha & Hlen1 & Hproc). case Z.ltb_spec; intros Hlt.
    * apply wp_bind. eapply wp_mono; [apply (eliminate_active_ok t w0 chunk a w1 Hw0 Hasc); [lia|done|done]|].
      intros [st [b w2]] (-> & Hb & Hlen2 & Hproc2). apply wp_ret. cbn. split; [|lia]. split; [lia|]. done.
    * apply wp_ret. cbn. split; [done|]. split; [done|]. intros i r0 Hi. destruct (Hproc i r0 Hi) as (r & Hr & Hp). exists r. split; [done|].
      assert (a = zlen w0) as -> by lia. rewrite ztake_full in Hp. rewrite (proj2 (Z.ltb_lt _ _)) in Hp; [done|]. apply lookup_lt_Some in Hi. unfold zlen. lia.
Qed.

Lemma ref_node_eliminate_unused_globals_ok t w :
  numbered t w ->
  wp (ref_node_eliminate_unused_globals w) (fun '(st, w') => st = REF_SUCCESS /\ length w' = length w /\
    forall i r, w !! i = Some r -> exists r', w' !! i = Some r' /\
      relabelled (compact (unused_of w)) [] (t - zlen (unused_of w)) r r').
Proof.
  intros Hw. pose proof (nb_size _ _ Hw) as Hsz. pose proof (nb_few _ _ Hw) as Hfew.
  destruct (zlen_unused_of w (nb_node _ _ Hw)) as [Hsum0 _]. unfold ref_node_eliminate_unused_globals. apply wp_bind.
  eapply wp_mono; [apply (everywhere_ok _ w (fun i r r0 => exists u, r0 = set_node_unused_global u r /\
    zlen u = zlen (node_unused_global r) /\ node_unused r0 ≡ₚ node_unused r /\ ascending (node_n_unused r) u))|].
  { intros i r Hi. apply sort_unused_here_ok; [by apply (nb_node _ _ Hw i)|].
    destruct (zlen_node_unused r (nb_node _ _ Hw i r Hi)) as [Hz _]. rewrite <- Hz.
    assert (Hle : zlen (node_unused r) <= zlen (unused_of w)); [|lia].
    rewrite <- (take_drop_middle w i r Hi), unused_of_app. unfold unused_of. cbn [map concat]. rewrite !zlen_app.
    pose proof (zlen_nonneg (concat (map node_unused (take i w)))). pose proof (zlen_nonneg (concat (map node_unused (drop (S i) w)))). lia. }
  intros [st w0] (-> & Hlen & Hsort). cbn [RSS].
  destruct (numbered_sorted t w w0 Hw Hlen) as [Hw0 Hperm].
  { intros i r Hi. destruct (Hsort i r Hi) as (r0 & Hr0 & u & Hu & Hzu & Hp & _). exists r0. split; [done|]. by exists u. }
  assert (Hasc : forall i r0, w0 !! i = Some r0 -> ascending (node_n_unused r0) (node_unused_global r0)).
  { intros i r0 Hi. destruct (w !! i) as [r|] eqn:Hr; [|apply lookup_ge_None in Hr; apply lookup_lt_Some in Hi; lia].
    destruct (Hsort i r Hr) as (r1 & Hr1 & u & -> & _ & _ & Ha). rewrite Hi in Hr1. by injection Hr1 as ->. }
  assert (Hzw : zlen w0 = zlen w) by (unfold zlen; by rewrite Hlen). assert (Hzu : zlen (unused_of w0) = zlen (unused_of w)) by (unfold zlen; by rewrite Hperm).
  destruct (zlen_unused_of w0 (nb_node _ _ Hw0)) as [Hsum Hpos].
  apply wp_bind. eapply wp_mono; [apply ref_mpi_allgather_ok|].
  { intros Hnil%(f_equal length). rewrite length_map in Hnil. unfold zlen in *. cbn in Hnil. lia. }
  intros [st counts] [-> ->]. cbn [RSS]. apply wp_bind.
  eapply wp_mono; [apply sum_counts_ok; [rewrite zlen_map; lia|done|unfold REF_INT_MAX, REF_LONG_MAX in *; lia]|].
  intros total_unused ->. replace (ztake (zlen w) (map node_n_unused w0)) with (map node_n_unused w0).
  2: { symmetry. rewrite <- Hzw, <- (zlen_map node_n_unused w0). apply ztake_full. }
  cbv zeta. set (chunk := Z.max _ 100000). clearbody chunk. rewrite Hsum. apply wp_bind.
  apply (wp_mono (fun '(st, w1) => st = REF_SUCCESS /\ length w1 = length w0 /\
    forall i r0, w0 !! i = Some r0 -> exists r, w1 !! i = Some r /\ processed (unused_of w0) 0 r0 r)).
  - rewrite <- Hzw. by apply (eliminate_slices_ok t).
  - intros [st w1] (-> & Hlen1 & Hproc). cbn [RSS].
    eapply wp_mono; [apply (everywhere_ok _ w1 (fun i _ r' => forall r0, w0 !! i = Some r0 ->
      relabelled (compact (unused_of w0)) [] (t - zlen (unused_of w0)) r0 r'))|].
    + intros i r Hr. destruct (w0 !! i) as [r0|] eqn:Hi; [|apply lookup_ge_None in Hi; apply lookup_lt_Some in Hr; lia].
      destruct (Hproc i r0 Hi) as (r1 & Hr1 & Hp1). rewrite Hr in Hr1. injection Hr1 as <-.
      eapply wp_mono; [apply (update_globals_here_ok (unused_of w0) t r0 r); try done|].
      * by apply (nb_node _ _ Hw0 i).
      * by apply (nb_old _ _ Hw0 i).
      * apply (nb_unused _ _ Hw0).
      * apply (nb_range _ _ Hw0).
      * apply (nb_start _ _ Hw0).
      * pose proof (zlen_nonneg (unused_of w)). unfold REF_INT_MAX in *. lia.
      * intros x. by apply (nb_live _ _ Hw0 i).
      * intros [st r'] [-> Hr']. split; [done|]. intros r2 Hr2. by assert (r0 = r2) as <- by congruence.
    + intros [st w'] (-> & Hlen' & Hw'). split; [done|]. split; [congruence|]. intros i r Hi.
      destruct (Hsort i r Hi) as (r0 & Hr0 & u & Hu & _). destruct (Hproc i r0 Hr0) as (r1 & Hr1 & _). destruct (Hw' i r1 Hr1) as (r' & Hr' & Hrel).
      exists r'. split; [done|]. specialize (Hrel r0 Hr0). rewrite Hu in Hrel. apply relabelled_after_sort in Hrel.
      rewrite Hzu in Hrel. destruct Hrel as [Hx1 Hx2 Hx3 Hx4 Hx5 Hx6 Hx7 Hx8]. constructor; try done. intros v Hv. rewrite Hx3 by done. by apply compact_perm.
Qed.
End synchronize.

(** ** The synchronisation *)

Section agree.
Context {D : Type} `{MPI, !MPILaws, Junk Z}.
Implicit Types (r : REF_NODE D) (w : list (REF_NODE D)).

Lemma relabelled_twice f1 u1 n1 f2 u2 n2 r r1 r2 : relabelled f1 u1 n1 r r1 -> relabelled f2 u2 n2 r1 r2 ->
  relabelled (fun x => f2 (f1 x)) u2 n2 r r2.
Proof.
  intros [Hw1 Hv1 Hg1 Hu1 Ho1 Hn1 Hm1 Hr1] [Hw2 Hv2 Hg2 Hu2 Ho2 Hn2 Hm2 Hr2]. constructor; try (done || congruence).
  - intros i Hi. rewrite Hg2 by by rewrite Hv1. by rewrite Hg1.
  - destruct Hr1 as (? & ? & ? & ? & ? & ? & ?), Hr2 as (? & ? & ? & ? & ? & ? & ?). split_and!; congruence.
Qed.

Lemma relabelled_globals f u n r r' : relabelled f u n r r' -> globals r' = map f (globals r).
Proof.
  intros Hr. unfold globals. rewrite (rl_valid _ _ _ _ _ Hr), map_map. apply map_ext_in. intros i Hi%list_elem_of_In.
  by apply (rl_global _ _ _ _ _ Hr).
Qed.

(** Numbers of the processes, one list after another. *)
Lemma concat_pointwise {A} (F : nat -> A -> list Z) (G : A -> list Z) (l l' : list A) :
  length l' = length l -> (forall i y, l !! i = Some y -> exists y', l' !! i = Some y' /\ G y' = F i y) ->
  concat (map G l') = concat (imap F l).
Proof.
  intros Hlen Hi. f_equal. apply list_eq. intros i. change (map G l') with (G <$> l'). rewrite list_lookup_fmap, list_lookup_imap.
  destruct (l !! i) as [y|] eqn:Hy; cbn [fmap option_fmap option_map].
  - destruct (Hi i y Hy) as (y' & -> & Heq). cbn. by rewrite Heq.
  - rewrite (proj2 (lookup_ge_None l' i)); [done|]. apply lookup_ge_None in Hy. lia.
Qed.

Lemma elem_of_imap {A} (F : nat -> A -> list Z) (l : list A) x :
  x ∈ concat (imap F l) <-> exists i y, l !! i = Some y /\ x ∈ F i y.
Proof.
  rewrite list_elem_of_In, in_concat. split.
  - intros (b & Hl & Hx). apply list_elem_of_In, list_elem_of_lookup in Hl as [i Hi]. rewrite list_lookup_imap in Hi.
    destruct (l !! i) as [y|] eqn:Hy; [|done]. injection Hi as <-. exists i, y. split; [done|by apply list_elem_of_In].
  - intros (i & y & Hy & Hx). exists (F i y). split; [|by apply list_elem_of_In].
    apply list_elem_of_In, list_elem_of_lookup. exists i. by rewrite list_lookup_imap, Hy.
Qed.

Lemma number_range n w i r x : world_ok n w -> w !! i = Some r -> live r x \/ x ∈ node_unused r -> 0 <= number n w i x < span n w.
Proof.
  intros Hw Hi Hx. pose proof (world_range n w i r x Hw Hi Hx) as Hr. destruct (offset_bound n w i r Hw Hi) as [Ho1 Ho2].
  pose proof (map_fresh_nonneg n w Hw) as Hpos. apply sumZ_nonneg in Hpos. unfold number, shifted, span in *.
  destruct (Z.leb_spec n x); lia.
Qed.

Lemma all_unused_range n w : world_ok n w -> Forall (fun x => 0 <= x < span n w) (all_unused n w).
Proof.
  intros Hw. apply Forall_forall. intros x (i & r & Hi & Hx)%elem_of_imap. apply list_elem_of_fmap in Hx as (g & -> & Hg).
  apply (number_range n w i r); [done|done|by right].
Qed.

Lemma live_not_unused n w i r g : world_ok n w -> w !! i = Some r -> live r g -> number n w i g ∉ all_unused n w.
Proof.
  intros Hw Hi Hg. rewrite (wo_cover _ _ Hw) by (apply (number_range n w i r); [done|done|by left]). intros Hno. apply Hno, elem_of_imap.
  exists i, r. split; [done|]. apply list_elem_of_fmap. exists g. split; [done|by apply elem_of_globals].
Qed.

Lemma shifted_numbered n w w1 :
  world_ok n w -> length w1 = length w ->
  (forall i r, w !! i = Some r -> exists r1, w1 !! i = Some r1 /\
     relabelled (number n w i) (map (number n w i) (node_unused r)) (span n w) r r1) ->
  numbered (span n w) w1 /\ unused_of w1 = all_unused n w.
Proof.
  intros Hw Hlen Hrel.
  assert (Hback : forall i r1, w1 !! i = Some r1 -> exists r, w !! i = Some r /\
     relabelled (number n w i) (map (number n w i) (node_unused r)) (span n w) r r1).
  { intros i r1 Hi. destruct (w !! i) as [r|] eqn:Hr; [|apply lookup_ge_None in Hr; apply lookup_lt_Some in Hi; lia].
    exists r. split; [done|]. destruct (Hrel i r Hr) as (r2 & Hr2 & Hu). rewrite Hi in Hr2. by injection Hr2 as <-. }
  assert (Hun : unused_of w1 = all_unused n w).
  { apply concat_pointwise; [done|]. intros i r Hi. destruct (Hrel i r Hi) as (r1 & Hr1 & Hr). exists r1. split; [done|]. apply (rl_unused _ _ _ _ _ Hr). }
  split; [|done]. assert (Hz : zlen w1 = zlen w) by (unfold zlen; by rewrite Hlen).
  pose proof (map_fresh_nonneg n w Hw) as Hpos. apply sumZ_nonneg in Hpos.
  constructor; rewrite ?Hun, ?Hz.
  - apply (wo_size _ _ Hw).
  - intros i r1 Hi. destruct (Hback i r1 Hi) as (r & Hr & Hrl). rewrite (rl_mpi _ _ _ _ _ Hrl). by apply (wo_mpi _ _ Hw i r).
  - intros i r1 Hi. destruct (Hback i r1 Hi) as (r & Hr & Hrl). apply (rl_wf _ _ _ _ _ Hrl).
  - pose proof (wo_start _ _ Hw). pose proof (wo_total _ _ Hw). unfold span in *. lia.
  - intros i r1 Hi. destruct (Hback i r1 Hi) as (r & Hr & Hrl). apply (rl_old _ _ _ _ _ Hrl).
  - assert (Hsum : zlen (all_unused n w) = sumZ (map node_n_unused w)).
    { rewrite (proj1 (zlen_unused_of w (wo_node _ _ Hw))). unfold all_unused, unused_of. clear. generalize (number n w). intros f.
      revert f. induction w as [|r w IH]; intros f; [done|]. cbn [imap map concat]. rewrite !zlen_app, zlen_map. f_equal. apply (IH (f ∘ S)). }
    rewrite Hsum. apply (wo_few _ _ Hw).
  - apply (wo_unused _ _ Hw).
  - by apply all_unused_range.
  - intros i r1 x Hi Hx. destruct (Hback i r1 Hi) as (r & Hr & Hrl). apply elem_of_globals in Hx.
    rewrite (relabelled_globals _ _ _ _ _ Hrl) in Hx. apply list_elem_of_fmap in Hx as (g & -> & Hg%elem_of_globals).
    split; [by apply (live_not_unused n w i r)|apply (number_range n w i r); [done|done|by left]].
Qed.

Lemma synchronized n w :
  world_ok n w ->
  let u := all_unused n w in
  wp (ref_node_synchronize_globals w) (fun '(st, w') => st = REF_SUCCESS /\ length w' = length w /\
    forall i r, w !! i = Some r -> exists r', w' !! i = Some r' /\
      relabelled (fun g => compact u (number n w i g)) [] (span n w - zlen u) r r').
Proof.
  intros Hw u. unfold ref_node_synchronize_globals. apply wp_bind. eapply wp_mono; [by apply ref_node_shift_new_globals_ok|].
  intros [st w1] (-> & Hlen1 & Hrel1). cbn [RSS]. destruct (shifted_numbered n w w1 Hw Hlen1 Hrel1) as [Hw1 Hun].
  eapply wp_mono; [by apply (ref_node_eliminate_unused_globals_ok (span n w))|]. intros [st w2] (-> & Hlen2 & Hrel2). rewrite Hun in Hrel2.
  split; [done|]. split; [congruence|]. intros i r Hi. destruct (Hrel1 i r Hi) as (r1 & Hr1 & Hl1). destruct (Hrel2 i r1 Hr1) as (r2 & Hr2 & Hl2).
  exists r2. split; [done|]. by eapply relabelled_twice.
Qed.

(** C4. [ref_node_synchronize_globals], run by all processes: every process returns
    [REF_SUCCESS] and no collective call waits for ever. With [number] the ranges of new
    numbers one after another, [all_unused] the numbers without a vertex and [m] the
    count of the others, every vertex gets the number [compact (all_unused n w)] of its own on
    each process that has it: so vertices have the same number afterwards exactly when they had, and
    the numbers of all vertices are those from 0 to [m - 1]. Every process is in order, without
    unused numbers, and everything else about its vertices is kept. *)
Theorem ref_node_synchronize_globals_agree n w :
  world_ok n w -> exists w', ref_node_synchronize_globals w = Some (REF_SUCCESS, w') /\ length w' = length w /\
    (forall i r, w !! i = Some r -> exists r', w' !! i = Some r' /\
       relabelled (fun g => compact (all_unused n w) (number n w i g)) [] (span n w - zlen (all_unused n w)) r r' /\
       forall h v, node_map r' !! h = Some v <-> exists g, node_map r !! g = Some v /\ h = compact (all_unused n w) (number n w i g)) /\
    (forall i j r s g h, w !! i = Some r -> w !! j = Some s -> live r g -> live s h ->
       compact (all_unused n w) (number n w i g) = compact (all_unused n w) (number n w j h) <->
       number n w i g = number n w j h) /\
    (forall h, 0 <= h < span n w - zlen (all_unused n w) <-> exists i r', w' !! i = Some r' /\ live r' h).
Proof.
  intros Hw. set (unused := all_unused n w). set (m := span n w - zlen unused). destruct (synchronized n w Hw) as ([st w'] & Heq & -> & Hlen & Hrel). exists w'. split; [done|]. split; [done|].
  pose proof (all_unused_range n w Hw) as Hur. pose proof (wo_unused _ _ Hw) as Hnd. split; [|split].
  - intros i r Hi. destruct (Hrel i r Hi) as (r' & Hr' & Hl). exists r'. split; [done|]. split; [done|].
    intros h v. by apply (relabelled_map _ _ _ _ _ h v (wo_node _ _ Hw i r Hi) Hl).
  - intros i j r s g h Hi Hj Hg Hh. apply compact_inj; [done|by apply (live_not_unused n w i r)|by apply (live_not_unused n w j s)].
  - intros h. split.
    + intros Hh. pose proof (map_fresh_nonneg n w Hw) as Hpos. apply sumZ_nonneg in Hpos. pose proof (wo_start _ _ Hw) as Hn0.
      destruct (compact_onto unused (span n w) h Hnd Hur ltac:(unfold span; lia) Hh) as (x & Hx & Hxu & <-).
      assert (Hxl : x ∈ all_live n w).
      { destruct (decide (x ∈ all_live n w)); [done|]. exfalso. apply Hxu. by apply (wo_cover _ _ Hw). }
      apply elem_of_imap in Hxl as (i & r & Hi & (g & -> & Hg)%list_elem_of_fmap). destruct (Hrel i r Hi) as (r' & Hr' & Hl).
      exists i, r'. split; [done|]. apply elem_of_globals. rewrite (relabelled_globals _ _ _ _ _ Hl). apply list_elem_of_fmap. by exists g.
    + intros (i & r' & Hr' & Hh). destruct (w !! i) as [r|] eqn:Hi; [|apply lookup_ge_None in Hi; apply lookup_lt_Some in Hr'; lia].
      destruct (Hrel i r Hi) as (r2 & Hr2 & Hl). assert (r' = r2) as -> by congruence. apply elem_of_globals in Hh.
      rewrite (relabelled_globals _ _ _ _ _ Hl) in Hh. apply list_elem_of_fmap in Hh as (g & -> & Hg%elem_of_globals).
      apply compact_range; [done|done|by apply (live_not_unused n w i r)|apply (number_range n w i r); [done|done|by left]].
Qed.
End agree.

(** ** Example

    Two processes that agree on the numbers 0 to 3. The first has 0, 1 and 2, made one
    vertex and removed 1; the second has a copy of 2 and 3, made two and removed the first of them. *)
Module GlobalsExample.
#[local] Existing Instances NodeExample.double NodeExample.junk_double NodeExample.junk_int.

#[local] Instance mpi_calls : MPI := {|
  MPI_Allgather scalars := scalars;
  MPI_Allgatherv counts arrays := concat (zip_with ztake counts arrays)
|}.
#[local] Instance mpi_laws : MPILaws.
Proof. by constructor. Qed.

Definition process (rank n_new : Z) (commands : list node_command) : REF_NODE spec_float :=
  match (let* '(_, r) := ref_node_create (mkREF_MPI 2 rank 0) in run node_exec commands r) with
  | Some (_, r) => set_node_new_n_global (4 + n_new) (set_node_old_n_global 4 r)
  | None => NodeExample.empty_node
  end.
Definition commands0 : list node_command := map NodeAdd [0; 1; 2; 4] ++ [NodeRemove 1].
Definition commands1 : list node_command := map NodeAdd [2; 3; 4; 5] ++ [NodeRemove 2].
Definition processes : list (REF_NODE spec_float) := [process 0 1 commands0; process 1 2 commands1].

Lemma process_wf rank n_new commands : zlen commands <= node_budget -> node_wf (process rank n_new commands).
Proof.
  intros Hz. destruct (node_run_ok (D:=spec_float) (mkREF_MPI 2 rank 0) commands Hz) as (r0 & os & r & a & Hc & Hr & _ & [[bl Hwf] Hs] & _).
  unfold process. rewrite Hc. cbn [obind]. rewrite Hr. split; [exists bl; by destruct Hwf|by destruct Hs].
Qed.

Lemma two_all {A} (a b : A) (P : nat -> A -> Prop) : P 0%nat a -> P 1%nat b -> forall i x, [a; b] !! i = Some x -> P i x.
Proof. intros Ha Hb [|[|i]] x; [by intros [= <-]|by intros [= <-]|done]. Qed.
Lemma processes_all (P : nat -> REF_NODE spec_float -> Prop) :
  P 0%nat (process 0 1 commands0) -> P 1%nat (process 1 2 commands1) -> forall i r, processes !! i = Some r -> P i r.
Proof. apply (two_all (process 0 1 commands0) (process 1 2 commands1)). Qed.

Lemma processes_ok : world_ok 4 processes.
Proof.
  constructor.
  - split; vm_compute; congruence.
  - apply processes_all; split; vm_compute; reflexivity.
  - apply processes_all; apply process_wf; vm_compute; congruence.
  - lia.
  - apply processes_all; (split; [vm_compute; reflexivity|split; vm_compute; congruence]).
  - vm_compute. congruence.
  - vm_compute. congruence.
  - apply processes_all; apply (bool_decide_unpack _); vm_compute; exact I.
  - apply (bool_decide_unpack _). vm_compute. exact I.
  - assert (Hall : Forall (fun x => x ∈ all_unused 4 processes <-> x ∉ all_live 4 processes) (seqZ 0 (span 4 processes)))
      by (apply (bool_decide_unpack _); vm_compute; exact I).
    intros x Hx. rewrite Forall_forall in Hall. apply Hall, elem_of_seqZ. lia.
Qed.
End GlobalsExample.

#[local] Existing Instances NodeExample.double NodeExample.junk_double NodeExample.junk_int GlobalsExample.mpi_calls GlobalsExample.mpi_laws.
Lemma ref_node_synchronize_globals_agree_witness :
  world_ok 4 GlobalsExample.processes /\
  exists w', ref_node_synchronize_globals GlobalsExample.processes = Some (REF_SUCCESS, w') /\
    map globals GlobalsExample.processes = [[0; 2; 4]; [2; 3; 5]] /\ map globals w' = [[0; 1; 3]; [1; 2; 4]] /\
    forall h, 0 <= h < 5 <-> exists i r', w' !! i = Some r' /\ live r' h.
Proof.
  split; [exact GlobalsExample.processes_ok|].
  destruct (ref_node_synchronize_globals_agree 4 GlobalsExample.processes GlobalsExample.processes_ok) as (w' & Hrun & Hlen & Hrel & _ & Hall).
  exists w'. split; [exact Hrun|]. split; [vm_compute; reflexivity|]. split; [|exact Hall].
  destruct w' as [|r0 [|r1 [|r2 w']]]; [discriminate Hlen|discriminate Hlen| |discriminate Hlen].
  destruct (Hrel 0%nat _ eq_refl) as (x0 & [= <-] & H0 & _), (Hrel 1%nat _ eq_refl) as (x1 & [= <-] & H1 & _).
  cbn [map]. rewrite (relabelled_globals _ _ _ _ _ H0), (relabelled_globals _ _ _ _ _ H1). vm_compute. reflexivity.
Defined.
