(* ===== verification/RefCellType.v ===== *)
(** * ref_cell.c: the element types and their tables

    The tables that [ref_cell_initialize] fills for an element type: how many
    nodes, edges and faces it has and which of its nodes they join, the
    keywords of the meshb format and the shape functions. The theorems check the
    tables against what they stand for: the faces of a volume element close up
    to an oriented surface whose edges are the edges of the element, and the
    shape functions interpolate. *)
From S2P Require Import Prelude RefDbl.
From stdpp Require Import prelude list.
From Stdlib Require Import ZArith QArith Qcanon Lia Field.
Open Scope Z_scope.
Open Scope ref_scope.
Open Scope dbl_scope.

Inductive REF_CELL_TYPE :=
  | REF_CELL_EDG
  | REF_CELL_ED2
  | REF_CELL_ED3
  | REF_CELL_TRI
  | REF_CELL_TR2
  | REF_CELL_TR3
  | REF_CELL_QUA
  | REF_CELL_QU2
  | REF_CELL_TET
  | REF_CELL_PYR
  | REF_CELL_PRI
  | REF_CELL_HEX
  | REF_CELL_TE2
  | REF_CELL_PY2
  | REF_CELL_PR2
  | REF_CELL_HE2.

#[global] Instance REF_CELL_TYPE_eq_dec : EqDecision REF_CELL_TYPE.
Proof. solve_decision. Defined.

Definition REF_CELL_MAX_SIZE_PER : Z := 27.

(** The switches of [ref_cell_initialize], one function each. *)
Definition init_last_node_is_an_id (type : REF_CELL_TYPE) : bool :=
  match type with
  | REF_CELL_EDG | REF_CELL_ED2 | REF_CELL_ED3 | REF_CELL_TRI | REF_CELL_TR2 | REF_CELL_TR3
  | REF_CELL_QUA | REF_CELL_QU2 => true
  | REF_CELL_TET | REF_CELL_PYR | REF_CELL_PRI | REF_CELL_HEX | REF_CELL_TE2 | REF_CELL_PY2
  | REF_CELL_PR2 | REF_CELL_HE2 => false
  end.

Definition init_node_per (type : REF_CELL_TYPE) : Z :=
  match type with
  | REF_CELL_EDG => 2
  | REF_CELL_ED2 => 3
  | REF_CELL_ED3 => 4
  | REF_CELL_TRI => 3
  | REF_CELL_TR2 => 6
  | REF_CELL_TR3 => 10
  | REF_CELL_QUA => 4
  | REF_CELL_QU2 => 9
  | REF_CELL_TET => 4
  | REF_CELL_PYR => 5
  | REF_CELL_PRI => 6
  | REF_CELL_HEX => 8
  | REF_CELL_TE2 => 10
  | REF_CELL_PY2 => 14
  | REF_CELL_PR2 => 18
  | REF_CELL_HE2 => 27
  end.

Definition init_edge_per (type : REF_CELL_TYPE) : Z :=
  match type with
  | REF_CELL_EDG | REF_CELL_ED2 | REF_CELL_ED3 => 1
  | REF_CELL_TRI | REF_CELL_TR2 | REF_CELL_TR3 => 3
  | REF_CELL_QUA | REF_CELL_QU2 => 4
  | REF_CELL_TET | REF_CELL_TE2 => 6
  | REF_CELL_PYR | REF_CELL_PY2 => 8
  | REF_CELL_PRI | REF_CELL_PR2 => 9
  | REF_CELL_HEX | REF_CELL_HE2 => 12
  end.

(** [e2n[node + 2 * edge]] *)
Definition init_e2n (type : REF_CELL_TYPE) : list Z :=
  match type with
  | REF_CELL_EDG | REF_CELL_ED2 | REF_CELL_ED3 => [0; 1]
  | REF_CELL_TRI | REF_CELL_TR2 | REF_CELL_TR3 => [0; 1;  1; 2;  2; 0]
  | REF_CELL_QUA | REF_CELL_QU2 => [0; 1;  1; 2;  2; 3;  3; 0]
  | REF_CELL_TET | REF_CELL_TE2 => [0; 1;  0; 2;  0; 3;  1; 2;  1; 3;  2; 3]
  | REF_CELL_PYR | REF_CELL_PY2 => [0; 1;  0; 2;  0; 3;  1; 2;  1; 4;  2; 3;  2; 4;  3; 4]
  | REF_CELL_PRI | REF_CELL_PR2 =>
      [0; 1;  0; 2;  0; 3;  1; 2;  1; 4;  2; 5;  3; 4;  3; 5;  4; 5]
  | REF_CELL_HEX | REF_CELL_HE2 =>
      [0; 1;  0; 3;  0; 4;  1; 2;  1; 5;  2; 3;  2; 6;  3; 7;  4; 5;  4; 7;  5; 6;  6; 7]
  end.

Definition init_face_per (type : REF_CELL_TYPE) : Z :=
  match type with
  | REF_CELL_EDG | REF_CELL_ED2 | REF_CELL_ED3 => 0
  | REF_CELL_TRI | REF_CELL_TR2 | REF_CELL_TR3 => 1
  | REF_CELL_QUA | REF_CELL_QU2 => 1
  | REF_CELL_TET | REF_CELL_TE2 => 4
  | REF_CELL_PYR | REF_CELL_PY2 => 5
  | REF_CELL_PRI | REF_CELL_PR2 => 5
  | REF_CELL_HEX | REF_CELL_HE2 => 6
  end.

(** [f2n[node + 4 * face]]; the last node of a triangle repeats its first. *)
Definition init_f2n (type : REF_CELL_TYPE) : list Z :=
  match type with
  | REF_CELL_EDG | REF_CELL_ED2 | REF_CELL_ED3 => []
  | REF_CELL_TRI | REF_CELL_TR2 | REF_CELL_TR3 => [0; 1; 2; 0]
  | REF_CELL_QUA | REF_CELL_QU2 => [0; 1; 2; 3]
  | REF_CELL_TET | REF_CELL_TE2 => [1; 3; 2; 1;  0; 2; 3; 0;  0; 3; 1; 0;  0; 1; 2; 0]
  | REF_CELL_PYR | REF_CELL_PY2 =>
      [0; 1; 2; 0;  1; 4; 2; 1;  2; 4; 3; 2;  0; 2; 3; 0;  0; 3; 4; 1]
  | REF_CELL_PRI | REF_CELL_PR2 =>
      [0; 3; 4; 1;  1; 4; 5; 2;  0; 2; 5; 3;  0; 1; 2; 0;  3; 5; 4; 3]
  | REF_CELL_HEX | REF_CELL_HE2 =>
      [0; 3; 7; 4;  1; 5; 6; 2;  0; 4; 5; 1;  2; 6; 7; 3;  0; 1; 2; 3;  4; 7; 6; 5]
  end.

(** The members that [ref_cell_initialize] sets. *)
Record CELL_TABLES := mkCELL_TABLES {
  cell_type : REF_CELL_TYPE;
  last_node_is_an_id : bool;
  size_per : Z;
  node_per : Z;
  edge_per : Z;
  face_per : Z;
  cell_e2n : list Z;
  cell_f2n : list Z
}.

Definition ref_cell_initialize (type : REF_CELL_TYPE) : REF_STATUS * CELL_TABLES :=
  (REF_SUCCESS,
   mkCELL_TABLES type (init_last_node_is_an_id type)
     (init_node_per type + (if init_last_node_is_an_id type then 1 else 0))
     (init_node_per type) (init_edge_per type) (init_face_per type) (init_e2n type)
     (init_f2n type)).

Definition ref_cell_e2n_gen (t : CELL_TABLES) (node edge : Z) : option Z :=
  aget (cell_e2n t) (node + 2 * edge).
Definition ref_cell_f2n_gen (t : CELL_TABLES) (node face : Z) : option Z :=
  aget (cell_f2n t) (node + 4 * face).

(** [n] is one of the four entries of the face ([||] of the four tests). *)
Definition face_has_node (t : CELL_TABLES) (n face : Z) : option bool :=
  let* f0 := ref_cell_f2n_gen t 0 face in
  let* f1 := ref_cell_f2n_gen t 1 face in
  let* f2 := ref_cell_f2n_gen t 2 face in
  let* f3 := ref_cell_f2n_gen t 3 face in
  Some ((n =? f0) || (n =? f1) || (n =? f2) || (n =? f3)).

(** The pair is [*face0] and [*face1]. *)
Definition ref_cell_gen_edge_face (t : CELL_TABLES) (edge : Z) : option (REF_STATUS * (Z * Z)) :=
  let* node0 := ref_cell_e2n_gen t 0 edge in
  let* node1 := ref_cell_e2n_gen t 1 edge in
  let* c :=
    forx_up 0 (face_per t) (fun face '(face0, face1) =>
      let* have_node0 := face_has_node t node0 face in
      let* have_node1 := face_has_node t node1 face in
      if have_node0 && have_node1 then
        if face0 =? REF_EMPTY then Some (Next (face, face1))
        else if REF_EMPTY =? face1 then Some (Next (face0, face))
        else Some (Exit (REF_FAILURE, (face0, face1)))
      else Some (Next (face0, face1))) (REF_EMPTY, REF_EMPTY) in
  match c with
  | Exit r => Some r
  | Next (face0, face1) =>
      RAS (negb (REF_EMPTY =? face0)) (face0, face1) (
      RAS (negb (REF_EMPTY =? face1)) (face0, face1) (
      Some (REF_SUCCESS, (face0, face1))))
  end.

Definition ref_cell_meshb_keyword (t : CELL_TABLES) : REF_STATUS * Z :=
  match cell_type t with
  | REF_CELL_EDG => (REF_SUCCESS, 5)
  | REF_CELL_ED2 => (REF_SUCCESS, 25)
  | REF_CELL_ED3 => (REF_SUCCESS, 92)
  | REF_CELL_TRI => (REF_SUCCESS, 6)
  | REF_CELL_TR2 => (REF_SUCCESS, 24)
  | REF_CELL_TR3 => (REF_SUCCESS, 90)
  | REF_CELL_QUA => (REF_SUCCESS, 7)
  | REF_CELL_QU2 => (REF_SUCCESS, 27)
  | REF_CELL_TET => (REF_SUCCESS, 8)
  | REF_CELL_PYR => (REF_SUCCESS, 49)
  | REF_CELL_PRI => (REF_SUCCESS, 9)
  | REF_CELL_HEX => (REF_SUCCESS, 10)
  | REF_CELL_TE2 => (REF_SUCCESS, 30)
  | REF_CELL_PY2 => (REF_SUCCESS, 87)
  | REF_CELL_PR2 => (REF_SUCCESS, 86)
  | REF_CELL_HE2 => (REF_SUCCESS, 33)
  end.

(** ** Shape functions *)

Section shape.
Context {D : Type} `{Dbl D}.

(** [for (cell_node = 0; cell_node < n; cell_node++) shape[cell_node] = ...] *)
Definition copy_bary (n : Z) (bary shape : list D) : option (list D) :=
  for_up 0 n (fun cell_node shape =>
    let* b := aget bary cell_node in aset shape cell_node b) shape.
Definition zero_shape (n : Z) (shape : list D) : option (list D) :=
  for_up 0 n (fun cell_node shape => aset shape cell_node (dofZ 0)) shape.

(** The cubic functions: of a corner with coordinate [a], and of the node on the
    edge from [a] to [b] that is nearer to [c]. *)
Definition cubic_corner (a : D) : D :=
  dofZ 9 /! dofZ 2 *! a *! (a -! dofZ 1 /! dofZ 3) *! (a -! dofZ 2 /! dofZ 3).
Definition cubic_edge (a b c : D) : D :=
  dofZ 27 /! dofZ 2 *! a *! b *! (c -! dofZ 1 /! dofZ 3).

Definition half : D := dofZ 1 /! dofZ 2.

(** The array is [shape]. *)
Definition ref_cell_shape (cell_type : REF_CELL_TYPE) (bary shape : list D)
    : option (REF_STATUS * list D) :=
  match cell_type with
  | REF_CELL_EDG => let* shape := copy_bary 2 bary shape in Some (REF_SUCCESS, shape)
  | REF_CELL_TRI => let* shape := copy_bary 3 bary shape in Some (REF_SUCCESS, shape)
  | REF_CELL_TET => let* shape := copy_bary 4 bary shape in Some (REF_SUCCESS, shape)
  | REF_CELL_ED2 =>
      let* b0 := aget bary 0 in
      let* b1 := aget bary 1 in
      let* shape := aset shape 2 (dofZ 4 *! b0 *! b1) in
      let* s2 := aget shape 2 in
      let* shape := aset shape 0 (b0 -! half *! s2) in
      let* shape := aset shape 1 (b1 -! half *! s2) in
      Some (REF_SUCCESS, shape)
  | REF_CELL_ED3 =>
      let* b0 := aget bary 0 in
      let* b1 := aget bary 1 in
      let* shape := aset shape 0 (cubic_corner b0) in
      let* shape := aset shape 1 (cubic_corner b1) in
      let* shape := aset shape 2 (cubic_edge b0 b1 b0) in
      let* shape := aset shape 3 (cubic_edge b1 b0 b1) in
      Some (REF_SUCCESS, shape)
  | REF_CELL_TR2 =>
      let* b0 := aget bary 0 in
      let* b1 := aget bary 1 in
      let* b2 := aget bary 2 in
      let* shape := aset shape 3 (dofZ 4 *! b0 *! b1) in
      let* shape := aset shape 4 (dofZ 4 *! b1 *! b2) in
      let* shape := aset shape 5 (dofZ 4 *! b2 *! b0) in
      let* s3 := aget shape 3 in
      let* s4 := aget shape 4 in
      let* s5 := aget shape 5 in
      let* shape := aset shape 0 (b0 -! half *! s3 -! half *! s5) in
      let* shape := aset shape 1 (b1 -! half *! s3 -! half *! s4) in
      let* shape := aset shape 2 (b2 -! half *! s4 -! half *! s5) in
      Some (REF_SUCCESS, shape)
  | REF_CELL_TR3 =>
      let* b0 := aget bary 0 in
      let* b1 := aget bary 1 in
      let* b2 := aget bary 2 in
      let* shape := aset shape 0 (cubic_corner b0) in
      let* shape := aset shape 1 (cubic_corner b1) in
      let* shape := aset shape 2 (cubic_corner b2) in
      let* shape := aset shape 3 (cubic_edge b0 b1 b0) in
      let* shape := aset shape 4 (cubic_edge b0 b1 b1) in
      let* shape := aset shape 5 (cubic_edge b1 b2 b1) in
      let* shape := aset shape 6 (cubic_edge b1 b2 b2) in
      let* shape := aset shape 7 (cubic_edge b2 b0 b2) in
      let* shape := aset shape 8 (cubic_edge b2 b0 b0) in
      let* shape := aset shape 9 (dofZ 27 *! b0 *! b1 *! b2) in
      Some (REF_SUCCESS, shape)
  | REF_CELL_QUA => let* shape := zero_shape 4 shape in Some (REF_IMPLEMENT, shape)
  | REF_CELL_QU2 => let* shape := zero_shape 9 shape in Some (REF_IMPLEMENT, shape)
  | REF_CELL_PYR => let* shape := zero_shape 5 shape in Some (REF_IMPLEMENT, shape)
  | REF_CELL_PRI => let* shape := zero_shape 6 shape in Some (REF_IMPLEMENT, shape)
  | REF_CELL_HEX => let* shape := zero_shape 8 shape in Some (REF_IMPLEMENT, shape)
  | REF_CELL_TE2 => let* shape := zero_shape 10 shape in Some (REF_IMPLEMENT, shape)
  | REF_CELL_PY2 => let* shape := zero_shape 14 shape in Some (REF_IMPLEMENT, shape)
  | REF_CELL_PR2 => let* shape := zero_shape 18 shape in Some (REF_IMPLEMENT, shape)
  | REF_CELL_HE2 => let* shape := zero_shape 27 shape in Some (REF_IMPLEMENT, shape)
  end.
End shape.

(** ** The faces of a volume element *)

(** The entries of table [a] for one element of it, [per] apart. *)
Definition table_row (per : Z) (a : list Z) (i : Z) : list Z :=
  map (fun k => a.[k + per * i]) (zrange per).

(** The corners of a face in order; a triangle repeats its first. *)
Definition face_cycle (type : REF_CELL_TYPE) (face : Z) : list Z :=
  let row := table_row 4 (init_f2n type) face in
  if row.[3] =? row.[0] then ztake 3 row else row.

(** The edges of a face, in the direction of its corners. *)
Definition cycle_edges (l : list Z) : list (Z * Z) :=
  match l with
  | [] => []
  | x :: l' => zip l (l' ++ [x])
  end.

Definition surface_edges (type : REF_CELL_TYPE) : list (Z * Z) :=
  concat (map (fun face => cycle_edges (face_cycle type face)) (zrange (init_face_per type))).

Definition cell_edges (type : REF_CELL_TYPE) : list (Z * Z) :=
  map (fun edge => ((init_e2n type).[2 * edge], (init_e2n type).[2 * edge + 1]))
    (zrange (init_edge_per type)).

(** The element types without an id are the volume elements. *)
Definition is_volume (type : REF_CELL_TYPE) : Prop := init_last_node_is_an_id type = false.

Definition swap_pair (e : Z * Z) : Z * Z := (snd e, fst e).

(** C19. The faces of a volume element close up to an oriented surface: no two
    faces run along an edge in the same direction, each edge is run along in both
    directions, and the edges of the surface are the edges of the element. *)
Theorem volume_faces_close (type : REF_CELL_TYPE) :
  is_volume type ->
  NoDup (surface_edges type) /\
  (forall e, e ∈ surface_edges type -> swap_pair e ∈ surface_edges type) /\
  (forall e, e ∈ surface_edges type <-> e ∈ cell_edges type \/ swap_pair e ∈ cell_edges type).
Proof.
  intros Hv.
  assert (Hb : bool_decide (NoDup (surface_edges type)) &&
    bool_decide (Forall (fun e => swap_pair e ∈ surface_edges type) (surface_edges type)) &&
    bool_decide (Forall (fun e => e ∈ cell_edges type \/ swap_pair e ∈ cell_edges type)
      (surface_edges type)) &&
    bool_decide (Forall (fun e => e ∈ surface_edges type) (cell_edges type)) = true)
    by (destruct type; vm_compute in Hv |- *; done).
  rewrite !andb_true_iff, !bool_decide_eq_true, !Forall_forall in Hb.
  destruct Hb as [[[Hnd Hsw] Hto] Hfrom]. split; [done|]. split; [done|].
  intros [a b]. split; [apply Hto|]. intros [He|He]; [by apply Hfrom|]. by apply Hfrom, Hsw in He.
Qed.

Lemma volume_faces_close_witness :
  surface_edges REF_CELL_TET =
    [(1, 3); (3, 2); (2, 1); (0, 2); (2, 3); (3, 0); (0, 3); (3, 1); (1, 0); (0, 1); (1, 2); (2, 0)] /\
  NoDup (surface_edges REF_CELL_TET) /\
  (forall e, e ∈ surface_edges REF_CELL_TET -> swap_pair e ∈ surface_edges REF_CELL_TET) /\
  (forall e, e ∈ surface_edges REF_CELL_TET <->
     e ∈ cell_edges REF_CELL_TET \/ swap_pair e ∈ cell_edges REF_CELL_TET).
Proof. split; [reflexivity|]. apply (volume_faces_close REF_CELL_TET). reflexivity. Defined.

Definition has_edge (type : REF_CELL_TYPE) (edge face : Z) : Prop :=
  (init_e2n type).[2 * edge] ∈ table_row 4 (init_f2n type) face /\
  (init_e2n type).[2 * edge + 1] ∈ table_row 4 (init_f2n type) face.

(** What [ref_cell_gen_edge_face] should return. *)
Definition edge_faces_ok (type : REF_CELL_TYPE) (edge : Z) : Prop :=
  match ref_cell_gen_edge_face (snd (ref_cell_initialize type)) edge with
  | Some (st, (face0, face1)) =>
      st = REF_SUCCESS /\ 0 <= face0 < face1 /\ face1 < init_face_per type /\
      Forall (fun face => has_edge type edge face <-> face = face0 \/ face = face1)
        (zrange (init_face_per type))
  | None => False
  end.
#[local] Instance edge_faces_ok_dec type edge : Decision (edge_faces_ok type edge).
Proof.
  unfold edge_faces_ok. destruct (ref_cell_gen_edge_face _ _) as [[st [f0 f1]]|]; [|apply _].
  unfold has_edge. apply _.
Defined.

(** C20. For an edge of a volume element [ref_cell_gen_edge_face] returns the
    two faces that have both nodes of the edge. *)
Theorem ref_cell_gen_edge_face_finds (type : REF_CELL_TYPE) (edge : Z) :
  is_volume type -> 0 <= edge < init_edge_per type ->
  exists face0 face1,
    ref_cell_gen_edge_face (snd (ref_cell_initialize type)) edge = Some (REF_SUCCESS, (face0, face1)) /\
    0 <= face0 < face1 /\ face1 < init_face_per type /\
    forall face, 0 <= face < init_face_per type ->
      has_edge type edge face <-> face = face0 \/ face = face1.
Proof.
  intros Hv He.
  assert (Hb : bool_decide (Forall (edge_faces_ok type) (zrange (init_edge_per type))) = true)
    by (destruct type; vm_compute in Hv |- *; done).
  rewrite bool_decide_eq_true, Forall_forall in Hb.
  specialize (Hb edge (proj2 (elem_of_zrange _ _) He)). unfold edge_faces_ok in Hb.
  destruct (ref_cell_gen_edge_face _ _) as [[st [face0 face1]]|]; [|done].
  destruct Hb as (-> & Hf & Hf1 & Hall). rewrite Forall_forall in Hall.
  exists face0, face1. split; [done|]. split; [done|]. split; [done|].
  intros face Hface. apply Hall. by apply elem_of_zrange.
Qed.

Lemma ref_cell_gen_edge_face_finds_witness :
  exists face0 face1,
    ref_cell_gen_edge_face (snd (ref_cell_initialize REF_CELL_HEX)) 4 =
      Some (REF_SUCCESS, (face0, face1)) /\
    0 <= face0 < face1 /\ face1 < 6 /\
    forall face, 0 <= face < 6 -> has_edge REF_CELL_HEX 4 face <-> face = face0 \/ face = face1.
Proof.
  apply (ref_cell_gen_edge_face_finds REF_CELL_HEX 4); [reflexivity|]. vm_compute. split; congruence.
Defined.

(** ** Interpolation *)

(** The number of barycentric coordinates of the elements with shape functions. *)
Definition shape_corners (type : REF_CELL_TYPE) : option Z :=
  match type with
  | REF_CELL_EDG | REF_CELL_ED2 | REF_CELL_ED3 => Some 2
  | REF_CELL_TRI | REF_CELL_TR2 | REF_CELL_TR3 => Some 3
  | REF_CELL_TET => Some 4
  | _ => None
  end.

(** The nodes of an element in barycentric coordinates, in units of one over
    the order of the element. *)
Definition node_bary (type : REF_CELL_TYPE) : Z * list (list Z) :=
  match type with
  | REF_CELL_EDG => (1, [[1; 0]; [0; 1]])
  | REF_CELL_ED2 => (2, [[2; 0]; [0; 2]; [1; 1]])
  | REF_CELL_ED3 => (3, [[3; 0]; [0; 3]; [2; 1]; [1; 2]])
  | REF_CELL_TRI => (1, [[1; 0; 0]; [0; 1; 0]; [0; 0; 1]])
  | REF_CELL_TR2 =>
      (2, [[2; 0; 0]; [0; 2; 0]; [0; 0; 2]; [1; 1; 0]; [0; 1; 1]; [1; 0; 1]])
  | REF_CELL_TR3 =>
      (3, [[3; 0; 0]; [0; 3; 0]; [0; 0; 3]; [2; 1; 0]; [1; 2; 0]; [0; 2; 1]; [0; 1; 2];
           [1; 0; 2]; [2; 0; 1]; [1; 1; 1]])
  | REF_CELL_TET => (1, [[1; 0; 0; 0]; [0; 1; 0; 0]; [0; 0; 1; 0]; [0; 0; 0; 1]])
  | _ => (1, [])
  end.

Section shape_laws.
Context {D : Type} `{DblField D, !DblChar0 D}.

Add Field dbl_field_shape : dbl_field.

Definition dtotal (l : list D) : D := foldr dadd (dofZ 0) l.

(** The [k]th unit vector. *)
Definition unit_shape (n k : Z) : list D :=
  map (fun i => if i =? k then dofZ 1 else dofZ 0) (zrange n).

Lemma dofZ_2 : dofZ 2 = dofZ 1 +! dofZ 1 :> D.
Proof. by rewrite <- dofZ_add. Qed.
Lemma dofZ_3 : dofZ 3 = dofZ 1 +! dofZ 1 +! dofZ 1 :> D.
Proof. by rewrite <- !dofZ_add. Qed.
Lemma dofZ_4 : dofZ 4 = dofZ 2 +! dofZ 2 :> D.
Proof. by rewrite <- dofZ_add. Qed.
Lemma dofZ_9 : dofZ 9 = dofZ 3 +! dofZ 3 +! dofZ 3 :> D.
Proof. by rewrite <- !dofZ_add. Qed.
Lemma dofZ_27 : dofZ 27 = dofZ 9 +! dofZ 9 +! dofZ 9 :> D.
Proof. by rewrite <- !dofZ_add. Qed.

Lemma one_nonzero : dofZ 1 <> dofZ 0 :> D.
Proof. by apply dofZ_nonzero. Qed.
Lemma two_nonzero : dofZ 1 +! dofZ 1 <> dofZ 0 :> D.
Proof. rewrite <- dofZ_2. by apply dofZ_nonzero. Qed.
Lemma three_nonzero : dofZ 1 +! dofZ 1 +! dofZ 1 <> dofZ 0 :> D.
Proof. rewrite <- dofZ_3. by apply dofZ_nonzero. Qed.

Lemma three_nonzero' : dofZ 1 +! (dofZ 1 +! dofZ 1) <> dofZ 0 :> D.
Proof. rewrite <- dofZ_2, <- dofZ_add. by apply dofZ_nonzero. Qed.

(** Equations between rational expressions with these literals. *)
Ltac literal_field :=
  unfold cubic_corner, cubic_edge, half in *;
  rewrite ?dofZ_27, ?dofZ_9, ?dofZ_4, ?dofZ_3, ?dofZ_2 in *;
  field; try split_and!; first [exact two_nonzero | exact three_nonzero | exact three_nonzero' | idtac].

(** Evaluate on arrays of known length, but not the arithmetic. *)
Ltac shape_cbv := cbv -[dofZ dadd dsub dmul ddiv dopp].
Ltac to_elements l Hl :=
  repeat (let x := fresh "x" in
    destruct l as [|x l]; [try (exfalso; unfold zlen in Hl; cbn in Hl; lia)|
                           try (exfalso; unfold zlen in Hl; cbn in Hl; lia)]).

(** The shape functions sum up to one wherever the barycentric coordinates
    do (in exact arithmetic). *)
Theorem ref_cell_shape_partition (type : REF_CELL_TYPE) (n : Z) (bary shape : list D) :
  shape_corners type = Some n -> zlen bary = n -> zlen shape = init_node_per type ->
  dtotal bary = dofZ 1 ->
  exists s, ref_cell_shape type bary shape = Some (REF_SUCCESS, s) /\
    zlen s = init_node_per type /\ dtotal s = dofZ 1.
Proof.
  intros Hn Hb Hs Ht.
  destruct type; cbn in Hn, Hs; injection Hn as <- || done;
  to_elements bary Hb; to_elements shape Hs; cbn in Ht;
  (eexists; split; [shape_cbv; reflexivity|]; split; [reflexivity|]; cbn [dtotal foldr]).
  all: (match type of Ht with ?x +! ?r = _ =>
     assert (x = dofZ 1 -! r) as -> by (rewrite <- Ht; ring) end);
  try (by ring); literal_field.
Qed.

(** C21. At the nodes of the element the shape functions are the unit vectors:
    they interpolate the values at the nodes. *)
Theorem ref_cell_shape_interpolates (type : REF_CELL_TYPE) (k : Z) (shape : list D) :
  shape_corners type <> None -> 0 <= k < init_node_per type -> zlen shape = init_node_per type ->
  ref_cell_shape type
    (map (fun z => dofZ z /! dofZ (fst (node_bary type))) (snd (node_bary type)).[k]) shape =
  Some (REF_SUCCESS, unit_shape (init_node_per type) k).
Proof.
  intros Hc Hk Hs. apply elem_of_zrange in Hk.
  destruct type; try (exfalso; by apply Hc); cbn in Hs; to_elements shape Hs;
  unfold zrange in Hk; cbn in Hk;
  repeat (apply elem_of_cons in Hk as [->|Hk]; [shape_cbv; repeat f_equal|]).
  all: try (by apply not_elem_of_nil in Hk).
  all: literal_field; exact one_nonzero.
Qed.
End shape_laws.

#[local] Instance rational_shape : Dbl Qc := rational id id id.
#[local] Instance rational_shape_field : DblField Qc := rational_field id id id.
#[local] Instance rational_shape_char0 : DblChar0 Qc := rational_char0 id id id.

Lemma ref_cell_shape_partition_witness :
  dtotal (map (fun z => dofZ z /! dofZ 6) [1; 2; 3]) = (dofZ 1 : Qc) /\
  exists s, ref_cell_shape REF_CELL_TR2 (map (fun z => dofZ z /! dofZ 6) [1; 2; 3])
      (replicate 6 (dofZ 0)) = Some (REF_SUCCESS, s) /\
    zlen s = 6 /\ dtotal s = (dofZ 1 : Qc).
Proof.
  split; [apply Qc_is_canon; vm_compute; reflexivity|].
  apply (ref_cell_shape_partition REF_CELL_TR2 3); [reflexivity..|].
  apply Qc_is_canon. vm_compute. reflexivity.
Defined.

Lemma ref_cell_shape_interpolates_witness :
  ref_cell_shape REF_CELL_TR3 (map (fun z => dofZ z /! dofZ 3) [1; 1; 1]) (replicate 10 (dofZ 0)) =
  Some (REF_SUCCESS, unit_shape (D := Qc) 10 9).
Proof.
  apply (ref_cell_shape_interpolates REF_CELL_TR3 9); [discriminate|cbn; lia|reflexivity].
Defined.
