(* ===== verification/RefCell.v ===== *)
(** * ref_cell.c: the elements of one type

    [REF_CELL] keeps the nodes of every element in one array [c2n], [size_per]
    entries per element, threads the unused elements through it, and registers
    every element with its nodes in a [REF_ADJ]. [cell_wf] is the invariant of
    the operations: the unused elements are exactly the ones on the list, and the
    adjacency lists an element under a node as often as the element has the node.
    The theorems refine the operations that change the state to the ones of a
    finite map from elements to their nodes. *)
From S2P Require Import Prelude Rows RefSort RefAdj RefDbl RefMpi RefNode RefCellType.
From stdpp Require Import prelude list gmap.
From Stdlib Require Import ZArith Lia.
Open Scope Z_scope.
Open Scope ref_scope.

(** [cell_tables] are the members that depend on the type only. *)
Record REF_CELL := mkREF_CELL {
  cell_tables : CELL_TABLES;
  cell_n : Z;
  cell_max : Z;
  cell_blank : Z;
  cell_c2n : list Z;
  cell_adj : REF_ADJ
}.

(** Assignments to one member. *)
Definition set_cell_n (x : Z) (r : REF_CELL) : REF_CELL :=
  mkREF_CELL (cell_tables r) x (cell_max r) (cell_blank r) (cell_c2n r) (cell_adj r).
Definition set_cell_max (x : Z) (r : REF_CELL) : REF_CELL :=
  mkREF_CELL (cell_tables r) (cell_n r) x (cell_blank r) (cell_c2n r) (cell_adj r).
Definition set_cell_blank (x : Z) (r : REF_CELL) : REF_CELL :=
  mkREF_CELL (cell_tables r) (cell_n r) (cell_max r) x (cell_c2n r) (cell_adj r).
Definition set_cell_c2n (x : list Z) (r : REF_CELL) : REF_CELL :=
  mkREF_CELL (cell_tables r) (cell_n r) (cell_max r) (cell_blank r) x (cell_adj r).
Definition set_cell_adj (x : REF_ADJ) (r : REF_CELL) : REF_CELL :=
  mkREF_CELL (cell_tables r) (cell_n r) (cell_max r) (cell_blank r) (cell_c2n r) x.

Definition ref_cell_size_per (r : REF_CELL) : Z := size_per (cell_tables r).
Definition ref_cell_node_per (r : REF_CELL) : Z := node_per (cell_tables r).
Definition ref_cell_edge_per (r : REF_CELL) : Z := edge_per (cell_tables r).
Definition ref_cell_face_per (r : REF_CELL) : Z := face_per (cell_tables r).
Definition ref_cell_last_node_is_an_id (r : REF_CELL) : bool :=
  last_node_is_an_id (cell_tables r).
(** The index of the id. *)
Definition ref_cell_id_index (r : REF_CELL) : Z := node_per (cell_tables r).

(** The entries of [c2n]. *)
Definition get_c2n (t : CELL_TABLES) (c2n : list Z) (node cell : Z) : option Z :=
  row_get (size_per t) c2n node cell.
Definition put_c2n (t : CELL_TABLES) (node cell v : Z) (c2n : list Z) : option (list Z) :=
  row_put (size_per t) node cell v c2n.

Definition ref_cell_c2n (r : REF_CELL) (node cell : Z) : option Z :=
  get_c2n (cell_tables r) (cell_c2n r) node cell.
Definition ref_cell_e2n (r : REF_CELL) (node cell_edge cell : Z) : option Z :=
  let* k := ref_cell_e2n_gen (cell_tables r) node cell_edge in ref_cell_c2n r k cell.
Definition ref_cell_f2n (r : REF_CELL) (node cell_face cell : Z) : option Z :=
  let* k := ref_cell_f2n_gen (cell_tables r) node cell_face in ref_cell_c2n r k cell.

Definition ref_cell_valid (r : REF_CELL) (cell : Z) : option bool :=
  if (0 <=? cell) && (cell <? cell_max r) then
    let* k := ck_int (ref_cell_size_per r * cell) in
    let* v := aget (cell_c2n r) k in
    Some (negb (REF_EMPTY =? v))
  else Some false.

Definition ref_cell_node_empty (r : REF_CELL) (node : Z) : option bool :=
  ref_adj_empty (cell_adj r) node.
Definition ref_cell_first_with (r : REF_CELL) (node : Z) : option Z :=
  let* item := ref_adj_first (cell_adj r) node in ref_adj_safe_ref (cell_adj r) item.

(** The loop of [each_ref_cell_having_node]. *)
Definition each_ref_cell_having_node {T R : Type} (r : REF_CELL) (node : Z)
    (body : Z -> T -> option (ctl T R)) (s : T) : option (ctl T R) :=
  each_ref_adj_node_item_with_ref (cell_adj r) node (fun _ cell s => body cell s) s.

(** [each_ref_cell_valid_cell], for a body that leaves [r] alone. *)
Definition each_ref_cell_valid_cell {T : Type} (r : REF_CELL) (body : Z -> T -> option T) (s : T)
    : option T :=
  for_up 0 (cell_max r) (fun cell s =>
    let* v := ref_cell_valid r cell in
    if v : bool then body cell s else Some s) s.

(** [RSS] in a loop that updates [s]. *)
Definition RSS_next {T : Type} (st : REF_STATUS) (s : T) : option (ctl T (REF_STATUS * T)) :=
  match st with
  | REF_SUCCESS => Some (Next s)
  | _ => Some (Exit (st, s))
  end.

(** What a loop with [RSS_next] returns, and what follows it. *)
Definition RSS_after {T : Type} (c : ctl T (REF_STATUS * T))
    (k : T -> option (REF_STATUS * T)) : option (REF_STATUS * T) :=
  match c with
  | Next s => k s
  | Exit r => Some r
  end.

Section ops.
Context `{Junk Z, Junk REF_ADJ_ITEM}.
Implicit Types (r : REF_CELL).

(** The loop that links the elements from [lo] to [hi - 1], and the assignment
    that ends the list. *)
Definition link_cells (t : CELL_TABLES) (lo hi : Z) (c2n : list Z) : option (list Z) :=
  link_rows (size_per t) lo hi c2n.

Definition ref_cell_create (type : REF_CELL_TYPE) : option (REF_STATUS * REF_CELL) :=
  let '(_, t) := ref_cell_initialize type in
  let max := 100 in
  let* size := ck_int (max * size_per t) in
  let* c2n := link_cells t 0 max (alloc size) in
  let* '(st, adj) := ref_adj_create in
  Some (st, mkREF_CELL t 0 max 0 c2n adj).

Definition ref_cell_deep_copy (original : REF_CELL) : option (REF_STATUS * REF_CELL) :=
  let '(_, t) := ref_cell_initialize (cell_type (cell_tables original)) in
  let max := cell_max original in
  let* size := ck_int (max * size_per t) in
  let* c2n :=
    for_up 0 max (fun cell c2n =>
      for_up 0 (size_per t) (fun node c2n =>
        let* v := ref_cell_c2n original node cell in
        put_c2n t node cell v c2n) c2n) (alloc size) in
  let* '(st, adj) := ref_adj_deep_copy (cell_adj original) in
  Some (st, mkREF_CELL t (cell_n original) max (cell_blank original) c2n adj).

(** The block that makes room when no element is unused. *)
Definition cell_grow r : option (REF_STATUS * REF_CELL) :=
  let max_limit := Z.quot REF_INT_MAX 4 in
  if REF_EMPTY =? cell_blank r then
    RAS (negb (cell_max r =? max_limit)) r (
    let orig := cell_max r in
    let* more := ck_int (half_more orig) in
    let chunk := Z.max 5000 more in
    let* room := ck_int (max_limit - orig) in
    RAS (0 <? room) r (
    let chunk := Z.min chunk room in
    let* max := ck_int (orig + chunk) in
    let r := set_cell_max max r in
    let* size := ck_int (ref_cell_size_per r * cell_max r) in
    let c2n := ref_realloc (cell_c2n r) size in
    let* c2n := link_cells (cell_tables r) orig (cell_max r) c2n in
    Some (REF_SUCCESS, set_cell_blank orig (set_cell_c2n c2n r))))
  else Some (REF_SUCCESS, r).

(** Register [cell] with the first [n] of [nodes]. *)
Definition register_nodes (n : Z) (nodes : list Z) (cell : Z) (adj : REF_ADJ)
    : option (ctl REF_ADJ (REF_STATUS * REF_ADJ)) :=
  forx_up 0 n (fun node adj =>
    let* v := aget nodes node in
    let* '(st, adj) := ref_adj_add adj v cell in
    RSS_next st adj) adj.

(** The first unused element becomes the new one. The pair is [*new_cell] and the
    state. *)
Definition add_to_blank r (nodes : list Z) : option (REF_STATUS * (Z * REF_CELL)) :=
  let cell := cell_blank r in
  let* next := ref_cell_c2n r 1 cell in
  let r := set_cell_blank next r in
  let* c2n :=
    for_up 0 (ref_cell_size_per r) (fun node c2n =>
      let* v := aget nodes node in
      put_c2n (cell_tables r) node cell v c2n) (cell_c2n r) in
  let r := set_cell_c2n c2n r in
  let* c := register_nodes (ref_cell_node_per r) nodes cell (cell_adj r) in
  match c with
  | Exit (st, adj) => Some (st, (REF_EMPTY, set_cell_adj adj r))
  | Next adj =>
      let r := set_cell_adj adj r in
      let* n := ck_int (cell_n r + 1) in
      Some (REF_SUCCESS, (cell, set_cell_n n r))
  end.

Definition ref_cell_add r (nodes : list Z) : option (REF_STATUS * (Z * REF_CELL)) :=
  let* '(st, r) := cell_grow r in
  RSS st (REF_EMPTY, r) (add_to_blank r nodes).

Definition ref_cell_remove r (cell : Z) : option (REF_STATUS * REF_CELL) :=
  let* v := ref_cell_valid r cell in
  if negb v then Some (REF_INVALID, r)
  else
    let* n := ck_int (cell_n r - 1) in
    let r := set_cell_n n r in
    let* c :=
      forx_up 0 (ref_cell_node_per r) (fun node r =>
        let* v := ref_cell_c2n r node cell in
        let* '(st, adj) := ref_adj_remove (cell_adj r) v cell in
        RSS_next st (set_cell_adj adj r)) r in
    RSS_after c (fun r =>
      let* c2n := put_c2n (cell_tables r) 0 cell REF_EMPTY (cell_c2n r) in
      let* c2n := put_c2n (cell_tables r) 1 cell (cell_blank r) c2n in
      Some (REF_SUCCESS, set_cell_blank cell (set_cell_c2n c2n r))).

(** Unregister [cell] with its node at [node], store [v] there and register it. *)
Definition replace_entry r (node cell v : Z) : option (REF_STATUS * REF_CELL) :=
  let* old := ref_cell_c2n r node cell in
  let* '(st, adj) := ref_adj_remove (cell_adj r) old cell in
  let r := set_cell_adj adj r in
  RSS st r (
  let* c2n := put_c2n (cell_tables r) node cell v (cell_c2n r) in
  let r := set_cell_c2n c2n r in
  let* '(st, adj) := ref_adj_add (cell_adj r) v cell in
  Some (st, set_cell_adj adj r)).

Definition ref_cell_replace_whole r (cell : Z) (nodes : list Z) : option (REF_STATUS * REF_CELL) :=
  let* v := ref_cell_valid r cell in
  if negb v then Some (REF_FAILURE, r)
  else
    let* c :=
      forx_up 0 (ref_cell_node_per r) (fun node r =>
        let* v := aget nodes node in
        let* '(st, r) := replace_entry r node cell v in
        RSS_next st r) r in
    RSS_after c (fun r =>
      if ref_cell_last_node_is_an_id r then
        let node := ref_cell_size_per r - 1 in
        let* v := aget nodes node in
        let* c2n := put_c2n (cell_tables r) node cell v (cell_c2n r) in
        Some (REF_SUCCESS, set_cell_c2n c2n r)
      else Some (REF_SUCCESS, r)).

(** The body of the [while]: every occurrence of [old_node] in [cell]. *)
Definition replace_in_cell r (old_node new_node cell : Z)
    : option (ctl REF_CELL (REF_STATUS * REF_CELL)) :=
  forx_up 0 (ref_cell_node_per r) (fun node r =>
    let* v := ref_cell_c2n r node cell in
    if old_node =? v then
      let* '(st, r) := replace_entry r node cell new_node in
      RSS_next st r
    else Some (Next r)) r.

(** Each turn of the [while] takes an item off the list of [old_node]. *)
Definition ref_cell_replace_node r (old_node new_node : Z) : option (REF_STATUS * REF_CELL) :=
  if old_node =? new_node then Some (REF_SUCCESS, r)
  else
    let* item := ref_adj_first (cell_adj r) old_node in
    loop (Z.to_nat (adj_nitem (cell_adj r) + 1)) (fun '(item, r) =>
      if ref_adj_valid item then
        let* cell := ref_adj_item_ref (cell_adj r) item in
        let* c := replace_in_cell r old_node new_node cell in
        match c with
        | Exit x => Some (Exit x)
        | Next r =>
            let* item := ref_adj_first (cell_adj r) old_node in
            Some (Next (item, r))
        end
      else Some (Exit (REF_SUCCESS, r))) (item, r).

(** The array is [nodes]. *)
Definition ref_cell_nodes r (cell : Z) (nodes : list Z) : option (REF_STATUS * list Z) :=
  let* v := ref_cell_valid r cell in
  if negb v then Some (REF_INVALID, nodes)
  else
    let* nodes :=
      for_up 0 (ref_cell_size_per r) (fun node nodes =>
        let* v := ref_cell_c2n r node cell in aset nodes node v) nodes in
    Some (REF_SUCCESS, nodes).

(** The arrays are [*o2n_ptr] and [*n2o_ptr]. *)
Definition ref_cell_compact r : option (REF_STATUS * (list Z * list Z)) :=
  let* '(st, o2n) := malloc_empty (cell_max r) in
  RSS st (o2n, []) (
  let '(st, n2o) := ref_malloc (cell_n r) in
  RSS st (o2n, n2o) (
  let* '(o2n, ncell) :=
    each_ref_cell_valid_cell r (fun cell '(o2n, ncell) =>
      let* o2n := aset o2n cell ncell in
      Some (o2n, ncell + 1)) (o2n, 0) in
  RAS (ncell =? cell_n r) (o2n, n2o) (
  let* n2o :=
    each_ref_cell_valid_cell r (fun cell n2o =>
      let* k := aget o2n cell in
      aset n2o k cell) n2o in
  Some (REF_SUCCESS, (o2n, n2o))))).

(** [each_ref_cell_valid_cell_with_nodes]: [r] is part of the state that the body
    changes, [get_cell] reads it; [nodes] is the local array. *)
Definition each_ref_cell_valid_cell_with_nodes {T : Type} (max : Z) (get_cell : T -> REF_CELL)
    (body : Z -> list Z -> T -> option T) (s : T) : option T :=
  let* '(s, _) :=
    for_up 0 max (fun cell '(s, nodes) =>
      let* '(st, nodes) := ref_cell_nodes (get_cell s) cell nodes in
      if bool_decide (st = REF_SUCCESS) then
        let* s := body cell nodes s in Some (s, nodes)
      else Some (s, nodes)) (s, alloc REF_CELL_MAX_SIZE_PER) in
  Some s.

(** The first part of [ref_cell_pack]: elements in use move down to the front,
    with the new numbers of their nodes. The integer counts them. *)
Definition pack_down r (o2n : list Z) : option (REF_CELL * Z) :=
  each_ref_cell_valid_cell_with_nodes (cell_max r) fst (fun _ nodes '(r, compact) =>
    let* c2n :=
      for_up 0 (ref_cell_node_per r) (fun node c2n =>
        let* old := aget nodes node in
        let* new := aget o2n old in
        put_c2n (cell_tables r) node compact new c2n) (cell_c2n r) in
    let* c2n :=
      if ref_cell_last_node_is_an_id r then
        let* id := aget nodes (ref_cell_node_per r) in
        put_c2n (cell_tables r) (ref_cell_node_per r) compact id c2n
      else Some c2n in
    Some (set_cell_c2n c2n r, compact + 1)) (r, 0).

(** The block that puts the elements in the order of their smallest node. *)
Definition order_by_smallest r : option (REF_STATUS * REF_CELL) :=
  let n := cell_n r in
  let size_per := ref_cell_size_per r in
  let '(st, key) := ref_malloc n in
  RSS st r (
  let '(st, order) := ref_malloc n in
  RSS st r (
  let* size := ck_int (size_per * n) in
  let '(st, c2n) := ref_malloc size in
  RSS st r (
  let* key :=
    each_ref_cell_valid_cell_with_nodes (cell_max r) (fun _ => r) (fun cell nodes key =>
      let* v := aget nodes 0 in
      let* key := aset key cell v in
      for_up 1 (ref_cell_node_per r) (fun node key =>
        let* v := aget nodes node in
        let* k := aget key cell in
        if v <? k then aset key cell v else Some key) key) key in
  let* '(st, order) := ref_sort_heap_int n key order in
  RSS st r (
  let* c2n :=
    for_up 0 n (fun cell c2n =>
      for_up 0 size_per (fun node c2n =>
        let* o := aget order cell in
        let* v := ref_cell_c2n r node o in
        let* k := ck_int (cell * size_per) in
        let* k := ck_int (node + k) in
        aset c2n k v) c2n) c2n in
  let* a :=
    for_up 0 n (fun cell a =>
      for_up 0 size_per (fun node a =>
        let* k := ck_int (cell * size_per) in
        let* k := ck_int (node + k) in
        let* v := aget c2n k in
        put_c2n (cell_tables r) node cell v a) a) (cell_c2n r) in
  Some (REF_SUCCESS, set_cell_c2n a r))))).

(** Register the elements below [n] with their nodes. *)
Definition register_cells r : option (ctl REF_ADJ (REF_STATUS * REF_ADJ)) :=
  forx_up 0 (cell_n r) (fun cell adj =>
    forx_up 0 (ref_cell_node_per r) (fun node adj =>
      let* v := ref_cell_c2n r node cell in
      let* '(st, adj) := ref_adj_add adj v cell in
      RSS_next st adj) adj) (cell_adj r).

Definition ref_cell_pack r (o2n : list Z) : option (REF_STATUS * REF_CELL) :=
  let* '(r, compact) := pack_down r o2n in
  RAS (compact =? cell_n r) r (
  let* r :=
    if cell_n r <? cell_max r then
      let* c2n := link_cells (cell_tables r) (cell_n r) (cell_max r) (cell_c2n r) in
      Some (set_cell_blank (cell_n r) (set_cell_c2n c2n r))
    else Some (set_cell_blank REF_EMPTY r) in
  let* '(st, r) := order_by_smallest r in
  RSS st r (
  let* '(st, adj) := ref_adj_create in
  let r := set_cell_adj adj r in
  RSS st r (
  let* c := register_cells r in
  match c with
  | Exit (st, adj) => Some (st, set_cell_adj adj r)
  | Next adj => Some (REF_SUCCESS, set_cell_adj adj r)
  end))).
End ops.

(** ** The elements a state holds *)

(** The entries of an element in [c2n]. *)
Definition c2n_row (t : CELL_TABLES) (c2n : list Z) (cell : Z) : list Z :=
  row_of (size_per t) c2n cell.

(** The nodes of an element, followed by its id where the type has one. *)
Definition cell_at (r : REF_CELL) (cell : Z) : option (list Z) :=
  if bool_decide (0 <= cell < cell_max r /\ (cell_c2n r).[size_per (cell_tables r) * cell] <> REF_EMPTY)
  then Some (c2n_row (cell_tables r) (cell_c2n r) cell) else None.

(** The nodes among the entries of an element. *)
Definition nodes_of (t : CELL_TABLES) (entries : list Z) : list Z := ztake (node_per t) entries.

(** The adjacency lists each element under each node as often as it has it. *)
Definition registered (t : CELL_TABLES) (at_cell : Z -> option (list Z)) (adj : REF_ADJ) : Prop :=
  forall node cell, occ (adj_refs adj node) cell =
    match at_cell cell with
    | Some entries => occ (nodes_of t entries) node
    | None => 0
    end.

(** The largest index of a node that can be registered. *)
Definition NODE_LIMIT : Z := REF_INT_MAX - 100.

(** [bl] is the list of unused elements. *)
Record cell_wf (r : REF_CELL) (bl : list Z) : Prop := {
  cw_tables : cell_tables r = snd (ref_cell_initialize (cell_type (cell_tables r)));
  cw_max : 1 <= cell_max r;
  cw_size : size_per (cell_tables r) * cell_max r <= REF_INT_MAX;
  cw_c2n : zlen (cell_c2n r) = size_per (cell_tables r) * cell_max r;
  cw_chain : chain (fun cell => (cell_c2n r).[1 + size_per (cell_tables r) * cell]) (cell_blank r) bl;
  cw_nodup : NoDup bl;
  cw_blank : forall cell, cell ∈ bl <-> 0 <= cell < cell_max r /\ cell_at r cell = None;
  cw_n : cell_n r + zlen bl = cell_max r;
  cw_nodes : forall cell entries, cell_at r cell = Some entries ->
    Forall (fun v => 0 <= v <= NODE_LIMIT) (nodes_of (cell_tables r) entries);
  cw_adj : adj_wf (cell_adj r);
  cw_registered : registered (cell_tables r) (cell_at r) (cell_adj r)
}.

(** The counts of the tables. *)
Record table_counts (t : CELL_TABLES) : Prop := {
  tc_node : 2 <= node_per t <= 27;
  tc_size : size_per t = node_per t + (if last_node_is_an_id t then 1 else 0);
  tc_max : size_per t <= 27
}.

Lemma initialize_counts type : table_counts (snd (ref_cell_initialize type)).
Proof. destruct type; constructor; cbn; lia. Qed.

Lemma counts_bounds t :
  table_counts t -> 2 <= node_per t <= size_per t /\ size_per t <= 27 /\
  (last_node_is_an_id t = true -> size_per t = node_per t + 1) /\
  (last_node_is_an_id t = false -> size_per t = node_per t).
Proof. intros [? -> ?]. destruct (last_node_is_an_id t); (split; [lia|]; split; [lia|]; split; intros; done || lia). Qed.

Lemma cell_wf_counts r bl : cell_wf r bl -> table_counts (cell_tables r).
Proof. intros Hwf. rewrite (cw_tables _ _ Hwf). apply initialize_counts. Qed.

(** ** The entries of [c2n] *)

Section c2n.
Context (t : CELL_TABLES) (max : Z) (Ht : table_counts t) (Hmax : size_per t * max <= REF_INT_MAX).
Implicit Types (c2n : list Z).

Lemma size_per_two : 2 <= size_per t.
Proof using Ht. destruct (counts_bounds t Ht). lia. Qed.

Lemma wp_get_c2n c2n node cell (Q : Z -> Prop) :
  zlen c2n = size_per t * max -> 0 <= node < size_per t -> 0 <= cell < max ->
  Q c2n.[node + size_per t * cell] -> wp (get_c2n t c2n node cell) Q.
Proof using Ht Hmax. exact (wp_row_get _ _ size_per_two Hmax c2n node cell Q). Qed.

Lemma wp_put_c2n c2n node cell v (Q : list Z -> Prop) :
  zlen c2n = size_per t * max -> 0 <= node < size_per t -> 0 <= cell < max ->
  Q (upd c2n (node + size_per t * cell) v) -> wp (put_c2n t node cell v c2n) Q.
Proof using Ht Hmax. exact (wp_row_put _ _ size_per_two Hmax c2n node cell v Q). Qed.

Lemma aat_put c2n node cell v node' cell' :
  zlen c2n = size_per t * max -> 0 <= node < size_per t -> 0 <= cell < max ->
  0 <= node' < size_per t -> 0 <= cell' ->
  (upd c2n (node + size_per t * cell) v).[node' + size_per t * cell'] =
  if (node =? node') && (cell =? cell') then v else c2n.[node' + size_per t * cell'].
Proof using Ht Hmax. exact (aat_row_put _ _ size_per_two Hmax c2n node cell v node' cell'). Qed.

Lemma zlen_c2n_row c2n cell : zlen (c2n_row t c2n cell) = size_per t.
Proof using Ht. exact (zlen_row_of _ size_per_two c2n cell). Qed.

Lemma aat_c2n_row c2n cell node :
  0 <= node < size_per t -> (c2n_row t c2n cell).[node] = c2n.[node + size_per t * cell].
Proof using. exact (aat_row_of _ c2n cell node). Qed.

Lemma c2n_row_ext c2n c2n' cell :
  (forall node, 0 <= node < size_per t ->
     c2n'.[node + size_per t * cell] = c2n.[node + size_per t * cell]) ->
  c2n_row t c2n' cell = c2n_row t c2n cell.
Proof using. exact (row_of_ext _ c2n c2n' cell). Qed.

(** A store to an entry changes the row of its element. *)
Lemma c2n_row_put c2n node cell v cell' :
  zlen c2n = size_per t * max -> 0 <= node < size_per t -> 0 <= cell < max -> 0 <= cell' ->
  c2n_row t (upd c2n (node + size_per t * cell) v) cell' =
  if cell' =? cell then upd (c2n_row t c2n cell) node v else c2n_row t c2n cell'.
Proof using Ht Hmax. exact (row_of_put _ _ size_per_two Hmax c2n node cell v cell'). Qed.

Lemma wp_link_cells lo hi c2n (Q : list Z -> Prop) :
  0 <= lo < hi -> hi <= max -> zlen c2n = size_per t * max ->
  (forall c2n', zlen c2n' = size_per t * max ->
     (forall cell, lo <= cell < hi -> c2n'.[size_per t * cell] = REF_EMPTY /\
        c2n'.[1 + size_per t * cell] = if cell =? hi - 1 then REF_EMPTY else cell + 1) ->
     (forall node cell, 0 <= node < size_per t -> 0 <= cell < lo ->
        c2n'.[node + size_per t * cell] = c2n.[node + size_per t * cell]) -> Q c2n') ->
  wp (link_cells t lo hi c2n) Q.
Proof using Ht Hmax. exact (wp_link_rows _ _ size_per_two Hmax lo hi c2n Q). Qed.
End c2n.

Lemma cell_at_Some r cell entries :
  cell_at r cell = Some entries <->
  0 <= cell < cell_max r /\ (cell_c2n r).[size_per (cell_tables r) * cell] <> REF_EMPTY /\
  entries = c2n_row (cell_tables r) (cell_c2n r) cell.
Proof.
  unfold cell_at. case_bool_decide as Hc; split.
  - intros [= <-]. destruct Hc. done.
  - by intros (_ & _ & ->).
  - done.
  - intros (? & ? & _). exfalso. by apply Hc.
Qed.

Lemma cell_at_None r cell :
  cell_at r cell = None <->
  ~ (0 <= cell < cell_max r /\ (cell_c2n r).[size_per (cell_tables r) * cell] <> REF_EMPTY).
Proof. unfold cell_at. by case_bool_decide. Qed.

(** What reading an element needs of a state, whatever the adjacency holds. *)
Record cell_shape (r : REF_CELL) : Prop := {
  cs_counts : table_counts (cell_tables r);
  cs_size : size_per (cell_tables r) * cell_max r <= REF_INT_MAX;
  cs_c2n : zlen (cell_c2n r) = size_per (cell_tables r) * cell_max r
}.

Lemma cell_wf_shape r bl : cell_wf r bl -> cell_shape r.
Proof. intros Hwf. constructor; [by apply (cell_wf_counts r bl)|apply Hwf|apply Hwf]. Qed.

Lemma ref_cell_valid_shape r cell :
  cell_shape r -> ref_cell_valid r cell = Some (if cell_at r cell then true else false).
Proof.
  intros Hs. destruct (counts_bounds _ (cs_counts _ Hs)) as [Hn _].
  pose proof (cs_size _ Hs). pose proof (cs_c2n _ Hs). apply wp_eq.
  unfold ref_cell_valid, ref_cell_size_per, cell_at.
  destruct (Z.leb_spec 0 cell), (Z.ltb_spec cell (cell_max r)); cbn [andb];
    try (apply wp_ret; rewrite bool_decide_eq_false_2; [done|]; intros [? _]; lia).
  apply wp_bind, wp_ck_int; [unfold REF_INT_MIN; nia|]. apply wp_bind, wp_aget; [nia|]. apply wp_ret.
  case_bool_decide as Hc; destruct (Z.eqb_spec REF_EMPTY (cell_c2n r).[size_per (cell_tables r) * cell]);
    try done; [by destruct Hc|]. exfalso. apply Hc. by split.
Qed.

Lemma ref_cell_valid_ok r bl cell :
  cell_wf r bl -> ref_cell_valid r cell = Some (if cell_at r cell then true else false).
Proof. intros Hwf. by apply ref_cell_valid_shape, (cell_wf_shape r bl). Qed.

Lemma zlen_entries r bl cell entries :
  cell_wf r bl -> cell_at r cell = Some entries -> zlen entries = size_per (cell_tables r).
Proof.
  intros Hwf (_ & _ & ->)%cell_at_Some. apply zlen_c2n_row. by apply (cell_wf_counts _ bl).
Qed.

Lemma zlen_nodes_of t entries :
  table_counts t -> zlen entries = size_per t -> zlen (nodes_of t entries) = node_per t.
Proof. intros Ht Hl. destruct (counts_bounds t Ht) as [? _]. apply zlen_ztake. lia. Qed.

(** The elements in use, and how many they are. *)
Definition valid_cells (r : REF_CELL) : list Z :=
  filter (fun cell => is_Some (cell_at r cell)) (zrange (cell_max r)).

Lemma elem_of_valid_cells r cell : cell ∈ valid_cells r <-> is_Some (cell_at r cell).
Proof.
  unfold valid_cells. rewrite list_elem_of_filter, elem_of_zrange. split; [by intros [? _]|].
  intros Hs. split; [done|]. destruct Hs as [l Hl]. by apply cell_at_Some in Hl as [? _].
Qed.

Lemma zlen_valid_cells r bl : cell_wf r bl -> zlen (valid_cells r) = cell_n r.
Proof.
  intros Hwf. pose proof (cw_n _ _ Hwf) as Hn. pose proof (cw_max _ _ Hwf).
  assert (Hp : valid_cells r ++ bl ≡ₚ zrange (cell_max r)).
  { apply NoDup_Permutation; [|apply NoDup_zrange|].
    - apply NoDup_app. split; [apply NoDup_filter, NoDup_zrange|]. split; [|apply (cw_nodup _ _ Hwf)].
      intros c Hc%elem_of_valid_cells Hb%(cw_blank _ _ Hwf). destruct Hb as [_ Hb]. rewrite Hb in Hc.
      by destruct Hc.
    - intros c. rewrite elem_of_app, elem_of_valid_cells, (cw_blank _ _ Hwf), elem_of_zrange.
      split; [intros [[l Hl]|[? _]]; [by apply cell_at_Some in Hl as [? _]|done]|].
      intros Hc. destruct (cell_at r c); [left; done|by right]. }
  apply Permutation_length in Hp. rewrite length_app in Hp.
  pose proof (zlen_zrange (cell_max r) ltac:(lia)). unfold zlen in *. lia.
Qed.

(** There are as many references as there are nodes in the elements. *)
Lemma cell_refs_total r bl k :
  cell_wf r bl -> refs_total (adj_refs (cell_adj r)) k <= node_per (cell_tables r) * cell_n r.
Proof.
  intros Hwf. rewrite <- (zlen_valid_cells _ _ Hwf). pose proof (cell_wf_counts _ _ Hwf) as Ht.
  apply (refs_total_bound _ _ (fun c => nodes_of (cell_tables r) (default [] (cell_at r c)))).
  - intros c. destruct (cell_at r c) as [l|] eqn:Hl; cbn [default from_option id].
    + by rewrite zlen_nodes_of by (done || by eapply zlen_entries).
    + destruct (counts_bounds _ Ht). unfold nodes_of, ztake. rewrite take_nil.
      change (zlen (@nil Z)) with 0. lia.
  - intros node c. rewrite (cw_registered _ _ Hwf). destruct (cell_at r c) as [l|] eqn:Hl; cbn.
    + rewrite bool_decide_eq_true_2; [done|]. apply elem_of_valid_cells. by rewrite Hl.
    + apply occ_nonneg.
Qed.

Lemma elem_of_adj_refs r bl node cell :
  cell_wf r bl -> cell ∈ adj_refs (cell_adj r) node <->
  exists entries, cell_at r cell = Some entries /\ node ∈ nodes_of (cell_tables r) entries.
Proof.
  intros Hwf. rewrite <- occ_pos, (cw_registered _ _ Hwf). destruct (cell_at r cell) as [l|].
  - rewrite occ_pos. split; [by exists l|]. by intros (? & [= <-] & ?).
  - split; [lia|]. by intros (? & ? & _).
Qed.

(** ** Registering elements *)

Section register.
Context `{Junk Z, Junk REF_ADJ_ITEM}.
Implicit Types (adj : REF_ADJ).

(** [ref_adj_add] and [ref_adj_remove] in terms of occurrences. *)
Lemma adj_add_occ adj node cell :
  adj_wf adj -> 0 <= node <= NODE_LIMIT -> (forall k, refs_total (adj_refs adj) k < REF_INT_MAX) ->
  wp (ref_adj_add adj node cell) (fun '(st, adj') =>
    st = REF_SUCCESS /\ adj_wf adj' /\
    (forall k, refs_total (adj_refs adj') k <= refs_total (adj_refs adj) k + 1) /\
    forall n c, occ (adj_refs adj' n) c =
      occ (adj_refs adj n) c + Z.b2z (cell =? c) * Z.b2z (node =? n)).
Proof.
  intros Hwf Hn Ht. eapply wp_mono; [apply ref_adj_add_ok; [done|unfold NODE_LIMIT in *; lia]|].
  intros [st adj'] [Hwf' [(-> & _ & Ha)|[(_ & ? & _)|(_ & _ & (k & Hk) & _)]]];
    [|lia|specialize (Ht k); lia].
  split; [done|]. split; [done|]. split.
  - intros k. rewrite <- (refs_total_add (adj_refs adj) node cell k).
    apply refs_total_le. intros. by rewrite Ha.
  - intros n c. rewrite Ha. unfold refs_add. rewrite (Z.eqb_sym node n).
    case Z.eqb_spec; intros; subst; rewrite ?occ_cons; cbn [Z.b2z]; lia.
Qed.

Lemma adj_remove_occ adj node cell :
  adj_wf adj -> 0 < occ (adj_refs adj node) cell ->
  wp (ref_adj_remove adj node cell) (fun '(st, adj') =>
    st = REF_SUCCESS /\ adj_wf adj' /\
    (forall k, refs_total (adj_refs adj') k <= refs_total (adj_refs adj) k) /\
    forall n c, occ (adj_refs adj' n) c =
      occ (adj_refs adj n) c - Z.b2z (cell =? c) * Z.b2z (node =? n)).
Proof.
  intros Hwf Hocc%occ_pos. eapply wp_mono; [by apply ref_adj_remove_ok|].
  intros [st adj'] [Hwf' Hr]. pose proof (occ_remove_ref cell (adj_refs adj node)) as Ho.
  destruct (remove_ref cell (adj_refs adj node)) as [l|]; [|done].
  destruct Hr as [-> Hr], Ho as (_ & Ho & Hl). split; [done|]. split; [done|]. split.
  - intros k. apply refs_total_le. intros n. rewrite Hr. case Z.eqb_spec; intros; [subst; lia|done].
  - intros n c. rewrite Hr, (Z.eqb_sym node n).
    case Z.eqb_spec; intros; subst; rewrite ?Ho; cbn [Z.b2z]; lia.
Qed.

(** The loops that register a cell with the nodes that [get] reads. *)
Lemma register_loop_ok (get : Z -> option Z) (nodes : list Z) cell adj :
  adj_wf adj -> Forall (fun v => 0 <= v <= NODE_LIMIT) nodes ->
  (forall i, 0 <= i < zlen nodes -> get i = Some nodes.[i]) ->
  (forall k, refs_total (adj_refs adj) k + zlen nodes <= REF_INT_MAX) ->
  wp (forx_up 0 (zlen nodes) (fun node adj =>
        let* v := get node in
        let* '(st, adj) := ref_adj_add adj v cell in
        RSS_next st adj) adj) (fun c =>
    exists adj', c = Next adj' /\ adj_wf adj' /\
    (forall k, refs_total (adj_refs adj') k <= refs_total (adj_refs adj) k + zlen nodes) /\
    forall n c, occ (adj_refs adj' n) c = occ (adj_refs adj n) c + Z.b2z (cell =? c) * occ nodes n).
Proof.
  intros Hwf Hnodes Hget Ht. pose proof (zlen_nonneg nodes).
  apply (wp_forx_up (fun i adj' => adj_wf adj' /\
    (forall k, refs_total (adj_refs adj') k <= refs_total (adj_refs adj) k + i) /\
    forall n c, occ (adj_refs adj' n) c =
      occ (adj_refs adj n) c + Z.b2z (cell =? c) * occ (ztake i nodes) n) (fun _ => False)); [done| | | |done].
  - split; [done|]. split; [intros; lia|]. intros. change (occ (ztake 0 nodes) n) with 0. lia.
  - intros i adj' Hi (Hwf' & Ht' & Ho). rewrite Hget by done. cbn [obind].
    apply wp_bind. eapply wp_mono; [apply adj_add_occ; [done| |intros k; specialize (Ht k); specialize (Ht' k); lia]|].
    { rewrite Forall_forall in Hnodes. apply Hnodes. apply elem_of_aat. by exists i. }
    intros [st adj''] (-> & Hwf'' & Ht'' & Ho''). apply wp_ret. cbn.
    split; [done|]. split; [intros k; specialize (Ht' k); specialize (Ht'' k); lia|].
    intros n c. rewrite Ho'', Ho, ztake_S, occ_app, occ_cons, occ_nil by lia. lia.
  - intros adj' (? & ? & Ho). exists adj'. split; [done|]. split; [done|]. split; [done|].
    intros n c. by rewrite Ho, ztake_full.
Qed.
End register.

(** ** The steps of the invariant *)

(** The map from elements to their entries with one of them changed. *)
Definition at_upd (at_cell : Z -> option (list Z)) (cell : Z) (v : option (list Z))
    (c : Z) : option (list Z) := if c =? cell then v else at_cell c.

Lemma nodes_of_upd t entries node v :
  table_counts t -> zlen entries = size_per t -> 0 <= node < node_per t ->
  nodes_of t (upd entries node v) = upd (nodes_of t entries) node v.
Proof.
  intros Ht Hl Hn. destruct (counts_bounds t Ht) as [Hb _].
  apply arr_ext; [by rewrite zlen_upd, !zlen_nodes_of by (rewrite ?zlen_upd; done)|].
  rewrite zlen_nodes_of by (rewrite ?zlen_upd; done). unfold nodes_of. intros i Hi.
  rewrite aat_ztake, !aat_upd by (rewrite ?zlen_ztake; lia). case Z.eqb_spec; intros; [done|].
  by rewrite aat_ztake by lia.
Qed.

Lemma nodes_of_upd_id t entries v :
  table_counts t -> nodes_of t (upd entries (node_per t) v) = nodes_of t entries.
Proof. intros Ht. unfold nodes_of. by apply ztake_upd_ge. Qed.

(** Changing an entry of an element in use, and the adjacency with it. *)
Lemma cell_wf_entry r bl cell entries node v adj :
  cell_wf r bl -> cell_at r cell = Some entries -> 0 <= node < size_per (cell_tables r) ->
  (node = 0 -> v <> REF_EMPTY) -> (node < node_per (cell_tables r) -> 0 <= v <= NODE_LIMIT) ->
  adj_wf adj ->
  registered (cell_tables r) (at_upd (cell_at r) cell (Some (upd entries node v))) adj ->
  let r' := set_cell_adj adj
    (set_cell_c2n (upd (cell_c2n r) (node + size_per (cell_tables r) * cell) v) r) in
  cell_wf r' bl /\ forall c, cell_at r' c = at_upd (cell_at r) cell (Some (upd entries node v)) c.
Proof.
  intros Hwf Hat Hn Hv0 Hv Hadj Hreg r'. pose proof (cell_wf_counts _ _ Hwf) as Ht.
  destruct (counts_bounds _ Ht) as [Hb _]. pose proof (cw_c2n _ _ Hwf). pose proof (cw_size _ _ Hwf).
  pose proof (zlen_entries _ _ _ _ Hwf Hat) as Hlen.
  apply cell_at_Some in Hat as Hat'. destruct Hat' as (Hc & Hused & Hrow).
  assert (Hat2 : forall c, cell_at r' c = at_upd (cell_at r) cell (Some (upd entries node v)) c).
  { intros c. unfold at_upd. case Z.eqb_spec; intros Hcc.
    - subst c. apply cell_at_Some. split; [done|]. split.
      + change (size_per (cell_tables r') * cell) with (0 + size_per (cell_tables r) * cell). cbn.
        rewrite (aat_put _ _ Ht ltac:(done)) by (done || lia). rewrite Z.eqb_refl, andb_true_r.
        case Z.eqb_spec; intros; [by apply Hv0|done].
      + cbn. rewrite (c2n_row_put _ _ Ht ltac:(done)) by (done || lia). by rewrite Z.eqb_refl, <- Hrow.
    - destruct (decide (0 <= c < cell_max r)) as [Hc'|Hc'].
      + assert (Hsame : (cell_c2n r').[size_per (cell_tables r') * c] =
          (cell_c2n r).[size_per (cell_tables r) * c]).
        { change (size_per (cell_tables r') * c) with (0 + size_per (cell_tables r) * c). cbn [cell_c2n r' set_cell_adj set_cell_c2n].
          rewrite (aat_put _ _ Ht ltac:(done)) by (done || lia).
          destruct (Z.eqb_spec cell c); [by subst|]. by rewrite andb_false_r. }
        unfold cell_at. rewrite Hsame. change (cell_max r') with (cell_max r).
        case_bool_decide; [|done]. f_equal. cbn. rewrite (c2n_row_put _ _ Ht ltac:(done)) by (done || lia).
        by destruct (Z.eqb_spec c cell).
      + assert (cell_at r c = None) as -> by (apply cell_at_None; by intros [? _]).
        apply cell_at_None. cbn. by intros [? _]. }
  split; [|done].
  assert (Hnb : forall c, c ∈ bl -> c <> cell).
  { intros c [_ Hb']%(cw_blank _ _ Hwf) ->. congruence. }
  constructor; cbn [cell_tables cell_max cell_blank cell_c2n cell_n cell_adj r' set_cell_adj set_cell_c2n];
    try apply Hwf; [by rewrite zlen_upd| | | |done|].
  - eapply chain_ext; [|apply (cw_chain _ _ Hwf)]. cbn. intros c Hcb.
    apply (cw_blank _ _ Hwf) in Hcb as Hcr. destruct Hcr as [Hcr _].
    rewrite (aat_put _ _ Ht ltac:(done)) by (done || lia).
    destruct (Z.eqb_spec cell c); [by destruct (Hnb c Hcb)|]. by rewrite andb_false_r.
  - intros c. rewrite (cw_blank _ _ Hwf). fold r'. rewrite Hat2. unfold at_upd. case Z.eqb_spec; [|done].
    intros ->. split; [intros [_ ?]; congruence|by intros [_ ?]].
  - intros c l. fold r'. rewrite Hat2. unfold at_upd. case Z.eqb_spec; [|intros _; apply (cw_nodes _ _ Hwf)].
    intros -> [= <-]. pose proof (cw_nodes _ _ Hwf _ _ Hat) as Hf.
    destruct (decide (node < node_per (cell_tables r))) as [Hlt|Hge].
    + rewrite nodes_of_upd by (done || lia). apply Forall_insert; [done|by apply Hv].
    + unfold nodes_of in *. by rewrite ztake_upd_ge by lia.
  - intros n c. rewrite (Hreg n c). fold r'. by rewrite Hat2.
Qed.

(** What stays the same when elements are changed in place. *)
Definition same_frame (r r' : REF_CELL) : Prop :=
  cell_tables r' = cell_tables r /\ cell_n r' = cell_n r /\ cell_max r' = cell_max r.

Section ops_ok.
Context `{Junk Z, Junk REF_ADJ_ITEM}.
Implicit Types (r : REF_CELL).

(** The number of references stays below the limit of the adjacency. *)
Definition refs_fit r : Prop := node_per (cell_tables r) * cell_n r < REF_INT_MAX.

Lemma replace_entry_ok r bl cell entries node v :
  cell_wf r bl -> refs_fit r -> cell_at r cell = Some entries ->
  0 <= node < node_per (cell_tables r) -> 0 <= v <= NODE_LIMIT ->
  wp (replace_entry r node cell v) (fun '(st, r') =>
    st = REF_SUCCESS /\ cell_wf r' bl /\ same_frame r r' /\
    forall c, cell_at r' c = at_upd (cell_at r) cell (Some (upd entries node v)) c).
Proof.
  intros Hwf Hfit Hat Hn Hv. pose proof (cell_wf_counts _ _ Hwf) as Ht.
  destruct (counts_bounds _ Ht) as [Hb _]. pose proof (zlen_entries _ _ _ _ Hwf Hat) as Hlen.
  apply cell_at_Some in Hat as Hat'. destruct Hat' as (Hc & _ & Hrow).
  pose proof (zlen_nodes_of _ _ Ht Hlen) as Hln.
  assert (Hold : (cell_c2n r).[node + size_per (cell_tables r) * cell] = (nodes_of (cell_tables r) entries).[node]).
  { unfold nodes_of. rewrite aat_ztake, Hrow by lia. by rewrite aat_c2n_row by lia. }
  pose proof (cw_registered _ _ Hwf) as Hreg. pose proof (fun k => cell_refs_total r bl k Hwf) as Htot.
  unfold replace_entry, ref_cell_c2n. apply wp_bind, (wp_get_c2n _ _ Ht (cw_size _ _ Hwf));
    [apply Hwf|lia|done|]. rewrite Hold. set (old := (nodes_of (cell_tables r) entries).[node]).
  apply wp_bind. eapply wp_mono; [apply adj_remove_occ; [apply Hwf|]|].
  { rewrite Hreg, Hat. apply occ_pos, elem_of_aat. exists node. split; [lia|done]. }
  intros [st adj1] (-> & Hadj1 & Htot1 & Hocc1). cbn [RSS].
  apply wp_bind, (wp_put_c2n _ _ Ht (cw_size _ _ Hwf)); [apply Hwf|lia|done|].
  apply wp_bind. cbn [cell_adj set_cell_adj set_cell_c2n].
  eapply wp_mono; [apply adj_add_occ; [done|done|]|].
  { intros k. specialize (Htot1 k). specialize (Htot k). unfold refs_fit in Hfit. lia. }
  intros [st adj2] (-> & Hadj2 & _ & Hocc2). apply wp_ret. split; [done|].
  destruct (cell_wf_entry r bl cell entries node v adj2) as [Hwf2 Hat2]; try done; [lia|..].
  - intros ->. unfold REF_EMPTY. lia.
  - intros n c. rewrite Hocc2, Hocc1, Hreg. unfold at_upd. rewrite (Z.eqb_sym cell c).
    case Z.eqb_spec; intros; [|cbn [Z.b2z]; lia]. subst c. rewrite Hat, nodes_of_upd, occ_upd by (done || lia).
    fold old. cbn [Z.b2z]. lia.
Qed.

(** The first [k] nodes of an element replaced. *)
Definition replace_upto (k : Z) (f : Z -> Z) (entries : list Z) : list Z :=
  map f (ztake k entries) ++ drop (Z.to_nat k) entries.

Lemma zlen_replace_upto k f entries :
  0 <= k <= zlen entries -> zlen (replace_upto k f entries) = zlen entries.
Proof.
  intros Hk. unfold replace_upto. rewrite zlen_app, zlen_map, zlen_ztake by lia.
  unfold zlen in *. rewrite length_drop. lia.
Qed.

Lemma aat_replace_upto k f entries i :
  0 <= k <= zlen entries -> 0 <= i < zlen entries ->
  (replace_upto k f entries).[i] = if i <? k then f entries.[i] else entries.[i].
Proof.
  intros Hk Hi. unfold replace_upto. case Z.ltb_spec; intros.
  - rewrite aat_app_l by (rewrite zlen_map, zlen_ztake; lia).
    by rewrite aat_map, aat_ztake by (rewrite ?zlen_ztake; lia).
  - rewrite aat_app_r; rewrite zlen_map, zlen_ztake by lia; [|done].
    rewrite aat_drop by lia. f_equal. lia.
Qed.

Lemma replace_upto_S k f entries :
  0 <= k < zlen entries ->
  upd (replace_upto k f entries) k (f entries.[k]) = replace_upto (k + 1) f entries.
Proof.
  intros Hk. apply arr_ext; [by rewrite zlen_upd, !zlen_replace_upto by lia|].
  rewrite zlen_upd, zlen_replace_upto by lia. intros i Hi.
  rewrite aat_upd, !aat_replace_upto by (rewrite ?zlen_replace_upto; lia).
  destruct (Z.eqb_spec k i), (Z.ltb_spec i k), (Z.ltb_spec i (k + 1)); subst; lia || done.
Qed.

Lemma replace_upto_same k f entries :
  0 <= k < zlen entries -> f entries.[k] = entries.[k] ->
  replace_upto (k + 1) f entries = replace_upto k f entries.
Proof.
  intros Hk Hf. rewrite <- replace_upto_S by done. rewrite Hf.
  assert (entries.[k] = (replace_upto k f entries).[k]) as ->.
  { rewrite aat_replace_upto by lia. by destruct (Z.ltb_spec k k); [lia|]. }
  apply upd_id. rewrite zlen_replace_upto; lia.
Qed.

Lemma replace_upto_0 f entries : replace_upto 0 f entries = entries.
Proof. done. Qed.

(** The entries after [ref_cell_replace_whole]. *)
Lemma ref_cell_replace_whole_ok r bl cell nodes :
  cell_wf r bl -> refs_fit r -> size_per (cell_tables r) <= zlen nodes ->
  Forall (fun v => 0 <= v <= NODE_LIMIT) (nodes_of (cell_tables r) nodes) ->
  wp (ref_cell_replace_whole r cell nodes) (fun '(st, r') =>
    match cell_at r cell with
    | None => st = REF_FAILURE /\ r' = r
    | Some _ => st = REF_SUCCESS /\ cell_wf r' bl /\ same_frame r r' /\
        forall c, cell_at r' c =
          at_upd (cell_at r) cell (Some (ztake (size_per (cell_tables r)) nodes)) c
    end).
Proof.
  intros Hwf Hfit Hlen Hnodes. pose proof (cell_wf_counts _ _ Hwf) as Ht.
  destruct (counts_bounds _ Ht) as (Hb & _ & Hid & Hnoid).
  unfold ref_cell_replace_whole. rewrite (ref_cell_valid_ok _ _ _ Hwf). cbn [obind].
  destruct (cell_at r cell) as [entries|] eqn:Hat; cbn [negb]; [|by apply wp_ret].
  pose proof (zlen_entries _ _ _ _ Hwf Hat) as Hle.
  set (row := fun i => ztake i nodes ++ drop (Z.to_nat i) entries).
  assert (Hrow : forall i, 0 <= i < size_per (cell_tables r) ->
    upd (row i) i nodes.[i] = row (i + 1)).
  { intros i Hi. unfold row, ztake, upd.
    replace (Z.to_nat (i + 1)) with (S (Z.to_nat i)) by lia.
    rewrite (take_S_r nodes _ nodes.[i]) by (apply aat_lookup; lia).
    rewrite (drop_S entries entries.[i]) by (apply aat_lookup; lia).
    rewrite insert_app_r_alt by (rewrite length_take; lia). rewrite length_take.
    replace (Z.to_nat i - Z.to_nat i `min` length nodes)%nat with 0%nat by (unfold zlen in *; lia).
    by rewrite <- app_assoc. }
  unfold ref_cell_node_per. apply wp_bind.
  apply (wp_forx_up (fun i r' => cell_wf r' bl /\ same_frame r r' /\
    forall c, cell_at r' c = at_upd (cell_at r) cell (Some (row i)) c) (fun _ => False)); [lia| | | |done].
  - split; [done|]. split; [done|]. intros c. unfold at_upd. case Z.eqb_spec; intros; [by subst|done].
  - intros i r' Hi (Hwf' & Hfr & Hat'). pose proof Hfr as (Htb & Hn & Hm).
    assert (Hatc : cell_at r' cell = Some (row i)) by (rewrite Hat'; unfold at_upd; by rewrite Z.eqb_refl).
    apply wp_bind, wp_aget; [lia|]. apply wp_bind. eapply wp_mono.
    + eapply replace_entry_ok; [done| |done|by rewrite Htb|].
      * unfold refs_fit. by rewrite Htb, Hn.
      * rewrite Forall_forall in Hnodes. apply Hnodes. unfold nodes_of.
        apply elem_of_ztake; [lia|]. by exists i.
    + intros [st r''] (-> & Hwf'' & Hfr' & Hat''). apply wp_ret. cbn. split; [done|]. split.
      * destruct Hfr' as (? & ? & ?). split; [congruence|]. split; congruence.
      * intros c. rewrite Hat''. unfold at_upd. case Z.eqb_spec; intros; [by rewrite Hrow by lia|].
        rewrite Hat'. unfold at_upd. by destruct (Z.eqb_spec c cell).
  - intros r' (Hwf' & Hfr & Hat'). pose proof Hfr as (Htb & Hn & Hm). cbn [RSS_after].
    assert (Hatc : cell_at r' cell = Some (row (node_per (cell_tables r))))
      by (rewrite Hat'; unfold at_upd; by rewrite Z.eqb_refl).
    assert (Hfull : row (size_per (cell_tables r)) = ztake (size_per (cell_tables r)) nodes).
    { unfold row. rewrite (drop_ge entries) by (unfold zlen in *; lia). apply app_nil_r. }
    unfold ref_cell_last_node_is_an_id, ref_cell_size_per. rewrite Htb.
    destruct (last_node_is_an_id (cell_tables r)) eqn:Hlast.
    + specialize (Hid eq_refl). apply cell_at_Some in Hatc as Hcc. destruct Hcc as (Hc & _ & _).
      apply wp_bind, wp_aget; [lia|]. apply wp_bind.
      apply (wp_put_c2n _ _ Ht (cw_size _ _ Hwf)); [rewrite (cw_c2n _ _ Hwf'); congruence|lia|lia|].
      apply wp_ret. split; [done|].
      replace (size_per (cell_tables r) - 1) with (node_per (cell_tables r)) by lia.
      destruct (cell_wf_entry r' bl cell _ (node_per (cell_tables r)) nodes.[node_per (cell_tables r)]
        (cell_adj r') Hwf' Hatc) as [Hwf2 Hat2]; rewrite ?Htb; try lia; [apply Hwf'| |].
      * intros n c. pose proof (cw_registered _ _ Hwf' n c) as Hr. rewrite Hr, Htb. unfold at_upd.
        case Z.eqb_spec; [|done]. intros ->. rewrite Hatc. by rewrite nodes_of_upd_id.
      * rewrite Htb in *. split; [exact Hwf2|]. split; [done|]. intros c. rewrite Hat2. unfold at_upd.
        case Z.eqb_spec; intros Hcc.
        { f_equal. rewrite Hrow by lia. by rewrite <- Hid, Hfull. }
        rewrite Hat'. unfold at_upd. by destruct (Z.eqb_spec c cell).
    + specialize (Hnoid eq_refl). apply wp_ret. split; [done|]. split; [done|]. split; [done|].
      intros c. rewrite Hat'. unfold at_upd. case Z.eqb_spec; [|done]. intros. by rewrite <- Hnoid, Hfull.
Qed.

(** The new name of a node. *)
Definition rename (old new v : Z) : Z := if v =? old then new else v.

Lemma rename_all t old new entries :
  old ∉ nodes_of t entries -> 0 <= node_per t <= zlen entries ->
  replace_upto (node_per t) (rename old new) entries = entries.
Proof.
  intros Hold Hl. apply arr_ext; rewrite zlen_replace_upto by lia; [done|].
  intros i Hi. rewrite aat_replace_upto by lia. case Z.ltb_spec; intros Hlt; [|done].
  unfold rename. case Z.eqb_spec; intros He; [|done]. exfalso. apply Hold.
  apply elem_of_ztake; [lia|]. exists i. split; [lia|done].
Qed.

Lemma replace_in_cell_ok r bl old new cell entries :
  cell_wf r bl -> refs_fit r -> cell_at r cell = Some entries -> 0 <= new <= NODE_LIMIT ->
  wp (replace_in_cell r old new cell) (fun c => exists r', c = Next r' /\ cell_wf r' bl /\
    same_frame r r' /\ forall c, cell_at r' c =
      at_upd (cell_at r) cell (Some (replace_upto (node_per (cell_tables r)) (rename old new) entries)) c).
Proof.
  intros Hwf Hfit Hat Hnew. pose proof (cell_wf_counts _ _ Hwf) as Ht.
  destruct (counts_bounds _ Ht) as (Hb & _). pose proof (zlen_entries _ _ _ _ Hwf Hat) as Hle.
  apply cell_at_Some in Hat as Hc. destruct Hc as (Hc & _ & _).
  unfold replace_in_cell, ref_cell_node_per.
  apply (wp_forx_up (fun i r' => cell_wf r' bl /\ same_frame r r' /\
    forall c, cell_at r' c = at_upd (cell_at r) cell (Some (replace_upto i (rename old new) entries)) c)
    (fun _ => False)); [lia| | |intros r' ?; by exists r'|done].
  - split; [done|]. split; [done|]. intros c. unfold at_upd. case Z.eqb_spec; intros; [by subst|done].
  - intros i r' Hi (Hwf' & (Htb & Hn & Hm) & Hat').
    assert (Hatc : cell_at r' cell = Some (replace_upto i (rename old new) entries))
      by (rewrite Hat'; unfold at_upd; by rewrite Z.eqb_refl).
    apply cell_at_Some in Hatc as Hrow. destruct Hrow as (_ & _ & Hrow).
    assert (Hv : (cell_c2n r').[i + size_per (cell_tables r) * cell] = entries.[i]).
    { rewrite <- Htb, <- aat_c2n_row, <- Hrow, aat_replace_upto by (rewrite ?Htb; lia).
      by destruct (Z.ltb_spec i i); [lia|]. }
    unfold ref_cell_c2n. rewrite Htb. apply wp_bind, (wp_get_c2n _ _ Ht (cw_size _ _ Hwf));
      [rewrite (cw_c2n _ _ Hwf'); congruence|lia|lia|]. rewrite Hv.
    case Z.eqb_spec; intros Hold.
    + apply wp_bind. eapply wp_mono.
      * eapply replace_entry_ok; [done|unfold refs_fit; by rewrite Htb, Hn|done|by rewrite Htb|done].
      * intros [st r''] (-> & Hwf'' & (? & ? & ?) & Hat''). apply wp_ret. cbn. split; [done|].
        split; [split; [congruence|split; congruence]|]. intros c. rewrite Hat''. unfold at_upd.
        case Z.eqb_spec; intros Hcc; [|rewrite Hat'; unfold at_upd; by destruct (Z.eqb_spec c cell)].
        rewrite <- replace_upto_S by lia. unfold rename at 3. by rewrite <- Hold, Z.eqb_refl.
    + apply wp_ret. split; [done|]. split; [done|]. intros c. rewrite Hat'. unfold at_upd.
      case Z.eqb_spec; [|done]. intros. rewrite replace_upto_same; [done|lia|].
      unfold rename. destruct (Z.eqb_spec entries.[i] old); congruence.
Qed.

(** The entries of every element after [ref_cell_replace_node]. *)
Definition renamed (t : CELL_TABLES) (old new : Z) (entries : list Z) : list Z :=
  replace_upto (node_per t) (rename old new) entries.

Lemma not_in_renamed t old new entries :
  old <> new -> 0 <= node_per t <= zlen entries -> old ∉ nodes_of t (renamed t old new entries).
Proof.
  intros Hne Hl. unfold nodes_of, renamed. rewrite elem_of_ztake by (rewrite zlen_replace_upto; lia).
  intros (i & Hi & Hv). rewrite aat_replace_upto in Hv by lia.
  destruct (Z.ltb_spec i (node_per t)); [|lia]. unfold rename in Hv. destruct (Z.eqb_spec entries.[i] old); congruence.
Qed.

Lemma ref_cell_replace_node_ok r bl old new :
  cell_wf r bl -> refs_fit r -> 0 <= new <= NODE_LIMIT ->
  wp (ref_cell_replace_node r old new) (fun '(st, r') =>
    st = REF_SUCCESS /\ cell_wf r' bl /\ same_frame r r' /\
    forall c, cell_at r' c = renamed (cell_tables r) old new <$> cell_at r c).
Proof.
  intros Hwf Hfit Hnew. pose proof (cell_wf_counts _ _ Hwf) as Ht.
  destruct (counts_bounds _ Ht) as (Hb & _). unfold ref_cell_replace_node.
  assert (Hdone : forall c l, cell_at r c = Some l -> old ∉ nodes_of (cell_tables r) l ->
    renamed (cell_tables r) old new l = l).
  { intros c l Hl Hin. apply rename_all; [done|]. rewrite (zlen_entries _ _ _ _ Hwf Hl). lia. }
  case Z.eqb_spec; intros Hne.
  - subst. apply wp_ret. split; [done|]. split; [done|]. split; [done|]. intros c.
    destruct (cell_at r c) as [l|] eqn:Hl; [|done]. cbn. f_equal. symmetry. unfold renamed.
    pose proof (zlen_entries _ _ _ _ Hwf Hl).
    apply arr_ext; rewrite zlen_replace_upto by lia; [done|]. intros i Hi. rewrite aat_replace_upto by lia.
    unfold rename. case Z.ltb_spec; intros; [|done]. case Z.eqb_spec; congruence.
  - apply wp_bind. eapply wp_mono; [apply ref_adj_first_ok, Hwf|]. intros item Hitem.
    apply (wp_loop (fun '(item, r') => cell_wf r' bl /\ same_frame r r' /\
        match adj_refs (cell_adj r') old with
        | [] => ref_adj_valid item = false
        | ref :: _ => ref_adj_valid item = true /\ ref_adj_item_ref (cell_adj r') item = Some ref
        end /\
        forall c, cell_at r' c = cell_at r c \/
          cell_at r' c = renamed (cell_tables r) old new <$> cell_at r c)
      (fun '(_, r') => zlen (adj_refs (cell_adj r') old))).
    + split; [done|]. split; [done|]. split; [done|]. intros c. by left.
    + pose proof (adj_refs_length (cell_adj r) old (cw_adj _ _ Hwf)).
      pose proof (zlen_nonneg (adj_refs (cell_adj r) old)). lia.
    + intros [? ?] _. apply zlen_nonneg.
    + clear Hitem item. intros [item r1] (Hwf1 & Hfr & Hitem & Hat1). pose proof Hfr as (Htb & Hn & Hm).
      destruct (adj_refs (cell_adj r1) old) as [|cell refs] eqn:Hrefs.
      * rewrite Hitem. apply wp_ret. cbn. split; [done|]. split; [done|]. split; [done|].
        intros c. destruct (Hat1 c) as [Hc|Hc]; [|done]. rewrite Hc.
        destruct (cell_at r c) as [l|] eqn:Hl; [|done]. cbn. f_equal. symmetry. eapply Hdone; [done|].
        intros Hin. assert (c ∈ adj_refs (cell_adj r1) old) as Hc'.
        { apply (elem_of_adj_refs _ _ _ _ Hwf1). exists l. split; [congruence|by rewrite Htb]. }
        rewrite Hrefs in Hc'. set_solver.
      * destruct Hitem as [-> ->]. cbn [obind].
        assert (cell ∈ adj_refs (cell_adj r1) old) as Hin by (rewrite Hrefs; set_solver).
        apply (elem_of_adj_refs _ _ _ _ Hwf1) in Hin as (entries & Hat & Hold).
        apply wp_bind. eapply wp_mono.
        { eapply (replace_in_cell_ok r1 bl old new cell entries); [done| |done|done].
          unfold refs_fit. by rewrite Htb, Hn. }
        intros c (r2 & -> & Hwf2 & (Htb2 & Hn2 & Hm2) & Hat2).
        apply wp_bind. eapply wp_mono; [apply ref_adj_first_ok, Hwf2|]. intros item2 Hitem2.
        apply wp_ret. cbn [ctl_post]. fold (renamed (cell_tables r1) old new entries) in Hat2.
        rewrite Htb in *.
        assert (Hlen : zlen entries = size_per (cell_tables r))
          by (rewrite <- Htb; by eapply zlen_entries).
        split.
        { split; [done|]. split; [split; [congruence|split; congruence]|]. split; [done|].
          intros c. rewrite Hat2. unfold at_upd. case Z.eqb_spec; intros Hcc; [subst c|apply Hat1].
          right. destruct (Hat1 cell) as [Hc|Hc]; rewrite Hat in Hc; [by rewrite <- Hc|].
          destruct (cell_at r cell) as [l|] eqn:Hl; cbn in Hc; [|done]. injection Hc as ->.
          exfalso. revert Hold. apply not_in_renamed; [done|]. rewrite (zlen_entries _ _ _ _ Hwf Hl). lia. }
        assert (zlen (cell :: adj_refs (cell_adj r2) old) <= zlen (adj_refs (cell_adj r1) old));
          [|rewrite Hrefs, !zlen_cons in *; lia].
        apply occ_le_zlen. intros c. rewrite occ_cons, (cw_registered _ _ Hwf2), (cw_registered _ _ Hwf1), Hat2.
        unfold at_upd. rewrite (Z.eqb_sym cell c). case Z.eqb_spec; intros Hcc; [|cbn [Z.b2z]; rewrite Htb2, Htb; lia].
        subst c. rewrite Hat, Htb2, Htb. apply occ_pos in Hold.
        rewrite (proj2 (occ_zero (nodes_of (cell_tables r) (renamed _ old new entries)) old));
          [cbn [Z.b2z]; lia|]. apply not_in_renamed; [done|lia].
Qed.

(** [cell_at] looks at the entries of the element only. *)
Lemma cell_at_ext r r' cell :
  table_counts (cell_tables r) -> cell_tables r' = cell_tables r ->
  (0 <= cell < cell_max r <-> 0 <= cell < cell_max r') ->
  (forall node, 0 <= node < size_per (cell_tables r) -> 0 <= cell < cell_max r ->
     (cell_c2n r').[node + size_per (cell_tables r) * cell] =
     (cell_c2n r).[node + size_per (cell_tables r) * cell]) ->
  cell_at r' cell = cell_at r cell.
Proof.
  intros Ht Htb Hm He. destruct (counts_bounds _ Ht) as [Hb _].
  destruct (decide (0 <= cell < cell_max r)) as [Hc|Hc].
  - unfold cell_at. rewrite Htb.
    pose proof (He 0 ltac:(lia) Hc) as H00. change (0 + size_per (cell_tables r) * cell) with (size_per (cell_tables r) * cell) in H00.
    rewrite H00.
    rewrite (bool_decide_ext _ (0 <= cell < cell_max r /\
      (cell_c2n r).[size_per (cell_tables r) * cell] <> REF_EMPTY)) by tauto.
    case_bool_decide; [|done]. f_equal. apply c2n_row_ext. intros node Hn. by apply He.
  - assert (cell_at r cell = None) as -> by (apply cell_at_None; by intros [? _]).
    apply cell_at_None. intros [? _]. tauto.
Qed.

(** The largest [max] that can grow whatever the type. *)
Definition GROW_LIMIT : Z := 29000000.

Lemma cell_grow_ok r bl :
  cell_wf r bl -> cell_max r <= GROW_LIMIT ->
  wp (cell_grow r) (fun '(st, r') =>
    st = REF_SUCCESS /\ (exists bl', cell_wf r' bl' /\ bl' <> [] /\ bl' = blank_after bl (cell_max r) (cell_max r')) /\
    cell_tables r' = cell_tables r /\ cell_n r' = cell_n r /\ cell_adj r' = cell_adj r /\
    cell_max r <= cell_max r' /\
    (cell_max r' = cell_max r \/
     cell_n r = cell_max r /\ cell_max r' = cell_max r + Z.max 5000 (half_more (cell_max r))) /\
    forall c, cell_at r' c = cell_at r c).
Proof.
  intros Hwf Hlim. pose proof (cell_wf_counts _ _ Hwf) as Ht.
  destruct (counts_bounds _ Ht) as (Hb & Hb2 & _). pose proof (cw_max _ _ Hwf) as Hm1.
  unfold GROW_LIMIT in Hlim. unfold cell_grow.
  assert (Hhalf : 0 <= 2 * half_more (cell_max r) <= 3 * cell_max r).
  { unfold half_more. rewrite Z.quot_div_nonneg by lia.
    pose proof (Z.div_pos (3 * cell_max r) 2). pose proof (Z.mul_div_le (3 * cell_max r) 2). lia. }
  case Z.eqb_spec; intros Hblank.
  - assert (bl = []) as ->.
    { pose proof (cw_chain _ _ Hwf) as Hch. destruct bl as [|i bl]; [done|]. destruct Hch as [Hi _].
      assert (i ∈ i :: bl) as [? _]%(cw_blank _ _ Hwf) by set_solver. unfold REF_EMPTY in *. lia. }
    change (Z.quot REF_INT_MAX 4) with 536870911.
    destruct (Z.eqb_spec (cell_max r) 536870911); [lia|]. cbn [negb RAS].
    wp_go; unfold REF_INT_MAX, REF_INT_MIN in *; try lia.
    destruct (Z.ltb_spec 0 (536870911 - cell_max r)); [|lia]. cbn [RAS].
    rewrite (Z.min_l (Z.max 5000 _)) by lia.
    remember (cell_max r + Z.max 5000 (half_more (cell_max r))) as nmax eqn:Hdef.
    assert (5000 < nmax <= 73000000) by lia.
    assert (0 <= size_per (cell_tables r) * nmax <= 2147483647) by nia.
    unfold ref_cell_size_per. cbn [cell_max set_cell_max cell_tables].
    wp_go; unfold REF_INT_MAX, REF_INT_MIN in *; try lia.
    cbn [cell_max set_cell_max cell_tables].
    assert (Hnew : size_per (cell_tables r) * nmax <= REF_INT_MAX) by (unfold REF_INT_MAX; nia).
    apply (wp_link_cells _ _ Ht Hnew); [lia|lia|apply zlen_realloc; nia|].
    intros c2n Hl Hlinked Hold. wp_go. split; [done|].
    pose proof (cw_c2n _ _ Hwf) as Hcl.
    set (r' := set_cell_blank _ _).
    assert (Hsame : forall c, cell_at r' c = cell_at r c).
    { intros c. destruct (decide (cell_max r <= c < nmax)) as [Hc|Hc].
      - transitivity (@None (list Z)); [|symmetry; apply cell_at_None; intros [? _]; lia].
        apply cell_at_None. intros [_ Hx]. apply Hx. by apply Hlinked.
      - apply cell_at_ext; [done|done|cbn; lia|]. intros node Hn Hcc. cbn. rewrite Hold by lia.
        apply aat_realloc; nia. }
    split; [|repeat (split; [done || (cbn; lia)|]); split; [|done]].
    + exists (seqZ (cell_max r) (nmax - cell_max r)). split.
      * constructor; cbn [r' cell_tables cell_max cell_blank cell_c2n cell_n cell_adj set_cell_blank set_cell_c2n set_cell_max];
          try apply Hwf; try lia.
        { apply chain_linked; [lia|]. intros j Hj. by apply Hlinked. }
        { apply NoDup_seqZ. }
        { intros c. fold r'. rewrite Hsame, elem_of_seqZ. split.
          - intros Hc. split; [lia|]. apply cell_at_None. intros [? _]. lia.
          - intros [Hc Hn]. destruct (decide (cell_max r <= c)); [lia|].
            exfalso. assert (c ∈ []) by (apply (cw_blank _ _ Hwf); split; [lia|done]). set_solver. }
        { pose proof (cw_n _ _ Hwf). unfold zlen in *. cbn in *. rewrite length_seqZ. lia. }
        { intros c l. fold r'. rewrite Hsame. apply (cw_nodes _ _ Hwf). }
        { intros k c. fold r'. rewrite Hsame. apply (cw_registered _ _ Hwf). }
      * rewrite seqZ_cons by lia. split; [done|]. cbn [blank_after]. by rewrite <- seqZ_cons by lia.
    + right. split; [|done]. pose proof (cw_n _ _ Hwf). unfold zlen in *. cbn in *. lia.
  - apply wp_ret. split; [done|]. split; [|repeat (split; [done || lia|]); done].
    exists bl. split; [done|]. pose proof (cw_chain _ _ Hwf) as Hch. destruct bl; [|done]. cbn in Hch. done.
Qed.

(** The loop of [ref_cell_add] that stores the nodes and the id. *)
Lemma wp_fill_row t max cell nodes c2n (Q : list Z -> Prop) :
  table_counts t -> size_per t * max <= REF_INT_MAX -> zlen c2n = size_per t * max ->
  0 <= cell < max -> size_per t <= zlen nodes ->
  (forall c2n', zlen c2n' = size_per t * max ->
     (forall node c, 0 <= node < size_per t -> 0 <= c ->
        c2n'.[node + size_per t * c] = if c =? cell then nodes.[node] else c2n.[node + size_per t * c]) ->
     Q c2n') ->
  wp (for_up 0 (size_per t) (fun node c2n =>
        let* v := aget nodes node in put_c2n t node cell v c2n) c2n) Q.
Proof.
  intros Ht Hmax Hl Hc Hn HQ. destruct (counts_bounds _ Ht) as [Hb _].
  apply (wp_for_up (fun i d => zlen d = size_per t * max /\
    forall node c, 0 <= node < size_per t -> 0 <= c ->
      d.[node + size_per t * c] = if (c =? cell) && (node <? i) then nodes.[node] else c2n.[node + size_per t * c]));
    [lia| | |].
  - split; [done|]. intros node c Hnode _. destruct (Z.ltb_spec node 0); [lia|]. by rewrite andb_false_r.
  - intros i d Hi (Hld & Hd). apply wp_bind, wp_aget; [lia|].
    apply (wp_put_c2n _ _ Ht Hmax); [done|lia|done|]. split; [by rewrite zlen_upd|].
    intros node c Hnode Hc'. rewrite (aat_put _ _ Ht Hmax) by (done || lia). rewrite Hd by done.
    rewrite (Z.eqb_sym i node), (Z.eqb_sym cell c).
    destruct (Z.eqb_spec node i), (Z.eqb_spec c cell), (Z.ltb_spec node i), (Z.ltb_spec node (i + 1));
      subst; cbn [andb]; lia || done.
  - intros d (Hld & Hd). apply HQ; [done|]. intros node c Hnode Hc'. rewrite Hd by done.
    destruct (Z.ltb_spec node (size_per t)); [|lia]. by rewrite andb_true_r.
Qed.

Lemma nodes_of_prefix t nodes :
  table_counts t -> nodes_of t (ztake (size_per t) nodes) = nodes_of t nodes.
Proof.
  intros Ht. destruct (counts_bounds _ Ht) as [Hb _]. unfold nodes_of, ztake.
  rewrite take_take. f_equal. lia.
Qed.

(** The state after the new element has been stored and registered. *)
Lemma cell_wf_new r bl cell nodes c2n adj :
  cell_wf r (cell :: bl) -> zlen c2n = zlen (cell_c2n r) ->
  (forall node c, 0 <= node < size_per (cell_tables r) -> 0 <= c ->
     c2n.[node + size_per (cell_tables r) * c] =
     if c =? cell then nodes.[node] else (cell_c2n r).[node + size_per (cell_tables r) * c]) ->
  size_per (cell_tables r) <= zlen nodes ->
  Forall (fun v => 0 <= v <= NODE_LIMIT) (nodes_of (cell_tables r) nodes) ->
  adj_wf adj ->
  (forall n c, occ (adj_refs adj n) c = occ (adj_refs (cell_adj r) n) c +
     Z.b2z (cell =? c) * occ (nodes_of (cell_tables r) nodes) n) ->
  let r' := mkREF_CELL (cell_tables r) (cell_n r + 1) (cell_max r)
    (cell_c2n r).[1 + size_per (cell_tables r) * cell] c2n adj in
  cell_wf r' bl /\ forall c, cell_at r' c =
    at_upd (cell_at r) cell (Some (ztake (size_per (cell_tables r)) nodes)) c.
Proof.
  intros Hwf Hl Hrow Hlen Hnodes Hadj Hocc r'. pose proof (cell_wf_counts _ _ Hwf) as Ht.
  destruct (counts_bounds _ Ht) as [Hb _]. pose proof (cw_chain _ _ Hwf) as [Hblank Hch].
  assert (cell ∈ cell :: bl) as [Hc Hnone]%(cw_blank _ _ Hwf) by set_solver.
  assert (Hat : forall c, cell_at r' c =
    at_upd (cell_at r) cell (Some (ztake (size_per (cell_tables r)) nodes)) c).
  { intros c. unfold at_upd. case Z.eqb_spec; intros Hcc.
    - subst c. apply cell_at_Some. split; [done|]. cbn. split.
      + change (size_per (cell_tables r) * cell) with (0 + size_per (cell_tables r) * cell).
        rewrite Hrow, Z.eqb_refl by lia. rewrite Forall_forall in Hnodes.
        unfold REF_EMPTY. enough (0 <= nodes.[0] <= NODE_LIMIT) by lia.
        apply Hnodes. unfold nodes_of. apply elem_of_ztake; [lia|]. exists 0. split; [lia|done].
      + apply arr_ext; rewrite zlen_ztake by lia; [by rewrite zlen_c2n_row|].
        intros i Hi. rewrite aat_ztake, aat_c2n_row, Hrow by lia. by rewrite Z.eqb_refl.
    - apply cell_at_ext; [done|done|done|]. intros node Hnode Hcr. cbn.
      rewrite Hrow by lia. by destruct (Z.eqb_spec c cell). }
  split; [|done]. pose proof (cw_nodup _ _ Hwf) as [Hnin Hnd]%NoDup_cons.
  pose proof (cw_n _ _ Hwf) as Hcount. rewrite zlen_cons in Hcount.
  constructor; cbn [r' cell_tables cell_max cell_blank cell_c2n cell_n cell_adj];
    try apply Hwf; try done; [rewrite Hl; apply Hwf| | |lia| |].
  - eapply chain_ext; [|exact Hch]. cbn. intros c Hcb.
    assert (c ∈ cell :: bl) as [Hcr _]%(cw_blank _ _ Hwf) by set_solver.
    rewrite Hrow by lia. destruct (Z.eqb_spec c cell); [by subst|done].
  - intros c. fold r'. rewrite Hat. unfold at_upd. pose proof (cw_blank _ _ Hwf c) as Hbc.
    rewrite elem_of_cons in Hbc. case Z.eqb_spec; intros Hcc; [|naive_solver].
    subst c. split; [done|by intros [_ ?]].
  - intros c l. fold r'. rewrite Hat. unfold at_upd. case Z.eqb_spec; intros Hcc.
    + intros [= <-]. by rewrite nodes_of_prefix.
    + apply (cw_nodes _ _ Hwf).
  - intros n c. fold r'. rewrite Hocc, (cw_registered _ _ Hwf), Hat. unfold at_upd.
    rewrite (Z.eqb_sym cell c). case Z.eqb_spec; intros Hcc; cbn [Z.b2z]; [|lia].
    subst c. rewrite Hnone, nodes_of_prefix by done. lia.
Qed.

Lemma add_to_blank_ok r bl cell nodes :
  cell_wf r (cell :: bl) -> node_per (cell_tables r) * (cell_n r + 1) < REF_INT_MAX ->
  size_per (cell_tables r) <= zlen nodes ->
  Forall (fun v => 0 <= v <= NODE_LIMIT) (nodes_of (cell_tables r) nodes) ->
  wp (add_to_blank r nodes) (fun '(st, (cell', r')) =>
    st = REF_SUCCESS /\ cell' = cell /\ cell_wf r' bl /\ cell_tables r' = cell_tables r /\
    cell_n r' = cell_n r + 1 /\ cell_max r' = cell_max r /\
    forall c, cell_at r' c =
      at_upd (cell_at r) cell (Some (ztake (size_per (cell_tables r)) nodes)) c).
Proof.
  intros Hwf Hfit Hlen Hnodes. unfold add_to_blank.
  pose proof (cell_wf_counts _ _ Hwf) as Ht. destruct (counts_bounds _ Ht) as [Hb _].
  pose proof (cw_size _ _ Hwf) as Hsize. pose proof (cw_c2n _ _ Hwf) as Hcl.
  destruct (cw_chain _ _ Hwf) as [Hblank Hch]. rewrite Hblank.
  assert (cell ∈ cell :: bl) as [Hc Hnone]%(cw_blank _ _ Hwf) by set_solver.
  unfold ref_cell_c2n. apply wp_bind, (wp_get_c2n _ _ Ht Hsize); [done|lia|done|].
  unfold ref_cell_size_per, ref_cell_node_per. cbn [cell_tables set_cell_blank cell_c2n].
  apply wp_bind, (wp_fill_row _ (cell_max r)); [done..|].
  intros c2n Hl2 Hrow. cbn [cell_adj cell_tables set_cell_c2n set_cell_blank].
  assert (Hln : zlen (nodes_of (cell_tables r) nodes) = node_per (cell_tables r)).
  { rewrite <- nodes_of_prefix, zlen_nodes_of by (done || apply zlen_ztake; lia). done. }
  rewrite <- Hln. apply wp_bind. unfold register_nodes.
  eapply wp_mono; [apply (register_loop_ok _ (nodes_of (cell_tables r) nodes)); [apply Hwf|done| |]|].
  { intros i Hi. unfold nodes_of. rewrite aat_ztake by lia. apply aget_aat. lia. }
  { intros k. pose proof (cell_refs_total r _ k Hwf). lia. }
  intros c (adj & -> & Hadj & _ & Hocc). cbn [cell_n set_cell_adj set_cell_c2n set_cell_blank].
  assert (0 <= cell_n r) by (rewrite <- (zlen_valid_cells _ _ Hwf); apply zlen_nonneg).
  pose proof (cw_n _ _ Hwf) as Hcount. rewrite zlen_cons in Hcount. pose proof (zlen_nonneg bl).
  apply wp_bind, wp_ck_int; [unfold REF_INT_MIN; nia|]. apply wp_ret.
  destruct (cell_wf_new r bl cell nodes c2n adj) as [Hwf' Hat']; try done; congruence.
Qed.

Lemma ref_cell_add_spec r bl nodes :
  cell_wf r bl -> cell_max r <= GROW_LIMIT ->
  node_per (cell_tables r) * (cell_n r + 1) < REF_INT_MAX ->
  size_per (cell_tables r) <= zlen nodes ->
  Forall (fun v => 0 <= v <= NODE_LIMIT) (nodes_of (cell_tables r) nodes) ->
  wp (ref_cell_add r nodes) (fun '(st, (cell, r')) =>
    st = REF_SUCCESS /\ 0 <= cell /\ cell_at r cell = None /\ (exists bl', cell_wf r' bl' /\ cell :: bl' = blank_after bl (cell_max r) (cell_max r')) /\
    cell_tables r' = cell_tables r /\ cell_n r' = cell_n r + 1 /\
    (cell_max r' = cell_max r \/
     cell_n r = cell_max r /\ cell_max r' = cell_max r + Z.max 5000 (half_more (cell_max r))) /\
    forall c, cell_at r' c =
      at_upd (cell_at r) cell (Some (ztake (size_per (cell_tables r)) nodes)) c).
Proof.
  intros Hwf Hlim Hfit Hlen Hnodes. unfold ref_cell_add. apply wp_bind.
  eapply wp_mono; [by eapply cell_grow_ok|].
  intros [st r1] (-> & (bl1 & Hwf1 & Hbl1 & Hafter) & Htb & Hn1 & Hadj1 & _ & Hmax1 & Hat1). cbn [RSS].
  destruct bl1 as [|cell bl2]; [done|].
  assert (cell ∈ cell :: bl2) as [Hc Hnone]%(cw_blank _ _ Hwf1) by set_solver.
  eapply wp_mono; [apply (add_to_blank_ok r1 bl2 cell nodes); [done|by rewrite Htb, Hn1|by rewrite Htb..]|].
  intros [st [cell' r']] (-> & -> & Hwf' & Htb' & Hn' & Hm' & Hat'). split; [done|]. split; [lia|].
  split; [by rewrite <- Hat1|]. split; [exists bl2; split; [done|by rewrite Hm']|]. split; [congruence|]. split; [lia|].
  split; [by rewrite Hm'|]. intros c. rewrite Hat', Htb. unfold at_upd. by case Z.eqb_spec.
Qed.

Lemma ref_cell_add_ok r bl nodes :
  cell_wf r bl -> cell_max r <= GROW_LIMIT ->
  node_per (cell_tables r) * (cell_n r + 1) < REF_INT_MAX ->
  size_per (cell_tables r) <= zlen nodes ->
  Forall (fun v => 0 <= v <= NODE_LIMIT) (nodes_of (cell_tables r) nodes) ->
  wp (ref_cell_add r nodes) (fun '(st, (cell, r')) =>
    st = REF_SUCCESS /\ 0 <= cell /\ cell_at r cell = None /\ (exists bl', cell_wf r' bl') /\
    cell_tables r' = cell_tables r /\ cell_n r' = cell_n r + 1 /\
    (cell_max r' = cell_max r \/
     cell_n r = cell_max r /\ cell_max r' = cell_max r + Z.max 5000 (half_more (cell_max r))) /\
    forall c, cell_at r' c =
      at_upd (cell_at r) cell (Some (ztake (size_per (cell_tables r)) nodes)) c).
Proof.
  intros. eapply wp_mono; [by apply (ref_cell_add_spec r bl nodes)|]. intros [st [cell r']] (? & ? & ? & (bl' & ? & _) & ?).
  split; [done|]. split; [done|]. split; [done|]. split; [by exists bl'|done].
Qed.

(** The loop of [ref_cell_remove]. *)
Lemma unregister_ok r bl cell entries n :
  cell_wf r bl -> cell_at r cell = Some entries ->
  wp (forx_up 0 (node_per (cell_tables r)) (fun node r =>
        let* v := ref_cell_c2n r node cell in
        let* '(st, adj) := ref_adj_remove (cell_adj r) v cell in
        RSS_next st (set_cell_adj adj r)) (set_cell_n n r)) (fun c =>
    exists adj, c = Next (set_cell_adj adj (set_cell_n n r)) /\ adj_wf adj /\
    forall k c, occ (adj_refs adj k) c = if cell =? c then 0 else occ (adj_refs (cell_adj r) k) c).
Proof.
  intros Hwf Hat. pose proof (cell_wf_counts _ _ Hwf) as Ht. destruct (counts_bounds _ Ht) as [Hb _].
  pose proof (zlen_entries _ _ _ _ Hwf Hat) as Hlen. apply cell_at_Some in Hat as Hc.
  destruct Hc as (Hc & _ & Hrow). pose proof (zlen_nodes_of _ _ Ht Hlen) as Hln.
  set (nodes := nodes_of (cell_tables r) entries) in *.
  apply (wp_forx_up (fun i r' => exists adj, r' = set_cell_adj adj (set_cell_n n r) /\ adj_wf adj /\
    forall k c, occ (adj_refs adj k) c =
      occ (adj_refs (cell_adj r) k) c - Z.b2z (cell =? c) * occ (ztake i nodes) k) (fun _ => False));
    [lia| | | |done].
  - exists (cell_adj r). split; [by destruct r|]. split; [apply Hwf|]. intros k c.
    change (occ (ztake 0 nodes) k) with 0. lia.
  - intros i r' Hi (adj & -> & Hadj & Hocc).
    apply wp_bind, (wp_get_c2n _ _ Ht (cw_size _ _ Hwf)); [apply Hwf|cbn; lia|done|].
    assert ((cell_c2n r).[i + size_per (cell_tables r) * cell] = nodes.[i]) as Hv.
    { unfold nodes, nodes_of. rewrite aat_ztake, Hrow, aat_c2n_row by lia. done. }
    cbn [cell_tables cell_c2n cell_adj set_cell_adj set_cell_n]. rewrite Hv.
    apply wp_bind. eapply wp_mono; [apply adj_remove_occ; [done|]|].
    + rewrite Hocc, (cw_registered _ _ Hwf), Hat, Z.eqb_refl. fold nodes. cbn [Z.b2z].
      rewrite <- (take_drop (Z.to_nat i) nodes) at 1. fold (ztake i nodes). rewrite occ_app.
      assert (0 < occ (drop (Z.to_nat i) nodes) nodes.[i]); [|lia]. apply occ_pos.
      rewrite (drop_S nodes nodes.[i]) by (apply aat_lookup; lia). set_solver.
    + intros [st adj'] (-> & Hadj' & _ & Hocc'). apply wp_ret. cbn. exists adj'.
      split; [done|]. split; [done|]. intros k c.
      rewrite Hocc', Hocc, ztake_S, occ_app, occ_cons, occ_nil by lia. lia.
  - intros r' (adj & -> & Hadj & Hocc). exists adj. split; [done|]. split; [done|]. intros k c.
    rewrite Hocc. case Z.eqb_spec; intros; cbn [Z.b2z]; [|lia]. subst c.
    rewrite (cw_registered _ _ Hwf), Hat. fold nodes. rewrite <- Hln, ztake_full. lia.
Qed.

Lemma ref_cell_remove_ok r bl cell :
  cell_wf r bl ->
  wp (ref_cell_remove r cell) (fun '(st, r') =>
    match cell_at r cell with
    | None => st = REF_INVALID /\ r' = r
    | Some _ => st = REF_SUCCESS /\ cell_wf r' (cell :: bl) /\ cell_tables r' = cell_tables r /\
        cell_n r' = cell_n r - 1 /\ cell_max r' = cell_max r /\
        forall c, cell_at r' c = at_upd (cell_at r) cell None c
    end).
Proof.
  intros Hwf. pose proof (cell_wf_counts _ _ Hwf) as Ht. destruct (counts_bounds _ Ht) as [Hb _].
  pose proof (cw_size _ _ Hwf) as Hsize. pose proof (cw_c2n _ _ Hwf) as Hcl. pose proof (cw_max _ _ Hwf).
  unfold ref_cell_remove. rewrite (ref_cell_valid_ok _ _ _ Hwf). cbn [obind].
  destruct (cell_at r cell) as [entries|] eqn:Hat; cbn [negb]; [|by apply wp_ret].
  pose proof (zlen_valid_cells _ _ Hwf) as Hcount. pose proof (zlen_nonneg (valid_cells r)).
  pose proof (cw_n _ _ Hwf) as Hn. pose proof (zlen_nonneg bl).
  apply wp_bind, wp_ck_int; [unfold REF_INT_MIN; nia|].
  apply wp_bind. eapply wp_mono; [exact (unregister_ok r bl cell entries (cell_n r - 1) Hwf Hat)|]. intros c (adj & -> & Hadj & Hocc).
  apply cell_at_Some in Hat as Hc. destruct Hc as (Hc & _ & _). cbn [RSS_after].
  apply wp_bind, (wp_put_c2n _ _ Ht Hsize); [done|cbn; lia|done|].
  apply wp_bind, (wp_put_c2n _ _ Ht Hsize); [by rewrite zlen_upd|cbn; lia|done|]. apply wp_ret. split; [done|].
  cbn [cell_tables cell_c2n cell_blank set_cell_adj set_cell_n].
  set (c2n := upd (upd _ _ _) _ _). set (r' := set_cell_blank _ _).
  assert (Hrow : forall node c, 0 <= node < size_per (cell_tables r) -> 0 <= c -> c <> cell ->
    c2n.[node + size_per (cell_tables r) * c] = (cell_c2n r).[node + size_per (cell_tables r) * c]).
  { intros node c Hnode Hc' Hcc. unfold c2n. rewrite !(aat_put _ _ Ht Hsize) by (rewrite ?zlen_upd; done || lia).
    destruct (Z.eqb_spec cell c); [by subst|]. by rewrite !andb_false_r. }
  assert (Hat' : forall c, cell_at r' c = at_upd (cell_at r) cell None c).
  { intros c. unfold at_upd. case Z.eqb_spec; intros Hcc.
    - subst c. apply cell_at_None. cbn. intros [_ Hx]. apply Hx. unfold c2n.
      change (size_per (cell_tables r) * cell) with (0 + size_per (cell_tables r) * cell) at 3.
      rewrite !(aat_put _ _ Ht Hsize) by (rewrite ?zlen_upd; done || lia). cbn [Z.eqb andb].
      by rewrite Z.eqb_refl.
    - apply cell_at_ext; [done|done|done|]. intros node Hnode Hcr. apply Hrow; [done|lia|done]. }
  assert (Hnb : cell ∉ bl) by (intros [_ Hx]%(cw_blank _ _ Hwf); congruence).
  split; [|done].
  constructor; cbn [r' cell_tables cell_max cell_blank cell_c2n cell_n cell_adj set_cell_n set_cell_blank set_cell_c2n set_cell_adj];
    try apply Hwf; try done.
  - unfold c2n. by rewrite !zlen_upd.
  - assert (Hnext : c2n.[1 + size_per (cell_tables r) * cell] = cell_blank r).
    { unfold c2n. rewrite (aat_put _ _ Ht Hsize) by (rewrite ?zlen_upd; done || lia). by rewrite !Z.eqb_refl. }
    cbn [chain]. split; [done|]. rewrite Hnext.
    eapply chain_ext; [|apply (cw_chain _ _ Hwf)]. cbn. intros c Hcb.
    apply (cw_blank _ _ Hwf) in Hcb as Hcr. apply Hrow; [lia|lia|]. by intros ->.
  - constructor; [done|apply Hwf].
  - intros c. fold r'. rewrite Hat', elem_of_cons, (cw_blank _ _ Hwf). unfold at_upd.
    case Z.eqb_spec; intros Hcc; [|naive_solver]. subst c. split; [done|]. intros. by left.
  - rewrite zlen_cons. lia.
  - intros c l. fold r'. rewrite Hat'. unfold at_upd. case Z.eqb_spec; [done|].
    intros _. apply (cw_nodes _ _ Hwf).
  - intros k c. fold r'. rewrite Hocc, Hat', (cw_registered _ _ Hwf). unfold at_upd.
    rewrite (Z.eqb_sym cell c). by case Z.eqb_spec.
Qed.

Lemma ref_cell_nodes_shape r cell nodes :
  cell_shape r -> size_per (cell_tables r) <= zlen nodes ->
  wp (ref_cell_nodes r cell nodes) (fun '(st, nodes') =>
    match cell_at r cell with
    | None => st = REF_INVALID /\ nodes' = nodes
    | Some entries => st = REF_SUCCESS /\ zlen nodes' = zlen nodes /\
        ztake (size_per (cell_tables r)) nodes' = entries
    end).
Proof.
  intros Hs Hlen. pose proof (cs_counts _ Hs) as Ht. destruct (counts_bounds _ Ht) as [Hb _].
  unfold ref_cell_nodes. rewrite (ref_cell_valid_shape _ _ Hs). cbn [obind].
  destruct (cell_at r cell) as [entries|] eqn:Hat; cbn [negb]; [|by apply wp_ret].
  apply cell_at_Some in Hat as (Hc & _ & Hrow).
  pose proof (zlen_c2n_row _ Ht (cell_c2n r) cell) as Hle. rewrite <- Hrow in Hle.
  unfold ref_cell_size_per. apply wp_bind.
  apply (wp_fill (fun node => (cell_c2n r).[node + size_per (cell_tables r) * cell])); [lia|done| |].
  - intros i d Hi Hl _. apply wp_bind, (wp_get_c2n _ _ Ht (cs_size _ Hs)); [apply Hs|lia|done|].
    by apply wp_aset; [lia|].
  - intros d Hl Hd. apply wp_ret. split; [done|]. split; [done|]. rewrite Hrow in *.
    apply arr_ext; rewrite zlen_ztake by lia; [done|]. intros i Hi.
    rewrite aat_ztake, Hd, aat_c2n_row by lia.
    destruct (Z.leb_spec 0 i), (Z.ltb_spec i (size_per (cell_tables r))); lia || done.
Qed.

Lemma ref_cell_nodes_ok r bl cell nodes :
  cell_wf r bl -> size_per (cell_tables r) <= zlen nodes ->
  wp (ref_cell_nodes r cell nodes) (fun '(st, nodes') =>
    match cell_at r cell with
    | None => st = REF_INVALID /\ nodes' = nodes
    | Some entries => st = REF_SUCCESS /\ zlen nodes' = zlen nodes /\
        ztake (size_per (cell_tables r)) nodes' = entries
    end).
Proof. intros Hwf. by apply ref_cell_nodes_shape, (cell_wf_shape r bl). Qed.

Lemma ref_cell_create_spec type :
  wp (ref_cell_create type) (fun '(st, r) =>
    st = REF_SUCCESS /\ cell_wf r (seqZ 0 100) /\ cell_tables r = snd (ref_cell_initialize type) /\
    cell_n r = 0 /\ cell_max r = 100 /\ forall c, cell_at r c = None).
Proof.
  unfold ref_cell_create.
  assert (Hinit : ref_cell_initialize type = (REF_SUCCESS, snd (ref_cell_initialize type))) by done.
  rewrite Hinit. set (t := snd (ref_cell_initialize type)).
  pose proof (initialize_counts type) as Ht. fold t in Ht. destruct (counts_bounds _ Ht) as (Hb & Hb2 & _).
  apply wp_bind, wp_ck_int; [unfold REF_INT_MIN, REF_INT_MAX; lia|].
  assert (Hsize : size_per t * 100 <= REF_INT_MAX) by (unfold REF_INT_MAX; lia).
  apply wp_bind, (wp_link_cells _ _ Ht Hsize); [lia|lia|rewrite zlen_alloc; lia|].
  intros c2n Hl Hlinked _. apply wp_bind. eapply wp_mono; [apply ref_adj_create_ok|].
  intros [st adj] (-> & Hadj & Hrefs). apply wp_ret. split; [done|]. set (r := mkREF_CELL _ _ _ _ _ _).
  assert (Hat : forall c, cell_at r c = None).
  { intros c. apply cell_at_None. cbn. intros [Hc Hx]. apply Hx. by apply Hlinked. }
  split; [|done].
  constructor; cbn [r cell_tables cell_max cell_blank cell_c2n cell_n cell_adj]; try done; try lia.
  - apply (chain_linked _ 0 100); [lia|]. intros j Hj. by apply Hlinked.
  - apply NoDup_seqZ.
  - intros c. fold r. rewrite Hat, elem_of_seqZ. split; [intros; split; [lia|done]|intros [? _]; lia].
  - intros c l. fold r. by rewrite Hat.
  - intros n c. fold r. by rewrite Hrefs, Hat.
Qed.

Lemma ref_cell_create_ok type :
  wp (ref_cell_create type) (fun '(st, r) =>
    st = REF_SUCCESS /\ (exists bl, cell_wf r bl) /\ cell_type (cell_tables r) = type /\
    cell_n r = 0 /\ cell_max r = 100 /\ forall c, cell_at r c = None).
Proof.
  eapply wp_mono; [apply ref_cell_create_spec|]. intros [st r] (-> & Hwf & Ht & Hr). split; [done|].
  split; [by eexists|]. by rewrite Ht.
Qed.

Lemma ref_cell_deep_copy_ok r bl :
  cell_wf r bl -> ref_cell_deep_copy r = Some (REF_SUCCESS, r).
Proof.
  intros Hwf. apply wp_eq. pose proof (cell_wf_counts _ _ Hwf) as Ht.
  destruct (counts_bounds _ Ht) as [Hb _]. pose proof (cw_max _ _ Hwf). pose proof (cw_size _ _ Hwf) as Hsize.
  pose proof (cw_c2n _ _ Hwf) as Hcl. unfold ref_cell_deep_copy.
  assert (Hinit : ref_cell_initialize (cell_type (cell_tables r)) = (REF_SUCCESS, cell_tables r))
    by (rewrite (cw_tables _ _ Hwf) at 2; done).
  rewrite Hinit. apply wp_bind, wp_ck_int; [unfold REF_INT_MIN; nia|].
  apply wp_bind, (wp_fill_blocks (aat (cell_c2n r)) (size_per (cell_tables r)) (cell_max r)); [lia|lia|rewrite zlen_alloc by nia; lia| |].
  - intros cell node d Hc Hn Hl. rewrite zlen_alloc in Hl by nia.
    apply wp_bind, (wp_get_c2n _ _ Ht Hsize); [done|done|done|].
    apply (wp_put_c2n _ _ Ht Hsize); [lia|done|done|]. done.
  - rewrite zlen_alloc by nia. intros d Hl Hd _. rewrite ref_adj_deep_copy_ok by apply Hwf. cbn [obind].
    apply wp_ret. f_equal. assert (d = cell_c2n r) as ->; [|by destruct r].
    apply arr_ext; [lia|]. intros i Hi. apply Hd. lia.
Qed.
End ops_ok.
