(* ===== verification/RefGeom.v ===== *)
(** * ref_geom.c: which vertices lie on which entities of the geometry

    [REF_GEOM] keeps one record per association of a vertex with a geometry node,
    edge or face: six integers in [descr] (type, id, id in the model, jump,
    degeneracy, vertex) and two parameters in [param]. The records are a table
    with unused rows ([Rows]) and are registered with their vertex in a
    [REF_ADJ]. [geom_wf] is the invariant; the theorem refines the operations to
    the ones of a finite map from (vertex, type, id) to the rest of the record.
    The evaluation of the geometry (ref_egads.c and what calls it) has no
    model. *)
From S2P Require Import Prelude Rows RefAdj RefSort RefDbl RefMpi RefNode RefCellType RefCell.
From stdpp Require Import prelude list gmap.
From Stdlib Require Import ZArith Lia.
Open Scope Z_scope.
Open Scope ref_scope.

(** The constants of ref_geom.h. *)
Definition REF_GEOM_NODE : Z := 0.
Definition REF_GEOM_EDGE : Z := 1.
Definition REF_GEOM_FACE : Z := 2.
Definition REF_GEOM_DESCR_SIZE : Z := 6.
Definition REF_GEOM_DESCR_TYPE : Z := 0.
Definition REF_GEOM_DESCR_ID : Z := 1.
Definition REF_GEOM_DESCR_GREF : Z := 2.
Definition REF_GEOM_DESCR_JUMP : Z := 3.
Definition REF_GEOM_DESCR_DEGEN : Z := 4.
Definition REF_GEOM_DESCR_NODE : Z := 5.

(** The members that hold the associations. *)
Record REF_GEOM (D : Type) := mkREF_GEOM {
  geom_n : Z;
  geom_max : Z;
  geom_blank : Z;
  geom_descr : list Z;
  geom_param : list D;
  geom_adj : REF_ADJ
}.
#[global] Arguments mkREF_GEOM {D}.
#[global] Arguments geom_n {D}.
#[global] Arguments geom_max {D}.
#[global] Arguments geom_blank {D}.
#[global] Arguments geom_descr {D}.
#[global] Arguments geom_param {D}.
#[global] Arguments geom_adj {D}.

(** Assignments to one member. *)
Section setters.
Context {D : Type}.
Implicit Types (r : REF_GEOM D).
Definition set_geom_n (x : Z) r : REF_GEOM D :=
  mkREF_GEOM x (geom_max r) (geom_blank r) (geom_descr r) (geom_param r) (geom_adj r).
Definition set_geom_blank (x : Z) r : REF_GEOM D :=
  mkREF_GEOM (geom_n r) (geom_max r) x (geom_descr r) (geom_param r) (geom_adj r).
Definition set_geom_descr (x : list Z) r : REF_GEOM D :=
  mkREF_GEOM (geom_n r) (geom_max r) (geom_blank r) x (geom_param r) (geom_adj r).
Definition set_geom_param (x : list D) r : REF_GEOM D :=
  mkREF_GEOM (geom_n r) (geom_max r) (geom_blank r) (geom_descr r) x (geom_adj r).
Definition set_geom_adj (x : REF_ADJ) r : REF_GEOM D :=
  mkREF_GEOM (geom_n r) (geom_max r) (geom_blank r) (geom_descr r) (geom_param r) x.
End setters.

Section ops.
Context {D : Type} `{Dbl D, Junk Z, Junk REF_ADJ_ITEM, Junk D}.
Implicit Types (r : REF_GEOM D).

(** [ref_geom_descr] and the macros on it, read. *)
Definition ref_geom_descr r (attribute geom : Z) : option Z :=
  row_get REF_GEOM_DESCR_SIZE (geom_descr r) attribute geom.
Definition ref_geom_type r (geom : Z) : option Z := ref_geom_descr r REF_GEOM_DESCR_TYPE geom.
Definition ref_geom_id r (geom : Z) : option Z := ref_geom_descr r REF_GEOM_DESCR_ID geom.
Definition ref_geom_jump r (geom : Z) : option Z := ref_geom_descr r REF_GEOM_DESCR_JUMP geom.
Definition ref_geom_degen r (geom : Z) : option Z := ref_geom_descr r REF_GEOM_DESCR_DEGEN geom.
Definition ref_geom_node r (geom : Z) : option Z := ref_geom_descr r REF_GEOM_DESCR_NODE geom.
(** The same, written. *)
Definition put_descr r (attribute geom v : Z) : option (REF_GEOM D) :=
  let* descr := row_put REF_GEOM_DESCR_SIZE attribute geom v (geom_descr r) in
  Some (set_geom_descr descr r).

(** [ref_geom_param], read and written. *)
Definition ref_geom_param r (dimension geom : Z) : option D :=
  let* k := row_index 2 dimension geom in aget (geom_param r) k.
Definition put_param r (dimension geom : Z) (v : D) : option (REF_GEOM D) :=
  let* k := row_index 2 dimension geom in
  let* param := aset (geom_param r) k v in
  Some (set_geom_param param r).

(** The loop of [each_ref_geom]. *)
Definition each_ref_geom {T R : Type} (max : Z) (get_geom : T -> REF_GEOM D)
    (body : Z -> T -> option (ctl T R)) (s : T) : option (ctl T R) :=
  forx_up 0 max (fun geom s =>
    let* type := ref_geom_type (get_geom s) geom in
    if negb (REF_EMPTY =? type) then body geom s else Some (Next s)) s.

Definition ref_geom_initialize r : option (REF_STATUS * REF_GEOM D) :=
  let* descr := link_rows REF_GEOM_DESCR_SIZE 0 (geom_max r) (geom_descr r) in
  let* '(st, adj) := ref_adj_create in
  Some (st, mkREF_GEOM 0 (geom_max r) 0 descr (geom_param r) adj).

(** The adjacency of a new [REF_GEOM] is [NULL] until [ref_geom_initialize]. *)
Definition ref_geom_create : option (REF_STATUS * REF_GEOM D) :=
  let max := 10 in
  let* size := ck_int (REF_GEOM_DESCR_SIZE * max) in
  let descr := alloc size in
  let* size := ck_int (2 * max) in
  let param := alloc size in
  ref_geom_initialize (mkREF_GEOM 0 max 0 descr param (mkREF_ADJ 0 0 [] [] REF_EMPTY)).

Definition ref_geom_deep_copy (original : REF_GEOM D) : option (REF_STATUS * REF_GEOM D) :=
  let max := geom_max original in
  let* size := ck_int (REF_GEOM_DESCR_SIZE * max) in
  let* psize := ck_int (2 * max) in
  let* descr :=
    for_up 0 max (fun geom descr =>
      for_up 0 REF_GEOM_DESCR_SIZE (fun i descr =>
        let* v := ref_geom_descr original i geom in
        row_put REF_GEOM_DESCR_SIZE i geom v descr) descr) (alloc size) in
  let* param :=
    for_up 0 max (fun geom param =>
      for_up 0 2 (fun i param =>
        let* v := ref_geom_param original i geom in
        let* k := row_index 2 i geom in
        aset param k v) param) (alloc psize) in
  let* '(st, adj) := ref_adj_deep_copy (geom_adj original) in
  Some (st, mkREF_GEOM (geom_n original) max (geom_blank original) descr param adj).

(** The integer is [*found]. *)
Definition ref_geom_find r (node type id : Z) : option (REF_STATUS * Z) :=
  let* c :=
    each_ref_adj_node_item_with_ref (geom_adj r) node (fun _ geom (_ : unit) =>
      let* t := ref_geom_type r geom in
      let* i := ref_geom_id r geom in
      if (type =? t) && (id =? i) then Some (Exit (REF_SUCCESS, geom)) else Some (Next tt)) tt in
  match c with
  | Exit x => Some x
  | Next _ => Some (REF_NOT_FOUND, REF_EMPTY)
  end.

Definition ref_geom_supported r (node : Z) : option (REF_STATUS * bool) :=
  let* e := ref_adj_empty (geom_adj r) node in Some (REF_SUCCESS, negb e).

Definition ref_geom_id_supported r (node type id : Z) : option (REF_STATUS * bool) :=
  let* '(status, _) := ref_geom_find r node type id in
  if bool_decide (REF_NOT_FOUND = status) then Some (REF_SUCCESS, false)
  else RSS status false (Some (REF_SUCCESS, true)).

Definition ref_geom_tri_supported r (nodes : list Z) : option (REF_STATUS * bool) :=
  let* node := aget nodes 0 in
  let* id := aget nodes 3 in
  ref_geom_id_supported r node REF_GEOM_FACE id.

Definition ref_geom_is_a r (node type : Z) : option (REF_STATUS * bool) :=
  let* c :=
    each_ref_adj_node_item_with_ref (geom_adj r) node (fun _ geom (_ : unit) =>
      let* t := ref_geom_type r geom in
      if type =? t then Some (Exit (REF_SUCCESS, true)) else Some (Next tt)) tt in
  match c with
  | Exit x => Some x
  | Next _ => Some (REF_SUCCESS, false)
  end.

Definition ref_geom_has_jump r (node : Z) : option (REF_STATUS * bool) :=
  let* c :=
    each_ref_adj_node_item_with_ref (geom_adj r) node (fun _ geom (_ : unit) =>
      let* jump := ref_geom_jump r geom in
      if negb (0 =? jump) then Some (Exit (REF_SUCCESS, true)) else Some (Next tt)) tt in
  match c with
  | Exit x => Some x
  | Next _ => Some (REF_SUCCESS, false)
  end.

(** The integer is [*id], [id] before the call. *)
Definition ref_geom_unique_id r (node type id : Z) : option (REF_STATUS * Z) :=
  let* c :=
    each_ref_adj_node_item_with_ref (geom_adj r) node (fun _ geom '(found_one, id) =>
      let* t := ref_geom_type r geom in
      if type =? t then
        if found_one : bool then Some (Exit (REF_INVALID, id))
        else
          let* id := ref_geom_id r geom in
          Some (Next (true, id))
      else Some (Next (found_one, id))) (false, id) in
  match c with
  | Exit x => Some x
  | Next (found_one, id) => Some (if found_one : bool then REF_SUCCESS else REF_NOT_FOUND, id)
  end.

(** The parameters that a type has, [param] before the call. *)
Definition ref_geom_tuv r (node type id : Z) (param : list D) : option (REF_STATUS * list D) :=
  let* '(st, geom) := ref_geom_find r node type id in
  RSS st param (
  let* jump := ref_geom_jump r geom in
  RAS (0 =? jump) param (
  let* degen := ref_geom_degen r geom in
  RAS (0 =? degen) param (
  let* param :=
    if 0 <? type then let* v := ref_geom_param r 0 geom in aset param 0 v else Some param in
  let* param :=
    if 1 <? type then let* v := ref_geom_param r 1 geom in aset param 1 v else Some param in
  Some (REF_SUCCESS, param)))).

(** Whether the record of a node has a jump or is degenerate. *)
Definition jump_or_degen r (geom : Z) : option bool :=
  let* jump := ref_geom_jump r geom in
  if negb (0 =? jump) then Some true
  else
    let* degen := ref_geom_degen r geom in
    Some (negb (0 =? degen)).

(** The flag is [*supported]. *)
Definition ref_geom_cell_tuv_supported r (nodes : list Z) (type : Z) : option (REF_STATUS * bool) :=
  RAS ((1 <=? type) && (type <=? 2)) true (
  let node_per := type + 1 in
  let* id := aget nodes node_per in
  let* '(st, tri_supported) :=
    if REF_GEOM_FACE =? type then ref_geom_tri_supported r nodes else Some (REF_SUCCESS, true) in
  RSS st true (
  if negb tri_supported then Some (REF_SUCCESS, true)
  else
    let* c :=
      forx_up 0 node_per (fun i geoms =>
        let* node := aget nodes i in
        let* '(st, geom) := ref_geom_find r node type id in
        match st with
        | REF_SUCCESS => Some (Next (geoms ++ [geom]))
        | _ => Some (Exit st)
        end) [] in
    match c with
    | Exit st => Some (st, true)
    | Next geoms =>
        let* c :=
          forl geoms (fun geom (_ : unit) =>
            let* jd := jump_or_degen r geom in
            if jd : bool then Some (Next tt) else Some (Exit tt)) tt in
        match c with
        | Exit _ => Some (REF_SUCCESS, true)
        | Next _ => Some (REF_SUCCESS, false)
        end
    end)).

Definition ref_geom_grow r : option (REF_STATUS * REF_GEOM D) :=
  let max_limit := Z.quot REF_INT_MAX 3 in
  if negb (REF_EMPTY =? geom_blank r) then Some (REF_SUCCESS, r)
  else
    RAS (negb (geom_max r =? max_limit)) r (
    let orig := geom_max r in
    let* more := ck_int (half_more orig) in
    let chunk := Z.max 1000 more in
    let* room := ck_int (max_limit - orig) in
    RAS (0 <? room) r (
    let chunk := Z.min chunk room in
    let* max := ck_int (orig + chunk) in
    let* size := ck_int (REF_GEOM_DESCR_SIZE * max) in
    let descr := ref_realloc (geom_descr r) size in
    let* size := ck_int (2 * max) in
    let param := ref_realloc (geom_param r) size in
    let* descr := link_rows REF_GEOM_DESCR_SIZE orig max descr in
    Some (REF_SUCCESS, mkREF_GEOM (geom_n r) max orig descr param (geom_adj r)))).

(** The assignments of the parameters that a type has. *)
Definition put_params r (type geom : Z) (param : list D) : option (REF_GEOM D) :=
  let* r :=
    if 0 <? type then let* v := aget param 0 in put_param r 0 geom v else Some r in
  if 1 <? type then let* v := aget param 1 in put_param r 1 geom v else Some r.

Definition ref_geom_add r (node type id : Z) (param : list D) : option (REF_STATUS * REF_GEOM D) :=
  if (type <? 0) || (2 <? type) then Some (REF_INVALID, r)
  else
    let* '(status, geom) := ref_geom_find r node type id in
    RXS status REF_NOT_FOUND r (
    if bool_decide (REF_SUCCESS = status) then
      let* r := put_params r type geom param in Some (REF_SUCCESS, r)
    else
      let* '(st, r) := if REF_EMPTY =? geom_blank r then ref_geom_grow r else Some (REF_SUCCESS, r) in
      RSS st r (
      let geom := geom_blank r in
      let* blank := ref_geom_id r geom in
      let r := set_geom_blank blank r in
      let* r := put_descr r REF_GEOM_DESCR_TYPE geom type in
      let* r := put_descr r REF_GEOM_DESCR_ID geom id in
      let* r := put_descr r REF_GEOM_DESCR_GREF geom id in
      let* r := put_descr r REF_GEOM_DESCR_JUMP geom 0 in
      let* r := put_descr r REF_GEOM_DESCR_DEGEN geom 0 in
      let* r := put_descr r REF_GEOM_DESCR_NODE geom node in
      let* r := put_param r 0 geom (dofZ 0) in
      let* r := put_param r 1 geom (dofZ 0) in
      let* r := put_params r type geom param in
      let* '(st, adj) := ref_adj_add (geom_adj r) node geom in
      let r := set_geom_adj adj r in
      RSS st r (
      let* n := ck_int (geom_n r + 1) in
      Some (REF_SUCCESS, set_geom_n n r)))).

(** The assignments that end [ref_geom_add_with_descr]. *)
Definition redescribe r (geom gref jump degen : Z) : option (REF_GEOM D) :=
  let* r := put_descr r REF_GEOM_DESCR_GREF geom gref in
  let* r := put_descr r REF_GEOM_DESCR_DEGEN geom degen in
  put_descr r REF_GEOM_DESCR_JUMP geom jump.

Definition ref_geom_add_with_descr r (descr : list Z) (param : list D)
    : option (REF_STATUS * REF_GEOM D) :=
  let* type := aget descr REF_GEOM_DESCR_TYPE in
  let* id := aget descr REF_GEOM_DESCR_ID in
  let* gref := aget descr REF_GEOM_DESCR_GREF in
  let* jump := aget descr REF_GEOM_DESCR_JUMP in
  let* degen := aget descr REF_GEOM_DESCR_DEGEN in
  let* node := aget descr REF_GEOM_DESCR_NODE in
  let* '(st, r) := ref_geom_add r node type id param in
  RSS st r (
  let* '(st, geom) := ref_geom_find r node type id in
  RSS st r (
  let* r := redescribe r geom gref jump degen in
  Some (REF_SUCCESS, r))).

Definition ref_geom_remove r (geom : Z) : option (REF_STATUS * REF_GEOM D) :=
  if (geom <? 0) || (geom_max r <=? geom) then Some (REF_INVALID, r)
  else
    let* type := ref_geom_type r geom in
    if REF_EMPTY =? type then Some (REF_INVALID, r)
    else
      let* node := ref_geom_node r geom in
      let* '(st, adj) := ref_adj_remove (geom_adj r) node geom in
      let r := set_geom_adj adj r in
      RSS st r (
      let* r := put_descr r REF_GEOM_DESCR_TYPE geom REF_EMPTY in
      let* r := put_descr r REF_GEOM_DESCR_ID geom (geom_blank r) in
      let r := set_geom_blank geom r in
      let* n := ck_int (geom_n r - 1) in
      Some (REF_SUCCESS, set_geom_n n r)).

(** Each turn of the [while] takes an item off the list of [node]. *)
Definition ref_geom_remove_all r (node : Z) : option (REF_STATUS * REF_GEOM D) :=
  let* item := ref_adj_first (geom_adj r) node in
  loop (Z.to_nat (adj_nitem (geom_adj r) + 1)) (fun '(item, r) =>
    if ref_adj_valid item then
      let* geom := ref_adj_item_ref (geom_adj r) item in
      let* '(st, r) := ref_geom_remove r geom in
      match st with
      | REF_SUCCESS =>
          let* item := ref_adj_first (geom_adj r) node in
          Some (Next (item, r))
      | _ => Some (Exit (st, r))
      end
    else Some (Exit (REF_SUCCESS, r))) (item, r).

(** The first part of [ref_geom_pack]: the records move down, with the new
    numbers of their vertices. *)
Definition geom_pack_down r (o2n : list Z) : option (ctl (REF_GEOM D * Z) Empty_set) :=
  each_ref_geom (geom_max r) fst (fun geom '(r, compact) =>
    let* r :=
      for_up 0 REF_GEOM_DESCR_SIZE (fun i r =>
        let* v := ref_geom_descr r i geom in put_descr r i compact v) r in
    let* old := ref_geom_node r geom in
    let* new := aget o2n old in
    let* r := put_descr r REF_GEOM_DESCR_NODE compact new in
    let* r :=
      for_up 0 2 (fun i r =>
        let* v := ref_geom_param r i geom in put_param r i compact v) r in
    Some (Next (r, compact + 1))) (r, 0).

Definition ref_geom_pack r (o2n : list Z) : option (REF_STATUS * REF_GEOM D) :=
  let* c := geom_pack_down r o2n in
  match c with
  | Exit e => match e with end
  | Next (r, compact) =>
      RAS (compact =? geom_n r) r (
      let* r :=
        if geom_n r <? geom_max r then
          let* descr := link_rows REF_GEOM_DESCR_SIZE (geom_n r) (geom_max r) (geom_descr r) in
          Some (set_geom_blank (geom_n r) (set_geom_descr descr r))
        else Some (set_geom_blank REF_EMPTY r) in
      let* '(st, adj) := ref_adj_create in
      let r := set_geom_adj adj r in
      RSS st r (
      let* c :=
        each_ref_geom (geom_max r) (fun _ => r) (fun geom adj =>
          let* node := ref_geom_node r geom in
          let* '(st, adj) := ref_adj_add adj node geom in
          RSS_next st adj) (geom_adj r) in
      match c with
      | Exit (st, adj) => Some (st, set_geom_adj adj r)
      | Next adj => Some (REF_SUCCESS, set_geom_adj adj r)
      end))
  end.
End ops.

(** ** The invariant *)

(** The six integers of a record in use. *)
Definition geom_at {D} (r : REF_GEOM D) (geom : Z) : option (list Z) :=
  row_at REF_GEOM_DESCR_SIZE (geom_max r) (geom_descr r) geom.

(** Vertex, type and id. *)
Definition geom_key (l : list Z) : Z * Z * Z := (l.[5], l.[0], l.[1]).

(** What is stored of an association besides its vertex, type and id. *)
Record geom_assoc (D : Type) := mk_assoc {
  ga_gref : Z;
  ga_jump : Z;
  ga_degen : Z;
  ga_p0 : D;
  ga_p1 : D
}.
#[global] Arguments mk_assoc {D}.
#[global] Arguments ga_gref {D}.
#[global] Arguments ga_jump {D}.
#[global] Arguments ga_degen {D}.
#[global] Arguments ga_p0 {D}.
#[global] Arguments ga_p1 {D}.

(** [bl] is the list of unused records. *)
Record geom_wf {D} (r : REF_GEOM D) (bl : list Z) : Prop := {
  gw_rows : rows_wf REF_GEOM_DESCR_SIZE (geom_n r) (geom_max r) (geom_blank r) (geom_descr r) bl;
  gw_param : zlen (geom_param r) = 2 * geom_max r;
  gw_type : forall geom l, geom_at r geom = Some l -> 0 <= l.[0] <= 2;
  gw_unique : forall geom geom' l l', geom_at r geom = Some l -> geom_at r geom' = Some l' ->
    geom_key l = geom_key l' -> geom = geom';
  gw_adj : adj_wf (geom_adj r);
  gw_registered : forall node geom, occ (adj_refs (geom_adj r) node) geom =
    match geom_at r geom with Some l => Z.b2z (l.[5] =? node) | None => 0 end
}.

Lemma six : 2 <= REF_GEOM_DESCR_SIZE.
Proof. unfold REF_GEOM_DESCR_SIZE. lia. Qed.

Lemma row_of_6 (a : list Z) row :
  row_of REF_GEOM_DESCR_SIZE a row =
  [a.[0 + 6 * row]; a.[1 + 6 * row]; a.[2 + 6 * row]; a.[3 + 6 * row]; a.[4 + 6 * row]; a.[5 + 6 * row]].
Proof. done. Qed.

Section facts.
Context {D : Type} `{Inhabited D}.
Implicit Types (r : REF_GEOM D) (l : list Z).

Lemma geom_at_range r geom l : geom_at r geom = Some l -> 0 <= geom < geom_max r.
Proof. by intros (? & _)%row_at_Some. Qed.

Lemma geom_descr_ok r bl attribute geom :
  geom_wf r bl -> 0 <= geom < geom_max r -> 0 <= attribute < REF_GEOM_DESCR_SIZE ->
  ref_geom_descr r attribute geom = Some (geom_descr r).[attribute + REF_GEOM_DESCR_SIZE * geom].
Proof.
  intros Hwf Hg Ha. apply (row_get_eq _ (geom_max r) six); [apply (gw_rows _ _ Hwf)|apply (gw_rows _ _ Hwf)|done|done].
Qed.

Lemma geom_descr_at r bl attribute geom l :
  geom_wf r bl -> geom_at r geom = Some l -> 0 <= attribute < REF_GEOM_DESCR_SIZE ->
  ref_geom_descr r attribute geom = Some l.[attribute].
Proof.
  intros Hwf Hat Ha. rewrite (geom_descr_ok _ _ _ _ Hwf (geom_at_range _ _ _ Hat) Ha).
  f_equal. symmetry. by eapply aat_row_at.
Qed.

Lemma geom_param_ok r bl d geom :
  geom_wf r bl -> 0 <= geom < geom_max r -> 0 <= d < 2 ->
  ref_geom_param r d geom = Some (geom_param r).[d + 2 * geom].
Proof.
  intros Hwf Hg Hd. unfold ref_geom_param. pose proof (rw_size _ _ _ _ _ _ (gw_rows _ _ Hwf)) as Hs.
  unfold REF_GEOM_DESCR_SIZE in Hs.
  destruct (row_index_ok 2 (geom_max r) ltac:(lia) ltac:(unfold REF_INT_MAX in *; lia) d geom Hd Hg) as [-> Hr].
  cbn [obind]. apply aget_aat. rewrite (gw_param _ _ Hwf). lia.
Qed.

Lemma elem_of_geom_refs r bl node geom :
  geom_wf r bl ->
  geom ∈ adj_refs (geom_adj r) node <-> exists l, geom_at r geom = Some l /\ l.[5] = node.
Proof.
  intros Hwf. rewrite <- occ_pos, (gw_registered _ _ Hwf). destruct (geom_at r geom) as [l|].
  - case Z.eqb_spec; cbn; intros Hl; split; try lia; [by exists l|].
    by intros (? & [= <-] & ?).
  - split; [lia|]. by intros (? & ? & _).
Qed.

(** A record is listed once, under its vertex. *)
Lemma geom_refs_nodup r bl node : geom_wf r bl -> NoDup (adj_refs (geom_adj r) node).
Proof.
  intros Hwf. apply NoDup_ListNoDup, (NoDup_count_occ Z.eq_dec). intros geom.
  pose proof (gw_registered _ _ Hwf node geom) as Ho. unfold occ in Ho.
  assert (Z.of_nat (count_occ Z.eq_dec (adj_refs (geom_adj r) node) geom) <= 1); [|lia].
  rewrite Ho. destruct (geom_at r geom); [|lia]. by case Z.eqb_spec.
Qed.

Lemma geom_refs_total r bl k : geom_wf r bl -> refs_total (adj_refs (geom_adj r)) k <= geom_n r.
Proof.
  intros Hwf. pose proof (zlen_used_rows _ _ _ _ _ _ (gw_rows _ _ Hwf)) as Hn.
  rewrite <- Hn. rewrite <- (Z.mul_1_l (zlen _)).
  apply (refs_total_bound _ _ (fun g => match geom_at r g with Some l => [l.[5]] | None => [] end)).
  - intros g. destruct (geom_at r g); unfold zlen; cbn; lia.
  - intros node g. rewrite (gw_registered _ _ Hwf). destruct (geom_at r g) as [l|] eqn:Hl.
    + rewrite bool_decide_eq_true_2; [rewrite occ_cons, occ_nil; lia|].
      apply elem_of_used_rows. exists l. apply Hl.
    + apply occ_nonneg.
Qed.
End facts.

(** ** The operations on the state *)

Section ops_ok.
Context {D : Type} `{Dbl D, Junk Z, Junk REF_ADJ_ITEM, Junk D}.
Implicit Types (r : REF_GEOM D) (l : list Z).

(** The loops over the records of a vertex. *)
Lemma each_geom_of_node {T R} r bl node (body : Z -> T -> option (ctl T R)) s :
  geom_wf r bl ->
  each_ref_adj_node_item_with_ref (geom_adj r) node (fun _ => body) s =
  forl (adj_refs (geom_adj r) node) body s.
Proof. intros Hwf. apply each_ref_adj_refs, Hwf. Qed.

Lemma ref_geom_find_ok r bl node type id :
  geom_wf r bl ->
  wp (ref_geom_find r node type id) (fun '(st, geom) =>
    (st = REF_SUCCESS /\ exists l, geom_at r geom = Some l /\ geom_key l = (node, type, id)) \/
    (st = REF_NOT_FOUND /\ geom = REF_EMPTY /\
     forall g l, geom_at r g = Some l -> geom_key l <> (node, type, id))).
Proof.
  intros Hwf. unfold ref_geom_find. rewrite (each_geom_of_node _ _ _ _ _ Hwf).
  apply wp_bind. apply (wp_forl (fun pre (_ : unit) => forall g l, g ∈ pre ->
      geom_at r g = Some l -> geom_key l <> (node, type, id))
    (fun '(st, geom) => st = REF_SUCCESS /\ exists l, geom_at r geom = Some l /\ geom_key l = (node, type, id))).
  - intros g l Hg. by apply elem_of_nil in Hg.
  - intros pre g post [] Hl Hpre.
    assert (g ∈ adj_refs (geom_adj r) node) as (l & Hat & Hnode)%(elem_of_geom_refs _ _ _ _ Hwf)
      by (rewrite Hl; set_solver).
    unfold ref_geom_type, ref_geom_id. rewrite !(geom_descr_at _ _ _ _ _ Hwf Hat) by done. cbn [obind].
    unfold REF_GEOM_DESCR_TYPE, REF_GEOM_DESCR_ID.
    destruct (Z.eqb_spec type l.[0]), (Z.eqb_spec id l.[1]); cbn [andb]; apply wp_ret; cbn [ctl_post].
    1: { split; [done|]. exists l. split; [done|]. unfold geom_key. congruence. }
    all: intros g' l' [Hg'| ->%list_elem_of_singleton]%elem_of_app Hat'; [by eapply Hpre|];
      unfold geom_key; naive_solver.
  - intros [] Hall. apply wp_ret. right. split; [done|]. split; [done|]. intros g l Hat Hk.
    eapply Hall; [|done..]. apply (elem_of_geom_refs _ _ _ _ Hwf). exists l. split; [done|].
    by injection Hk.
  - intros [st g] Hg. apply wp_ret. by left.
Qed.

Lemma ref_geom_is_a_ok r bl node type :
  geom_wf r bl ->
  wp (ref_geom_is_a r node type) (fun '(st, b) => st = REF_SUCCESS /\
    (b = true <-> exists g l, geom_at r g = Some l /\ l.[5] = node /\ l.[0] = type)).
Proof.
  intros Hwf. unfold ref_geom_is_a. rewrite (each_geom_of_node _ _ _ _ _ Hwf).
  rewrite (forl_search _ (fun g => type =? (geom_descr r).[REF_GEOM_DESCR_TYPE + REF_GEOM_DESCR_SIZE * g])
    (REF_SUCCESS, true)).
  - cbn [obind]. set (e := existsb _ _).
    assert (He : e = true <-> exists g l, geom_at r g = Some l /\ l.[5] = node /\ l.[0] = type).
    { unfold e. rewrite existsb_elem_of. setoid_rewrite (elem_of_geom_refs _ _ _ _ Hwf). split.
      - intros (g & (l & Hat & Hn) & Ht%Z.eqb_eq). exists g, l. split; [done|]. split; [done|].
        rewrite Ht. by apply (aat_row_at _ _ _ _ _ _ Hat).
      - intros (g & l & Hat & Hn & Ht). exists g. split; [by exists l|]. apply Z.eqb_eq.
        rewrite <- Ht. by apply (aat_row_at _ _ _ _ _ _ Hat). }
    by destruct e; apply wp_ret.
  - intros g (l & Hat & _)%(elem_of_geom_refs _ _ _ _ Hwf). unfold ref_geom_type.
    rewrite (geom_descr_ok _ _ _ _ Hwf (geom_at_range _ _ _ Hat)) by done. cbn [obind].
    by case Z.eqb_spec.
Qed.

(** The ids of the records of a type at a vertex. *)
Definition ids_at r (node type : Z) : list Z :=
  map (fun g => (geom_descr r).[REF_GEOM_DESCR_ID + REF_GEOM_DESCR_SIZE * g])
    (filter (fun g => (geom_descr r).[REF_GEOM_DESCR_TYPE + REF_GEOM_DESCR_SIZE * g] = type)
      (adj_refs (geom_adj r) node)).

Lemma ids_at_spec r bl node type :
  geom_wf r bl -> NoDup (ids_at r node type) /\
  forall id, id ∈ ids_at r node type <->
    exists g l, geom_at r g = Some l /\ geom_key l = (node, type, id).
Proof.
  intros Hwf. unfold ids_at.
  assert (Hin : forall g, g ∈ filter (fun g => (geom_descr r).[REF_GEOM_DESCR_TYPE + REF_GEOM_DESCR_SIZE * g] = type)
      (adj_refs (geom_adj r) node) <-> exists l, geom_at r g = Some l /\ l.[5] = node /\ l.[0] = type).
  { intros g. rewrite list_elem_of_filter, (elem_of_geom_refs _ _ _ _ Hwf). split.
    - intros (Ht & l & Hat & Hn). exists l. split; [done|]. split; [done|]. rewrite <- Ht.
      by apply (aat_row_at _ _ _ _ _ _ Hat).
    - intros (l & Hat & Hn & Ht). split; [|by exists l]. rewrite <- Ht. symmetry.
      by apply (aat_row_at _ _ _ _ _ _ Hat). }
  assert (Hid : forall g l, geom_at r g = Some l ->
    (geom_descr r).[REF_GEOM_DESCR_ID + REF_GEOM_DESCR_SIZE * g] = l.[1])
    by (intros g l Hat; symmetry; by apply (aat_row_at _ _ _ _ _ _ Hat)).
  split.
  - apply NoDup_fmap_2_strong; [|by apply NoDup_filter, (geom_refs_nodup _ bl)].
    intros g g' (l & Hat & Hn & Ht)%Hin (l' & Hat' & Hn' & Ht')%Hin Heq.
    rewrite (Hid _ _ Hat), (Hid _ _ Hat') in Heq. apply (gw_unique _ _ Hwf _ _ _ _ Hat Hat').
    unfold geom_key. congruence.
  - intros id. rewrite list_elem_of_fmap. setoid_rewrite Hin. split.
    + intros (g & -> & l & Hat & Hn & Ht). exists g, l. split; [done|]. rewrite (Hid _ _ Hat).
      unfold geom_key. congruence.
    + intros (g & l & Hat & [= Hn Ht Hi]). exists g. rewrite (Hid _ _ Hat). split; [done|]. by exists l.
Qed.

(** The loop of [ref_geom_unique_id]. *)
Lemma unique_id_loop r type refs found i :
  (forall g, g ∈ refs -> exists l, geom_at r g = Some l) -> (exists bl, geom_wf r bl) ->
  forl refs (fun geom '(found_one, id) =>
    let* t := ref_geom_type r geom in
    if type =? t then
      if found_one : bool then Some (Exit (REF_INVALID, id))
      else let* id := ref_geom_id r geom in Some (Next (true, id))
    else Some (Next (found_one, id))) (found, i) =
  Some (match found : bool,
    map (fun g => (geom_descr r).[REF_GEOM_DESCR_ID + REF_GEOM_DESCR_SIZE * g])
      (filter (fun g => (geom_descr r).[REF_GEOM_DESCR_TYPE + REF_GEOM_DESCR_SIZE * g] = type) refs) with
  | false, x :: _ :: _ => Exit (REF_INVALID, x)
  | false, [x] => Next (true, x)
  | true, _ :: _ => Exit (REF_INVALID, i)
  | found, [] => Next (found, i)
  end).
Proof.
  intros Hall [bl Hwf]. revert found i. induction refs as [|g refs IH]; intros found i; [by destruct found|].
  destruct (Hall g ltac:(set_solver)) as [l Hat]. cbn [forl]. unfold ref_geom_type at 1, ref_geom_id at 1.
  rewrite !(geom_descr_ok _ _ _ _ Hwf (geom_at_range _ _ _ Hat)) by done. cbn [obind].
  rewrite filter_cons, (Z.eqb_sym type). specialize (IH ltac:(set_solver)).
  case decide; case Z.eqb_spec; intros; try done.
  - destruct found; [done|]. cbn [obind]. rewrite IH. cbn [map]. by destruct (map _ _).
  - cbn [obind]. apply IH.
Qed.

Lemma ref_geom_unique_id_ok r bl node type id :
  geom_wf r bl ->
  ref_geom_unique_id r node type id = Some
    match ids_at r node type with
    | [] => (REF_NOT_FOUND, id)
    | [i] => (REF_SUCCESS, i)
    | i :: _ => (REF_INVALID, i)
    end.
Proof.
  intros Hwf. unfold ref_geom_unique_id. rewrite (each_geom_of_node _ _ _ _ _ Hwf).
  rewrite unique_id_loop; [|intros g (l & Hat & _)%(elem_of_geom_refs _ _ _ _ Hwf); by exists l|by exists bl].
  fold (ids_at r node type). by destruct (ids_at r node type) as [|x [|y l]].
Qed.

Lemma ref_geom_supported_ok r bl node :
  geom_wf r bl ->
  wp (ref_geom_supported r node) (fun '(st, b) => st = REF_SUCCESS /\
    (b = true <-> exists g l, geom_at r g = Some l /\ l.[5] = node)).
Proof.
  intros Hwf. unfold ref_geom_supported, ref_adj_empty. apply wp_bind, wp_bind.
  eapply wp_mono; [apply ref_adj_first_ok, Hwf|]. intros item Hitem. apply wp_ret, wp_ret. split; [done|].
  pose proof (fun g => elem_of_geom_refs r bl node g Hwf) as Hin.
  destruct (adj_refs (geom_adj r) node) as [|g refs].
  - rewrite Hitem. split; [done|]. intros (g & l & Hat & Hn).
    assert (g ∈ []) by (apply Hin; by exists l). set_solver.
  - destruct Hitem as [-> _]. split; [|done]. intros _. destruct (proj1 (Hin g)) as (l & ? & ?); [set_solver|].
    by exists g, l.
Qed.

Lemma ref_geom_id_supported_ok r bl node type id :
  geom_wf r bl ->
  wp (ref_geom_id_supported r node type id) (fun '(st, b) => st = REF_SUCCESS /\
    (b = true <-> exists g l, geom_at r g = Some l /\ geom_key l = (node, type, id))).
Proof.
  intros Hwf. unfold ref_geom_id_supported. apply wp_bind.
  eapply wp_mono; [by eapply ref_geom_find_ok|]. intros [st g] [(-> & l & Hat & Hk)|(-> & _ & Hno)].
  - rewrite bool_decide_eq_false_2 by done. apply wp_ret. split; [done|]. split; [|done]. intros _. by exists g, l.
  - rewrite bool_decide_eq_true_2 by done. apply wp_ret. split; [done|]. split; [done|].
    intros (g' & l & Hat & Hk). by destruct (Hno g' l).
Qed.

(** ** Changing records *)

Lemma wp_put_descr r attribute geom v (Q : REF_GEOM D -> Prop) :
  zlen (geom_descr r) = REF_GEOM_DESCR_SIZE * geom_max r ->
  REF_GEOM_DESCR_SIZE * geom_max r <= REF_INT_MAX ->
  0 <= attribute < REF_GEOM_DESCR_SIZE -> 0 <= geom < geom_max r ->
  Q (set_geom_descr (upd (geom_descr r) (attribute + REF_GEOM_DESCR_SIZE * geom) v) r) ->
  wp (put_descr r attribute geom v) Q.
Proof.
  intros Hl Hs Ha Hg HQ. unfold put_descr. apply wp_bind, (wp_row_put _ _ six Hs); [done..|]. by apply wp_ret.
Qed.

Lemma wp_put_param r d geom v (Q : REF_GEOM D -> Prop) :
  zlen (geom_param r) = 2 * geom_max r -> REF_GEOM_DESCR_SIZE * geom_max r <= REF_INT_MAX ->
  0 <= d < 2 -> 0 <= geom < geom_max r ->
  Q (set_geom_param (upd (geom_param r) (d + 2 * geom) v) r) -> wp (put_param r d geom v) Q.
Proof.
  intros Hl Hs Hd Hg HQ. unfold put_param, REF_GEOM_DESCR_SIZE in *.
  destruct (row_index_ok 2 (geom_max r) ltac:(lia) ltac:(unfold REF_INT_MAX in *; lia) d geom Hd Hg) as [-> Hr].
  cbn [obind]. apply wp_bind, wp_aset; [lia|]. by apply wp_ret.
Qed.

(** The parameters after [put_params]. *)
Lemma wp_put_params r type geom param (Q : REF_GEOM D -> Prop) :
  zlen (geom_param r) = 2 * geom_max r -> REF_GEOM_DESCR_SIZE * geom_max r <= REF_INT_MAX ->
  0 <= geom < geom_max r -> 0 <= type <= 2 -> type <= zlen param ->
  (forall p, zlen p = 2 * geom_max r ->
     (forall d g, 0 <= d < 2 -> 0 <= g ->
        p.[d + 2 * g] = if (geom =? g) && (d <? type) then param.[d] else (geom_param r).[d + 2 * g]) ->
     Q (set_geom_param p r)) ->
  wp (put_params r type geom param) Q.
Proof.
  intros Hl Hs Hg Ht Hp HQ. unfold put_params, REF_GEOM_DESCR_SIZE in *.
  assert (Hs2 : 2 * geom_max r <= REF_INT_MAX) by (unfold REF_INT_MAX in *; lia).
  assert (Hupd : forall (a : list D) d v d' g, zlen a = 2 * geom_max r -> 0 <= d < 2 -> 0 <= d' < 2 -> 0 <= g ->
    (upd a (d + 2 * geom) v).[d' + 2 * g] = if (d =? d') && (geom =? g) then v else a.[d' + 2 * g])
    by (intros; by apply (aat_row_put 2 (geom_max r))).
  assert (type = 0 \/ type = 1 \/ type = 2) as [-> | [-> | ->]] by lia; cbn [Z.ltb Z.compare Pos.compare Pos.compare_cont].
  - apply wp_bind, wp_ret, wp_ret. replace r with (set_geom_param (geom_param r) r) by (by destruct r).
    apply HQ; [done|]. intros d g Hd Hg'. destruct (Z.ltb_spec d 0); [lia|]. by rewrite andb_false_r.
  - apply wp_bind, wp_bind, wp_aget; [lia|]. apply wp_put_param; try done. apply wp_ret.
    apply HQ; [by rewrite zlen_upd|]. intros d g Hd Hg'. rewrite Hupd by (done || lia).
    assert (d = 0 \/ d = 1) as [-> | ->] by lia; cbn; [by rewrite andb_true_r|by rewrite andb_false_r].
  - apply wp_bind, wp_bind, wp_aget; [lia|]. apply wp_put_param; try done. apply wp_bind, wp_aget; [lia|].
    apply wp_put_param; cbn; try done; [by rewrite zlen_upd|].
    match goal with |- Q ?x => replace x with (set_geom_param
      (upd (upd (geom_param r) (0 + 2 * geom) param.[0]) (1 + 2 * geom) param.[1]) r) by done end.
    apply HQ; [by rewrite !zlen_upd|].
    intros d g Hd Hg'. rewrite !Hupd by (rewrite ?zlen_upd; done || lia).
    assert (d = 0 \/ d = 1) as [-> | ->] by lia; cbn; by rewrite ?andb_true_r.
Qed.

(** The largest [max] that can grow. *)
Definition GEOM_LIMIT : Z := 143000000.

Lemma ref_geom_grow_ok r bl :
  geom_wf r bl -> geom_max r <= GEOM_LIMIT ->
  wp (if REF_EMPTY =? geom_blank r then ref_geom_grow r else Some (REF_SUCCESS, r)) (fun '(st, r') =>
    st = REF_SUCCESS /\ (exists bl', geom_wf r' bl' /\ bl' <> []) /\
    geom_n r' = geom_n r /\ geom_adj r' = geom_adj r /\ geom_max r <= geom_max r' /\
    (geom_max r' = geom_max r \/
     geom_n r = geom_max r /\ geom_max r' = geom_max r + Z.max 1000 (half_more (geom_max r))) /\
    (forall g, geom_at r' g = geom_at r g) /\
    forall i, 0 <= i < 2 * geom_max r -> (geom_param r').[i] = (geom_param r).[i]).
Proof.
  intros Hwf Hlim. pose proof (gw_rows _ _ Hwf) as Hrows. pose proof (rw_max _ _ _ _ _ _ Hrows).
  pose proof (rw_len _ _ _ _ _ _ Hrows) as Hlen. unfold GEOM_LIMIT in Hlim.
  case Z.eqb_spec; intros Hblank.
  - symmetry in Hblank. apply (rows_blank_nil _ _ _ _ _ _ Hrows) in Hblank as ->.
    assert (Hb : geom_blank r = REF_EMPTY) by (by apply (rows_blank_nil _ _ _ _ _ _ Hrows)).
    unfold ref_geom_grow. rewrite Hb. cbn [REF_EMPTY Z.eqb Pos.eqb negb].
    assert (Hhalf : 0 <= 2 * half_more (geom_max r) <= 3 * geom_max r).
    { unfold half_more. rewrite Z.quot_div_nonneg by lia.
      pose proof (Z.div_pos (3 * geom_max r) 2). pose proof (Z.mul_div_le (3 * geom_max r) 2). lia. }
    change (Z.quot REF_INT_MAX 3) with 715827882.
    destruct (Z.eqb_spec (geom_max r) 715827882); [lia|]. cbn [negb RAS].
    wp_go; unfold REF_INT_MAX, REF_INT_MIN in *; try lia.
    destruct (Z.ltb_spec 0 (715827882 - geom_max r)); [|lia]. cbn [RAS].
    rewrite (Z.min_l (Z.max 1000 _)) by lia.
    remember (geom_max r + Z.max 1000 (half_more (geom_max r))) as nmax eqn:Hdef.
    assert (1000 < nmax <= 357600000) by lia. unfold REF_GEOM_DESCR_SIZE in *.
    wp_go; unfold REF_INT_MAX, REF_INT_MIN in *; try lia.
    apply (wp_link_rows 6 nmax ltac:(lia)); [unfold REF_INT_MAX; lia|lia|lia|by apply zlen_realloc; lia|].
    intros descr Hl Hlinked Hold. apply wp_ret. split; [done|]. set (r' := mkREF_GEOM _ _ _ _ _ _).
    destruct (rows_wf_extend 6 ltac:(lia) _ _ nmax _ _ descr Hrows) as [Hrows' Hsame];
      [lia|unfold REF_INT_MAX; lia|done|done| |].
    { intros col row Hc Hr. rewrite Hold by lia. apply aat_realloc; lia. }
    assert (Hat : forall g, geom_at r' g = geom_at r g) by exact Hsame.
    split; [|split; [done|]; split; [done|]; split; [cbn; lia|]; split; [|split; [done|]]].
    + eexists. split; [constructor; [exact Hrows'|..]|]; cbn [r' geom_param geom_max geom_adj].
      * by rewrite zlen_realloc by lia.
      * intros g l. fold r'. rewrite Hat. apply (gw_type _ _ Hwf).
      * intros g g' l l'. fold r'. rewrite !Hat. apply (gw_unique _ _ Hwf).
      * apply Hwf.
      * intros node g. fold r'. rewrite Hat. apply (gw_registered _ _ Hwf).
      * rewrite seqZ_cons by lia. done.
    + right. split; [|done]. pose proof (rw_n _ _ _ _ _ _ Hrows). unfold zlen in *. cbn in *. lia.
    + intros i Hi. cbn. apply aat_realloc; [|lia]. rewrite (gw_param _ _ Hwf). lia.
  - apply wp_ret. split; [done|]. split; [|split; [done|]; split; [done|]; split; [lia|]; split; [by left|done]].
    exists bl. split; [done|]. intros ->. apply Hblank. symmetry. by apply (rows_blank_nil _ _ _ _ _ _ Hrows).
Qed.

(** ** The associations a state holds *)

(** What is stored of an association besides its key. *)
Definition assoc_of r (g : Z) l : geom_assoc D :=
  mk_assoc l.[2] l.[3] l.[4] (geom_param r).[0 + 2 * g] (geom_param r).[1 + 2 * g].

Definition geom_lookup r (k : Z * Z * Z) (v : geom_assoc D) : Prop :=
  exists g l, geom_at r g = Some l /\ geom_key l = k /\ v = assoc_of r g l.

Lemma geom_lookup_fun r bl k v v' :
  geom_wf r bl -> geom_lookup r k v -> geom_lookup r k v' -> v = v'.
Proof.
  intros Hwf (g & l & Hat & Hk & ->) (g' & l' & Hat' & Hk' & ->).
  assert (g = g') as <- by (eapply (gw_unique _ _ Hwf); [done..|congruence]). congruence.
Qed.

(** Record [g] gets the entries [l'] and other parameters. *)
Lemma geom_lookup_put r bl r' g l' :
  geom_wf r bl ->
  (forall c, geom_at r' c = row_upd (geom_at r) g (Some l') c) ->
  (forall c d, geom_at r c <> None -> c <> g -> 0 <= d < 2 ->
     (geom_param r').[d + 2 * c] = (geom_param r).[d + 2 * c]) ->
  (forall c l, geom_at r c = Some l -> geom_key l = geom_key l' -> c = g) ->
  (forall l, geom_at r g = Some l -> geom_key l = geom_key l') ->
  forall k v, geom_lookup r' k v <->
    if decide (k = geom_key l') then v = assoc_of r' g l' else geom_lookup r k v.
Proof.
  intros Hwf Hat Hp Huniq Hsame k v.
  assert (Hother : forall c l, c <> g -> geom_at r c = Some l -> assoc_of r' c l = assoc_of r c l)
    by (intros c l Hc Hl; unfold assoc_of; by rewrite !Hp by (congruence || lia)).
  unfold geom_lookup. split.
  - intros (c & l & Hl & <- & ->). rewrite Hat in Hl. unfold row_upd in Hl. revert Hl. case Z.eqb_spec.
    + intros -> [= <-]. by rewrite decide_True.
    + intros Hc Hl. rewrite decide_False by (intros He; apply Hc; by eapply Huniq).
      exists c, l. split; [done|]. split; [done|]. by apply Hother.
  - case decide.
    + intros -> ->. exists g, l'. rewrite Hat. unfold row_upd. by rewrite Z.eqb_refl.
    + intros Hk (c & l & Hl & <- & ->). assert (c <> g) as Hc by (intros ->; apply Hk; by apply Hsame).
      exists c, l. rewrite Hat. unfold row_upd. rewrite (proj2 (Z.eqb_neq _ _) Hc).
      split; [done|]. split; [done|]. symmetry. by apply Hother.
Qed.

Lemma geom_lookup_remove r bl r' g l0 :
  geom_wf r bl -> geom_at r g = Some l0 ->
  (forall c, geom_at r' c = row_upd (geom_at r) g None c) -> geom_param r' = geom_param r ->
  forall k v, geom_lookup r' k v <-> k <> geom_key l0 /\ geom_lookup r k v.
Proof.
  intros Hwf Hg Hat Hp k v. unfold geom_lookup, assoc_of. rewrite Hp. split.
  - intros (c & l & Hl & <- & ->). rewrite Hat in Hl. unfold row_upd in Hl. revert Hl. case Z.eqb_spec; [done|].
    intros Hc Hl. split; [|by exists c, l]. intros He. apply Hc. by eapply (gw_unique _ _ Hwf).
  - intros (Hk & c & l & Hl & <- & ->). exists c, l. rewrite Hat. unfold row_upd.
    case Z.eqb_spec; [|done]. intros ->. congruence.
Qed.

(** The parameters of an association that a type has, from an argument. *)
Definition with_params (type : Z) (param : list D) (v : geom_assoc D) : geom_assoc D :=
  mk_assoc (ga_gref v) (ga_jump v) (ga_degen v)
    (if 0 <? type then param.[0] else ga_p0 v) (if 1 <? type then param.[1] else ga_p1 v).

Definition fresh_assoc (id : Z) : geom_assoc D := mk_assoc id 0 0 (dofZ 0) (dofZ 0).

(** The state after a new record has been stored and registered. *)
Lemma geom_wf_new r geom bl descr (param : list D) adj node type id :
  geom_wf r (geom :: bl) -> rows_keep REF_GEOM_DESCR_SIZE (geom_max r) geom (geom_descr r) descr ->
  row_of REF_GEOM_DESCR_SIZE descr geom = [type; id; id; 0; 0; node] ->
  zlen param = 2 * geom_max r -> 0 <= type <= 2 ->
  (forall g l, geom_at r g = Some l -> geom_key l <> (node, type, id)) -> adj_wf adj ->
  (forall n c, occ (adj_refs adj n) c =
     occ (adj_refs (geom_adj r) n) c + Z.b2z (geom =? c) * Z.b2z (node =? n)) ->
  let r' := mkREF_GEOM (geom_n r + 1) (geom_max r) (geom_descr r).[1 + REF_GEOM_DESCR_SIZE * geom]
    descr param adj in
  geom_wf r' bl /\ forall c, geom_at r' c = row_upd (geom_at r) geom (Some [type; id; id; 0; 0; node]) c.
Proof.
  intros Hwf Hk Hrow Hp Ht Hno Hadj Hocc r'. pose proof (gw_rows _ _ Hwf) as Hrows.
  assert (geom ∈ geom :: bl) as [_ Hnone]%(rw_blank _ _ _ _ _ _ Hrows) by set_solver.
  destruct (rows_wf_take _ six _ _ _ _ descr _ _ Hrows Hk) as [Hrows' Hat].
  { change (REF_GEOM_DESCR_SIZE * geom) with (0 + REF_GEOM_DESCR_SIZE * geom).
    rewrite <- (aat_row_of REF_GEOM_DESCR_SIZE descr geom 0), Hrow by done.
    change ([type; id; id; 0; 0; node].[0]) with type. unfold REF_EMPTY. lia. }
  rewrite Hrow in Hat. change (forall c, geom_at r' c = row_upd (geom_at r) geom (Some [type; id; id; 0; 0; node]) c) in Hat.
  split; [|done]. constructor; [exact Hrows'|done| | |done|].
  - intros g l. rewrite Hat. unfold row_upd. case Z.eqb_spec; [|intros _; apply (gw_type _ _ Hwf)]. intros _ [= <-]. exact Ht.
  - intros g g' l l'. rewrite !Hat. unfold row_upd.
    destruct (Z.eqb_spec g geom) as [->|Hg], (Z.eqb_spec g' geom) as [->|Hg']; [done| | |by eapply (gw_unique _ _ Hwf)].
    + intros [= <-] Hl' He. destruct (Hno g' l' Hl'). by rewrite <- He.
    + intros Hl [= <-] He. destruct (Hno g l Hl). by rewrite He.
  - intros n c. cbn [geom_adj r']. rewrite Hocc, (gw_registered _ _ Hwf), Hat. unfold row_upd.
    rewrite (Z.eqb_sym geom c). case Z.eqb_spec; intros Hc; cbn [Z.b2z]; [|lia].
    subst c. unfold geom_at. rewrite Hnone. change ([type; id; id; 0; 0; node].[5]) with node. lia.
Qed.

(** The entries that [ref_geom_add] stores. *)
Lemma wp_new_descr max descr geom (type id node : Z) (Q : list Z -> Prop) :
  REF_GEOM_DESCR_SIZE * max <= REF_INT_MAX -> zlen descr = REF_GEOM_DESCR_SIZE * max -> 0 <= geom < max ->
  (forall d, rows_keep REF_GEOM_DESCR_SIZE max geom descr d ->
     row_of REF_GEOM_DESCR_SIZE d geom = [type; id; id; 0; 0; node] -> Q d) ->
  Q (upd (upd (upd (upd (upd (upd descr (0 + REF_GEOM_DESCR_SIZE * geom) type)
      (1 + REF_GEOM_DESCR_SIZE * geom) id) (2 + REF_GEOM_DESCR_SIZE * geom) id)
      (3 + REF_GEOM_DESCR_SIZE * geom) 0) (4 + REF_GEOM_DESCR_SIZE * geom) 0)
      (5 + REF_GEOM_DESCR_SIZE * geom) node).
Proof.
  intros Hs Hl Hg HQ. unfold REF_GEOM_DESCR_SIZE in *. apply HQ.
  - split; [by rewrite !zlen_upd|]. intros col r Hc Hr Hrg.
    rewrite !(aat_row_put 6 max ltac:(lia) Hs) by (rewrite ?zlen_upd; done || lia).
    destruct (Z.eqb_spec geom r); [by subst|]. by rewrite !andb_false_r.
  - rewrite row_of_6. rewrite !(aat_row_put 6 max ltac:(lia) Hs) by (rewrite ?zlen_upd; done || lia).
    rewrite !Z.eqb_refl. done.
Qed.

(** How many records a call may add, and how far the arrays may grow. *)
Definition geom_frame r r' : Prop :=
  geom_n r <= geom_n r' <= geom_n r + 1 /\
  (geom_max r' = geom_max r \/
   geom_n r = geom_max r /\ geom_max r' = geom_max r + Z.max 1000 (half_more (geom_max r))).

(** The association of [k] after [ref_geom_add], given what was there. *)
Definition added (k : Z * Z * Z) (type id : Z) (param : list D) (old : option (geom_assoc D)) : geom_assoc D :=
  with_params type param (default (fresh_assoc id) old).

(** [old] is what [r] holds under [k]. *)
Definition geom_holds r (k : Z * Z * Z) (old : option (geom_assoc D)) : Prop :=
  match old with
  | Some v => geom_lookup r k v
  | None => forall v, ~ geom_lookup r k v
  end.

(** The state after [k] got the value [v]. *)
Definition geom_put r r' (k0 : Z * Z * Z) (v0 : geom_assoc D) : Prop :=
  forall k v, geom_lookup r' k v <-> if decide (k = k0) then v = v0 else geom_lookup r k v.

Lemma geom_add_existing r bl geom l type param (Q : REF_GEOM D -> Prop) :
  geom_wf r bl -> geom_at r geom = Some l -> l.[0] = type -> type <= zlen param ->
  (forall r', geom_wf r' bl -> geom_n r' = geom_n r -> geom_max r' = geom_max r ->
     geom_put r r' (geom_key l) (with_params type param (assoc_of r geom l)) -> Q r') ->
  wp (put_params r type geom param) Q.
Proof.
  intros Hwf Hat Ht Hp HQ. pose proof (geom_at_range _ _ _ Hat) as Hg. pose proof (gw_rows _ _ Hwf) as Hrows.
  apply wp_put_params; [apply Hwf|apply Hrows|done|rewrite <- Ht; by eapply (gw_type _ _ Hwf)|done|].
  intros p Hl Hpar. apply HQ; [|done|done|].
  { constructor; try apply Hwf. exact Hl. }
  assert (Hass : with_params type param (assoc_of r geom l) = assoc_of (set_geom_param p r) geom l).
  { unfold with_params, assoc_of. cbn [ga_gref ga_jump ga_degen ga_p0 ga_p1 geom_param set_geom_param].
    rewrite !Hpar by lia. by rewrite Z.eqb_refl. }
  rewrite Hass. intros k v. apply (geom_lookup_put r bl); [done| | | |].
  - intros c. unfold row_upd. case Z.eqb_spec; [by intros ->|done].
  - intros c d Hc Hcg Hd. cbn. rewrite Hpar; [by destruct (Z.eqb_spec geom c)|done|].
    destruct (geom_at r c) as [lc|] eqn:Hlc; [|done]. apply geom_at_range in Hlc. lia.
  - intros c lc Hlc Hk. by eapply (gw_unique _ _ Hwf).
  - intros l' Hl'. congruence.
Qed.

Lemma geom_add_new r bl node type id param (Q : REF_STATUS * REF_GEOM D -> Prop) :
  geom_wf r bl -> bl <> [] -> geom_n r < REF_INT_MAX -> 0 <= node <= NODE_LIMIT -> 0 <= type <= 2 ->
  type <= zlen param -> (forall g l, geom_at r g = Some l -> geom_key l <> (node, type, id)) ->
  (forall r', (exists bl', geom_wf r' bl') -> geom_n r' = geom_n r + 1 -> geom_max r' = geom_max r ->
     geom_put r r' (node, type, id) (with_params type param (fresh_assoc id)) -> Q (REF_SUCCESS, r')) ->
  wp (let geom := geom_blank r in
      let* blank := ref_geom_id r geom in
      let r := set_geom_blank blank r in
      let* r := put_descr r REF_GEOM_DESCR_TYPE geom type in
      let* r := put_descr r REF_GEOM_DESCR_ID geom id in
      let* r := put_descr r REF_GEOM_DESCR_GREF geom id in
      let* r := put_descr r REF_GEOM_DESCR_JUMP geom 0 in
      let* r := put_descr r REF_GEOM_DESCR_DEGEN geom 0 in
      let* r := put_descr r REF_GEOM_DESCR_NODE geom node in
      let* r := put_param r 0 geom (dofZ 0) in
      let* r := put_param r 1 geom (dofZ 0) in
      let* r := put_params r type geom param in
      let* '(st, adj) := ref_adj_add (geom_adj r) node geom in
      let r := set_geom_adj adj r in
      RSS st r (
      let* n := ck_int (geom_n r + 1) in
      Some (REF_SUCCESS, set_geom_n n r))) Q.
Proof.
  intros Hwf Hbl Hn Hnode Ht Hp Hno HQ. pose proof (gw_rows _ _ Hwf) as Hrows.
  destruct bl as [|geom bl]; [done|]. clear Hbl.
  pose proof (rw_chain _ _ _ _ _ _ Hrows) as [-> _].
  assert (geom ∈ geom :: bl) as [Hg Hnone]%(rw_blank _ _ _ _ _ _ Hrows) by set_solver.
  pose proof (rw_size _ _ _ _ _ _ Hrows) as Hs. pose proof (rw_len _ _ _ _ _ _ Hrows) as Hlen.
  pose proof (gw_param _ _ Hwf) as Hlp. cbv zeta.
  unfold ref_geom_id. rewrite (geom_descr_ok _ _ _ _ Hwf Hg) by done. cbn [obind].
  unfold REF_GEOM_DESCR_TYPE, REF_GEOM_DESCR_ID, REF_GEOM_DESCR_GREF, REF_GEOM_DESCR_JUMP,
    REF_GEOM_DESCR_DEGEN, REF_GEOM_DESCR_NODE.
  do 6 (apply wp_bind, wp_put_descr; cbn [geom_descr geom_max set_geom_descr set_geom_blank];
    [by rewrite ?zlen_upd|done|done|done|]).
  cbn [geom_descr set_geom_descr set_geom_blank].
  apply (wp_new_descr (geom_max r) (geom_descr r)); [done..|]. intros descr Hkeep Hrow.
  do 2 (apply wp_bind, wp_put_param; cbn [geom_param geom_max set_geom_descr set_geom_blank set_geom_param];
    [by rewrite ?zlen_upd|done|done|done|]).
  apply wp_bind, wp_put_params; cbn [geom_param geom_max set_geom_descr set_geom_blank set_geom_param];
    [by rewrite !zlen_upd|done..|]. intros p Hlp' Hpar.
  apply wp_bind. cbn [geom_adj set_geom_descr set_geom_blank set_geom_param].
  eapply wp_mono; [apply adj_add_occ; [apply Hwf|done|]|].
  { intros k. pose proof (geom_refs_total r _ k Hwf). lia. }
  intros [st adj] (-> & Hadj & _ & Hocc). cbn [RSS geom_n set_geom_adj set_geom_descr set_geom_blank set_geom_param].
  pose proof (rows_n_bounds _ _ _ _ _ _ Hrows). apply wp_bind, wp_ck_int; [unfold REF_INT_MIN; lia|]. apply wp_ret.
  destruct (geom_wf_new r geom bl descr p adj node type id) as [Hwf' Hat']; try done.
  cbn [set_geom_adj set_geom_descr set_geom_blank set_geom_param set_geom_n geom_n geom_max geom_blank geom_descr geom_param geom_adj].
  apply HQ; [by exists bl|done|done|].
  set (r' := mkREF_GEOM _ _ _ _ _ _) in *.
  assert (Hass : with_params type param (fresh_assoc id) = assoc_of r' geom [type; id; id; 0; 0; node]).
  { unfold with_params, assoc_of, fresh_assoc, REF_GEOM_DESCR_SIZE in *.
    cbn [ga_gref ga_jump ga_degen ga_p0 ga_p1 geom_param r'].
    rewrite !Hpar by lia. rewrite !(aat_row_put 2 (geom_max r)) by (rewrite ?zlen_upd; unfold REF_INT_MAX in *; done || lia).
    by rewrite !Z.eqb_refl. }
  rewrite Hass. intros k v. apply (geom_lookup_put r (geom :: bl) r' geom [type; id; id; 0; 0; node]); [done|done| | |].
  - intros c d Hc Hcg Hd. destruct (geom_at r c) as [lc|] eqn:Hlc; [|done].
    apply geom_at_range in Hlc. unfold REF_GEOM_DESCR_SIZE in *. cbn [geom_param r']. rewrite Hpar by (done || lia).
    destruct (Z.eqb_spec geom c); [by subst|]. cbn [andb].
    rewrite !(aat_row_put 2 (geom_max r)) by (rewrite ?zlen_upd; unfold REF_INT_MAX in *; done || lia).
    rewrite (proj2 (Z.eqb_neq geom c)) by done. by rewrite !andb_false_r.
  - intros c lc Hlc Hk. by destruct (Hno c lc Hlc).
  - intros l Hl. unfold geom_at in Hl. congruence.
Qed.

(** [ref_geom_add] for a type that exists. *)
Lemma ref_geom_add_ok r bl node type id param :
  geom_wf r bl -> geom_max r <= GEOM_LIMIT -> 0 <= node <= NODE_LIMIT -> 0 <= type <= 2 ->
  type <= zlen param ->
  wp (ref_geom_add r node type id param) (fun '(st, r') =>
    st = REF_SUCCESS /\ (exists bl', geom_wf r' bl') /\ geom_frame r r' /\
    exists old, geom_holds r (node, type, id) old /\
      geom_put r r' (node, type, id) (added (node, type, id) type id param old)).
Proof.
  intros Hwf Hlim Hnode Ht Hp. unfold ref_geom_add.
  destruct (Z.ltb_spec type 0), (Z.ltb_spec 2 type); try lia. cbn [orb].
  apply wp_bind. eapply wp_mono; [by eapply ref_geom_find_ok|].
  intros [st geom] [(-> & l & Hat & Hk)|(-> & -> & Hno)]; unfold RXS.
  - rewrite !bool_decide_eq_true_2 by tauto. apply wp_bind.
    eapply (geom_add_existing _ _ _ _ type); [done|done|by injection Hk|done|].
    intros r' Hwf' Hn' Hm' Hput. apply wp_ret. split; [done|]. split; [by exists bl|].
    split; [split; [lia|by left]|]. exists (Some (assoc_of r geom l)). rewrite Hk in Hput.
    split; [by exists geom, l|done].
  - rewrite bool_decide_eq_true_2 by tauto. rewrite bool_decide_eq_false_2 by done.
    apply wp_bind. eapply wp_mono; [by eapply ref_geom_grow_ok|].
    intros [st r1] (-> & (bl1 & Hwf1 & Hbl1) & Hn1 & _ & _ & Hmax1 & Hat1 & Hpar1). cbn [RSS].
    pose proof (rows_n_bounds _ _ _ _ _ _ (gw_rows _ _ Hwf)). unfold GEOM_LIMIT in *.
    apply (geom_add_new r1 bl1); [done|done|unfold REF_INT_MAX; lia|done|done|done| |].
    { intros g l. rewrite Hat1. apply Hno. }
    intros r' Hwf' Hn' Hm' Hput. split; [done|]. split; [done|].
    split; [split; [lia|by rewrite Hm']|]. exists None. split.
    { intros v (g & l & Hat & Hk & _). by destruct (Hno g l). }
    intros k v. rewrite (Hput k v). case decide; [done|]. intros _. unfold geom_lookup.
    split; intros (g & l & Hat & Hk & ->); exists g, l; (split; [congruence|]); (split; [done|]);
      [rewrite Hat1 in Hat|]; unfold assoc_of; apply geom_at_range in Hat; by rewrite !Hpar1 by lia.
Qed.

Lemma ref_geom_add_invalid r node type id param :
  ~ 0 <= type <= 2 -> ref_geom_add r node type id param = Some (REF_INVALID, r).
Proof. intros Ht. unfold ref_geom_add. destruct (Z.ltb_spec type 0), (Z.ltb_spec 2 type); done || lia. Qed.

(** The rest of the record after [ref_geom_add_with_descr]. *)
Definition with_descr (gref jump degen : Z) (v : geom_assoc D) : geom_assoc D :=
  mk_assoc gref jump degen (ga_p0 v) (ga_p1 v).

Lemma redescribe_ok r bl geom l gref jump degen (Q : REF_GEOM D -> Prop) :
  geom_wf r bl -> geom_at r geom = Some l ->
  (forall r', geom_wf r' bl -> geom_n r' = geom_n r -> geom_max r' = geom_max r ->
     geom_put r r' (geom_key l) (with_descr gref jump degen (assoc_of r geom l)) -> Q r') ->
  wp (redescribe r geom gref jump degen) Q.
Proof.
  intros Hwf Hat HQ. unfold redescribe. pose proof (geom_at_range _ _ _ Hat) as Hg. pose proof (gw_rows _ _ Hwf) as Hrows.
  pose proof (rw_size _ _ _ _ _ _ Hrows) as Hs. pose proof (rw_len _ _ _ _ _ _ Hrows) as Hlen.
  unfold REF_GEOM_DESCR_GREF, REF_GEOM_DESCR_DEGEN, REF_GEOM_DESCR_JUMP, REF_GEOM_DESCR_SIZE in *.
  do 2 (apply wp_bind, wp_put_descr; cbn [geom_descr geom_max set_geom_descr];
    [by rewrite ?zlen_upd|done|done|done|]).
  apply wp_put_descr; cbn [geom_descr geom_max set_geom_descr]; [by rewrite ?zlen_upd|done|done|done|].
  unfold REF_GEOM_DESCR_SIZE. set (descr := upd _ _ jump).
  match goal with |- Q ?x => replace x with (set_geom_descr descr r) by done end.
  set (r' := set_geom_descr descr r). set (l' := [l.[0]; l.[1]; gref; jump; degen; l.[5]]).
  assert (Hget : forall col g, 0 <= col < 6 -> 0 <= g -> descr.[col + 6 * g] =
    if (3 =? col) && (geom =? g) then jump else if (4 =? col) && (geom =? g) then degen
    else if (2 =? col) && (geom =? g) then gref else (geom_descr r).[col + 6 * g]).
  { intros col g Hc Hg'. unfold descr.
    by rewrite !(aat_row_put 6 (geom_max r) ltac:(lia) Hs) by (rewrite ?zlen_upd; done || lia). }
  assert (Hkeep : rows_keep 6 (geom_max r) geom (geom_descr r) descr).
  { split; [by unfold descr; rewrite !zlen_upd|]. intros col g Hc Hg' Hne. rewrite Hget by lia.
    destruct (Z.eqb_spec geom g); [by subst|]. by rewrite !andb_false_r. }
  assert (Hcols : forall col, 0 <= col < 6 -> (geom_descr r).[col + 6 * geom] = l.[col])
    by (intros; symmetry; by apply (aat_row_at _ _ _ _ _ _ Hat)).
  assert (Hrow : row_of 6 descr geom = l').
  { etransitivity; [exact (row_of_6 descr geom)|]. rewrite !Hget by lia. rewrite !Z.eqb_refl. cbn [Z.eqb Pos.eqb andb].
    by rewrite !Hcols by lia. }
  destruct (rows_wf_change 6 ltac:(lia) _ _ _ _ descr _ _ l Hrows Hat Hkeep) as [Hrows' Hat'].
  { change (6 * geom) with (0 + 6 * geom). rewrite Hget, Z.eqb_refl by lia. cbn [Z.eqb andb].
    rewrite Hcols by lia. pose proof (gw_type _ _ Hwf _ _ Hat). unfold REF_EMPTY. lia. }
  rewrite Hrow in Hat'. change (forall c, geom_at r' c = row_upd (geom_at r) geom (Some l') c) in Hat'.
  assert (Hk : geom_key l = geom_key l') by done.
  assert (Hold : forall c lc, geom_at r' c = Some lc -> exists lo, geom_at r c = Some lo /\ geom_key lo = geom_key lc).
  { intros c lc. rewrite Hat'. unfold row_upd. case Z.eqb_spec; [intros ->; intros [= <-]; by exists l|].
    intros. by exists lc. }
  assert (Hwf' : geom_wf r' bl).
  { constructor; try apply Hwf; [exact Hrows'| | |].
    - intros g lg Hlg. destruct (Hold g lg Hlg) as (lo & Hlo & [= _ Hty _]).
      rewrite <- Hty. by eapply (gw_type _ _ Hwf).
    - intros g g' lg lg' Hlg Hlg' He. destruct (Hold _ _ Hlg) as (lo & Hlo & He1), (Hold _ _ Hlg') as (lo' & Hlo' & He2).
      eapply (gw_unique _ _ Hwf); [done|done|congruence].
    - intros node g. cbn [geom_adj r' set_geom_descr]. rewrite (gw_registered _ _ Hwf), Hat'. unfold row_upd.
      case Z.eqb_spec; [|done]. intros ->. by rewrite Hat. }
  apply HQ; [done|done|done|]. rewrite Hk. intros k v.
  change (with_descr gref jump degen (assoc_of r geom l)) with (assoc_of r' geom l').
  apply (geom_lookup_put r bl); [done|done|done| |].
  - intros c lc Hlc He. eapply (gw_unique _ _ Hwf); [done|done|congruence].
  - intros lc Hlc. congruence.
Qed.

(** [ref_geom_add_with_descr] on a [descr] of six entries. *)
Lemma ref_geom_add_with_descr_ok r bl type id gref jump degen node param :
  geom_wf r bl -> geom_max r <= GEOM_LIMIT -> 0 <= node <= NODE_LIMIT -> 0 <= type <= 2 ->
  type <= zlen param ->
  wp (ref_geom_add_with_descr r [type; id; gref; jump; degen; node] param) (fun '(st, r') =>
    st = REF_SUCCESS /\ (exists bl', geom_wf r' bl') /\ geom_frame r r' /\
    exists old, geom_holds r (node, type, id) old /\
      geom_put r r' (node, type, id)
        (with_descr gref jump degen (added (node, type, id) type id param old))).
Proof.
  intros Hwf Hlim Hnode Ht Hp.
  change (ref_geom_add_with_descr r [type; id; gref; jump; degen; node] param) with
    (let* '(st, r) := ref_geom_add r node type id param in
     RSS st r (let* '(st, geom) := ref_geom_find r node type id in
     RSS st r (let* r := redescribe r geom gref jump degen in Some (REF_SUCCESS, r)))).
  apply wp_bind. eapply wp_mono; [by eapply ref_geom_add_ok|].
  intros [st r1] (-> & (bl1 & Hwf1) & Hfr & old & Hold & Hput). cbn [RSS].
  set (v1 := added _ _ _ _ _) in *.
  assert (Hl1 : geom_lookup r1 (node, type, id) v1) by (apply Hput; by rewrite decide_True).
  apply wp_bind. eapply wp_mono; [by eapply ref_geom_find_ok|].
  intros [st geom] [(-> & l & Hat & Hk)|(_ & _ & Hno)]; cbn [RSS].
  2: { destruct Hl1 as (g & l & Hat & Hk & _). by destruct (Hno g l). }
  assert (v1 = assoc_of r1 geom l) as Hv1 by (eapply (geom_lookup_fun r1); [done|done|by exists geom, l]).
  apply wp_bind. eapply redescribe_ok; [done..|]. intros r' Hwf' Hn' Hm' Hput'. apply wp_ret.
  split; [done|]. split; [by exists bl1|]. split; [unfold geom_frame in *; by rewrite Hn', Hm'|].
  exists old. split; [done|]. intros k v. rewrite (Hput' k v), Hk, <- Hv1. fold v1. case decide; [done|].
  intros Hne. rewrite (Hput k v). by rewrite decide_False.
Qed.

Lemma ref_geom_add_with_descr_invalid r type id gref jump degen node param :
  ~ 0 <= type <= 2 ->
  ref_geom_add_with_descr r [type; id; gref; jump; degen; node] param = Some (REF_INVALID, r).
Proof.
  intros Ht. change (ref_geom_add_with_descr r [type; id; gref; jump; degen; node] param) with
    (let* '(st, r) := ref_geom_add r node type id param in
     RSS st r (let* '(st, geom) := ref_geom_find r node type id in
     RSS st r (let* r := redescribe r geom gref jump degen in Some (REF_SUCCESS, r)))).
  by rewrite ref_geom_add_invalid.
Qed.

Lemma ref_geom_remove_ok r bl geom l :
  geom_wf r bl -> geom_at r geom = Some l ->
  wp (ref_geom_remove r geom) (fun '(st, r') =>
    st = REF_SUCCESS /\ geom_wf r' (geom :: bl) /\ geom_n r' = geom_n r - 1 /\ geom_max r' = geom_max r /\
    geom_param r' = geom_param r /\ forall c, geom_at r' c = row_upd (geom_at r) geom None c).
Proof.
  intros Hwf Hat. pose proof (geom_at_range _ _ _ Hat) as Hg. pose proof (gw_rows _ _ Hwf) as Hrows.
  pose proof (rw_size _ _ _ _ _ _ Hrows) as Hs. pose proof (rw_len _ _ _ _ _ _ Hrows) as Hlen.
  pose proof (gw_type _ _ Hwf _ _ Hat). unfold ref_geom_remove.
  destruct (Z.ltb_spec geom 0), (Z.leb_spec (geom_max r) geom); try lia. cbn [orb].
  unfold ref_geom_type, ref_geom_node. rewrite !(geom_descr_at _ _ _ _ _ Hwf Hat) by done. cbn [obind].
  unfold REF_GEOM_DESCR_TYPE, REF_GEOM_DESCR_NODE, REF_GEOM_DESCR_ID, REF_EMPTY at 1.
  destruct (Z.eqb_spec (-1) l.[0]); [lia|]. apply wp_bind.
  eapply wp_mono; [apply adj_remove_occ; [apply Hwf|]|].
  { rewrite (gw_registered _ _ Hwf), Hat, Z.eqb_refl. cbn. lia. }
  intros [st adj] (-> & Hadj & _ & Hocc). cbn [RSS].
  do 2 (apply wp_bind, wp_put_descr; cbn [geom_descr geom_max geom_blank set_geom_descr set_geom_adj];
    [by rewrite ?zlen_upd|done|done|done|]).
  cbn [geom_n set_geom_blank set_geom_descr set_geom_adj].
  pose proof (rows_n_bounds _ _ _ _ _ _ Hrows). unfold REF_GEOM_DESCR_SIZE in *.
  apply wp_bind, wp_ck_int; [unfold REF_INT_MIN, REF_INT_MAX in *; lia|]. apply wp_ret.
  set (descr := upd (upd _ _ _) _ _). set (r' := set_geom_n _ _). split; [done|].
  assert (Hget : forall col g, 0 <= col < 6 -> 0 <= g -> descr.[col + 6 * g] =
    if (1 =? col) && (geom =? g) then geom_blank r else if (0 =? col) && (geom =? g) then REF_EMPTY
    else (geom_descr r).[col + 6 * g]).
  { intros col g Hc Hg'. unfold descr.
    by rewrite !(aat_row_put 6 (geom_max r) ltac:(lia) Hs) by (rewrite ?zlen_upd; done || lia). }
  destruct (rows_wf_release 6 ltac:(lia) _ _ _ _ descr geom _ l Hrows Hat) as [Hrows' Hat'].
  { split; [by unfold descr; rewrite !zlen_upd|]. intros col g Hc Hg' Hne. rewrite Hget by lia.
    destruct (Z.eqb_spec geom g); [by subst|]. by rewrite !andb_false_r. }
  { change (6 * geom) with (0 + 6 * geom). rewrite Hget by lia. by rewrite Z.eqb_refl. }
  { rewrite Hget by lia. by rewrite !Z.eqb_refl. }
  change (forall c, geom_at r' c = row_upd (geom_at r) geom None c) in Hat'.
  assert (Hold : forall c lc, geom_at r' c = Some lc -> geom_at r c = Some lc).
  { intros c lc. rewrite Hat'. unfold row_upd. by case Z.eqb_spec. }
  split; [|done]. constructor; [exact Hrows'|apply Hwf| | |done|].
  - intros g lg Hlg%Hold. by eapply (gw_type _ _ Hwf).
  - intros g g' lg lg' Hlg%Hold Hlg'%Hold. by eapply (gw_unique _ _ Hwf).
  - intros node g. cbn [geom_adj r' set_geom_n set_geom_blank set_geom_descr set_geom_adj].
    rewrite Hocc, (gw_registered _ _ Hwf), Hat'. unfold row_upd. rewrite (Z.eqb_sym geom g).
    case Z.eqb_spec; intros Hgg; cbn [Z.b2z]; [|lia]. subst g. rewrite Hat. lia.
Qed.

(** Every association of a vertex goes. *)
Lemma ref_geom_remove_all_ok r bl node :
  geom_wf r bl ->
  wp (ref_geom_remove_all r node) (fun '(st, r') =>
    st = REF_SUCCESS /\ (exists bl', geom_wf r' bl') /\ geom_n r' <= geom_n r /\ geom_max r' = geom_max r /\
    forall k v, geom_lookup r' k v <-> fst (fst k) <> node /\ geom_lookup r k v).
Proof.
  intros Hwf. unfold ref_geom_remove_all. apply wp_bind.
  eapply wp_mono; [apply ref_adj_first_ok, Hwf|]. intros item Hitem.
  apply (wp_loop (fun '(item, r') => (exists bl', geom_wf r' bl') /\ geom_n r' <= geom_n r /\
      geom_max r' = geom_max r /\
      match adj_refs (geom_adj r') node with
      | [] => ref_adj_valid item = false
      | ref :: _ => ref_adj_valid item = true /\ ref_adj_item_ref (geom_adj r') item = Some ref
      end /\
      (forall k v, fst (fst k) <> node -> geom_lookup r' k v <-> geom_lookup r k v))
    (fun '(_, r') => zlen (adj_refs (geom_adj r') node))).
  - split; [by exists bl|]. split; [lia|]. split; [done|]. split; [done|done].
  - pose proof (adj_refs_length (geom_adj r) node (gw_adj _ _ Hwf)).
    pose proof (zlen_nonneg (adj_refs (geom_adj r) node)). lia.
  - intros [? ?] _. apply zlen_nonneg.
  - clear Hitem item. intros [item r1] ((bl1 & Hwf1) & Hn1 & Hm1 & Hitem & Hkeep).
    destruct (adj_refs (geom_adj r1) node) as [|geom refs] eqn:Hrefs.
    + rewrite Hitem. apply wp_ret. cbn. split; [done|]. split; [by exists bl1|]. split; [done|].
      split; [done|]. intros k v. destruct (decide (fst (fst k) = node)) as [Hk|Hk].
      * split; [|by intros [? _]]. intros (g & l & Hat & <- & _). exfalso.
        assert (g ∈ []) by (rewrite <- Hrefs; apply (elem_of_geom_refs _ _ _ _ Hwf1); by exists l). set_solver.
      * rewrite Hkeep by done. tauto.
    + destruct Hitem as [-> ->]. cbn [obind].
      assert (geom ∈ adj_refs (geom_adj r1) node) as (l & Hat & Hl5)%(elem_of_geom_refs _ _ _ _ Hwf1)
        by (rewrite Hrefs; set_solver).
      apply wp_bind. eapply wp_mono; [by eapply ref_geom_remove_ok|].
      intros [st r2] (-> & Hwf2 & Hn2 & Hm2 & Hp2 & Hat2).
      apply wp_bind. eapply wp_mono; [apply ref_adj_first_ok, Hwf2|]. intros item2 Hitem2.
      apply wp_ret. cbn [ctl_post]. split.
      * split; [by exists (geom :: bl1)|]. split; [lia|]. split; [congruence|]. split; [done|].
        intros k v Hk. rewrite (geom_lookup_remove r1 bl1 r2 geom l Hwf1 Hat Hat2 Hp2).
        rewrite Hkeep by done. split; [tauto|]. intros. split; [|done]. intros ->. by apply Hk.
      * assert (zlen (geom :: adj_refs (geom_adj r2) node) <= zlen (adj_refs (geom_adj r1) node));
          [|rewrite Hrefs, !zlen_cons in *; lia].
        apply occ_le_zlen. intros c. rewrite occ_cons, (gw_registered _ _ Hwf2), (gw_registered _ _ Hwf1), Hat2.
        unfold row_upd. rewrite (Z.eqb_sym geom c). case Z.eqb_spec; intros Hc; [|cbn [Z.b2z]; lia].
        subst c. rewrite Hat, Hl5, Z.eqb_refl. cbn. lia.
Qed.

(** The parameters that a type has. *)
Definition tuv_of (type : Z) (v : geom_assoc D) (param : list D) : list D :=
  let param := if 0 <? type then upd param 0 (ga_p0 v) else param in
  if 1 <? type then upd param 1 (ga_p1 v) else param.

Lemma ref_geom_tuv_ok r bl node type id param :
  geom_wf r bl -> type <= zlen param ->
  wp (ref_geom_tuv r node type id param) (fun '(st, param') =>
    (exists v, geom_lookup r (node, type, id) v /\
       if (ga_jump v =? 0) && (ga_degen v =? 0) then st = REF_SUCCESS /\ param' = tuv_of type v param
       else st = REF_FAILURE /\ param' = param) \/
    (forall v, ~ geom_lookup r (node, type, id) v) /\ st = REF_NOT_FOUND /\ param' = param).
Proof.
  intros Hwf Hp. unfold ref_geom_tuv. apply wp_bind. eapply wp_mono; [by eapply ref_geom_find_ok|].
  intros [st g] [(-> & l & Hat & Hk)|(-> & _ & Hno)]; cbn [RSS].
  2: { apply wp_ret. right. split; [|done]. intros v (g' & l & Hat & Hk & _). by destruct (Hno g' l). }
  pose proof (geom_at_range _ _ _ Hat) as Hg. pose proof (gw_type _ _ Hwf _ _ Hat) as Hty.
  assert (Hlt : l.[0] = type) by (by injection Hk). rewrite Hlt in Hty.
  assert (Hlk : geom_lookup r (node, type, id) (assoc_of r g l)) by (by exists g, l).
  unfold ref_geom_jump, ref_geom_degen. rewrite !(geom_descr_at _ _ _ _ _ Hwf Hat) by done. cbn [obind].
  assert (Hjd : forall st p, (if (l.[3] =? 0) && (l.[4] =? 0) then st = REF_SUCCESS /\ p = tuv_of type (assoc_of r g l) param
       else st = REF_FAILURE /\ p = param) ->
    (exists v, geom_lookup r (node, type, id) v /\
       if (ga_jump v =? 0) && (ga_degen v =? 0) then st = REF_SUCCESS /\ p = tuv_of type v param
       else st = REF_FAILURE /\ p = param) \/
    (forall v, ~ geom_lookup r (node, type, id) v) /\ st = REF_NOT_FOUND /\ p = param)
    by (intros; left; by exists (assoc_of r g l)).
  unfold REF_GEOM_DESCR_JUMP, REF_GEOM_DESCR_DEGEN. rewrite (Z.eqb_sym 0 l.[3]), (Z.eqb_sym 0 l.[4]).
  destruct (l.[3] =? 0); cbn [RAS]; [|apply wp_ret; by apply Hjd].
  destruct (l.[4] =? 0); cbn [RAS]; [|apply wp_ret; by apply Hjd]. cbn [andb] in Hjd.
  unfold tuv_of in Hjd. cbn [assoc_of ga_p0 ga_p1] in Hjd. apply wp_bind.
  assert (type = 0 \/ type = 1 \/ type = 2) as [-> | [-> | ->]] by lia;
    cbn [Z.ltb Z.compare Pos.compare Pos.compare_cont] in *.
  - repeat first [apply wp_ret | apply wp_bind]. by apply Hjd.
  - rewrite (geom_param_ok _ _ _ _ Hwf Hg) by done. cbn [obind]. apply wp_aset; [lia|].
    repeat first [apply wp_ret | apply wp_bind]. by apply Hjd.
  - rewrite (geom_param_ok _ _ _ _ Hwf Hg) by done. cbn [obind]. apply wp_aset; [lia|].
    rewrite (geom_param_ok _ _ _ _ Hwf Hg) by done. cbn [obind]. repeat first [apply wp_ret | apply wp_bind | apply wp_aset; [rewrite zlen_upd; lia|]].
    by apply Hjd.
Qed.

Lemma ref_geom_create_ok :
  wp ref_geom_create (fun '(st, r) => st = REF_SUCCESS /\ (exists bl, geom_wf (D := D) r bl) /\
    geom_n r = 0 /\ geom_max r = 10 /\ forall k v, ~ geom_lookup r k v).
Proof.
  unfold ref_geom_create, REF_GEOM_DESCR_SIZE. cbv zeta. do 2 (apply wp_bind, wp_ck_int; [unfold REF_INT_MIN, REF_INT_MAX; lia|]).
  unfold ref_geom_initialize. cbn [geom_max geom_descr geom_param].
  apply wp_bind, (wp_link_rows 6 10 ltac:(lia)); [unfold REF_INT_MAX; lia|lia|lia|by rewrite zlen_alloc|].
  intros descr Hl Hlinked _. apply wp_bind. eapply wp_mono; [apply ref_adj_create_ok|].
  intros [st adj] (-> & Hadj & Hrefs). apply wp_ret. split; [done|]. set (r := mkREF_GEOM _ _ _ _ _ _).
  destruct (rows_wf_start 6 10 descr) as [Hrows Hnone]; [lia|unfold REF_INT_MAX; lia|done|done|].
  change (forall g, geom_at r g = None) in Hnone.
  split; [|split; [done|]; split; [done|]; intros k v (g & l & Hat & _); by rewrite Hnone in Hat].
  eexists. constructor; [exact Hrows|by apply zlen_alloc| | |done|].
  - intros g l. by rewrite Hnone.
  - intros g g' l l'. by rewrite Hnone.
  - intros node g. by rewrite Hnone, Hrefs.
Qed.

Lemma ref_geom_deep_copy_ok r bl : geom_wf r bl -> ref_geom_deep_copy r = Some (REF_SUCCESS, r).
Proof.
  intros Hwf. apply wp_eq. pose proof (gw_rows _ _ Hwf) as Hrows.
  pose proof (rw_max _ _ _ _ _ _ Hrows). pose proof (rw_size _ _ _ _ _ _ Hrows) as Hs.
  pose proof (rw_len _ _ _ _ _ _ Hrows) as Hlen. pose proof (gw_param _ _ Hwf) as Hlp.
  unfold ref_geom_deep_copy, REF_GEOM_DESCR_SIZE in *.
  do 2 (apply wp_bind, wp_ck_int; [unfold REF_INT_MIN, REF_INT_MAX in *; lia|]).
  apply wp_bind, (wp_fill_blocks (aat (geom_descr r)) 6 (geom_max r)); [lia|lia|rewrite zlen_alloc; lia| |].
  - intros g i d Hg Hi Hl. rewrite zlen_alloc in Hl by lia.
    rewrite (geom_descr_ok _ _ _ _ Hwf Hg) by done. cbn [obind].
    apply (wp_row_put 6 (geom_max r) ltac:(lia) Hs); [lia|lia|lia|done].
  - rewrite zlen_alloc by lia. intros descr Hld Hd _.
    apply wp_bind, (wp_fill_blocks (aat (geom_param r)) 2 (geom_max r)); [lia|lia|rewrite zlen_alloc; lia| |].
    + intros g i d Hg Hi Hl. rewrite zlen_alloc in Hl by lia.
      rewrite (geom_param_ok _ _ _ _ Hwf Hg) by done. cbn [obind].
      destruct (row_index_ok 2 (geom_max r) ltac:(lia) ltac:(unfold REF_INT_MAX in *; lia) i g Hi Hg) as [-> ?].
      cbn [obind]. by apply wp_aset; [lia|].
    + rewrite zlen_alloc by lia. intros param Hlpa Hpd _. rewrite ref_adj_deep_copy_ok by apply Hwf. cbn [obind].
      apply wp_ret. f_equal. assert (descr = geom_descr r) as -> by (apply arr_ext; [lia|]; intros; apply Hd; lia).
      assert (param = geom_param r) as -> by (apply arr_ext; [lia|]; intros; apply Hpd; lia).
      by destruct r.
Qed.
End ops_ok.
