(* ===== verification/RefGeomSpec.v ===== *)
(** * ref_geom.c: what the associations promise

    A [REF_GEOM] is specified as a finite map from (vertex, type, id) to the rest
    of the record. The refinement theorem covers every sequence of calls on a
    fresh [REF_GEOM]; the other lemmas of this file are about the limit of the
    arrays and about a call with a vertex that does not exist. *)
From S2P Require Import Prelude Rows RefAdj RefDbl RefNode RefCell RefGeom.
From stdpp Require Import prelude list gmap.
From Stdlib Require Import ZArith Lia SpecFloat.
Open Scope Z_scope.
Open Scope ref_scope.

(** The calls. *)
Inductive geom_command (D : Type) :=
  | GeomAdd (node type id : Z) (param : list D)
  | GeomAddWithDescr (type id gref jump degen node : Z) (param : list D)
  | GeomRemove (node type id : Z)
  | GeomRemoveAll (node : Z)
  | GeomTuv (node type id : Z) (param : list D)
  | GeomIsA (node type : Z)
  | GeomUniqueId (node type : Z)
  | GeomSupported (node : Z)
  | GeomIdSupported (node type id : Z)
  | GeomCopy.
#[global] Arguments GeomAdd {D}.
#[global] Arguments GeomAddWithDescr {D}.
#[global] Arguments GeomRemove {D}.
#[global] Arguments GeomRemoveAll {D}.
#[global] Arguments GeomTuv {D}.
#[global] Arguments GeomIsA {D}.
#[global] Arguments GeomUniqueId {D}.
#[global] Arguments GeomSupported {D}.
#[global] Arguments GeomIdSupported {D}.
#[global] Arguments GeomCopy {D}.

(** How many calls the theorem covers: the arrays stay within [GEOM_LIMIT]. *)
Definition geom_budget : Z := 50000000.

(** The vertex exists and the array argument has the parameters of the type. *)
Definition geom_command_ok {D} (c : geom_command D) : Prop :=
  match c with
  | GeomAdd node type _ param | GeomAddWithDescr type _ _ _ _ node param =>
      0 <= node <= NODE_LIMIT /\ type <= zlen param
  | GeomTuv _ type _ param => type <= zlen param
  | _ => True
  end.

(** The output is a status, a flag, an id and parameters. *)
Definition geom_output (D : Type) : Type := REF_STATUS * bool * Z * list D.
(** A fact that an operation refuses has no id. *)
Definition id_output (st : REF_STATUS) (id : Z) : Z := if bool_decide (st = REF_SUCCESS) then id else 0.

Section exec.
Context {D : Type} `{Dbl D, Junk Z, Junk REF_ADJ_ITEM, Junk D}.

Definition geom_exec (c : geom_command D) (r : REF_GEOM D) : option (geom_output D * REF_GEOM D) :=
  match c with
  | GeomAdd node type id param =>
      let* '(st, r) := ref_geom_add r node type id param in Some ((st, false, 0, []), r)
  | GeomAddWithDescr type id gref jump degen node param =>
      let* '(st, r) := ref_geom_add_with_descr r [type; id; gref; jump; degen; node] param in
      Some ((st, false, 0, []), r)
  | GeomRemove node type id =>
      let* '(st, geom) := ref_geom_find r node type id in
      if bool_decide (st = REF_SUCCESS) then
        let* '(st, r) := ref_geom_remove r geom in Some ((st, false, 0, []), r)
      else Some ((st, false, 0, []), r)
  | GeomRemoveAll node =>
      let* '(st, r) := ref_geom_remove_all r node in Some ((st, false, 0, []), r)
  | GeomTuv node type id param =>
      let* '(st, param) := ref_geom_tuv r node type id param in Some ((st, false, 0, param), r)
  | GeomIsA node type => let* '(st, b) := ref_geom_is_a r node type in Some ((st, b, 0, []), r)
  | GeomUniqueId node type =>
      let* '(st, id) := ref_geom_unique_id r node type 0 in Some ((st, false, id_output st id, []), r)
  | GeomSupported node => let* '(st, b) := ref_geom_supported r node in Some ((st, b, 0, []), r)
  | GeomIdSupported node type id =>
      let* '(st, b) := ref_geom_id_supported r node type id in Some ((st, b, 0, []), r)
  | GeomCopy => let* '(st, r) := ref_geom_deep_copy r in Some ((st, false, 0, []), r)
  end.

(** ** The specification *)

(** The ids under which a map has a vertex and a type. *)
Definition ids_in (m : gmap (Z * Z * Z) (geom_assoc D)) (node type : Z) : list Z :=
  map (fun x => snd (fst x)) (filter (fun x => fst (fst x) = (node, type)) (map_to_list m)).

Definition geom_spec (c : geom_command D) (m : gmap (Z * Z * Z) (geom_assoc D))
    : geom_output D * gmap (Z * Z * Z) (geom_assoc D) :=
  match c with
  | GeomAdd node type id param =>
      let k := (node, type, id) in
      if (0 <=? type) && (type <=? 2) then
        ((REF_SUCCESS, false, 0, []), <[k := added k type id param (m !! k)]> m)
      else ((REF_INVALID, false, 0, []), m)
  | GeomAddWithDescr type id gref jump degen node param =>
      let k := (node, type, id) in
      if (0 <=? type) && (type <=? 2) then
        ((REF_SUCCESS, false, 0, []),
         <[k := with_descr gref jump degen (added k type id param (m !! k))]> m)
      else ((REF_INVALID, false, 0, []), m)
  | GeomRemove node type id =>
      if m !! (node, type, id) then ((REF_SUCCESS, false, 0, []), delete (node, type, id) m)
      else ((REF_NOT_FOUND, false, 0, []), m)
  | GeomRemoveAll node =>
      ((REF_SUCCESS, false, 0, []), filter (fun x => fst (fst (fst x)) <> node) m)
  | GeomTuv node type id param =>
      (match m !! (node, type, id) with
       | Some v =>
           if (ga_jump v =? 0) && (ga_degen v =? 0) then (REF_SUCCESS, false, 0, tuv_of type v param)
           else (REF_FAILURE, false, 0, param)
       | None => (REF_NOT_FOUND, false, 0, param)
       end, m)
  | GeomIsA node type => ((REF_SUCCESS, bool_decide (ids_in m node type <> []), 0, []), m)
  | GeomUniqueId node type =>
      (match ids_in m node type with
       | [] => (REF_NOT_FOUND, false, 0, [])
       | [id] => (REF_SUCCESS, false, id, [])
       | _ => (REF_INVALID, false, 0, [])
       end, m)
  | GeomSupported node =>
      ((REF_SUCCESS, existsb (fun x => fst (fst (fst x)) =? node) (map_to_list m), 0, []), m)
  | GeomIdSupported node type id =>
      ((REF_SUCCESS, if m !! (node, type, id) then true else false, 0, []), m)
  | GeomCopy => ((REF_SUCCESS, false, 0, []), m)
  end.

(** The state stands for the map. *)
Definition geom_represents (r : REF_GEOM D) (m : gmap (Z * Z * Z) (geom_assoc D)) : Prop :=
  forall k v, m !! k = Some v <-> geom_lookup r k v.

Definition geom_sim (k : Z) (r : REF_GEOM D) (m : gmap (Z * Z * Z) (geom_assoc D)) : Prop :=
  (exists bl, geom_wf r bl) /\ geom_represents r m /\ geom_n r + k <= geom_budget /\
  geom_max r <= GEOM_LIMIT.
End exec.

Section simulation.
Context {D : Type} `{Dbl D, Junk Z, Junk REF_ADJ_ITEM, Junk D}.
Implicit Types (r : REF_GEOM D) (m : gmap (Z * Z * Z) (geom_assoc D)).

Lemma geom_sim_same k r m : 0 <= k -> geom_sim (k + 1) r m -> geom_sim k r m.
Proof. intros Hk (? & ? & ? & ?). split; [done|]. split; [done|]. split; [lia|done]. Qed.

Lemma geom_sim_frame k r m r' m' :
  0 <= k -> geom_sim (k + 1) r m -> (exists bl, geom_wf r' bl) -> geom_frame r r' ->
  geom_represents r' m' -> geom_sim k r' m'.
Proof.
  intros Hk ((bl & Hwf) & _ & Hn & Hm) Hwf' [Hn' Hm'] Hrep. split; [done|]. split; [done|]. split; [lia|].
  pose proof (rows_n_bounds _ _ _ _ _ _ (gw_rows _ _ Hwf)). unfold GEOM_LIMIT, geom_budget in *.
  destruct Hm' as [->|[Hfull ->]]; [done|]. unfold half_more. rewrite Z.quot_div_nonneg by lia.
  pose proof (Z.mul_div_le (3 * geom_max r) 2). lia.
Qed.

Lemma geom_holds_lookup r m k old :
  geom_represents r m -> geom_holds r k old -> m !! k = old.
Proof.
  intros Hrep. destruct old as [v|]; cbn; [apply Hrep|]. intros Hno.
  destruct (m !! k) as [v|] eqn:Hv; [|done]. apply Hrep in Hv. by destruct (Hno v).
Qed.

Lemma geom_put_insert r r' m k v :
  geom_represents r m -> geom_put r r' k v -> geom_represents r' (<[k := v]> m).
Proof.
  intros Hrep Hput k' v'. rewrite (Hput k' v'), lookup_insert_Some. case decide; intros Hk.
  - subst. split; [intros [[_ ?]|[? _]]; done|]. intros ->. by left.
  - rewrite <- (Hrep k' v'). split; [intros [[? _]|[_ ?]]; [congruence|done]|]. intros ?. right. split; congruence.
Qed.

Lemma ids_in_spec r bl m node type :
  geom_wf r bl -> geom_represents r m -> ids_in m node type ≡ₚ ids_at r node type.
Proof.
  intros Hwf Hrep. destruct (ids_at_spec r bl node type Hwf) as [Hnd Hin].
  apply NoDup_Permutation; [|done|].
  - unfold ids_in. apply NoDup_fmap_2_strong; [|apply NoDup_filter, NoDup_map_to_list].
    intros [[p id] v] [[p' id'] v'] [Hp Hx]%list_elem_of_filter [Hp' Hx']%list_elem_of_filter Heq.
    cbn in *. subst. apply elem_of_map_to_list in Hx, Hx'. congruence.
  - intros id. rewrite Hin. unfold ids_in. rewrite list_elem_of_fmap. split.
    + intros ([[p id'] v] & -> & [Hp Hx]%list_elem_of_filter). cbn in *. subst.
      apply elem_of_map_to_list, Hrep in Hx as (g & l & Hat & Hk & _). by exists g, l.
    + intros (g & l & Hat & Hk). assert (geom_lookup r (node, type, id) (assoc_of r g l)) as Hl by (by exists g, l).
      apply Hrep, elem_of_map_to_list in Hl. exists ((node, type, id), assoc_of r g l). split; [done|].
      by apply list_elem_of_filter.
Qed.

Lemma geom_add_sim k r m node type id param :
  geom_command_ok (GeomAdd node type id param) -> 0 <= k -> geom_sim (k + 1) r m ->
  wp (geom_exec (GeomAdd node type id param) r) (fun '(o, r') =>
    o = fst (geom_spec (GeomAdd node type id param) m) /\
    geom_sim k r' (snd (geom_spec (GeomAdd node type id param) m))).
Proof.
  intros [Hnode Hp] Hk Hsim. pose proof Hsim as ((bl & Hwf) & Hrep & Hn & Hm). cbn [geom_exec geom_spec].
  apply wp_bind. destruct (Z.leb_spec 0 type), (Z.leb_spec type 2); cbn [andb];
    try (rewrite ref_geom_add_invalid by lia; by apply wp_ret, wp_ret; split; [|by apply geom_sim_same]).
  eapply wp_mono; [by eapply ref_geom_add_ok|]. intros [st r'] (-> & Hwf' & Hfr & old & Hold & Hput).
  apply wp_ret. split; [done|]. eapply geom_sim_frame; [done..|]. cbn [snd].
  rewrite (geom_holds_lookup _ _ _ _ Hrep Hold). by eapply geom_put_insert.
Qed.

Lemma geom_add_with_descr_sim k r m type id gref jump degen node param :
  let c := GeomAddWithDescr type id gref jump degen node param in
  geom_command_ok c -> 0 <= k -> geom_sim (k + 1) r m ->
  wp (geom_exec c r) (fun '(o, r') => o = fst (geom_spec c m) /\ geom_sim k r' (snd (geom_spec c m))).
Proof.
  intros c [Hnode Hp] Hk Hsim. pose proof Hsim as ((bl & Hwf) & Hrep & Hn & Hm). cbn [geom_exec geom_spec c].
  apply wp_bind. destruct (Z.leb_spec 0 type), (Z.leb_spec type 2); cbn [andb];
    try (rewrite ref_geom_add_with_descr_invalid by lia; by apply wp_ret, wp_ret; split; [|by apply geom_sim_same]).
  eapply wp_mono; [by eapply ref_geom_add_with_descr_ok|]. intros [st r'] (-> & Hwf' & Hfr & old & Hold & Hput).
  apply wp_ret. split; [done|]. eapply geom_sim_frame; [done..|]. cbn [snd].
  rewrite (geom_holds_lookup _ _ _ _ Hrep Hold). by eapply geom_put_insert.
Qed.

Lemma geom_remove_sim k r m node type id :
  0 <= k -> geom_sim (k + 1) r m ->
  wp (geom_exec (GeomRemove node type id) r) (fun '(o, r') =>
    o = fst (geom_spec (GeomRemove node type id) m) /\
    geom_sim k r' (snd (geom_spec (GeomRemove node type id) m))).
Proof.
  intros Hk Hsim. pose proof Hsim as ((bl & Hwf) & Hrep & Hn & Hm). cbn [geom_exec geom_spec].
  apply wp_bind. eapply wp_mono; [by eapply ref_geom_find_ok|].
  intros [st geom] [(-> & l & Hat & Hkey)|(-> & -> & Hno)].
  - rewrite bool_decide_eq_true_2 by done. apply wp_bind. eapply wp_mono; [by eapply ref_geom_remove_ok|].
    intros [st r'] (-> & Hwf' & Hn' & Hm' & Hp' & Hat'). apply wp_ret.
    assert (m !! (node, type, id) = Some (assoc_of r geom l)) as -> by (apply Hrep; by exists geom, l).
    split; [done|]. cbn [snd]. split; [by exists (geom :: bl)|]. split; [|split; [lia|congruence]].
    intros kk v. rewrite (geom_lookup_remove r bl r' geom l Hwf Hat Hat' Hp'), Hkey, lookup_delete_Some.
    rewrite (Hrep kk v). split; intros [? ?]; (split; [congruence|done]).
  - rewrite bool_decide_eq_false_2 by done. apply wp_ret.
    destruct (m !! (node, type, id)) as [v|] eqn:Hv.
    + apply Hrep in Hv as (g & l & Hat & Hkey & _). by destruct (Hno g l).
    + split; [done|]. by apply geom_sim_same.
Qed.

Lemma geom_remove_all_sim k r m node :
  0 <= k -> geom_sim (k + 1) r m ->
  wp (geom_exec (GeomRemoveAll node) r) (fun '(o, r') =>
    o = fst (geom_spec (GeomRemoveAll node) m) /\
    geom_sim k r' (snd (geom_spec (GeomRemoveAll node) m))).
Proof.
  intros Hk Hsim. pose proof Hsim as ((bl & Hwf) & Hrep & Hn & Hm). cbn [geom_exec geom_spec].
  apply wp_bind. eapply wp_mono; [by eapply ref_geom_remove_all_ok|].
  intros [st r'] (-> & Hwf' & Hn' & Hm' & Hl). apply wp_ret. split; [done|]. cbn [snd].
  split; [done|]. split; [|split; [lia|congruence]].
  intros kk v. rewrite Hl, map_lookup_filter_Some, (Hrep kk v). cbn. tauto.
Qed.

(** The calls that only read. *)
Lemma geom_read_sim k r m c :
  match c with
  | GeomTuv _ _ _ _ | GeomIsA _ _ | GeomUniqueId _ _ | GeomSupported _ | GeomIdSupported _ _ _ | GeomCopy => True
  | _ => False
  end ->
  geom_command_ok c -> 0 <= k -> geom_sim (k + 1) r m ->
  wp (geom_exec c r) (fun '(o, r') => o = fst (geom_spec c m) /\ geom_sim k r' (snd (geom_spec c m))).
Proof.
  intros Hc Hok Hk Hsim. pose proof (geom_sim_same k r m Hk Hsim) as Hsame.
  pose proof Hsim as ((bl & Hwf) & Hrep & Hn & Hm).
  destruct c as [| | | |node type id param|node type|node type|node|node type id|]; try done;
    cbn [geom_exec geom_spec fst snd]; clear Hc.
  - apply wp_bind. eapply wp_mono; [by eapply ref_geom_tuv_ok|].
    intros [st param'] [(v & Hv & Hres)|(Hno & -> & ->)]; apply wp_ret; (split; [|done]).
    + apply Hrep in Hv. rewrite Hv. destruct (_ && _); by destruct Hres as [-> ->].
    + destruct (m !! (node, type, id)) as [v|] eqn:Hv; [|done]. apply Hrep in Hv. by destruct (Hno v).
  - apply wp_bind. eapply wp_mono; [by eapply ref_geom_is_a_ok|]. intros [st b] (-> & Hb).
    apply wp_ret. split; [|done]. do 3 f_equal. apply eq_bool_decide. rewrite Hb.
    pose proof (ids_in_spec r bl m node type Hwf Hrep) as Hperm.
    destruct (ids_at_spec r bl node type Hwf) as [_ Hin]. split.
    + intros (g & l & Hat & Hnode & Hty) Hnil. assert (l.[1] ∈ ids_at r node type) as Hi.
      { apply Hin. exists g, l. split; [done|]. unfold geom_key. congruence. }
      rewrite <- Hperm, Hnil in Hi. set_solver.
    + intros Hne. destruct (ids_in m node type) as [|id ids]; [done|].
      assert (id ∈ ids_at r node type) as (g & l & Hat & [= ? ? ?])%Hin by (rewrite <- Hperm; set_solver).
      by exists g, l.
  - rewrite (ref_geom_unique_id_ok _ _ _ _ _ Hwf). cbn [obind].
    pose proof (ids_in_spec r bl m node type Hwf Hrep) as Hperm.
    destruct (ids_at r node type) as [|i [|j ids]] eqn:Hids.
    + apply Permutation_nil_r in Hperm as ->. by apply wp_ret.
    + apply Permutation_singleton_r in Hperm as ->. by apply wp_ret.
    + apply wp_ret. split; [|done]. apply Permutation_length in Hperm.
      by destruct (ids_in m node type) as [|? [|? ?]].
  - apply wp_bind. eapply wp_mono; [by eapply ref_geom_supported_ok|]. intros [st b] (-> & Hb).
    apply wp_ret. split; [|done]. do 3 f_equal. apply eq_true_iff_eq. rewrite Hb, existsb_elem_of. split.
    + intros (g & l & Hat & Hnode). exists (geom_key l, assoc_of r g l). split; [|by apply Z.eqb_eq].
      apply elem_of_map_to_list, Hrep. by exists g, l.
    + intros ([kk v] & Hx & Hnode%Z.eqb_eq). apply elem_of_map_to_list, Hrep in Hx as (g & l & Hat & <- & _).
      by exists g, l.
  - apply wp_bind. eapply wp_mono; [by eapply ref_geom_id_supported_ok|]. intros [st b] (-> & Hb).
    apply wp_ret. split; [|done]. do 3 f_equal. apply eq_true_iff_eq. rewrite Hb.
    destruct (m !! (node, type, id)) as [v|] eqn:Hv.
    + split; [done|]. intros _. apply Hrep in Hv as (g & l & Hat & Hkey & _). by exists g, l.
    + split; [|done]. intros (g & l & Hat & Hkey).
      assert (m !! (node, type, id) = Some (assoc_of r g l)) by (apply Hrep; by exists g, l). congruence.
  - rewrite (ref_geom_deep_copy_ok _ _ Hwf). by apply wp_ret.
Qed.

Lemma geom_exec_sim c r m k :
  geom_command_ok c -> 0 <= k -> geom_sim (k + 1) r m ->
  wp (geom_exec c r) (fun '(o, r') => o = fst (geom_spec c m) /\ geom_sim k r' (snd (geom_spec c m))).
Proof.
  intros Hok Hk Hsim. destruct c; try (by apply geom_read_sim).
  - by apply geom_add_sim.
  - by apply geom_add_with_descr_sim.
  - by apply geom_remove_sim.
  - by apply geom_remove_all_sim.
Qed.

Lemma geom_run_ok (cs : list (geom_command D)) :
  Forall geom_command_ok cs -> zlen cs <= geom_budget ->
  exists r0 r, ref_geom_create = Some (REF_SUCCESS, r0) /\
    run geom_exec cs r0 = Some (fst (spec_run geom_spec cs ∅), r) /\
    (exists bl, geom_wf r bl) /\ geom_represents r (snd (spec_run geom_spec cs ∅)).
Proof.
  intros Hok Hlen. destruct ref_geom_create_ok as ([st r0] & Hcr & -> & Hwf0 & Hn0 & Hm0 & Hno).
  destruct (run_refines geom_exec geom_spec geom_sim geom_command_ok cs r0 ∅) as (r & Hrun & Hwf & Hrep & _).
  - intros c r m k. apply geom_exec_sim.
  - done.
  - split; [done|]. split; [|split; [lia|rewrite Hm0; unfold GEOM_LIMIT; lia]].
    intros kk v. rewrite lookup_empty. split; [done|]. intros Hv. by destruct (Hno kk v).
  - by exists r0, r.
Qed.
End simulation.

(** C25. Any sequence of up to 50,000,000 calls that add, describe, remove or look up
    associations on a fresh [REF_GEOM] is defined (every access is in bounds, every
    loop ends, no [int] overflows) and returns what the same calls return on a
    finite map from (vertex, type, id) to the reference id, the jump, the
    degeneracy and the parameters; the final state stands for the final map. *)
Theorem ref_geom_refines {D : Type} `{Dbl D, Junk Z, Junk REF_ADJ_ITEM, Junk D} (cs : list (geom_command D)) :
  Forall geom_command_ok cs -> zlen cs <= geom_budget ->
  exists r0 r, ref_geom_create = Some (REF_SUCCESS, r0) /\
    run geom_exec cs r0 = Some (fst (spec_run geom_spec cs ∅), r) /\
    (exists bl, geom_wf r bl) /\ geom_represents r (snd (spec_run geom_spec cs ∅)).
Proof. apply geom_run_ok. Qed.

Module GeomExample.
#[local] Instance double : Dbl spec_float := binary64 (fun x => x) (fun x => x).
#[local] Instance junk_double : Junk spec_float := fun _ => S754_nan.
#[local] Instance junk_int : Junk Z := fun k => Z.of_nat k - 7.
#[local] Instance junk_item : Junk REF_ADJ_ITEM := fun _ => inhabitant.

(** Eleven associations, so that the arrays grow. *)
Definition commands : list (geom_command spec_float) :=
  [GeomAdd 3 2 7 [dofZ 1; dofZ 2]; GeomAdd 3 1 5 [dofZ 4]; GeomAdd 3 1 6 [dofZ 8]; GeomAdd 4 0 1 [];
   GeomAdd 5 3 1 [dofZ 1; dofZ 1; dofZ 1]; GeomUniqueId 3 2; GeomUniqueId 3 1; GeomUniqueId 4 1;
   GeomAddWithDescr 2 9 10 0 (-5) 4 [dofZ 6; dofZ 7]; GeomTuv 4 2 9 [dofZ 0; dofZ 0];
   GeomAdd 3 2 7 [dofZ 3; dofZ 9]; GeomTuv 3 2 7 [dofZ 0; dofZ 0]; GeomRemove 3 1 5; GeomUniqueId 3 1;
   GeomAdd 10 0 1 []; GeomAdd 11 0 1 []; GeomAdd 12 0 1 []; GeomAdd 13 0 1 []; GeomAdd 14 0 1 [];
   GeomAdd 15 0 1 []; GeomAdd 16 0 1 []; GeomIsA 16 0; GeomIsA 16 2; GeomRemoveAll 3; GeomSupported 3;
   GeomSupported 4; GeomIdSupported 4 2 9; GeomCopy].

Lemma commands_ok : Forall geom_command_ok commands.
Proof.
  repeat (apply Forall_cons; split;
    [first [exact I | split; [vm_compute; split; congruence|vm_compute; congruence] | vm_compute; congruence]|]).
  apply Forall_nil; exact I.
Qed.
End GeomExample.
#[local] Existing Instances GeomExample.double GeomExample.junk_double GeomExample.junk_int GeomExample.junk_item.

Lemma ref_geom_refines_witness :
  let cs := GeomExample.commands in
  (Forall geom_command_ok cs /\ zlen cs <= geom_budget) /\
  exists r0 r, ref_geom_create = Some (REF_SUCCESS, r0) /\
    run geom_exec cs r0 = Some (fst (spec_run geom_spec cs ∅), r) /\
    (exists bl, geom_wf r bl) /\ geom_represents r (snd (spec_run geom_spec cs ∅)).
Proof.
  split; [split; [exact GeomExample.commands_ok|vm_compute; congruence]|].
  apply (ref_geom_refines GeomExample.commands).
  - exact GeomExample.commands_ok.
  - vm_compute. congruence.
Defined.

(** ** Two calls that go wrong *)

(** The limit of [ref_geom_grow] is a third of the largest [int], but the arrays
    have six integers per record: beyond a sixth the size is not an [int]. *)
Lemma ref_geom_grow_overflow {D : Type} `{Dbl D, Junk Z, Junk REF_ADJ_ITEM, Junk D} (r : REF_GEOM D) :
  geom_blank r = REF_EMPTY -> 143165577 <= geom_max r < 715827882 -> ref_geom_grow r = None.
Proof.
  intros Hb Hm. unfold ref_geom_grow. rewrite Hb. cbn [REF_EMPTY Z.eqb Pos.eqb negb].
  change (Z.quot REF_INT_MAX 3) with 715827882.
  destruct (Z.eqb_spec (geom_max r) 715827882); [lia|]. cbn [negb RAS].
  unfold half_more. rewrite Z.quot_div_nonneg by lia.
  pose proof (Z.mul_div_le (3 * geom_max r) 2). pose proof (Z.mul_succ_div_gt (3 * geom_max r) 2).
  set (h := 3 * geom_max r / 2) in *.
  assert (Hck : forall z, 0 <= z <= REF_INT_MAX -> ck_int z = Some z)
    by (intros z Hz; apply wp_eq, wp_ck_int; [unfold REF_INT_MIN in *; lia|done]).
  unfold REF_INT_MAX in Hck. rewrite (Hck h) by lia. cbn [obind].
  rewrite (Hck (715827882 - geom_max r)) by lia. cbn [obind].
  destruct (Z.ltb_spec 0 (715827882 - geom_max r)); [|lia]. cbn [RAS].
  set (chunk := Z.min (Z.max 1000 h) (715827882 - geom_max r)).
  assert (357913942 <= geom_max r + chunk <= 715827882) by lia.
  rewrite (Hck (geom_max r + chunk)) by lia. cbn [obind].
  rewrite ck_int_overflow; [done|]. unfold REF_GEOM_DESCR_SIZE, REF_INT_MAX, REF_INT_MIN. lia.
Qed.

(** A vertex below 0 is refused by the adjacency, after the record was stored: the
    record stays in use and is not counted. *)
Lemma ref_geom_add_negative_vertex :
  exists r0 r, ref_geom_create = Some (REF_SUCCESS, r0) /\
    ref_geom_add r0 (-1) 0 1 [] = Some (REF_INVALID, r) /\
    geom_n r = 0 /\ geom_at r 0 = Some [0; 1; 1; 0; 0; -1].
Proof. do 2 eexists. split; [vm_compute; reflexivity|]. split; vm_compute; [reflexivity|]. split; reflexivity. Qed.
