(* ===== verification/RefCellSpec.v ===== *)
(** * ref_cell.c: what the elements promise

    A [REF_CELL] is specified as a finite map from elements to their entries: their
    nodes, followed by the id for the types that have one. [cell_step] is the
    specification of one call; a new element may get any unused index. The
    refinement theorem covers every sequence of calls on a fresh [REF_CELL];
    compaction and packing are specified on the map the state stands for. *)
From S2P Require Import Prelude RefSort RefAdj RefDbl RefMpi RefNode RefCellType RefCell.
From stdpp Require Import prelude list gmap.
From Stdlib Require Import ZArith Lia.
Open Scope Z_scope.
Open Scope ref_scope.

(** The calls, and how many of them the theorem covers: elements that fit the
    arrays of [int] subscripts for every type. *)
Inductive cell_command :=
  | CellAdd (nodes : list Z)
  | CellRemove (cell : Z)
  | CellReplaceWhole (cell : Z) (nodes : list Z)
  | CellReplaceNode (old_node new_node : Z)
  | CellNodes (cell : Z)
  | CellCopy.

Definition cell_budget : Z := 10000000.

(** The array argument is long enough and holds node indices. *)
Definition entries_ok (type : REF_CELL_TYPE) (nodes : list Z) : Prop :=
  init_node_per type + (if init_last_node_is_an_id type then 1 else 0) <= zlen nodes /\
  Forall (fun v => 0 <= v <= NODE_LIMIT) (ztake (init_node_per type) nodes).

Definition command_ok (type : REF_CELL_TYPE) (c : cell_command) : Prop :=
  match c with
  | CellAdd nodes | CellReplaceWhole _ nodes => entries_ok type nodes
  | CellReplaceNode _ new_node => 0 <= new_node <= NODE_LIMIT
  | _ => True
  end.

Definition cell_entries (type : REF_CELL_TYPE) (nodes : list Z) : list Z :=
  ztake (size_per (snd (ref_cell_initialize type))) nodes.

(** The output is a status, an element and entries. *)
Definition cell_output : Type := REF_STATUS * Z * list Z.

Section exec.
Context `{Junk Z, Junk REF_ADJ_ITEM}.

Definition cell_exec (c : cell_command) (r : REF_CELL) : option (cell_output * REF_CELL) :=
  match c with
  | CellAdd nodes => let* '(st, (cell, r)) := ref_cell_add r nodes in Some ((st, cell, []), r)
  | CellRemove cell => let* '(st, r) := ref_cell_remove r cell in Some ((st, 0, []), r)
  | CellReplaceWhole cell nodes =>
      let* '(st, r) := ref_cell_replace_whole r cell nodes in Some ((st, 0, []), r)
  | CellReplaceNode old_node new_node =>
      let* '(st, r) := ref_cell_replace_node r old_node new_node in Some ((st, 0, []), r)
  | CellNodes cell =>
      let* '(st, nodes) := ref_cell_nodes r cell (alloc REF_CELL_MAX_SIZE_PER) in
      Some ((st, 0, if bool_decide (st = REF_SUCCESS) then ztake (ref_cell_size_per r) nodes else []), r)
  | CellCopy => let* '(st, r) := ref_cell_deep_copy r in Some ((st, 0, []), r)
  end.
End exec.

Inductive cell_step (type : REF_CELL_TYPE)
    : cell_command -> gmap Z (list Z) -> cell_output -> gmap Z (list Z) -> Prop :=
  | step_add m nodes cell :
      0 <= cell -> m !! cell = None ->
      cell_step type (CellAdd nodes) m (REF_SUCCESS, cell, []) (<[cell := cell_entries type nodes]> m)
  | step_remove m cell entries :
      m !! cell = Some entries ->
      cell_step type (CellRemove cell) m (REF_SUCCESS, 0, []) (delete cell m)
  | step_remove_none m cell :
      m !! cell = None -> cell_step type (CellRemove cell) m (REF_INVALID, 0, []) m
  | step_whole m cell entries nodes :
      m !! cell = Some entries ->
      cell_step type (CellReplaceWhole cell nodes) m (REF_SUCCESS, 0, [])
        (<[cell := cell_entries type nodes]> m)
  | step_whole_none m cell nodes :
      m !! cell = None -> cell_step type (CellReplaceWhole cell nodes) m (REF_FAILURE, 0, []) m
  | step_node m old_node new_node :
      cell_step type (CellReplaceNode old_node new_node) m (REF_SUCCESS, 0, [])
        (renamed (snd (ref_cell_initialize type)) old_node new_node <$> m)
  | step_nodes m cell entries :
      m !! cell = Some entries -> cell_step type (CellNodes cell) m (REF_SUCCESS, 0, entries) m
  | step_nodes_none m cell :
      m !! cell = None -> cell_step type (CellNodes cell) m (REF_INVALID, 0, []) m
  | step_copy m : cell_step type CellCopy m (REF_SUCCESS, 0, []) m.

(** The state stands for the map, and [k] more calls fit. *)
Definition represents (r : REF_CELL) (m : gmap Z (list Z)) : Prop :=
  forall cell, m !! cell = cell_at r cell.

Definition cell_sim (type : REF_CELL_TYPE) (k : Z) (r : REF_CELL) (m : gmap Z (list Z)) : Prop :=
  (exists bl, cell_wf r bl) /\ cell_tables r = snd (ref_cell_initialize type) /\ represents r m /\
  cell_n r + k <= cell_budget /\ cell_max r <= GROW_LIMIT.

(** The map a state stands for. *)
Definition cell_map (r : REF_CELL) : gmap Z (list Z) :=
  list_to_map (map (fun cell => (cell, default [] (cell_at r cell))) (valid_cells r)).

Lemma NoDup_valid_cells r : NoDup (valid_cells r).
Proof. apply NoDup_filter, NoDup_zrange. Qed.

Lemma cell_map_represents r : represents r (cell_map r).
Proof.
  intros cell. unfold cell_map. set (l := map _ _).
  assert (Hnd : NoDup l.*1).
  { unfold l. change (map ?f ?x) with (f <$> x). rewrite <- list_fmap_compose. cbn. rewrite list_fmap_id. apply NoDup_valid_cells. }
  destruct (cell_at r cell) as [e|] eqn:He.
  - apply elem_of_list_to_map_1; [done|]. unfold l. apply list_elem_of_fmap. exists cell. rewrite He.
    split; [done|]. apply elem_of_valid_cells. by rewrite He.
  - apply not_elem_of_list_to_map_1. unfold l. intros ([c e] & -> & (c' & [= -> _] & Hc)%list_elem_of_fmap)%list_elem_of_fmap.
    cbn in *. apply elem_of_valid_cells in Hc as [? ?]. congruence.
Qed.

Lemma represents_unique r m : represents r m -> m = cell_map r.
Proof. intros Hr. apply map_eq. intros c. by rewrite Hr, cell_map_represents. Qed.

Section simulation.
Context `{Junk Z, Junk REF_ADJ_ITEM} (type : REF_CELL_TYPE).
Implicit Types (r : REF_CELL) (m : gmap Z (list Z)).

Lemma cell_n_nonneg r bl : cell_wf r bl -> 0 <= cell_n r.
Proof. intros Hwf. rewrite <- (zlen_valid_cells _ _ Hwf). apply zlen_nonneg. Qed.

Lemma cell_sim_same k r m : 0 <= k -> cell_sim type (k + 1) r m -> cell_sim type k r m.
Proof. intros Hk (? & ? & ? & ? & ?). split; [done|]. split; [done|]. split; [done|]. split; [lia|done]. Qed.

Lemma sim_refs_fit k r m : 0 <= k -> cell_sim type (k + 1) r m ->
  node_per (cell_tables r) * (cell_n r + 1) < REF_INT_MAX /\ refs_fit r.
Proof.
  intros Hk ((bl & Hwf) & _ & _ & Hn & _). pose proof (cell_n_nonneg _ _ Hwf).
  destruct (counts_bounds _ (cell_wf_counts _ _ Hwf)) as (Hb & Hb2 & _).
  unfold refs_fit, cell_budget, REF_INT_MAX in *. nia.
Qed.

(** The state after a call that keeps the frame. *)
Lemma cell_sim_update k r m r' m' bl' :
  0 <= k -> cell_sim type (k + 1) r m -> cell_wf r' bl' -> cell_tables r' = cell_tables r ->
  cell_n r' <= cell_n r + 1 -> cell_max r' <= GROW_LIMIT -> represents r' m' -> cell_sim type k r' m'.
Proof.
  intros Hk (_ & Htb & _ & Hn & _) Hwf' Htb' Hn' Hm' Hrep'. split; [by exists bl'|].
  split; [congruence|]. split; [done|]. split; [lia|done].
Qed.

Lemma represents_insert r r' m cell entries :
  represents r m -> (forall c, cell_at r' c = at_upd (cell_at r) cell (Some entries) c) ->
  represents r' (<[cell := entries]> m).
Proof.
  intros Hrep Hat c. rewrite Hat. unfold at_upd. case Z.eqb_spec; intros Hc.
  - subst. by rewrite lookup_insert_eq.
  - by rewrite lookup_insert_ne by congruence.
Qed.

Lemma represents_delete r r' m cell :
  represents r m -> (forall c, cell_at r' c = at_upd (cell_at r) cell None c) ->
  represents r' (delete cell m).
Proof.
  intros Hrep Hat c. rewrite Hat. unfold at_upd. case Z.eqb_spec; intros Hc.
  - subst. by rewrite lookup_delete_eq.
  - by rewrite lookup_delete_ne by congruence.
Qed.

Lemma entries_ok_tables r nodes :
  cell_tables r = snd (ref_cell_initialize type) -> entries_ok type nodes ->
  size_per (cell_tables r) <= zlen nodes /\
  Forall (fun v => 0 <= v <= NODE_LIMIT) (nodes_of (cell_tables r) nodes).
Proof. intros -> [? ?]. done. Qed.

(** The calls one by one. *)
Lemma sim_add k r m nodes :
  entries_ok type nodes -> 0 <= k -> cell_sim type (k + 1) r m ->
  wp (ref_cell_add r nodes) (fun '(st, (cell, r')) => st = REF_SUCCESS /\ 0 <= cell /\ m !! cell = None /\
    cell_sim type k r' (<[cell := cell_entries type nodes]> m)).
Proof.
  intros Hok Hk Hsim. pose proof Hsim as ((bl & Hwf) & Htb & Hrep & Hn & Hm).
  destruct (entries_ok_tables r nodes Htb Hok) as [Hlen Hnodes].
  destruct (sim_refs_fit k r m Hk Hsim) as [Hfit _].
  eapply wp_mono; [by eapply ref_cell_add_ok|].
  intros [st [cell r']] (-> & Hc & Hnone & (bl' & Hwf') & Htb' & Hn' & Hm' & Hat).
  split; [done|]. split; [done|]. split; [by rewrite Hrep|].
  apply (cell_sim_update k r m r' _ bl'); try done; [lia| |].
  - pose proof (cell_n_nonneg _ _ Hwf). unfold GROW_LIMIT, cell_budget in *.
    destruct Hm' as [->|[Hfull ->]]; [done|]. unfold half_more. rewrite Z.quot_div_nonneg by lia.
    pose proof (Z.mul_div_le (3 * cell_max r) 2). lia.
  - apply (represents_insert r); [done|]. intros c. rewrite Hat, Htb. done.
Qed.

Lemma sim_remove k r m cell :
  cell_sim type k r m ->
  wp (ref_cell_remove r cell) (fun '(st, r') =>
    match m !! cell with
    | Some _ => st = REF_SUCCESS /\ cell_sim type k r' (delete cell m)
    | None => st = REF_INVALID /\ r' = r
    end).
Proof.
  intros ((bl & Hwf) & Htb & Hrep & Hn & Hm). eapply wp_mono; [by eapply ref_cell_remove_ok|].
  intros [st r']. rewrite Hrep. destruct (cell_at r cell) as [l|] eqn:Hl; [|done].
  intros (-> & Hwf' & Htb' & Hn' & Hm' & Hat). split; [done|]. split; [by eexists|]. split; [congruence|].
  split; [by apply (represents_delete r)|]. split; lia.
Qed.

Lemma sim_nodes k r m cell n :
  cell_sim type k r m -> size_per (cell_tables r) <= n ->
  wp (ref_cell_nodes r cell (alloc n)) (fun '(st, nodes) =>
    match m !! cell with
    | Some l => st = REF_SUCCESS /\ zlen nodes = n /\ ztake (size_per (cell_tables r)) nodes = l
    | None => st = REF_INVALID
    end).
Proof.
  intros ((bl & Hwf) & _ & Hrep & _) Hn. destruct (counts_bounds _ (cell_wf_counts _ _ Hwf)) as [? _].
  eapply wp_mono; [eapply ref_cell_nodes_ok; [done|by rewrite zlen_alloc by lia]|].
  intros [st nodes]. rewrite Hrep. destruct (cell_at r cell); [|naive_solver].
  by rewrite zlen_alloc by lia.
Qed.

Lemma sim_replace_node k r m old new :
  0 <= new <= NODE_LIMIT -> 0 <= k -> cell_sim type (k + 1) r m ->
  wp (ref_cell_replace_node r old new) (fun '(st, r') => st = REF_SUCCESS /\
    cell_sim type k r' (renamed (snd (ref_cell_initialize type)) old new <$> m)).
Proof.
  intros Hnew Hk Hsim. pose proof Hsim as ((bl & Hwf) & Htb & Hrep & Hn & Hm).
  destruct (sim_refs_fit k r m Hk Hsim) as [_ Hfit]. eapply wp_mono; [by eapply ref_cell_replace_node_ok|].
  intros [st r'] (-> & Hwf' & (Htb' & Hn' & Hm') & Hat). split; [done|].
  apply (cell_sim_update k r m r' _ bl); try done; [lia|lia|].
  intros c. rewrite lookup_fmap, Hrep, Hat, Htb. done.
Qed.

Lemma cell_exec_simulates k r m c :
  command_ok type c -> 0 <= k -> cell_sim type (k + 1) r m ->
  wp (cell_exec c r) (fun '(o, r') => exists m', cell_step type c m o m' /\ cell_sim type k r' m').
Proof.
  intros Hok Hk Hsim. pose proof Hsim as ((bl & Hwf) & Htb & Hrep & Hn & Hm).
  destruct (sim_refs_fit k r m Hk Hsim) as [_ Hfit].
  pose proof (cell_sim_same k r m Hk Hsim) as Hsame.
  destruct c as [nodes|cell|cell nodes|old new|cell|]; cbn [cell_exec]; apply wp_bind.
  - eapply wp_mono; [by eapply sim_add|]. intros [st [cell r']] (-> & ? & ? & ?). apply wp_ret.
    eexists. by split; [constructor|].
  - eapply wp_mono; [by eapply sim_remove|]. intros [st r'] Hr.
    destruct (m !! cell) as [l|] eqn:Hl; apply wp_ret.
    + destruct Hr as (-> & ?). exists (delete cell m). by split; [econstructor|].
    + destruct Hr as [-> ->]. exists m. by split; [constructor|].
  - destruct (entries_ok_tables r nodes Htb Hok) as [Hlen Hnodes].
    eapply wp_mono; [by eapply ref_cell_replace_whole_ok|]. intros [st r'] Hr.
    destruct (cell_at r cell) as [l|] eqn:Hl; apply wp_ret.
    + destruct Hr as (-> & Hwf' & (Htb' & Hn' & Hm') & Hat). exists (<[cell := cell_entries type nodes]> m).
      split; [econstructor; by rewrite Hrep|].
      apply (cell_sim_update k r m r' _ bl); try done; [lia|lia|apply (represents_insert r); [done|]].
      intros c. rewrite Hat, Htb. done.
    + destruct Hr as [-> ->]. exists m. split; [constructor; by rewrite Hrep|done].
  - eapply wp_mono; [by eapply sim_replace_node|]. intros [st r'] [-> ?]. apply wp_ret.
    eexists. by split; [constructor|].
  - eapply wp_mono; [eapply sim_nodes; [done|apply (cell_wf_counts _ _ Hwf)]|].
    intros [st nodes]. destruct (m !! cell) as [l|] eqn:Hl; intros Hr; apply wp_ret; exists m.
    + destruct Hr as (-> & _ & <-). rewrite bool_decide_eq_true_2 by done. by split; [constructor|].
    + rewrite Hr. rewrite bool_decide_eq_false_2 by done. by split; [constructor|].
  - rewrite (ref_cell_deep_copy_ok _ _ Hwf). apply wp_ret, wp_ret. exists m. split; [constructor|done].
Qed.

Lemma cell_create_sim k :
  0 <= k <= cell_budget ->
  wp (ref_cell_create type) (fun '(st, r) => st = REF_SUCCESS /\ cell_sim type k r ∅).
Proof.
  intros Hk. eapply wp_mono; [apply ref_cell_create_ok|].
  intros [st r] (-> & (bl & Hwf) & Hty & Hn & Hm & Hat). split; [done|].
  split; [by exists bl|]. split; [by rewrite (cw_tables _ _ Hwf), Hty|].
  split; [intros c; by rewrite Hat|]. split; [lia|]. rewrite Hm. unfold GROW_LIMIT. lia.
Qed.
Lemma cell_run_ok (cs : list cell_command) :
  Forall (command_ok type) cs -> zlen cs <= cell_budget ->
  exists r0 os r m, ref_cell_create type = Some (REF_SUCCESS, r0) /\
    run cell_exec cs r0 = Some (os, r) /\ spec_steps (cell_step type) cs ∅ os m /\
    represents r m /\ exists bl, cell_wf r bl.
Proof.
  intros Hok Hlen. pose proof (zlen_nonneg cs).
  destruct (cell_create_sim (zlen cs)) as ([st r0] & Hcr & -> & Hsim); [lia|].
  destruct (run_simulates cell_exec (cell_step type) (cell_sim type) (command_ok type) cs r0 ∅)
    as (os & r & m & Hrun & Hsteps & Hwf & _ & Hrep & _); [|done|done|].
  { intros c r a k. apply cell_exec_simulates. }
  by exists r0, os, r, m.
Qed.
End simulation.

(** C3. Any sequence of up to 10,000,000 insertions, removals, replacements, reads
    and copies on a fresh [REF_CELL] of any type is defined (every access is in
    bounds, every loop ends, no [int] overflows) and does what the same calls do
    on a finite map from elements to their entries; the invariant that ties the
    list of unused elements and the adjacency to the elements holds after it. *)
Theorem ref_cell_refines `{Junk Z, Junk REF_ADJ_ITEM} (type : REF_CELL_TYPE)
    (cs : list cell_command) :
  Forall (command_ok type) cs -> zlen cs <= cell_budget ->
  exists r0 os r m, ref_cell_create type = Some (REF_SUCCESS, r0) /\
    run cell_exec cs r0 = Some (os, r) /\ spec_steps (cell_step type) cs ∅ os m /\
    represents r m /\ exists bl, cell_wf r bl.
Proof. apply cell_run_ok. Qed.

Lemma ref_cell_refines_witness :
  let cs := [CellAdd [0; 1; 2; 10]; CellAdd [1; 2; 3; 11]; CellReplaceNode 2 7; CellNodes 1;
             CellRemove 0; CellReplaceWhole 1 [4; 5; 6; 12]; CellRemove 0; CellAdd [8; 9; 7; 1]; CellCopy] in
  exists r0 os r m, ref_cell_create (H := fun _ => 5) (H0 := fun _ => inhabitant) REF_CELL_TRI =
      Some (REF_SUCCESS, r0) /\
    run (cell_exec (H := fun _ => 5) (H0 := fun _ => inhabitant)) cs r0 = Some (os, r) /\
    spec_steps (cell_step REF_CELL_TRI) cs ∅ os m /\ represents r m /\ exists bl, cell_wf r bl.
Proof.
  apply (ref_cell_refines (H := fun _ => 5) (H0 := fun _ => inhabitant) REF_CELL_TRI).
  - repeat (apply Forall_cons; split;
      [first [exact I | split; [vm_compute; congruence|
         repeat (apply Forall_cons; split; [vm_compute; split; congruence|]); apply Forall_nil; exact I]
       | vm_compute; split; congruence]|]).
    apply Forall_nil; exact I.
  - vm_compute. congruence.
Defined.

(** ** An example

    Three triangles: two share the edge from 1 to 2, and one stands apart. *)
Module CellExample.
#[local] Instance junk_int : Junk Z := fun _ => 5.
#[local] Instance junk_item : Junk REF_ADJ_ITEM := fun _ => inhabitant.

Definition commands : list cell_command :=
  [CellAdd [0; 1; 2; 10]; CellAdd [7; 8; 9; 10]; CellAdd [2; 1; 3; 11]; CellRemove 1; CellAdd [4; 5; 6; 12]].

Definition triangles : REF_CELL :=
  match (let* '(_, r) := ref_cell_create REF_CELL_TRI in run cell_exec commands r) with
  | Some (_, r) => r
  | None => mkREF_CELL (snd (ref_cell_initialize REF_CELL_TRI)) 0 0 0 [] (mkREF_ADJ 0 0 [] [] 0)
  end.

Lemma triangles_wf : exists bl, cell_wf triangles bl.
Proof.
  destruct (cell_run_ok REF_CELL_TRI commands) as (r0 & os & r & m & Hcr & Hrun & _ & _ & Hwf).
  - repeat (apply Forall_cons; split;
      [first [exact I | split; [vm_compute; congruence|
         repeat (apply Forall_cons; split; [vm_compute; split; congruence|]); apply Forall_nil; exact I]]|]).
    apply Forall_nil; exact I.
  - vm_compute. congruence.
  - unfold triangles. rewrite Hcr. cbn [obind]. by rewrite Hrun.
Qed.

Lemma triangles_at :
  map (cell_at triangles) [0; 1; 2; 3] =
  [Some [0; 1; 2; 10]; Some [4; 5; 6; 12]; Some [2; 1; 3; 11]; None].
Proof. vm_compute. reflexivity. Qed.
End CellExample.
