(* ===== verification/RefCellQuery.v ===== *)
(** * ref_cell.c: questions about the elements

    The operations of [REF_CELL] that do not change it: they follow the adjacency
    of a node and look at the elements it lists. Their theorems state the answers
    in terms of the elements of the grid ([cell_at]), without the adjacency. *)
From S2P Require Import Prelude RefSort RefAdj RefDbl RefMpi RefNode RefCellType RefCell RefCellSpec.
From stdpp Require Import prelude list gmap.
From Stdlib Require Import ZArith Lia.
Open Scope Z_scope.
Open Scope ref_scope.

(** [RSS] in the body of a loop; the outputs are [s] when it returns. *)
Definition RSS_exit {T S : Type} (st : REF_STATUS) (s : S)
    (k : option (ctl T (REF_STATUS * S))) : option (ctl T (REF_STATUS * S)) :=
  match st with
  | REF_SUCCESS => k
  | _ => Some (Exit (st, s))
  end.

(** A loop that returns from the function, or ends with the status and outputs
    that [k] gives. *)
Definition after_loop {T S : Type} (c : ctl T (REF_STATUS * S)) (k : T -> REF_STATUS * S)
    : REF_STATUS * S :=
  match c with
  | Next s => k s
  | Exit r => r
  end.

Section ops.
Context `{Junk Z}.
Implicit Types (r : REF_CELL).

(** [nodes[i]] and [nodes[j]] change places. *)
Definition exchange (nodes : list Z) (i j : Z) : option (list Z) :=
  let* temp := aget nodes i in
  let* v := aget nodes j in
  let* nodes := aset nodes i v in
  aset nodes j temp.

Definition ref_cell_orient_node0 (nnode node0 : Z) (nodes : list Z)
    : option (REF_STATUS * list Z) :=
  RAS (4 =? nnode) nodes (
  let* n0 := aget nodes 0 in
  if node0 =? n0 then Some (REF_SUCCESS, nodes)
  else
  let* n1 := aget nodes 1 in
  if node0 =? n1 then
    let* nodes := exchange nodes 0 1 in
    let* nodes := exchange nodes 2 3 in
    Some (REF_SUCCESS, nodes)
  else
  let* n2 := aget nodes 2 in
  if node0 =? n2 then
    let* nodes := exchange nodes 0 2 in
    let* nodes := exchange nodes 3 1 in
    Some (REF_SUCCESS, nodes)
  else
  let* n3 := aget nodes 3 in
  if node0 =? n3 then
    let* nodes := exchange nodes 0 3 in
    let* nodes := exchange nodes 2 1 in
    Some (REF_SUCCESS, nodes)
  else Some (REF_NOT_FOUND, nodes)).

(** The edge of the element joins the two nodes, in either direction. *)
Definition is_side r (node0 node1 cell_edge cell : Z) : option bool :=
  let* e0 := ref_cell_e2n r 0 cell_edge cell in
  let* e1 := ref_cell_e2n r 1 cell_edge cell in
  Some (((node0 =? e0) && (node1 =? e1)) || ((node0 =? e1) && (node1 =? e0))).

Definition ref_cell_has_side r (node0 node1 : Z) : option (REF_STATUS * bool) :=
  let* c :=
    each_ref_cell_having_node r node0 (fun cell (_ : unit) =>
      forx_up 0 (ref_cell_edge_per r) (fun cell_edge (_ : unit) =>
        let* s := is_side r node0 node1 cell_edge cell in
        if s : bool then Some (Exit (REF_SUCCESS, true)) else Some (Next tt)) tt) tt in
  Some (after_loop c (fun _ => (REF_SUCCESS, false))).

Definition ref_cell_side_has_id r (node0 node1 id : Z) : option (REF_STATUS * bool) :=
  if negb (ref_cell_last_node_is_an_id r) then Some (REF_SUCCESS, false)
  else
    let* c :=
      each_ref_cell_having_node r node0 (fun cell (_ : unit) =>
        forx_up 0 (ref_cell_edge_per r) (fun cell_edge (_ : unit) =>
          let* s := is_side r node0 node1 cell_edge cell in
          if s : bool then
            let* i := ref_cell_c2n r (ref_cell_node_per r) cell in
            if id =? i then Some (Exit (REF_SUCCESS, true)) else Some (Next tt)
          else Some (Next tt)) tt) tt in
    Some (after_loop c (fun _ => (REF_SUCCESS, false))).

(** The pair is [*min_id] and [*max_id]. [all_min] and [all_max] are the least and
    greatest value over the processes, which [ref_mpi_min] and [ref_mpi_bcast]
    (and the same for the greatest) ask of the MPI library. *)
Definition ref_cell_id_range (all_min all_max : Z -> Z) r (ref_mpi : option REF_MPI)
    : option (REF_STATUS * (Z * Z)) :=
  RAS (ref_cell_last_node_is_an_id r) (REF_INT_MAX, REF_INT_MIN) (
  let* '(min_id, max_id) :=
    each_ref_cell_valid_cell_with_nodes (cell_max r) (fun _ => r) (fun _ nodes '(min_id, max_id) =>
      let* id := aget nodes (ref_cell_id_index r) in
      Some (Z.min min_id id, Z.max max_id id)) (REF_INT_MAX, REF_INT_MIN) in
  match ref_mpi with
  | Some mpi =>
      if ref_mpi_para mpi then Some (REF_SUCCESS, (all_min min_id, all_max max_id))
      else Some (REF_SUCCESS, (min_id, max_id))
  | None => Some (REF_SUCCESS, (min_id, max_id))
  end).

(** The two canonical lists are the same: [ntarget == ncandidate], and
    [ntarget == same] after the loop that counts the equal entries. *)
Definition same_entries (ntarget : Z) (target : list Z) (ncandidate : Z) (candidate : list Z)
    : option bool :=
  if ntarget =? ncandidate then
    let* same :=
      for_up 0 ntarget (fun node same =>
        let* x := aget target node in
        let* y := aget candidate node in
        Some (if x =? y then same + 1 else same)) 0 in
    Some (ntarget =? same)
  else Some false.

(** The pair is [*cell0] and [*cell1]. *)
Definition ref_cell_with_face r (face_nodes : list Z) : option (REF_STATUS * (Z * Z)) :=
  let* '(st, (ntarget, target)) :=
    ref_sort_unique_int 4 face_nodes (alloc REF_CELL_MAX_SIZE_PER) in
  RSS st (REF_EMPTY, REF_EMPTY) (
  let* face_node0 := aget face_nodes 0 in
  let* c :=
    each_ref_cell_having_node r face_node0 (fun cell s =>
      forx_up 0 (ref_cell_face_per r) (fun cell_face '((cell0, cell1), orig, candidate) =>
        let* orig :=
          for_up 0 4 (fun node orig =>
            let* v := ref_cell_f2n r node cell_face cell in aset orig node v) orig in
        let* '(st, (ncandidate, candidate)) := ref_sort_unique_int 4 orig candidate in
        RSS_exit st (cell0, cell1) (
        let* same := same_entries ntarget target ncandidate candidate in
        if same : bool then
          if REF_EMPTY =? cell0 then Some (Next ((cell, cell1), orig, candidate))
          else if negb (REF_EMPTY =? cell1) then Some (Exit (REF_INVALID, (cell0, cell1)))
          else Some (Next ((cell0, cell), orig, candidate))
        else Some (Next ((cell0, cell1), orig, candidate)))) s)
      ((REF_EMPTY, REF_EMPTY), alloc REF_CELL_MAX_SIZE_PER, alloc REF_CELL_MAX_SIZE_PER) in
  Some (after_loop c (fun '(cells, _, _) => (REF_SUCCESS, cells)))).

(** The integer is [*cell]. *)
Definition ref_cell_with r (nodes : list Z) : option (REF_STATUS * Z) :=
  let* '(st, (ntarget, target)) :=
    ref_sort_unique_int (ref_cell_node_per r) nodes (alloc REF_CELL_MAX_SIZE_PER) in
  RSS st REF_EMPTY (
  let* node0 := aget nodes 0 in
  let* c :=
    each_ref_cell_having_node r node0 (fun ref '(orig, candidate) =>
      let* '(st, orig) := ref_cell_nodes r ref orig in
      RSS_exit st REF_EMPTY (
      let* '(st, (ncandidate, candidate)) :=
        ref_sort_unique_int (ref_cell_node_per r) orig candidate in
      RSS_exit st REF_EMPTY (
      let* same := same_entries ntarget target ncandidate candidate in
      if same : bool then Some (Exit (REF_SUCCESS, ref)) else Some (Next (orig, candidate)))))
      (alloc REF_CELL_MAX_SIZE_PER, alloc REF_CELL_MAX_SIZE_PER) in
  Some (after_loop c (fun _ => (REF_NOT_FOUND, REF_EMPTY)))).

(** One of the four tests: [face] holds the nodes of a side of the tetrahedron. *)
Definition count_tri r (nodes : list Z) (i j k ntri : Z)
    (next : Z -> option (REF_STATUS * Z)) : option (REF_STATUS * Z) :=
  let* face0 := aget nodes i in
  let* face1 := aget nodes j in
  let* face2 := aget nodes k in
  let* '(st, cell) := ref_cell_with r [face0; face1; face2] in
  RXS st REF_NOT_FOUND ntri (next (if negb (REF_EMPTY =? cell) then ntri + 1 else ntri)).

Definition ref_cell_ntri_with_tet_nodes r (nodes : list Z) : option (REF_STATUS * Z) :=
  count_tri r nodes 1 2 3 0 (fun ntri =>
  count_tri r nodes 0 2 3 ntri (fun ntri =>
  count_tri r nodes 0 3 1 ntri (fun ntri =>
  count_tri r nodes 0 1 2 ntri (fun ntri => Some (REF_SUCCESS, ntri))))).

(** The loop of [each_ref_cell_having_node2]. *)
Definition each_ref_cell_having_node2 {T R : Type} r (node0 node1 : Z)
    (body : Z -> T -> option (ctl T R)) (s : T) : option (ctl T R) :=
  each_ref_cell_having_node r node0 (fun cell s =>
    forx_up 0 (ref_cell_node_per r) (fun cell_node s =>
      let* v := ref_cell_c2n r cell_node cell in
      if node1 =? v then body cell s else Some (Next s)) s) s.

Definition ref_cell_degree_with2 r (node0 node1 : Z) : option (REF_STATUS * Z) :=
  let* c :=
    each_ref_cell_having_node2 r node0 node1 (fun _ degree => Some (Next (degree + 1))) 0 in
  Some (after_loop c (fun degree => (REF_SUCCESS, degree))).

(** The pair is [*ncell] and [cell_list]. *)
Definition ref_cell_list_with2 r (node0 node1 max_cell : Z) (cell_list : list Z)
    : option (REF_STATUS * (Z * list Z)) :=
  let* c :=
    each_ref_cell_having_node2 r node0 node1 (fun cell '(ncell, cell_list) =>
      if max_cell <=? ncell then Some (Exit (REF_INCREASE_LIMIT, (ncell, cell_list)))
      else
        let* cell_list := aset cell_list ncell cell in
        Some (Next (ncell + 1, cell_list))) (0, cell_list) in
  Some (after_loop c (fun s => (REF_SUCCESS, s))).

(** The loop of [ref_cell_node_list_around]; the state is [*nnode] and [node_list]. *)
Definition collect_around r (node max_node : Z) (s : Z * list Z)
    : option (ctl (Z * list Z) (REF_STATUS * (Z * list Z))) :=
  each_ref_cell_having_node r node (fun cell s =>
    forx_up 0 (ref_cell_node_per r) (fun cell_node '(nnode, node_list) =>
      let* v := ref_cell_c2n r cell_node cell in
      if node =? v then Some (Next (nnode, node_list))
      else
        let* already_have_it :=
          forx_up 0 nnode (fun haves (_ : unit) =>
            let* x := aget node_list haves in
            if x =? v then Some (Exit tt) else Some (Next tt)) tt in
        match already_have_it with
        | Exit _ => Some (Next (nnode, node_list))
        | Next _ =>
            if max_node <=? nnode then Some (Exit (REF_INCREASE_LIMIT, (nnode, node_list)))
            else
              let* node_list := aset node_list nnode v in
              Some (Next (nnode + 1, node_list))
        end) s) s.

(** The pair is [*nnode] and [node_list]. *)
Definition ref_cell_node_list_around r (node max_node : Z) (node_list : list Z)
    : option (REF_STATUS * (Z * list Z)) :=
  let* c := collect_around r node max_node (0, node_list) in
  Some (after_loop c (fun s => (REF_SUCCESS, s))).

(** The loop that adds the ids around [node] to [ids]. *)
Definition collect_ids r (node max_ids : Z) (s : Z * list Z * list Z)
    : option (ctl (Z * list Z * list Z) (REF_STATUS * (Z * list Z))) :=
  each_ref_cell_having_node r node (fun cell '(n_ids, ids, nodes) =>
    let* '(st, nodes) := ref_cell_nodes r cell nodes in
    RSS_exit st (n_ids, ids) (
    let* id := aget nodes (ref_cell_node_per r) in
    let* already_have_it :=
      for_up 0 n_ids (fun deg already_have_it =>
        let* x := aget ids deg in
        Some (if id =? x then true else already_have_it)) false in
    if negb already_have_it then
      if max_ids <=? n_ids then Some (Exit (REF_INCREASE_LIMIT, (n_ids, ids)))
      else
        let* ids := aset ids n_ids id in
        Some (Next (n_ids + 1, ids, nodes))
    else Some (Next (n_ids, ids, nodes)))) s.

(** The pair is [*n_ids] and [ids]. *)
Definition ref_cell_id_list_around r (node max_ids : Z) (ids : list Z)
    : option (REF_STATUS * (Z * list Z)) :=
  let* c := collect_ids r node max_ids (0, ids, alloc REF_CELL_MAX_SIZE_PER) in
  Some (after_loop c (fun '(n_ids, ids, _) => (REF_SUCCESS, (n_ids, ids)))).

Definition ref_cell_id_list_around_both (ref_cell_a ref_cell_b : REF_CELL) (node max_ids : Z)
    (ids : list Z) : option (REF_STATUS * (Z * list Z)) :=
  let* c := collect_ids ref_cell_a node max_ids (0, ids, alloc REF_CELL_MAX_SIZE_PER) in
  match c with
  | Exit x => Some x
  | Next s =>
      let* c := collect_ids ref_cell_b node max_ids s in
      Some (after_loop c (fun '(n_ids, ids, _) => (REF_SUCCESS, (n_ids, ids))))
  end.
End ops.

(** ** Reading elements *)

Section reads.
Context (r : REF_CELL) (bl : list Z) (Hwf : cell_wf r bl).

Lemma having_node {T R} node (body : Z -> T -> option (ctl T R)) s :
  each_ref_cell_having_node r node body s = forl (adj_refs (cell_adj r) node) body s.
Proof using Hwf. apply each_ref_adj_refs, Hwf. Qed.

Lemma having_cell node cell :
  cell ∈ adj_refs (cell_adj r) node ->
  exists entries, cell_at r cell = Some entries /\ zlen entries = ref_cell_size_per r /\
    node ∈ nodes_of (cell_tables r) entries.
Proof using Hwf.
  intros (entries & Hat & Hin)%(elem_of_adj_refs _ _ _ _ Hwf). exists entries.
  split; [done|]. split; [by eapply zlen_entries|done].
Qed.

Lemma ref_cell_c2n_ok cell entries node :
  cell_at r cell = Some entries -> 0 <= node < ref_cell_size_per r ->
  ref_cell_c2n r node cell = Some entries.[node].
Proof using Hwf.
  intros (Hc & _ & ->)%cell_at_Some Hn. apply wp_eq.
  apply (wp_get_c2n _ _ (cell_wf_counts _ _ Hwf) (cw_size _ _ Hwf)); [apply Hwf|done|done|].
  by rewrite aat_c2n_row.
Qed.

(** The tables refer to the nodes of the element. *)
Lemma tables_ok :
  zlen (cell_e2n (cell_tables r)) = 2 * ref_cell_edge_per r /\
  Forall (fun k => 0 <= k < ref_cell_node_per r) (cell_e2n (cell_tables r)) /\
  zlen (cell_f2n (cell_tables r)) = 4 * ref_cell_face_per r /\
  Forall (fun k => 0 <= k < ref_cell_node_per r) (cell_f2n (cell_tables r)).
Proof using Hwf.
  unfold ref_cell_edge_per, ref_cell_face_per, ref_cell_node_per. rewrite (cw_tables _ _ Hwf).
  generalize (cell_type (cell_tables r)). intros type.
  assert (Hb : bool_decide (zlen (init_e2n type) = 2 * init_edge_per type) &&
    bool_decide (Forall (fun k => 0 <= k < init_node_per type) (init_e2n type)) &&
    bool_decide (zlen (init_f2n type) = 4 * init_face_per type) &&
    bool_decide (Forall (fun k => 0 <= k < init_node_per type) (init_f2n type)) = true)
    by (destruct type; vm_compute; done).
  rewrite !andb_true_iff, !bool_decide_eq_true in Hb. tauto.
Qed.

Lemma edge_per_nonneg : 0 <= ref_cell_edge_per r.
Proof using Hwf. destruct tables_ok as [Hl _]. pose proof (zlen_nonneg (cell_e2n (cell_tables r))). lia. Qed.
Lemma face_per_nonneg : 0 <= ref_cell_face_per r.
Proof using Hwf. destruct tables_ok as (_ & _ & Hl & _). pose proof (zlen_nonneg (cell_f2n (cell_tables r))). lia. Qed.

Lemma node_per_bounds : 2 <= ref_cell_node_per r <= ref_cell_size_per r /\ ref_cell_size_per r <= 27.
Proof using Hwf. destruct (counts_bounds _ (cell_wf_counts _ _ Hwf)) as (? & ? & _). done. Qed.

(** The node of an element at an entry of its table of edges, or faces. *)
Definition edge_node (entries : list Z) (node edge : Z) : Z :=
  entries.[(cell_e2n (cell_tables r)).[node + 2 * edge]].
Definition face_node (entries : list Z) (node face : Z) : Z :=
  entries.[(cell_f2n (cell_tables r)).[node + 4 * face]].

Lemma ref_cell_e2n_ok cell entries node edge :
  cell_at r cell = Some entries -> 0 <= node < 2 -> 0 <= edge < ref_cell_edge_per r ->
  ref_cell_e2n r node edge cell = Some (edge_node entries node edge).
Proof using Hwf.
  intros Hat Hn He. destruct tables_ok as (Hl & Hf & _). destruct node_per_bounds as [Hb _].
  unfold ref_cell_e2n, ref_cell_e2n_gen. rewrite aget_aat by lia. cbn [obind].
  apply ref_cell_c2n_ok; [done|]. rewrite Forall_forall in Hf.
  specialize (Hf (cell_e2n (cell_tables r)).[node + 2 * edge]).
  enough (0 <= (cell_e2n (cell_tables r)).[node + 2 * edge] < ref_cell_node_per r) by lia.
  apply Hf, elem_of_aat. eexists. split; [|done]. lia.
Qed.

Lemma ref_cell_f2n_ok cell entries node face :
  cell_at r cell = Some entries -> 0 <= node < 4 -> 0 <= face < ref_cell_face_per r ->
  ref_cell_f2n r node face cell = Some (face_node entries node face).
Proof using Hwf.
  intros Hat Hn He. destruct tables_ok as (_ & _ & Hl & Hf). destruct node_per_bounds as [Hb _].
  unfold ref_cell_f2n, ref_cell_f2n_gen. rewrite aget_aat by lia. cbn [obind].
  apply ref_cell_c2n_ok; [done|]. rewrite Forall_forall in Hf.
  enough (0 <= (cell_f2n (cell_tables r)).[node + 4 * face] < ref_cell_node_per r) by lia.
  apply Hf, elem_of_aat. eexists. split; [|done]. lia.
Qed.

(** The nodes on edges are nodes of the element. *)
Lemma edge_node_in cell entries node edge :
  cell_at r cell = Some entries -> 0 <= node < 2 -> 0 <= edge < ref_cell_edge_per r ->
  edge_node entries node edge ∈ nodes_of (cell_tables r) entries.
Proof using Hwf.
  intros Hat Hn He. destruct tables_ok as (Hl & Hf & _). destruct node_per_bounds as [Hb _].
  pose proof (zlen_entries _ _ _ _ Hwf Hat) as Hlen. unfold nodes_of.
  unfold ref_cell_node_per, ref_cell_size_per in *.
  apply elem_of_ztake; [lia|]. eexists. split; [|done]. rewrite Forall_forall in Hf.
  apply Hf, elem_of_aat. eexists. split; [|done]. lia.
Qed.

(** ** Edges *)

(** [node0] and [node1] are the ends of an edge of the element. *)
Definition has_edge_between (entries : list Z) (node0 node1 : Z) : bool :=
  existsb (fun edge =>
    ((node0 =? edge_node entries 0 edge) && (node1 =? edge_node entries 1 edge)) ||
    ((node0 =? edge_node entries 1 edge) && (node1 =? edge_node entries 0 edge)))
    (zrange (ref_cell_edge_per r)).

Lemma is_side_ok cell entries node0 node1 edge :
  cell_at r cell = Some entries -> 0 <= edge < ref_cell_edge_per r ->
  is_side r node0 node1 edge cell =
  Some (((node0 =? edge_node entries 0 edge) && (node1 =? edge_node entries 1 edge)) ||
        ((node0 =? edge_node entries 1 edge) && (node1 =? edge_node entries 0 edge))).
Proof using Hwf.
  intros Hat He. unfold is_side.
  rewrite (ref_cell_e2n_ok cell entries 0 edge), (ref_cell_e2n_ok cell entries 1 edge) by (done || lia).
  done.
Qed.

Lemma has_edge_node entries cell node0 node1 :
  cell_at r cell = Some entries -> has_edge_between entries node0 node1 = true ->
  node0 ∈ nodes_of (cell_tables r) entries.
Proof using Hwf.
  intros Hat (edge & He%elem_of_zrange & Ht)%existsb_elem_of.
  rewrite orb_true_iff, !andb_true_iff, !Z.eqb_eq in Ht.
  destruct Ht as [[-> _]|[-> _]]; eapply edge_node_in; (done || lia).
Qed.

(** [ref_cell_has_side] finds out whether some element has the edge. *)
Lemma ref_cell_has_side_ok node0 node1 :
  exists has, ref_cell_has_side r node0 node1 = Some (REF_SUCCESS, has) /\
    (has = true <-> exists cell entries,
       cell_at r cell = Some entries /\ has_edge_between entries node0 node1 = true).
Proof using Hwf.
  unfold ref_cell_has_side. rewrite having_node.
  rewrite (forl_search _ (fun cell => match cell_at r cell with
    | Some entries => has_edge_between entries node0 node1 | None => false end) (REF_SUCCESS, true)).
  - cbn [obind]. exists (existsb (fun cell => match cell_at r cell with
      | Some entries => has_edge_between entries node0 node1 | None => false end)
      (adj_refs (cell_adj r) node0)).
    split; [by destruct (existsb _ _)|]. rewrite existsb_elem_of. split.
    + intros (cell & Hin & He). destruct (cell_at r cell) as [entries|] eqn:Hat; [|done].
      by exists cell, entries.
    + intros (cell & entries & Hat & Hedge). exists cell. rewrite Hat. split; [|done].
      apply (elem_of_adj_refs _ _ _ _ Hwf). exists entries. split; [done|]. by eapply has_edge_node.
  - intros cell Hin. destruct (having_cell _ _ Hin) as (entries & Hat & _). rewrite Hat.
    apply forx_search. intros edge He. rewrite (is_side_ok cell entries) by done. cbn [obind]. by destruct (_ || _).
Qed.

(** ** Elements with two nodes *)

(** The elements with both nodes, as often as the loop meets them. *)
Definition cells_with2 (node0 node1 : Z) : list Z :=
  concat (map (fun cell =>
    match cell_at r cell with
    | Some entries =>
        map (fun _ => cell) (filter (fun v => node1 = v) (nodes_of (cell_tables r) entries))
    | None => []
    end) (adj_refs (cell_adj r) node0)).

Lemma having_node2 {T R} node0 node1 (body : Z -> T -> option (ctl T R)) s :
  each_ref_cell_having_node2 r node0 node1 body s = forl (cells_with2 node0 node1) body s.
Proof using Hwf.
  unfold each_ref_cell_having_node2. rewrite having_node. unfold cells_with2.
  rewrite <- forl_concat. apply forl_ext. intros cell s' Hin.
  destruct (having_cell _ _ Hin) as (entries & Hat & Hlen & _). rewrite Hat. destruct node_per_bounds as [Hb _].
  rewrite forl_map, <- forl_filter. unfold nodes_of. fold (ref_cell_node_per r).
  rewrite <- (map_aat_zrange entries) by lia. rewrite forl_map, <- forx_forl.
  rewrite !forx_forl. apply forl_ext. intros i s'' Hi%elem_of_zrange.
  rewrite (ref_cell_c2n_ok cell entries) by (done || lia). cbn [obind].
  destruct (Z.eqb_spec node1 entries.[i]); [by rewrite bool_decide_eq_true_2|by rewrite bool_decide_eq_false_2].
Qed.

Lemma elem_of_cells_with2 node0 node1 cell :
  cell ∈ cells_with2 node0 node1 <-> exists entries, cell_at r cell = Some entries /\
    node0 ∈ nodes_of (cell_tables r) entries /\ node1 ∈ nodes_of (cell_tables r) entries.
Proof using Hwf.
  unfold cells_with2. rewrite list_elem_of_In, in_concat. setoid_rewrite in_map_iff.
  setoid_rewrite <- list_elem_of_In. split.
  - intros (l & (c & <- & Hc) & Hin). apply (elem_of_adj_refs _ _ _ _ Hwf) in Hc as (entries & Hat & Hn0).
    rewrite Hat in Hin. apply list_elem_of_fmap in Hin as (v & -> & Hv).
    apply list_elem_of_filter in Hv as [-> Hv]. by exists entries.
  - intros (entries & Hat & Hn0 & Hn1). eexists. split.
    + exists cell. split; [reflexivity|]. apply (elem_of_adj_refs _ _ _ _ Hwf). by exists entries.
    + rewrite Hat. apply list_elem_of_fmap. exists node1. split; [done|]. by apply list_elem_of_filter.
Qed.

Lemma ref_cell_degree_with2_ok node0 node1 :
  ref_cell_degree_with2 r node0 node1 = Some (REF_SUCCESS, zlen (cells_with2 node0 node1)).
Proof using Hwf.
  unfold ref_cell_degree_with2. rewrite having_node2.
  assert (Hl : forall l d, forl l (fun (_ : Z) degree => Some (Next (degree + 1))) d =
    Some (@Next _ (REF_STATUS * Z) (d + zlen l))).
  { induction l as [|x l IH]; intros d; cbn; [by rewrite Z.add_0_r|]. rewrite IH, zlen_cons. do 2 f_equal. lia. }
  by rewrite Hl.
Qed.

Lemma ref_cell_list_with2_ok node0 node1 max_cell cell_list :
  0 <= max_cell <= zlen cell_list ->
  wp (ref_cell_list_with2 r node0 node1 max_cell cell_list) (fun '(st, (ncell, cells)) =>
    zlen cells = zlen cell_list /\
    if zlen (cells_with2 node0 node1) <=? max_cell then
      st = REF_SUCCESS /\ ncell = zlen (cells_with2 node0 node1) /\
      ztake ncell cells = cells_with2 node0 node1
    else st = REF_INCREASE_LIMIT /\ ncell = max_cell /\
      ztake ncell cells = ztake max_cell (cells_with2 node0 node1)).
Proof using Hwf.
  intros Hmax. unfold ref_cell_list_with2. rewrite having_node2. set (l := cells_with2 node0 node1).
  apply wp_bind.
  apply (wp_forl (fun pre '(n, cells) => zlen cells = zlen cell_list /\ n = zlen pre /\ n <= max_cell /\
      ztake n cells = pre)
    (fun '(st, (n, cells)) => zlen cells = zlen cell_list /\ max_cell < zlen l /\
      st = REF_INCREASE_LIMIT /\ n = max_cell /\ ztake n cells = ztake max_cell l)).
  - split; [done|]. split; [done|]. split; [lia|done].
  - intros pre x post [n cells] Hl (Hlen & Hn & Hle & Ht). case Z.leb_spec; intros Hcmp; apply wp_ret || apply wp_bind.
    + cbn. split; [done|]. pose proof (zlen_nonneg post). rewrite Hl, zlen_app, zlen_cons. split; [lia|].
      split; [done|]. split; [lia|]. assert (n = max_cell) as -> by lia.
      rewrite Ht. unfold ztake. rewrite Hn. rewrite take_app_length'; [done|]. unfold zlen. lia.
    + apply wp_aset; [pose proof (zlen_nonneg pre); lia|]. apply wp_ret. cbn.
      rewrite zlen_upd, zlen_app, zlen_cons. change (zlen (@nil Z)) with 0.
      split; [done|]. split; [lia|]. split; [lia|]. rewrite ztake_S_upd by (pose proof (zlen_nonneg pre); lia).
      by rewrite Ht.
  - intros [n cells] (Hlen & -> & Hle & Ht). apply wp_ret. cbn. split; [done|].
    destruct (Z.leb_spec (zlen l) max_cell); [done|lia].
  - intros [st [n cells]] (Hlen & Hlt & -> & -> & Ht). apply wp_ret. cbn. split; [done|].
    destruct (Z.leb_spec (zlen l) max_cell); [lia|done].
Qed.

(** ** Neighbours *)

(** [v] shares an element with [node]. *)
Definition neighbour (node v : Z) : Prop :=
  v <> node /\ exists cell entries, cell_at r cell = Some entries /\
    node ∈ nodes_of (cell_tables r) entries /\ v ∈ nodes_of (cell_tables r) entries.

(** What the list holds when the elements [pre] have been done and [seen] nodes of
    the next. *)
Definition around_inv (node max_node : Z) (node_list : list Z) (pre : list Z) (seen : list Z)
    (s : Z * list Z) : Prop :=
  let '(nnode, list) := s in
  zlen list = zlen node_list /\ 0 <= nnode <= max_node /\ NoDup (ztake nnode list) /\
  (forall v, v ∈ ztake nnode list -> neighbour node v) /\
  (forall v, v <> node -> v ∈ seen -> v ∈ ztake nnode list) /\
  (forall cell entries v, cell ∈ pre -> cell_at r cell = Some entries -> v <> node ->
     v ∈ nodes_of (cell_tables r) entries -> v ∈ ztake nnode list).

(** The test of [node_list_around] for one node. *)
Lemma already_have_it_ok nnode (list : list Z) v :
  0 <= nnode <= zlen list ->
  forx_up 0 nnode (fun haves (_ : unit) =>
    let* x := aget list haves in if x =? v then Some (Exit tt) else Some (Next tt)) tt =
  Some (if bool_decide (v ∈ ztake nnode list) then Exit tt else Next tt).
Proof using.
  intros Hn. rewrite (forx_search nnode (fun i => list.[i] =? v) tt).
  - f_equal. rewrite (eq_bool_decide (existsb _ _) (v ∈ ztake nnode list)); [done|].
    rewrite existsb_elem_of, elem_of_ztake by lia. setoid_rewrite elem_of_zrange.
    split; intros (i & Hi & He); exists i; (split; [done|]); by apply Z.eqb_eq.
  - intros i Hi. rewrite aget_aat by lia. cbn. by case Z.eqb_spec.
Qed.

(** The statuses and the list, for the caller. *)
Definition around_post (node max_node : Z) (x : REF_STATUS * (Z * list Z)) : Prop :=
  let '(st, (nnode, list)) := x in
  max_node <= zlen list /\ 0 <= nnode <= max_node /\ NoDup (ztake nnode list) /\
  (st = REF_SUCCESS /\ (forall v, v ∈ ztake nnode list <-> neighbour node v) \/
   st = REF_INCREASE_LIMIT /\ nnode = max_node /\ (forall v, v ∈ ztake nnode list -> neighbour node v) /\
     exists v, neighbour node v /\ v ∉ ztake nnode list).

Lemma ref_cell_node_list_around_ok node max_node node_list :
  0 <= max_node <= zlen node_list ->
  wp (ref_cell_node_list_around r node max_node node_list) (around_post node max_node).
Proof using Hwf.
  intros Hmax. unfold ref_cell_node_list_around, collect_around. rewrite having_node. apply wp_bind.
  destruct node_per_bounds as [Hb _].
  apply (wp_forl (fun pre => around_inv node max_node node_list pre []) (around_post node max_node)).
  - split; [done|]. split; [lia|]. split; [apply NoDup_nil_2|]. split; [set_solver|]. split; set_solver.
  - intros pre cell post s Hl Hinv.
    assert (Hin : cell ∈ adj_refs (cell_adj r) node) by (rewrite Hl; set_solver).
    destruct (having_cell _ _ Hin) as (entries & Hat & Hlen & Hnode).
    assert (Hnl : nodes_of (cell_tables r) entries = ztake (ref_cell_node_per r) entries) by done.
    apply (wp_forx_up (fun i => around_inv node max_node node_list pre (ztake i entries)) (around_post node max_node));
      [lia|done| | |done].
    + intros i [nnode list] Hi (Hll & Hn & Hnd & Hsub & Hseen & Hpre).
      assert (Hvin : entries.[i] ∈ nodes_of (cell_tables r) entries)
        by (rewrite Hnl; apply elem_of_ztake; [lia|]; by exists i).
      rewrite (ref_cell_c2n_ok cell entries) by (done || lia). cbn [obind].
      assert (Hstep : forall k, (entries.[i] = node \/ entries.[i] ∈ ztake nnode list) -> k = nnode ->
        around_inv node max_node node_list pre (ztake (i + 1) entries) (k, list)).
      { intros k Hor ->. split; [done|]. split; [lia|]. split; [done|]. split; [done|]. split; [|done].
        rewrite ztake_S by lia. set_solver. }
      case Z.eqb_spec; intros Hv; [apply wp_ret, Hstep; auto|].
      rewrite already_have_it_ok by lia. cbn [obind]. case_bool_decide as Hhave.
      { apply wp_ret, Hstep; auto. }
      assert (Hnb : neighbour node entries.[i]) by (split; [congruence|by exists cell, entries]).
      case Z.leb_spec; intros Hcmp.
      * apply wp_ret. cbn. split; [lia|]. split; [lia|]. split; [done|]. right. split; [done|]. split; [lia|].
        split; [done|]. by exists entries.[i].
      * apply wp_bind, wp_aset; [lia|]. apply wp_ret. cbn [ctl_post around_inv].
        rewrite zlen_upd, ztake_S_upd by lia. split; [done|]. split; [lia|].
        split; [apply NoDup_app; split; [done|split; [set_solver|apply NoDup_singleton]]|].
        split; [set_solver|]. split; [rewrite ztake_S by lia; set_solver|].
        intros c e v Hc He Hvn Hve. apply elem_of_app. left. by eapply Hpre.
    + intros [nnode list] (Hll & Hn & Hnd & Hsub & Hseen & Hpre). cbn.
      split; [done|]. split; [done|]. split; [done|]. split; [done|]. split; [set_solver|].
      intros c e v [Hc| ->%list_elem_of_singleton]%elem_of_app He Hvn Hve; [by eapply Hpre|].
      rewrite Hat in He. injection He as <-. by apply Hseen.
  - intros [nnode list] (Hll & Hn & Hnd & Hsub & Hseen & Hpre). apply wp_ret. cbn.
    split; [lia|]. split; [done|]. split; [done|]. left. split; [done|]. intros v. split; [apply Hsub|].
    intros (Hvn & cell & entries & Hat & Hnode & Hv). eapply Hpre; [|done..].
    apply (elem_of_adj_refs _ _ _ _ Hwf). by exists entries.
  - intros [st [nnode list]] Hpost. by apply wp_ret.
Qed.

(** ** Elements with given nodes *)

Lemma same_entries_ok ntarget target ncandidate candidate :
  0 <= ntarget <= zlen target -> 0 <= ncandidate <= zlen candidate ->
  same_entries ntarget target ncandidate candidate =
  Some (bool_decide (ztake ntarget target = ztake ncandidate candidate)).
Proof using.
  intros Ht Hc. apply wp_eq. unfold same_entries. case Z.eqb_spec; intros Hn.
  - subst ncandidate. apply wp_bind.
    apply (wp_for_up (fun i same => 0 <= same <= i /\
      (same = i <-> forall k, 0 <= k < i -> target.[k] = candidate.[k]))); [lia| | |].
    + split; [lia|]. split; [lia|done].
    + intros i same Hi (Hs & Hiff). do 2 (apply wp_bind, wp_aget; [lia|]). apply wp_ret.
      case Z.eqb_spec; intros Hx.
      * split; [lia|]. split.
        { intros He k Hk. destruct (decide (k = i)) as [->|]; [done|]. apply Hiff; lia. }
        { intros Hall. assert (same = i) by (apply Hiff; intros; apply Hall; lia). lia. }
      * split; [lia|]. split; [lia|]. intros Hall. exfalso. apply Hx, Hall. lia.
    + intros same (Hs & Hiff). apply wp_ret. f_equal. case Z.eqb_spec; intros Heq; symmetry.
      * apply bool_decide_eq_true_2. apply arr_ext; rewrite !zlen_ztake by lia; [done|].
        intros k Hk. rewrite !aat_ztake by lia. apply Hiff; lia.
      * apply bool_decide_eq_false_2. intros Heqt. apply Heq. symmetry. apply Hiff. intros k Hk.
        rewrite <- (aat_ztake ntarget target), Heqt, aat_ztake by lia. done.
  - apply wp_ret. symmetry. apply bool_decide_eq_false_2. intros He.
    apply (f_equal zlen) in He. rewrite !zlen_ztake in He by lia. done.
Qed.

(** The element has the same set of nodes as the array. *)
Definition same_nodes (entries nodes : list Z) : Prop :=
  forall v, v ∈ nodes_of (cell_tables r) entries <-> v ∈ nodes_of (cell_tables r) nodes.

Lemma ref_cell_with_ok `{Junk Z} nodes :
  ref_cell_node_per r <= zlen nodes ->
  wp (ref_cell_with r nodes) (fun '(st, cell) =>
    st = REF_SUCCESS /\ (exists entries, cell_at r cell = Some entries /\ same_nodes entries nodes) \/
    st = REF_NOT_FOUND /\ cell = REF_EMPTY /\
      forall c entries, cell_at r c = Some entries -> ~ same_nodes entries nodes).
Proof using Hwf.
  intros Hlen. destruct node_per_bounds as [Hb Hb2]. unfold ref_cell_with.
  assert (H27 : zlen (alloc (A := Z) REF_CELL_MAX_SIZE_PER) = 27) by (apply zlen_alloc; unfold REF_CELL_MAX_SIZE_PER; lia).
  apply wp_bind. eapply wp_mono; [apply ref_sort_unique_int_ok; lia|].
  intros [st [ntarget target]] (-> & Htl & Hnt & Ht). cbn [RSS].
  apply wp_bind, wp_aget; [lia|]. rewrite having_node.
  assert (Hsame : forall entries, same_nodes entries nodes <->
    canonical (nodes_of (cell_tables r) entries) = canonical (nodes_of (cell_tables r) nodes))
    by (intros; symmetry; apply canonical_eq).
  apply wp_bind. apply (wp_forl (fun pre '(orig, candidate) => zlen orig = 27 /\ zlen candidate = 27 /\
      forall c entries, c ∈ pre -> cell_at r c = Some entries -> ~ same_nodes entries nodes)
    (fun '(st, cell) => st = REF_SUCCESS /\
      exists entries, cell_at r cell = Some entries /\ same_nodes entries nodes)).
  - split; [done|]. split; [done|]. set_solver.
  - intros pre c post [orig candidate] Hl (Ho & Hcl & Hpre).
    assert (Hin : c ∈ adj_refs (cell_adj r) nodes.[0]) by (rewrite Hl; set_solver).
    destruct (having_cell _ _ Hin) as (entries & Hat & Hel & _).
    apply wp_bind. eapply wp_mono; [apply (ref_cell_nodes_ok r bl c orig Hwf); fold (ref_cell_size_per r); lia|].
    intros [st orig'] Hnodes. rewrite Hat in Hnodes. destruct Hnodes as (-> & Hol & Hent). cbn [RSS_exit].
    apply wp_bind. eapply wp_mono; [apply ref_sort_unique_int_ok; lia|].
    intros [st [ncandidate candidate']] (-> & Hcl' & Hnc & Hc). cbn [RSS_exit].
    rewrite same_entries_ok by lia. cbn [obind].
    assert (Hcan : ztake (ref_cell_node_per r) orig' = nodes_of (cell_tables r) entries).
    { rewrite <- Hent. symmetry. apply (nodes_of_prefix _ _ (cell_wf_counts _ _ Hwf)). }
    rewrite Ht, Hc, Hcan. case_bool_decide as Heq; apply wp_ret; cbn.
    + split; [done|]. exists entries. split; [done|]. by apply Hsame.
    + split; [lia|]. split; [lia|]. intros c' e [Hc'| ->%list_elem_of_singleton]%elem_of_app He; [by apply Hpre with c'|].
      rewrite Hat in He. injection He as <-. intros Hs%Hsame. by apply Heq.
  - intros [orig candidate] (_ & _ & Hall). apply wp_ret. cbn. right. split; [done|]. split; [done|].
    intros c entries Hat Hs. apply (Hall c entries); [|done|done].
    apply (elem_of_adj_refs _ _ _ _ Hwf). exists entries. split; [done|]. apply Hs.
    unfold nodes_of. fold (ref_cell_node_per r). apply elem_of_ztake; [lia|]. exists 0. split; [lia|done].
  - intros [st cell] Hpost. apply wp_ret. by left.
Qed.
End reads.

(** ** Properties *)

(** C22. [ref_cell_with] finds an element with the same set of nodes as the array,
    in whatever order and with whatever repetitions, exactly when there is one;
    otherwise it returns [REF_NOT_FOUND] and [REF_EMPTY]. *)
Theorem ref_cell_with_finds `{Junk Z} (r : REF_CELL) (bl nodes : list Z) :
  cell_wf r bl -> ref_cell_node_per r <= zlen nodes ->
  exists st cell, ref_cell_with r nodes = Some (st, cell) /\
    (st = REF_SUCCESS /\ (exists entries, cell_at r cell = Some entries /\ same_nodes r entries nodes) \/
     st = REF_NOT_FOUND /\ cell = REF_EMPTY /\
       forall c entries, cell_at r c = Some entries -> ~ same_nodes r entries nodes).
Proof.
  intros Hwf Hlen. destruct (ref_cell_with_ok r bl Hwf nodes Hlen) as ([st cell] & Hr & Hpost).
  by exists st, cell.
Qed.

Lemma ref_cell_with_finds_witness :
  ref_cell_with (H := fun _ => 6) CellExample.triangles [3; 2; 1] = Some (REF_SUCCESS, 2) /\
  exists st cell, ref_cell_with (H := fun _ => 6) CellExample.triangles [3; 2; 1] = Some (st, cell) /\
    (st = REF_SUCCESS /\ (exists entries, cell_at CellExample.triangles cell = Some entries /\
       same_nodes CellExample.triangles entries [3; 2; 1]) \/
     st = REF_NOT_FOUND /\ cell = REF_EMPTY /\
       forall c entries, cell_at CellExample.triangles c = Some entries ->
         ~ same_nodes CellExample.triangles entries [3; 2; 1]).
Proof.
  split; [vm_compute; reflexivity|]. destruct CellExample.triangles_wf as [bl Hwf].
  apply (ref_cell_with_finds (H := fun _ => 6) CellExample.triangles bl [3; 2; 1] Hwf).
  vm_compute. congruence.
Defined.

(** C24. [ref_cell_has_side] finds out whether some element has an edge between the
    two nodes, in either direction. *)
Theorem ref_cell_has_side_iff (r : REF_CELL) (bl : list Z) (node0 node1 : Z) :
  cell_wf r bl ->
  exists has, ref_cell_has_side r node0 node1 = Some (REF_SUCCESS, has) /\
    (has = true <-> exists cell entries edge, cell_at r cell = Some entries /\
       0 <= edge < ref_cell_edge_per r /\
       (node0 = edge_node r entries 0 edge /\ node1 = edge_node r entries 1 edge \/
        node0 = edge_node r entries 1 edge /\ node1 = edge_node r entries 0 edge)).
Proof.
  intros Hwf. destruct (ref_cell_has_side_ok r bl Hwf node0 node1) as (has & Hr & Hiff).
  exists has. split; [done|]. rewrite Hiff. unfold has_edge_between. setoid_rewrite existsb_elem_of.
  setoid_rewrite elem_of_zrange. setoid_rewrite orb_true_iff. setoid_rewrite andb_true_iff.
  setoid_rewrite Z.eqb_eq. naive_solver.
Qed.

Lemma ref_cell_has_side_iff_witness :
  ref_cell_has_side CellExample.triangles 3 1 = Some (REF_SUCCESS, true) /\
  exists has, ref_cell_has_side CellExample.triangles 3 1 = Some (REF_SUCCESS, has) /\
    (has = true <-> exists cell entries edge, cell_at CellExample.triangles cell = Some entries /\
       0 <= edge < 3 /\
       (3 = edge_node CellExample.triangles entries 0 edge /\ 1 = edge_node CellExample.triangles entries 1 edge \/
        3 = edge_node CellExample.triangles entries 1 edge /\ 1 = edge_node CellExample.triangles entries 0 edge)).
Proof.
  split; [vm_compute; reflexivity|]. destruct CellExample.triangles_wf as [bl Hwf].
  exact (ref_cell_has_side_iff CellExample.triangles bl 3 1 Hwf).
Defined.

(** C23. [ref_cell_node_list_around] lists each node that shares an element with the
    given one once, in a list of at most [max_node] nodes; it returns
    [REF_INCREASE_LIMIT] only when there are more. *)
Theorem ref_cell_node_list_around_neighbours (r : REF_CELL) (bl : list Z) (node max_node : Z)
    (node_list : list Z) :
  cell_wf r bl -> 0 <= max_node <= zlen node_list ->
  exists st nnode l, ref_cell_node_list_around r node max_node node_list = Some (st, (nnode, l)) /\
    0 <= nnode <= max_node /\ NoDup (ztake nnode l) /\
    (st = REF_SUCCESS /\ (forall v, v ∈ ztake nnode l <-> neighbour r node v) \/
     st = REF_INCREASE_LIMIT /\ nnode = max_node /\ (forall v, v ∈ ztake nnode l -> neighbour r node v) /\
       exists v, neighbour r node v /\ v ∉ ztake nnode l).
Proof.
  intros Hwf Hmax.
  destruct (ref_cell_node_list_around_ok r bl Hwf node max_node node_list Hmax) as ([st [nnode l]] & Hr & _ & Hpost).
  by exists st, nnode, l.
Qed.

Lemma ref_cell_node_list_around_neighbours_witness :
  ref_cell_node_list_around CellExample.triangles 1 4 [0; 0; 0; 0] = Some (REF_SUCCESS, (3, [2; 3; 0; 0])) /\
  exists st nnode l,
    ref_cell_node_list_around CellExample.triangles 1 4 [0; 0; 0; 0] = Some (st, (nnode, l)) /\
    0 <= nnode <= 4 /\ NoDup (ztake nnode l) /\
    (st = REF_SUCCESS /\ (forall v, v ∈ ztake nnode l <-> neighbour CellExample.triangles 1 v) \/
     st = REF_INCREASE_LIMIT /\ nnode = 4 /\
       (forall v, v ∈ ztake nnode l -> neighbour CellExample.triangles 1 v) /\
       exists v, neighbour CellExample.triangles 1 v /\ v ∉ ztake nnode l).
Proof.
  split; [vm_compute; reflexivity|]. destruct CellExample.triangles_wf as [bl Hwf].
  apply (ref_cell_node_list_around_neighbours CellExample.triangles bl 1 4 [0; 0; 0; 0] Hwf).
  vm_compute. split; congruence.
Defined.
