(* ===== verification/RefCellNode.v ===== *)
(** * ref_cell.c: elements and the nodes of the partition

    The operations of [REF_CELL] that look at the [REF_NODE] of the grid: the part
    that owns an element, and the insertion of elements given by global
    indices. *)
From S2P Require Import Prelude Rows RefSort RefAdj RefDbl RefMpi RefNode RefCellType RefCell RefCellSpec RefCellQuery.
From stdpp Require Import prelude list gmap.
From Stdlib Require Import ZArith Lia SpecFloat.
Open Scope Z_scope.
Open Scope ref_scope.

Section ops.
Context {D : Type} `{Dbl D, Junk D, Junk Z, Junk REF_ADJ_ITEM}.
Implicit Types (r : REF_CELL) (n : REF_NODE D).

(** The integer is [*cell_node]. *)
Definition ref_cell_part_cell_node r (ref_node : REF_NODE D) (cell : Z) : option (REF_STATUS * Z) :=
  if (cell <? 0) || (cell_max r <? cell) then Some (REF_INVALID, REF_EMPTY)
  else
    let* first := ref_cell_c2n r 0 cell in
    if REF_EMPTY =? first then Some (REF_INVALID, REF_EMPTY)
    else
      let* global := ref_node_global ref_node first in
      let* '(_, smallest_global_node) :=
        for_up 1 (ref_cell_node_per r) (fun node '(smallest_global, smallest_global_node) =>
          let* v := ref_cell_c2n r node cell in
          let* global := ref_node_global ref_node v in
          if global <? smallest_global then Some (global, node)
          else Some (smallest_global, smallest_global_node)) (global, 0) in
      if REF_EMPTY =? smallest_global_node then Some (REF_FAILURE, REF_EMPTY)
      else Some (REF_SUCCESS, smallest_global_node).

(** The integer is [*output_part]. *)
Definition ref_cell_part r (ref_node : REF_NODE D) (cell : Z) : option (REF_STATUS * Z) :=
  let* '(st, cell_node) := ref_cell_part_cell_node r ref_node cell in
  RSS st REF_EMPTY (
  if REF_EMPTY =? cell_node then Some (REF_FAILURE, REF_EMPTY)
  else
    let* v := ref_cell_c2n r cell_node cell in
    let* p := aget (node_part ref_node) v in
    Some (REF_SUCCESS, p)).

Definition ref_cell_all_local r (ref_node : REF_NODE D) (cell : Z) : option (REF_STATUS * bool) :=
  let* v := ref_cell_valid r cell in
  RAS v true (
  let* all_local_nodes :=
    for_up 0 (ref_cell_node_per r) (fun cell_node all_local_nodes =>
      if all_local_nodes : bool then
        let* v := ref_cell_c2n r cell_node cell in ref_node_owned ref_node v
      else Some false) true in
  Some (REF_SUCCESS, all_local_nodes)).

Definition ref_cell_local_gem r (ref_node : REF_NODE D) (node0 node1 : Z)
    : option (REF_STATUS * bool) :=
  let* c :=
    each_ref_cell_having_node2 r node0 node1 (fun cell (_ : unit) =>
      forx_up 0 (ref_cell_node_per r) (fun test_node (_ : unit) =>
        let* v := ref_cell_c2n r test_node cell in
        let* owned := ref_node_owned ref_node v in
        if negb owned then Some (Exit (REF_SUCCESS, false)) else Some (Next tt)) tt) tt in
  Some (after_loop c (fun _ => (REF_SUCCESS, true))).

(** [(REF_INT)g]: the conversion of a [REF_GLOB] keeps the low 32 bits. *)
Definition glob_to_int (g : Z) : Z :=
  let m := g mod 2 ^ 32 in
  if m <? 2 ^ 31 then m else m - 2 ^ 32.

(** [node + size_per * cell], an [int]. *)
Definition many_index (size_per node cell : Z) : option Z :=
  let* k := ck_int (size_per * cell) in ck_int (node + k).

(** The global indices of the nodes that [exclude_part_id] does not own. *)
Definition many_globals r (n : Z) (c2n part : list Z) (exclude_part_id : Z) (global : list Z)
    : option (list Z * Z) :=
  for_up 0 n (fun cell s =>
    for_up 0 (ref_cell_node_per r) (fun node '(global, nnode) =>
      let* k := many_index (ref_cell_size_per r) node cell in
      let* p := aget part k in
      if negb (exclude_part_id =? p) then
        let* g := aget c2n k in
        let* global := aset global nnode g in
        Some (global, nnode + 1)
      else Some (global, nnode)) s) (global, 0).

(** The local indices of the nodes of one element; their parts are set. *)
Definition localize_cell r (c2n part : list Z) (cell : Z) (s : REF_NODE D * list Z)
    : option (ctl (REF_NODE D * list Z) (REF_STATUS * REF_NODE D)) :=
  forx_up 0 (ref_cell_node_per r) (fun node '(ref_node, local_nodes) =>
    let* k := many_index (ref_cell_size_per r) node cell in
    let* g := aget c2n k in
    let* '(st, local) := ref_node_local ref_node g in
    RSS_exit st ref_node (
    let* p := aget part k in
    let* parts := aset (node_part ref_node) local p in
    let* local_nodes := aset local_nodes node local in
    Some (Next (set_node_part parts ref_node, local_nodes)))) s.

(** The element of the list at [cell]: added unless one with the same nodes is
    there. *)
Definition add_one r (ref_node : REF_NODE D) (c2n part local_nodes : list Z) (cell : Z)
    : option (ctl (REF_CELL * REF_NODE D * list Z) (REF_STATUS * (REF_CELL * REF_NODE D))) :=
  let* c := localize_cell r c2n part cell (ref_node, local_nodes) in
  match c with
  | Exit (st, ref_node) => Some (Exit (st, (r, ref_node)))
  | Next (ref_node, local_nodes) =>
      let* local_nodes :=
        if ref_cell_last_node_is_an_id r then
          let* k := many_index (ref_cell_size_per r) (ref_cell_size_per r - 1) cell in
          let* g := aget c2n k in
          aset local_nodes (ref_cell_size_per r - 1) (glob_to_int g)
        else Some local_nodes in
      let* '(st, new_cell) := ref_cell_with r local_nodes in
      if bool_decide (st = REF_SUCCESS \/ st = REF_NOT_FOUND) then
        if REF_EMPTY =? new_cell then
          let* '(st, (new_cell, r)) := ref_cell_add r local_nodes in
          RSS_exit st (r, ref_node) (Some (Next (r, ref_node, local_nodes)))
        else Some (Next (r, ref_node, local_nodes))
      else Some (Exit (st, (r, ref_node)))
  end.

(** The outputs are the states of [ref_cell] and [ref_node]. *)
Definition ref_cell_add_many_global r (ref_node : REF_NODE D) (n : Z) (c2n part : list Z)
    (exclude_part_id : Z) : option (REF_STATUS * (REF_CELL * REF_NODE D)) :=
  let* size := ck_int (ref_cell_node_per r * n) in
  let '(st, global) := ref_malloc size in
  RSS st (r, ref_node) (
  let* '(global, nnode) := many_globals r n c2n part exclude_part_id global in
  let* '(st, ref_node) := ref_node_add_many ref_node nnode global in
  RSS st (r, ref_node) (
  let* c :=
    forx_up 0 n (fun cell '(r, ref_node, local_nodes) =>
      add_one r ref_node c2n part local_nodes cell)
      (r, ref_node, alloc REF_CELL_MAX_SIZE_PER) in
  Some (after_loop c (fun '(r, ref_node, _) => (REF_SUCCESS, (r, ref_node)))))).
End ops.

(** ** The part of an element *)

Section part_ok.
Context {D : Type}.
Implicit Types (r : REF_CELL) (n : REF_NODE D).

(** The global index of a node, [REF_EMPTY] for a node that is not in use. *)
Definition global_of n (v : Z) : Z :=
  if bool_decide (v ∈ valid_nodes n) then (node_global n).[v] else REF_EMPTY.

Lemma ref_node_global_ok n v :
  zlen (node_global n) = node_max n -> ref_node_global n v = Some (global_of n v).
Proof.
  intros Hl. unfold ref_node_global, global_of. rewrite ref_node_valid_eq by done. cbn [obind].
  case_bool_decide as Hv; [|done]. apply aget_aat.
  unfold valid_nodes in Hv. apply list_elem_of_filter in Hv as [_ Hv%elem_of_zrange]. lia.
Qed.

Lemma ref_cell_part_cell_node_ok r bl n cell :
  cell_wf r bl -> zlen (node_global n) = node_max n -> cell <> cell_max r ->
  wp (ref_cell_part_cell_node r n cell) (fun '(st, cell_node) =>
    match cell_at r cell with
    | None => st = REF_INVALID /\ cell_node = REF_EMPTY
    | Some entries => st = REF_SUCCESS /\ 0 <= cell_node < ref_cell_node_per r /\
        (forall i, 0 <= i < ref_cell_node_per r -> global_of n entries.[cell_node] <= global_of n entries.[i]) /\
        (forall i, 0 <= i < cell_node -> global_of n entries.[cell_node] < global_of n entries.[i])
    end).
Proof.
  intros Hwf Hn Hcell. pose proof (cell_wf_counts _ _ Hwf) as Ht. destruct (node_per_bounds r bl Hwf) as [Hb _].
  unfold ref_cell_part_cell_node.
  destruct (Z.ltb_spec cell 0), (Z.ltb_spec (cell_max r) cell); cbn [orb]; try lia;
    try (assert (cell_at r cell = None) as -> by (apply cell_at_None; intros [? _]; lia); by apply wp_ret).
  unfold ref_cell_c2n at 1. apply wp_bind, (wp_get_c2n _ _ Ht (cw_size _ _ Hwf)); [apply Hwf|unfold ref_cell_size_per in *; lia|lia|].
  change (0 + size_per (cell_tables r) * cell) with (size_per (cell_tables r) * cell).
  case Z.eqb_spec; intros Hfirst.
  - assert (cell_at r cell = None) as -> by (apply cell_at_None; intros [_ Hx]; congruence). by apply wp_ret.
  - destruct (cell_at r cell) as [entries|] eqn:Hat;
      [|apply cell_at_None in Hat; exfalso; apply Hat; split; [lia|congruence]].
    apply cell_at_Some in Hat as Hat'. destruct Hat' as (_ & _ & Hrow).
    replace (cell_c2n r).[size_per (cell_tables r) * cell] with entries.[0]
      by (rewrite Hrow, aat_c2n_row by (unfold ref_cell_size_per in *; lia); done).
    rewrite ref_node_global_ok by done. cbn [obind]. apply wp_bind.
    apply (wp_for_up (fun k '(g, m) => 0 <= m < k /\ g = global_of n entries.[m] /\
      (forall i, 0 <= i < k -> g <= global_of n entries.[i]) /\
      (forall i, 0 <= i < m -> g < global_of n entries.[i]))); [lia| | |].
    + split; [lia|]. split; [done|]. split; [|lia]. intros i Hi. replace i with 0 by lia. lia.
    + intros k [g m] Hk (Hm & -> & Hle & Hlt).
      rewrite (ref_cell_c2n_ok r bl Hwf cell entries) by (done || lia). cbn [obind].
      rewrite ref_node_global_ok by done. cbn [obind]. case Z.ltb_spec; intros Hcmp; apply wp_ret.
      * split; [lia|]. split; [done|]. split; intros i Hi.
        { destruct (decide (i = k)) as [->|]; [lia|]. specialize (Hle i ltac:(lia)). lia. }
        { specialize (Hle i ltac:(lia)). lia. }
      * split; [lia|]. split; [done|]. split; [|done]. intros i Hi.
        destruct (decide (i = k)) as [->|]; [lia|]. apply Hle. lia.
    + intros [g m] (Hm & -> & Hle & Hlt). unfold REF_EMPTY. destruct (Z.eqb_spec (-1) m); [lia|].
      by apply wp_ret.
Qed.
End part_ok.

(** The part of an element is the part of its node with the least global index:
    [ref_cell_part_cell_node] returns the first node with the least global index of
    an element in use, and [REF_INVALID] for any other index but [max]. *)
Theorem ref_cell_part_cell_node_least {D : Type} (r : REF_CELL) (bl : list Z) (ref_node : REF_NODE D)
    (cell : Z) :
  cell_wf r bl -> zlen (node_global ref_node) = node_max ref_node -> cell <> cell_max r ->
  exists st cell_node, ref_cell_part_cell_node r ref_node cell = Some (st, cell_node) /\
    match cell_at r cell with
    | None => st = REF_INVALID /\ cell_node = REF_EMPTY
    | Some entries => st = REF_SUCCESS /\ 0 <= cell_node < ref_cell_node_per r /\
        (forall i, 0 <= i < ref_cell_node_per r ->
           global_of ref_node entries.[cell_node] <= global_of ref_node entries.[i]) /\
        (forall i, 0 <= i < cell_node ->
           global_of ref_node entries.[cell_node] < global_of ref_node entries.[i])
    end.
Proof.
  intros Hwf Hn Hcell.
  destruct (ref_cell_part_cell_node_ok r bl ref_node cell Hwf Hn Hcell) as ([st m] & Hr & Hpost).
  by exists st, m.
Qed.

Lemma ref_cell_part_cell_node_least_witness :
  ref_cell_part_cell_node CellExample.triangles NodeExample.node 0 = Some (REF_SUCCESS, 0) /\
  exists st cell_node,
    ref_cell_part_cell_node CellExample.triangles NodeExample.node 0 = Some (st, cell_node) /\
    match cell_at CellExample.triangles 0 with
    | None => st = REF_INVALID /\ cell_node = REF_EMPTY
    | Some entries => st = REF_SUCCESS /\ 0 <= cell_node < 3 /\
        (forall i, 0 <= i < 3 ->
           global_of NodeExample.node entries.[cell_node] <= global_of NodeExample.node entries.[i]) /\
        (forall i, 0 <= i < cell_node ->
           global_of NodeExample.node entries.[cell_node] < global_of NodeExample.node entries.[i])
    end.
Proof.
  split; [vm_compute; reflexivity|]. destruct CellExample.triangles_wf as [bl Hwf].
  apply (ref_cell_part_cell_node_least CellExample.triangles bl NodeExample.node 0 Hwf).
  - vm_compute. reflexivity.
  - vm_compute. congruence.
Defined.

(** The guard of [ref_cell_part_cell_node] lets the index [max] through: the read
    of its first node is past the end of [c2n], for every state. *)
Theorem ref_cell_part_cell_node_overrun {D : Type} (r : REF_CELL) (bl : list Z) (ref_node : REF_NODE D) :
  cell_wf r bl -> ref_cell_part_cell_node r ref_node (cell_max r) = None.
Proof.
  intros Hwf. pose proof (cw_max _ _ Hwf). pose proof (cw_size _ _ Hwf). pose proof (cw_c2n _ _ Hwf) as Hl.
  destruct (node_per_bounds r bl Hwf) as [Hb _]. unfold ref_cell_size_per in *. unfold ref_cell_part_cell_node.
  destruct (Z.ltb_spec (cell_max r) 0), (Z.ltb_spec (cell_max r) (cell_max r)); try lia. cbn [orb].
  unfold ref_cell_c2n, get_c2n, row_get, row_index.
  assert (Hck : forall z, 0 <= z <= REF_INT_MAX -> ck_int z = Some z)
    by (intros z Hz; apply wp_eq, wp_ck_int; [unfold REF_INT_MIN; lia|done]).
  rewrite !Hck by nia. cbn [obind]. rewrite Hck by nia. cbn [obind]. by rewrite aget_out by lia.
Qed.

Lemma ref_cell_part_cell_node_overrun_witness :
  ref_cell_part_cell_node CellExample.triangles NodeExample.node 100 = None.
Proof.
  destruct CellExample.triangles_wf as [bl Hwf].
  exact (ref_cell_part_cell_node_overrun CellExample.triangles bl NodeExample.node Hwf).
Defined.
