(* ===== verification/RefGrid.v ===== *)
(** * ref_grid.c: the grid

    [REF_GRID] puts the vertices, the elements of every type and the associations
    with the geometry together. The members that gather, adapt, interp and the
    partitioner keep, and the settings of the file formats, are left out: nothing
    that is modelled reads them. *)
From S2P Require Import Prelude Rows RefSort RefAdj RefDbl RefMpi RefNode RefCellType RefCell RefCellQuery RefGeom.
From stdpp Require Import prelude list gmap.
From Stdlib Require Import ZArith Lia.
Open Scope Z_scope.
Open Scope ref_scope.

Record REF_GRID (D : Type) := mkREF_GRID {
  grid_mpi : REF_MPI;
  grid_node : REF_NODE D;
  grid_cell : REF_CELL_TYPE -> REF_CELL;
  grid_geom : REF_GEOM D;
  grid_twod : bool;
  grid_surf : bool
}.
#[global] Arguments mkREF_GRID {D}.
#[global] Arguments grid_mpi {D}.
#[global] Arguments grid_node {D}.
#[global] Arguments grid_cell {D}.
#[global] Arguments grid_geom {D}.
#[global] Arguments grid_twod {D}.
#[global] Arguments grid_surf {D}.

(** Assignments to one member. *)
Section setters.
Context {D : Type}.
Implicit Types (g : REF_GRID D).
Definition set_grid_node (x : REF_NODE D) g : REF_GRID D :=
  mkREF_GRID (grid_mpi g) x (grid_cell g) (grid_geom g) (grid_twod g) (grid_surf g).
Definition set_grid_cell (type : REF_CELL_TYPE) (x : REF_CELL) g : REF_GRID D :=
  mkREF_GRID (grid_mpi g) (grid_node g) (fun t => if decide (t = type) then x else grid_cell g t)
    (grid_geom g) (grid_twod g) (grid_surf g).
Definition set_grid_geom (x : REF_GEOM D) g : REF_GRID D :=
  mkREF_GRID (grid_mpi g) (grid_node g) (grid_cell g) x (grid_twod g) (grid_surf g).

Definition ref_grid_edg g : REF_CELL := grid_cell g REF_CELL_EDG.
Definition ref_grid_tri g : REF_CELL := grid_cell g REF_CELL_TRI.
Definition ref_grid_qua g : REF_CELL := grid_cell g REF_CELL_QUA.
Definition ref_grid_tet g : REF_CELL := grid_cell g REF_CELL_TET.
Definition ref_grid_pyr g : REF_CELL := grid_cell g REF_CELL_PYR.
Definition ref_grid_pri g : REF_CELL := grid_cell g REF_CELL_PRI.
Definition ref_grid_hex g : REF_CELL := grid_cell g REF_CELL_HEX.
End setters.

(** The types in the order of the enumeration; the loops of ref_grid.h are over
    parts of it. *)
Definition all_types : list REF_CELL_TYPE :=
  [REF_CELL_EDG; REF_CELL_ED2; REF_CELL_ED3; REF_CELL_TRI; REF_CELL_TR2; REF_CELL_TR3; REF_CELL_QUA;
   REF_CELL_QU2; REF_CELL_TET; REF_CELL_PYR; REF_CELL_PRI; REF_CELL_HEX; REF_CELL_TE2; REF_CELL_PY2;
   REF_CELL_PR2; REF_CELL_HE2].
Definition types_1d : list REF_CELL_TYPE := take 3 all_types.
Definition types_2d_3d : list REF_CELL_TYPE := drop 3 all_types.
Definition types_3d : list REF_CELL_TYPE := drop 8 all_types.
(** [each_ref_grid_face_ref_cell] and [each_ref_grid_edge_ref_cell]. *)
Definition types_face : list REF_CELL_TYPE := [REF_CELL_TRI; REF_CELL_TR2; REF_CELL_TR3].
Definition types_edge : list REF_CELL_TYPE := types_1d.

(** The index of a type. *)
Definition group_of (type : REF_CELL_TYPE) : Z :=
  match type with
  | REF_CELL_EDG => 0
  | REF_CELL_ED2 => 1
  | REF_CELL_ED3 => 2
  | REF_CELL_TRI => 3
  | REF_CELL_TR2 => 4
  | REF_CELL_TR3 => 5
  | REF_CELL_QUA => 6
  | REF_CELL_QU2 => 7
  | REF_CELL_TET => 8
  | REF_CELL_PYR => 9
  | REF_CELL_PRI => 10
  | REF_CELL_HEX => 11
  | REF_CELL_TE2 => 12
  | REF_CELL_PY2 => 13
  | REF_CELL_PR2 => 14
  | REF_CELL_HE2 => 15
  end.

#[global] Instance REF_CELL_inhabited : Inhabited REF_CELL :=
  populate (mkREF_CELL (snd (ref_cell_initialize REF_CELL_EDG)) 0 0 0 [] (mkREF_ADJ 0 0 [] [] 0)).

Section ops.
Context {D : Type} `{Dbl D, Junk Z, Junk REF_ADJ_ITEM, Junk D}.
Implicit Types (g : REF_GRID D).

(** The loop that makes the element of every type; the list is the array. *)
Definition make_cells (make : REF_CELL_TYPE -> option (REF_STATUS * REF_CELL))
    : option (ctl (list REF_CELL) REF_STATUS) :=
  forl all_types (fun type cells =>
    let* '(st, cell) := make type in
    match st with
    | REF_SUCCESS => Some (Next (cells ++ [cell]))
    | _ => Some (Exit st)
    end) [].

Definition ref_grid_create (ref_mpi : REF_MPI) : option (REF_STATUS * option (REF_GRID D)) :=
  let* '(st, node) := ref_node_create ref_mpi in
  RSS st None (
  let* c := make_cells ref_cell_create in
  match c with
  | Exit st => Some (st, None)
  | Next cells =>
      let* '(st, geom) := ref_geom_create in
      RSS st None (
      Some (REF_SUCCESS,
        Some (mkREF_GRID ref_mpi node (fun type => cells.[group_of type]) geom false false)))
  end).

Definition ref_grid_deep_copy (original : REF_GRID D) : option (REF_STATUS * option (REF_GRID D)) :=
  let* '(st, node) := ref_node_deep_copy (grid_mpi original) (grid_node original) in
  RSS st None (
  let* c := make_cells (fun type => ref_cell_deep_copy (grid_cell original type)) in
  match c with
  | Exit st => Some (st, None)
  | Next cells =>
      let* '(st, geom) := ref_geom_deep_copy (grid_geom original) in
      RSS st None (
      Some (REF_SUCCESS,
        Some (mkREF_GRID (grid_mpi original) node (fun type => cells.[group_of type]) geom
          (grid_twod original) (grid_surf original))))
  end).

(** [*ref_cell] is [None] where the C is [NULL]. *)
Definition ref_grid_cell_with (node_per : Z) : REF_STATUS * option REF_CELL_TYPE :=
  if node_per =? 4 then (REF_SUCCESS, Some REF_CELL_TET)
  else if node_per =? 5 then (REF_SUCCESS, Some REF_CELL_PYR)
  else if node_per =? 6 then (REF_SUCCESS, Some REF_CELL_PRI)
  else if node_per =? 8 then (REF_SUCCESS, Some REF_CELL_HEX)
  else (REF_FAILURE, None).

Definition ref_grid_face_with (node_per : Z) : REF_STATUS * option REF_CELL_TYPE :=
  if node_per =? 3 then (REF_SUCCESS, Some REF_CELL_TRI)
  else if node_per =? 4 then (REF_SUCCESS, Some REF_CELL_QUA)
  else (REF_FAILURE, None).

(** The flag is [*has_face]. *)
Definition ref_grid_cell_has_face g (face_nodes : list Z) : option (REF_STATUS * bool) :=
  let* c :=
    forl types_3d (fun type (_ : unit) =>
      let* '(st, (cell0, cell1)) := ref_cell_with_face (grid_cell g type) face_nodes in
      RSS_exit st false (
      if negb (REF_EMPTY =? cell0) then Some (Exit (REF_SUCCESS, true)) else Some (Next tt))) tt in
  Some (after_loop c (fun _ => (REF_SUCCESS, false))).

(** The pair is [*nnode] and [node_list]. *)
Definition ref_grid_node_list_around g (node max_node : Z) (node_list : list Z)
    : option (REF_STATUS * (Z * list Z)) :=
  let* c :=
    forl types_2d_3d (fun type s => collect_around (grid_cell g type) node max_node s) (0, node_list) in
  Some (after_loop c (fun s => (REF_SUCCESS, s))).

(** The integer is [*ncell]. *)
Definition ref_grid_ncell g : option (REF_STATUS * Z) :=
  let* c :=
    forl all_types (fun type ncell =>
      let* ncell := ck_int (ncell + cell_n (grid_cell g type)) in
      Some (Next (R := Empty_set) ncell)) 0 in
  match c with
  | Next ncell => Some (REF_SUCCESS, ncell)
  | Exit e => match e with end
  end.

(** The pair is [*cell_group] and [*cell]. *)
Definition ref_grid_contiguous_group_cell g (contiguous_cell : Z) : option (REF_STATUS * (Z * Z)) :=
  if contiguous_cell <? 0 then Some (REF_NOT_FOUND, (REF_EMPTY, REF_EMPTY))
  else
    let* c :=
      forl all_types (fun type cell =>
        let n := cell_n (grid_cell g type) in
        if (0 <? n) && (0 <=? cell) && (cell <? n) then Some (Exit (group_of type, cell))
        else
          let* cell := ck_int (cell - n) in
          Some (Next cell)) contiguous_cell in
    match c with
    | Exit s => Some (REF_SUCCESS, s)
    | Next _ => Some (REF_NOT_FOUND, (REF_EMPTY, REF_EMPTY))
    end.

(** The integer is [*guess]. *)
Definition ref_update_tet_guess (ref_cell : REF_CELL) (node0 node1 node2 guess : Z)
    : option (REF_STATUS * Z) :=
  let* '(st, (cell0, cell1)) := ref_cell_with_face ref_cell [node0; node1; node2; node0] in
  RSS st guess (
  if REF_EMPTY =? cell0 then Some (REF_FAILURE, guess)
  else if REF_EMPTY =? cell1 then Some (REF_SUCCESS, REF_EMPTY)
  else if guess =? cell0 then Some (REF_SUCCESS, cell1)
  else if guess =? cell1 then Some (REF_SUCCESS, cell0)
  else Some (REF_NOT_FOUND, guess)).

(** The side from entry [i] to entry [j] joins the two nodes, in either direction:
    the comparisons of [MIN] and [MAX]. *)
Definition side_of (nodes side_nodes : list Z) (i j : Z) (s : Z * Z) : option (Z * Z) :=
  let* n0 := aget nodes 0 in
  let* n1 := aget nodes 1 in
  let* a := aget side_nodes i in
  let* b := aget side_nodes j in
  Some (if (Z.min n0 n1 =? Z.min a b) && (Z.max n0 n1 =? Z.max a b) then (a, b) else s).

(** The array is [nodes]. *)
Definition ref_grid_orient_edg g (nodes : list Z) : option (REF_STATUS * list Z) :=
  let* n0 := aget nodes 0 in
  let* n1 := aget nodes 1 in
  let* '(st, (ntri, edg_tri)) := ref_cell_list_with2 (ref_grid_tri g) n0 n1 1 (alloc 1) in
  RSS st nodes (
  let* '(st, (nqua, edg_qua)) := ref_cell_list_with2 (ref_grid_qua g) n0 n1 1 (alloc 1) in
  RSS st nodes (
  RAS (1 =? ntri + nqua) nodes (
  RAS (0 =? Z.min ntri nqua) nodes (
  let* '(st, s) :=
    if 1 =? ntri then
      let* cell := aget edg_tri 0 in
      let* '(st, tri_nodes) := ref_cell_nodes (ref_grid_tri g) cell (alloc REF_CELL_MAX_SIZE_PER) in
      RSS st (REF_EMPTY, REF_EMPTY) (
      let* s := side_of nodes tri_nodes 0 1 (REF_EMPTY, REF_EMPTY) in
      let* s := side_of nodes tri_nodes 1 2 s in
      let* s := side_of nodes tri_nodes 2 0 s in
      Some (REF_SUCCESS, s))
    else Some (REF_SUCCESS, (REF_EMPTY, REF_EMPTY)) in
  RSS st nodes (
  let* '(st, s) :=
    if 1 =? nqua then
      let* cell := aget edg_qua 0 in
      let* '(st, qua_nodes) := ref_cell_nodes (ref_grid_qua g) cell (alloc REF_CELL_MAX_SIZE_PER) in
      RSS st s (
      let* s := side_of nodes qua_nodes 0 1 s in
      let* s := side_of nodes qua_nodes 1 2 s in
      let* s := side_of nodes qua_nodes 2 3 s in
      let* s := side_of nodes qua_nodes 3 0 s in
      Some (REF_SUCCESS, s))
    else Some (REF_SUCCESS, s) in
  RSS st nodes (
  let '(node0, node1) := s in
  RAS (negb (REF_EMPTY =? node0)) nodes (
  RAS (negb (REF_EMPTY =? node1)) nodes (
  let* nodes := aset nodes 0 node0 in
  let* nodes := aset nodes 1 node1 in
  Some (REF_SUCCESS, nodes))))))))).
End ops.

(** ** ref_geom.c: the associations that no element needs *)

Section geom.
Context {D : Type} `{Dbl D, Junk Z, Junk REF_ADJ_ITEM, Junk D}.
Implicit Types (g : REF_GRID D).

(** [supported_by_cell]: an element of one of the types has the vertex. *)
Definition supported_by_cell g (types : list REF_CELL_TYPE) (node : Z) : option bool :=
  let* c :=
    forl types (fun type supported =>
      if supported : bool then Some (Next (R := Empty_set) true)
      else
        let* e := ref_cell_node_empty (grid_cell g type) node in
        Some (Next (negb e))) false in
  match c with
  | Next supported => Some supported
  | Exit e => match e with end
  end.

(** The [while] visits the items of the vertex and starts again after a removal:
    at most as many turns as items for every item. *)
Definition ref_geom_remove_without_cell g (node : Z) : option (REF_STATUS * REF_GRID D) :=
  let fuel := Z.to_nat ((adj_nitem (geom_adj (grid_geom g)) + 1) * (adj_nitem (geom_adj (grid_geom g)) + 1)) in
  let* item := ref_adj_first (geom_adj (grid_geom g)) node in
  let* '(st, geom) :=
    loop fuel (fun '(item, r) =>
      if ref_adj_valid item then
        let* geom := ref_adj_item_ref (geom_adj r) item in
        let* type := ref_geom_type r geom in
        if type =? REF_GEOM_NODE then
          let* item := ref_adj_item_next (geom_adj r) item in
          Some (Next (item, r))
        else if (type =? REF_GEOM_EDGE) || (type =? REF_GEOM_FACE) then
          let* supported :=
            supported_by_cell g (if type =? REF_GEOM_EDGE then types_edge else types_face) node in
          if supported : bool then
            let* item := ref_adj_item_next (geom_adj r) item in
            Some (Next (item, r))
          else
            let* '(st, r) := ref_geom_remove r geom in
            match st with
            | REF_SUCCESS =>
                let* item := ref_adj_first (geom_adj r) node in
                Some (Next (item, r))
            | _ => Some (Exit (st, r))
            end
        else Some (Exit (REF_IMPLEMENT, r))
      else Some (Exit (REF_SUCCESS, r))) (item, grid_geom g) in
  Some (st, set_grid_geom geom g).
End geom.

(** A new grid has no vertices and no elements. *)
Section create.
Context {D : Type} `{Dbl D, Junk Z, Junk REF_ADJ_ITEM, Junk D}.

#[local] Instance REF_CELL_TYPE_inhabited : Inhabited REF_CELL_TYPE := populate REF_CELL_EDG.

Lemma make_cells_ok (make : REF_CELL_TYPE -> option (REF_STATUS * REF_CELL)) (P : REF_CELL_TYPE -> REF_CELL -> Prop) :
  (forall type, wp (make type) (fun '(st, r) => st = REF_SUCCESS /\ P type r)) ->
  wp (make_cells make) (fun c => exists cells, c = Next cells /\ forall type, P type cells.[group_of type]).
Proof.
  intros Hmake. unfold make_cells.
  apply (wp_mono (fun c => exists cells, c = Next cells /\ zlen cells = zlen all_types /\
    forall k, 0 <= k < zlen all_types -> P all_types.[k] cells.[k])).
  - apply (wp_forl (fun pre cells => zlen cells = zlen pre /\ forall k, 0 <= k < zlen pre -> P pre.[k] cells.[k]) (fun _ => False));
      [split; [done|intros k Hk; unfold zlen in Hk; cbn in Hk; lia]| |by eauto|done].
    intros pre type post cells _ [Hz Hcells]. apply wp_bind. eapply wp_mono; [apply Hmake|]. intros [st r] [-> Hr]. apply wp_ret.
    split; [by rewrite !zlen_app, Hz|]. intros k Hk. rewrite zlen_app in Hk. change (zlen [type]) with 1 in Hk.
    destruct (Z.eq_dec k (zlen pre)) as [->|Hne].
    + rewrite !aat_app_r, Hz, Z.sub_diag by lia. exact Hr.
    + rewrite !aat_app_l by lia. apply Hcells. lia.
  - intros c (cells & -> & _ & Hcells). exists cells. split; [done|]. intros type.
    assert (Hk : all_types.[group_of type] = type /\ 0 <= group_of type < zlen all_types) by by destruct type.
    destruct Hk as [Hk Hr]. specialize (Hcells _ Hr). by rewrite Hk in Hcells.
Qed.

Lemma ref_grid_create_ok mpi :
  wp (ref_grid_create (D:=D) mpi) (fun '(st, g) => st = REF_SUCCESS /\ exists g', g = Some g' /\
    (node_core (grid_node g') (seqZ 0 20) /\ node_sorted (grid_node g') /\ node_n (grid_node g') = 0 /\ node_max (grid_node g') = 20 /\
     node_map (grid_node g') = ∅ /\ node_mpi (grid_node g') = mpi) /\
    forall type, cell_wf (grid_cell g' type) (seqZ 0 100) /\ cell_tables (grid_cell g' type) = snd (ref_cell_initialize type) /\
      cell_n (grid_cell g' type) = 0 /\ cell_max (grid_cell g' type) = 100 /\ forall k, cell_at (grid_cell g' type) k = None).
Proof.
  unfold ref_grid_create. apply wp_bind. eapply wp_mono; [apply ref_node_create_spec|].
  intros [st r] (-> & [Hc Hs] & Hmap & _ & Hn & Hmax & _ & _ & Hmpi). cbn [RSS].
  apply wp_bind. eapply wp_mono; [apply make_cells_ok, ref_cell_create_spec|]. intros c (cells & -> & Hcells).
  apply wp_bind. eapply wp_mono; [apply ref_geom_create_ok|]. intros [st geom] (-> & _). cbn [RSS]. apply wp_ret.
  split; [done|]. eexists. split; [reflexivity|]. split; [done|exact Hcells].
Qed.
End create.
