(* ===== verification/RefMeasure.v ===== *)
(** * ref_node.c: volumes, areas and barycentric coordinates

    The measures of the simplices that nodes span. The arithmetic is that of
    [Dbl]; what the formulas mean is proved for exact arithmetic. *)
From S2P Require Import Prelude RefDbl RefMpi RefNode.
From stdpp Require Import prelude list gmap.
From Stdlib Require Import ZArith Lia.
Open Scope Z_scope.
Open Scope ref_scope.
Open Scope dbl_scope.

Section ops.
Context {D : Type} `{Dbl D}.
Implicit Types (r : REF_NODE D).

(** [ref_node_xyz]; a point is the three coordinates behind [ref_node_xyz_ptr]. *)
Definition ref_node_xyz r (ixyz node : Z) : option D :=
  let* k := real_index ixyz node in aget (node_real r) k.
Definition ref_node_point r (node : Z) : option (D * D * D) :=
  let* x := ref_node_xyz r 0 node in
  let* y := ref_node_xyz r 1 node in
  let* z := ref_node_xyz r 2 node in
  Some (x, y, z).
Definition all_valid r (nodes : list Z) : option bool :=
  foldr (fun node rest =>
    let* v := ref_node_valid r node in
    if v : bool then rest else Some false) (Some true) nodes.

(** [ref_node_xyz_vol]: the common formula. *)
Definition ref_node_xyz_vol (a b c d : D * D * D) : D :=
  let '(a0, a1, a2) := a in
  let '(b0, b1, b2) := b in
  let '(c0, c1, c2) := c in
  let '(d0, d1, d2) := d in
  let m11 := (a0 -! d0) *! ((b1 -! d1) *! (c2 -! d2) -! (c1 -! d1) *! (b2 -! d2)) in
  let m12 := (a1 -! d1) *! ((b0 -! d0) *! (c2 -! d2) -! (c0 -! d0) *! (b2 -! d2)) in
  let m13 := (a2 -! d2) *! ((b0 -! d0) *! (c1 -! d1) -! (c0 -! d0) *! (b1 -! d1)) in
  let det := m11 -! m12 +! m13 in
  (-! det) /! dofZ 6.

(** The number is [*volume], not set when a node is invalid. *)
Definition ref_node_tet_vol r (nodes : list Z) : option (REF_STATUS * D) :=
  let* n0 := aget nodes 0 in
  let* n1 := aget nodes 1 in
  let* n2 := aget nodes 2 in
  let* n3 := aget nodes 3 in
  let* valid := all_valid r [n0; n1; n2; n3] in
  if negb valid then Some (REF_INVALID, dofZ 0)
  else
    let* a := ref_node_point r n0 in
    let* b := ref_node_point r n1 in
    let* c := ref_node_point r n2 in
    let* d := ref_node_point r n3 in
    Some (REF_SUCCESS, ref_node_xyz_vol a b c d).
End ops.

Section facts.
Context {D : Type} `{Dbl D}.
Implicit Types (r : REF_NODE D).

(** The coordinates of a node. *)
Definition xyz_of r (node : Z) : D * D * D :=
  let at_ k := (node_real r).[k + REF_NODE_REAL_PER * node] in (at_ 0, at_ 1, at_ 2).

Lemma ref_node_point_ok r bl node :
  node_core r bl -> REF_NODE_REAL_PER * node_max r <= REF_INT_MAX -> node ∈ valid_nodes r ->
  ref_node_point r node = Some (xyz_of r node).
Proof.
  intros Hc Hr [Hn _]%elem_of_valid_nodes. pose proof (nc_real _ _ Hc) as Hl.
  unfold ref_node_point, ref_node_xyz, REF_NODE_REAL_PER in *.
  rewrite !real_index_ok by (unfold REF_NODE_REAL_PER; lia). cbn [obind].
  rewrite !aget_aat by (unfold REF_NODE_REAL_PER; lia). done.
Qed.

Lemma all_valid_ok r bl nodes :
  node_core r bl -> all_valid r nodes = Some (bool_decide (Forall (fun n => n ∈ valid_nodes r) nodes)).
Proof.
  intros Hc. induction nodes as [|n nodes IH]; [done|]. cbn [all_valid foldr].
  rewrite ref_node_valid_eq by apply Hc. cbn [obind]. destruct (decide (n ∈ valid_nodes r)) as [Hn|Hn].
  - rewrite bool_decide_eq_true_2 by done. fold (all_valid r nodes). rewrite IH. f_equal. apply bool_decide_ext. rewrite Forall_cons. tauto.
  - rewrite bool_decide_eq_false_2 by done. f_equal. symmetry. apply bool_decide_eq_false. intros [? _]%Forall_cons. done.
Qed.

(** The volume of four nodes. *)
Lemma ref_node_tet_vol_ok r bl n0 n1 n2 n3 :
  node_core r bl -> REF_NODE_REAL_PER * node_max r <= REF_INT_MAX ->
  ref_node_tet_vol r [n0; n1; n2; n3] =
  Some (if bool_decide (Forall (fun n => n ∈ valid_nodes r) [n0; n1; n2; n3])
        then (REF_SUCCESS, ref_node_xyz_vol (xyz_of r n0) (xyz_of r n1) (xyz_of r n2) (xyz_of r n3))
        else (REF_INVALID, dofZ 0)).
Proof.
  intros Hc Hr. unfold ref_node_tet_vol. set (l := [n0; n1; n2; n3]).
  change (aget l 0) with (Some n0). change (aget l 1) with (Some n1). change (aget l 2) with (Some n2).
  change (aget l 3) with (Some n3). cbn [obind]. fold l. rewrite (all_valid_ok r bl) by done. cbn [obind].
  case_bool_decide as Hv; cbn [negb]; [|done].
  unfold l in Hv. rewrite !Forall_cons in Hv. destruct Hv as (H0 & H1 & H2 & H3 & _).
  rewrite !(ref_node_point_ok r bl) by done. done.
Qed.
End facts.
