(* ===== verification/RefCavity.v ===== *)
(** * ref_cavity.c: cavities

    A cavity is a set of tetrahedra and triangles to be removed from a grid (the
    two lists) and the faces and segments that bound it; [ref_cavity_replace]
    joins these to one vertex. The faces and the segments are two tables of the
    same form, [TABLE]; the C has the code of a table twice. The grid is an
    argument where the C follows the pointer of the cavity. *)
From S2P Require Import Prelude Rows Effect RefList RefAdj RefDbl RefMpi RefNode RefCellType RefCell RefCellQuery RefCellNode RefGeom RefGrid RefMeasure.
From stdpp Require Import prelude list gmap.
From Stdlib Require Import ZArith Lia.
Open Scope Z_scope.
Open Scope ref_scope.

Inductive REF_CAVITY_STATE :=
  | REF_CAVITY_UNKNOWN
  | REF_CAVITY_VISIBLE
  | REF_CAVITY_BOUNDARY_CONSTRAINED
  | REF_CAVITY_PARTITION_CONSTRAINED
  | REF_CAVITY_MANIFOLD_CONSTRAINED
  | REF_CAVITY_INCONSISTENT
  | REF_CAVITY_NOOP.

#[global] Instance REF_CAVITY_STATE_eq_dec : EqDecision REF_CAVITY_STATE.
Proof. solve_decision. Defined.

(** [nseg], [maxseg], [blankseg] and [s2n], or the same for faces. *)
Record TABLE := mkTABLE {
  t_n : Z;
  t_max : Z;
  t_blank : Z;
  t_a : list Z
}.

Record REF_CAVITY := mkREF_CAVITY {
  cav_state : REF_CAVITY_STATE;
  cav_node : Z;
  cav_surf_node : Z;
  cav_seg : TABLE;
  cav_face : TABLE;
  cav_tri_list : REF_LIST;
  cav_tet_list : REF_LIST;
  cav_split_node0 : Z;
  cav_split_node1 : Z;
  cav_collapse_node0 : Z;
  cav_collapse_node1 : Z;
  cav_seg_rm_adds_tet : bool
}.

(** Assignments to one member. *)
Definition set_cav_state x c := mkREF_CAVITY x (cav_node c) (cav_surf_node c) (cav_seg c) (cav_face c)
  (cav_tri_list c) (cav_tet_list c) (cav_split_node0 c) (cav_split_node1 c) (cav_collapse_node0 c)
  (cav_collapse_node1 c) (cav_seg_rm_adds_tet c).
Definition set_cav_node x c := mkREF_CAVITY (cav_state c) x (cav_surf_node c) (cav_seg c) (cav_face c)
  (cav_tri_list c) (cav_tet_list c) (cav_split_node0 c) (cav_split_node1 c) (cav_collapse_node0 c)
  (cav_collapse_node1 c) (cav_seg_rm_adds_tet c).
Definition set_cav_surf_node x c := mkREF_CAVITY (cav_state c) (cav_node c) x (cav_seg c) (cav_face c)
  (cav_tri_list c) (cav_tet_list c) (cav_split_node0 c) (cav_split_node1 c) (cav_collapse_node0 c)
  (cav_collapse_node1 c) (cav_seg_rm_adds_tet c).
Definition set_cav_seg x c := mkREF_CAVITY (cav_state c) (cav_node c) (cav_surf_node c) x (cav_face c)
  (cav_tri_list c) (cav_tet_list c) (cav_split_node0 c) (cav_split_node1 c) (cav_collapse_node0 c)
  (cav_collapse_node1 c) (cav_seg_rm_adds_tet c).
Definition set_cav_face x c := mkREF_CAVITY (cav_state c) (cav_node c) (cav_surf_node c) (cav_seg c) x
  (cav_tri_list c) (cav_tet_list c) (cav_split_node0 c) (cav_split_node1 c) (cav_collapse_node0 c)
  (cav_collapse_node1 c) (cav_seg_rm_adds_tet c).
Definition set_cav_tri_list x c := mkREF_CAVITY (cav_state c) (cav_node c) (cav_surf_node c) (cav_seg c)
  (cav_face c) x (cav_tet_list c) (cav_split_node0 c) (cav_split_node1 c) (cav_collapse_node0 c)
  (cav_collapse_node1 c) (cav_seg_rm_adds_tet c).
Definition set_cav_tet_list x c := mkREF_CAVITY (cav_state c) (cav_node c) (cav_surf_node c) (cav_seg c)
  (cav_face c) (cav_tri_list c) x (cav_split_node0 c) (cav_split_node1 c) (cav_collapse_node0 c)
  (cav_collapse_node1 c) (cav_seg_rm_adds_tet c).
Definition set_cav_split x y c := mkREF_CAVITY (cav_state c) (cav_node c) (cav_surf_node c) (cav_seg c)
  (cav_face c) (cav_tri_list c) (cav_tet_list c) x y (cav_collapse_node0 c) (cav_collapse_node1 c)
  (cav_seg_rm_adds_tet c).
Definition set_cav_collapse x y c := mkREF_CAVITY (cav_state c) (cav_node c) (cav_surf_node c) (cav_seg c)
  (cav_face c) (cav_tri_list c) (cav_tet_list c) (cav_split_node0 c) (cav_split_node1 c) x y
  (cav_seg_rm_adds_tet c).

(** [ref_cavity_seg_node] *)
Definition ref_cavity_seg_node (c : REF_CAVITY) : Z :=
  if negb (REF_EMPTY =? cav_surf_node c) then cav_surf_node c else cav_node c.

(** ** Tables *)

Section table.
Context `{Junk Z}.
Implicit Types (t : TABLE).

Definition table_get t (col row : Z) : option Z := row_get 3 (t_a t) col row.
Definition table_valid t (row : Z) : option bool :=
  if (0 <=? row) && (row <? t_max t) then
    let* v := table_get t 0 row in Some (negb (REF_EMPTY =? v))
  else Some false.
(** The entries of a row. *)
Definition table_row t (row : Z) : option (Z * Z * Z) :=
  let* a := table_get t 0 row in
  let* b := table_get t 1 row in
  let* c := table_get t 2 row in
  Some (a, b, c).
(** The loop over the valid rows, for a body that leaves the table alone. *)
Definition each_valid {T R} t (body : Z -> T -> option (ctl T R)) (s : T) : option (ctl T R) :=
  forx_up 0 (t_max t) (fun row s =>
    let* v := table_valid t row in
    if v : bool then body row s else Some (Next s)) s.

Definition table_create : option TABLE :=
  let* a := link_rows 3 0 10 (replicate 30 0) in
  Some (mkTABLE 0 10 0 a).
Definition table_release t (row : Z) : option TABLE :=
  let* a := row_put 3 0 row REF_EMPTY (t_a t) in
  let* a := row_put 3 1 row (t_blank t) a in
  let* n := ck_int (t_n t - 1) in
  Some (mkTABLE n (t_max t) row a).
Definition table_grow t : option TABLE :=
  if REF_EMPTY =? t_blank t then
    let orig := t_max t in
    let chunk := Z.max 100 (half_more orig) in
    let* max := ck_int (orig + chunk) in
    let* size := ck_int (3 * max) in
    let* a := link_rows 3 orig max (ref_realloc (t_a t) size) in
    Some (mkTABLE (t_n t) max orig a)
  else Some t.
Definition table_add t (nodes : list Z) : option TABLE :=
  let row := t_blank t in
  let* blank := table_get t 1 row in
  let* a := for_up 0 3 (fun node a => let* v := aget nodes node in row_put 3 node row v a) (t_a t) in
  let* n := ck_int (t_n t + 1) in
  Some (mkTABLE n (t_max t) blank a).
End table.

(** [ref_cavity_find_face]: [*found_face] and [*reversed], which is not set when
    there is no such face. *)
Definition same_face (a b : Z * Z * Z) : bool :=
  let '(a0, a1, a2) := a in let '(b0, b1, b2) := b in
  (a0 =? b0) && (a1 =? b1) && (a2 =? b2) || (a1 =? b0) && (a2 =? b1) && (a0 =? b2) ||
  (a2 =? b0) && (a0 =? b1) && (a1 =? b2).
Definition reversed_face (a b : Z * Z * Z) : bool :=
  let '(a0, a1, a2) := a in let '(b0, b1, b2) := b in
  (a2 =? b0) && (a1 =? b1) && (a0 =? b2) || (a1 =? b0) && (a0 =? b1) && (a2 =? b2) ||
  (a0 =? b0) && (a2 =? b1) && (a1 =? b2).
Definition face_triple (nodes : list Z) : option (Z * Z * Z) :=
  let* a := aget nodes 0 in
  let* b := aget nodes 1 in
  let* c := aget nodes 2 in
  Some (a, b, c).

Definition ref_cavity_find_face (c : REF_CAVITY) (nodes : list Z) : option (REF_STATUS * (Z * bool)) :=
  let* f := face_triple nodes in
  let* r :=
    each_valid (cav_face c) (fun face (_ : unit) =>
      let* g := table_row (cav_face c) face in
      if same_face f g then Some (Exit (REF_SUCCESS, (face, false)))
      else if reversed_face f g then Some (Exit (REF_SUCCESS, (face, true)))
      else Some (Next tt)) tt in
  Some (match r with Exit r => r | Next _ => (REF_NOT_FOUND, (REF_EMPTY, false)) end).

Definition ref_cavity_find_seg (c : REF_CAVITY) (nodes : list Z) : option (REF_STATUS * (Z * bool)) :=
  let* n0 := aget nodes 0 in
  let* n1 := aget nodes 1 in
  let* r :=
    each_valid (cav_seg c) (fun seg (_ : unit) =>
      let* '(s0, s1, _) := table_row (cav_seg c) seg in
      if (n0 =? s0) && (n1 =? s1) then Some (Exit (REF_SUCCESS, (seg, false)))
      else if (n1 =? s0) && (n0 =? s1) then Some (Exit (REF_SUCCESS, (seg, true)))
      else Some (Next tt)) tt in
  Some (match r with Exit r => r | Next _ => (REF_NOT_FOUND, (REF_EMPTY, false)) end).

Section ops.
Context {D : Type} `{Dbl D, Junk Z, Junk REF_ADJ_ITEM, Junk D}.
Implicit Types (c : REF_CAVITY) (g : REF_GRID D).

Definition ref_cavity_create : option (REF_STATUS * REF_CAVITY) :=
  let* seg := table_create in
  let* face := table_create in
  let '(st_tri, tri_list) := ref_list_create in
  let '(st_tet, tet_list) := ref_list_create in
  let c := mkREF_CAVITY REF_CAVITY_UNKNOWN REF_EMPTY REF_EMPTY seg face tri_list tet_list REF_EMPTY REF_EMPTY
    REF_EMPTY REF_EMPTY false in
  RSS st_tri c (RSS st_tet c (Some (REF_SUCCESS, c))).

(** Pieces of the functions: a new state and a return, the members of the
    cavity, and the calls that change one of them. *)
Definition stop {A} (x : REF_CAVITY_STATE) : fn REF_CAVITY A :=
  assign (set_cav_state x) ;! leave REF_SUCCESS.
Definition is_state (x : REF_CAVITY_STATE) c : bool := bool_decide (x = cav_state c).
Definition unless_state {A} (x : REF_CAVITY_STATE) (k : fn REF_CAVITY A) : fn REF_CAVITY A :=
  let! c := state in
  if is_state x c then leave REF_SUCCESS else k.
Definition while_unknown {A} (k : fn REF_CAVITY A) : fn REF_CAVITY A :=
  let! c := state in
  if is_state REF_CAVITY_UNKNOWN c then k else leave REF_SUCCESS.
Definition push_tet (cell : Z) : fn REF_CAVITY unit :=
  call (fun c => let* '(st, l) := ref_list_push (cav_tet_list c) cell in Some (st, set_cav_tet_list l c)).
Definition push_tri (cell : Z) : fn REF_CAVITY unit :=
  call (fun c => let* '(st, l) := ref_list_push (cav_tri_list c) cell in Some (st, set_cav_tri_list l c)).
Definition has_tet (cell : Z) : fn REF_CAVITY bool :=
  let! c := state in ask (ref_list_contains (cav_tet_list c) cell).
Definition has_tri (cell : Z) : fn REF_CAVITY bool :=
  let! c := state in ask (ref_list_contains (cav_tri_list c) cell).
(** Two [if]s that leave the function unless the cells of a process are its own. *)
Definition require_local (r : REF_CELL) g (cell : Z) : fn REF_CAVITY unit :=
  let! all_local := ask (ref_cell_all_local r (grid_node g) cell) in
  if all_local then fret tt else stop REF_CAVITY_PARTITION_CONSTRAINED.
Definition require_owned g (node : Z) : fn REF_CAVITY unit :=
  let! owned := use (ref_node_owned (grid_node g) node) in
  if owned then fret tt else stop REF_CAVITY_PARTITION_CONSTRAINED.
Definition face_nodes_of (r : REF_CELL) (cell_face cell : Z) : fn REF_CAVITY (list Z) :=
  let! n0 := use (ref_cell_f2n r 0 cell_face cell) in
  let! n1 := use (ref_cell_f2n r 1 cell_face cell) in
  let! n2 := use (ref_cell_f2n r 2 cell_face cell) in
  fret [n0; n1; n2].
Definition having_node (r : REF_CELL) (node : Z) : (Z -> fn REF_CAVITY unit) -> fn REF_CAVITY unit :=
  through (each_ref_cell_having_node r node).
Definition having_node2 (r : REF_CELL) (node0 node1 : Z) : (Z -> fn REF_CAVITY unit) -> fn REF_CAVITY unit :=
  through (each_ref_cell_having_node2 r node0 node1).

Definition ref_cavity_insert_face (nodes : list Z) : REF_CAVITY -> option (REF_STATUS * REF_CAVITY) := body (
  let! c := state in
  let! '(face, reversed) := ask_or REF_NOT_FOUND (ref_cavity_find_face c nodes) in
  if negb (REF_EMPTY =? face) then
    if reversed : bool then
      update (fun c => let* t := table_release (cav_face c) face in Some (set_cav_face t c)) ;!
      leave REF_SUCCESS
    else leave REF_INVALID
  else
    update (fun c => let* t := table_grow (cav_face c) in Some (set_cav_face t c)) ;!
    update (fun c => let* t := table_add (cav_face c) nodes in Some (set_cav_face t c))).

Definition ref_cavity_remove_seg_face (seg_nodes : list Z) : REF_CAVITY -> option (REF_STATUS * REF_CAVITY) := body (
  let! c := state in
  if list_n (cav_tet_list c) =? 0 then leave REF_SUCCESS
  else while_unknown (
    let! s0 := use (aget seg_nodes 0) in
    let! s1 := use (aget seg_nodes 1) in
    let! '(face, reversed) := ask (ref_cavity_find_face c [s0; s1; ref_cavity_seg_node c]) in
    require (negb (REF_EMPTY =? face)) ;!
    require reversed ;!
    update (fun c => let* t := table_release (cav_face c) face in Some (set_cav_face t c)))).

Definition ref_cavity_add_seg_face (seg_nodes : list Z) : REF_CAVITY -> option (REF_STATUS * REF_CAVITY) := body (
  let! c := state in
  if list_n (cav_tet_list c) =? 0 then leave REF_SUCCESS
  else while_unknown (
    let! s0 := use (aget seg_nodes 0) in
    let! s1 := use (aget seg_nodes 1) in
    if (s0 =? ref_cavity_seg_node c) || (s1 =? ref_cavity_seg_node c) then leave REF_SUCCESS
    else call (ref_cavity_insert_face [s0; s1; ref_cavity_seg_node c]))).

Definition ref_cavity_remove_seg_add_tets g (seg_nodes : list Z) : REF_CAVITY -> option (REF_STATUS * REF_CAVITY) := body (
  let tri := ref_grid_tri g in
  let tet := ref_grid_tet g in
  let! c := state in
  if negb (cav_seg_rm_adds_tet c) && (list_n (cav_tet_list c) =? 0) then leave REF_SUCCESS
  else while_unknown (
    let! s0 := use (aget seg_nodes 0) in
    let! s1 := use (aget seg_nodes 1) in
    let! '(ntri, tri_list) := ask (ref_cell_list_with2 tri s0 s1 2 (alloc 2)) in
    require (2 =? ntri) ;!
    having_node2 tet s0 s1 (fun cell =>
      let! already_have_it := has_tet cell in
      if already_have_it : bool then fret tt
      else
        push_tet cell ;!
        require_local tet g cell ;!
        count 0 (ref_cell_face_per tet) (fun cell_face =>
          let! face_nodes := face_nodes_of tet cell_face cell in
          let! tri_cell := ask_or REF_NOT_FOUND (ref_cell_with tri face_nodes) in
          let! tri0 := use (aget tri_list 0) in
          let! tri1 := use (aget tri_list 1) in
          if negb (REF_EMPTY =? tri_cell) && ((tri_cell =? tri0) || (tri_cell =? tri1)) then fret tt
          else call (ref_cavity_insert_face face_nodes))))).

Definition ref_cavity_insert_seg g (nodes : list Z) : REF_CAVITY -> option (REF_STATUS * REF_CAVITY) := body (
  let! c := state in
  let! '(seg, reversed) := ask_or REF_NOT_FOUND (ref_cavity_find_seg c nodes) in
  if negb (REF_EMPTY =? seg) then
    if reversed : bool then
      let! n2 := use (aget nodes 2) in
      let! s2 := use (table_get (cav_seg c) 2 seg) in
      if negb (n2 =? s2) then stop REF_CAVITY_BOUNDARY_CONSTRAINED
      else
        update (fun c => let* t := table_release (cav_seg c) seg in Some (set_cav_seg t c)) ;!
        call (ref_cavity_remove_seg_face nodes) ;!
        call (ref_cavity_remove_seg_add_tets g nodes)
    else leave REF_INVALID
  else
    update (fun c => let* t := table_grow (cav_seg c) in Some (set_cav_seg t c)) ;!
    update (fun c => let* t := table_add (cav_seg c) nodes in Some (set_cav_seg t c)) ;!
    call (ref_cavity_add_seg_face nodes)).

(** [ref_cavity_find_face_with_side]: the value is [*found_face]; a second face with
    the side leaves [REF_EMPTY] and an inconsistent cavity. It always succeeds. *)
Definition has_directed_side (f : Z * Z * Z) (node0 node1 : Z) : bool :=
  let '(f0, f1, f2) := f in
  (node0 =? f0) && (node1 =? f1) || (node0 =? f1) && (node1 =? f2) || (node0 =? f2) && (node1 =? f0).
Definition ref_cavity_find_face_with_side (node0 node1 : Z) : fn REF_CAVITY Z :=
  let! c := state in
  let! r :=
    use (each_valid (cav_face c) (fun face found_face =>
      let* f := table_row (cav_face c) face in
      if has_directed_side f node0 node1 then
        if negb (REF_EMPTY =? found_face) then Some (Exit tt) else Some (Next face)
      else Some (Next found_face)) REF_EMPTY) in
  match r with
  | Exit _ => assign (set_cav_state REF_CAVITY_INCONSISTENT) ;! fret REF_EMPTY
  | Next found_face => fret found_face
  end.

(** The side from entry [j] to entry [i] of the face is a side of one other. *)
Definition verify_side (face i j : Z) : fn REF_CAVITY unit :=
  let! c := state in
  let! ni := use (table_get (cav_face c) i face) in
  let! nj := use (table_get (cav_face c) j face) in
  let! found_face := ref_cavity_find_face_with_side ni nj in
  unless_state REF_CAVITY_INCONSISTENT (require (negb (REF_EMPTY =? found_face))).
Definition ref_cavity_verify_face_manifold : REF_CAVITY -> option (REF_STATUS * REF_CAVITY) := body (
  unless_state REF_CAVITY_INCONSISTENT (
  let! c := state in
  through (each_valid (cav_face c)) (fun face =>
    verify_side face 1 0 ;! verify_side face 2 1 ;! verify_side face 0 2))).

Definition ref_cavity_verify_seg_manifold : REF_CAVITY -> option (REF_STATUS * REF_CAVITY) := body (
  unless_state REF_CAVITY_INCONSISTENT (
  let! c := state in
  through (each_valid (cav_seg c)) (fun seg0 =>
    let! r :=
      use (each_valid (cav_seg c) (fun seg1 found_seg =>
        let* a := table_get (cav_seg c) 1 seg0 in
        let* b := table_get (cav_seg c) 0 seg1 in
        if a =? b then
          if negb (REF_EMPTY =? found_seg) then Some (Exit tt) else Some (Next seg1)
        else Some (Next found_seg)) REF_EMPTY) in
    match r with
    | Exit _ => stop REF_CAVITY_INCONSISTENT
    | Next found_seg => require (negb (REF_EMPTY =? found_seg))
    end))).

Definition ref_cavity_add_tri g (tri : Z) : REF_CAVITY -> option (REF_STATUS * REF_CAVITY) := body (
  let ref_cell := ref_grid_tri g in
  let! valid := use (ref_cell_valid ref_cell tri) in
  require valid ;!
  let! already_have_it := has_tri tri in
  if already_have_it : bool then leave REF_SUCCESS
  else
    require_local ref_cell g tri ;!
    push_tri tri ;!
    count 0 (ref_cell_edge_per ref_cell) (fun cell_edge =>
      let! n0 := use (ref_cell_e2n ref_cell 0 cell_edge tri) in
      let! n1 := use (ref_cell_e2n ref_cell 1 cell_edge tri) in
      let! id := use (ref_cell_c2n ref_cell (ref_cell_node_per ref_cell) tri) in
      call (ref_cavity_insert_seg g [n0; n1; id]) ;!
      while_unknown (fret tt))).

(** The nodes of a face, each of which has to be of the process. *)
Definition owned_face_nodes (r : REF_CELL) g (cell_face cell : Z) : fn REF_CAVITY (list Z) :=
  let! n0 := use (ref_cell_f2n r 0 cell_face cell) in
  require_owned g n0 ;!
  let! n1 := use (ref_cell_f2n r 1 cell_face cell) in
  require_owned g n1 ;!
  let! n2 := use (ref_cell_f2n r 2 cell_face cell) in
  require_owned g n2 ;!
  fret [n0; n1; n2].

Definition ref_cavity_add_tet g (tet : Z) : REF_CAVITY -> option (REF_STATUS * REF_CAVITY) := body (
  let ref_cell := ref_grid_tet g in
  let! valid := use (ref_cell_valid ref_cell tet) in
  require valid ;!
  let! already_have_it := has_tet tet in
  if already_have_it : bool then leave REF_SUCCESS
  else
    push_tet tet ;!
    count 0 (ref_cell_face_per ref_cell) (fun cell_face =>
      let! face_nodes := owned_face_nodes ref_cell g cell_face tet in
      call (ref_cavity_insert_face face_nodes) ;!
      while_unknown (fret tt))).

Definition ref_cavity_add_tet_without_faceid g (tet faceid : Z) : REF_CAVITY -> option (REF_STATUS * REF_CAVITY) := body (
  let tet_cell := ref_grid_tet g in
  let tri_cell := ref_grid_tri g in
  let! valid := use (ref_cell_valid tet_cell tet) in
  require valid ;!
  let! already_have_it := has_tet tet in
  if already_have_it : bool then leave REF_SUCCESS
  else
    push_tet tet ;!
    count 0 (ref_cell_face_per tet_cell) (fun cell_face =>
      let! face_nodes := owned_face_nodes tet_cell g cell_face tet in
      let! tri_index := ask_or REF_NOT_FOUND (ref_cell_with tri_cell face_nodes) in
      let! skip :=
        if negb (REF_EMPTY =? tri_index) then
          let! id := use (ref_cell_c2n tri_cell 3 tri_index) in fret (id =? faceid)
        else fret false in
      if skip : bool then fret tt
      else
        call (ref_cavity_insert_face face_nodes) ;!
        while_unknown (fret tt))).

Definition ref_cavity_form_empty (node : Z) : REF_CAVITY -> option (REF_STATUS * REF_CAVITY) := body (
  assign (set_cav_node node)).

(** Pieces of the functions that form a cavity: the protection of mixed grids, and a
    tetrahedron or triangle whose sides away from a vertex are inserted. *)
Definition require_tets g : fn REF_CAVITY unit :=
  if (0 <? cell_n (ref_grid_pyr g)) || (0 <? cell_n (ref_grid_pri g)) then stop REF_CAVITY_MANIFOLD_CONSTRAINED
  else fret tt.
Definition is_one_of (node : Z) (nodes : list Z) : bool := existsb (fun n => node =? n) nodes.
Definition take_tet g (cell : Z) : fn REF_CAVITY unit :=
  let! already_have_it := has_tet cell in
  require (negb already_have_it) ;!
  push_tet cell ;!
  require_local (ref_grid_tet g) g cell.
Definition insert_faces_without g (attached : list Z -> bool) (cell : Z) : fn REF_CAVITY unit :=
  count 0 (ref_cell_face_per (ref_grid_tet g)) (fun cell_face =>
    let! face_nodes := face_nodes_of (ref_grid_tet g) cell_face cell in
    if attached face_nodes then fret tt else call (ref_cavity_insert_face face_nodes)).
Definition take_tri g (cell : Z) : fn REF_CAVITY unit :=
  let! already_have_it := has_tri cell in
  require (negb already_have_it) ;!
  push_tri cell ;!
  require_local (ref_grid_tri g) g cell.
Definition insert_segs_without g (node cell : Z) : fn REF_CAVITY unit :=
  let tri := ref_grid_tri g in
  let! id := use (ref_cell_c2n tri (ref_cell_id_index tri) cell) in
  let side i j :=
    let! ni := use (ref_cell_c2n tri i cell) in
    let! nj := use (ref_cell_c2n tri j cell) in
    if is_one_of node [ni; nj] then fret tt else call (ref_cavity_insert_seg g [ni; nj; id]) in
  side 1 2 ;! side 2 0 ;! side 0 1.
Definition has_protected (r : REF_CELL) (protect cell : Z) : option bool :=
  for_up 0 (ref_cell_node_per r) (fun cell_node protected_cell =>
    if protected_cell : bool then Some true
    else let* v := ref_cell_c2n r cell_node cell in Some (protect =? v)) false.

Definition ref_cavity_form_ball g (node : Z) : REF_CAVITY -> option (REF_STATUS * REF_CAVITY) := body (
  call (ref_cavity_form_empty node) ;!
  require_owned g node ;!
  require_tets g ;!
  having_node (ref_grid_tet g) node (fun cell =>
    take_tet g cell ;!
    insert_faces_without g (is_one_of node) cell) ;!
  having_node (ref_grid_tri g) node (fun cell =>
    take_tri g cell ;!
    insert_segs_without g node cell) ;!
  call ref_cavity_verify_face_manifold ;!
  call ref_cavity_verify_seg_manifold).

Definition insert_tets g (node site protect : Z) : fn REF_CAVITY unit :=
  having_node (ref_grid_tet g) site (fun cell =>
    let! protected_cell := use (has_protected (ref_grid_tet g) protect cell) in
    if protected_cell : bool then fret tt
    else
      take_tet g cell ;!
      insert_faces_without g (is_one_of node) cell).

Definition ref_cavity_form_insert g (node site protect faceid : Z) : REF_CAVITY -> option (REF_STATUS * REF_CAVITY) := body (
  call (ref_cavity_form_empty node) ;!
  require_owned g node ;!
  require_owned g site ;!
  require_tets g ;!
  let tri := ref_grid_tri g in
  having_node tri site (fun cell =>
    let! protected_cell := use (has_protected tri protect cell) in
    if protected_cell : bool then fret tt
    else
      let! other_face :=
        if negb (REF_EMPTY =? faceid) then
          let! id := use (ref_cell_c2n tri (ref_cell_id_index tri) cell) in fret (negb (faceid =? id))
        else fret false in
      if other_face : bool then fret tt
      else
        take_tri g cell ;!
        insert_segs_without g node cell) ;!
  insert_tets g node site protect ;!
  call ref_cavity_verify_face_manifold ;!
  call ref_cavity_verify_seg_manifold).

Definition ref_cavity_form_insert_tet g (node site protect : Z) : REF_CAVITY -> option (REF_STATUS * REF_CAVITY) := body (
  call (ref_cavity_form_empty node) ;!
  require_owned g node ;!
  require_owned g site ;!
  require_tets g ;!
  insert_tets g node site protect ;!
  call ref_cavity_verify_face_manifold ;!
  call ref_cavity_verify_seg_manifold).

(** The tetrahedra around the edge, without the faces that have both its nodes. *)
Definition take_edge_tets g (node0 node1 : Z) : fn REF_CAVITY unit :=
  having_node2 (ref_grid_tet g) node0 node1 (fun cell =>
    take_tet g cell ;!
    insert_faces_without g (fun nodes => is_one_of node0 nodes && is_one_of node1 nodes) cell).

(** [ref_swap_node23] of ref_swap.c: the third nodes of the triangles on the two
    sides of the edge. *)
Definition opposite_of (node0 node1 : Z) (nodes : list Z) (s : Z * Z) : option (Z * Z) :=
  let* '(n0, n1, n2) := face_triple nodes in
  let '(node2, node3) := s in
  let node2 := if (node0 =? n0) && (node1 =? n1) then n2 else node2 in
  let node2 := if (node0 =? n1) && (node1 =? n2) then n0 else node2 in
  let node2 := if (node0 =? n2) && (node1 =? n0) then n1 else node2 in
  let node3 := if (node1 =? n0) && (node0 =? n1) then n2 else node3 in
  let node3 := if (node1 =? n1) && (node0 =? n2) then n0 else node3 in
  let node3 := if (node1 =? n2) && (node0 =? n0) then n1 else node3 in
  Some (node2, node3).
Definition ref_swap_node23 g (node0 node1 : Z) : option (REF_STATUS * (Z * Z)) :=
  let tri := ref_grid_tri g in
  let s := (REF_EMPTY, REF_EMPTY) in
  let* '(st, (ncell, cell_to_swap)) := ref_cell_list_with2 tri node0 node1 2 (alloc 2) in
  RSS st s (
  RAS (2 =? ncell) s (
  let* cell0 := aget cell_to_swap 0 in
  let* cell1 := aget cell_to_swap 1 in
  let* '(st, nodes) := ref_cell_nodes tri cell0 (alloc REF_CELL_MAX_SIZE_PER) in
  RSS st s (
  let* s := opposite_of node0 node1 nodes s in
  let* '(st, nodes) := ref_cell_nodes tri cell1 nodes in
  RSS st s (
  let* s := opposite_of node0 node1 nodes s in
  RAS (negb (REF_EMPTY =? fst s)) s (
  RAS (negb (REF_EMPTY =? snd s)) s (
  Some (REF_SUCCESS, s))))))).

(** The two triangles of the edge and the segments around them. *)
Definition swap_triangles g (node0 node1 : Z) : fn REF_CAVITY unit :=
  let tri := ref_grid_tri g in
  let! '(node2, node3) := ask (ref_swap_node23 g node0 node1) in
  assign (set_cav_surf_node node2) ;!
  let! id :=
    through_acc (each_ref_cell_having_node2 tri node0 node1) (fun cell _ =>
      push_tri cell ;!
      require_local tri g cell ;!
      use (ref_cell_c2n tri (ref_cell_id_index tri) cell)) REF_EMPTY in
  let! c := state in
  require (2 =? list_n (cav_tri_list c)) ;!
  require (negb (REF_EMPTY =? id)) ;!
  call (ref_cavity_insert_seg g [node0; node3; id]) ;!
  call (ref_cavity_insert_seg g [node3; node1; id]) ;!
  call (ref_cavity_insert_seg g [node1; node2; id]) ;!
  call (ref_cavity_insert_seg g [node2; node0; id]).

Definition ref_cavity_form_edge_swap g (node0 node1 node : Z) : REF_CAVITY -> option (REF_STATUS * REF_CAVITY) := body (
  call (ref_cavity_form_empty node) ;!
  require_owned g node0 ;!
  require_owned g node1 ;!
  require_owned g node ;!
  require_tets g ;!
  take_edge_tets g node0 node1 ;!
  let! has_triangle := ask (ref_cell_has_side (ref_grid_tri g) node0 node1) in
  (if has_triangle : bool then swap_triangles g node0 node1 else fret tt) ;!
  call ref_cavity_verify_face_manifold ;!
  call ref_cavity_verify_seg_manifold).

(** The loop over the sides of a triangle that are the edge, or are not. *)
Definition each_side g (node0 node1 cell : Z) (is_edge : bool) (k : Z -> Z -> Z -> fn REF_CAVITY unit)
    : fn REF_CAVITY unit :=
  let tri := ref_grid_tri g in
  count 0 (ref_cell_edge_per tri) (fun cell_edge =>
    let! n0 := use (ref_cell_e2n tri 0 cell_edge cell) in
    let! n1 := use (ref_cell_e2n tri 1 cell_edge cell) in
    if Bool.eqb is_edge
        ((Z.min node0 node1 =? Z.min n0 n1) && (Z.max node0 node1 =? Z.max n0 n1)) then
      let! id := use (ref_cell_c2n tri 3 cell) in k n0 n1 id
    else fret tt).

Definition ref_cavity_form_edge_split g (node0 node1 new_node : Z) : REF_CAVITY -> option (REF_STATUS * REF_CAVITY) := body (
  call (ref_cavity_form_empty new_node) ;!
  require_owned g node0 ;!
  require_owned g node1 ;!
  require_owned g new_node ;!
  require_tets g ;!
  assign (set_cav_split node0 node1) ;!
  take_edge_tets g node0 node1 ;!
  let tri := ref_grid_tri g in
  let! has_triangle := ask (ref_cell_has_side tri node0 node1) in
  (if has_triangle : bool then
    having_node2 tri node0 node1 (fun cell =>
      push_tri cell ;!
      require_local tri g cell ;!
      each_side g node0 node1 cell false (fun n0 n1 id =>
        call (ref_cavity_insert_seg g [n0; n1; id]))) ;!
    let! c := state in
    require ((1 =? list_n (cav_tri_list c)) || (2 =? list_n (cav_tri_list c))) ;!
    if 1 =? list_n (cav_tri_list c) then
      having_node2 tri node0 node1 (fun cell =>
        each_side g node0 node1 cell true (fun n0 n1 id =>
          call (ref_cavity_insert_seg g [n0; new_node; id]) ;!
          call (ref_cavity_insert_seg g [new_node; n1; id])))
    else fret tt
  else fret tt) ;!
  call ref_cavity_verify_face_manifold ;!
  call ref_cavity_verify_seg_manifold).

(** The nodes of an element, each of which has to be of the process, compared with
    two nodes: an element with both will be collapsed. *)
Definition will_be_collapsed (r : REF_CELL) g (node0 node1 cell : Z) : fn REF_CAVITY bool :=
  let! '(has_node0, has_node1) :=
    through_acc (forx_up 0 (ref_cell_node_per r)) (fun node '(has_node0, has_node1) =>
      let! v := use (ref_cell_c2n r node cell) in
      require_owned g v ;!
      fret (has_node0 || (node0 =? v), has_node1 || (node1 =? v))) (false, false) in
  fret (has_node0 && has_node1).

(** The tetrahedra around [around], one of the two nodes, and the triangles. *)
Definition collapse_tets g (node0 node1 around : Z) : fn REF_CAVITY unit :=
  let tet := ref_grid_tet g in
  having_node tet around (fun cell =>
    let! already_have_it := has_tet cell in
    if already_have_it : bool then fret tt
    else
      push_tet cell ;!
      let! collapsed := will_be_collapsed tet g node0 node1 cell in
      if collapsed : bool then fret tt else insert_faces_without g (is_one_of around) cell).
Definition collapse_tris g (node0 node1 around : Z) : fn REF_CAVITY unit :=
  let tri := ref_grid_tri g in
  having_node tri around (fun cell =>
    let! already_have_it := has_tri cell in
    if already_have_it : bool then fret tt
    else
      push_tri cell ;!
      let! collapsed := will_be_collapsed tri g node0 node1 cell in
      if collapsed : bool then fret tt
      else
        let side i j :=
          let! ni := use (ref_cell_c2n tri i cell) in
          let! nj := use (ref_cell_c2n tri j cell) in
          if negb (around =? ni) && negb (around =? nj) then
            let! id := use (ref_cell_c2n tri 3 cell) in
            call (ref_cavity_insert_seg g [ni; nj; id])
          else fret tt in
        side 0 1 ;! side 1 2 ;! side 2 0).

Definition ref_cavity_form_edge_collapse g (node0 node1 : Z) : REF_CAVITY -> option (REF_STATUS * REF_CAVITY) := body (
  call (ref_cavity_form_empty node0) ;!
  require_owned g node0 ;!
  require_owned g node1 ;!
  require_tets g ;!
  assign (set_cav_collapse node0 node1) ;!
  collapse_tets g node0 node1 node0 ;!
  collapse_tets g node0 node1 node1 ;!
  collapse_tris g node0 node1 node0 ;!
  collapse_tris g node0 node1 node1 ;!
  call ref_cavity_verify_face_manifold ;!
  call ref_cavity_verify_seg_manifold).

(** ** The result of a cavity *)

Definition attached_seg (node : Z) (s : Z * Z * Z) : bool :=
  let '(s0, s1, _) := s in (node =? s0) || (node =? s1).
Definition attached_face (node : Z) (f : Z * Z * Z) : bool :=
  let '(f0, f1, f2) := f in (node =? f0) || (node =? f1) || (node =? f2).

(** The flag is [*manifold]: no element that would be made is in the grid already,
    but for those that will be removed. *)
Definition makes_known (r : REF_CELL) (removed : REF_LIST) (nodes : list Z) : option (REF_STATUS * bool) :=
  let* '(st, cell) := ref_cell_with r nodes in
  RXS st REF_NOT_FOUND false (
  if negb (REF_EMPTY =? cell) then
    let* '(st, contains) := ref_list_contains removed cell in
    RSS st false (Some (REF_SUCCESS, negb contains))
  else Some (REF_SUCCESS, false)).
Definition makes_none_known (r : REF_CELL) (removed : REF_LIST) t (attached : Z * Z * Z -> bool)
    (nodes_of_row : Z * Z * Z -> list Z) : option (ctl unit (REF_STATUS * bool)) :=
  each_valid t (fun row (_ : unit) =>
    let* e := table_row t row in
    if attached e then Some (Next tt)
    else
      let* '(st, known) := makes_known r removed (nodes_of_row e) in
      match st with
      | REF_SUCCESS => Some (if known : bool then Exit (REF_SUCCESS, false) else Next tt)
      | _ => Some (Exit (st, false))
      end) tt.
Definition new_tri (node : Z) (s : Z * Z * Z) : list Z := let '(s0, s1, id) := s in [s0; s1; node; id].
Definition new_tet (node : Z) (f : Z * Z * Z) : list Z := let '(f0, f1, f2) := f in [f0; f1; f2; node].

Definition ref_cavity_manifold g c : option (REF_STATUS * bool) :=
  let seg_node := ref_cavity_seg_node c in
  let node := cav_node c in
  let* r := makes_none_known (ref_grid_tri g) (cav_tri_list c) (cav_seg c) (attached_seg seg_node) (new_tri seg_node) in
  match r with
  | Exit r => Some r
  | Next _ =>
      let* r := makes_none_known (ref_grid_tet g) (cav_tet_list c) (cav_face c) (attached_face node) (new_tet node) in
      Some (match r with Exit r => r | Next _ => (REF_SUCCESS, true) end)
  end.

(** ** Enlarging *)

Definition ref_cavity_visible g c (face : Z) : option (REF_STATUS * bool) :=
  let* f := table_row (cav_face c) face in
  let* '(st, volume) := ref_node_tet_vol (grid_node g) (new_tet (cav_node c) f) in
  RSS st false (
  Some (REF_SUCCESS, negb (dleb volume (node_min_volume (grid_node g))))).

Definition ref_cavity_check_visible g : REF_CAVITY -> option (REF_STATUS * REF_CAVITY) := body (
  let! c := state in
  let! owned := use (ref_node_owned (grid_node g) (cav_node c)) in
  require owned ;!
  while_unknown (
    through (each_valid (cav_face c)) (fun face =>
      let! f := use (table_row (cav_face c) face) in
      if attached_face (cav_node c) f then fret tt
      else
        let! visible := ask (ref_cavity_visible g c face) in
        if visible : bool then fret tt else stop REF_CAVITY_BOUNDARY_CONSTRAINED) ;!
    assign (set_cav_state REF_CAVITY_VISIBLE))).

Definition ref_cavity_enlarge_seg g (seg : Z) : REF_CAVITY -> option (REF_STATUS * REF_CAVITY) := body (
  let! c := state in
  let! valid := use (table_valid (cav_seg c) seg) in
  require valid ;!
  let! '(s0, s1, _) := use (table_row (cav_seg c) seg) in
  let! '(ntri, tri_list) := ask (ref_cell_list_with2 (ref_grid_tri g) s0 s1 2 (alloc 2)) in
  if negb (2 =? ntri) then stop REF_CAVITY_BOUNDARY_CONSTRAINED
  else
    let! tri0 := use (aget tri_list 0) in
    let! tri1 := use (aget tri_list 1) in
    let! have_cell0 := has_tri tri0 in
    let! have_cell1 := has_tri tri1 in
    require (negb (Bool.eqb have_cell0 have_cell1)) ;!
    (if have_cell0 : bool then call (ref_cavity_add_tri g tri1) else fret tt) ;!
    (if have_cell1 : bool then call (ref_cavity_add_tri g tri0) else fret tt)).

(** All the elements at the node are tetrahedra and triangles. *)
Definition only_tets g (node : Z) : option bool :=
  foldr (fun r rest =>
    let* e := ref_cell_node_empty r node in
    if e : bool then rest else Some false) (Some true)
    [ref_grid_pyr g; ref_grid_pri g; ref_grid_hex g; ref_grid_qua g].

Definition ref_cavity_enlarge_face g (face : Z) : REF_CAVITY -> option (REF_STATUS * REF_CAVITY) := body (
  let! c := state in
  let! valid := use (table_valid (cav_face c) face) in
  require valid ;!
  count 0 3 (fun face_node =>
    let! node := use (table_get (cav_face c) face_node face) in
    require_owned g node) ;!
  count 0 3 (fun face_node =>
    let! node := use (table_get (cav_face c) face_node face) in
    let! tets := use (only_tets g node) in
    if tets : bool then fret tt else stop REF_CAVITY_MANIFOLD_CONSTRAINED) ;!
  let! '(f0, f1, f2) := use (table_row (cav_face c) face) in
  let! '(tet0, tet1) := ask (ref_cell_with_face (ref_grid_tet g) [f0; f1; f2; f0]) in
  if REF_EMPTY =? tet0 then stop REF_CAVITY_BOUNDARY_CONSTRAINED
  else if REF_EMPTY =? tet1 then stop REF_CAVITY_BOUNDARY_CONSTRAINED
  else
    let! have_cell0 := has_tet tet0 in
    let! have_cell1 := has_tet tet1 in
    (if have_cell0 : bool then call (ref_cavity_add_tet g tet1) else fret tt) ;!
    (if have_cell1 : bool then call (ref_cavity_add_tet g tet0) else fret tt)).

(** One pass over the faces; the table may grow on the way. The flag is
    [keep_growing]. *)
Definition enlarge_pass g (fuel : nat) : fn REF_CAVITY bool :=
  again fuel (fun '(face, keep_growing) =>
    let! c := state in
    if face <? t_max (cav_face c) then
      let! valid := use (table_valid (cav_face c) face) in
      if negb valid then fret (Next (face + 1, keep_growing))
      else
        let! f := use (table_row (cav_face c) face) in
        if attached_face (cav_node c) f then fret (Next (face + 1, keep_growing))
        else
          let! visible := ask (ref_cavity_visible g c face) in
          if visible : bool then fret (Next (face + 1, keep_growing))
          else
            call (ref_cavity_enlarge_face g face) ;!
            while_unknown (fret (Next (face + 1, true)))
    else fret (Exit keep_growing)) (0, false).

Definition ref_cavity_enlarge_visible g (fuel : nat) : REF_CAVITY -> option (REF_STATUS * REF_CAVITY) := body (
  let! c := state in
  let! owned := use (ref_node_owned (grid_node g) (cav_node c)) in
  require owned ;!
  while_unknown (
    call ref_cavity_verify_face_manifold ;!
    again fuel (fun _ : unit =>
      let! keep_growing := enlarge_pass g fuel in
      fret (if keep_growing : bool then Next tt else Exit tt)) tt ;!
    let! c := state in
    let! manifold := ask (ref_cavity_manifold g c) in
    if negb manifold then stop REF_CAVITY_MANIFOLD_CONSTRAINED
    else
      assign (set_cav_state REF_CAVITY_VISIBLE) ;!
      call ref_cavity_verify_face_manifold)).

(** [ref_cavity_validate] leaves the cavity alone. *)
Definition ref_cavity_validate g c : option (REF_STATUS * unit) := body (
  let require_valid node :=
    let! valid := use (ref_node_valid (grid_node g) node) in require valid in
  require_valid (cav_node c) ;!
  (if negb (REF_EMPTY =? cav_surf_node c) then require_valid (cav_surf_node c) else fret tt) ;!
  through (each_valid (cav_face c)) (fun face =>
    count 0 3 (fun face_node =>
      let! node := use (table_get (cav_face c) face_node face) in require_valid node)) ;!
  through (each_valid (cav_seg c)) (fun seg =>
    count 0 2 (fun seg_node =>
      let! node := use (table_get (cav_seg c) seg_node seg) in require_valid node))) tt.

(** ** Replacing *)

(** The pieces of [ref_cavity_replace] that change the grid; the list is that of the
    nodes of removed elements. *)
Definition add_cell (type : REF_CELL_TYPE) (nodes : list Z) : fn (REF_GRID D * REF_LIST) unit :=
  call (fun '(g, l) =>
    let* '(st, (_, r)) := ref_cell_add (grid_cell g type) nodes in
    Some (st, (set_grid_cell type r g, l))).
Definition remove_cell (type : REF_CELL_TYPE) (cell : Z) : fn (REF_GRID D * REF_LIST) unit :=
  call (fun '(g, l) =>
    let* '(st, r) := ref_cell_remove (grid_cell g type) cell in
    Some (st, (set_grid_cell type r g, l))).
Definition push_node (node : Z) : fn (REF_GRID D * REF_LIST) unit :=
  call (fun '(g, l) => let* '(st, l) := ref_list_push l node in Some (st, (g, l))).
Definition require_valid_owned (node : Z) : fn (REF_GRID D * REF_LIST) unit :=
  let! '(g, _) := state in
  let! valid := use (ref_node_valid (grid_node g) node) in
  require valid ;!
  let! owned := use (ref_node_owned (grid_node g) node) in
  require owned.

Definition add_tets c : fn (REF_GRID D * REF_LIST) unit :=
  through (each_valid (cav_face c)) (fun face =>
    let! f := use (table_row (cav_face c) face) in
    if attached_face (cav_node c) f then fret tt
    else
      each (new_tet (cav_node c) f) require_valid_owned ;!
      add_cell REF_CELL_TET (new_tet (cav_node c) f) ;!
      let! '(g, _) := state in
      let! _ := ask (ref_node_tet_vol (grid_node g) (new_tet (cav_node c) f)) in
      fret tt).
Definition add_tris c : fn (REF_GRID D * REF_LIST) unit :=
  through (each_valid (cav_seg c)) (fun seg =>
    let! s := use (table_row (cav_seg c) seg) in
    if attached_seg (ref_cavity_seg_node c) s then fret tt
    else
      each (ztake 3 (new_tri (ref_cavity_seg_node c) s)) require_valid_owned ;!
      add_cell REF_CELL_TRI (new_tri (ref_cavity_seg_node c) s)).

(** The removal of the elements of one type; [node_per] of their entries are nodes. *)
Definition remove_listed (type : REF_CELL_TYPE) (node_per : Z) (removed : REF_LIST) : fn (REF_GRID D * REF_LIST) unit :=
  count 0 (list_n removed) (fun item =>
    let! cell := use (aget (list_value removed) item) in
    let! '(g, _) := state in
    let! nodes := ask (ref_cell_nodes (grid_cell g type) cell (alloc REF_CELL_MAX_SIZE_PER)) in
    count 0 node_per (fun i =>
      let! node := use (aget nodes i) in
      push_node node ;!
      require_valid_owned node) ;!
    remove_cell type cell).

(** The vertices that no element has any more, and their associations. *)
Definition drop_unused : fn (REF_GRID D * REF_LIST) unit :=
  let! '(_, l) := state in
  count 0 (list_n l) (fun item =>
    let! node := use (aget (list_value l) item) in
    let! '(g, _) := state in
    let! valid := use (ref_node_valid (grid_node g) node) in
    if negb valid then fret tt
    else
      let! no_tri := use (ref_cell_node_empty (ref_grid_tri g) node) in
      (if no_tri : bool then
        call (fun '(g, l) =>
          let* '(st, geom) := ref_geom_remove_all (grid_geom g) node in
          Some (st, (set_grid_geom geom g, l)))
      else fret tt) ;!
      let! no_tet := use (ref_cell_node_empty (ref_grid_tet g) node) in
      if no_tri && no_tet then
        call (fun '(g, l) =>
          let* '(st, n) := ref_node_remove (grid_node g) node in
          Some (st, (set_grid_node n g, l)))
      else fret tt).

(** The edge element, when there is one, of an edge that was split or collapsed. *)
Definition split_edg c : fn (REF_GRID D * REF_LIST) unit :=
  let node0 := cav_split_node0 c in
  let node1 := cav_split_node1 c in
  if negb (node0 =? REF_EMPTY) && negb (node1 =? REF_EMPTY) then
    let! '(g, _) := state in
    let! cell := ask_or REF_NOT_FOUND (ref_cell_with (ref_grid_edg g) [node0; node1]) in
    if negb (REF_EMPTY =? cell) then
      let! nodes := ask (ref_cell_nodes (ref_grid_edg g) cell (alloc REF_CELL_MAX_SIZE_PER)) in
      remove_cell REF_CELL_EDG cell ;!
      let! nodes := use (let* nodes := aset nodes 0 node0 in aset nodes 1 (ref_cavity_seg_node c)) in
      add_cell REF_CELL_EDG nodes ;!
      let! nodes := use (let* nodes := aset nodes 0 (ref_cavity_seg_node c) in aset nodes 1 node1) in
      add_cell REF_CELL_EDG nodes
    else fret tt
  else fret tt.
Definition collapse_edg c : fn (REF_GRID D * REF_LIST) unit :=
  let node0 := cav_collapse_node0 c in
  let node1 := cav_collapse_node1 c in
  if negb (node0 =? REF_EMPTY) && negb (node1 =? REF_EMPTY) then
    let! '(g, _) := state in
    let! cell := ask_or REF_NOT_FOUND (ref_cell_with (ref_grid_edg g) [node0; node1]) in
    if negb (REF_EMPTY =? cell) then
      let! _ := ask (ref_cell_nodes (ref_grid_edg g) cell (alloc REF_CELL_MAX_SIZE_PER)) in
      remove_cell REF_CELL_EDG cell ;!
      call (fun '(g, l) =>
        let* '(st, r) := ref_cell_replace_node (ref_grid_edg g) node1 node0 in
        Some (st, (set_grid_cell REF_CELL_EDG r g, l)))
    else fret tt
  else fret tt.

(** The checks at the end leave the grid alone. *)
Definition check_tets c : fn (REF_GRID D * REF_LIST) unit :=
  let! '(g, _) := state in
  through (each_ref_cell_having_node (ref_grid_tet g) (cav_node c)) (fun cell =>
    let! nodes := ask (ref_cell_nodes (ref_grid_tet g) cell (alloc REF_CELL_MAX_SIZE_PER)) in
    count 0 4 (fun i =>
      let! node := use (aget nodes i) in
      let! valid := use (ref_node_valid (grid_node g) node) in
      require valid)).
Definition check_elements : fn (REF_GRID D * REF_LIST) unit :=
  let! '(g, l) := state in
  let r := if grid_twod g || grid_surf g then ref_grid_tri g else ref_grid_tet g in
  count 0 (list_n l) (fun item =>
    let! node := use (aget (list_value l) item) in
    let! valid := use (ref_node_valid (grid_node g) node) in
    if valid : bool then
      let! empty := use (ref_cell_node_empty r node) in require (negb empty)
    else fret tt).

Definition replace_elements c : REF_GRID D * REF_LIST -> option (REF_STATUS * (REF_GRID D * REF_LIST)) := body (
  add_tets c ;!
  add_tris c ;!
  remove_listed REF_CELL_TET 4 (cav_tet_list c) ;!
  remove_listed REF_CELL_TRI 3 (cav_tri_list c) ;!
  drop_unused ;!
  split_edg c ;!
  collapse_edg c ;!
  check_tets c ;!
  check_elements).

Definition ref_cavity_replace c g : option (REF_STATUS * (REF_CAVITY * REF_GRID D)) :=
  RAS (is_state REF_CAVITY_VISIBLE c) (c, g) (
  let* '(st, c) := ref_cavity_verify_face_manifold c in
  RSS st (c, g) (
  let* '(st, c) := ref_cavity_verify_seg_manifold c in
  RSS st (c, g) (
  RAS (is_state REF_CAVITY_VISIBLE c) (c, g) (
  if (t_n (cav_seg c) =? 0) && (t_n (cav_face c) =? 0) && (list_n (cav_tri_list c) =? 0) &&
     (list_n (cav_tet_list c) =? 0) then Some (REF_FAILURE, (c, g))
  else
    let* '(st, (g, _)) := replace_elements c (g, snd ref_list_create) in
    Some (st, (c, g)))))).
End ops.
