(* ===== verification/RefCavityTable.v ===== *)
(** * ref_cavity.c: the tables of faces and segments

    A table stands for the list of its rows in use, up to order. The lemmas say what
    each operation does to that list. *)
From S2P Require Import Prelude Rows Chains Effect RefList RefAdj RefDbl RefMpi RefNode RefCellType RefCell RefCellQuery RefGeom RefGrid RefCavity.
From stdpp Require Import prelude list gmap.
From Stdlib Require Import ZArith Lia.
Open Scope Z_scope.
Open Scope ref_scope.

Definition triple (l : list Z) : Z * Z * Z := (l.[0], l.[1], l.[2]).

(** The rows of a table, and one of them. *)
Definition table_at (t : TABLE) (row : Z) : option (Z * Z * Z) := triple <$> row_at 3 (t_max t) (t_a t) row.
Definition table_rows (t : TABLE) : list (Z * Z * Z) := map triple (rows_list 3 (t_max t) (t_a t)).
Definition used (t : TABLE) : list Z := used_rows 3 (t_max t) (t_a t).

Definition table_links (t : TABLE) (bl : list Z) : Prop := rows_wf 3 (t_n t) (t_max t) (t_blank t) (t_a t) bl.

(** [k] more rows fit. *)
Definition table_budget : Z := 1000000.
Definition table_ok (k : Z) (t : TABLE) : Prop :=
  (exists bl, table_links t bl) /\ t_n t + k <= table_budget /\ t_max t <= 3000000.

Lemma three : 2 <= 3.
Proof. lia. Qed.

Section table.
Context `{Junk Z}.
Implicit Types (t : TABLE).

Lemma table_at_Some t row e :
  table_at t row = Some e <-> exists l, row_at 3 (t_max t) (t_a t) row = Some l /\ e = triple l.
Proof. unfold table_at. rewrite fmap_Some. naive_solver. Qed.

Lemma table_at_range t row e : table_at t row = Some e -> 0 <= row < t_max t.
Proof. intros (l & Hl & _)%table_at_Some. by apply row_at_Some in Hl as [? _]. Qed.

Lemma elem_of_used t row : row ∈ used t <-> is_Some (table_at t row).
Proof. unfold used. rewrite elem_of_used_rows. unfold table_at. by rewrite fmap_is_Some. Qed.

Lemma table_rows_used t : table_rows t = map (fun row => default (0, 0, 0) (table_at t row)) (used t).
Proof.
  unfold table_rows. rewrite rows_list_used, map_map. apply map_ext_in. intros row Hr%list_elem_of_In.
  unfold table_at. apply elem_of_used_rows in Hr as [l Hl]. rewrite Hl. cbn.
  by apply row_at_Some in Hl as (_ & _ & ->).
Qed.

Lemma elem_of_table_rows t e : e ∈ table_rows t <-> exists row, table_at t row = Some e.
Proof.
  unfold table_rows. rewrite list_elem_of_fmap. setoid_rewrite table_at_Some.
  setoid_rewrite elem_of_rows_list. naive_solver.
Qed.

Lemma used_lookup t (i : nat) row : used t !! i = Some row ->
  exists e, table_at t row = Some e /\ table_rows t !! i = Some e.
Proof.
  intros Hi. assert (row ∈ used t) as [e He]%elem_of_used by (by eapply list_elem_of_lookup_2).
  exists e. split; [done|]. rewrite table_rows_used.
  change (((fun row => default (0, 0, 0) (table_at t row)) <$> used t) !! i = Some e).
  rewrite list_lookup_fmap, Hi. cbn. by rewrite He.
Qed.

Lemma NoDup_used t : NoDup (used t).
Proof. apply NoDup_filter, NoDup_zrange. Qed.

Lemma table_ok_mono j k t : k <= j -> table_ok j t -> table_ok k t.
Proof. intros ? (? & ? & ?). split; [done|]. split; [lia|done]. Qed.

Lemma table_links_size t bl : table_links t bl ->
  zlen (t_a t) = 3 * t_max t /\ 3 * t_max t <= REF_INT_MAX /\ 1 <= t_max t.
Proof. intros Hwf. split; [apply Hwf|]. split; apply Hwf. Qed.

Lemma zlen_table_rows t bl : table_links t bl -> zlen (table_rows t) = t_n t.
Proof. intros Hwf. unfold table_rows. rewrite zlen_map. by eapply zlen_rows_list. Qed.

(** ** Reading *)

Section reading.
Context (t : TABLE) (bl : list Z) (Hwf : table_links t bl).

Lemma table_get_ok col row e :
  table_at t row = Some e -> 0 <= col < 3 ->
  table_get t col row = Some (if col =? 0 then e.1.1 else if col =? 1 then e.1.2 else e.2).
Proof using Hwf.
  intros (l & Hl & ->)%table_at_Some Hc. destruct (table_links_size t bl Hwf) as (Hlen & Hsize & _).
  apply row_at_Some in Hl as Hr. destruct Hr as (Hr & _ & _).
  unfold table_get. rewrite (row_get_eq 3 (t_max t) three Hsize) by done.
  rewrite <- (aat_row_at 3 (t_max t) (t_a t) row l) by done. cbn.
  assert (col = 0 \/ col = 1 \/ col = 2) as [-> | [-> | ->]] by lia; done.
Qed.

Lemma table_row_ok row e : table_at t row = Some e -> table_row t row = Some e.
Proof using Hwf.
  intros He. unfold table_row. rewrite !(table_get_ok _ _ _ He) by lia. cbn. by destruct e as [[? ?] ?].
Qed.

Lemma table_valid_ok row : table_valid t row = Some (bool_decide (is_Some (table_at t row))).
Proof using Hwf.
  destruct (table_links_size t bl Hwf) as (Hlen & Hsize & _). unfold table_valid, table_get.
  destruct (Z.leb_spec 0 row); cbn [andb]; [destruct (Z.ltb_spec row (t_max t)); cbn [andb]|].
  - rewrite (row_get_eq 3 (t_max t) three Hsize) by done. cbn [obind]. f_equal.
    apply eq_bool_decide. unfold table_at. rewrite fmap_is_Some, negb_true_iff, Z.eqb_neq.
    change (0 + 3 * row) with (3 * row). split.
    + intros Hne. eexists. apply row_at_Some. by split; [|split; [congruence|]].
    + intros (l & (_ & Hne & _)%row_at_Some). congruence.
  - f_equal. symmetry. apply bool_decide_eq_false. intros [e He]. apply table_at_range in He. lia.
  - f_equal. symmetry. apply bool_decide_eq_false. intros [e He]. apply table_at_range in He. lia.
Qed.

Lemma each_valid_eq {T R} (body : Z -> T -> option (ctl T R)) s :
  each_valid t body s = forl (used t) body s.
Proof using Hwf.
  unfold each_valid, used. apply each_used_row. intros row _. rewrite table_valid_ok.
  f_equal. apply bool_decide_ext. unfold table_at. by rewrite fmap_is_Some.
Qed.
End reading.

(** ** Changing *)

Lemma table_release_ok t bl k row e :
  table_links t bl -> table_ok k t -> table_at t row = Some e ->
  wp (table_release t row) (fun t' => (exists bl', table_links t' bl') /\ table_ok (k + 1) t' /\
    t_n t' = t_n t - 1 /\ table_rows t ≡ₚ e :: table_rows t').
Proof.
  intros Hwf (_ & Hn & Hmax) (l & Hl & ->)%table_at_Some.
  destruct (table_links_size t bl Hwf) as (Hlen & Hsize & Hm).
  apply row_at_Some in Hl as Hr. destruct Hr as (Hr & _ & _).
  pose proof (rows_n_bounds _ _ _ _ _ _ Hwf) as Hnb. unfold table_release, table_budget in *.
  apply wp_bind, (wp_row_put 3 (t_max t) three Hsize); [done|lia|done|].
  apply wp_bind, (wp_row_put 3 (t_max t) three Hsize); [by rewrite zlen_upd|lia|done|].
  wp_go; try alia.
  set (a' := upd (upd _ _ _) _ _).
  destruct (rows_wf_release 3 three _ _ _ _ a' row bl l Hwf Hl) as [Hwf' Hat].
  - split; [unfold a'; by rewrite !zlen_upd|]. intros col r Hc Hrr Hne. unfold a'.
    rewrite !(aat_row_put 3 (t_max t) three Hsize) by (rewrite ?zlen_upd; lia).
    destruct (Z.eqb_spec row r); [by subst|]. by rewrite !andb_false_r.
  - change (a'.[0 + 3 * row] = REF_EMPTY). unfold a'.
    rewrite !(aat_row_put 3 (t_max t) three Hsize) by (rewrite ?zlen_upd; lia). cbn. by rewrite Z.eqb_refl.
  - unfold a'. rewrite !(aat_row_put 3 (t_max t) three Hsize) by (rewrite ?zlen_upd; lia). cbn.
    by rewrite Z.eqb_refl.
  - split; [by eexists|]. split; [split; [by eexists|unfold table_budget; cbn; lia]|]. split; [done|].
    unfold table_rows. cbn. rewrite (rows_list_release 3 (t_max t) (t_a t) a' row l Hl Hat). done.
Qed.

Lemma table_grow_ok t bl k :
  table_links t bl -> table_ok (k + 1) t -> 0 <= k ->
  wp (table_grow t) (fun t' => (exists row bl', table_links t' (row :: bl')) /\ table_ok (k + 1) t' /\
    t_n t' = t_n t /\ table_rows t' = table_rows t).
Proof.
  intros Hwf Hok Hk. pose proof Hok as (_ & Hn & Hmax). unfold table_budget in *.
  destruct (table_links_size t bl Hwf) as (Hlen & Hsize & Hm). unfold table_grow. case Z.eqb_spec; intros Hb.
  - symmetry in Hb. apply (rows_blank_nil _ _ _ _ _ _ Hwf) in Hb as ->.
    pose proof (rw_n _ _ _ _ _ _ Hwf) as Hfull. rewrite zlen_nil in Hfull.
    assert (Hhalf : 0 <= 2 * half_more (t_max t) <= 3 * t_max t).
    { unfold half_more. rewrite Z.quot_div_nonneg by lia. pose proof (Z.div_pos (3 * t_max t) 2).
      pose proof (Z.mul_div_le (3 * t_max t) 2). lia. }
    set (max' := t_max t + Z.max 100 (half_more (t_max t))). assert (t_max t < max' <= 2500100) by lia.
    wp_go; unfold REF_INT_MAX, REF_INT_MIN in *; try lia.
    apply (wp_link_rows 3 max' three); [unfold REF_INT_MAX; lia|lia|lia|by apply zlen_realloc; lia|].
    intros a Hl Hlinked Hold. apply wp_ret.
    destruct (rows_wf_extend 3 three _ _ max' _ _ a Hwf) as [Hwf' Hsame];
      [lia|unfold REF_INT_MAX; lia|done|done| |].
    { intros col row Hc Hr. rewrite Hold by lia. apply aat_realloc; lia. }
    rewrite seqZ_cons in Hwf' by lia. split; [by do 2 eexists|].
    split; [split; [by eexists|unfold table_budget; cbn; lia]|]. split; [done|].
    unfold table_rows. cbn. by rewrite (rows_list_extend 3 (t_max t) max' (t_a t) a) by (done || lia).
  - apply wp_ret. split; [|done]. destruct bl as [|row bl]; [|by do 2 eexists].
    exfalso. apply Hb. symmetry. by apply (rows_blank_nil _ _ _ _ _ _ Hwf).
Qed.

Lemma table_add_ok t row bl k nodes :
  table_links t (row :: bl) -> table_ok (k + 1) t -> 3 <= zlen nodes -> nodes.[0] <> REF_EMPTY -> 0 <= k ->
  wp (table_add t nodes) (fun t' => (exists bl', table_links t' bl') /\ table_ok k t' /\ t_n t' = t_n t + 1 /\
    table_rows t' ≡ₚ triple nodes :: table_rows t).
Proof.
  intros Hwf (_ & Hn & Hmax) Hlen3 Hne Hk. unfold table_budget in *.
  destruct (table_links_size t _ Hwf) as (Hlen & Hsize & Hm).
  pose proof (rows_n_bounds _ _ _ _ _ _ Hwf) as Hnb.
  pose proof (rw_chain _ _ _ _ _ _ Hwf) as [Hblank _].
  assert (row ∈ row :: bl) as [Hr Hnone]%(rw_blank _ _ _ _ _ _ Hwf) by set_solver.
  unfold table_add. rewrite Hblank. unfold table_get.
  apply wp_bind, (wp_row_get 3 (t_max t) three Hsize); [done|lia|done|].
  apply wp_bind. apply (wp_for_up (fun i a => zlen a = 3 * t_max t /\
    (forall col r, 0 <= col < 3 -> 0 <= r < t_max t ->
       a.[col + 3 * r] = if (r =? row) && (col <? i) then nodes.[col] else (t_a t).[col + 3 * r]))); [lia| | |].
  - split; [done|]. intros col r Hc Hrr. by destruct (Z.ltb_spec col 0); [lia|rewrite andb_false_r].
  - intros i a Hi (Hla & Ha). apply wp_bind, wp_aget; [lia|].
    apply (wp_row_put 3 (t_max t) three Hsize); [done|lia|done|]. split; [by rewrite zlen_upd|].
    intros col r Hc Hrr. rewrite (aat_row_put 3 (t_max t) three Hsize) by lia. rewrite Ha by done.
    destruct (Z.eqb_spec i col), (Z.eqb_spec row r), (Z.eqb_spec r row), (Z.ltb_spec col i),
      (Z.ltb_spec col (i + 1)); subst; cbn; lia || done.
  - intros a (Hla & Ha). wp_go; try alia.
    destruct (rows_wf_take 3 three _ _ _ _ a row bl Hwf) as [Hwf' Hat].
    + split; [lia|]. intros col r Hc Hrr Hner. rewrite Ha by done. by case Z.eqb_spec.
    + change (a.[0 + 3 * row] <> REF_EMPTY). rewrite Ha by lia. by rewrite Z.eqb_refl.
    + split; [by eexists|]. split; [split; [by eexists|unfold table_budget; cbn; lia]|]. split; [done|].
      unfold table_rows. cbn. rewrite (rows_list_take 3 (t_max t) (t_a t) a row _ Hr Hnone Hat).
      cbn. f_equiv. unfold triple. rewrite !(aat_row_of 3) by lia. rewrite !Ha by lia. by rewrite Z.eqb_refl.
Qed.

Lemma table_create_ok k :
  0 <= k <= table_budget ->
  wp table_create (fun t => (exists bl, table_links t bl) /\ table_ok k t /\ t_n t = 0 /\ table_rows t = []).
Proof.
  intros Hk. unfold table_create. apply wp_bind.
  apply (wp_link_rows 3 10 three); [unfold REF_INT_MAX; lia|lia|lia|done|].
  intros a Hl Hlinked _. apply wp_ret.
  destruct (rows_wf_start 3 10 a) as [Hwf Hnone]; [lia|unfold REF_INT_MAX; lia|done|done|].
  split; [by eexists|]. split; [split; [by eexists|unfold table_budget in *; cbn; lia]|]. split; [done|].
  unfold table_rows. by rewrite rows_list_none.
Qed.
End table.

(** ** Faces *)

Lemma face_triple_ok nodes : 3 <= zlen nodes -> face_triple nodes = Some (triple nodes).
Proof. intros Hl. unfold face_triple. by rewrite !aget_aat by lia. Qed.

Section faces.
Context `{Junk Z}.
Implicit Types (c : REF_CAVITY) (f e : Z * Z * Z).

Lemma find_face_ok c bl nodes :
  table_links (cav_face c) bl -> 3 <= zlen nodes ->
  wp (ref_cavity_find_face c nodes) (fun '(st, (face, reversed)) =>
    st = REF_SUCCESS /\ (exists e, table_at (cav_face c) face = Some e /\
      if reversed : bool then same_face (triple nodes) e = false /\ reversed_face (triple nodes) e = true
      else same_face (triple nodes) e = true) \/
    st = REF_NOT_FOUND /\ face = REF_EMPTY /\ reversed = false /\
      forall e, e ∈ table_rows (cav_face c) ->
        same_face (triple nodes) e = false /\ reversed_face (triple nodes) e = false).
Proof.
  intros Hwf Hl. unfold ref_cavity_find_face. rewrite face_triple_ok by done. cbn [obind]. apply wp_bind.
  rewrite (each_valid_eq _ bl Hwf).
  apply (wp_forl (fun pre (_ : unit) => forall row e, row ∈ pre -> table_at (cav_face c) row = Some e ->
      same_face (triple nodes) e = false /\ reversed_face (triple nodes) e = false)
    (fun '(st, (face, reversed)) => st = REF_SUCCESS /\ exists e, table_at (cav_face c) face = Some e /\
      if reversed : bool then same_face (triple nodes) e = false /\ reversed_face (triple nodes) e = true
      else same_face (triple nodes) e = true)).
  - intros row e Hin; set_solver.
  - intros pre row post _ Hsplit Hpre.
    assert (row ∈ used (cav_face c)) as [e He]%elem_of_used by (rewrite Hsplit; set_solver).
    rewrite (table_row_ok _ bl Hwf row e He). cbn [obind].
    destruct (same_face (triple nodes) e) eqn:Hsame; [apply wp_ret; split; [done|by exists e]|].
    destruct (reversed_face (triple nodes) e) eqn:Hrev; apply wp_ret; [split; [done|by exists e]|].
    intros row' e' [Hin| ->%list_elem_of_singleton]%elem_of_app He'; [by eapply Hpre|].
    by replace e' with e by congruence.
  - intros _ Hall. apply wp_ret. right. split; [done|]. split; [done|]. split; [done|].
    intros e [row He]%elem_of_table_rows. apply (Hall row); [by apply elem_of_used; eexists|done].
  - intros [st [face reversed]] [-> ?]. apply wp_ret. by left.
Qed.

Lemma find_face_empty c face e :
  table_at (cav_face c) face = Some e -> (REF_EMPTY =? face) = false.
Proof. intros Hr%table_at_range. unfold REF_EMPTY. lia. Qed.

(** What [ref_cavity_insert_face] does to the faces: the first face with the same
    nodes decides. *)
Definition face_inserted (f : Z * Z * Z) (faces faces' : list (Z * Z * Z)) : Prop :=
  (exists g, same_face f g = false /\ reversed_face f g = true /\ faces ≡ₚ g :: faces') \/
  (forall g, g ∈ faces -> same_face f g = false /\ reversed_face f g = false) /\ faces' ≡ₚ f :: faces.

Lemma insert_face_ok k c nodes :
  table_ok (k + 1) (cav_face c) -> 0 <= k -> 3 <= zlen nodes -> nodes.[0] <> REF_EMPTY ->
  wp (ref_cavity_insert_face nodes c) (fun '(st, c') =>
    exists t, c' = set_cav_face t c /\ table_ok k t /\
    (st = REF_SUCCESS /\ face_inserted (triple nodes) (table_rows (cav_face c)) (table_rows t) \/
     st = REF_INVALID /\ table_rows t = table_rows (cav_face c) /\
       exists g, g ∈ table_rows (cav_face c) /\ same_face (triple nodes) g = true)).
Proof.
  intros Hok Hk Hl Hne. pose proof Hok as ((bl & Hwf) & Hn & Hm). unfold ref_cavity_insert_face.
  apply wp_body, fwp_bind, fwp_state, fwp_bind, fwp_ask_or.
  eapply wp_mono; [by apply (find_face_ok c bl)|]. intros [st [face reversed]] Hfind.
  rewrite decide_True by (destruct Hfind as [[-> _]|[-> _]]; auto).
  destruct Hfind as [(-> & g & Hg & Hrev)|(-> & -> & -> & Hall)].
  - rewrite (find_face_empty c face g Hg). cbn [negb]. destruct reversed.
    + apply fwp_bind, fwp_update, wp_bind. eapply wp_mono; [by eapply table_release_ok|].
      intros t (_ & Ht & _ & Hp). apply wp_ret, fwp_leave. exists t. split; [done|].
      split; [eapply table_ok_mono; [|exact Ht]; lia|]. left. split; [done|]. left. by exists g; destruct Hrev.
    + apply fwp_leave. exists (cav_face c). split; [by destruct c|].
      split; [eapply table_ok_mono; [|exact Hok]; lia|]. right. split; [done|]. split; [done|].
      exists g. split; [|done]. apply elem_of_table_rows. by eexists.
  - cbn. apply fwp_bind, fwp_update, wp_bind. eapply wp_mono; [by apply (table_grow_ok _ bl k)|].
    intros t ((row & bl' & Hwf') & Ht & Hnt & Hrows). apply wp_ret.
    apply fwp_update, wp_bind. cbn. eapply wp_mono; [by apply (table_add_ok t row bl' k)|].
    intros t' (_ & Ht' & _ & Hp). apply wp_ret. exists t'. split; [done|]. split; [done|]. left. split; [done|].
    right. split; [done|]. by rewrite Hp, Hrows.
Qed.

(** The sum of an alternating function grows by the face. *)
Lemma same_face_alt phi f g : alternating phi -> same_face f g = true -> on_face phi g = on_face phi f.
Proof.
  intros Ha. destruct f as [[f0 f1] f2], g as [[g0 g1] g2]. cbn. intros Hs.
  assert (f0 = g0 /\ f1 = g1 /\ f2 = g2 \/ f1 = g0 /\ f2 = g1 /\ f0 = g2 \/ f2 = g0 /\ f0 = g1 /\ f1 = g2)
    as [(-> & -> & ->)|[(-> & -> & ->)|(-> & -> & ->)]] by lia; [done| |].
  - by rewrite (alt_rotate _ Ha g2).
  - by rewrite (alt_rotate _ Ha g0).
Qed.

Lemma reversed_face_alt phi f g : alternating phi -> reversed_face f g = true -> on_face phi g = - on_face phi f.
Proof.
  intros Ha. destruct f as [[f0 f1] f2], g as [[g0 g1] g2]. cbn. intros Hs.
  assert (f2 = g0 /\ f1 = g1 /\ f0 = g2 \/ f1 = g0 /\ f0 = g1 /\ f2 = g2 \/ f0 = g0 /\ f2 = g1 /\ f1 = g2)
    as [(-> & -> & ->)|[(-> & -> & ->)|(-> & -> & ->)]] by lia.
  - apply (alt_reverse _ Ha).
  - apply (alt_swap _ Ha).
  - rewrite (alt_rotate _ Ha g0 g1 g2). apply (alt_reverse _ Ha).
Qed.

Lemma face_inserted_sum phi f faces faces' :
  alternating phi -> face_inserted f faces faces' ->
  sum_over (on_face phi) faces' = sum_over (on_face phi) faces + on_face phi f.
Proof.
  intros Ha [(g & _ & Hrev & Hp)|[_ Hp]]; rewrite (sum_over_perm _ _ _ Hp), sum_over_cons; [|lia].
  rewrite (reversed_face_alt phi f g Ha Hrev). lia.
Qed.
End faces.

(** C27. [ref_cavity_insert_face] on any table of faces with room for one more: the
    first face with the same nodes decides. If it has the opposite orientation, it
    is removed and the two destroy each other; if it has the same orientation, the
    call returns [REF_INVALID] and the faces stay; if there is none, the face is
    added. So a successful call adds the oriented face to the surface: the sum of
    every alternating function over the faces grows by its value on the face. *)
Theorem ref_cavity_insert_face_cancels `{Junk Z} (k : Z) (c : REF_CAVITY) (nodes : list Z) :
  table_ok (k + 1) (cav_face c) -> 0 <= k -> 3 <= zlen nodes -> nodes.[0] <> REF_EMPTY ->
  exists st t, ref_cavity_insert_face nodes c = Some (st, set_cav_face t c) /\ table_ok k t /\
    let f := triple nodes in
    let faces := table_rows (cav_face c) in
    let faces' := table_rows t in
    (st = REF_SUCCESS /\
      ((exists g, reversed_face f g = true /\ faces ≡ₚ g :: faces') \/
       (forall g, g ∈ faces -> same_face f g = false /\ reversed_face f g = false) /\ faces' ≡ₚ f :: faces) /\
      (forall phi, alternating phi ->
         sum_over (on_face phi) faces' = sum_over (on_face phi) faces + on_face phi f) \/
     st = REF_INVALID /\ faces' = faces /\ exists g, g ∈ faces /\ same_face f g = true).
Proof.
  intros Hok Hk Hl Hne. pose proof (insert_face_ok k c nodes Hok Hk Hl Hne) as Hins.
  apply wp_is_Some in Hins as Hs. destruct Hs as [[st c'] He]. rewrite He in Hins.
  apply wp_ret_inv in Hins as (t & -> & Ht & Hcase). exists st, t. split; [done|]. split; [done|].
  destruct Hcase as [[-> Hins]|Hinv]; [|by right]. left. split; [done|]. split.
  - destruct Hins as [(g & _ & ? & ?)|?]; [left; by exists g|by right].
  - intros phi Hphi. by apply face_inserted_sum.
Qed.

Module CavityExample.
#[local] Instance junk_int : Junk Z := fun k => Z.of_nat k - 7.

Definition empty_table : TABLE := default (mkTABLE 0 0 0 []) table_create.
Definition empty_list : REF_LIST := snd ref_list_create.
Definition cavity_with (faces : TABLE) : REF_CAVITY :=
  mkREF_CAVITY REF_CAVITY_UNKNOWN 7 REF_EMPTY empty_table faces empty_list empty_list REF_EMPTY REF_EMPTY
    REF_EMPTY REF_EMPTY false.

Lemma empty_table_ok k : 0 <= k <= table_budget -> table_ok k empty_table /\ table_rows empty_table = [].
Proof.
  intros Hk. pose proof (table_create_ok k Hk) as Hc. unfold empty_table.
  apply wp_is_Some in Hc as Hs. destruct Hs as [t He]. rewrite He in *.
  by apply wp_ret_inv in Hc as (_ & ? & _ & ?).
Qed.
End CavityExample.
#[local] Existing Instance CavityExample.junk_int.

Lemma ref_cavity_insert_face_cancels_witness :
  let c := CavityExample.cavity_with CavityExample.empty_table in
  (table_ok (4 + 1) (cav_face c) /\ 0 <= 4 /\ 3 <= zlen [3; 1; 2] /\ [3; 1; 2].[0] <> REF_EMPTY) /\
  exists st t, ref_cavity_insert_face [3; 1; 2] c = Some (st, set_cav_face t c) /\ table_ok 4 t /\
    let f := triple [3; 1; 2] in
    let faces := table_rows (cav_face c) in
    let faces' := table_rows t in
    (st = REF_SUCCESS /\
      ((exists g, reversed_face f g = true /\ faces ≡ₚ g :: faces') \/
       (forall g, g ∈ faces -> same_face f g = false /\ reversed_face f g = false) /\ faces' ≡ₚ f :: faces) /\
      (forall phi, alternating phi ->
         sum_over (on_face phi) faces' = sum_over (on_face phi) faces + on_face phi f) \/
     st = REF_INVALID /\ faces' = faces /\ exists g, g ∈ faces /\ same_face f g = true).
Proof.
  assert (Hok : table_ok 5 CavityExample.empty_table)
    by (apply (CavityExample.empty_table_ok 5); vm_compute; split; congruence).
  split; [split; [exact Hok|split; [lia|split; [vm_compute; congruence|vm_compute; congruence]]]|].
  apply (ref_cavity_insert_face_cancels 4); [exact Hok|lia|vm_compute; congruence|vm_compute; congruence].
Defined.

(** ** The checks for manifolds *)

Lemma has_directed_side_iff f a b : has_directed_side f a b = true <-> (a, b) ∈ sides f.
Proof.
  destruct f as [[f0 f1] f2]. cbn. rewrite !elem_of_cons. split; intros Hs.
  - assert (a = f0 /\ b = f1 \/ a = f1 /\ b = f2 \/ a = f2 /\ b = f0) as [[-> ->]|[[-> ->]|[-> ->]]] by lia; auto.
  - destruct Hs as [[= -> ->]|[[= -> ->]|[[= -> ->]|Hs]]]; [lia|lia|lia|]. by apply not_elem_of_nil in Hs.
Qed.

(** The row is the only one whose face has the side. *)
Definition only_with_side (t : TABLE) (a b row : Z) : Prop :=
  (exists g, table_at t row = Some g /\ (a, b) ∈ sides g) /\
  forall row' g', table_at t row' = Some g' -> (a, b) ∈ sides g' -> row' = row.

Lemma matched_of_rows t :
  (forall row e a b, table_at t row = Some e -> (a, b) ∈ sides e -> exists row', only_with_side t b a row') ->
  matched (table_rows t).
Proof.
  intros Hm i f a b Hi Hs.
  assert (Hlook : forall i f, table_rows t !! i = Some f ->
    exists row, used t !! i = Some row /\ table_at t row = Some f).
  { intros k g Hk. rewrite table_rows_used in Hk.
    change (((fun row => default (0, 0, 0) (table_at t row)) <$> used t) !! k = Some g) in Hk.
    apply list_lookup_fmap_Some in Hk as (row & -> & Hrow). exists row. split; [done|].
    destruct (used_lookup t k row Hrow) as (e & -> & _). done. }
  destruct (Hlook i f Hi) as (row & _ & Hrow). destruct (Hm row f a b Hrow Hs) as (row' & (g & Hg & Hgs) & Hu).
  assert (row' ∈ used t) as (j & Hj)%list_elem_of_lookup by (apply elem_of_used; by eexists).
  exists j. split.
  - exists g. split; [|done]. destruct (used_lookup t j row' Hj) as (e & He & Hje). congruence.
  - intros j' g' Hj' Hg's. destruct (Hlook j' g' Hj') as (row'' & Hu'' & Hr'').
    assert (row'' = row') as -> by (by eapply Hu). eapply NoDup_lookup; [apply (NoDup_used t)|done|done].
Qed.

Section manifold.
Context `{Junk Z}.
Implicit Types (c : REF_CAVITY).

Lemma set_cav_state_same c : set_cav_state (cav_state c) c = c.
Proof. by destruct c. Qed.

Lemma find_side_ok c bl a b (Q : Z -> REF_CAVITY -> Prop) E :
  table_links (cav_face c) bl ->
  Q REF_EMPTY (set_cav_state REF_CAVITY_INCONSISTENT c) ->
  Q REF_EMPTY c ->
  (forall face, 0 <= face -> only_with_side (cav_face c) a b face -> Q face c) ->
  fwp (ref_cavity_find_face_with_side a b) Q E c.
Proof.
  intros Hwf Hinc Hnone Hone. apply fwp_bind, fwp_state, fwp_bind, fwp_use.
  rewrite (each_valid_eq _ bl Hwf).
  apply (wp_forl (fun pre found =>
      (found = REF_EMPTY /\ forall row e, row ∈ pre -> table_at (cav_face c) row = Some e -> (a, b) ∉ sides e) \/
      (0 <= found /\ (exists g, table_at (cav_face c) found = Some g /\ (a, b) ∈ sides g) /\
       forall row e, row ∈ pre -> table_at (cav_face c) row = Some e -> (a, b) ∈ sides e -> row = found))
    (fun _ => True)).
  - left. split; [done|]. intros row e Hr. set_solver.
  - intros pre row post found Hsplit Hfound.
    assert (row ∈ used (cav_face c)) as [e He]%elem_of_used by (rewrite Hsplit; set_solver).
    rewrite (table_row_ok _ bl Hwf row e He). cbn [obind]. apply table_at_range in He as Hrange.
    destruct (has_directed_side e a b) eqn:Hs.
    + apply has_directed_side_iff in Hs. destruct Hfound as [[-> Hpre]|(Hf & _)].
      * rewrite Z.eqb_refl. apply wp_ret. right. split; [lia|]. split; [by exists e|].
        intros row' e' [Hin| ->%list_elem_of_singleton]%elem_of_app He' Hs'; [|done]. by destruct (Hpre row' e').
      * rewrite (proj2 (Z.eqb_neq REF_EMPTY found)) by (unfold REF_EMPTY; lia). by apply wp_ret.
    + assert (Hno : (a, b) ∉ sides e) by (rewrite <- has_directed_side_iff; congruence).
      apply wp_ret. destruct Hfound as [[-> Hpre]|(Hf & Hg & Hpre)]; [left|right].
      * split; [done|]. intros row' e' [Hin| ->%list_elem_of_singleton]%elem_of_app He'; [by eapply Hpre|].
        by replace e' with e by congruence.
      * split; [done|]. split; [done|].
        intros row' e' [Hin| ->%list_elem_of_singleton]%elem_of_app He' Hs'; [by eapply Hpre|].
        by replace e' with e in Hs' by congruence.
  - intros found Hfound. apply fwp_ret. destruct Hfound as [[-> _]|(Hf & Hg & Hall)]; [done|].
    apply Hone; [done|]. split; [done|]. intros row' g' Hg' Hs'. apply (Hall row' g'); [|done|done].
    apply elem_of_used. by eexists.
  - intros [] _. by apply fwp_bind, fwp_assign, fwp_ret.
Qed.

(** What a check leaves: a cavity that differs in its state. *)
Definition checked (P : Prop) c (x : REF_STATUS * REF_CAVITY) : Prop :=
  let '(st, c') := x in
  exists s, c' = set_cav_state s c /\ (s = cav_state c \/ s = REF_CAVITY_INCONSISTENT) /\
    (st = REF_SUCCESS -> s <> REF_CAVITY_INCONSISTENT -> P).

Lemma checked_same (P : Prop) c st : (st = REF_SUCCESS -> P) -> checked P c (st, c).
Proof. intros HP. exists (cav_state c). rewrite set_cav_state_same. auto. Qed.
Lemma checked_inconsistent (P : Prop) c st : checked P c (st, set_cav_state REF_CAVITY_INCONSISTENT c).
Proof. exists REF_CAVITY_INCONSISTENT. split; [done|]. split; [by right|done]. Qed.
Lemma checked_already (P : Prop) c st : REF_CAVITY_INCONSISTENT = cav_state c -> checked P c (st, c).
Proof.
  intros Hst. exists (cav_state c). rewrite set_cav_state_same. split; [done|]. split; [by left|].
  intros _ Hne. congruence.
Qed.

Lemma verify_face_ok c bl :
  table_links (cav_face c) bl ->
  wp (ref_cavity_verify_face_manifold c) (checked (matched (table_rows (cav_face c))) c).
Proof.
  intros Hwf. apply wp_body, fwp_bind, fwp_state. unfold is_state. case_bool_decide as Hst.
  { by apply fwp_leave, checked_already. }
  apply fwp_bind, fwp_state.
  apply (fwp_through (used (cav_face c))) with (P := fun pre c' => c' = c /\
    forall row e, row ∈ pre -> table_at (cav_face c) row = Some e -> forall a b, (a, b) ∈ sides e ->
      exists row', only_with_side (cav_face c) b a row').
  - intros body s. apply (each_valid_eq _ bl Hwf).
  - split; [done|]. intros row e Hr. set_solver.
  - intros pre row post c' Hsplit [-> Hpre].
    assert (row ∈ used (cav_face c)) as [e He]%elem_of_used by (rewrite Hsplit; set_solver).
    assert (Hside : forall i j a b (Q : REF_CAVITY -> Prop), table_get (cav_face c) i row = Some a ->
      table_get (cav_face c) j row = Some b ->
      ((exists row', only_with_side (cav_face c) a b row') -> Q c) ->
      fwp (verify_side row i j) (fun _ => Q) (fun st c' => checked (matched (table_rows (cav_face c))) c (st, c')) c).
    { intros i j a b Q Ha Hb HQ. apply fwp_bind, fwp_state, fwp_bind, fwp_use. rewrite Ha. apply wp_ret.
      apply fwp_bind, fwp_use. rewrite Hb. apply wp_ret. apply fwp_bind, (find_side_ok c bl); [done|..].
      - by apply fwp_bind, fwp_state, fwp_leave, checked_inconsistent.
      - apply fwp_bind, fwp_state. unfold is_state. rewrite bool_decide_eq_false_2 by done.
        apply fwp_leave. by apply checked_same.
      - intros face Hf Hface. apply fwp_bind, fwp_state. unfold is_state. rewrite bool_decide_eq_false_2 by done.
        destruct (Z.eqb_spec REF_EMPTY face) as [Hbad|_]; [unfold REF_EMPTY in Hbad; lia|].
        apply fwp_ret, HQ. by exists face. }
    apply fwp_bind. eapply Hside; [by apply (table_get_ok _ bl Hwf _ _ _ He)|by apply (table_get_ok _ bl Hwf _ _ _ He)|].
    intros H01. apply fwp_bind.
    eapply Hside; [by apply (table_get_ok _ bl Hwf _ _ _ He)|by apply (table_get_ok _ bl Hwf _ _ _ He)|].
    intros H12.
    eapply Hside; [by apply (table_get_ok _ bl Hwf _ _ _ He)|by apply (table_get_ok _ bl Hwf _ _ _ He)|].
    intros H20. split; [done|].
    intros row' e' [Hin| ->%list_elem_of_singleton]%elem_of_app He' a b Hs; [by eapply Hpre|].
    assert (e' = e) as -> by congruence. destruct e as [[e0 e1] e2]. cbn in *.
    rewrite !elem_of_cons in Hs. destruct Hs as [[= -> ->]|[[= -> ->]|[[= -> ->]|Hs]]]; try done.
    by apply not_elem_of_nil in Hs.
  - intros c' [-> Hall]. apply checked_same. intros _. apply matched_of_rows. intros row e a b He.
    apply (Hall row e); [|done]. apply elem_of_used. by eexists.
Qed.

Lemma verify_seg_ok c bl :
  table_links (cav_seg c) bl -> wp (ref_cavity_verify_seg_manifold c) (checked True c).
Proof.
  intros Hwf. apply wp_body, fwp_bind, fwp_state. unfold is_state. case_bool_decide as Hst.
  { by apply fwp_leave, checked_already. }
  apply fwp_bind, fwp_state.
  apply (fwp_through (used (cav_seg c))) with (P := fun _ c' => c' = c).
  - intros body s. apply (each_valid_eq _ bl Hwf).
  - done.
  - intros pre row post c' Hsplit ->.
    assert (row ∈ used (cav_seg c)) as [e He]%elem_of_used by (rewrite Hsplit; set_solver).
    apply fwp_bind, fwp_use. rewrite (each_valid_eq _ bl Hwf).
    apply (wp_forl (fun _ _ => True) (fun _ => True)); [done| | |].
    + intros pre' row' post' found Hsplit' _.
      assert (row' ∈ used (cav_seg c)) as [e' He']%elem_of_used by (rewrite Hsplit'; set_solver).
      rewrite (table_get_ok _ bl Hwf _ _ _ He), (table_get_ok _ bl Hwf _ _ _ He') by lia. cbn [obind].
      repeat case_match; by apply wp_ret.
    + intros found _. apply fwp_require; [done|]. intros _. by apply checked_same.
    + intros [] _. apply fwp_bind, fwp_assign, fwp_leave, checked_inconsistent.
  - intros c' ->. by apply checked_same.
Qed.
End manifold.
