(* ===== verification/RefCavityReplace.v ===== *)
(** * ref_cavity.c: what replacing a cavity does to the surface of the mesh

    [grid_boundary phi g] is the sum of the alternating function [phi] over the
    faces of the tetrahedra less that over the triangles: it is zero for every
    [phi] exactly when every face of a tetrahedron is shared with an opposite face
    or covered by a triangle of its orientation. The theorem says by how much
    [ref_cavity_replace] changes it. *)
From S2P Require Import Prelude Rows Chains Effect RefList RefAdj RefDbl RefMpi RefNode RefCellType RefCell RefCellSpec RefCellQuery RefCellNode RefGeom RefGrid RefMeasure RefCavity RefCavityTable.
From stdpp Require Import prelude list gmap.
From Stdlib Require Import ZArith Lia SpecFloat.
Open Scope Z_scope.
Open Scope ref_scope.

(** ** The boundary of the mesh *)

(** The faces of a tetrahedron, from the tables of ref_cell.c. *)
Definition tet_faces (entries : list Z) : list (Z * Z * Z) :=
  let f2n := cell_f2n (snd (ref_cell_initialize REF_CELL_TET)) in
  map (fun face => (entries.[f2n.[0 + 4 * face]], entries.[f2n.[1 + 4 * face]], entries.[f2n.[2 + 4 * face]]))
    (zrange 4).
Definition around_tet (phi : Z -> Z -> Z -> Z) (entries : list Z) : Z := sum_over (on_face phi) (tet_faces entries).
Definition on_tri (phi : Z -> Z -> Z -> Z) (entries : list Z) : Z := on_face phi (triple entries).

Definition mesh_boundary (phi : Z -> Z -> Z -> Z) (tets tris : gmap Z (list Z)) : Z :=
  map_sum (around_tet phi) tets - map_sum (on_tri phi) tris.
Definition grid_boundary {D} (phi : Z -> Z -> Z -> Z) (g : REF_GRID D) : Z :=
  mesh_boundary phi (cell_map (ref_grid_tet g)) (cell_map (ref_grid_tri g)).

(** The entries of a list of elements. *)
Definition entries_of (m : gmap Z (list Z)) (cell : Z) : list Z := default [] (m !! cell).

(** What a cavity puts into the mesh less what it takes out: its faces and segments,
    joined to the node, for the elements of its lists. *)
Definition cavity_surplus (phi : Z -> Z -> Z -> Z) (c : REF_CAVITY) (tets tris : gmap Z (list Z)) : Z :=
  sum_over (on_face phi) (table_rows (cav_face c)) -
  sum_over (fun cell => around_tet phi (entries_of tets cell)) (list_content (cav_tet_list c)) -
  (sum_over (fun s => phi s.1.1 s.1.2 (ref_cavity_seg_node c)) (table_rows (cav_seg c)) -
   sum_over (fun cell => on_tri phi (entries_of tris cell)) (list_content (cav_tri_list c))).

Lemma tet_faces_eq a b c d :
  tet_faces [a; b; c; d] = [(b, d, c); (a, c, d); (a, d, b); (a, b, c)].
Proof. done. Qed.

(** A tetrahedron on a face: the face, and the sides joined to the node. *)
Section cone.
Context (phi : Z -> Z -> Z -> Z) (Halt : alternating phi).

Definition open_face (node : Z) (f : Z * Z * Z) : Z :=
  on_face phi f - sum_over (fun e => phi e.1 e.2 node) (sides f).

Lemma around_cone f node : around_tet phi (new_tet node f) = open_face node f.
Proof using Halt.
  destruct f as [[a b] c]. unfold around_tet, new_tet, open_face. rewrite tet_faces_eq. cbn.
  pose proof (alt_swap_12 _ Halt b c node). pose proof (alt_swap _ Halt c a node).
  pose proof (alt_swap_12 _ Halt a b node). lia.
Qed.

Lemma attached_open_face f node : attached_face node f = true -> open_face node f = 0.
Proof using Halt.
  destruct f as [[a b] c]. unfold attached_face, open_face. cbn. intros Ha.
  assert (node = a \/ node = b \/ node = c) as [->|[->| ->]] by lia.
  - rewrite (alt_02 _ Halt), (alt_12 _ Halt), (alt_rotate _ Halt a b c). lia.
  - rewrite (alt_12 _ Halt), (alt_02 _ Halt), <- (alt_rotate _ Halt c a b), (alt_rotate _ Halt c a b). lia.
  - rewrite (alt_12 _ Halt), (alt_02 _ Halt). lia.
Qed.

Lemma attached_seg_zero s node : attached_seg node s = true -> phi s.1.1 s.1.2 node = 0.
Proof using Halt.
  destruct s as [[a b] id]. cbn. intros Ha. assert (node = a \/ node = b) as [->| ->] by lia.
  - apply (alt_02 _ Halt).
  - apply (alt_12 _ Halt).
Qed.

(** Over a closed surface the sides cancel. *)
Lemma closed_open_faces faces node :
  matched faces -> sum_over (open_face node) faces = sum_over (on_face phi) faces.
Proof using Halt.
  intros Hm. unfold open_face. rewrite sum_over_sub.
  rewrite (matched_sum_zero faces (fun a b => phi a b node)); [lia|done|].
  intros a b. apply (alt_swap _ Halt).
Qed.
End cone.

(** ** The state of the grid *)

(** Vertices that can be measured, [k] of which can be removed. *)
Definition node_ready {D} (k : Z) (n : REF_NODE D) : Prop :=
  node_wf n /\ REF_NODE_REAL_PER * node_max n <= REF_INT_MAX /\ node_max_unused n + 1000 <= REF_INT_MAX /\
  node_n_unused n + 2000 + k <= REF_INT_MAX.

(** The grid stands for the maps [tets] and [tris], and [kt], [kr], [ke] more
    tetrahedra, triangles and edges and [kn] more removals of vertices fit. *)
Record grid_ok {D} (kt kr ke kn : Z) (g : REF_GRID D) (tets tris : gmap Z (list Z)) : Prop := {
  go_tet : cell_sim REF_CELL_TET kt (ref_grid_tet g) tets;
  go_tri : cell_sim REF_CELL_TRI kr (ref_grid_tri g) tris;
  go_edg : exists edgs, cell_sim REF_CELL_EDG ke (ref_grid_edg g) edgs;
  go_node : node_ready kn (grid_node g);
  go_geom : exists bl, geom_wf (grid_geom g) bl
}.

Section grid.
Context {D : Type} `{Dbl D, Junk Z, Junk REF_ADJ_ITEM, Junk D}.
Implicit Types (g : REF_GRID D) (l : REF_LIST) (tets tris : gmap Z (list Z)).

Notation fails := (fun (st : REF_STATUS) (_ : REF_GRID D * REF_LIST) => st <> REF_SUCCESS).

Lemma node_ready_valid k (n : REF_NODE D) v :
  node_ready k n -> ref_node_valid n v = Some (bool_decide (v ∈ valid_nodes n)).
Proof. intros ([[bl Hc] _] & _). apply ref_node_valid_eq, Hc. Qed.

Lemma node_ready_range k (n : REF_NODE D) v :
  node_ready k n -> v ∈ valid_nodes n -> 0 <= v <= NODE_LIMIT /\ 0 <= v < node_max n.
Proof.
  intros (_ & Hr & _) [Hv _]%elem_of_valid_nodes. unfold NODE_LIMIT, REF_INT_MAX, REF_NODE_REAL_PER in *. lia.
Qed.

Lemma node_ready_owned k (n : REF_NODE D) v (Q : bool -> Prop) :
  node_ready k n -> v ∈ valid_nodes n -> (forall b, Q b) -> wp (ref_node_owned n v) Q.
Proof.
  intros Hn Hv HQ. destruct (node_ready_range k n v Hn Hv) as [_ Hr]. destruct Hn as ([[bl Hc] _] & _).
  unfold ref_node_owned. apply wp_bind, wp_aget; [rewrite (nc_part _ _ Hc); lia|]. by apply wp_ret.
Qed.

Lemma node_ready_remove k (n : REF_NODE D) v :
  node_ready (k + 1) n -> 0 <= k -> v ∈ valid_nodes n ->
  wp (ref_node_remove n v) (fun '(st, n') => st = REF_SUCCESS /\ node_ready k n').
Proof.
  intros (Hwf & Hr & Hmu & Hnu) Hk Hv. pose proof Hwf as [[bl Hc] _]. pose proof (nc_n _ _ Hc) as Hn.
  assert (node_n n <= node_max n).
  { rewrite Hn. unfold valid_nodes. etransitivity; [|apply Z.eq_le_incl, (zlen_zrange (node_max n))].
    - unfold zlen. apply inj_le, length_filter.
    - pose proof (nc_max _ _ Hc). lia. }
  pose proof (nc_unused _ _ Hc) as Hu. unfold REF_NODE_REAL_PER, REF_INT_MAX in *.
  eapply wp_mono; [apply ref_node_remove_ok; [done|unfold REF_INT_MAX; lia|unfold REF_INT_MAX; lia]|].
  intros [st n']. rewrite bool_decide_eq_true_2 by done.
  intros (Hwf' & -> & _ & _ & _ & Hmax & _ & Hnu' & Hmu'). split; [done|]. split; [done|].
  unfold REF_NODE_REAL_PER, REF_INT_MAX. rewrite Hmax, Hnu'. lia.
Qed.

Lemma cell_sim_mono type j k r m : k <= j -> cell_sim type j r m -> cell_sim type k r m.
Proof. intros ? (? & ? & ? & ? & ?). do 3 (split; [done|]). split; [lia|done]. Qed.

Lemma sim_node_empty type k r m v :
  cell_sim type k r m -> is_Some (ref_cell_node_empty r v).
Proof.
  intros ((bl & Hwf) & _). unfold ref_cell_node_empty, ref_adj_empty.
  destruct (wp_is_Some _ _ (ref_adj_first_ok (cell_adj r) v (cw_adj _ _ Hwf))) as [item ->]. by eexists.
Qed.

(** The grid with other elements of one type. *)
Lemma grid_ok_tet kt kt' kr ke kn g tets tets' tris r :
  grid_ok kt kr ke kn g tets tris -> cell_sim REF_CELL_TET kt' r tets' ->
  grid_ok kt' kr ke kn (set_grid_cell REF_CELL_TET r g) tets' tris.
Proof. intros [? ? ? ? ?] ?. by constructor. Qed.
Lemma grid_ok_tri kt kr kr' ke kn g tets tris tris' r :
  grid_ok kt kr ke kn g tets tris -> cell_sim REF_CELL_TRI kr' r tris' ->
  grid_ok kt kr' ke kn (set_grid_cell REF_CELL_TRI r g) tets tris'.
Proof. intros [? ? ? ? ?] ?. by constructor. Qed.
Lemma grid_ok_edg kt kr ke ke' kn g tets tris r edgs :
  grid_ok kt kr ke kn g tets tris -> cell_sim REF_CELL_EDG ke' r edgs ->
  grid_ok kt kr ke' kn (set_grid_cell REF_CELL_EDG r g) tets tris.
Proof. intros [? ? ? ? ?] ?. constructor; try done. by exists edgs. Qed.
Lemma grid_ok_node kt kr ke kn kn' g tets tris n :
  grid_ok kt kr ke kn g tets tris -> node_ready kn' n -> grid_ok kt kr ke kn' (set_grid_node n g) tets tris.
Proof. intros [? ? ? ? ?] ?. by constructor. Qed.
Lemma grid_ok_geom kt kr ke kn g tets tris geom bl :
  grid_ok kt kr ke kn g tets tris -> geom_wf geom bl -> grid_ok kt kr ke kn (set_grid_geom geom g) tets tris.
Proof. intros [? ? ? ? ?] ?. constructor; try done. by exists bl. Qed.

(** The pieces of [ref_cavity_replace]. *)
Lemma add_cell_ok type k m g l nodes (Q : unit -> REF_GRID D * REF_LIST -> Prop) :
  cell_sim type (k + 1) (grid_cell g type) m -> 0 <= k -> entries_ok type nodes ->
  (forall cell r, m !! cell = None -> cell_sim type k r (<[cell := cell_entries type nodes]> m) ->
     Q tt (set_grid_cell type r g, l)) ->
  fwp (add_cell type nodes) Q fails (g, l).
Proof.
  intros Hsim Hk Hok HQ. apply fwp_call, wp_bind. eapply wp_mono; [by eapply sim_add|].
  intros [st [cell r]] (-> & _ & Hnone & Hsim'). apply wp_ret. rewrite decide_True by done. by eapply HQ.
Qed.

Lemma remove_cell_ok type k m g l cell (Q : unit -> REF_GRID D * REF_LIST -> Prop) :
  cell_sim type k (grid_cell g type) m ->
  (forall r, cell_sim type k r (delete cell m) -> is_Some (m !! cell) -> Q tt (set_grid_cell type r g, l)) ->
  fwp (remove_cell type cell) Q fails (g, l).
Proof.
  intros Hsim HQ. apply fwp_call, wp_bind. eapply wp_mono; [by eapply sim_remove|].
  intros [st r]. destruct (m !! cell) as [e|] eqn:He; intros Hr; apply wp_ret.
  - destruct Hr as [-> Hsim']. rewrite decide_True by done. by apply HQ.
  - destruct Hr as [-> _]. by rewrite decide_False.
Qed.

Lemma push_node_ok g l v j (Q : unit -> REF_GRID D * REF_LIST -> Prop) :
  list_wf l -> RefList.list_max l + 1000 * (j + 1) <= REF_INT_MAX -> 0 <= j ->
  (forall l', list_wf l' -> RefList.list_max l' + 1000 * j <= REF_INT_MAX -> list_content l' = list_content l ++ [v] ->
     Q tt (g, l')) ->
  fwp (push_node v) Q fails (g, l).
Proof.
  intros Hwf Hm Hj HQ. apply fwp_call, wp_bind. eapply wp_mono; [apply ref_list_push_ok; [done|lia]|].
  intros [st l'] (-> & Hwf' & Hc & Hm'). apply wp_ret. rewrite decide_True by done. apply HQ; [done|lia|done].
Qed.

Lemma require_valid_owned_ok k g l v (Q : unit -> REF_GRID D * REF_LIST -> Prop) :
  node_ready k (grid_node g) -> (v ∈ valid_nodes (grid_node g) -> Q tt (g, l)) ->
  fwp (require_valid_owned v) Q fails (g, l).
Proof.
  intros Hn HQ. apply fwp_bind, fwp_state, fwp_bind, fwp_use. rewrite (node_ready_valid k) by done.
  apply wp_ret, fwp_bind, fwp_require; intros Hv; [|done]. apply bool_decide_eq_true in Hv.
  apply fwp_bind, fwp_use. apply (node_ready_owned k); [done|done|]. intros b.
  apply fwp_require; [auto|done].
Qed.

Lemma each_valid_owned_ok k g l nodes (Q : unit -> REF_GRID D * REF_LIST -> Prop) :
  node_ready k (grid_node g) ->
  (Forall (fun v => v ∈ valid_nodes (grid_node g)) nodes -> Q tt (g, l)) ->
  fwp (each nodes require_valid_owned) Q fails (g, l).
Proof.
  intros Hn HQ. apply fwp_each with (P := fun pre s => s = (g, l) /\
    Forall (fun v => v ∈ valid_nodes (grid_node g)) pre).
  - by split; [|constructor].
  - intros pre v post s _ [-> Hpre]. apply (require_valid_owned_ok k); [done|]. intros Hv.
    split; [done|]. apply Forall_app. by split; [|constructor].
  - intros s [-> Hall]. by apply HQ.
Qed.

Lemma ready_limits k (n : REF_NODE D) nodes :
  node_ready k n -> Forall (fun v => v ∈ valid_nodes n) nodes -> Forall (fun v => 0 <= v <= NODE_LIMIT) nodes.
Proof. intros Hn Hall. eapply Forall_impl; [exact Hall|]. intros v Hv. by apply (node_ready_range k n). Qed.
End grid.

(** ** The stages *)

Section stages.
Context {D : Type} `{Dbl D, Junk Z, Junk REF_ADJ_ITEM, Junk D}.
Implicit Types (g : REF_GRID D) (l : REF_LIST) (tets tris : gmap Z (list Z)).

Notation fails := (fun (st : REF_STATUS) (_ : REF_GRID D * REF_LIST) => st <> REF_SUCCESS).

Lemma grid_ok_mono kt kt' kr kr' ke kn g tets tris :
  kt' <= kt -> kr' <= kr -> grid_ok kt kr ke kn g tets tris -> grid_ok kt' kr' ke kn g tets tris.
Proof. intros ? ? [? ? ? ? ?]. constructor; try done; by eapply cell_sim_mono. Qed.

(** The row of a table, for sums over the rows in use. *)
Definition row_value (t : TABLE) (row : Z) : Z * Z * Z := default (0, 0, 0) (table_at t row).

Lemma sum_over_rows (f : Z * Z * Z -> Z) t :
  sum_over f (table_rows t) = sum_over (fun row => f (row_value t row)) (used t).
Proof. by rewrite table_rows_used, sum_over_map. Qed.

Lemma zlen_used t bl : table_links t bl -> zlen (used t) = t_n t.
Proof. apply zlen_used_rows. Qed.

Lemma new_tet_entries f node : zlen (new_tet node f) = 4 /\ cell_entries REF_CELL_TET (new_tet node f) = new_tet node f.
Proof. by destruct f as [[a b] c]. Qed.
Lemma new_tri_entries s node : zlen (new_tri node s) = 4 /\ cell_entries REF_CELL_TRI (new_tri node s) = new_tri node s.
Proof. by destruct s as [[a b] c]. Qed.
Lemma on_new_tri phi s node : on_tri phi (new_tri node s) = phi s.1.1 s.1.2 node.
Proof. by destruct s as [[a b] c]. Qed.

Lemma add_tets_ok c bl k kr ke kn g l tets tris (Q : unit -> REF_GRID D * REF_LIST -> Prop) :
  table_links (cav_face c) bl -> 0 <= k -> grid_ok (k + t_n (cav_face c)) kr ke kn g tets tris ->
  (forall g' tets', grid_ok k kr ke kn g' tets' tris -> tets ⊆ tets' ->
     (forall phi, alternating phi -> map_sum (around_tet phi) tets' =
        map_sum (around_tet phi) tets + sum_over (open_face phi (cav_node c)) (table_rows (cav_face c))) ->
     Q tt (g', l)) ->
  fwp (add_tets c) Q fails (g, l).
Proof.
  intros Hwf Hk Hg HQ. rewrite <- (zlen_used _ bl Hwf) in Hg.
  apply (fwp_through (used (cav_face c))) with (P := fun pre '(g', l') => l' = l /\ exists tets',
    grid_ok (k + (zlen (used (cav_face c)) - zlen pre)) kr ke kn g' tets' tris /\ tets ⊆ tets' /\
    forall phi, alternating phi -> map_sum (around_tet phi) tets' = map_sum (around_tet phi) tets +
      sum_over (fun row => open_face phi (cav_node c) (row_value (cav_face c) row)) pre).
  - intros b s. apply (each_valid_eq _ bl Hwf).
  - split; [done|]. exists tets. split; [eapply grid_ok_mono; [..|exact Hg]; rewrite ?zlen_nil; lia|]. split; [done|].
    intros phi _. rewrite sum_over_nil. lia.
  - intros pre row post [g' l'] Hsplit (-> & tets' & Hg' & Hsub & Hsum).
    assert (row ∈ used (cav_face c)) as [f Hf]%elem_of_used by (rewrite Hsplit; set_solver).
    assert (Hval : row_value (cav_face c) row = f) by (unfold row_value; by rewrite Hf).
    assert (Hlen : zlen (used (cav_face c)) - zlen pre = zlen post + 1)
      by (rewrite Hsplit, zlen_app, zlen_cons; lia).
    pose proof (zlen_nonneg post). pose proof (go_node _ _ _ _ _ _ _ Hg') as Hnode.
    rewrite zlen_app, zlen_cons, zlen_nil.
    apply fwp_bind, fwp_use. rewrite (table_row_ok _ bl Hwf row f Hf). apply wp_ret.
    destruct (attached_face (cav_node c) f) eqn:Hatt.
    + apply fwp_ret. split; [done|]. exists tets'. split; [eapply grid_ok_mono; [..|exact Hg']; lia|].
      split; [done|]. intros phi Hphi. rewrite sum_over_app, sum_over_cons, sum_over_nil, Hval, Hsum by done.
      rewrite attached_open_face by done. lia.
    + apply fwp_bind, (each_valid_owned_ok kn); [done|]. intros Hvalid.
      destruct (new_tet_entries f (cav_node c)) as [Hz He].
      apply fwp_bind, (add_cell_ok REF_CELL_TET (k + zlen post) tets').
      * rewrite Hlen, Z.add_assoc in Hg'. apply Hg'.
      * lia.
      * split; [by rewrite Hz|]. eapply ready_limits; [exact Hnode|]. unfold ztake. by apply Forall_take.
      * intros cell r Hnone Hsim. apply fwp_bind, fwp_state, fwp_bind, fwp_ask.
        destruct f as [[f0 f1] f2]. cbn [new_tet] in *. cbn [grid_node set_grid_cell].
        destruct Hnode as ([[bln Hc] Hs] & Hreal & Hmu) eqn:Hnode'.
        rewrite (ref_node_tet_vol_ok _ bln) by done. rewrite bool_decide_eq_true_2 by done.
        apply wp_ret. rewrite decide_True by done. apply fwp_ret. split; [done|].
        exists (<[cell:=[f0; f1; f2; cav_node c]]> tets'). split.
        { eapply grid_ok_tet; [exact Hg'|]. rewrite He in Hsim. eapply cell_sim_mono; [|exact Hsim]. lia. }
        split; [apply insert_subseteq_r; [by eapply lookup_weaken_None|done]|]. intros phi Hphi.
        rewrite map_sum_insert, Hsum by done. rewrite sum_over_app, sum_over_cons, sum_over_nil, Hval.
        pose proof (around_cone phi Hphi (f0, f1, f2) (cav_node c)) as Hcone. cbn [new_tet] in Hcone. lia.
  - intros [g' l'] (-> & tets' & Hg' & Hsub & Hsum). apply (HQ g' tets'); [|done|].
    + eapply grid_ok_mono; [..|exact Hg']; lia.
    + intros phi Hphi. by rewrite Hsum, sum_over_rows.
Qed.

Lemma add_tris_ok c bl k kt ke kn g l tets tris (Q : unit -> REF_GRID D * REF_LIST -> Prop) :
  table_links (cav_seg c) bl -> 0 <= k -> grid_ok kt (k + t_n (cav_seg c)) ke kn g tets tris ->
  (forall g' tris', grid_ok kt k ke kn g' tets tris' -> tris ⊆ tris' ->
     (forall phi, alternating phi -> map_sum (on_tri phi) tris' = map_sum (on_tri phi) tris +
        sum_over (fun s => phi s.1.1 s.1.2 (ref_cavity_seg_node c)) (table_rows (cav_seg c))) ->
     Q tt (g', l)) ->
  fwp (add_tris c) Q fails (g, l).
Proof.
  intros Hwf Hk Hg HQ. rewrite <- (zlen_used _ bl Hwf) in Hg. set (node := ref_cavity_seg_node c) in *.
  apply (fwp_through (used (cav_seg c))) with (P := fun pre '(g', l') => l' = l /\ exists tris',
    grid_ok kt (k + (zlen (used (cav_seg c)) - zlen pre)) ke kn g' tets tris' /\ tris ⊆ tris' /\
    forall phi, alternating phi -> map_sum (on_tri phi) tris' = map_sum (on_tri phi) tris +
      sum_over (fun row => phi (row_value (cav_seg c) row).1.1 (row_value (cav_seg c) row).1.2 node) pre).
  - intros b s. apply (each_valid_eq _ bl Hwf).
  - split; [done|]. exists tris. split; [eapply grid_ok_mono; [..|exact Hg]; rewrite ?zlen_nil; lia|]. split; [done|].
    intros phi _. rewrite sum_over_nil. lia.
  - intros pre row post [g' l'] Hsplit (-> & tris' & Hg' & Hsub & Hsum).
    assert (row ∈ used (cav_seg c)) as [s Hs]%elem_of_used by (rewrite Hsplit; set_solver).
    assert (Hval : row_value (cav_seg c) row = s) by (unfold row_value; by rewrite Hs).
    assert (Hlen : zlen (used (cav_seg c)) - zlen pre = zlen post + 1)
      by (rewrite Hsplit, zlen_app, zlen_cons; lia).
    pose proof (zlen_nonneg post). pose proof (go_node _ _ _ _ _ _ _ Hg') as Hnode.
    rewrite zlen_app, zlen_cons, zlen_nil.
    apply fwp_bind, fwp_use. rewrite (table_row_ok _ bl Hwf row s Hs). apply wp_ret. fold node.
    destruct (attached_seg node s) eqn:Hatt.
    + apply fwp_ret. split; [done|]. exists tris'. split; [eapply grid_ok_mono; [..|exact Hg']; lia|].
      split; [done|]. intros phi Hphi. rewrite sum_over_app, sum_over_cons, sum_over_nil, Hval, Hsum by done.
      rewrite (attached_seg_zero phi Hphi s node Hatt). lia.
    + apply fwp_bind, (each_valid_owned_ok kn); [done|]. intros Hvalid.
      destruct (new_tri_entries s node) as [Hz He].
      apply (add_cell_ok REF_CELL_TRI (k + zlen post) tris').
      * rewrite Hlen, Z.add_assoc in Hg'. apply Hg'.
      * lia.
      * split; [by rewrite Hz|]. eapply ready_limits; [exact Hnode|exact Hvalid].
      * intros cell r Hnone Hsim. split; [done|]. exists (<[cell:=new_tri node s]> tris'). split.
        { eapply grid_ok_tri; [exact Hg'|]. rewrite He in Hsim. eapply cell_sim_mono; [|exact Hsim]. lia. }
        split; [apply insert_subseteq_r; [by eapply lookup_weaken_None|done]|]. intros phi Hphi.
        rewrite map_sum_insert, Hsum, on_new_tri by done.
        rewrite sum_over_app, sum_over_cons, sum_over_nil, Hval. lia.
  - intros [g' l'] (-> & tris' & Hg' & Hsub & Hsum). apply (HQ g' tris'); [|done|].
    + eapply grid_ok_mono; [..|exact Hg']; lia.
    + intros phi Hphi. by rewrite Hsum, (sum_over_rows (fun s => phi s.1.1 s.1.2 node)).
Qed.

(** The removal of the elements of a list, for any type: [G] is what is kept of the
    grid while the elements of the type change. *)
Section remove.
Context (type : REF_CELL_TYPE) (node_per k kn : Z) (removed : REF_LIST) (m0 : gmap Z (list Z)).
Context (G : REF_GRID D -> gmap Z (list Z) -> Prop).
Hypothesis Hper : 0 <= node_per <= REF_CELL_MAX_SIZE_PER.
Hypothesis Hsize : size_per (snd (ref_cell_initialize type)) <= REF_CELL_MAX_SIZE_PER.
Hypothesis HG : forall g m, G g m -> cell_sim type k (grid_cell g type) m /\ node_ready kn (grid_node g).
Hypothesis HGset : forall g m r m', G g m -> cell_sim type k r m' -> G (set_grid_cell type r g) m'.
Hypothesis Hremoved : list_wf removed.
Hypothesis Hknown : forall cell, cell ∈ list_content removed -> is_Some (m0 !! cell).

Lemma push_nodes_ok g l j nodes (Q : unit -> REF_GRID D * REF_LIST -> Prop) :
  node_ready kn (grid_node g) -> node_per <= zlen nodes -> list_wf l -> 0 <= j ->
  RefList.list_max l + 1000 * (node_per + j) <= REF_INT_MAX ->
  (forall l', list_wf l' -> RefList.list_max l' + 1000 * j <= REF_INT_MAX ->
     zlen (list_content l') = zlen (list_content l) + node_per -> Q tt (g, l')) ->
  fwp (count 0 node_per (fun i =>
    let! node := use (aget nodes i) in push_node node ;! require_valid_owned node)) Q fails (g, l).
Proof using Hper.
  intros Hn Hlen Hl Hj Hmax HQ. apply fwp_count with (P := fun i '(g', l') => g' = g /\ list_wf l' /\
    RefList.list_max l' + 1000 * (node_per - i + j) <= REF_INT_MAX /\
    zlen (list_content l') = zlen (list_content l) + i); [lia| | |].
  - split; [done|]. split; [done|]. split; [|lia]. by rewrite Z.sub_0_r.
  - intros i [g' l'] Hi (-> & Hl' & Hmax' & Hz). apply fwp_bind, fwp_use, wp_aget; [lia|].
    apply fwp_bind, (push_node_ok _ _ _ (node_per - (i + 1) + j)); [done|lia|lia|].
    intros l'' Hl'' Hmax'' Hc. apply (require_valid_owned_ok kn); [done|]. intros _.
    split; [done|]. split; [done|]. split; [done|]. rewrite Hc, zlen_app, zlen_cons, zlen_nil. lia.
  - intros [g' l'] (-> & Hl' & Hmax' & Hz). apply HQ; [done|lia|done].
Qed.

Lemma remove_listed_ok g l m j (Q : unit -> REF_GRID D * REF_LIST -> Prop) :
  m0 ⊆ m -> G g m -> list_wf l -> 0 <= j ->
  RefList.list_max l + 1000 * (node_per * list_n removed + j) <= REF_INT_MAX ->
  (forall g' l' m', G g' m' -> list_wf l' -> RefList.list_max l' + 1000 * j <= REF_INT_MAX ->
     zlen (list_content l') = zlen (list_content l) + node_per * list_n removed ->
     (forall f, map_sum f m' = map_sum f m - sum_over (fun cell => f (entries_of m0 cell)) (list_content removed)) ->
     Q tt (g', l')) ->
  fwp (remove_listed type node_per removed) Q fails (g, l).
Proof using All.
  intros Hsub Hg Hl Hj Hmax HQ. pose proof (length_list_content _ Hremoved) as Hlen.
  destruct Hremoved as [Hn Hv]. apply fwp_count with (P := fun i '(g', l') => exists m',
    G g' m' /\ list_wf l' /\ RefList.list_max l' + 1000 * (node_per * (list_n removed - i) + j) <= REF_INT_MAX /\
    zlen (list_content l') = zlen (list_content l) + node_per * i /\ m' ⊆ m /\
    forall f, map_sum f m' = map_sum f m - sum_over (fun cell => f (entries_of m0 cell)) (ztake i (list_value removed)));
    [lia| | |].
  - exists m. split; [done|]. split; [done|]. split; [by rewrite Z.sub_0_r|]. split; [lia|]. split; [done|].
    intros f. change (ztake 0 (list_value removed)) with (@nil Z). rewrite sum_over_nil. lia.
  - intros i [g' l'] Hi (m' & Hg' & Hl' & Hmax' & Hz & Hsub' & Hsum). destruct (HG g' m' Hg') as [Hsim Hnode].
    apply fwp_bind, fwp_use, wp_aget; [lia|]. set (cell := (list_value removed).[i]).
    apply fwp_bind, fwp_state, fwp_bind, fwp_ask.
    assert (Htb : cell_tables (grid_cell g' type) = snd (ref_cell_initialize type)) by apply Hsim.
    eapply wp_mono; [eapply sim_nodes; [exact Hsim|by rewrite Htb]|]. intros [st nodes].
    destruct (m' !! cell) as [e|] eqn:He; [|intros ->; by rewrite decide_False].
    intros (-> & Hzn & _). rewrite decide_True by done.
    apply fwp_bind, (push_nodes_ok g' l' (node_per * (list_n removed - (i + 1)) + j)); [done|lia|done|nia|nia|].
    intros l'' Hl'' Hmax'' Hz''. apply (remove_cell_ok type k m'); [done|].
    intros r Hsim' _. exists (delete cell m'). split; [by eapply HGset|]. split; [done|]. split; [done|].
    split; [lia|]. split; [etransitivity; [apply delete_subseteq|done]|].
    intros f. rewrite (map_sum_delete f m' cell e He), Hsum, ztake_S, sum_over_app, sum_over_cons, sum_over_nil by lia.
    fold cell. assert (entries_of m0 cell = e) as ->; [|lia].
    destruct (Hknown cell) as [e0 He0]; [apply elem_of_aat; exists i; split; [lia|apply aat_ztake; lia]|].
    unfold entries_of. rewrite He0. cbn. pose proof (lookup_weaken _ _ _ _ He0 Hsub).
    pose proof (lookup_weaken _ _ _ _ He Hsub'). congruence.
  - intros [g' l'] (m' & Hg' & Hl' & Hmax' & Hz & Hsub' & Hsum). apply (HQ g' l' m'); try done. lia.
Qed.
End remove.

Lemma remove_tets_ok removed g l kt kr ke kn tets0 tets tris j (Q : unit -> REF_GRID D * REF_LIST -> Prop) :
  list_wf removed -> (forall cell, cell ∈ list_content removed -> is_Some (tets0 !! cell)) ->
  tets0 ⊆ tets -> grid_ok kt kr ke kn g tets tris -> list_wf l -> 0 <= j ->
  RefList.list_max l + 1000 * (4 * list_n removed + j) <= REF_INT_MAX ->
  (forall g' l' tets', grid_ok kt kr ke kn g' tets' tris -> list_wf l' ->
     RefList.list_max l' + 1000 * j <= REF_INT_MAX ->
     zlen (list_content l') = zlen (list_content l) + 4 * list_n removed ->
     (forall f, map_sum f tets' = map_sum f tets -
       sum_over (fun cell => f (entries_of tets0 cell)) (list_content removed)) ->
     Q tt (g', l')) ->
  fwp (remove_listed REF_CELL_TET 4 removed) Q fails (g, l).
Proof.
  intros Hr Hk Hsub Hg Hl Hj Hm HQ.
  apply (remove_listed_ok REF_CELL_TET 4 kt kn removed tets0 (fun g m => grid_ok kt kr ke kn g m tris))
    with (m := tets) (j := j); try done.
  - intros g' m Hg'. split; apply Hg'.
  - intros g' m r m' Hg' Hs. by eapply grid_ok_tet.
Qed.

Lemma remove_tris_ok removed g l kt kr ke kn tris0 tets tris j (Q : unit -> REF_GRID D * REF_LIST -> Prop) :
  list_wf removed -> (forall cell, cell ∈ list_content removed -> is_Some (tris0 !! cell)) ->
  tris0 ⊆ tris -> grid_ok kt kr ke kn g tets tris -> list_wf l -> 0 <= j ->
  RefList.list_max l + 1000 * (3 * list_n removed + j) <= REF_INT_MAX ->
  (forall g' l' tris', grid_ok kt kr ke kn g' tets tris' -> list_wf l' ->
     RefList.list_max l' + 1000 * j <= REF_INT_MAX ->
     zlen (list_content l') = zlen (list_content l) + 3 * list_n removed ->
     (forall f, map_sum f tris' = map_sum f tris -
       sum_over (fun cell => f (entries_of tris0 cell)) (list_content removed)) ->
     Q tt (g', l')) ->
  fwp (remove_listed REF_CELL_TRI 3 removed) Q fails (g, l).
Proof.
  intros Hr Hk Hsub Hg Hl Hj Hm HQ.
  apply (remove_listed_ok REF_CELL_TRI 3 kr kn removed tris0 (fun g m => grid_ok kt kr ke kn g tets m))
    with (m := tris) (j := j); try done.
  - intros g' m Hg'. split; apply Hg'.
  - intros g' m r m' Hg' Hs. by eapply grid_ok_tri.
Qed.

Lemma node_ready_mono k k' (n : REF_NODE D) : k' <= k -> node_ready k n -> node_ready k' n.
Proof. intros ? (? & ? & ? & ?). do 3 (split; [done|]). lia. Qed.

Lemma grid_ok_weaken kt kr kn kt' kr' ke kn' g tets tris :
  kt' <= kt -> kr' <= kr -> kn' <= kn -> grid_ok kt kr ke kn g tets tris -> grid_ok kt' kr' ke kn' g tets tris.
Proof.
  intros ? ? ? [? ? ? ? ?]. constructor; [by eapply cell_sim_mono|by eapply cell_sim_mono|done| |done].
  by eapply node_ready_mono.
Qed.

(** The other stages leave the tetrahedra and the triangles alone. *)
Lemma drop_unused_ok g l kt kr ke kn tets tris (Q : unit -> REF_GRID D * REF_LIST -> Prop) :
  list_wf l -> 0 <= kn -> grid_ok kt kr ke (kn + list_n l) g tets tris ->
  (forall g', grid_ok kt kr ke kn g' tets tris -> Q tt (g', l)) ->
  fwp drop_unused Q fails (g, l).
Proof.
  intros [Hn Hlv] Hkn Hg HQ. apply fwp_bind, fwp_state.
  apply fwp_count with (P := fun i '(g', l') => l' = l /\ grid_ok kt kr ke (kn + (list_n l - i)) g' tets tris).
  - lia.
  - split; [done|]. by rewrite Z.sub_0_r.
  - intros i [g' l'] Hi (-> & Hg'). apply fwp_bind, fwp_use, wp_aget; [lia|].
    set (v := (list_value l).[i]). apply fwp_bind, fwp_state.
    pose proof (go_node _ _ _ _ _ _ _ Hg') as Hnode.
    assert (Hless : forall g'', grid_ok kt kr ke (kn + (list_n l - i)) g'' tets tris ->
      grid_ok kt kr ke (kn + (list_n l - (i + 1))) g'' tets tris).
    { intros g'' [? ? ? Hr ?]. constructor; try done. eapply node_ready_mono; [|exact Hr]. lia. }
    apply fwp_bind, fwp_use. rewrite (node_ready_valid _ _ v Hnode). apply wp_ret.
    case_bool_decide as Hv; cbn [negb]; [|apply fwp_ret; auto].
    apply fwp_bind, fwp_use. destruct (sim_node_empty _ _ _ _ v (go_tri _ _ _ _ _ _ _ Hg')) as [no_tri ->].
    apply wp_ret, fwp_bind.
    eapply fwp_mono with (Q := fun _ '(g'', l'') => l'' = l /\
      grid_ok kt kr ke (kn + (list_n l - i)) g'' tets tris /\ grid_node g'' = grid_node g') (E := fails); [| |done].
    + destruct no_tri; [|by apply fwp_ret]. destruct (go_geom _ _ _ _ _ _ _ Hg') as [bl Hgeom].
      apply fwp_call, wp_bind. eapply wp_mono; [by eapply ref_geom_remove_all_ok|].
      intros [st geom] (-> & [bl' Hgeom'] & _). apply wp_ret. rewrite decide_True by done.
      split; [done|]. split; [by eapply grid_ok_geom|done].
    + intros _ [g'' l''] (-> & Hg'' & Hsame). apply fwp_bind, fwp_use.
      destruct (sim_node_empty _ _ _ _ v (go_tet _ _ _ _ _ _ _ Hg')) as [no_tet ->].
      apply wp_ret. destruct (no_tri && no_tet); [|apply fwp_ret; auto].
      apply fwp_call, wp_bind. rewrite Hsame. eapply wp_mono.
      { eapply (node_ready_remove (kn + (list_n l - (i + 1)))); [|lia|exact Hv].
        eapply node_ready_mono; [|exact Hnode]. lia. }
      intros [st n] (-> & Hn'). apply wp_ret. rewrite decide_True by done.
      split; [done|]. by eapply grid_ok_node.
  - intros [g' l'] (-> & Hg'). apply HQ. by rewrite Z.sub_diag, Z.add_0_r in Hg'.
Qed.

Lemma edge_entries_ok (nodes : list Z) a b :
  REF_CELL_MAX_SIZE_PER <= zlen nodes -> 0 <= a <= NODE_LIMIT -> 0 <= b <= NODE_LIMIT ->
  entries_ok REF_CELL_EDG (upd (upd nodes 0 a) 1 b).
Proof.
  intros Hz Ha Hb. split; [rewrite !zlen_upd; cbn; unfold REF_CELL_MAX_SIZE_PER in Hz; lia|].
  destruct nodes as [|x [|y rest]]; [done|by cbn in Hz|]. cbn.
  apply Forall_cons; split; [exact Ha|]. apply Forall_cons; split; [exact Hb|]. apply Forall_nil_2.
Qed.

Lemma edge_found_ok g edgs k node0 node1 (l : REF_LIST) (Q : Z -> REF_GRID D * REF_LIST -> Prop) :
  cell_sim REF_CELL_EDG k (ref_grid_edg g) edgs -> (forall cell, Q cell (g, l)) ->
  fwp (ask_or REF_NOT_FOUND (ref_cell_with (ref_grid_edg g) [node0; node1])) Q fails (g, l).
Proof.
  intros ([bl Hwf] & Htb & _) HQ. apply fwp_ask_or. eapply wp_mono.
  - eapply ref_cell_with_ok; [exact Hwf|]. unfold ref_cell_node_per. by rewrite Htb.
  - intros [st cell] [[-> _]|[-> _]]; rewrite decide_True by auto; apply HQ.
Qed.

Lemma edge_nodes_ok g edgs k cell (l : REF_LIST) (Q : list Z -> REF_GRID D * REF_LIST -> Prop) :
  cell_sim REF_CELL_EDG k (ref_grid_edg g) edgs ->
  (forall nodes, zlen nodes = REF_CELL_MAX_SIZE_PER -> Q nodes (g, l)) ->
  fwp (ask (ref_cell_nodes (ref_grid_edg g) cell (alloc REF_CELL_MAX_SIZE_PER))) Q fails (g, l).
Proof.
  intros Hs HQ. pose proof Hs as (_ & Htb & _). apply fwp_ask. eapply wp_mono.
  - eapply sim_nodes; [exact Hs|]. by rewrite Htb.
  - intros [st nodes]. destruct (edgs !! cell); [|intros ->; by rewrite decide_False].
    intros (-> & Hz & _). rewrite decide_True by done. auto.
Qed.

Definition vertex_limit (v : Z) : Prop := v = REF_EMPTY \/ 0 <= v <= NODE_LIMIT.

Lemma split_edg_ok c g l kt kr ke kn tets tris (Q : unit -> REF_GRID D * REF_LIST -> Prop) :
  vertex_limit (cav_split_node0 c) -> vertex_limit (cav_split_node1 c) ->
  0 <= ref_cavity_seg_node c <= NODE_LIMIT -> 0 <= ke ->
  grid_ok kt kr (ke + 2) kn g tets tris ->
  (forall g', grid_ok kt kr ke kn g' tets tris -> Q tt (g', l)) ->
  fwp (split_edg c) Q fails (g, l).
Proof.
  intros H0' H1' Hseg Hke Hg HQ. unfold split_edg; cbv zeta. destruct (go_edg _ _ _ _ _ _ _ Hg) as [edgs Hsim].
  assert (Hless : grid_ok kt kr ke kn g tets tris).
  { destruct Hg. constructor; try done. exists edgs. eapply cell_sim_mono; [|done]. lia. }
  destruct (_ && _) eqn:Hb; [|apply fwp_ret; auto].
  assert (0 <= cav_split_node0 c <= NODE_LIMIT /\ 0 <= cav_split_node1 c <= NODE_LIMIT) as [Ha0 Ha1]
    by (unfold vertex_limit, REF_EMPTY in *; lia).
  apply fwp_bind, fwp_state, fwp_bind, (edge_found_ok g edgs (ke + 2)); [done|]. intros cell.
  destruct (negb (REF_EMPTY =? cell)); [|apply fwp_ret; auto].
  apply fwp_bind, (edge_nodes_ok g edgs (ke + 2)); [done|]. intros nodes Hz.
  apply fwp_bind, (remove_cell_ok REF_CELL_EDG (ke + 2) edgs); [done|]. intros r Hr _.
  apply fwp_bind, fwp_use, wp_bind, wp_aset; [rewrite Hz; done|]. apply wp_aset; [by rewrite zlen_upd, Hz|].
  apply fwp_bind, (add_cell_ok REF_CELL_EDG (ke + 1) (delete cell edgs));
    [by rewrite <- Z.add_assoc|lia|apply edge_entries_ok; [by rewrite Hz|done|done]|].
  intros cell1 r1 _ Hr1.
  apply fwp_bind, fwp_use, wp_bind, wp_aset; [by rewrite !zlen_upd, Hz|].
  apply wp_aset; [by rewrite !zlen_upd, Hz|].
  eapply (add_cell_ok REF_CELL_EDG ke); [exact Hr1|done|apply edge_entries_ok; [by rewrite !zlen_upd, Hz|done|done]|].
  intros cell2 r2 _ Hr2. apply HQ. eapply grid_ok_edg; [|exact Hr2]. eapply grid_ok_edg; [|exact Hr1].
  by eapply grid_ok_edg.
Qed.

Lemma collapse_edg_ok c g l kt kr ke kn tets tris (Q : unit -> REF_GRID D * REF_LIST -> Prop) :
  vertex_limit (cav_collapse_node0 c) -> 0 <= ke -> grid_ok kt kr (ke + 1) kn g tets tris ->
  (forall g', grid_ok kt kr ke kn g' tets tris -> Q tt (g', l)) ->
  fwp (collapse_edg c) Q fails (g, l).
Proof.
  intros H0' Hke Hg HQ. unfold collapse_edg; cbv zeta. destruct (go_edg _ _ _ _ _ _ _ Hg) as [edgs Hsim].
  assert (Hless : grid_ok kt kr ke kn g tets tris).
  { destruct Hg. constructor; try done. exists edgs. eapply cell_sim_mono; [|done]. lia. }
  destruct (_ && _) eqn:Hb; [|apply fwp_ret; auto].
  assert (0 <= cav_collapse_node0 c <= NODE_LIMIT) as Ha0 by (unfold vertex_limit, REF_EMPTY in *; lia).
  apply fwp_bind, fwp_state, fwp_bind, (edge_found_ok g edgs (ke + 1)); [done|]. intros cell.
  destruct (negb (REF_EMPTY =? cell)); [|apply fwp_ret; auto].
  apply fwp_bind, (edge_nodes_ok g edgs (ke + 1)); [done|]. intros nodes Hz.
  apply fwp_bind, (remove_cell_ok REF_CELL_EDG (ke + 1) edgs); [done|]. intros r Hr _.
  apply fwp_call, wp_bind. eapply wp_mono; [by eapply sim_replace_node|].
  intros [st r1] (-> & Hr1). apply wp_ret. rewrite decide_True by done.
  apply HQ. eapply grid_ok_edg; [|exact Hr1]. by eapply grid_ok_edg.
Qed.

Lemma check_tets_ok c g l kt kr ke kn tets tris (Q : unit -> REF_GRID D * REF_LIST -> Prop) :
  grid_ok kt kr ke kn g tets tris -> Q tt (g, l) -> fwp (check_tets c) Q fails (g, l).
Proof.
  intros Hg HQ. pose proof (go_tet _ _ _ _ _ _ _ Hg) as Hs. pose proof Hs as ([bl Hwf] & Htb & _).
  apply fwp_bind, fwp_state.
  apply (fwp_through (adj_refs (cell_adj (ref_grid_tet g)) (cav_node c))) with (P := fun _ s => s = (g, l)).
  - intros b s. by eapply RefCellQuery.having_node.
  - done.
  - intros pre cell post s _ ->. apply fwp_bind, fwp_ask. eapply wp_mono.
    { eapply sim_nodes; [exact Hs|]. by rewrite Htb. }
    intros [st nodes]. destruct (tets !! cell); [|intros ->; by rewrite decide_False].
    intros (-> & Hz & _). rewrite decide_True by done.
    apply fwp_count with (P := fun _ s => s = (g, l)); [lia|done| |done].
    intros i s Hi ->. apply fwp_bind, fwp_use, wp_aget; [rewrite Hz; unfold REF_CELL_MAX_SIZE_PER; lia|].
    apply fwp_bind, fwp_use. rewrite (node_ready_valid kn) by apply Hg. apply wp_ret. by apply fwp_require.
  - by intros s ->.
Qed.

Lemma check_elements_ok g l kt kr ke kn tets tris (Q : unit -> REF_GRID D * REF_LIST -> Prop) :
  list_wf l -> grid_ok kt kr ke kn g tets tris -> Q tt (g, l) -> fwp check_elements Q fails (g, l).
Proof.
  intros [Hn Hlv] Hg HQ. apply fwp_bind, fwp_state.
  apply fwp_count with (P := fun _ s => s = (g, l)); [lia|done| |by intros s ->].
  intros i s Hi ->. apply fwp_bind, fwp_use, wp_aget; [lia|].
  apply fwp_bind, fwp_use. rewrite (node_ready_valid kn) by apply Hg. apply wp_ret.
  case_bool_decide; [|by apply fwp_ret]. set (v := (list_value l).[i]). apply fwp_bind, fwp_use.
  assert (is_Some (ref_cell_node_empty (if grid_twod g || grid_surf g then ref_grid_tri g else ref_grid_tet g) v))
    as [b ->].
  { destruct (_ || _); eapply sim_node_empty; [apply (go_tri _ _ _ _ _ _ _ Hg)|apply (go_tet _ _ _ _ _ _ _ Hg)]. }
  apply wp_ret. by apply fwp_require.
Qed.

(** ** The replacement *)

(** What the cavity and the grid have to be: tables and lists in order, elements of
    the lists that are in the grid, vertices within the limit, and room. *)
Record replace_ready c g : Prop := {
  rr_face : exists bl, table_links (cav_face c) bl;
  rr_seg : exists bl, table_links (cav_seg c) bl;
  rr_tets : list_wf (cav_tet_list c) /\ forall cell, cell ∈ list_content (cav_tet_list c) ->
    is_Some (cell_map (ref_grid_tet g) !! cell);
  rr_tris : list_wf (cav_tri_list c) /\ forall cell, cell ∈ list_content (cav_tri_list c) ->
    is_Some (cell_map (ref_grid_tri g) !! cell);
  rr_split : vertex_limit (cav_split_node0 c) /\ vertex_limit (cav_split_node1 c) /\
    0 <= ref_cavity_seg_node c <= NODE_LIMIT;
  rr_collapse : vertex_limit (cav_collapse_node0 c);
  rr_list : 10 + 1000 * (4 * list_n (cav_tet_list c) + 3 * list_n (cav_tri_list c)) <= REF_INT_MAX;
  rr_grid : grid_ok (t_n (cav_face c)) (t_n (cav_seg c)) 3
    (4 * list_n (cav_tet_list c) + 3 * list_n (cav_tri_list c)) g
    (cell_map (ref_grid_tet g)) (cell_map (ref_grid_tri g))
}.

(** The change before the sides of the new tetrahedra cancel. *)
Definition added_less_removed (phi : Z -> Z -> Z -> Z) c tets tris : Z :=
  sum_over (open_face phi (cav_node c)) (table_rows (cav_face c)) -
  sum_over (fun cell => around_tet phi (entries_of tets cell)) (list_content (cav_tet_list c)) -
  (sum_over (fun s => phi s.1.1 s.1.2 (ref_cavity_seg_node c)) (table_rows (cav_seg c)) -
   sum_over (fun cell => on_tri phi (entries_of tris cell)) (list_content (cav_tri_list c))).

Definition elements_replaced c g g' : Prop :=
  grid_ok 0 0 0 0 g' (cell_map (ref_grid_tet g')) (cell_map (ref_grid_tri g')) /\
  forall phi, alternating phi -> grid_boundary phi g' = grid_boundary phi g +
    added_less_removed phi c (cell_map (ref_grid_tet g)) (cell_map (ref_grid_tri g)).

Lemma replace_elements_ok c g :
  replace_ready c g ->
  wp (replace_elements c (g, snd ref_list_create)) (fun '(st, (g', _)) =>
    st = REF_SUCCESS -> elements_replaced c g g').
Proof.
  intros [[blf Hf] [bls Hs] [Hlt Ht] [Hlr Hr] [Hsp0 [Hsp1 Hseg]] Hcol Hroom Hg].
  pose proof (zlen_nonneg (list_content (cav_tet_list c))) as Hzt.
  pose proof (zlen_nonneg (list_content (cav_tri_list c))) as Hzr.
  rewrite length_list_content in Hzt, Hzr by done.
  destruct ref_list_create_ok as [Hl0 Hc0]. change 10 with (RefList.list_max (snd ref_list_create)) in Hroom.
  revert Hroom Hl0 Hc0. generalize (snd ref_list_create). intros l0 Hroom Hl0 Hc0.
  apply wp_body, (fwp_mono _ (fun _ '(g', _) => elements_replaced c g g')
    _ fails); [|by intros [] [g' l']|by intros st [g' l'] ? ->].
  apply fwp_bind; eapply (add_tets_ok c blf 0 (t_n (cav_seg c)) 3 _ _ _ _ _ _ Hf); [done|exact Hg|].
  intros g1 tets1 Hg1 Hsub1 Hsum1.
  apply fwp_bind; eapply (add_tris_ok c bls 0 0 3 _ _ _ _ _ _ Hs); [done|exact Hg1|].
  intros g2 tris2 Hg2 Hsub2 Hsum2.
  apply fwp_bind; eapply (remove_tets_ok _ _ _ 0 0 3 _ (cell_map (ref_grid_tet g)) tets1 tris2
    (3 * list_n (cav_tri_list c))); try done; [lia|].
  intros g3 l3 tets3 Hg3 Hl3 Hroom3 Hz3 Hsum3.
  apply fwp_bind; eapply (remove_tris_ok _ _ _ 0 0 3 _ (cell_map (ref_grid_tri g)) tets3 tris2 0); try done; [lia|].
  intros g4 l4 tris4 Hg4 Hl4 _ Hz4 Hsum4.
  apply fwp_bind; eapply (drop_unused_ok _ _ 0 0 3 0 tets3 tris4); [done|done| |].
  { assert (list_n l4 = 4 * list_n (cav_tet_list c) + 3 * list_n (cav_tri_list c)) as ->; [|exact Hg4].
    rewrite length_list_content in Hz4, Hz3 by done. rewrite Hc0, zlen_nil in Hz3.
    rewrite length_list_content in Hz4 by done. lia. }
  intros g5 Hg5. apply fwp_bind; eapply (split_edg_ok c _ _ 0 0 1 0 tets3 tris4); try done.
  intros g6 Hg6. apply fwp_bind; eapply (collapse_edg_ok c _ _ 0 0 0 0 tets3 tris4); try done.
  intros g7 Hg7. apply fwp_bind; eapply (check_tets_ok c _ _ 0 0 0 0 tets3 tris4); [done|].
  apply (check_elements_ok _ _ 0 0 0 0 tets3 tris4); [done|done|].
  pose proof (represents_unique _ _ (proj1 (proj2 (proj2 (go_tet _ _ _ _ _ _ _ Hg7))))) as Et.
  pose proof (represents_unique _ _ (proj1 (proj2 (proj2 (go_tri _ _ _ _ _ _ _ Hg7))))) as Er.
  split; [by rewrite <- Et, <- Er|]. intros phi Hphi. unfold added_less_removed, grid_boundary, mesh_boundary.
  rewrite <- Et, <- Er, Hsum3, Hsum4, Hsum1, Hsum2 by done. lia.
Qed.

Lemma replace_ok c g :
  replace_ready c g ->
  wp (ref_cavity_replace c g) (fun '(st, (_, g')) => st = REF_SUCCESS ->
    grid_ok 0 0 0 0 g' (cell_map (ref_grid_tet g')) (cell_map (ref_grid_tri g')) /\
    forall phi, alternating phi -> grid_boundary phi g' =
      grid_boundary phi g + cavity_surplus phi c (cell_map (ref_grid_tet g)) (cell_map (ref_grid_tri g))).
Proof.
  intros Hready.
  apply (wp_mono (fun '(st, (_, g')) => st = REF_SUCCESS ->
    elements_replaced c g g' /\ matched (table_rows (cav_face c)))).
  - destruct (rr_face _ _ Hready) as [blf Hf]. destruct (rr_seg _ _ Hready) as [bls Hs].
    unfold ref_cavity_replace, is_state. case_bool_decide as Hv; [|by apply wp_ret].
    apply wp_bind. eapply wp_mono; [by eapply verify_face_ok|].
    intros [st1 c1] (s1 & -> & Hs1 & Hm). destruct st1; try by apply wp_ret. cbn beta iota.
    apply wp_bind. eapply wp_mono; [by eapply (verify_seg_ok _ bls)|].
    intros [st2 c2] (s2 & -> & Hs2 & _). destruct st2; try by apply wp_ret. cbn beta iota.
    case_bool_decide as Hv2; [|by apply wp_ret]. cbn in Hv2.
    destruct (_ && _); [by apply wp_ret|]. apply wp_bind.
    assert (Hready' : replace_ready (set_cav_state s2 (set_cav_state s1 c)) g) by (destruct Hready; by constructor).
    eapply wp_mono; [by apply replace_elements_ok|]. intros [st [g' l']] Hpost. apply wp_ret. intros Hst.
    split; [by apply Hpost|]. apply Hm; [done|]. destruct Hs2 as [->| ->]; cbn in *; congruence.
  - intros [st [c' g']] Hpost Hst. destruct (Hpost Hst) as [[Hok Hsum] Hm]. split; [done|].
    intros phi Hphi. rewrite Hsum by done. unfold added_less_removed, cavity_surplus. by rewrite closed_open_faces.
Qed.
End stages.

(** C26. [ref_cavity_replace] on any grid and cavity in order: it never leaves the
    behaviour that C defines, and when it returns [REF_SUCCESS] the grid is in order
    again and the boundary of the mesh has changed by the surplus of the cavity: its
    faces and segments less what the removed elements bounded, whatever the node.
    So a cavity of no surplus leaves a closed and conforming mesh closed and
    conforming, and with the determinant of three positions for [phi] the volume is
    conserved. *)
Theorem ref_cavity_replace_boundary {D : Type} `{Dbl D, Junk Z, Junk REF_ADJ_ITEM, Junk D}
    (c : REF_CAVITY) (g : REF_GRID D) :
  replace_ready c g ->
  exists st c' g', ref_cavity_replace c g = Some (st, (c', g')) /\
    (st = REF_SUCCESS ->
     grid_ok 0 0 0 0 g' (cell_map (ref_grid_tet g')) (cell_map (ref_grid_tri g')) /\
     forall phi, alternating phi -> grid_boundary phi g' =
       grid_boundary phi g + cavity_surplus phi c (cell_map (ref_grid_tet g)) (cell_map (ref_grid_tri g))).
Proof.
  intros Hready. destruct (replace_ok c g Hready) as ([st [c' g']] & He & Hpost). by exists st, c', g'.
Qed.

(** ** Example

    Vertex 4 is inside the tetrahedron 0, 1, 2, 3, whose faces are triangles; the
    cavity collapses it onto vertex 0. *)
Module ReplaceExample.
#[local] Existing Instances NodeExample.double NodeExample.junk_double NodeExample.junk_int.
#[local] Instance junk_item : Junk REF_ADJ_ITEM := fun _ => inhabitant.

Definition nothing : REF_CELL := inhabitant.
Definition cells (type : REF_CELL_TYPE) (cs : list cell_command) : REF_CELL :=
  match (let* '(_, r) := ref_cell_create type in run cell_exec cs r) with Some (_, r) => r | None => nothing end.
Definition node_commands : list node_command := map NodeAdd [0; 1; 2; 3; 4].
Definition node : REF_NODE spec_float :=
  match (let* '(_, r) := ref_node_create NodeExample.mpi in run node_exec node_commands r) with
  | Some (_, r) => r
  | None => NodeExample.empty_node
  end.
Definition tets : list (list Z) := [[0; 1; 2; 4]; [0; 3; 1; 4]; [0; 2; 3; 4]; [1; 3; 2; 4]].
Definition tris : list (list Z) := [[0; 1; 2; 10]; [0; 3; 1; 20]; [0; 2; 3; 30]; [1; 3; 2; 40]].
Definition geom : REF_GEOM spec_float :=
  match ref_geom_create with Some (_, r) => r | None => mkREF_GEOM 0 0 0 [] [] (mkREF_ADJ 0 0 [] [] 0) end.
(** The grid of the tetrahedra [ts] and the triangles [rs]. *)
Definition elements (ts rs : list (list Z)) (type : REF_CELL_TYPE) : list cell_command :=
  map CellAdd match type with REF_CELL_TET => ts | REF_CELL_TRI => rs | _ => [] end.
Definition mesh (r : REF_NODE spec_float) (ts rs : list (list Z)) : REF_GRID spec_float :=
  mkREF_GRID NodeExample.mpi r (fun type => cells type (elements ts rs type)) geom false false.
Definition grid : REF_GRID spec_float := mesh node tets tris.

Definition faces : list (list Z) := [[0; 1; 2]; [0; 3; 1]; [0; 2; 3]; [1; 3; 2]].
Fixpoint insert_faces (fs : list (list Z)) (c : REF_CAVITY) : REF_CAVITY :=
  match fs with
  | [] => c
  | f :: fs => insert_faces fs (match ref_cavity_insert_face f c with Some (_, c) => c | None => c end)
  end.
Definition list_of (l : list Z) : REF_LIST :=
  fold_left (fun l x => match ref_list_push l x with Some (_, l) => l | None => l end) l (snd ref_list_create).
Definition cavity : REF_CAVITY :=
  insert_faces faces (mkREF_CAVITY REF_CAVITY_VISIBLE 0 REF_EMPTY (default (mkTABLE 0 0 0 []) table_create)
    (default (mkTABLE 0 0 0 []) table_create) (list_of []) (list_of [0; 1; 2; 3]) REF_EMPTY REF_EMPTY
    REF_EMPTY REF_EMPTY false).

Lemma five_nodes_wf : node_wf node.
Proof.
  destruct (node_run_ok (D:=spec_float) NodeExample.mpi node_commands) as (r0 & os & r & a & Hc & Hr & _ & Hwf & _).
  { vm_compute. congruence. }
  unfold node. rewrite Hc. cbn [obind]. by rewrite Hr.
Qed.

Lemma cells_wf type cs : Forall (command_ok type) cs -> zlen cs <= cell_budget -> exists bl, cell_wf (cells type cs) bl.
Proof.
  intros Hok Hlen. destruct (cell_run_ok type cs) as (r0 & os & r & m & Hcr & Hrun & _ & _ & Hwf); [done|done|].
  unfold cells. rewrite Hcr. cbn [obind]. by rewrite Hrun.
Qed.

Lemma table_new k : 0 <= k <= table_budget -> table_ok k (default (mkTABLE 0 0 0 []) table_create).
Proof.
  intros Hk. by destruct (table_create_ok k Hk) as (u & -> & _ & Hu & _).
Qed.

Lemma insert_faces_ok fs c k :
  0 <= k -> table_ok (k + zlen fs) (cav_face c) -> Forall (fun f => 3 <= zlen f /\ f.[0] <> REF_EMPTY) fs ->
  table_ok k (cav_face (insert_faces fs c)) /\ cav_seg (insert_faces fs c) = cav_seg c.
Proof.
  revert c. induction fs as [|f fs IH]; intros c Hk Hok Hfs; [by rewrite zlen_nil, Z.add_0_r in Hok|].
  apply Forall_cons in Hfs as [[Hl Hne] Hfs]. rewrite zlen_cons in Hok. pose proof (zlen_nonneg fs).
  cbn [insert_faces].
  destruct (insert_face_ok (k + zlen fs) c f) as ([st c'] & -> & u & -> & Hu & _);
    [by rewrite <- Z.add_assoc|lia|done|done|].
  by apply (IH (set_cav_face u c)).
Qed.

Lemma cavity_tables : table_ok 0 (cav_face cavity) /\ cav_seg cavity = default (mkTABLE 0 0 0 []) table_create.
Proof.
  apply insert_faces_ok; [done|apply table_new; vm_compute; split; congruence|].
  repeat (apply Forall_cons; split; [split; vm_compute; congruence|]). by apply Forall_nil.
Qed.

Lemma mesh_in_order r ts rs :
  node_ready table_budget r -> Forall (entries_ok REF_CELL_TET) ts -> Forall (entries_ok REF_CELL_TRI) rs ->
  (forall type, cell_tables (grid_cell (mesh r ts rs) type) = snd (ref_cell_initialize type)) ->
  Forall (fun type => cell_n (grid_cell (mesh r ts rs) type) + table_budget <= cell_budget /\
    cell_max (grid_cell (mesh r ts rs) type) <= GROW_LIMIT) [REF_CELL_TET; REF_CELL_TRI; REF_CELL_EDG] ->
  zlen ts <= cell_budget -> zlen rs <= cell_budget ->
  grid_ok table_budget table_budget 3 table_budget (mesh r ts rs)
    (cell_map (ref_grid_tet (mesh r ts rs))) (cell_map (ref_grid_tri (mesh r ts rs))).
Proof.
  intros Hr Hts Hrs Htb Hn Hlt Hlr. rewrite !Forall_cons in Hn. destruct Hn as (Hnt & Hnr & Hne & _).
  assert (Hcells : forall type l, Forall (fun n => entries_ok type n) l -> Forall (command_ok type) (map CellAdd l)).
  { intros type l. induction 1; by constructor. }
  assert (Hs : forall type k, Forall (command_ok type) (elements ts rs type) -> zlen (elements ts rs type) <= cell_budget ->
    cell_n (grid_cell (mesh r ts rs) type) + k <= cell_budget /\ cell_max (grid_cell (mesh r ts rs) type) <= GROW_LIMIT ->
    cell_sim type k (grid_cell (mesh r ts rs) type) (cell_map (grid_cell (mesh r ts rs) type))).
  { intros type k Hok Hz Hsize. split; [|split; [apply Htb|split; [apply cell_map_represents|exact Hsize]]].
    by apply cells_wf. }
  constructor; [| | |exact Hr|].
  - apply Hs; [by apply Hcells|by unfold elements; rewrite zlen_map|done].
  - apply Hs; [by apply Hcells|by unfold elements; rewrite zlen_map|done].
  - exists (cell_map (ref_grid_edg (mesh r ts rs))). apply Hs; [by apply Forall_nil|done|].
    split; [destruct Hne; unfold table_budget in *; lia|apply Hne].
  - unfold mesh. cbn. unfold geom. by destruct ref_geom_create_ok as ([st r'] & -> & _ & Hr' & _).
Qed.

Lemma grid_in_order : grid_ok table_budget table_budget 3 table_budget grid (cell_map (ref_grid_tet grid)) (cell_map (ref_grid_tri grid)).
Proof.
  apply mesh_in_order; [| | | | |vm_compute; congruence|vm_compute; congruence].
  - split; [exact five_nodes_wf|]. split; [|split]; vm_compute; congruence.
  - unfold entries_ok. apply (bool_decide_unpack _). vm_compute. exact I.
  - unfold entries_ok. apply (bool_decide_unpack _). vm_compute. exact I.
  - intros []; vm_compute; reflexivity.
  - repeat (apply Forall_cons; split; [split; vm_compute; congruence|]). apply Forall_nil_2.
Qed.

Lemma all_known (m : gmap Z (list Z)) l :
  forallb (fun cell => bool_decide (is_Some (m !! cell))) l = true -> forall cell, cell ∈ l -> is_Some (m !! cell).
Proof.
  intros Hl cell Hc. apply (bool_decide_unpack _). rewrite forallb_forall in Hl.
  apply Is_true_true, Hl. by apply list_elem_of_In.
Qed.

Lemma collapse_ready : replace_ready cavity grid.
Proof.
  destruct cavity_tables as [(Hf & _) Hs]. constructor.
  - exact Hf.
  - rewrite Hs. destruct (table_new 0) as [Hseg _]; [vm_compute; split; congruence|exact Hseg].
  - split; [vm_compute; repeat split; congruence|].
    assert (list_content (cav_tet_list cavity) = [0; 1; 2; 3]) as -> by (vm_compute; reflexivity).
    apply all_known. vm_compute. reflexivity.
  - split; [vm_compute; repeat split; congruence|].
    assert (list_content (cav_tri_list cavity) = []) as -> by (vm_compute; reflexivity).
    intros cell Hc. destruct (not_elem_of_nil _ Hc).
  - split; [by left|]. split; [by left|]. vm_compute. split; congruence.
  - by left.
  - vm_compute. congruence.
  - apply (grid_ok_weaken table_budget table_budget table_budget); [vm_compute; congruence..|exact grid_in_order].
Qed.
End ReplaceExample.
#[local] Existing Instances NodeExample.double NodeExample.junk_double NodeExample.junk_int ReplaceExample.junk_item.

Lemma ref_cavity_replace_boundary_witness :
  let c := ReplaceExample.cavity in
  let g := ReplaceExample.grid in
  (replace_ready c g /\ fst <$> ref_cavity_replace c g = Some REF_SUCCESS) /\
  exists st c' g', ref_cavity_replace c g = Some (st, (c', g')) /\
    (st = REF_SUCCESS ->
     grid_ok 0 0 0 0 g' (cell_map (ref_grid_tet g')) (cell_map (ref_grid_tri g')) /\
     forall phi, alternating phi -> grid_boundary phi g' =
       grid_boundary phi g + cavity_surplus phi c (cell_map (ref_grid_tet g)) (cell_map (ref_grid_tri g))).
Proof.
  split; [split; [exact ReplaceExample.collapse_ready|vm_compute; reflexivity]|].
  apply (ref_cavity_replace_boundary ReplaceExample.cavity ReplaceExample.grid). exact ReplaceExample.collapse_ready.
Defined.
