(* ===== verification/RefCavityForm.v ===== *)
(** * ref_cavity.c: the cavities that are formed have no surplus

    A cavity that takes the tetrahedra with a vertex, or an edge, and leaves the
    faces that have it out, leaves out just what the triangles of the vertex, or
    edge, cover when the mesh conforms. Each segment comes with the face that joins
    it to the node, so it does not count. *)
From S2P Require Import Prelude Rows Chains Effect RefList RefAdj RefDbl RefMpi RefNode RefCellType RefCell RefCellSpec RefCellQuery RefCellNode RefGeom RefGrid RefMeasure RefCavity RefCavityTable RefCavityReplace.
From stdpp Require Import prelude list gmap.
From Stdlib Require Import ZArith Lia SpecFloat.
Open Scope Z_scope.
Open Scope ref_scope.

(** ** Parts of the boundary *)

Definition face_list (f : Z * Z * Z) : list Z := let '(a, b, c) := f in [a; b; c].

(** An alternating function where a test of the three nodes holds, whatever their
    order. *)
Definition order_free (P : list Z -> bool) : Prop :=
  forall a b c, P [b; c; a] = P [a; b; c] /\ P [b; a; c] = P [a; b; c].
Definition restrict (P : list Z -> bool) (phi : Z -> Z -> Z -> Z) (a b c : Z) : Z :=
  if P [a; b; c] then phi a b c else 0.

Lemma alternating_restrict P phi : order_free P -> alternating phi -> alternating (restrict P phi).
Proof.
  intros HP Ha. unfold restrict. split; intros a b c; destruct (HP a b c) as [H1 H2].
  - rewrite H1. destruct (P [a; b; c]); [apply (alt_rotate _ Ha)|done].
  - rewrite H2. destruct (P [a; b; c]); [apply (alt_swap _ Ha)|done].
Qed.

(** The faces that do not pass the test. *)
Definition kept (P : list Z -> bool) (faces : list (Z * Z * Z)) : list (Z * Z * Z) :=
  filter (fun f => P (face_list f) = false) faces.

Lemma sum_kept P phi faces :
  sum_over (on_face phi) (kept P faces) =
  sum_over (on_face phi) faces - sum_over (on_face (restrict P phi)) faces.
Proof.
  induction faces as [|[[a b] c] faces IH]; [done|]. unfold kept in *. rewrite filter_cons, !sum_over_cons.
  cbn [face_list on_face] in *. unfold restrict at 1. destruct (P [a; b; c]); cbn [decide];
    [rewrite decide_False by done|rewrite decide_True by done; rewrite sum_over_cons; cbn [on_face]]; lia.
Qed.

(** Sums over the entries of a map that matter. *)
Lemma map_sum_zero {A} (f : A -> Z) (m : gmap Z A) : (forall k x, m !! k = Some x -> f x = 0) -> map_sum f m = 0.
Proof.
  intros Hz. rewrite map_sum_list. apply sum_over_zero. intros [k x] Hk%elem_of_map_to_list. by eapply Hz.
Qed.

Lemma map_sum_support (f : list Z -> Z) (m : gmap Z (list Z)) l :
  NoDup l -> (forall k, k ∈ l -> is_Some (m !! k)) -> (forall k x, m !! k = Some x -> k ∉ l -> f x = 0) ->
  map_sum f m = sum_over (fun k => f (entries_of m k)) l.
Proof.
  revert m. induction l as [|k l IH]; intros m Hnd Hin Hout.
  - apply map_sum_zero. intros k x Hk. apply (Hout k x Hk). apply not_elem_of_nil.
  - apply NoDup_cons in Hnd as [Hk Hnd]. destruct (Hin k) as [x Hx]; [set_solver|].
    pose proof (map_sum_delete f m k x Hx) as Hd. rewrite (IH (delete k m)) in Hd; [|done| |].
    + rewrite sum_over_cons. unfold entries_of at 1. rewrite Hx. cbn.
      rewrite (sum_over_ext _ (fun k' => f (entries_of m k')) l) in Hd; [lia|].
      intros k' Hk'. unfold entries_of. by rewrite lookup_delete_ne by set_solver.
    + intros k' Hk'. rewrite lookup_delete_ne by set_solver. apply Hin. set_solver.
    + intros k' x' Hk' Hn. apply lookup_delete_Some in Hk' as [Hne Hk']. apply (Hout k' x' Hk'). set_solver.
Qed.

(** ** Reading the grid *)

(** What forming a cavity reads: elements in order, of valid vertices. *)
Record readable {D} (g : REF_GRID D) : Prop := {
  rd_tet : exists bl, cell_wf (ref_grid_tet g) bl;
  rd_tet_tables : cell_tables (ref_grid_tet g) = snd (ref_cell_initialize REF_CELL_TET);
  rd_tri : exists bl, cell_wf (ref_grid_tri g) bl;
  rd_tri_tables : cell_tables (ref_grid_tri g) = snd (ref_cell_initialize REF_CELL_TRI);
  rd_part : zlen (node_part (grid_node g)) = node_max (grid_node g);
  rd_tet_nodes : forall cell e, cell_at (ref_grid_tet g) cell = Some e ->
    Forall (fun v => 0 <= v < node_max (grid_node g)) (ztake 4 e);
  rd_tri_nodes : forall cell e, cell_at (ref_grid_tri g) cell = Some e ->
    Forall (fun v => 0 <= v < node_max (grid_node g)) (ztake 3 e)
}.

(** The function returned without having formed a cavity. *)
Definition given_up (node : Z) (st : REF_STATUS) (c : REF_CAVITY) : Prop :=
  st = REF_SUCCESS -> cav_node c = node /\ cav_state c <> REF_CAVITY_UNKNOWN /\ cav_state c <> REF_CAVITY_VISIBLE.

Section form.
Context {D : Type} `{Dbl D, Junk Z, Junk REF_ADJ_ITEM, Junk D}.
Implicit Types (g : REF_GRID D) (c : REF_CAVITY) (Q : unit -> REF_CAVITY -> Prop).

Lemma stop_ok {A} x c (Q : A -> REF_CAVITY -> Prop) {cn} (Hcn : cav_node c = cn) :
  x <> REF_CAVITY_UNKNOWN -> x <> REF_CAVITY_VISIBLE -> fwp (stop x) Q (given_up cn) c.
Proof. intros ? ?. apply fwp_bind, fwp_assign, fwp_leave. intros _. done. Qed.

Lemma owned_ok g v : zlen (node_part (grid_node g)) = node_max (grid_node g) -> 0 <= v < node_max (grid_node g) ->
  is_Some (ref_node_owned (grid_node g) v).
Proof. intros Hp Hv. unfold ref_node_owned. rewrite aget_aat by lia. by eexists. Qed.

Lemma require_owned_ok g v c Q {cn} (Hcn : cav_node c = cn) :
  zlen (node_part (grid_node g)) = node_max (grid_node g) -> 0 <= v < node_max (grid_node g) -> Q tt c ->
  fwp (require_owned g v) Q (given_up cn) c.
Proof.
  intros Hp Hv HQ. apply fwp_bind, fwp_use. destruct (owned_ok g v Hp Hv) as [b ->]. apply wp_ret.
  destruct b; [by apply fwp_ret|by apply stop_ok].
Qed.

Lemma require_local_ok r bl g cell e c Q {cn} (Hcn : cav_node c = cn) :
  cell_wf r bl -> cell_at r cell = Some e -> zlen (node_part (grid_node g)) = node_max (grid_node g) ->
  Forall (fun v => 0 <= v < node_max (grid_node g)) (nodes_of (cell_tables r) e) -> Q tt c ->
  fwp (require_local r g cell) Q (given_up cn) c.
Proof.
  intros Hwf Hat Hp Hv HQ. apply fwp_bind, fwp_ask. unfold ref_cell_all_local.
  rewrite (ref_cell_valid_ok r bl cell Hwf), Hat. cbn [obind]. destruct (node_per_bounds r bl Hwf) as [Hnp _].
  apply wp_bind, (wp_for_up (fun _ (_ : bool) => True)); [lia|done| |].
  - intros i b Hi _. destruct b; [|by apply wp_ret]. apply wp_bind.
    rewrite (ref_cell_c2n_ok r bl Hwf cell e i Hat) by lia. apply wp_ret.
    rewrite Forall_forall in Hv. destruct (owned_ok g e.[i] Hp) as [b ->]; [|by apply wp_ret].
    apply Hv, elem_of_ztake; [|by exists i]. rewrite (zlen_entries _ _ _ _ Hwf Hat).
    unfold ref_cell_node_per, ref_cell_size_per in Hnp. lia.
  - intros b _. apply wp_ret. rewrite decide_True by done. destruct b; [by apply fwp_ret|by apply stop_ok].
Qed.

Lemma take_tet_ok g cell e c Q {cn} (Hcn : cav_node c = cn) :
  readable g -> cell_at (ref_grid_tet g) cell = Some e -> list_wf (cav_tet_list c) ->
  RefList.list_max (cav_tet_list c) + 1000 <= REF_INT_MAX ->
  (forall l, list_wf l -> RefList.list_max l <= RefList.list_max (cav_tet_list c) + 1000 ->
     list_content l = list_content (cav_tet_list c) ++ [cell] -> cell ∉ list_content (cav_tet_list c) ->
     Q tt (set_cav_tet_list l c)) ->
  fwp (take_tet g cell) Q (given_up cn) c.
Proof.
  intros [[bl Hwf] Htb _ _ Hp Hn _] Hat Hl Hm HQ. apply fwp_bind, fwp_bind, fwp_state, fwp_ask.
  eapply wp_mono; [by apply ref_list_contains_ok|]. intros [st b] (-> & ->). rewrite decide_True by done.
  apply fwp_bind, fwp_require; [|done]. intros Hnew%negb_true_iff%bool_decide_eq_false.
  apply fwp_bind, fwp_call, wp_bind. eapply wp_mono; [by apply ref_list_push_ok|].
  intros [st l] (-> & Hl' & Hc & Hm'). apply wp_ret. rewrite decide_True by done.
  apply (require_local_ok _ bl _ _ e); [done|exact Hwf|exact Hat|done| |by apply HQ]. rewrite Htb. by apply (Hn cell).
Qed.

Lemma take_tri_ok g cell e c Q {cn} (Hcn : cav_node c = cn) :
  readable g -> cell_at (ref_grid_tri g) cell = Some e -> list_wf (cav_tri_list c) ->
  RefList.list_max (cav_tri_list c) + 1000 <= REF_INT_MAX ->
  (forall l, list_wf l -> RefList.list_max l <= RefList.list_max (cav_tri_list c) + 1000 ->
     list_content l = list_content (cav_tri_list c) ++ [cell] -> cell ∉ list_content (cav_tri_list c) ->
     Q tt (set_cav_tri_list l c)) ->
  fwp (take_tri g cell) Q (given_up cn) c.
Proof.
  intros [_ _ [bl Hwf] Htb Hp _ Hn] Hat Hl Hm HQ. apply fwp_bind, fwp_bind, fwp_state, fwp_ask.
  eapply wp_mono; [by apply ref_list_contains_ok|]. intros [st b] (-> & ->). rewrite decide_True by done.
  apply fwp_bind, fwp_require; [|done]. intros Hnew%negb_true_iff%bool_decide_eq_false.
  apply fwp_bind, fwp_call, wp_bind. eapply wp_mono; [by apply ref_list_push_ok|].
  intros [st l] (-> & Hl' & Hc & Hm'). apply wp_ret. rewrite decide_True by done.
  apply (require_local_ok _ bl _ _ e); [done|exact Hwf|exact Hat|done| |by apply HQ]. rewrite Htb. by apply (Hn cell).
Qed.

Lemma tet_entry g cell e i j :
  readable g -> cell_at (ref_grid_tet g) cell = Some e -> 0 <= i < 4 -> 0 <= j < 4 ->
  ref_cell_f2n (ref_grid_tet g) i j cell =
  Some e.[(cell_f2n (snd (ref_cell_initialize REF_CELL_TET))).[i + 4 * j]].
Proof.
  intros Hg Hat Hi Hj. destruct (rd_tet _ Hg) as [bl Hwf]. rewrite (ref_cell_f2n_ok _ bl Hwf cell e i j Hat Hi).
  - unfold face_node. by rewrite (rd_tet_tables _ Hg).
  - unfold ref_cell_face_per. by rewrite (rd_tet_tables _ Hg).
Qed.

Lemma tet_faces_at e j : 0 <= j < 4 ->
  let f2n := cell_f2n (snd (ref_cell_initialize REF_CELL_TET)) in
  (tet_faces e).[j] = (e.[f2n.[0 + 4 * j]], e.[f2n.[1 + 4 * j]], e.[f2n.[2 + 4 * j]]).
Proof. intros Hj. cbv zeta. assert (j = 0 \/ j = 1 \/ j = 2 \/ j = 3) as [-> |[-> |[-> | ->]]] by lia; done. Qed.

Lemma tet_face_nodes g cell e j :
  readable g -> cell_at (ref_grid_tet g) cell = Some e -> 0 <= j < 4 ->
  let f2n := cell_f2n (snd (ref_cell_initialize REF_CELL_TET)) in
  0 <= e.[f2n.[0 + 4 * j]].
Proof.
  intros Hg Hat Hj. cbv zeta. pose proof (rd_tet_nodes _ Hg cell e Hat) as Hn. rewrite Forall_forall in Hn.
  destruct (rd_tet _ Hg) as [bl Hwf]. pose proof (zlen_entries _ _ _ _ Hwf Hat) as Hlen.
  rewrite (rd_tet_tables _ Hg) in Hlen. change (size_per _) with 4 in Hlen.
  apply Hn, elem_of_ztake; [lia|]. eexists. split; [|done].
  assert (j = 0 \/ j = 1 \/ j = 2 \/ j = 3) as [-> |[-> |[-> | ->]]] by lia; vm_compute; split; congruence.
Qed.

Lemma insert_faces_without_ok g cell e attached k c Q {cn} (Hcn : cav_node c = cn) :
  readable g -> cell_at (ref_grid_tet g) cell = Some e -> 0 <= k -> table_ok (k + 4) (cav_face c) ->
  (forall t, table_ok k t ->
     (forall phi, alternating phi -> sum_over (on_face phi) (table_rows t) =
        sum_over (on_face phi) (table_rows (cav_face c)) + sum_over (on_face phi) (kept attached (tet_faces e))) ->
     Q tt (set_cav_face t c)) ->
  fwp (insert_faces_without g attached cell) Q (given_up cn) c.
Proof.
  intros Hg Hat Hk Hok HQ. unfold insert_faces_without, ref_cell_face_per. rewrite (rd_tet_tables _ Hg).
  apply fwp_count with (P := fun j c' => exists t, c' = set_cav_face t c /\ table_ok (k + (4 - j)) t /\
    forall phi, alternating phi -> sum_over (on_face phi) (table_rows t) =
      sum_over (on_face phi) (table_rows (cav_face c)) +
      sum_over (on_face phi) (kept attached (ztake j (tet_faces e)))).
  - done.
  - exists (cav_face c). split; [by destruct c|]. split; [done|]. intros phi _.
    change (ztake 0 (tet_faces e)) with (@nil (Z * Z * Z)). cbn. lia.
  - intros j c' Hj (t & -> & Ht & Hsum). change (snd _) with (snd (ref_cell_initialize REF_CELL_TET)) in Hj.
    change (face_per _) with 4 in Hj. cbv zeta.
    pose proof (tet_face_nodes g cell e j Hg Hat Hj) as Hpos. cbv zeta in Hpos.
    apply fwp_bind. do 3 (apply fwp_bind, fwp_use; rewrite (tet_entry g cell e _ j Hg Hat) by lia; apply wp_ret).
    apply fwp_ret.
    assert (Hnext : ztake (j + 1) (tet_faces e) = ztake j (tet_faces e) ++ [(tet_faces e).[j]])
      by (apply ztake_S; change (zlen (tet_faces e)) with 4; lia).
    rewrite tet_faces_at in Hnext by done. cbv zeta in Hnext.
    set (n0 := e.[_.[0 + 4 * j]]) in *. set (n1 := e.[_.[1 + 4 * j]]) in *. set (n2 := e.[_.[2 + 4 * j]]) in *.
    rewrite Hnext. unfold kept. rewrite filter_app, filter_cons, filter_nil. cbn [face_list].
    destruct (attached [n0; n1; n2]).
    + apply fwp_ret. exists t. split; [done|]. split; [eapply table_ok_mono; [|exact Ht]; lia|].
      intros phi Ha. rewrite decide_False by done. rewrite app_nil_r. by apply Hsum.
    + apply fwp_call. eapply wp_mono; [apply (insert_face_ok (k + (4 - (j + 1))))|].
      * cbn. eapply table_ok_mono; [|exact Ht]. lia.
      * lia.
      * done.
      * change (n0 <> REF_EMPTY). unfold REF_EMPTY. lia.
      * intros [st c'] (t' & -> & Ht' & [[-> Hins]|[-> _]]); [rewrite decide_True by done|by rewrite decide_False].
        exists t'. split; [done|]. split; [done|]. intros phi Ha. rewrite decide_True by done.
        rewrite sum_over_app, sum_over_cons, sum_over_nil.
        rewrite (face_inserted_sum phi _ _ _ Ha Hins). cbn [cav_face set_cav_face] in *. rewrite Hsum by done.
        change (triple [n0; n1; n2]) with (n0, n1, n2). unfold kept. lia.
  - intros c' (t & -> & Ht & Hsum). apply HQ; [eapply table_ok_mono; [|exact Ht]|done].
    change (face_per _) with 4. lia.
Qed.

(** The tetrahedra of a list of cells, without the faces that pass the test. *)
Definition tets_taken (attached : list Z -> bool) (tets : gmap Z (list Z)) (cells : list Z) (k : Z) c c' : Prop :=
  exists t l, c' = set_cav_face t (set_cav_tet_list l c) /\ table_ok k t /\
    list_wf l /\ list_content l = cells /\ NoDup cells /\
    forall phi, alternating phi -> sum_over (on_face phi) (table_rows t) =
      sum_over (on_face phi) (table_rows (cav_face c)) +
      sum_over (fun cell => sum_over (on_face phi) (kept attached (tet_faces (entries_of tets cell)))) cells.

Lemma entries_of_at r cell e : cell_at r cell = Some e -> entries_of (cell_map r) cell = e.
Proof. intros He. unfold entries_of. by rewrite cell_map_represents, He. Qed.

Lemma tets_phase_ok g attached cells L k c Q {cn} (Hcn : cav_node c = cn) :
  readable g -> (forall b (s : REF_CAVITY), L b s = forl cells b s) ->
  (forall cell, cell ∈ cells -> is_Some (cell_at (ref_grid_tet g) cell)) -> 0 <= k ->
  table_ok (k + 4 * zlen cells) (cav_face c) -> list_wf (cav_tet_list c) -> list_content (cav_tet_list c) = [] ->
  RefList.list_max (cav_tet_list c) + 1000 * zlen cells <= REF_INT_MAX ->
  (forall c', tets_taken attached (cell_map (ref_grid_tet g)) cells k c c' -> Q tt c') ->
  fwp (through L (fun cell => take_tet g cell ;! insert_faces_without g attached cell)) Q (given_up cn) c.
Proof.
  intros Hg HL Hcells Hk Hok Hl Hc Hm HQ.
  apply (fwp_through cells) with (P := fun pre c' =>
    tets_taken attached (cell_map (ref_grid_tet g)) pre (k + 4 * (zlen cells - zlen pre)) c c' /\
    RefList.list_max (cav_tet_list c') + 1000 * (zlen cells - zlen pre) <= REF_INT_MAX); [done| | |].
  - split; [|rewrite zlen_nil; lia]. exists (cav_face c), (cav_tet_list c). rewrite zlen_nil, Z.sub_0_r.
    split; [by destruct c|]. split; [done|]. split; [done|]. split; [done|]. split; [apply NoDup_nil_2|].
    intros phi _. rewrite sum_over_nil. lia.
  - intros pre cell post c' Hsplit [(t & l & -> & Ht & Hl' & Hc' & Hnd & Hsum) Hm']. cbn in Hm'.
    assert (Hlen : zlen cells - zlen pre = zlen post + 1) by (rewrite Hsplit, zlen_app, zlen_cons; lia).
    pose proof (zlen_nonneg post). destruct (Hcells cell) as [e He]; [rewrite Hsplit; set_solver|].
    rewrite zlen_app, zlen_cons, zlen_nil.
    apply fwp_bind, (take_tet_ok g cell e); [done|done|done|done|cbn; lia|].
    intros l' Hl'' Hm'' Hc'' Hnew. cbn in Hm'', Hc'', Hnew.
    apply (insert_faces_without_ok g cell e attached (k + 4 * zlen post)); [done|done|done|lia| |].
    { cbn. eapply table_ok_mono; [|exact Ht]. lia. }
    intros t' Ht' Hsum'. cbn in Hsum'. split; [|cbn; lia]. exists t', l'. split; [done|].
    split; [eapply table_ok_mono; [|exact Ht']; lia|]. split; [done|]. split; [by rewrite Hc'', Hc'|].
    split.
    { apply NoDup_app. split; [done|]. split; [|apply NoDup_singleton].
      intros x Hx ->%list_elem_of_singleton. by rewrite Hc' in Hnew. }
    intros phi Ha. rewrite Hsum', Hsum, sum_over_app, sum_over_cons, sum_over_nil by done.
    rewrite (entries_of_at _ cell e He). lia.
  - intros c' [Ht _]. apply HQ. by rewrite Z.sub_diag, Z.mul_0_r, Z.add_0_r in Ht.
Qed.

(** A segment that is not there in reverse comes with its face. *)
Lemma find_seg_ok c bl nodes :
  table_links (cav_seg c) bl -> 2 <= zlen nodes ->
  wp (ref_cavity_find_seg c nodes) (fun '(st, (seg, reversed)) =>
    st = REF_SUCCESS /\ 0 <= seg /\ (reversed = true -> exists id, (nodes.[1], nodes.[0], id) ∈ table_rows (cav_seg c)) \/
    st = REF_NOT_FOUND /\ seg = REF_EMPTY).
Proof.
  intros Hwf Hl. unfold ref_cavity_find_seg. do 2 (apply wp_bind, wp_aget; [lia|]). apply wp_bind.
  rewrite (each_valid_eq _ bl Hwf). apply (wp_forl (fun _ _ => True) (fun '(st, (seg, reversed)) =>
    st = REF_SUCCESS /\ 0 <= seg /\ (reversed = true -> exists id, (nodes.[1], nodes.[0], id) ∈ table_rows (cav_seg c))));
    [done| | |].
  - intros pre row post s Hsplit _.
    assert (row ∈ used (cav_seg c)) as [[[s0 s1] id] He]%elem_of_used by (rewrite Hsplit; set_solver).
    rewrite (table_row_ok _ bl Hwf row _ He). cbn [obind]. apply table_at_range in He as Hr.
    destruct (_ && _); [apply wp_ret; split; [done|]; by split; [lia|]|].
    destruct (_ && _) eqn:Hrev; apply wp_ret; [|done]. split; [done|]. split; [lia|]. intros _. exists id.
    assert (nodes.[1] = s0 /\ nodes.[0] = s1) as [-> ->] by lia. apply elem_of_table_rows. by exists row.
  - intros s _. apply wp_ret. by right.
  - intros [st [seg reversed]] Hr. apply wp_ret. by left.
Qed.

(** What the segment does: it is stored, and its face is inserted when there are
    tetrahedra. *)
Definition seg_inserted (a b id k kf : Z) c c' : Prop :=
  exists s t, c' = set_cav_face t (set_cav_seg s c) /\ table_ok k s /\ table_ok kf t /\
    table_rows s ≡ₚ (a, b, id) :: table_rows (cav_seg c) /\
    (list_n (cav_tet_list c) <> 0 -> forall phi, alternating phi ->
       sum_over (on_face phi) (table_rows t) =
       sum_over (on_face phi) (table_rows (cav_face c)) + phi a b (ref_cavity_seg_node c)).

Lemma add_seg_face_ok a b id kf c :
  table_ok (kf + 1) (cav_face c) -> 0 <= kf -> a <> REF_EMPTY -> cav_state c = REF_CAVITY_UNKNOWN ->
  wp (ref_cavity_add_seg_face [a; b; id] c) (fun '(st, c') => st = REF_SUCCESS ->
    exists t, c' = set_cav_face t c /\ table_ok kf t /\
    (list_n (cav_tet_list c) <> 0 -> forall phi, alternating phi ->
       sum_over (on_face phi) (table_rows t) =
       sum_over (on_face phi) (table_rows (cav_face c)) + phi a b (ref_cavity_seg_node c))).
Proof.
  intros Hf Hkf Ha Hst.
  assert (Hsame : table_ok kf (cav_face c)) by (eapply table_ok_mono; [|exact Hf]; lia).
  apply wp_body, fwp_bind, fwp_state. destruct (list_n (cav_tet_list c) =? 0) eqn:Hn.
  { apply fwp_leave. intros _. exists (cav_face c). split; [by destruct c|]. split; [done|]. lia. }
  apply fwp_bind, fwp_state. unfold is_state. rewrite bool_decide_eq_true_2 by done.
  apply fwp_bind, fwp_use, wp_ret, fwp_bind, fwp_use, wp_ret. destruct (_ || _) eqn:Hatt.
  - apply fwp_leave. intros _. exists (cav_face c). split; [by destruct c|]. split; [done|]. intros _ phi Hphi.
    assert (a = ref_cavity_seg_node c \/ b = ref_cavity_seg_node c) as [->| ->] by lia;
      [rewrite (alt_02 _ Hphi)|rewrite (alt_12 _ Hphi)]; lia.
  - apply fwp_call. eapply wp_mono; [by apply (insert_face_ok kf)|].
    intros [st c'] (t & -> & Ht & [[-> Hins]|[-> _]]); [|by rewrite decide_False].
    rewrite decide_True by done. intros _. exists t. split; [done|]. split; [done|].
    intros _ phi Hphi. by rewrite (face_inserted_sum phi _ _ _ Hphi Hins).
Qed.

Lemma insert_seg_ok g a b id k kf c :
  table_ok (k + 1) (cav_seg c) -> 0 <= k -> table_ok (kf + 1) (cav_face c) -> 0 <= kf ->
  a <> REF_EMPTY -> cav_state c = REF_CAVITY_UNKNOWN ->
  (forall id', (b, a, id') ∉ table_rows (cav_seg c)) ->
  wp (ref_cavity_insert_seg g [a; b; id] c) (fun '(st, c') => st = REF_SUCCESS -> seg_inserted a b id k kf c c').
Proof.
  intros Hok Hk Hf Hkf Ha Hst Hrev. pose proof Hok as ((bl & Hwf) & _).
  apply wp_body, fwp_bind, fwp_state, fwp_bind, fwp_ask_or.
  eapply wp_mono; [by apply (find_seg_ok c bl)|]. intros [st [seg reversed]] Hfind.
  rewrite decide_True by (destruct Hfind as [[-> _]|[-> _]]; auto).
  destruct Hfind as [(-> & Hseg & Hr)|[-> ->]].
  { replace (REF_EMPTY =? seg) with false by (unfold REF_EMPTY; lia). destruct reversed; [|by apply fwp_leave].
    destruct (Hr eq_refl) as [id' Hin]. by destruct (Hrev id'). }
  cbn [negb]. replace (REF_EMPTY =? REF_EMPTY) with true by done. cbn [negb].
  apply fwp_bind, fwp_update, wp_bind. eapply wp_mono; [by apply (table_grow_ok _ bl k)|].
  intros s ((row & bl' & Hwf') & Hs & _ & Hrows). apply wp_ret.
  apply fwp_bind, fwp_update, wp_bind. cbn [cav_seg set_cav_seg].
  eapply wp_mono; [by apply (table_add_ok s row bl' k)|].
  intros s' (_ & Hs' & _ & Hp). apply wp_ret. rewrite Hrows in Hp.
  apply fwp_call. change (triple [a; b; id]) with (a, b, id) in Hp.
  eapply wp_mono; [by apply (add_seg_face_ok a b id kf)|]. intros [st c'] Hface.
  destruct (decide (st = REF_SUCCESS)) as [->|]; [|done]. intros _.
  destruct (Hface eq_refl) as (t & -> & Ht & Hsum). by exists s', t.
Qed.

(** ** What the triangles cover *)

Definition conforming g : Prop := forall phi, alternating phi -> grid_boundary phi g = 0.
Definition distinct_tris g : Prop := forall cell cell' e e',
  cell_at (ref_grid_tri g) cell = Some e -> cell_at (ref_grid_tri g) cell' = Some e' ->
  ztake 3 e ≡ₚ ztake 3 e' -> cell = cell'.

(** The tetrahedra of [T] have all the faces that pass the test, and the triangles of
    [R] are those that pass it. *)
Definition covers g (P : list Z -> bool) (T R : list Z) : Prop :=
  NoDup T /\ NoDup R /\
  (forall cell, cell ∈ T -> is_Some (cell_at (ref_grid_tet g) cell)) /\
  (forall cell e f, cell_at (ref_grid_tet g) cell = Some e -> f ∈ tet_faces e -> P (face_list f) = true -> cell ∈ T) /\
  (forall cell, cell ∈ R -> exists e, cell_at (ref_grid_tri g) cell = Some e /\ P (face_list (triple e)) = true) /\
  (forall cell e, cell_at (ref_grid_tri g) cell = Some e -> P (face_list (triple e)) = true -> cell ∈ R).

Lemma covered g P T R phi :
  conforming g -> order_free P -> covers g P T R -> alternating phi ->
  sum_over (fun cell => around_tet (restrict P phi) (entries_of (cell_map (ref_grid_tet g)) cell)) T =
  sum_over (fun cell => on_tri phi (entries_of (cell_map (ref_grid_tri g)) cell)) R.
Proof.
  intros Hc HP (HT & HR & HTin & HTall & HRin & HRall) Ha.
  pose proof (Hc (restrict P phi) (alternating_restrict P phi HP Ha)) as Hz.
  unfold grid_boundary, mesh_boundary in Hz.
  assert (Htet : map_sum (around_tet (restrict P phi)) (cell_map (ref_grid_tet g)) =
    sum_over (fun cell => around_tet (restrict P phi) (entries_of (cell_map (ref_grid_tet g)) cell)) T).
  { apply map_sum_support; [done| |].
    - intros cell Hin. rewrite (cell_map_represents (ref_grid_tet g) cell). by apply HTin.
    - intros cell e He Hn. rewrite (cell_map_represents (ref_grid_tet g) cell) in He. apply sum_over_zero.
      intros f Hf. pose proof (HTall cell e f He Hf) as Hall. destruct f as [[a b] d]. cbn in *. unfold restrict.
      destruct (P [a; b; d]); [by destruct Hn; apply Hall|done]. }
  assert (Htri : map_sum (on_tri (restrict P phi)) (cell_map (ref_grid_tri g)) =
    sum_over (fun cell => on_tri (restrict P phi) (entries_of (cell_map (ref_grid_tri g)) cell)) R).
  { apply map_sum_support; [done| |].
    - intros cell Hin. destruct (HRin cell Hin) as (e & He & _).
      rewrite (cell_map_represents (ref_grid_tri g) cell), He. by eexists.
    - intros cell e He Hn. rewrite (cell_map_represents (ref_grid_tri g) cell) in He. unfold on_tri.
      pose proof (HRall cell e He) as Hall. destruct (triple e) as [[a b] d]. cbn in *. unfold restrict.
      destruct (P [a; b; d]); [by destruct Hn; apply Hall|done]. }
  rewrite Htet, Htri in Hz. rewrite (sum_over_ext (fun k => on_tri (restrict P phi) _)
    (fun cell => on_tri phi (entries_of (cell_map (ref_grid_tri g)) cell)) R) in Hz; [lia|].
  intros cell Hin. destruct (HRin cell Hin) as (e & He & HPe). rewrite (entries_of_at _ cell e He).
  unfold on_tri. destruct (triple e) as [[a b] d]. cbn. unfold restrict. cbn [face_list] in HPe. by rewrite HPe.
Qed.

(** The segments balance the faces that came with them. *)
Definition seg_value c (phi : Z -> Z -> Z -> Z) (s : Z * Z * Z) : Z := phi s.1.1 s.1.2 (ref_cavity_seg_node c).
Definition formed (P : list Z -> bool) g (T R : list Z) c : Prop :=
  table_ok 0 (cav_face c) /\ table_ok 0 (cav_seg c) /\
  list_wf (cav_tet_list c) /\ list_content (cav_tet_list c) = T /\
  list_wf (cav_tri_list c) /\ list_content (cav_tri_list c) = R /\
  forall phi, alternating phi ->
    sum_over (on_face phi) (table_rows (cav_face c)) - sum_over (seg_value c phi) (table_rows (cav_seg c)) =
    sum_over (fun cell => sum_over (on_face phi) (kept P (tet_faces (entries_of (cell_map (ref_grid_tet g)) cell)))) T.

Lemma formed_surplus P g T R c phi :
  conforming g -> order_free P -> covers g P T R -> formed P g T R c -> alternating phi ->
  cavity_surplus phi c (cell_map (ref_grid_tet g)) (cell_map (ref_grid_tri g)) = 0.
Proof.
  intros Hc HP Hcov (_ & _ & _ & HT & _ & HR & Hsum) Ha. unfold cavity_surplus. rewrite HT, HR.
  pose proof (covered g P T R phi Hc HP Hcov Ha) as Hco. specialize (Hsum phi Ha). unfold seg_value in Hsum.
  rewrite (sum_over_ext _ (fun cell => around_tet phi (entries_of (cell_map (ref_grid_tet g)) cell) -
    around_tet (restrict P phi) (entries_of (cell_map (ref_grid_tet g)) cell)) T) in Hsum.
  - rewrite sum_over_sub in Hsum. lia.
  - intros cell _. apply sum_kept.
Qed.

(** ** The triangles of a ball *)

Definition segs_of g (node : Z) (cells : list Z) (rows : list (Z * Z * Z)) : Prop :=
  forall a b id, (a, b, id) ∈ rows -> exists cell e, cell ∈ cells /\ cell_at (ref_grid_tri g) cell = Some e /\
    ztake 3 e ≡ₚ [node; a; b].

Lemma tri_entries g cell e : readable g -> cell_at (ref_grid_tri g) cell = Some e ->
  exists t0 t1 t2 id, e = [t0; t1; t2; id] /\ 0 <= t0 /\ 0 <= t1 /\ 0 <= t2 /\
    forall i, 0 <= i < 4 -> ref_cell_c2n (ref_grid_tri g) i cell = Some e.[i].
Proof.
  intros Hg Hat. pose proof (rd_tri_nodes _ Hg cell e Hat) as Hn. destruct (rd_tri _ Hg) as [bl Hwf].
  pose proof (zlen_entries _ _ _ _ Hwf Hat) as Hlen. rewrite (rd_tri_tables _ Hg) in Hlen.
  change (size_per _) with 4 in Hlen.
  destruct e as [|t0 [|t1 [|t2 [|id [|? ?]]]]]; rewrite ?zlen_cons, ?zlen_nil in Hlen;
    [lia|lia|lia|lia| |pose proof (zlen_nonneg l); lia].
  exists t0, t1, t2, id. split; [done|]. change (ztake 3 [t0; t1; t2; id]) with [t0; t1; t2] in Hn. rewrite !Forall_cons in Hn. destruct Hn as (? & ? & ? & _).
  split; [lia|]. split; [lia|]. split; [lia|]. intros i Hi.
  apply (ref_cell_c2n_ok _ bl Hwf); [done|]. unfold ref_cell_size_per. by rewrite (rd_tri_tables _ Hg).
Qed.

(** One side: it has the node, or its segment is inserted. *)
Lemma side_ok g node a b id k kf c Q {cn} (Hcn : cav_node c = cn) :
  (node = a \/ node = b -> Q tt c) ->
  (node <> a -> node <> b -> table_ok (k + 1) (cav_seg c) /\ 0 <= k /\ table_ok (kf + 1) (cav_face c) /\ 0 <= kf /\
     0 <= a /\ cav_state c = REF_CAVITY_UNKNOWN /\ (forall id', (b, a, id') ∉ table_rows (cav_seg c)) /\
     forall c', seg_inserted a b id k kf c c' -> Q tt c') ->
  fwp (if is_one_of node [a; b] then fret tt else call (ref_cavity_insert_seg g [a; b; id])) Q (given_up cn) c.
Proof.
  intros Hskip Hins. destruct (is_one_of node [a; b]) eqn:Hone; cbn in Hone; [apply fwp_ret, Hskip; lia|].
  destruct Hins as (Hs & Hk & Hf & Hkf & Ha & Hst & Hrev & HQ); [lia|lia|].
  apply fwp_call. eapply wp_mono; [apply (insert_seg_ok g a b id k kf); try done; unfold REF_EMPTY; lia|].
  intros [st c'] Hpost. case_decide as Hd; [by apply HQ, Hpost|by intros ?].
Qed.

Lemma ball_tri_ok g node cell e pre k kf c Q {cn} (Hcn : cav_node c = cn) :
  readable g -> distinct_tris g -> cell_at (ref_grid_tri g) cell = Some e -> node ∈ ztake 3 e -> cell ∉ pre ->
  segs_of g node pre (table_rows (cav_seg c)) -> table_ok (k + 1) (cav_seg c) -> 0 <= k ->
  table_ok (kf + 1) (cav_face c) -> 0 <= kf -> cav_state c = REF_CAVITY_UNKNOWN ->
  (forall c', c' = c \/ (exists a b id, seg_inserted a b id k kf c c' /\ ztake 3 e ≡ₚ [node; a; b]) -> Q tt c') ->
  fwp (insert_segs_without g node cell) Q (given_up cn) c.
Proof.
  intros Hg Hd Hat Hin Hnew Hsegs Hs Hk Hf Hkf Hst HQ.
  assert (Hrev : forall a b id, ztake 3 e ≡ₚ [node; a; b] -> (b, a, id) ∉ table_rows (cav_seg c)).
  { intros a b id Hp Hrow. destruct (Hsegs b a id Hrow) as (cell' & e' & Hin' & Hat' & Hp'). destruct Hnew.
    rewrite (Hd cell cell' e e'); [done|done|done|]. rewrite Hp, Hp'. apply perm_skip, perm_swap. }
  destruct (tri_entries g cell e Hg Hat) as (t0 & t1 & t2 & id & -> & H0' & H1' & H2' & Hc2n).
  change (ztake 3 [t0; t1; t2; id]) with [t0; t1; t2] in *. unfold insert_segs_without. cbv zeta.
  unfold ref_cell_id_index, ref_cell_node_per. rewrite (rd_tri_tables _ Hg).
  change (node_per _) with 3.
  pose proof (Hc2n 0 ltac:(lia)) as E0. pose proof (Hc2n 1 ltac:(lia)) as E1.
  pose proof (Hc2n 2 ltac:(lia)) as E2. pose proof (Hc2n 3 ltac:(lia)) as E3.
  change ([t0; t1; t2; id].[0]) with t0 in E0. change ([t0; t1; t2; id].[1]) with t1 in E1.
  change ([t0; t1; t2; id].[2]) with t2 in E2. change ([t0; t1; t2; id].[3]) with id in E3.
  rewrite E0, E1, E2, E3. apply fwp_bind, fwp_use, wp_ret.
  assert (Hcase : node = t0 \/ node <> t0 /\ node = t1 \/ node <> t0 /\ node <> t1 /\ node = t2)
    by (rewrite !elem_of_cons in Hin; pose proof (not_elem_of_nil node); destruct (decide (node = t0)), (decide (node = t1)); tauto).
  apply fwp_bind. do 2 apply fwp_bind, fwp_use, wp_ret.
  assert (Hrest : forall c', cav_node c' = cn -> (node = t0 -> Q tt c') -> (node <> t0 -> c' = c) ->
    fwp (fbind (let! ni := use (Some t2) in
                let! nj := use (Some t0) in
                if is_one_of node [ni; nj] then fret tt else call (ref_cavity_insert_seg g [ni; nj; id])) (fun _ =>
        let! ni := use (Some t0) in
        let! nj := use (Some t1) in
        if is_one_of node [ni; nj] then fret tt else call (ref_cavity_insert_seg g [ni; nj; id]))) Q (given_up cn) c').
  { intros c' Hcn' Hz Hnz. apply fwp_bind.
    do 2 apply fwp_bind, fwp_use, wp_ret.
    apply (side_ok g node t2 t0 id k kf); [done| |].
    - intros Hcomm. do 2 apply fwp_bind, fwp_use, wp_ret.
      apply (side_ok g node t0 t1 id k kf); [done| |].
      + intros Hcomm'. destruct (decide (node = t0)) as [->|Hn0]; [by apply Hz|]. rewrite (Hnz Hn0). apply HQ. by left.
      + intros Hn0 Hn1. assert (node = t2) as -> by tauto. rewrite (Hnz Hn0) in *.
        do 5 (split; [done|]). split; [done|]. split.
        { intros id'. apply Hrev. by rewrite (Permutation_cons_append [t0; t1] t2). }
        intros c'' Hi. apply HQ. right. exists t0, t1, id. split; [done|].
        by rewrite (Permutation_cons_append [t0; t1] t2).
    - intros Hn2 Hn0. assert (node = t1) as -> by tauto. rewrite (Hnz Hn0) in *.
      assert (Hperm : [t0; t1; t2] ≡ₚ [t1; t2; t0]) by apply (Permutation_cons_append [t1; t2] t0).
      do 5 (split; [done|]). split; [done|]. split; [intros id'; by apply Hrev|].
      intros c'' Hi. do 2 apply fwp_bind, fwp_use, wp_ret.
      apply (side_ok g t1 t0 t1 id k kf); [by destruct Hi as (s & t & -> & _)| |done]. intros _. apply HQ. right. exists t2, t0, id. by split. }
  apply (side_ok g node t1 t2 id k kf); [done| |].
  - intros Hskip. apply Hrest; [done| |done]. intros ->. apply HQ. by left.
  - intros Hn1 Hn2. assert (node = t0) as -> by tauto. do 5 (split; [done|]). split; [done|].
    split; [intros id'; by apply Hrev|].
    intros c' Hi. apply Hrest; [by destruct Hi as (s & t & -> & _)| |done]. intros _. apply HQ. right. exists t1, t2, id. by split.
Qed.

(** The triangles of the node and their segments. *)
Definition tris_taken g (node : Z) (cells : list Z) (k kf : Z) c c' : Prop :=
  exists s t l, c' = set_cav_face t (set_cav_seg s (set_cav_tri_list l c)) /\ table_ok k s /\ table_ok kf t /\
    list_wf l /\ list_content l = cells /\ NoDup cells /\ segs_of g node cells (table_rows s) /\
    forall phi, alternating phi ->
      sum_over (on_face phi) (table_rows t) - sum_over (seg_value c phi) (table_rows s) =
      sum_over (on_face phi) (table_rows (cav_face c)) - sum_over (seg_value c phi) (table_rows (cav_seg c)).

Lemma segs_of_mono g node cells cells' rows :
  (forall cell, cell ∈ cells -> cell ∈ cells') -> segs_of g node cells rows -> segs_of g node cells' rows.
Proof. intros Hsub Hs a b id Hrow. destruct (Hs a b id Hrow) as (cell & e & ? & ? & ?). exists cell, e. auto. Qed.

Lemma tris_phase_ok g node cells L k kf c Q {cn} (Hcn : cav_node c = cn) :
  readable g -> distinct_tris g -> (forall b (s : REF_CAVITY), L b s = forl cells b s) ->
  (forall cell, cell ∈ cells -> exists e, cell_at (ref_grid_tri g) cell = Some e /\ node ∈ ztake 3 e) ->
  0 <= k -> 0 <= kf -> table_ok (k + zlen cells) (cav_seg c) -> table_ok (kf + zlen cells) (cav_face c) ->
  table_rows (cav_seg c) = [] -> list_wf (cav_tri_list c) -> list_content (cav_tri_list c) = [] ->
  RefList.list_max (cav_tri_list c) + 1000 * zlen cells <= REF_INT_MAX -> cav_state c = REF_CAVITY_UNKNOWN ->
  list_n (cav_tet_list c) <> 0 ->
  (forall c', tris_taken g node cells k kf c c' -> Q tt c') ->
  fwp (through L (fun cell => take_tri g cell ;! insert_segs_without g node cell)) Q (given_up cn) c.
Proof.
  intros Hg Hd HL Hcells Hk Hkf Hs Hf Hrows Hl Hc Hm Hst Htet HQ.
  apply (fwp_through cells) with (P := fun pre c' =>
    tris_taken g node pre (k + (zlen cells - zlen pre)) (kf + (zlen cells - zlen pre)) c c' /\
    RefList.list_max (cav_tri_list c') + 1000 * (zlen cells - zlen pre) <= REF_INT_MAX); [done| | |].
  - rewrite zlen_nil, Z.sub_0_r. split; [|done]. exists (cav_seg c), (cav_face c), (cav_tri_list c).
    split; [by destruct c|]. do 4 (split; [done|]). split; [apply NoDup_nil_2|]. split; [|done].
    intros a b id Hin. rewrite Hrows in Hin. by apply not_elem_of_nil in Hin.
  - intros pre cell post c' Hsplit [(s & t & l & -> & Hs' & Ht & Hl' & Hc' & Hnd & Hsegs & Hsum) Hm']. cbn in Hm'.
    assert (Hlen : zlen cells - zlen pre = zlen post + 1) by (rewrite Hsplit, zlen_app, zlen_cons; lia).
    pose proof (zlen_nonneg post). destruct (Hcells cell) as (e & He & Hin); [rewrite Hsplit; set_solver|].
    rewrite zlen_app, zlen_cons, zlen_nil. rewrite Hlen, Z.add_assoc in Hs', Ht.
    replace (zlen cells - (zlen pre + (0 + 1))) with (zlen post) by lia.
    apply fwp_bind, (take_tri_ok g cell e); [done|done|done|done|cbn; lia|].
    intros l' Hl'' Hm'' Hc'' Hnew. cbn in Hm'', Hc'', Hnew. rewrite Hc' in Hc'', Hnew.
    assert (Hnd' : NoDup (pre ++ [cell])).
    { apply NoDup_app. split; [done|]. split; [|apply NoDup_singleton]. by intros x Hx ->%list_elem_of_singleton. }
    apply (ball_tri_ok g node cell e pre (k + zlen post) (kf + zlen post)); try done; [lia|lia|].
    intros c' [->|(a & b & id & (s' & t' & -> & Hs'' & Ht' & Hp & Hsum') & Hperm)].
    + split; [|cbn; lia]. exists s, t, l'. split; [done|].
      split; [eapply table_ok_mono; [|exact Hs']; lia|]. split; [eapply table_ok_mono; [|exact Ht]; lia|].
      split; [done|]. split; [done|]. split; [done|]. split; [|done].
      eapply segs_of_mono; [|exact Hsegs]. set_solver.
    + split; [|cbn; lia]. exists s', t', l'. split; [done|]. do 2 (split; [done|]). split; [done|].
      split; [done|]. split; [done|]. cbn [cav_seg cav_face cav_tet_list set_cav_seg set_cav_face set_cav_tri_list] in *. split.
      * intros a' b' id'. rewrite Hp, elem_of_cons. intros [[= -> -> ->]|Hrow].
        -- exists cell, e. split; [set_solver|done].
        -- eapply segs_of_mono; [|exact Hsegs|exact Hrow]. set_solver.
      * intros phi Ha. rewrite (Hsum' Htet phi Ha), (sum_over_perm _ _ _ Hp), sum_over_cons.
        specialize (Hsum phi Ha). unfold seg_value at 1. cbn [fst snd].
        change (ref_cavity_seg_node _) with (ref_cavity_seg_node c) at 1. lia.
  - intros c' [Ht _]. apply HQ. by rewrite Z.sub_diag, !Z.add_0_r in Ht.
Qed.

(** ** The ball *)

(** A cavity just made. *)
Record new_cavity c : Prop := {
  fr_state : cav_state c = REF_CAVITY_UNKNOWN;
  fr_surf : cav_surf_node c = REF_EMPTY;
  fr_face : table_ok table_budget (cav_face c) /\ table_rows (cav_face c) = [];
  fr_seg : table_ok table_budget (cav_seg c) /\ table_rows (cav_seg c) = [];
  fr_tets : list_wf (cav_tet_list c) /\ list_content (cav_tet_list c) = [] /\ RefList.list_max (cav_tet_list c) = 10;
  fr_tris : list_wf (cav_tri_list c) /\ list_content (cav_tri_list c) = [] /\ RefList.list_max (cav_tri_list c) = 10;
  fr_split : cav_split_node0 c = REF_EMPTY /\ cav_split_node1 c = REF_EMPTY;
  fr_collapse : cav_collapse_node0 c = REF_EMPTY /\ cav_collapse_node1 c = REF_EMPTY
}.

Lemma ref_cavity_create_ok : wp ref_cavity_create (fun '(st, c) => st = REF_SUCCESS /\ new_cavity c).
Proof.
  apply wp_bind. eapply wp_mono; [apply (table_create_ok table_budget); by vm_compute|]. intros s (_ & Hs & _ & Hrs).
  apply wp_bind. eapply wp_mono; [apply (table_create_ok table_budget); by vm_compute|]. intros t (_ & Ht & _ & Hrt).
  apply wp_ret. split; [done|]. destruct ref_list_create_ok as [Hl Hc]. by constructor.
Qed.

Lemma checked_state (P : Prop) c cn (Q : unit -> REF_CAVITY -> Prop) f :
  wp (f c) (checked P c) -> (forall s, s = cav_state c \/ s = REF_CAVITY_INCONSISTENT -> Q tt (set_cav_state s c)) ->
  fwp (call f) Q (given_up cn) c.
Proof.
  intros Hf HQ. apply fwp_call. eapply wp_mono; [exact Hf|]. intros [st c'] (s & -> & Hs & _).
  case_decide as Hd; [by apply HQ|by intros ?].
Qed.

Lemma require_tets_ok g c Q {cn} (Hcn : cav_node c = cn) : Q tt c -> fwp (require_tets g) Q (given_up cn) c.
Proof.
  intros HQ. unfold require_tets. destruct (_ || _); [by apply stop_ok|by apply fwp_ret].
Qed.

Lemma is_one_of_order_free node : order_free (is_one_of node).
Proof. intros a b c. cbn. split; destruct (node =? a), (node =? b), (node =? c); done. Qed.

Definition ball_tets g node : list Z := adj_refs (cell_adj (ref_grid_tet g)) node.
Definition ball_tris g node : list Z := adj_refs (cell_adj (ref_grid_tri g)) node.

(** The elements of a ball fit and there is a tetrahedron. *)
Definition ball_room g node : Prop :=
  4 * zlen (ball_tets g node) + 3 * zlen (ball_tris g node) <= table_budget /\ ball_tets g node <> [].

Lemma in_ball_tets g node cell : readable g ->
  cell ∈ ball_tets g node <-> exists e, cell_at (ref_grid_tet g) cell = Some e /\ node ∈ ztake 4 e.
Proof.
  intros Hg. destruct (rd_tet _ Hg) as [bl Hwf]. unfold ball_tets. rewrite (elem_of_adj_refs _ bl) by done.
  by rewrite (rd_tet_tables _ Hg).
Qed.
Lemma in_ball_tris g node cell : readable g ->
  cell ∈ ball_tris g node <-> exists e, cell_at (ref_grid_tri g) cell = Some e /\ node ∈ ztake 3 e.
Proof.
  intros Hg. destruct (rd_tri _ Hg) as [bl Hwf]. unfold ball_tris. rewrite (elem_of_adj_refs _ bl) by done.
  by rewrite (rd_tri_tables _ Hg).
Qed.

Lemma tet_face_in g cell e f v :
  readable g -> cell_at (ref_grid_tet g) cell = Some e -> f ∈ tet_faces e -> v ∈ face_list f -> v ∈ ztake 4 e.
Proof.
  intros Hg Hat Hf Hv. destruct (rd_tet _ Hg) as [bl Hwf]. pose proof (zlen_entries _ _ _ _ Hwf Hat) as Hlen.
  rewrite (rd_tet_tables _ Hg) in Hlen. change (size_per _) with 4 in Hlen.
  destruct e as [|a [|b [|c' [|d [|? ?]]]]]; rewrite ?zlen_cons, ?zlen_nil in Hlen;
    [lia|lia|lia|lia| |pose proof (zlen_nonneg l); lia].
  rewrite tet_faces_eq in Hf. change (ztake 4 [a; b; c'; d]) with [a; b; c'; d].
  rewrite !elem_of_cons in Hf. pose proof (not_elem_of_nil f).
  destruct Hf as [-> |[-> |[-> |[-> |?]]]]; [| | | |done]; cbn in Hv; set_solver.
Qed.

Lemma is_one_of_true node l : is_one_of node l = true <-> node ∈ l.
Proof. unfold is_one_of. rewrite existsb_elem_of. setoid_rewrite Z.eqb_eq. naive_solver. Qed.

Lemma ball_covers g node :
  readable g -> NoDup (ball_tets g node) -> NoDup (ball_tris g node) ->
  covers g (is_one_of node) (ball_tets g node) (ball_tris g node).
Proof.
  intros Hg HT HR. do 2 (split; [done|]). split; [|split; [|split]].
  - intros cell (e & He & _)%in_ball_tets; [by eexists|done].
  - intros cell e f He Hf Hone%is_one_of_true. apply in_ball_tets; [done|]. exists e. split; [done|].
    by eapply tet_face_in.
  - intros cell (e & He & Hin)%in_ball_tris; [|done]. exists e. split; [done|]. apply is_one_of_true.
    by destruct (tri_entries g cell e Hg He) as (t0 & t1 & t2 & id & -> & _).
  - intros cell e He Hone%is_one_of_true. apply in_ball_tris; [done|]. exists e. split; [done|].
    by destruct (tri_entries g cell e Hg He) as (t0 & t1 & t2 & id & -> & _).
Qed.

Definition ball_formed g node c : Prop :=
  let T := ball_tets g node in
  let R := ball_tris g node in
  formed (is_one_of node) g T R c /\ covers g (is_one_of node) T R /\
  cav_node c = node /\ cav_surf_node c = REF_EMPTY /\
  cav_split_node0 c = REF_EMPTY /\ cav_split_node1 c = REF_EMPTY /\ cav_collapse_node0 c = REF_EMPTY.

Lemma form_ball_ok g node c :
  readable g -> distinct_tris g -> new_cavity c -> 0 <= node < node_max (grid_node g) -> ball_room g node ->
  wp (ref_cavity_form_ball g node c) (fun '(st, c') =>
    st = REF_SUCCESS -> cav_state c' = REF_CAVITY_UNKNOWN -> ball_formed g node c').
Proof.
  intros Hg Hd [Hst Hsurf [Hface Hfr] [Hseg Hsr] (Htl & Htc & Htm) (Hrl & Hrc & Hrm) [Hsp0 Hsp1] [Hco _]] Hnode [Hroom Hne].
  pose proof (zlen_nonneg (ball_tets g node)) as Hzt. pose proof (zlen_nonneg (ball_tris g node)) as Hzr.
  assert (Hbudget : 10 + 1000 * table_budget <= REF_INT_MAX) by done.
  apply wp_body, (fwp_mono _ (fun _ c' => cav_state c' = REF_CAVITY_UNKNOWN -> ball_formed g node c') _ (given_up node));
    [|by intros _ c' Hq _|by intros st c' Hgu Hst' Hun; destruct (Hgu Hst') as (_ & ? & _)].
  apply fwp_bind, fwp_call, wp_ret. rewrite decide_True by done.
  apply fwp_bind, require_owned_ok; [done|apply Hg|done|]. apply fwp_bind, require_tets_ok; [done|].
  destruct (rd_tet _ Hg) as [blt Hwt]. destruct (rd_tri _ Hg) as [blr Hwr].
  apply fwp_bind, (tets_phase_ok g (is_one_of node) (ball_tets g node) _ (table_budget - 4 * zlen (ball_tets g node)));
    [done|done|intros b s; by eapply RefCellQuery.having_node| |lia| |done|done|cbn; lia|].
  { intros cell (e & He & _)%in_ball_tets; [by eexists|done]. }
  { cbn. eapply table_ok_mono; [|exact Hface]. lia. }
  intros c1 (t & l & -> & Ht & Hl & Hlc & HTnd & Hsum). cbn [cav_face set_cav_node] in Hsum.
  apply fwp_bind, (tris_phase_ok g node (ball_tris g node) _ (table_budget - zlen (ball_tris g node))
    (table_budget - 4 * zlen (ball_tets g node) - zlen (ball_tris g node)));
    [done|done|done|intros b s; by eapply RefCellQuery.having_node| |lia|lia| | |done|done|done|cbn; lia|done| |].
  { intros cell Hin%in_ball_tris; done. }
  { cbn. eapply table_ok_mono; [|exact Hseg]. lia. }
  { cbn. eapply table_ok_mono; [|exact Ht]. lia. }
  { cbn. pose proof (length_list_content l Hl) as Hz. rewrite Hlc in Hz. intros Hn. rewrite Hn in Hz.
    destruct (ball_tets g node); [done|]. rewrite zlen_cons in Hz. pose proof (zlen_nonneg l0). lia. }
  intros c2 (s & t' & l' & -> & Hs & Ht' & Hl' & Hlc' & HRnd & _ & Hsum').
  match goal with |- fwp _ _ _ ?x => set (c2 := x) end.
  assert (Hformed : ball_formed g node c2).
  { split; [|by split; [apply ball_covers|]]. split; [eapply table_ok_mono; [|exact Ht']; lia|].
    split; [eapply table_ok_mono; [|exact Hs]; lia|]. do 4 (split; [done|]). intros phi Ha.
    specialize (Hsum' phi Ha). cbn [cav_face cav_seg set_cav_node set_cav_face set_cav_tet_list] in Hsum'.
    rewrite Hsr, sum_over_nil, Hsum, Hfr, sum_over_nil in Hsum' by done.
    cbn [cav_face cav_seg set_cav_face set_cav_seg c2]. change (seg_value c2 phi) with
      (seg_value (set_cav_face t (set_cav_tet_list l (set_cav_node node c))) phi). lia. }
  clearbody c2. pose proof Hformed as ((((blf & Hlf) & _) & ((bls & Hls) & _) & _) & _).
  apply fwp_bind. eapply checked_state; [exact (verify_face_ok c2 blf Hlf)|]. intros s1 _.
  eapply checked_state; [exact (verify_seg_ok (set_cav_state s1 c2) bls Hls)|]. intros s2 _ _. exact Hformed.
Qed.

(** ** Replacing what was formed *)

(** The grid is in order, with room, its elements use valid vertices, the mesh
    conforms and no two triangles have the same vertices. *)
Record mesh_ok g : Prop := {
  mo_grid : grid_ok table_budget table_budget 3 table_budget g
    (cell_map (ref_grid_tet g)) (cell_map (ref_grid_tri g));
  mo_tets : forall cell e, cell_at (ref_grid_tet g) cell = Some e ->
    Forall (fun v => v ∈ valid_nodes (grid_node g)) (ztake 4 e);
  mo_tris : forall cell e, cell_at (ref_grid_tri g) cell = Some e ->
    Forall (fun v => v ∈ valid_nodes (grid_node g)) (ztake 3 e);
  mo_conforming : conforming g;
  mo_distinct : distinct_tris g
}.

Lemma mesh_readable g : mesh_ok g -> readable g.
Proof.
  intros [[Ht Hr _ Hn _] Htn Hrn _ _]. pose proof Ht as (Hwt & Htb & _). pose proof Hr as (Hwr & Hrb & _).
  assert (Hall : forall l, Forall (fun v => v ∈ valid_nodes (grid_node g)) l ->
    Forall (fun v => 0 <= v < node_max (grid_node g)) l).
  { intros l Hl. eapply Forall_impl; [exact Hl|]. intros v Hv. by apply (node_ready_range table_budget). }
  pose proof Hn as ([[bl Hc] _] & _). constructor; try done; [apply Hc| |]; eauto.
Qed.

Lemma cavity_ready P T R g c :
  mesh_ok g -> covers g P T R -> formed P g T R c -> 4 * zlen T + 3 * zlen R <= table_budget ->
  0 <= ref_cavity_seg_node c < node_max (grid_node g) -> vertex_limit (cav_split_node0 c) ->
  vertex_limit (cav_split_node1 c) -> vertex_limit (cav_collapse_node0 c) -> replace_ready c g.
Proof.
  intros Hg (_ & _ & HT & _ & HR & _) (Hf & Hs & Htl & Htc & Hrl & Hrc & _) Hroom Hnode Hsp0 Hsp1 Hco.
  pose proof (length_list_content _ Htl) as Hzt. pose proof (length_list_content _ Hrl) as Hzr.
  rewrite Htc in Hzt. rewrite Hrc in Hzr.
  assert (Hfn : t_n (cav_face c) <= table_budget) by (destruct Hf as (_ & ? & _); lia).
  assert (Hsn : t_n (cav_seg c) <= table_budget) by (destruct Hs as (_ & ? & _); lia).
  pose proof (mo_grid _ Hg) as Hgrid. pose proof (go_node _ _ _ _ _ _ _ Hgrid) as (_ & Hreal & _).
  constructor; [apply Hf|apply Hs| | | |done| |].
  - split; [done|]. rewrite Htc. intros cell Hin. rewrite (cell_map_represents (ref_grid_tet g) cell). by apply HT.
  - split; [done|]. rewrite Hrc. intros cell (e & He & _)%HR. rewrite (cell_map_represents (ref_grid_tri g) cell), He. by eexists.
  - split; [done|]. split; [done|]. unfold NODE_LIMIT, REF_NODE_REAL_PER, REF_INT_MAX in *. lia.
  - rewrite <- Hzt, <- Hzr. unfold table_budget, REF_INT_MAX in *. lia.
  - destruct Hgrid as [Ht Hr He Hn Hge]. constructor; try done; [by eapply cell_sim_mono|by eapply cell_sim_mono|].
    eapply node_ready_mono; [|exact Hn]. lia.
Qed.

Lemma visible_ok g c bl face f :
  mesh_ok g -> table_links (cav_face c) bl -> table_at (cav_face c) face = Some f ->
  is_Some (ref_cavity_visible g c face).
Proof.
  intros Hg Hwf Hf. unfold ref_cavity_visible. rewrite (table_row_ok _ bl Hwf face f Hf). cbn [obind].
  destruct f as [[a b] d]. cbn [new_tet].
  pose proof (go_node _ _ _ _ _ _ _ (mo_grid _ Hg)) as ([[bln Hc] Hs] & Hreal & _).
  rewrite (ref_node_tet_vol_ok _ bln) by done. case_bool_decide; cbn; by eexists.
Qed.

Lemma check_visible_ok g c bl :
  mesh_ok g -> table_links (cav_face c) bl -> 0 <= cav_node c < node_max (grid_node g) ->
  wp (ref_cavity_check_visible g c) (fun '(st, c') => exists s, c' = set_cav_state s c).
Proof.
  intros Hg Hwf Hnode. pose proof (rd_part _ (mesh_readable _ Hg)) as Hpart.
  assert (Hsame : exists s, c = set_cav_state s c) by (exists (cav_state c); by rewrite set_cav_state_same).
  apply wp_body, fwp_bind, fwp_state, fwp_bind, fwp_use. destruct (owned_ok g (cav_node c) Hpart Hnode) as [b ->].
  apply wp_ret, fwp_bind, fwp_require; intros _; [|done]. apply fwp_bind, fwp_state.
  destruct (is_state _ _); [|by apply fwp_leave]. apply fwp_bind.
  apply (fwp_through (used (cav_face c))) with (P := fun _ c' => c' = c).
  - intros body s. apply (each_valid_eq _ bl Hwf).
  - done.
  - intros pre row post c' Hsplit ->.
    assert (row ∈ used (cav_face c)) as [f Hf]%elem_of_used by (rewrite Hsplit; set_solver).
    apply fwp_bind, fwp_use. rewrite (table_row_ok _ bl Hwf row f Hf). apply wp_ret.
    destruct (attached_face (cav_node c) f); [by apply fwp_ret|]. apply fwp_bind, fwp_ask.
    destruct (visible_ok g c bl row f Hg Hwf Hf) as [[st v] ->]. apply wp_ret. case_decide; [|done].
    destruct v; [by apply fwp_ret|]. apply fwp_bind, fwp_assign, fwp_leave. by eexists.
  - intros c' ->. apply fwp_assign. by eexists.
Qed.
End form.

(** C28. A ball has no surplus: on a conforming mesh [ref_cavity_form_ball] on a new
    cavity either gives up or collects the tetrahedra and triangles of the vertex
    with a surface that closes over what they bounded, wherever the vertex is put,
    and the cavity is ready for [ref_cavity_replace]. *)
Theorem ref_cavity_form_ball_closed {D : Type} `{Dbl D, Junk Z, Junk REF_ADJ_ITEM, Junk D}
    (g : REF_GRID D) (node : Z) :
  mesh_ok g -> node ∈ valid_nodes (grid_node g) -> ball_room g node ->
  exists c0 st c, ref_cavity_create = Some (REF_SUCCESS, c0) /\ ref_cavity_form_ball g node c0 = Some (st, c) /\
    (st = REF_SUCCESS -> cav_state c = REF_CAVITY_UNKNOWN ->
     list_content (cav_tet_list c) = ball_tets g node /\ list_content (cav_tri_list c) = ball_tris g node /\
     cav_node c = node /\ replace_ready c g /\
     forall phi, alternating phi ->
       cavity_surplus phi c (cell_map (ref_grid_tet g)) (cell_map (ref_grid_tri g)) = 0).
Proof.
  intros Hg Hnode Hroom. pose proof (node_ready_range _ _ _ (go_node _ _ _ _ _ _ _ (mo_grid _ Hg)) Hnode) as [_ Hr].
  destruct ref_cavity_create_ok as ([st0 c0] & Hcr & -> & Hnew).
  destruct (form_ball_ok g node c0 (mesh_readable _ Hg) (mo_distinct _ Hg) Hnew Hr Hroom) as ([st c] & He & Hpost).
  exists c0, st, c. split; [done|]. split; [done|]. intros Hst Hun.
  destruct (Hpost Hst Hun) as (Hform & Hcov & Hn & Hsurf & Hsp0 & Hsp1 & Hco). pose proof Hform as (_ & _ & _ & HT & _ & HR & _).
  do 3 (split; [done|]). split.
  - eapply (cavity_ready (is_one_of node)); [done|exact Hcov|exact Hform|apply Hroom| |by left..].
    unfold ref_cavity_seg_node. by rewrite Hsurf, Hn.
  - intros phi Ha. by apply (formed_surplus (is_one_of node) g (ball_tets g node) (ball_tris g node));
      [apply Hg|apply is_one_of_order_free| | |].
Qed.

(** ** Example

    The mesh of the example of RefCavityReplace.v conforms. *)
Module FormExample.
#[local] Existing Instances NodeExample.double NodeExample.junk_double NodeExample.junk_int ReplaceExample.junk_item.
Notation grid := ReplaceExample.grid.

Lemma at_from_map r (P : Z -> list Z -> Prop) cell e :
  Forall (fun x => P x.1 x.2) (map_to_list (cell_map r)) -> cell_at r cell = Some e -> P cell e.
Proof.
  rewrite Forall_forall. intros Hall He. apply (Hall (cell, e)). apply elem_of_map_to_list.
  by rewrite cell_map_represents.
Qed.

Definition tet_map : list (Z * list Z) :=
  [(3, [1; 3; 2; 4]); (2, [0; 2; 3; 4]); (1, [0; 3; 1; 4]); (0, [0; 1; 2; 4])].
Definition tri_map : list (Z * list Z) :=
  [(3, [1; 3; 2; 40]); (2, [0; 2; 3; 30]); (1, [0; 3; 1; 20]); (0, [0; 1; 2; 10])].
Lemma tet_map_ok : map_to_list (cell_map (ref_grid_tet grid)) = tet_map.
Proof. vm_compute. reflexivity. Qed.
Lemma tri_map_ok : map_to_list (cell_map (ref_grid_tri grid)) = tri_map.
Proof. vm_compute. reflexivity. Qed.
Lemma valid_ok : valid_nodes (grid_node grid) = [0; 1; 2; 3; 4].
Proof. vm_compute. reflexivity. Qed.

Lemma grid_conforming : conforming grid.
Proof.
  intros phi Ha. unfold grid_boundary, mesh_boundary. rewrite !map_sum_list, tet_map_ok, tri_map_ok.
  unfold tet_map, tri_map, around_tet, on_tri. rewrite !sum_over_cons, !sum_over_nil. cbn [fst snd].
  rewrite !tet_faces_eq, !sum_over_cons, !sum_over_nil. cbn.
  repeat match goal with |- context [aat ?l ?i] => let x := eval vm_compute in (aat l i) in change (aat l i) with x end.
  pose proof (alt_orders phi Ha 0 1 4). pose proof (alt_orders phi Ha 0 2 4). pose proof (alt_orders phi Ha 0 3 4).
  pose proof (alt_orders phi Ha 1 2 4). pose proof (alt_orders phi Ha 1 3 4). pose proof (alt_orders phi Ha 2 3 4).
  lia.
Qed.

(** A conforming grid whose elements are listed is in order when its lists are. *)
Lemma listed_mesh_ok (g : REF_GRID spec_float) :
  grid_ok table_budget table_budget 3 table_budget g (cell_map (ref_grid_tet g)) (cell_map (ref_grid_tri g)) ->
  Forall (fun x => Forall (fun v => v ∈ valid_nodes (grid_node g)) (ztake 4 x.2)) (map_to_list (cell_map (ref_grid_tet g))) ->
  Forall (fun x => Forall (fun v => v ∈ valid_nodes (grid_node g)) (ztake 3 x.2)) (map_to_list (cell_map (ref_grid_tri g))) ->
  Forall (fun x => Forall (fun y => ztake 3 x.2 ≡ₚ ztake 3 y.2 -> x.1 = y.1)
    (map_to_list (cell_map (ref_grid_tri g)))) (map_to_list (cell_map (ref_grid_tri g))) ->
  conforming g -> mesh_ok g.
Proof.
  intros Hok Ht Hr Hd Hc. constructor; [exact Hok| | |exact Hc|].
  - intros cell e He. exact (at_from_map _ (fun _ e => Forall (fun v => v ∈ valid_nodes (grid_node g)) (ztake 4 e)) cell e Ht He).
  - intros cell e He. exact (at_from_map _ (fun _ e => Forall (fun v => v ∈ valid_nodes (grid_node g)) (ztake 3 e)) cell e Hr He).
  - intros cell cell' e e' He He'.
    pose proof (at_from_map _ (fun cell e => Forall (fun y => ztake 3 e ≡ₚ ztake 3 y.2 -> cell = y.1)
      (map_to_list (cell_map (ref_grid_tri g)))) cell e Hd He) as Hrow.
    exact (at_from_map _ (fun cell' e' => ztake 3 e ≡ₚ ztake 3 e' -> cell = cell') cell' e' Hrow He').
Qed.

Lemma grid_mesh_ok : mesh_ok grid.
Proof.
  apply listed_mesh_ok; [exact ReplaceExample.grid_in_order| | | |exact grid_conforming];
    rewrite ?tet_map_ok, ?tri_map_ok, ?valid_ok; apply (bool_decide_unpack _); vm_compute; exact I.
Qed.
End FormExample.
#[local] Existing Instances NodeExample.double NodeExample.junk_double NodeExample.junk_int ReplaceExample.junk_item.

Lemma ref_cavity_form_ball_closed_witness :
  let g := ReplaceExample.grid in
  (mesh_ok g /\ 4 ∈ valid_nodes (grid_node g) /\ ball_room g 4) /\
  (let* '(_, c) := ref_cavity_create in
   let* '(st, c) := ref_cavity_form_ball g 4 c in Some (st, cav_state c)) = Some (REF_SUCCESS, REF_CAVITY_UNKNOWN) /\
  exists c0 st c, ref_cavity_create = Some (REF_SUCCESS, c0) /\ ref_cavity_form_ball g 4 c0 = Some (st, c) /\
    (st = REF_SUCCESS -> cav_state c = REF_CAVITY_UNKNOWN ->
     list_content (cav_tet_list c) = ball_tets g 4 /\ list_content (cav_tri_list c) = ball_tris g 4 /\
     cav_node c = 4 /\ replace_ready c g /\
     forall phi, alternating phi ->
       cavity_surplus phi c (cell_map (ref_grid_tet g)) (cell_map (ref_grid_tri g)) = 0).
Proof.
  assert (Hnode : 4 ∈ valid_nodes (grid_node ReplaceExample.grid)).
  { rewrite FormExample.valid_ok. apply (bool_decide_unpack _). vm_compute. exact I. }
  assert (Hroom : ball_room ReplaceExample.grid 4) by (split; vm_compute; congruence).
  split; [split; [exact FormExample.grid_mesh_ok|split; [exact Hnode|exact Hroom]]|].
  split; [vm_compute; reflexivity|].
  apply (ref_cavity_form_ball_closed ReplaceExample.grid 4); [exact FormExample.grid_mesh_ok|exact Hnode|exact Hroom].
Defined.
