(* ===== verification/RefCavitySwap.v ===== *)
(** * ref_cavity.c: swapping an edge

    The cavity of an edge swap takes the tetrahedra of the edge and, on the
    surface, the two triangles of the edge, which are exchanged for the other two
    of their four vertices. *)
From S2P Require Import Prelude Rows Chains Effect RefList RefAdj RefDbl RefMpi RefNode RefCellType RefCell RefCellSpec RefCellQuery RefCellNode RefGeom RefGrid RefMeasure RefCavity RefCavityTable RefCavityReplace RefCavityForm.
From stdpp Require Import prelude list gmap.
From Stdlib Require Import ZArith Lia SpecFloat.
Open Scope Z_scope.
Open Scope ref_scope.

Section swap.
Context {D : Type} `{Dbl D, Junk Z, Junk REF_ADJ_ITEM, Junk D}.
Implicit Types (g : REF_GRID D) (c : REF_CAVITY) (Q : unit -> REF_CAVITY -> Prop).

(** The calls of [ref_cavity_swap_tet_pass] that carry a swap out. *)
Definition swap_edge g (node0 node1 node : Z) : option (REF_STATUS * REF_GRID D) :=
  let* '(st, c) := ref_cavity_create in
  RSS st g (
  let* '(st, c) := ref_cavity_form_edge_swap g node0 node1 node c in
  RSS st g (
  let* '(st, c) := ref_cavity_check_visible g c in
  RSS st g (
  let* '(st, (_, g)) := ref_cavity_replace c g in
  RSS st g (
  Some (REF_SUCCESS, g))))).

Definition has_both (node0 node1 : Z) (nodes : list Z) : bool := is_one_of node0 nodes && is_one_of node1 nodes.
Definition edge_tets g (node0 node1 : Z) : list Z := cells_with2 (ref_grid_tet g) node0 node1.
Definition edge_tris g (node0 node1 : Z) : list Z := cells_with2 (ref_grid_tri g) node0 node1.
(** The vertices of a triangle are different. *)
Definition proper_tris g : Prop := forall cell e, cell_at (ref_grid_tri g) cell = Some e -> NoDup (ztake 3 e).

Lemma has_both_order_free node0 node1 : order_free (has_both node0 node1).
Proof.
  intros a b c. unfold has_both. destruct (is_one_of_order_free node0 a b c) as [-> ->].
  by destruct (is_one_of_order_free node1 a b c) as [-> ->].
Qed.
Lemma has_both_true node0 node1 l : has_both node0 node1 l = true <-> node0 ∈ l /\ node1 ∈ l.
Proof. unfold has_both. by rewrite andb_true_iff, !is_one_of_true. Qed.

Lemma in_edge_tets g node0 node1 cell : readable g ->
  cell ∈ edge_tets g node0 node1 <-> exists e, cell_at (ref_grid_tet g) cell = Some e /\
    node0 ∈ ztake 4 e /\ node1 ∈ ztake 4 e.
Proof.
  intros Hg. destruct (rd_tet _ Hg) as [bl Hwf]. unfold edge_tets. rewrite (elem_of_cells_with2 _ bl Hwf).
  by rewrite (rd_tet_tables _ Hg).
Qed.
Lemma in_edge_tris g node0 node1 cell : readable g ->
  cell ∈ edge_tris g node0 node1 <-> exists e, cell_at (ref_grid_tri g) cell = Some e /\
    node0 ∈ ztake 3 e /\ node1 ∈ ztake 3 e.
Proof.
  intros Hg. destruct (rd_tri _ Hg) as [bl Hwf]. unfold edge_tris. rewrite (elem_of_cells_with2 _ bl Hwf).
  by rewrite (rd_tri_tables _ Hg).
Qed.

Lemma edge_covers g node0 node1 :
  readable g -> NoDup (edge_tets g node0 node1) -> NoDup (edge_tris g node0 node1) ->
  covers g (has_both node0 node1) (edge_tets g node0 node1) (edge_tris g node0 node1).
Proof.
  intros Hg HT HR. do 2 (split; [done|]). split; [|split; [|split]].
  - intros cell (e & He & _)%in_edge_tets; [by eexists|done].
  - intros cell e f He Hf [Ha Hb]%has_both_true. apply in_edge_tets; [done|]. exists e. split; [done|].
    split; by eapply tet_face_in.
  - intros cell (e & He & Hin)%in_edge_tris; [|done]. exists e. split; [done|]. apply has_both_true.
    by destruct (tri_entries g cell e Hg He) as (t0 & t1 & t2 & id & -> & _).
  - intros cell e He Hone%has_both_true. apply in_edge_tris; [done|]. exists e. split; [done|].
    by destruct (tri_entries g cell e Hg He) as (t0 & t1 & t2 & id & -> & _).
Qed.

(** ** The third nodes of the triangles *)

(** [x] is the third node of a triangle with the side from [node0] to [node1]. *)
Definition third (node0 node1 x : Z) (f : Z * Z * Z) : Prop :=
  (node0, node1) ∈ sides f /\ face_list f ≡ₚ [node0; node1; x].

Lemma opposite_of_ok node0 node1 nodes a b d s :
  3 <= zlen nodes -> triple nodes = (a, b, d) ->
  wp (opposite_of node0 node1 nodes s) (fun s' =>
    (fst s' = fst s \/ third node0 node1 (fst s') (a, b, d)) /\
    (snd s' = snd s \/ third node1 node0 (snd s') (a, b, d))).
Proof.
  intros Hl Ht. unfold opposite_of. rewrite face_triple_ok, Ht by done. cbn [obind]. destruct s as [x y].
  apply wp_ret. cbn [fst snd]. unfold third. cbn [sides face_list].
  assert (Hp1 : [a; b; d] ≡ₚ [b; d; a]) by apply (Permutation_cons_append [b; d] a).
  assert (Hp2 : [a; b; d] ≡ₚ [d; a; b]) by (symmetry; apply (Permutation_cons_append [a; b] d)).
  split.
  - destruct ((node0 =? d) && (node1 =? a)) eqn:E3; [right; assert (node0 = d /\ node1 = a) as [-> ->] by lia; split; [set_solver|done]|].
    destruct ((node0 =? b) && (node1 =? d)) eqn:E2; [right; assert (node0 = b /\ node1 = d) as [-> ->] by lia; split; [set_solver|done]|].
    destruct ((node0 =? a) && (node1 =? b)) eqn:E1; [right; assert (node0 = a /\ node1 = b) as [-> ->] by lia; split; [set_solver|done]|].
    by left.
  - destruct ((node1 =? d) && (node0 =? a)) eqn:E3; [right; assert (node1 = d /\ node0 = a) as [-> ->] by lia; split; [set_solver|done]|].
    destruct ((node1 =? b) && (node0 =? d)) eqn:E2; [right; assert (node1 = b /\ node0 = d) as [-> ->] by lia; split; [set_solver|done]|].
    destruct ((node1 =? a) && (node0 =? b)) eqn:E1; [right; assert (node1 = a /\ node0 = b) as [-> ->] by lia; split; [set_solver|done]|].
    by left.
Qed.

Lemma tri_nodes_ok g cell e nodes :
  readable g -> cell_at (ref_grid_tri g) cell = Some e -> REF_CELL_MAX_SIZE_PER <= zlen nodes ->
  wp (ref_cell_nodes (ref_grid_tri g) cell nodes) (fun '(st, nodes') =>
    st = REF_SUCCESS /\ zlen nodes' = zlen nodes /\ triple nodes' = triple e).
Proof.
  intros Hg Hat Hz. destruct (rd_tri _ Hg) as [bl Hwf]. eapply wp_mono.
  - eapply ref_cell_nodes_ok; [exact Hwf|]. rewrite (rd_tri_tables _ Hg). change (size_per _) with 4.
    unfold REF_CELL_MAX_SIZE_PER in Hz. lia.
  - rewrite Hat. intros [st nodes'] (-> & Hl & He). split; [done|]. split; [done|].
    rewrite (rd_tri_tables _ Hg) in He. change (size_per _) with 4 in He. subst e. unfold triple.
    by rewrite !aat_ztake by lia.
Qed.


(** The two triangles of the edge and the vertices across it. *)
Definition swap_pair g (node0 node1 node2 node3 : Z) : Prop :=
  exists cell0 cell1, edge_tris g node0 node1 = [cell0; cell1] /\
  exists cell2 cell3 e2 e3, cell2 ∈ [cell0; cell1] /\ cell3 ∈ [cell0; cell1] /\
    cell_at (ref_grid_tri g) cell2 = Some e2 /\ cell_at (ref_grid_tri g) cell3 = Some e3 /\
    third node0 node1 node2 (triple e2) /\ third node1 node0 node3 (triple e3).

Lemma swap_node23_ok g node0 node1 :
  readable g ->
  wp (ref_swap_node23 g node0 node1) (fun '(st, (node2, node3)) =>
    st = REF_SUCCESS -> swap_pair g node0 node1 node2 node3).
Proof.
  intros Hg. pose proof Hg as [_ _ [bl Hwf] _ _ _ _]. unfold ref_swap_node23. cbv zeta. apply wp_bind.
  eapply wp_mono; [apply (ref_cell_list_with2_ok _ bl Hwf); done|].
  fold (edge_tris g node0 node1). intros [st [ncell cells]] [Hzc Hcells].
  destruct (zlen (edge_tris g node0 node1) <=? 2) eqn:Hle; [|destruct Hcells as [-> _]; by apply wp_ret].
  destruct Hcells as (-> & -> & Htake). destruct (2 =? zlen (edge_tris g node0 node1)) eqn:Htwo; [|by apply wp_ret].
  assert (Hz2 : zlen (edge_tris g node0 node1) = 2) by lia. change (zlen (alloc 2)) with 2 in Hzc.
  rewrite Hz2, <- Hzc, ztake_full in Htake. subst cells.
  destruct (edge_tris g node0 node1) as [|cell0 [|cell1 [|? ?]]] eqn:HR; rewrite ?zlen_cons, ?zlen_nil in Hz2;
    [lia|lia| |pose proof (zlen_nonneg l); lia].
  assert (Hat : forall cell, cell ∈ [cell0; cell1] -> exists e, cell_at (ref_grid_tri g) cell = Some e).
  { intros cell Hin. rewrite <- HR in Hin. apply in_edge_tris in Hin as (e & He & _); [by exists e|done]. }
  destruct (Hat cell0) as [e0 He0]; [set_solver|]. destruct (Hat cell1) as [e1 He1]; [set_solver|].
  apply wp_bind, wp_aget; [done|]. apply wp_bind, wp_aget; [done|].
  change ([cell0; cell1].[0]) with cell0. change ([cell0; cell1].[1]) with cell1.
  apply wp_bind. eapply wp_mono; [by apply (tri_nodes_ok g cell0 e0)|].
  intros [st nodes] (-> & Hzn & Ht0). apply wp_bind. destruct (triple e0) as [[a0 b0] d0] eqn:Et0.
  assert (Hzn' : zlen nodes = REF_CELL_MAX_SIZE_PER) by done.
  eapply wp_mono; [apply (opposite_of_ok node0 node1 nodes a0 b0 d0); [by rewrite Hzn'|done]|].
  intros s [Hs0 Hs0']. cbn in Hs0, Hs0'. apply wp_bind.
  eapply wp_mono; [apply (tri_nodes_ok g cell1 e1 nodes); [done|done|by rewrite Hzn']|].
  intros [st nodes'] (-> & Hzn2 & Ht1). apply wp_bind. destruct (triple e1) as [[a1 b1] d1] eqn:Et1.
  eapply wp_mono; [apply (opposite_of_ok node0 node1 nodes' a1 b1 d1); [by rewrite Hzn2, Hzn'|done]|].
  intros [node2 node3] [Hs1 Hs1']. cbn [fst snd] in *.
  destruct (negb (REF_EMPTY =? node2)) eqn:N2; [|by apply wp_ret].
  destruct (negb (REF_EMPTY =? node3)) eqn:N3; [|by apply wp_ret]. apply wp_ret. intros _.
  exists cell0, cell1. split; [done|].
  assert (Hthird : forall u v x y, x <> REF_EMPTY -> (y = REF_EMPTY \/ third u v y (a0, b0, d0)) ->
    (x = y \/ third u v x (a1, b1, d1)) -> exists cell e, cell ∈ [cell0; cell1] /\
      cell_at (ref_grid_tri g) cell = Some e /\ third u v x (triple e)).
  { intros u v x y Hx [->|Hy] [->|Hx']; [done|exists cell1, e1; rewrite Et1; set_solver| |exists cell1, e1; rewrite Et1; set_solver].
    exists cell0, e0. rewrite Et0. set_solver. }
  destruct (Hthird node0 node1 node2 (fst s)) as (cell2 & e2 & ? & ? & ?); [lia|done|done|].
  destruct (Hthird node1 node0 node3 (snd s)) as (cell3 & e3 & ? & ? & ?); [lia|done|done|].
  by exists cell2, cell3, e2, e3.
Qed.

(** The four vertices are different, and so are the triangles. *)
Lemma swap_pair_distinct g node0 node1 node2 node3 :
  readable g -> distinct_tris g -> proper_tris g -> swap_pair g node0 node1 node2 node3 ->
  NoDup [node0; node1; node2; node3] /\ NoDup (edge_tris g node0 node1) /\
  Forall (fun v => 0 <= v < node_max (grid_node g)) [node0; node1; node2; node3].
Proof.
  intros Hg Hd Hp (cell0 & cell1 & -> & cell2 & cell3 & e2 & e3 & H2' & H3' & He2 & He3 & [Hs2 Hp2] & [Hs3 Hp3]).
  pose proof (Hp _ _ He2) as Hn2. pose proof (Hp _ _ He3) as Hn3.
  pose proof (rd_tri_nodes _ Hg _ _ He2) as Hr2. pose proof (rd_tri_nodes _ Hg _ _ He3) as Hr3.
  destruct (tri_entries g cell2 e2 Hg He2) as (a & b & d & i & -> & _).
  destruct (tri_entries g cell3 e3 Hg He3) as (a' & b' & d' & i' & -> & _).
  change (triple [a; b; d; i]) with (a, b, d) in *. change (triple [a'; b'; d'; i']) with (a', b', d') in *.
  change (ztake 3 [a; b; d; i]) with [a; b; d] in *. change (ztake 3 [a'; b'; d'; i']) with [a'; b'; d'] in *.
  cbn [face_list] in *. rewrite Hp2 in Hn2, Hr2. rewrite Hp3 in Hn3, Hr3.
  assert (Hne : cell2 <> cell3).
  { intros ->. rewrite He2 in He3. injection He3 as <- <- <- <-.
    pose proof (Hp _ _ He2) as Hn. change (ztake 3 _) with [a; b; d] in Hn. rewrite !NoDup_cons in Hn.
    cbn [sides] in Hs2, Hs3. rewrite !elem_of_cons in Hs2, Hs3.
    pose proof (not_elem_of_nil (node0, node1)). pose proof (not_elem_of_nil (node1, node0)).
    destruct Hs2 as [E|[E|[E|?]]], Hs3 as [F|[F|[F|?]]]; simplify_eq; set_solver. }
  assert (Hne23 : node2 <> node3).
  { intros ->. apply Hne, (Hd _ _ _ _ He2 He3). change (ztake 3 [a; b; d; i]) with [a; b; d].
    change (ztake 3 [a'; b'; d'; i']) with [a'; b'; d']. rewrite Hp2, Hp3. apply perm_swap. }
  rewrite !NoDup_cons in Hn2, Hn3. rewrite !Forall_cons in Hr2, Hr3. split; [|split].
  - rewrite !NoDup_cons. rewrite !elem_of_cons in *. pose proof (NoDup_nil_2 (A := Z)). set_solver.
  - rewrite !NoDup_cons. pose proof (NoDup_nil_2 (A := Z)). set_solver.
  - rewrite !Forall_cons. tauto.
Qed.

(** ** The triangles and the four segments *)

Lemma push_tri_ok cell c Q E :
  list_wf (cav_tri_list c) -> RefList.list_max (cav_tri_list c) + 1000 <= REF_INT_MAX ->
  (forall l, list_wf l -> RefList.list_max l <= RefList.list_max (cav_tri_list c) + 1000 ->
     list_content l = list_content (cav_tri_list c) ++ [cell] -> Q tt (set_cav_tri_list l c)) ->
  fwp (push_tri cell) Q E c.
Proof.
  intros Hl Hm HQ. apply fwp_call, wp_bind. eapply wp_mono; [by apply ref_list_push_ok|].
  intros [st l] (-> & Hl' & Hc & Hm'). apply wp_ret. rewrite decide_True by done. by apply HQ.
Qed.

Lemma push_tris_ok g cells L init c (Q : Z -> REF_CAVITY -> Prop) {cn} (Hcn : cav_node c = cn) :
  readable g -> (forall body (x : Z * REF_CAVITY), L body x = forl cells body x) ->
  (forall cell, cell ∈ cells -> exists e, cell_at (ref_grid_tri g) cell = Some e) ->
  list_wf (cav_tri_list c) -> list_content (cav_tri_list c) = [] ->
  RefList.list_max (cav_tri_list c) + 1000 * zlen cells <= REF_INT_MAX ->
  (forall id l, list_wf l -> list_content l = cells -> Q id (set_cav_tri_list l c)) ->
  fwp (through_acc L (fun cell _ =>
    push_tri cell ;!
    require_local (ref_grid_tri g) g cell ;!
    use (ref_cell_c2n (ref_grid_tri g) (ref_cell_id_index (ref_grid_tri g)) cell)) init) Q (given_up cn) c.
Proof.
  intros Hg HL Hcells Hl Hc Hm HQ.
  apply (fwp_through_acc cells) with (P := fun pre _ c' => exists l, c' = set_cav_tri_list l c /\ list_wf l /\
    list_content l = pre /\ RefList.list_max l + 1000 * (zlen cells - zlen pre) <= REF_INT_MAX); [done| | |].
  - exists (cav_tri_list c). split; [by destruct c|]. rewrite zlen_nil, Z.sub_0_r. done.
  - intros pre cell post id c' Hsplit (l & -> & Hl' & Hc' & Hm'). destruct (Hcells cell) as [e He]; [rewrite Hsplit; set_solver|].
    assert (Hlen : zlen cells - zlen pre = zlen post + 1) by (rewrite Hsplit, zlen_app, zlen_cons; lia).
    pose proof (zlen_nonneg post). rewrite zlen_app, zlen_cons, zlen_nil.
    pose proof Hg as [_ _ [bl Hwf] Htb Hp _ Hn].
    apply fwp_bind, push_tri_ok; [done|cbn; lia|]. intros l' Hl'' Hm'' Hc''. cbn in Hm'', Hc''.
    apply fwp_bind. apply (require_local_ok _ bl _ _ e); [done|exact Hwf|exact He|done|rewrite Htb; by apply (Hn cell)|].
    destruct (tri_entries g cell e Hg He) as (t0 & t1 & t2 & i & -> & _ & _ & _ & Hc2n).
    apply fwp_use. unfold ref_cell_id_index, ref_cell_node_per. rewrite Htb. rewrite Hc2n by (by vm_compute).
    apply wp_ret. exists l'. split; [done|]. split; [done|]. split; [by rewrite Hc'', Hc'|lia].
  - intros id c' (l & -> & Hl' & Hc' & _). by apply HQ.
Qed.

(** Segments inserted one after the other, none the reverse of one before. *)
Definition segs_done (segs : list (Z * Z)) (k kf : Z) c c' : Prop :=
  exists s t, c' = set_cav_face t (set_cav_seg s c) /\ table_ok k s /\ table_ok kf t /\
    (forall a b id, (a, b, id) ∈ table_rows s -> (a, b) ∈ segs) /\
    forall phi, alternating phi ->
      sum_over (on_face phi) (table_rows t) - sum_over (seg_value c phi) (table_rows s) =
      sum_over (on_face phi) (table_rows (cav_face c)) - sum_over (seg_value c phi) (table_rows (cav_seg c)).

Lemma segs_done_start k kf c :
  table_ok k (cav_seg c) -> table_ok kf (cav_face c) -> table_rows (cav_seg c) = [] -> segs_done [] k kf c c.
Proof.
  intros Hs Hf Hr. exists (cav_seg c), (cav_face c). split; [by destruct c|]. do 2 (split; [done|]).
  split; [|done]. intros a b id. rewrite Hr. intros Hin. by apply not_elem_of_nil in Hin.
Qed.

Lemma segs_done_step g segs a b id k kf c c' Q {cn} (Hcn : cav_node c' = cn) :
  segs_done segs (k + 1) (kf + 1) c c' -> cav_state c = REF_CAVITY_UNKNOWN -> list_n (cav_tet_list c) <> 0 ->
  0 <= k -> 0 <= kf -> 0 <= a -> (b, a) ∉ segs ->
  (forall c'', segs_done ((a, b) :: segs) k kf c c'' -> Q tt c'') ->
  fwp (call (ref_cavity_insert_seg g [a; b; id])) Q (given_up cn) c'.
Proof.
  intros (s & t & -> & Hs & Ht & Hrows & Hsum) Hst Hn Hk Hkf Ha Hrev HQ.
  apply fwp_call. eapply wp_mono; [apply (insert_seg_ok g a b id k kf); try done; [unfold REF_EMPTY; lia|]|].
  - intros id' Hin. by apply Hrev, (Hrows b a id').
  - intros [st c''] Hpost. case_decide as Hd; [|by intros ?]. apply HQ.
    destruct (Hpost Hd) as (s' & t' & -> & Hs' & Ht' & Hp & Hsum'). exists s', t'. split; [done|].
    do 2 (split; [done|]). cbn [cav_seg cav_face cav_tet_list set_cav_seg set_cav_face] in *. split.
    + intros a' b' id'. rewrite Hp, elem_of_cons. intros [[= -> -> ->]|Hin]; [set_solver|].
      apply elem_of_cons. right. by apply (Hrows _ _ id').
    + intros phi Hphi. rewrite (Hsum' Hn phi Hphi), (sum_over_perm _ _ _ Hp), sum_over_cons.
      specialize (Hsum phi Hphi). unfold seg_value at 1. cbn [fst snd].
      change (ref_cavity_seg_node _) with (ref_cavity_seg_node c) at 1. lia.
Qed.

(** ** The cavity of the swap *)

(** The elements of the edge fit, and there is a tetrahedron. *)
Definition edge_room g node0 node1 : Prop :=
  4 * zlen (edge_tets g node0 node1) + 3 * zlen (edge_tris g node0 node1) + 4 <= table_budget /\
  edge_tets g node0 node1 <> [].

Lemma no_side_no_tri g node0 node1 :
  readable g -> node0 <> node1 ->
  (forall cell entries, cell_at (ref_grid_tri g) cell = Some entries ->
     has_edge_between (ref_grid_tri g) entries node0 node1 = true -> False) ->
  edge_tris g node0 node1 = [].
Proof.
  intros Hg Hne Hno. apply elem_of_nil_inv. intros cell (e & He & Hi0 & Hi1)%in_edge_tris; [|done].
  apply (Hno cell e He). destruct (tri_entries g cell e Hg He) as (t0 & t1 & t2 & i & -> & _).
  change (ztake 3 [t0; t1; t2; i]) with [t0; t1; t2] in *. unfold has_edge_between, edge_node, ref_cell_edge_per.
  rewrite (rd_tri_tables _ Hg). change (zrange _) with [0; 1; 2]. cbn. rewrite !elem_of_cons in Hi0, Hi1.
  pose proof (not_elem_of_nil node0). pose proof (not_elem_of_nil node1).
  assert (node0 = t0 \/ node0 = t1 \/ node0 = t2) by tauto. assert (node1 = t0 \/ node1 = t1 \/ node1 = t2) by tauto.
  repeat match goal with |- context [aat ?l ?i] => let x := eval vm_compute in (aat l i) in change (aat l i) with x end.
  lia.
Qed.

Definition swap_formed g node0 node1 node c : Prop :=
  let T := edge_tets g node0 node1 in
  let R := edge_tris g node0 node1 in
  formed (has_both node0 node1) g T R c /\ covers g (has_both node0 node1) T R /\
  0 <= ref_cavity_seg_node c < node_max (grid_node g) /\ cav_node c = node /\
  cav_split_node0 c = REF_EMPTY /\ cav_split_node1 c = REF_EMPTY /\ cav_collapse_node0 c = REF_EMPTY.

Lemma swap_segs_ok g node0 node1 node2 node3 id k kf c Q {cn} (Hcn : cav_node c = cn) :
  NoDup [node0; node1; node2; node3] -> Forall (fun v => 0 <= v) [node0; node1; node2; node3] ->
  table_ok (k + 4) (cav_seg c) -> table_ok (kf + 4) (cav_face c) -> table_rows (cav_seg c) = [] -> 0 <= k -> 0 <= kf ->
  cav_state c = REF_CAVITY_UNKNOWN -> list_n (cav_tet_list c) <> 0 ->
  (forall segs c', segs_done segs k kf c c' -> Q tt c') ->
  fwp (call (ref_cavity_insert_seg g [node0; node3; id]) ;!
       call (ref_cavity_insert_seg g [node3; node1; id]) ;!
       call (ref_cavity_insert_seg g [node1; node2; id]) ;!
       call (ref_cavity_insert_seg g [node2; node0; id])) Q (given_up cn) c.
Proof.
  intros Hnd Hpos Hs Hf Hr Hk Hkf Hst Hn HQ. rewrite !Forall_cons in Hpos. destruct Hpos as (P0 & P1 & P2 & P3 & _).
  rewrite !NoDup_cons, !elem_of_cons in Hnd.
  assert (Hne : node0 <> node1 /\ node0 <> node2 /\ node0 <> node3 /\ node1 <> node2 /\ node1 <> node3 /\ node2 <> node3)
    by tauto.
  pose proof (segs_done_start (k + 4) (kf + 4) c Hs Hf Hr) as Hstart.
  assert (Hnot : forall (x y : Z) l, Forall (fun s : Z * Z => s <> (x, y)) l -> (x, y) ∉ l).
  { intros x y l Hall Hin. rewrite Forall_forall in Hall. by apply (Hall _ Hin). }
  apply fwp_bind. eapply (segs_done_step g [] _ _ id (k + 3) (kf + 3));
    [done|by rewrite <- !Z.add_assoc|done|done|lia|lia|lia|apply Hnot, Forall_nil_2|].
  intros c1 H1'. apply fwp_bind. eapply (segs_done_step g _ _ _ id (k + 2) (kf + 2));
    [by destruct H1' as (? & ? & -> & _)|rewrite <- !Z.add_assoc; exact H1'|done|done|lia|lia|lia| |].
  { apply Hnot. repeat (apply Forall_cons; split; [intros [=]; lia|]). apply Forall_nil_2. }
  intros c2 H2'. apply fwp_bind. eapply (segs_done_step g _ _ _ id (k + 1) (kf + 1));
    [by destruct H2' as (? & ? & -> & _)|rewrite <- !Z.add_assoc; exact H2'|done|done|lia|lia|lia| |].
  { apply Hnot. repeat (apply Forall_cons; split; [intros [=]; lia|]). apply Forall_nil_2. }
  intros c3 H3'. eapply (segs_done_step g _ _ _ id k kf); [by destruct H3' as (? & ? & -> & _)|exact H3'|done|done|lia|lia|lia| |].
  { apply Hnot. repeat (apply Forall_cons; split; [intros [=]; lia|]). apply Forall_nil_2. }
  intros c4 H4'. by eapply HQ.
Qed.

(** The cavity with its triangles and segments. *)
Definition surface_done g node0 node1 c c' : Prop :=
  exists s t l sn, c' = set_cav_face t (set_cav_seg s (set_cav_tri_list l (set_cav_surf_node sn c))) /\
    table_ok 0 s /\ table_ok 0 t /\ list_wf l /\ list_content l = edge_tris g node0 node1 /\
    NoDup (edge_tris g node0 node1) /\ 0 <= ref_cavity_seg_node c' < node_max (grid_node g) /\
    forall phi, alternating phi ->
      sum_over (on_face phi) (table_rows t) - sum_over (seg_value c' phi) (table_rows s) =
      sum_over (on_face phi) (table_rows (cav_face c)).

Lemma swap_triangles_ok g node0 node1 c Q {cn} (Hcn : cav_node c = cn) :
  readable g -> distinct_tris g -> proper_tris g -> table_ok 4 (cav_seg c) -> table_ok 4 (cav_face c) ->
  table_rows (cav_seg c) = [] -> cav_state c = REF_CAVITY_UNKNOWN -> list_n (cav_tet_list c) <> 0 ->
  list_wf (cav_tri_list c) -> list_content (cav_tri_list c) = [] ->
  RefList.list_max (cav_tri_list c) + 1000 * zlen (edge_tris g node0 node1) <= REF_INT_MAX ->
  (forall c', surface_done g node0 node1 c c' -> Q tt c') ->
  fwp (swap_triangles g node0 node1) Q (given_up cn) c.
Proof.
  intros Hg Hd Hp Hs Hf Hr Hst Hn Hl Hc Hm HQ. destruct (rd_tri _ Hg) as [bl Hwf]. unfold swap_triangles. cbv zeta.
  apply fwp_bind, fwp_ask. eapply wp_mono; [by apply swap_node23_ok|].
  intros [st [node2 node3]] Hpair. case_decide as Hst'; [|by intros ?]. specialize (Hpair Hst').
  destruct (swap_pair_distinct g node0 node1 node2 node3 Hg Hd Hp Hpair) as (Hnd & HR & Hrange).
  apply fwp_bind, fwp_assign, fwp_bind, (push_tris_ok g (edge_tris g node0 node1));
    [done|done|intros body x; by eapply RefCellQuery.having_node2| |done|done|done|].
  { intros cell (e & He & _)%in_edge_tris; [by exists e|done]. }
  intros id l Hl' Hc'. apply fwp_bind, fwp_state, fwp_bind, fwp_require; [|done]. intros _.
  apply fwp_bind, fwp_require; [|done]. intros _.
  apply (swap_segs_ok g node0 node1 node2 node3 id 0 0); try done.
  { eapply Forall_impl; [exact Hrange|]. cbn. lia. }
  intros segs c' (s & t & -> & Hs' & Ht & _ & Hsum). apply HQ. exists s, t, l, node2. split; [done|].
  do 5 (split; [done|]). rewrite !Forall_cons in Hrange. destruct Hrange as (_ & _ & Hr2 & _). split.
  - unfold ref_cavity_seg_node. change (cav_surf_node _) with node2. replace (REF_EMPTY =? node2) with false by (unfold REF_EMPTY; lia). exact Hr2.
  - intros phi Ha. specialize (Hsum phi Ha). cbn [cav_face cav_seg set_cav_surf_node set_cav_tri_list] in Hsum.
    rewrite Hr, sum_over_nil, Z.sub_0_r in Hsum. exact Hsum.
Qed.

(** What [ref_cavity_form_edge_swap] leaves: a cavity without surplus, or one that is
    neither visible nor to be made so. *)
Definition swap_result g node0 node1 node c : Prop :=
  cav_node c = node /\ cav_state c <> REF_CAVITY_VISIBLE /\
  (cav_state c = REF_CAVITY_UNKNOWN -> swap_formed g node0 node1 node c).

Lemma form_edge_swap_ok g node0 node1 node c :
  readable g -> distinct_tris g -> proper_tris g -> new_cavity c -> node0 <> node1 ->
  Forall (fun v => 0 <= v < node_max (grid_node g)) [node0; node1; node] -> edge_room g node0 node1 ->
  wp (ref_cavity_form_edge_swap g node0 node1 node c) (fun '(st, c') =>
    st = REF_SUCCESS -> swap_result g node0 node1 node c').
Proof.
  intros Hg Hd Hp [Hst Hsurf [Hface Hfr] [Hseg Hsr] (Htl & Htc & Htm) (Hrl & Hrc & Hrm) [Hsp0 Hsp1] [Hco _]] Hne
    Hall [Hroom Hnil].
  pose proof Hall as Hall'. rewrite !Forall_cons in Hall'. destruct Hall' as (Hn0 & Hn1 & Hn & _).
  pose proof (zlen_nonneg (edge_tets g node0 node1)) as Hzt. pose proof (zlen_nonneg (edge_tris g node0 node1)) as Hzr.
  assert (Hbudget : 10 + 1000 * table_budget <= REF_INT_MAX) by done.
  pose proof (rd_part _ Hg) as Hpart.
  destruct (rd_tet _ Hg) as [blt Hwt]. destruct (rd_tri _ Hg) as [blr Hwr].
  apply wp_body, (fwp_mono _ (fun _ => swap_result g node0 node1 node) _ (given_up node));
    [|by intros _ c' Hq _|by intros st c' Hgu Hst'; destruct (Hgu Hst') as (? & ? & ?); split].
  apply fwp_bind, fwp_call, wp_ret. rewrite decide_True by done.
  do 3 (apply fwp_bind, require_owned_ok; [done|done|done|]). apply fwp_bind, require_tets_ok; [done|].
  apply fwp_bind, (tets_phase_ok g (has_both node0 node1) (edge_tets g node0 node1) _
    (table_budget - 4 * zlen (edge_tets g node0 node1)));
    [done|done|intros b s; by eapply RefCellQuery.having_node2| |lia| |done|done|cbn; lia|].
  { intros cell (e & He & _)%in_edge_tets; [by eexists|done]. }
  { cbn. eapply table_ok_mono; [|exact Hface]. lia. }
  intros c1 (t & l & -> & Ht & Hl & Hlc & HTnd & Hsum). cbn [cav_face set_cav_node] in Hsum.
  destruct (ref_cell_has_side_ok _ blr Hwr node0 node1) as (has & Hhas & Hiff).
  apply fwp_bind, fwp_ask. rewrite Hhas. apply wp_ret. rewrite decide_True by done.
  match goal with |- fwp _ _ _ ?x => set (c1 := x) end.
  apply fwp_bind, (fwp_mono _ (fun _ => surface_done g node0 node1 c1) _ (given_up node)); [| |done].
  { destruct has.
    - apply (swap_triangles_ok g node0 node1); try done.
      + cbn. eapply table_ok_mono; [|exact Hseg]. vm_compute. congruence.
      + cbn. eapply table_ok_mono; [|exact Ht]. lia.
      + cbn. pose proof (length_list_content l Hl) as Hz. rewrite Hlc in Hz. intros Hn0'. rewrite Hn0' in Hz.
        destruct (edge_tets g node0 node1); [done|]. rewrite zlen_cons in Hz. pose proof (zlen_nonneg l0). lia.
      + cbn. lia.
    - apply fwp_ret. exists (cav_seg c1), (cav_face c1), (cav_tri_list c1), REF_EMPTY.
      rewrite (no_side_no_tri g node0 node1 Hg Hne).
      + split; [by destruct c; cbn in *; subst|]. split; [cbn; eapply table_ok_mono; [|exact Hseg]; by vm_compute|].
        split; [cbn; eapply table_ok_mono; [|exact Ht]; lia|]. do 2 (split; [done|]). split; [apply NoDup_nil_2|].
        split; [unfold ref_cavity_seg_node; cbn [cav_surf_node cav_node c1 set_cav_face set_cav_tet_list set_cav_node];
          rewrite Hsurf; exact Hn|].
        intros phi _. cbn [cav_seg cav_face c1 set_cav_face set_cav_tet_list set_cav_node].
        rewrite Hsr, sum_over_nil. lia.
      + intros cell entries He Hedge. assert (false = true) by (apply Hiff; by exists cell, entries). done. }
  intros _ c2 (s & t' & l' & sn & -> & Hs & Ht' & Hl' & Hlc' & HRnd & Hsn & Hsum').
  match goal with |- fwp _ _ _ ?x => set (c2 := x) in * end.
  assert (Hformed : swap_formed g node0 node1 node c2).
  { split; [|by split; [apply edge_covers|]]. do 6 (split; [done|]). intros phi Ha.
    specialize (Hsum' phi Ha). cbn [cav_face c1 set_cav_node set_cav_face set_cav_tet_list] in Hsum'.
    rewrite Hsum, Hfr, sum_over_nil in Hsum' by done. cbn [cav_face cav_seg set_cav_face set_cav_seg c2]. lia. }
  assert (Hst2 : cav_state c2 = REF_CAVITY_UNKNOWN) by exact Hst.
  clearbody c2. pose proof Hformed as ((((blf & Hlf) & _) & ((bls & Hls) & _) & _) & _).
  apply fwp_bind. eapply checked_state; [exact (verify_face_ok c2 blf Hlf)|]. intros s1 Hs1.
  eapply checked_state; [exact (verify_seg_ok (set_cav_state s1 c2) bls Hls)|]. intros s2 Hs2.
  split; [apply Hformed|]. split; [|intros _; exact Hformed].
  cbn in Hs2 |- *. destruct Hs1 as [->| ->], Hs2 as [->| ->]; rewrite ?Hst2; done.
Qed.

Lemma check_visible_closed g node c :
  readable g -> cav_node c = node -> 0 <= node < node_max (grid_node g) -> cav_state c <> REF_CAVITY_UNKNOWN ->
  cav_state c <> REF_CAVITY_VISIBLE ->
  wp (ref_cavity_check_visible g c) (fun '(st, c') => st = REF_SUCCESS -> cav_state c' <> REF_CAVITY_VISIBLE).
Proof.
  intros Hg Hcn Hnode Hun Hvis. apply wp_body, fwp_bind, fwp_state, fwp_bind, fwp_use. rewrite Hcn.
  destruct (owned_ok g node (rd_part _ Hg) Hnode) as [b ->].
  apply wp_ret, fwp_bind, fwp_require; intros _; [|done]. apply fwp_bind, fwp_state. unfold is_state.
  rewrite bool_decide_eq_false_2 by done. by apply fwp_leave.
Qed.

Lemma replace_refused c g :
  cav_state c <> REF_CAVITY_VISIBLE -> exists st, st <> REF_SUCCESS /\ ref_cavity_replace c g = Some (st, (c, g)).
Proof. intros Hv. unfold ref_cavity_replace, is_state. rewrite bool_decide_eq_false_2 by done. by exists REF_FAILURE. Qed.

(** A cavity without surplus made visible replaces its part of a conforming mesh by
    a conforming one. *)
Lemma replace_swapped g node0 node1 node c s :
  mesh_ok g -> swap_formed g node0 node1 node c -> edge_room g node0 node1 ->
  wp (ref_cavity_replace (set_cav_state s c) g) (fun '(st, (_, g')) => st = REF_SUCCESS ->
    grid_ok 0 0 0 0 g' (cell_map (ref_grid_tet g')) (cell_map (ref_grid_tri g')) /\ conforming g').
Proof.
  intros Hg (Hform & Hcov & Hsn & _ & Hsp0 & Hsp1 & Hco) Hroom. eapply wp_mono.
  - apply replace_ok, (cavity_ready (has_both node0 node1) (edge_tets g node0 node1) (edge_tris g node0 node1));
      [done|exact Hcov|exact Hform| |exact Hsn|by left..]. destruct Hroom. lia.
  - intros [st [c' g']] Hpost Hst. destruct (Hpost Hst) as [Hok Hsum]. split; [exact Hok|].
    intros phi Ha. rewrite Hsum, (mo_conforming _ Hg phi Ha) by done.
    apply (formed_surplus (has_both node0 node1) g (edge_tets g node0 node1) (edge_tris g node0 node1));
      [apply Hg|apply has_both_order_free|exact Hcov|exact Hform|done].
Qed.

Lemma swap_edge_ok g node0 node1 node :
  mesh_ok g -> proper_tris g -> node0 <> node1 -> Forall (fun v => v ∈ valid_nodes (grid_node g)) [node0; node1; node] ->
  edge_room g node0 node1 ->
  wp (swap_edge g node0 node1 node) (fun '(st, g') => st = REF_SUCCESS ->
    grid_ok 0 0 0 0 g' (cell_map (ref_grid_tet g')) (cell_map (ref_grid_tri g')) /\ conforming g').
Proof.
  intros Hg Hp Hne Hin Hroom. pose proof (mesh_readable _ Hg) as Hrd.
  assert (Hall : Forall (fun v => 0 <= v < node_max (grid_node g)) [node0; node1; node]).
  { eapply Forall_impl; [exact Hin|]. intros v Hv.
    by apply (node_ready_range _ _ _ (go_node _ _ _ _ _ _ _ (mo_grid _ Hg))). }
  assert (Hnode : 0 <= node < node_max (grid_node g)) by (rewrite !Forall_cons in Hall; apply Hall).
  apply wp_bind. eapply wp_mono; [exact ref_cavity_create_ok|]. intros [st c] [-> Hnew]. cbn [RSS].
  apply wp_bind. eapply wp_mono; [by apply form_edge_swap_ok; [| apply Hg|..]|]. intros [st c1] Hpost.
  destruct st; try by apply wp_ret. destruct (Hpost eq_refl) as (Hcn & Hvis & Hun). cbn [RSS].
  apply wp_bind. destruct (decide (cav_state c1 = REF_CAVITY_UNKNOWN)) as [Hst|Hst].
  - specialize (Hun Hst). pose proof Hun as ((((bl & Hl) & _) & _) & _).
    eapply wp_mono; [apply (check_visible_ok _ _ bl Hg Hl); by rewrite Hcn|].
    intros [st c2] [s ->]. destruct st; try by apply wp_ret. cbn [RSS].
    apply wp_bind. eapply wp_mono; [by eapply replace_swapped|]. intros [st [c3 g3]] Hr.
    destruct st; by apply wp_ret.
  - eapply wp_mono; [by eapply check_visible_closed|]. intros [st c2] Hc2.
    destruct st; try by apply wp_ret. cbn [RSS]. apply wp_bind.
    destruct (replace_refused c2 g (Hc2 eq_refl)) as (st & Hne' & ->). apply wp_ret.
    by destruct st; try apply wp_ret.
Qed.
End swap.

(** C29. Swapping an edge keeps the mesh conforming: on a conforming mesh the calls
    of [ref_cavity_swap_tet_pass] that exchange the edge never leave the behaviour
    that C defines, and when they succeed the grid is in order and the triangles
    bound the tetrahedra exactly as before, also where the edge is on the surface. *)
Theorem swap_edge_conforms {D : Type} `{Dbl D, Junk Z, Junk REF_ADJ_ITEM, Junk D}
    (g : REF_GRID D) (node0 node1 node : Z) :
  mesh_ok g -> proper_tris g -> node0 <> node1 ->
  Forall (fun v => v ∈ valid_nodes (grid_node g)) [node0; node1; node] -> edge_room g node0 node1 ->
  exists st g', swap_edge g node0 node1 node = Some (st, g') /\
    (st = REF_SUCCESS ->
     grid_ok 0 0 0 0 g' (cell_map (ref_grid_tet g')) (cell_map (ref_grid_tri g')) /\ conforming g').
Proof.
  intros Hg Hp Hne Hin Hroom. destruct (swap_edge_ok g node0 node1 node Hg Hp Hne Hin Hroom) as ([st g'] & He & Hpost).
  by exists st, g'.
Qed.

(** ** Example

    Three of the four parts of an octahedron about the axis 0, 1, which is an edge
    of the surface: the swap replaces it by the edge from 2 to 5. *)
Module SwapExample.
#[local] Existing Instances NodeExample.double NodeExample.junk_double NodeExample.junk_int ReplaceExample.junk_item.

Definition place (node : Z) (p : Z * Z * Z) (r : REF_NODE spec_float) : REF_NODE spec_float :=
  let '(x, y, z) := p in
  let k := REF_NODE_REAL_PER * node in
  set_node_real (<[Z.to_nat k := dofZ x]> (<[Z.to_nat (k + 1) := dofZ y]> (<[Z.to_nat (k + 2) := dofZ z]> (node_real r)))) r.
Definition six_commands : list node_command := map NodeAdd [0; 1; 2; 3; 4; 5].
Definition six_nodes : REF_NODE spec_float :=
  match (let* '(_, r) := ref_node_create NodeExample.mpi in run node_exec six_commands r) with
  | Some (_, r) => r
  | None => NodeExample.empty_node
  end.
Definition octahedron : REF_NODE spec_float :=
  place 0 (0, 0, -1) (place 1 (0, 0, 1) (place 2 (1, 0, 0) (place 3 (0, 1, 0) (place 4 (-1, 0, 0)
    (place 5 (0, -1, 0) six_nodes))))).
Definition tets : list (list Z) := [[0; 1; 2; 3]; [0; 1; 3; 4]; [0; 1; 4; 5]].
Definition tris : list (list Z) :=
  [[0; 2; 3; 10]; [0; 3; 4; 10]; [0; 4; 5; 10]; [0; 1; 2; 10]; [1; 3; 2; 10]; [1; 4; 3; 10]; [1; 5; 4; 10]; [0; 5; 1; 10]].
Definition grid : REF_GRID spec_float := ReplaceExample.mesh octahedron tets tris.

Lemma place_wf node p r : node_wf r -> node_wf (place node p r).
Proof.
  destruct p as [[x y] z]. intros [[bl Hc] Hs]. split; [|by destruct Hs]. exists bl. destruct Hc.
  constructor; try done. cbn [place node_real set_node_real]. unfold zlen in *. by rewrite !length_insert.
Qed.
Lemma octahedron_wf : node_wf octahedron.
Proof.
  do 6 apply place_wf.
  destruct (node_run_ok (D:=spec_float) NodeExample.mpi six_commands) as (r0 & os & r & a & Hc & Hr & _ & Hwf & _).
  { vm_compute. congruence. }
  unfold six_nodes. rewrite Hc. cbn [obind]. by rewrite Hr.
Qed.

Lemma octahedron_in_order : grid_ok table_budget table_budget 3 table_budget grid (cell_map (ref_grid_tet grid)) (cell_map (ref_grid_tri grid)).
Proof.
  apply ReplaceExample.mesh_in_order; [| | | | |vm_compute; congruence|vm_compute; congruence].
  - split; [exact octahedron_wf|]. split; [|split]; vm_compute; congruence.
  - unfold entries_ok. apply (bool_decide_unpack _). vm_compute. exact I.
  - unfold entries_ok. apply (bool_decide_unpack _). vm_compute. exact I.
  - intros []; vm_compute; reflexivity.
  - repeat (apply Forall_cons; split; [split; vm_compute; congruence|]). apply Forall_nil_2.
Qed.

Definition tet_map : list (Z * list Z) := [(2, [0; 1; 4; 5]); (1, [0; 1; 3; 4]); (0, [0; 1; 2; 3])].
Definition tri_map : list (Z * list Z) :=
  [(7, [0; 5; 1; 10]); (5, [1; 4; 3; 10]); (3, [0; 1; 2; 10]); (6, [1; 5; 4; 10]); (4, [1; 3; 2; 10]); (2, [0; 4; 5; 10]);
   (1, [0; 3; 4; 10]); (0, [0; 2; 3; 10])].
Lemma axis_tets_ok : map_to_list (cell_map (ref_grid_tet grid)) = tet_map.
Proof. vm_compute. reflexivity. Qed.
Lemma axis_tris_ok : map_to_list (cell_map (ref_grid_tri grid)) = tri_map.
Proof. vm_compute. reflexivity. Qed.
Lemma six_valid : valid_nodes (grid_node grid) = [0; 1; 2; 3; 4; 5].
Proof. vm_compute. reflexivity. Qed.

Lemma axis_conforming : conforming grid.
Proof.
  intros phi Ha. unfold grid_boundary, mesh_boundary. rewrite !map_sum_list, axis_tets_ok, axis_tris_ok.
  unfold tet_map, tri_map, around_tet, on_tri. rewrite !sum_over_cons, !sum_over_nil. cbn [fst snd].
  rewrite !tet_faces_eq, !sum_over_cons, !sum_over_nil. cbn.
  repeat match goal with |- context [aat ?l ?i] => let x := eval vm_compute in (aat l i) in change (aat l i) with x end.
  pose proof (alt_orders phi Ha 0 1 2). pose proof (alt_orders phi Ha 0 1 3).
  pose proof (alt_orders phi Ha 0 1 4). pose proof (alt_orders phi Ha 0 1 5).
  pose proof (alt_orders phi Ha 1 2 3). pose proof (alt_orders phi Ha 1 3 4).
  pose proof (alt_orders phi Ha 1 4 5). lia.
Qed.

Lemma axis_mesh_ok : mesh_ok grid.
Proof.
  apply FormExample.listed_mesh_ok; [exact octahedron_in_order| | | |exact axis_conforming];
    rewrite ?axis_tets_ok, ?axis_tris_ok, ?six_valid; apply (bool_decide_unpack _); vm_compute; exact I.
Qed.
Lemma axis_proper_tris : proper_tris grid.
Proof.
  intros cell e. apply (FormExample.at_from_map _ (fun _ e => NoDup (ztake 3 e))). rewrite axis_tris_ok.
  apply (bool_decide_unpack _). vm_compute. exact I.
Qed.
Lemma edge_nodes : Forall (fun v => v ∈ valid_nodes (grid_node grid)) [0; 1; 2].
Proof. rewrite six_valid. apply (bool_decide_unpack _). vm_compute. exact I. Qed.
Lemma axis_room : edge_room grid 0 1.
Proof. split; vm_compute; congruence. Qed.
End SwapExample.
#[local] Existing Instances NodeExample.double NodeExample.junk_double NodeExample.junk_int ReplaceExample.junk_item.

Lemma swap_edge_conforms_witness :
  let g := SwapExample.grid in
  (mesh_ok g /\ proper_tris g /\ edge_room g 0 1) /\
  (let* '(st, g') := swap_edge g 0 1 2 in Some (st, cells_with2 (ref_grid_tri g') 2 5)) = Some (REF_SUCCESS, [9; 8]) /\
  exists st g', swap_edge g 0 1 2 = Some (st, g') /\
    (st = REF_SUCCESS ->
     grid_ok 0 0 0 0 g' (cell_map (ref_grid_tet g')) (cell_map (ref_grid_tri g')) /\ conforming g').
Proof.
  split; [split; [exact SwapExample.axis_mesh_ok|split; [exact SwapExample.axis_proper_tris|exact SwapExample.axis_room]]|].
  split; [vm_compute; reflexivity|].
  apply (swap_edge_conforms SwapExample.grid 0 1 2);
    [exact SwapExample.axis_mesh_ok|exact SwapExample.axis_proper_tris|lia|exact SwapExample.edge_nodes|exact SwapExample.axis_room].
Defined.
