(* ===== verification/RowList.v ===== *)
(** * Rows that are only added

    [ref_edge.c] and [ref_face.c] keep the nodes of the edges and the faces as rows
    of one array, add rows at its end and index them by node in a [REF_ADJ].
    [listed] is the list of the rows, [indexed] says that the adjacency has each row
    under each of its nodes. *)
From S2P Require Import Prelude Rows RefAdj RefCell.
From stdpp Require Import prelude list.
From Stdlib Require Import ZArith Lia.
Open Scope Z_scope.
Open Scope ref_scope.

Section listed.
Context (per : Z) (Hper : 2 <= per).
Implicit Types (a : list Z).

Definition listed (n : Z) a : list (list Z) := map (row_of per a) (zrange n).

Lemma zlen_listed n a : 0 <= n -> zlen (listed n a) = n.
Proof. intros Hn. unfold listed, zlen. rewrite length_map. by apply zlen_zrange. Qed.
Lemma aat_listed n a i : 0 <= i < n -> (listed n a).[i] = row_of per a i.
Proof. intros Hi. unfold listed. rewrite aat_map by (rewrite zlen_zrange; lia). by rewrite aat_zrange. Qed.
Lemma listed_ext n a a' :
  (forall col row, 0 <= col < per -> 0 <= row < n -> a'.[col + per * row] = a.[col + per * row]) ->
  listed n a' = listed n a.
Proof.
  intros He. unfold listed. apply map_ext_in. intros row Hrow%list_elem_of_In%elem_of_zrange.
  apply row_of_ext. intros col Hcol. by apply He.
Qed.
Lemma listed_S n a : 0 <= n -> listed (n + 1) a = listed n a ++ [row_of per a n].
Proof. intros Hn. unfold listed. by rewrite zrange_S, map_app. Qed.
End listed.

(** The adjacency has the number of each row under each of its nodes, as often as the
    row has it. *)
Definition indexed (adj : REF_ADJ) (rows : list (list Z)) : Prop :=
  forall v c, occ (adj_refs adj v) c = occ rows.[c] v.

Lemma aat_outside (rows : list (list Z)) c : ~ (0 <= c < zlen rows) -> rows.[c] = [].
Proof. intros Hc. unfold aat. by rewrite aget_out by lia. Qed.

Lemma indexed_nil adj : (forall v, adj_refs adj v = []) -> indexed adj [].
Proof. intros He v c. rewrite He, aat_outside; [done|]. change (zlen (@nil (list Z))) with 0. lia. Qed.

Lemma elem_of_indexed adj rows v c :
  indexed adj rows -> c ∈ adj_refs adj v <-> 0 <= c < zlen rows /\ v ∈ rows.[c].
Proof.
  intros Hi. rewrite <- occ_pos, Hi, occ_pos. split; [|by intros []]. intros Hv. split; [|done].
  destruct (decide (0 <= c < zlen rows)) as [|Hc]; [done|]. rewrite aat_outside in Hv by done. by apply not_elem_of_nil in Hv.
Qed.

Lemma indexed_total adj rows per k :
  0 <= per -> indexed adj rows -> Forall (fun l => zlen l <= per) rows -> refs_total (adj_refs adj) k <= per * zlen rows.
Proof.
  intros Hper Hi Hall. pose proof (zlen_nonneg rows) as Hz.
  rewrite <- (zlen_zrange (zlen rows) Hz). apply (refs_total_bound _ _ (fun c => rows.[c])).
  - intros c. destruct (decide (0 <= c < zlen rows)) as [Hc|Hc].
    + rewrite Forall_forall in Hall. apply Hall, elem_of_aat. by exists c.
    + by rewrite aat_outside.
  - intros v c. rewrite Hi. case_bool_decide as Hc; [done|]. rewrite elem_of_zrange in Hc. by rewrite aat_outside.
Qed.

Lemma indexed_app adj adj' rows l :
  indexed adj rows ->
  (forall v c, occ (adj_refs adj' v) c = occ (adj_refs adj v) c + Z.b2z (zlen rows =? c) * occ l v) ->
  indexed adj' (rows ++ [l]).
Proof.
  intros Hi Hadd v c. rewrite Hadd, Hi. pose proof (zlen_nonneg rows) as Hz.
  destruct (Z.eqb_spec (zlen rows) c) as [<-|Hne]; cbn [Z.b2z].
  - rewrite (aat_outside rows) by lia. rewrite aat_app_r by lia. rewrite Z.sub_diag, aat_cons_0, occ_nil. lia.
  - destruct (decide (0 <= c < zlen rows)) as [Hc|Hc]; [rewrite aat_app_l by done; lia|].
    rewrite (aat_outside rows), (aat_outside (rows ++ [l])); [rewrite occ_nil; lia| |done].
    rewrite zlen_app. change (zlen [l]) with 1. lia.
Qed.

(** ** Rows without repetition

    A row is added unless the list has one that stands for the same. *)
Section distinct.
Context (same : list Z -> list Z -> Prop) `{!Equivalence same, !RelDecision same}.
Implicit Types (rows : list (list Z)) (l : list Z).

Definition add_row rows l : list (list Z) := if decide (Exists (same l) rows) then rows else rows ++ [l].
Definition each_once rows : Prop :=
  forall i j, 0 <= i < zlen rows -> 0 <= j < zlen rows -> same rows.[i] rows.[j] -> i = j.

Lemma each_once_nil : each_once [].
Proof. intros i j Hi. change (zlen (@nil (list Z))) with 0 in Hi. lia. Qed.

Lemma add_row_once rows l : each_once rows -> each_once (add_row rows l).
Proof using All.
  intros Hu. unfold add_row. case_decide as Hex; [done|]. intros i j Hi Hj. rewrite zlen_app in Hi, Hj.
  change (zlen [l]) with 1 in Hi, Hj.
  assert (Hlast : forall k, zlen rows <= k < zlen rows + 1 -> (rows ++ [l]).[k] = l).
  { intros k Hk. rewrite aat_app_r by lia. by replace (k - zlen rows) with 0 by lia. }
  assert (Hold : forall k, 0 <= k < zlen rows -> ~ same l (rows ++ [l]).[k]).
  { intros k Hk. rewrite aat_app_l by done. intros Hs. apply Hex, Exists_exists. exists rows.[k].
    split; [apply elem_of_aat; by exists k|done]. }
  intros Hs. destruct (decide (i < zlen rows)), (decide (j < zlen rows)).
  - rewrite !aat_app_l in Hs by lia. by apply Hu; [lia..|].
  - exfalso. rewrite (Hlast j) in Hs by lia. by apply (Hold i); [lia|symmetry].
  - exfalso. rewrite (Hlast i) in Hs by lia. by apply (Hold j); [lia|].
  - lia.
Qed.

Lemma add_row_has rows l l' : Exists (same l') (add_row rows l) <-> Exists (same l') rows \/ same l' l.
Proof using All.
  unfold add_row. case_decide as Hex; [|by rewrite Exists_app, Exists_cons, Exists_nil; tauto].
  split; [by left|]. intros [|Hs]; [done|]. apply Exists_exists in Hex as (x & Hx & He). apply Exists_exists.
  exists x. split; [done|]. by transitivity l.
Qed.

Lemma fold_add_row ls rows :
  (each_once rows -> each_once (fold_left add_row ls rows)) /\
  forall l, Exists (same l) (fold_left add_row ls rows) <-> Exists (same l) rows \/ exists x, x ∈ ls /\ same l x.
Proof using All.
  revert rows. induction ls as [|x ls IH]; intros rows; cbn [fold_left].
  - split; [done|]. intros l. split; [by left|]. intros [|(x & Hx & _)]; [done|by apply not_elem_of_nil in Hx].
  - destruct (IH (add_row rows x)) as [Hu Hhas]. split; [intros Hr; by apply Hu, add_row_once|]. intros l.
    rewrite Hhas, add_row_has. setoid_rewrite elem_of_cons. naive_solver.
Qed.

Lemma zlen_add_rows ls rows : zlen (fold_left add_row ls rows) <= zlen rows + zlen ls.
Proof using All.
  revert rows. induction ls as [|l ls IH]; intros rows; cbn [fold_left]; [rewrite zlen_nil; lia|].
  etransitivity; [apply IH|]. rewrite zlen_cons. unfold add_row. case_decide; [lia|].
  rewrite zlen_app. change (zlen [l]) with 1. lia.
Qed.

Lemma elem_of_add_rows ls rows l : l ∈ fold_left add_row ls rows -> l ∈ rows \/ l ∈ ls.
Proof using All.
  revert rows. induction ls as [|x ls IH]; intros rows; cbn [fold_left]; [by left|].
  intros [Hl|Hl]%IH; [|set_solver]. unfold add_row in Hl. case_decide; [by left|]. set_solver.
Qed.
End distinct.
