(* ===== verification/ElementLoops.v ===== *)
(** * Loops over the parts of all elements

    [ref_edge.c] and [ref_face.c] go over the types of a grid, the elements of each
    type and the edges or faces of each element. The rules of this file carry an
    invariant that names the parts met so far, as one list. *)
From S2P Require Import Prelude Rows Effect RefAdj RefCellType RefCell RefCellQuery RefCellSpec RowList.
From stdpp Require Import prelude list.
From Stdlib Require Import ZArith Lia.
Open Scope Z_scope.
Open Scope ref_scope.

(** [each_ref_cell_valid_cell] *)
Definition each_valid_cell {S} (c : REF_CELL) (b : Z -> fn S unit) : fn S unit :=
  count 0 (cell_max c) (fun cell =>
    let! valid := use (ref_cell_valid c cell) in
    if valid : bool then b cell else fret tt).

(** [each_ref_cell_valid_cell_with_nodes]: the local array [nodes] is filled for each
    element. *)
Definition each_cell_with_nodes {S} `{Junk Z} (c : REF_CELL) (b : Z -> list Z -> fn S unit) : fn S unit :=
  count 0 (cell_max c) (fun cell =>
    let! '(st, nodes) := use (ref_cell_nodes c cell (alloc REF_CELL_MAX_SIZE_PER)) in
    if bool_decide (st = REF_SUCCESS) then b cell nodes else fret tt).

(** The parts of the elements below [i], where [items] are those of one element. *)
Definition cells_below (c : REF_CELL) (i : Z) : list Z := filter (fun cell => is_Some (cell_at c cell)) (zrange i).
Definition items_below {X} (items : list Z -> list X) (c : REF_CELL) (i : Z) : list X :=
  cells_below c i ≫= fun cell => items (default [] (cell_at c cell)).
Definition cell_items {X} (items : list Z -> list X) (c : REF_CELL) : list X := items_below items c (cell_max c).

Section loops.
Context {X S : Type} (P : list X -> S -> Prop).
Implicit Types (Q : unit -> S -> Prop) (E : REF_STATUS -> S -> Prop) (s : S) (l : list X).

Lemma items_below_S (items : list Z -> list X) c i : 0 <= i ->
  items_below items c (i + 1) = items_below items c i ++ match cell_at c i with Some e => items e | None => [] end.
Proof.
  intros Hi. unfold items_below, cells_below. rewrite zrange_S, filter_app, bind_app by lia. f_equal. cbn [filter].
  destruct (cell_at c i) as [e|] eqn:He.
  - rewrite filter_cons_True, filter_nil by done. cbn. rewrite He. by rewrite app_nil_r.
  - rewrite filter_cons_False, filter_nil by (rewrite He; apply is_Some_None). done.
Qed.

Lemma items_below_le (items : list Z -> list X) c i j : 0 <= i <= j -> zlen (items_below items c i) <= zlen (items_below items c j).
Proof.
  intros Hij. destruct (zrange_app i j Hij) as [l Hl]. unfold items_below, cells_below. rewrite Hl, filter_app, bind_app, zlen_app.
  pose proof (zlen_nonneg (filter (fun cell => is_Some (cell_at c cell)) l ≫= fun cell => items (default [] (cell_at c cell)))). lia.
Qed.

Lemma elem_of_cell_items (items : list Z -> list X) c x :
  x ∈ cell_items items c <-> exists cell e, cell_at c cell = Some e /\ x ∈ items e.
Proof.
  unfold cell_items, items_below, cells_below. rewrite list_elem_of_bind. split.
  - intros (cell & Hx & Hc). apply list_elem_of_filter in Hc as [[e He] _]. rewrite He in Hx. by exists cell, e.
  - intros (cell & e & He & Hx). exists cell. rewrite He. split; [done|]. apply list_elem_of_filter. rewrite He.
    split; [done|]. apply elem_of_zrange. by apply cell_at_Some in He as [? _].
Qed.

Lemma fwp_each_valid_cell (items : list Z -> list X) c bl b l Q E s :
  cell_wf c bl -> P l s ->
  (forall cell e pre s, cell_at c cell = Some e -> zlen pre + zlen (items e) <= zlen (cell_items items c) ->
     P (l ++ pre) s -> fwp (b cell) (fun _ => P ((l ++ pre) ++ items e)) E s) ->
  (forall s, P (l ++ cell_items items c) s -> Q tt s) ->
  fwp (each_valid_cell c b) Q E s.
Proof.
  intros Hwf Hs Hstep HQ. pose proof (cw_max _ _ Hwf) as Hmax.
  apply fwp_count with (P := fun i => P (l ++ items_below items c i)); [lia| | |done].
  { change (items_below items c 0) with (@nil X). by rewrite app_nil_r. }
  intros i s1 Hi Hs1. apply fwp_bind, fwp_use. rewrite (ref_cell_valid_ok c bl i Hwf). apply wp_ret.
  pose proof (items_below_S items c i ltac:(lia)) as HS. rewrite HS, app_assoc.
  destruct (cell_at c i) as [e|] eqn:He; [|rewrite app_nil_r; by apply fwp_ret].
  apply Hstep; [done| |done]. rewrite <- zlen_app, <- HS. apply items_below_le. lia.
Qed.

Lemma fwp_each_cell_with_nodes `{Junk Z} (items : list Z -> list X) c bl b l Q E s :
  cell_wf c bl -> P l s ->
  (forall cell e nodes pre s, cell_at c cell = Some e -> zlen nodes = REF_CELL_MAX_SIZE_PER ->
     ztake (ref_cell_size_per c) nodes = e -> P (l ++ pre) s ->
     fwp (b cell nodes) (fun _ => P ((l ++ pre) ++ items e)) E s) ->
  (forall s, P (l ++ cell_items items c) s -> Q tt s) ->
  fwp (each_cell_with_nodes c b) Q E s.
Proof.
  intros Hwf Hs Hstep HQ. pose proof (cw_max _ _ Hwf) as Hmax. destruct (counts_bounds _ (cell_wf_counts _ _ Hwf)) as (_ & Hsz & _).
  apply fwp_count with (P := fun i => P (l ++ items_below items c i)); [lia| | |done].
  { change (items_below items c 0) with (@nil X). by rewrite app_nil_r. }
  intros i s1 Hi Hs1. assert (Hz : zlen (alloc (A:=Z) REF_CELL_MAX_SIZE_PER) = REF_CELL_MAX_SIZE_PER) by (by rewrite zlen_alloc).
  apply fwp_bind, fwp_use. eapply wp_mono; [apply (ref_cell_nodes_ok c bl); [done|rewrite Hz; unfold REF_CELL_MAX_SIZE_PER; lia]|].
  intros [st nodes] Hn. rewrite items_below_S, app_assoc by lia. destruct (cell_at c i) as [e|] eqn:He.
  - destruct Hn as (-> & Hzn & Hn). rewrite bool_decide_eq_true_2 by done. apply (Hstep i e); [done|by rewrite Hzn|done|done].
  - destruct Hn as [-> _]. rewrite bool_decide_eq_false_2 by done. rewrite app_nil_r. by apply fwp_ret.
Qed.

(** One part after the other. *)
Lemma fwp_count_items (f : Z -> X) n b l Q E s :
  0 <= n -> P l s ->
  (forall k s, 0 <= k < n -> P (l ++ map f (zrange k)) s ->
     fwp (b k) (fun _ => P ((l ++ map f (zrange k)) ++ [f k])) E s) ->
  (forall s, P (l ++ map f (zrange n)) s -> Q tt s) ->
  fwp (count 0 n b) Q E s.
Proof.
  intros Hn Hs Hstep HQ. apply fwp_count with (P := fun k => P (l ++ map f (zrange k))); [done| | |done].
  { by rewrite app_nil_r. }
  intros k s1 Hk Hs1. rewrite zrange_S, map_app, app_assoc by lia. by apply Hstep.
Qed.

(** One type after the other. *)
Lemma fwp_each_bind {T} (f : T -> list X) types b l Q E s :
  P l s ->
  (forall t pre s, t ∈ types -> zlen pre + zlen (f t) <= zlen (types ≫= f) -> P (l ++ pre) s ->
     fwp (b t) (fun _ => P ((l ++ pre) ++ f t)) E s) ->
  (forall s, P (l ++ (types ≫= f)) s -> Q tt s) ->
  fwp (each types b) Q E s.
Proof.
  intros Hs Hstep HQ. apply fwp_each with (P := fun pre => P (l ++ (pre ≫= f))); [by rewrite app_nil_r| |done].
  intros pre t post s1 -> Hs1. rewrite bind_app. cbn [mbind list_bind]. rewrite app_nil_r, app_assoc.
  apply Hstep; [set_solver| |done]. rewrite bind_app, zlen_app. cbn [mbind list_bind]. rewrite zlen_app.
  pose proof (zlen_nonneg (post ≫= f)). lia.
Qed.
End loops.

(** ** The elements in use, as one list *)

Definition entries (c : REF_CELL) : list (list Z) := cell_items (fun e => [e]) c.

Lemma entry_of (c : REF_CELL) e : e ∈ entries c -> exists cell, cell_at c cell = Some e.
Proof. intros (cell & e' & He & Hin)%elem_of_cell_items. apply list_elem_of_singleton in Hin as ->. by exists cell. Qed.

Lemma entries_map c : entries c = map (fun cell => default [] (cell_at c cell)) (valid_cells c).
Proof.
  unfold entries, cell_items, items_below. change (cells_below c (cell_max c)) with (valid_cells c).
  induction (valid_cells c) as [|x l IH]; [done|]. cbn [map]. by rewrite <- IH.
Qed.

Lemma zlen_entries_of c bl : cell_wf c bl -> zlen (entries c) = cell_n c.
Proof. intros Hwf. by rewrite <- (zlen_valid_cells _ _ Hwf), entries_map, zlen_map. Qed.
