(* ===== verification/RefCellPack.v ===== *)
(** * Packing the elements of one type

    [ref_cell_pack] of ref_cell.c moves the elements in use to the front with the new
    numbers of their nodes, puts them in the order of their smallest node, and
    registers them again. The lemmas follow its three parts; the theorem says that the
    elements are the renumbered old ones. *)
From S2P Require Import Prelude Rows RefSort RefAdj RefCellType RefCell RefCellQuery RefCellSpec RowList Effect ElementLoops.
From stdpp Require Import prelude list sorting.
From Stdlib Require Import ZArith Lia.
Open Scope Z_scope.
Open Scope ref_scope.

(** An element with its nodes numbered by [o2n]. *)
Definition renumbered (t : CELL_TABLES) (o2n : list Z) (e : list Z) : list Z :=
  map (aat o2n) (nodes_of t e) ++ drop (Z.to_nat (node_per t)) e.

(** The smallest node of an element. *)
Definition smallest (t : CELL_TABLES) (e : list Z) : Z := foldl Z.min e.[0] (nodes_of t e).

Section renumbered.
Context (t : CELL_TABLES) (Ht : table_counts t) (o2n : list Z).

Lemma zlen_renumbered e : zlen e = size_per t -> zlen (renumbered t o2n e) = size_per t.
Proof using Ht.
  intros He. destruct (counts_bounds t Ht) as [Hb _]. unfold renumbered. rewrite zlen_app, zlen_map, zlen_nodes_of by done.
  unfold zlen in *. rewrite length_drop. lia.
Qed.

Lemma aat_renumbered e i : zlen e = size_per t -> 0 <= i < size_per t ->
  (renumbered t o2n e).[i] = if i <? node_per t then o2n.[e.[i]] else e.[i].
Proof using Ht.
  intros He Hi. destruct (counts_bounds t Ht) as [Hb _]. pose proof (zlen_nodes_of t e Ht He) as Hn. unfold renumbered.
  case Z.ltb_spec; intros Hlt.
  - rewrite aat_app_l by (rewrite zlen_map; lia). rewrite aat_map by lia. unfold nodes_of. by rewrite aat_ztake by lia.
  - rewrite aat_app_r by (rewrite zlen_map; lia). rewrite zlen_map, Hn, aat_drop by lia. by replace (node_per t + (i - node_per t)) with i by lia.
Qed.

Lemma nodes_of_renumbered e : zlen e = size_per t -> nodes_of t (renumbered t o2n e) = map (aat o2n) (nodes_of t e).
Proof using Ht.
  intros He. pose proof (zlen_nodes_of t e Ht He) as Hn. unfold renumbered, nodes_of at 1, ztake.
  rewrite take_app_le by (rewrite length_map; unfold zlen in Hn; lia). apply take_ge. rewrite length_map. unfold zlen in Hn. lia.
Qed.
End renumbered.

(** ** The loop over the elements *)

Section each.
Context {T : Type} `{Junk Z}.

(** Before the element [cell] the elements in use below it have been met. *)
Lemma wp_each_with_nodes (max : Z) (get_cell : T -> REF_CELL) body s (P : list (list Z) -> T -> Prop) (Q : T -> Prop) r :
  0 <= max -> cell_max r = max -> P [] s ->
  (forall cell s, 0 <= cell < max -> P (items_below (fun e => [e]) r cell) s ->
     cell_shape (get_cell s) /\ size_per (cell_tables (get_cell s)) = size_per (cell_tables r) /\ cell_at (get_cell s) cell = cell_at r cell) ->
  (forall cell e nodes s, cell_at r cell = Some e -> zlen nodes = REF_CELL_MAX_SIZE_PER ->
     ztake (size_per (cell_tables r)) nodes = e -> P (items_below (fun e => [e]) r cell) s ->
     wp (body cell nodes s) (P (items_below (fun e => [e]) r cell ++ [e]))) ->
  (forall s, P (entries r) s -> Q s) ->
  wp (each_ref_cell_valid_cell_with_nodes max get_cell body s) Q.
Proof.
  intros Hmax Hr Hs Hget Hbody HQ. unfold each_ref_cell_valid_cell_with_nodes. apply wp_bind.
  apply (wp_for_up (fun i '(s, nodes) => zlen nodes = REF_CELL_MAX_SIZE_PER /\ P (items_below (fun e => [e]) r i) s)); [done| | |].
  - split; [by rewrite zlen_alloc|exact Hs].
  - intros i [s1 nodes] Hi [Hz Hs1]. destruct (Hget i s1 Hi Hs1) as (Hsh & Hsz & Hat).
    destruct (counts_bounds _ (cs_counts _ Hsh)) as (_ & Hb & _). apply wp_bind.
    eapply wp_mono; [apply (ref_cell_nodes_shape _ i nodes Hsh); rewrite Hz; unfold REF_CELL_MAX_SIZE_PER; lia|].
    intros [st nodes'] Hn. rewrite Hat in Hn. rewrite items_below_S by lia. destruct (cell_at r i) as [e|] eqn:He.
    + destruct Hn as (-> & Hz' & Hn). rewrite bool_decide_eq_true_2 by done. apply wp_bind. rewrite Hsz in Hn.
      eapply wp_mono; [apply (Hbody i e nodes'); [done|by rewrite Hz'|done|done]|]. intros s2 Hs2. apply wp_ret. split; [by rewrite Hz'|done].
    + destruct Hn as [-> ->]. rewrite bool_decide_eq_false_2 by done. apply wp_ret. by rewrite app_nil_r.
  - intros [s1 nodes] [_ Hs1]. apply wp_ret, HQ. unfold entries, cell_items. by rewrite Hr.
Qed.
End each.

Lemma zlen_below r i : 0 <= i -> zlen (items_below (fun e => [e]) r i) <= i.
Proof.
  intros Hi. pose proof (zlen_zrange i Hi) as Hz. pose proof (length_filter (fun cell => is_Some (cell_at r cell)) (zrange i)) as Hf.
  assert (Hb : forall l, length (l ≫= fun cell => [default [] (cell_at r cell)]) = length l).
  { intros l. induction l as [|x l IH]; [done|]. cbn. by rewrite <- IH. }
  unfold items_below, cells_below, zlen in *. rewrite Hb. lia.
Qed.

(** ** The first part: the elements move down *)

Section down.
Context `{Junk Z} (r : REF_CELL) (bl : list Z) (Hwf : cell_wf r bl) (o2n : list Z).
Local Notation t := (cell_tables r).
Local Notation per := (size_per (cell_tables r)).

(** The elements of [l] are stored from the front, the rows behind them are as they were. *)
Definition moved_down (l : list (list Z)) (c : list Z) : Prop :=
  zlen c = zlen (cell_c2n r) /\
  (forall col row, 0 <= col < per -> zlen l <= row < cell_max r -> c.[col + per * row] = (cell_c2n r).[col + per * row]) /\
  listed per (zlen l) c = map (renumbered t o2n) l.

(** The two statements that store one element. *)
Lemma store_renumbered_ok l c e nodes (Q : list Z -> Prop) :
  moved_down l c -> zlen l < cell_max r -> zlen e = per -> zlen nodes = REF_CELL_MAX_SIZE_PER -> ztake per nodes = e ->
  Forall (fun v => 0 <= v < zlen o2n) (nodes_of t e) ->
  (forall c, moved_down (l ++ [e]) c -> Q c) ->
  wp (let* c :=
        for_up 0 (node_per t) (fun node c =>
          let* old := aget nodes node in
          let* new := aget o2n old in
          put_c2n t node (zlen l) new c) c in
      if last_node_is_an_id t then
        let* id := aget nodes (node_per t) in
        put_c2n t (node_per t) (zlen l) id c
      else Some c) Q.
Proof using Hwf.
  intros (Hl & Hrest & Hdone) Hlt He Hz Hn Ho HQ. pose proof (cell_wf_counts _ _ Hwf) as Ht.
  destruct (counts_bounds t Ht) as (Hb & Hmx & Hid & Hnid). pose proof (cw_size _ _ Hwf) as Hs. pose proof (cw_c2n _ _ Hwf) as Hc.
  pose proof (zlen_nonneg l) as Hl0. rewrite Forall_forall in Ho.
  assert (Hnode : forall i, 0 <= i < per -> nodes.[i] = e.[i]) by (intros i Hi; rewrite <- Hn; by rewrite aat_ztake by lia).
  assert (Hold : forall i, 0 <= i < node_per t -> 0 <= e.[i] < zlen o2n).
  { intros i Hi. apply Ho. unfold nodes_of. apply elem_of_ztake; [lia|]. by exists i. }
  set (P := fun k d => zlen d = per * cell_max r /\ forall col row, 0 <= col < per -> 0 <= row -> 
    d.[col + per * row] = if (zlen l =? row) && (col <? k) then (renumbered t o2n e).[col] else c.[col + per * row]).
  assert (Hput : forall k d v, 0 <= k < per -> v = (renumbered t o2n e).[k] -> P k d -> P (k + 1) (upd d (k + per * zlen l) v)).
  { intros k d v Hk -> [Hd Hp]. split; [by rewrite zlen_upd|]. intros col row Hcol Hrow.
    rewrite (aat_put _ _ Ht Hs) by (done || lia). rewrite Hp by done.
    destruct (Z.eqb_spec k col), (Z.eqb_spec (zlen l) row), (Z.ltb_spec col k), (Z.ltb_spec col (k + 1)); subst; cbn [andb]; lia || done. }
  assert (Hall : forall d, P per d -> Q d).
  { intros d [Hd Hp]. apply HQ. split; [by rewrite Hd|]. rewrite zlen_app. change (zlen [e]) with 1. split.
    - intros col row Hcol Hrow. rewrite Hp by lia. destruct (Z.eqb_spec (zlen l) row); [lia|]. apply Hrest; [done|lia].
    - rewrite listed_S by lia. rewrite map_app. f_equal.
      + rewrite <- Hdone. apply listed_ext. intros col row Hcol Hrow. rewrite Hp by lia. by destruct (Z.eqb_spec (zlen l) row); [lia|].
      + cbn [map]. f_equal. apply arr_ext; rewrite zlen_row_of by lia; [by rewrite zlen_renumbered|].
        intros i Hi. rewrite aat_row_of, Hp, Z.eqb_refl by lia. by destruct (Z.ltb_spec i per); [|lia]. }
  apply wp_bind. apply (wp_for_up P); [lia| | |].
  - split; [lia|]. intros col row Hcol Hrow. destruct (Z.ltb_spec col 0); [lia|]. by rewrite andb_false_r.
  - intros k d Hk Hp. apply wp_bind, wp_aget; [unfold REF_CELL_MAX_SIZE_PER in *; lia|]. rewrite Hnode by lia.
    apply wp_bind, wp_aget; [by apply Hold|]. apply (wp_put_c2n _ _ Ht Hs); [apply Hp|lia|lia|].
    apply Hput; [lia| |done]. rewrite aat_renumbered by (done || lia). by destruct (Z.ltb_spec k (node_per t)); [|lia].
  - intros d Hp. destruct (last_node_is_an_id t).
    + specialize (Hid eq_refl). apply wp_bind, wp_aget; [unfold REF_CELL_MAX_SIZE_PER in *; lia|]. rewrite Hnode by lia.
      apply (wp_put_c2n _ _ Ht Hs); [apply Hp|lia|lia|]. apply Hall.
      enough (Hx : P (node_per t + 1) (upd d (node_per t + per * zlen l) e.[node_per t])) by (rewrite <- Hid in Hx; exact Hx).
      apply Hput; [lia| |done]. rewrite aat_renumbered by (done || lia). by destruct (Z.ltb_spec (node_per t) (node_per t)); [lia|].
    + specialize (Hnid eq_refl). apply wp_ret, Hall. by rewrite Hnid.
Qed.

Lemma pack_down_ok :
  (forall e, e ∈ entries r -> Forall (fun v => 0 <= v < zlen o2n) (nodes_of t e)) ->
  wp (pack_down r o2n) (fun '(r', compact) => compact = cell_n r /\ exists c, r' = set_cell_c2n c r /\ moved_down (entries r) c).
Proof using Hwf.
  intros Ho. pose proof (cw_max _ _ Hwf) as Hm. unfold pack_down.
  apply (wp_each_with_nodes _ _ _ _ (fun l '(r', k) => k = zlen l /\ exists c, r' = set_cell_c2n c r /\ moved_down l c) _ r); [lia|done| | | |].
  - split; [done|]. exists (cell_c2n r). split; [by destruct r|]. split; [done|]. split; [done|]. done.
  - intros cell [r1 k] Hcell (-> & c & -> & Hc). cbn [fst]. split; [|split; [done|]].
    + pose proof (cell_wf_shape _ _ Hwf) as [? ? ?]. constructor; cbn; [done|done|]. by rewrite (proj1 Hc).
    + apply cell_at_ext; [by apply (cell_wf_counts r bl)|done|done|]. intros node Hnode Hc'. cbn. apply Hc; [done|]. pose proof (zlen_below r cell ltac:(lia)). lia.
  - intros cell e nodes [r1 k] He Hz Hn (-> & c & -> & Hc). cbn [cell_tables set_cell_c2n cell_c2n].
    pose proof He as (Hcell & _)%cell_at_Some. pose proof (zlen_below r cell ltac:(lia)) as Hb.
    unfold ref_cell_node_per, ref_cell_last_node_is_an_id. cbn [cell_tables set_cell_c2n cell_c2n].
    set (l := items_below (fun e => [e]) r cell) in *.
    assert (Hwp : wp (let* c :=
        for_up 0 (node_per t) (fun node c =>
          let* old := aget nodes node in
          let* new := aget o2n old in
          put_c2n t node (zlen l) new c) c in
      if last_node_is_an_id t then
        let* id := aget nodes (node_per t) in
        put_c2n t (node_per t) (zlen l) id c
      else Some c) (moved_down (l ++ [e]))).
    { apply (store_renumbered_ok l c e nodes); [done|lia|by apply (zlen_entries _ _ _ _ Hwf He)|done|done| |done].
      apply Ho, elem_of_cell_items. exists cell, e. split; [done|]. by apply list_elem_of_singleton. }
    destruct Hwp as (c' & Hrun & Hc'). destruct (for_up _ _ _ c) as [c1|]; [|done]. cbn [obind] in Hrun |- *. rewrite Hrun. cbn [obind].
    apply wp_ret. split; [by rewrite zlen_app, zlen_cons, zlen_nil|]. by exists c'.
  - intros [r1 k] (-> & c & -> & Hc). split; [by apply zlen_entries_of with bl|]. by exists c.
Qed.
End down.

(** ** Elements at the front *)

(** The elements in use are those below [n]. *)
Definition front (n : Z) (r : REF_CELL) : Prop := forall cell, is_Some (cell_at r cell) <-> 0 <= cell < n.

Lemma front_at n r cell : front n r -> 0 <= cell < n -> cell_at r cell = Some (c2n_row (cell_tables r) (cell_c2n r) cell).
Proof. intros Hf [e He]%Hf. rewrite He. by apply cell_at_Some in He as (_ & _ & ->). Qed.

Lemma items_below_front n r i :
  front n r -> 0 <= i <= n -> items_below (fun e => [e]) r i = listed (size_per (cell_tables r)) i (cell_c2n r).
Proof.
  intros Hf Hi. destruct Hi as [Hi Hn]. revert Hn. pattern i. apply natlike_ind; [done| |done]. clear i Hi. intros i Hi IH Hn.
  rewrite <- Z.add_1_r. rewrite items_below_S, listed_S, IH, (front_at n) by (done || lia). done.
Qed.

Lemma entries_front n r : front n r -> 0 <= n <= cell_max r -> entries r = listed (size_per (cell_tables r)) n (cell_c2n r).
Proof.
  intros Hf Hn. rewrite <- (items_below_front n) by (done || lia). unfold entries, cell_items.
  enough (Hs : forall k, 0 <= k -> items_below (fun e => [e]) r (n + k) = items_below (fun e => [e]) r n).
  { rewrite <- (Hs (cell_max r - n)) by lia. f_equal. lia. }
  apply natlike_ind; [by rewrite Z.add_0_r|]. intros k Hk IH. replace (n + Z.succ k) with (n + k + 1) by lia.
  rewrite items_below_S, IH by lia. destruct (cell_at r (n + k)) as [e|] eqn:He; [|by rewrite app_nil_r].
  assert (0 <= n + k < n); [|lia]. by apply Hf; rewrite He.
Qed.

Section order.
Context `{Junk Z} (r : REF_CELL) (n : Z) (Hs : cell_shape r) (Hf : front n r) (Hn : 0 <= n <= cell_max r).
Local Notation t := (cell_tables r).
Local Notation per := (size_per (cell_tables r)).

(** The statements that find the smallest node of an element. *)
Lemma key_of_ok cell nodes key e :
  0 <= cell < zlen key -> zlen nodes = REF_CELL_MAX_SIZE_PER -> ztake per nodes = e ->
  wp (let* v := aget nodes 0 in
      let* key := aset key cell v in
      for_up 1 (node_per t) (fun node key =>
        let* v := aget nodes node in
        let* k := aget key cell in
        if v <? k then aset key cell v else Some key) key) (fun key' => key' = upd key cell (smallest t e)).
Proof using Hs.
  intros Hc Hz He. destruct (counts_bounds t (cs_counts _ Hs)) as (Hb & Hmx & _). unfold REF_CELL_MAX_SIZE_PER in Hz.
  assert (Hnode : forall i, 0 <= i < per -> nodes.[i] = e.[i]) by (intros i Hi; rewrite <- He; by rewrite aat_ztake by lia).
  assert (Hze : zlen e = per) by (rewrite <- He; apply zlen_ztake; lia).
  apply wp_bind, wp_aget; [lia|]. apply wp_bind, wp_aset; [done|]. rewrite Hnode by lia.
  apply (wp_for_up (fun i d => d = upd key cell (foldl Z.min e.[0] (ztake i e)))); [lia| | |].
  - assert (ztake 1 e = [e.[0]]) as -> by (apply (ztake_S 0 e); lia). cbn [foldl]. by rewrite Z.min_id.
  - intros i d Hi ->. apply wp_bind, wp_aget; [lia|]. apply wp_bind, wp_aget; [by rewrite zlen_upd|].
    rewrite Hnode by lia. rewrite aat_upd_eq by lia. rewrite (ztake_S i e) by lia. rewrite foldl_app. cbn [foldl].
    case Z.ltb_spec; intros Hlt; [apply wp_aset; [by rewrite zlen_upd|]; rewrite upd_upd_eq|apply wp_ret]; f_equal; lia.
  - done.
Qed.

(** The places of the ordered rows and the entries they get. *)
Definition ordered_entry (order : list Z) (j : Z) : Z := (cell_c2n r).[j mod per + per * order.[j / per]].

Lemma ordered_entry_at order i k : 0 <= i < per -> 0 <= k -> ordered_entry order (i + per * k) = (cell_c2n r).[i + per * order.[k]].
Proof using.
  intros Hi Hk. unfold ordered_entry. rewrite (Z.mul_comm per k), Z.mod_add, Z.mod_small, Z.div_add, Z.div_small by lia. done.
Qed.

Lemma order_by_smallest_ok :
  cell_n r = n ->
  wp (order_by_smallest r) (fun '(st, r') => st = REF_SUCCESS /\ exists a order, r' = set_cell_c2n a r /\ zlen a = zlen (cell_c2n r) /\
    order ≡ₚ zrange n /\ listed per n a = map (c2n_row t (cell_c2n r)) order /\
    StronglySorted Z.le (map (smallest t) (listed per n a)) /\
    forall j, per * n <= j < zlen a -> a.[j] = (cell_c2n r).[j]).
Proof using Hs Hf Hn.
  intros Hcn. pose proof (cs_counts _ Hs) as Ht. destruct (counts_bounds t Ht) as (Hb & Hmx & _).
  pose proof (cs_size _ Hs) as Hsz. pose proof (cs_c2n _ Hs) as Hc. unfold order_by_smallest, ref_cell_size_per. rewrite Hcn.
  unfold ref_malloc. destruct (Z.ltb_spec n 0); [lia|]. cbn [RSS].
  apply wp_bind, wp_ck_int; [unfold REF_INT_MIN; nia|]. destruct (Z.ltb_spec (per * n) 0); [nia|]. cbn [RSS].
  apply wp_bind. apply (wp_each_with_nodes _ _ _ _ (fun l key => zlen key = n /\ forall i, 0 <= i < zlen l -> i < n -> key.[i] = smallest t l.[i]) _ r);
    [lia|done| | | |].
  - split; [by rewrite zlen_alloc|]. intros i Hi. change (zlen (@nil (list Z))) with 0 in Hi. lia.
  - intros cell key _ _. done.
  - intros cell e nodes key He Hz Hnd [Hk Hkey]. assert (Hcell : 0 <= cell < n) by (apply Hf; by rewrite He).
    eapply wp_mono; [apply (key_of_ok cell nodes key e); [lia|done|done]|]. intros key' ->. split; [by rewrite zlen_upd|].
    rewrite (items_below_front n) in Hkey |- * by (done || lia). rewrite zlen_listed in Hkey by lia.
    rewrite zlen_app, zlen_listed by lia. change (zlen [e]) with 1. intros i Hi Hin.
    destruct (decide (i = cell)) as [->|].
    + rewrite aat_upd_eq by lia. rewrite aat_app_r, zlen_listed by (rewrite ?zlen_listed; lia). by rewrite Z.sub_diag.
    + rewrite aat_upd_ne by lia. rewrite aat_app_l by (rewrite zlen_listed; lia). apply Hkey; lia.
  - intros key [Hk Hkey]. rewrite (entries_front n) in Hkey by done. rewrite zlen_listed in Hkey by lia.
    apply wp_bind. eapply wp_mono; [apply (ref_sort_heap_ok Z.ltb); [lia|nia|lia|rewrite zlen_alloc; lia]|].
    intros [st order] (-> & Hlo & Hperm & Hsorted & _). rewrite zlen_alloc in Hlo by lia. cbn [RSS].
    assert (Hor : forall k, 0 <= k < n -> 0 <= order.[k] < n) by (intros k Hk'; apply (perm_range order n); [lia|done|done]).
    apply wp_bind. apply (wp_fill_blocks (ordered_entry order) per n); [lia|lia|rewrite zlen_alloc; nia| |].
    + intros cell node d Hcell Hnode Hd. rewrite zlen_alloc in Hd by nia. apply wp_bind, wp_aget; [lia|].
      apply wp_bind, (wp_get_c2n _ _ Ht Hsz); [done|done|specialize (Hor cell Hcell); lia|].
      apply wp_bind, wp_ck_int; [unfold REF_INT_MIN; nia|]. apply wp_bind, wp_ck_int; [unfold REF_INT_MIN; nia|].
      rewrite (Z.mul_comm cell per). apply wp_aset; [nia|]. by rewrite ordered_entry_at by lia.
    + rewrite zlen_alloc by nia. intros c2n Hlc Hc2n _.
      apply wp_bind. apply (wp_fill_blocks (ordered_entry order) per n); [lia|lia|nia| |].
      * intros cell node d Hcell Hnode Hd. apply wp_bind, wp_ck_int; [unfold REF_INT_MIN; nia|].
        apply wp_bind, wp_ck_int; [unfold REF_INT_MIN; nia|]. rewrite (Z.mul_comm cell per). apply wp_bind, wp_aget; [nia|].
        apply (wp_put_c2n _ _ Ht Hsz); [lia|done|lia|]. by rewrite Hc2n by nia.
      * intros a Hla Ha Harest. apply wp_ret. split; [done|]. exists a, (ztake n order).
        assert (Hlist : listed per n a = map (c2n_row t (cell_c2n r)) (ztake n order)).
        { apply arr_ext; rewrite zlen_listed by lia; [by rewrite zlen_map, zlen_ztake by lia|]. intros k Hk'.
          rewrite aat_listed, aat_map, aat_ztake by (rewrite ?zlen_ztake; lia).
          apply arr_ext; rewrite zlen_row_of by lia; [by rewrite (zlen_c2n_row _ Ht)|]. intros i Hi.
          rewrite aat_row_of, aat_c2n_row, Ha by nia. apply ordered_entry_at; lia. }
        split; [done|]. split; [done|]. split; [done|]. split; [exact Hlist|]. split; [|by rewrite Hla].
        apply StronglySorted_aat. rewrite zlen_map, zlen_listed by lia. intros i j Hij Hj.
        rewrite Hlist, !aat_map by (rewrite ?zlen_map, ?zlen_ztake; lia). rewrite !aat_ztake by lia.
        specialize (Hsorted i j ltac:(lia) Hj). apply Z.ltb_ge in Hsorted.
        rewrite !Hkey, !aat_listed in Hsorted by (apply Hor; lia). done.
Qed.
End order.

(** ** The last part: the elements are registered again *)

Section register.
Context `{Junk Z, Junk REF_ADJ_ITEM}.

Lemma register_cells_ok r n :
  cell_shape r -> cell_n r = n -> 0 <= n <= cell_max r ->
  (forall cell, 0 <= cell < n -> Forall (fun v => 0 <= v <= NODE_LIMIT) (nodes_of (cell_tables r) (c2n_row (cell_tables r) (cell_c2n r) cell))) ->
  adj_wf (cell_adj r) -> (forall v, adj_refs (cell_adj r) v = []) ->
  wp (register_cells r) (fun c => exists adj, c = Next adj /\ adj_wf adj /\ forall v cell, occ (adj_refs adj v) cell =
    if bool_decide (0 <= cell < n) then occ (nodes_of (cell_tables r) (c2n_row (cell_tables r) (cell_c2n r) cell)) v else 0).
Proof.
  intros Hs Hcn Hn Hnodes Hadj Hempty. pose proof (cs_counts _ Hs) as Ht. destruct (counts_bounds _ Ht) as (Hb & _).
  pose proof (cs_size _ Hs) as Hsz. unfold register_cells. rewrite Hcn. set (t := cell_tables r) in *.
  assert (Hzn : forall cell, zlen (nodes_of t (c2n_row t (cell_c2n r) cell)) = node_per t)
    by (intros cell; apply (zlen_nodes_of _ _ Ht), (zlen_c2n_row _ Ht)).
  apply (wp_forx_up (fun i adj => adj_wf adj /\ (forall k, refs_total (adj_refs adj) k <= node_per t * i) /\
    forall v cell, occ (adj_refs adj v) cell = if bool_decide (0 <= cell < i) then occ (nodes_of t (c2n_row t (cell_c2n r) cell)) v else 0)
    (fun _ => False)); [lia| | | |done].
  - split; [done|]. split.
    + intros k. rewrite Z.mul_0_r. clear -Hempty. induction k as [|k IH]; cbn [refs_total]; [done|]. rewrite Hempty.
      change (zlen (@nil Z)) with 0. lia.
    + intros v cell. rewrite Hempty, bool_decide_eq_false_2 by lia. done.
  - intros i adj Hi (Hwf & Htot & Hocc). unfold ref_cell_node_per. fold t. rewrite <- (Hzn i) at 1.
    eapply wp_mono; [apply (register_loop_ok (fun node => ref_cell_c2n r node i) (nodes_of t (c2n_row t (cell_c2n r) i)))|].
    + done.
    + by apply Hnodes.
    + rewrite Hzn. intros k Hk. apply wp_eq. unfold ref_cell_c2n, nodes_of. apply (wp_get_c2n _ _ Ht Hsz); [apply Hs|fold t; lia|lia|].
      fold t. by rewrite aat_ztake, aat_c2n_row by lia.
    + rewrite Hzn. intros k. specialize (Htot k). fold t in Hsz. nia.
    + rewrite Hzn. intros c (adj' & -> & Hwf' & Htot' & Hocc'). cbn. split; [done|].
      split; [intros k; specialize (Htot k); specialize (Htot' k); lia|]. intros v cell. rewrite Hocc', Hocc.
      destruct (Z.eqb_spec i cell) as [->|]; cbn [Z.b2z].
      * rewrite bool_decide_eq_false_2, bool_decide_eq_true_2 by lia. lia.
      * rewrite Z.mul_0_l, Z.add_0_r. erewrite bool_decide_ext; [done|lia].
  - intros adj (Hwf & _ & Hocc). by exists adj.
Qed.

(** ** The whole *)

(** The rows behind the elements are linked. *)
Definition linked_behind (r : REF_CELL) (n : Z) (c : list Z) (blank : Z) : Prop :=
  (forall cell, n <= cell < cell_max r -> c.[size_per (cell_tables r) * cell] = REF_EMPTY /\
     c.[1 + size_per (cell_tables r) * cell] = if cell =? cell_max r - 1 then REF_EMPTY else cell + 1) /\
  blank = if n <? cell_max r then n else REF_EMPTY.

Lemma linked_chain r n c blank : linked_behind r n c blank -> 0 <= n <= cell_max r ->
  chain (fun cell => c.[1 + size_per (cell_tables r) * cell]) blank (seqZ n (cell_max r - n)).
Proof.
  intros [Hl ->] Hn. case Z.ltb_spec; intros Hlt.
  - apply chain_linked; [lia|]. intros j Hj. by apply Hl.
  - replace (cell_max r - n) with 0 by lia. done.
Qed.

(** The state of packed elements. *)
Section packed.
Context (r : REF_CELL) (bl : list Z) (n : Z) (a : list Z) (blank : Z).
Context (Hwf : cell_wf r bl) (Hn : cell_n r = n) (Ha : zlen a = zlen (cell_c2n r)) (Hlink : linked_behind r n a blank).
Context (Hnodes : forall e, e ∈ listed (size_per (cell_tables r)) n a -> Forall (fun v => 0 <= v <= NODE_LIMIT) (nodes_of (cell_tables r) e)).

Lemma packed_n : 0 <= n <= cell_max r.
Proof using Hwf Hn.
  pose proof (cw_n _ _ Hwf). pose proof (zlen_nonneg bl). pose proof (zlen_valid_cells _ _ Hwf). pose proof (zlen_nonneg (valid_cells r)). lia.
Qed.

Lemma packed_row cell : 0 <= cell < n -> Forall (fun v => 0 <= v <= NODE_LIMIT) (nodes_of (cell_tables r) (c2n_row (cell_tables r) a cell)).
Proof using Hnodes.
  intros Hcell. apply Hnodes, elem_of_aat. exists cell. rewrite zlen_listed by lia. split; [done|]. by apply aat_listed.
Qed.

Lemma packed_front adj : front n (mkREF_CELL (cell_tables r) n (cell_max r) blank a adj).
Proof using All.
  pose proof (cell_wf_counts _ _ Hwf) as Ht. destruct (counts_bounds _ Ht) as (Hb & _). pose proof packed_n as Hmax. intros cell. split.
  - intros [e He]. apply cell_at_Some in He as (Hc & He & _). cbn in *. destruct (decide (n <= cell)); [|lia].
    destruct Hlink as [Hl _]. destruct (Hl cell ltac:(lia)) as [Hx _]. by rewrite Hx in He.
  - intros Hcell. exists (c2n_row (cell_tables r) a cell). apply cell_at_Some. cbn. split; [lia|]. split; [|done].
    pose proof (packed_row cell Hcell) as Hrow. rewrite Forall_forall in Hrow.
    assert (Hin : a.[0 + size_per (cell_tables r) * cell] ∈ nodes_of (cell_tables r) (c2n_row (cell_tables r) a cell)).
    { unfold nodes_of. apply elem_of_ztake; [rewrite (zlen_c2n_row _ Ht); lia|]. exists 0. split; [lia|]. apply aat_c2n_row. lia. }
    apply Hrow in Hin. rewrite Z.add_0_l in Hin. unfold REF_EMPTY. lia.
Qed.

Lemma packed_wf adj :
  adj_wf adj ->
  (forall v cell, occ (adj_refs adj v) cell =
     if bool_decide (0 <= cell < n) then occ (nodes_of (cell_tables r) (c2n_row (cell_tables r) a cell)) v else 0) ->
  cell_wf (mkREF_CELL (cell_tables r) n (cell_max r) blank a adj) (seqZ n (cell_max r - n)).
Proof using All.
  intros Hadj Hocc. pose proof packed_n as Hmax. pose proof (packed_front adj) as Hf. set (r' := mkREF_CELL _ _ _ _ _ _) in *.
  constructor; cbn [r' cell_tables cell_max cell_blank cell_c2n cell_n cell_adj]; try apply Hwf; try done.
  - by rewrite Ha, (cw_c2n _ _ Hwf).
  - by apply linked_chain.
  - apply NoDup_seqZ.
  - intros cell. fold r'. rewrite elem_of_seqZ. pose proof (Hf cell) as Hfc. destruct (cell_at r' cell) as [e|].
    + split; [|by intros [_ ?]]. intros Hc. assert (0 <= cell < n); [|lia]. by apply Hfc.
    + split; [intros; split; [lia|done]|]. intros [Hc _]. destruct (decide (0 <= cell < n)) as [Hlt|]; [|lia].
      apply Hfc in Hlt. by apply is_Some_None in Hlt.
  - unfold zlen at 1. rewrite length_seqZ. lia.
  - intros cell e He. fold r' in He. assert (Hc : 0 <= cell < n) by (apply Hf; by rewrite He).
    rewrite (front_at n r') in He by done. injection He as <-. by apply packed_row.
  - intros v cell. fold r'. rewrite Hocc. case_bool_decide as Hc.
    + by rewrite (front_at n r') by done.
    + destruct (cell_at r' cell) as [e|] eqn:He; [|done]. exfalso. apply Hc, Hf. by rewrite He.
Qed.
End packed.

Lemma ref_cell_pack_ok r bl o2n :
  cell_wf r bl ->
  (forall e, e ∈ entries r -> Forall (fun v => v < zlen o2n /\ 0 <= o2n.[v] <= NODE_LIMIT) (nodes_of (cell_tables r) e)) ->
  wp (ref_cell_pack r o2n) (fun '(st, r') => st = REF_SUCCESS /\ cell_wf r' (seqZ (cell_n r) (cell_max r - cell_n r)) /\
    cell_tables r' = cell_tables r /\ cell_n r' = cell_n r /\ cell_max r' = cell_max r /\ front (cell_n r) r' /\
    entries r' ≡ₚ map (renumbered (cell_tables r) o2n) (entries r) /\
    StronglySorted Z.le (map (smallest (cell_tables r)) (entries r'))).
Proof.
  intros Hwf Ho. pose proof (cell_wf_counts _ _ Hwf) as Ht. destruct (counts_bounds _ Ht) as (Hb & _).
  pose proof (cw_n _ _ Hwf) as Hcount. pose proof (zlen_nonneg bl). pose proof (zlen_entries_of _ _ Hwf) as Hze.
  pose proof (zlen_nonneg (entries r)) as Hn0. pose proof (cw_size _ _ Hwf) as Hsz. pose proof (cw_c2n _ _ Hwf) as Hc2n.
  set (t := cell_tables r) in *. set (n := cell_n r) in *. set (per := size_per t) in *.
  assert (Hent : forall e, e ∈ entries r -> zlen e = per) by (intros e [cell He]%entry_of; by apply (zlen_entries _ _ _ _ Hwf He)).
  unfold ref_cell_pack. apply wp_bind. eapply wp_mono; [apply (pack_down_ok r bl Hwf o2n)|].
  { intros e He. pose proof (Ho e He) as Hoe. pose proof (entry_of _ _ He) as [cell Hat]. pose proof (cw_nodes _ _ Hwf _ _ Hat) as Hnn.
    fold t in Hnn |- *. rewrite !Forall_forall in *. intros v Hv. specialize (Hoe v Hv). specialize (Hnn v Hv). lia. }
  intros [r1 compact] (-> & c & -> & Hc). cbn [set_cell_c2n cell_n cell_max cell_tables cell_c2n cell_adj cell_blank]. fold n t.
  rewrite Z.eqb_refl. cbn [RAS]. destruct Hc as (Hlc & Hrest & Hdone). rewrite Hze in Hdone. fold t per in Hrest, Hdone.
  apply wp_bind. apply (wp_mono (fun r2 => exists c' blank, r2 = mkREF_CELL t n (cell_max r) blank c' (cell_adj r) /\
    zlen c' = zlen (cell_c2n r) /\ linked_behind r n c' blank /\ listed per n c' = listed per n c)).
  { case Z.ltb_spec; intros Hlt.
    - apply wp_bind, (wp_link_cells _ _ Ht Hsz); [lia|lia|by rewrite Hlc|]. intros c' Hlc' Hlink Hsame. apply wp_ret. exists c', n.
      split; [done|]. split; [by rewrite Hlc', Hc2n|]. split; [split; [exact Hlink|by destruct (Z.ltb_spec n (cell_max r)); [|lia]]|].
      apply listed_ext. intros col row Hcol Hrow. by apply Hsame.
    - apply wp_ret. exists c, REF_EMPTY. split; [done|]. split; [done|]. split; [split; [intros; lia|by destruct (Z.ltb_spec n (cell_max r)); [lia|]]|]. done. }
  intros r2 (c' & blank & -> & Hlc' & Hlink & Hsame). rewrite <- Hsame in Hdone. clear Hsame.
  set (r2 := mkREF_CELL t n (cell_max r) blank c' (cell_adj r)) in *.
  assert (Hrows : forall e, e ∈ listed per n c' -> Forall (fun v => 0 <= v <= NODE_LIMIT) (nodes_of t e)).
  { rewrite Hdone. intros e (e0 & -> & He0)%list_elem_of_fmap. rewrite nodes_of_renumbered by (done || by apply Hent).
    pose proof (Ho e0 He0) as Hoe. rewrite Forall_forall in Hoe. apply Forall_forall. intros v (w & -> & Hw)%list_elem_of_fmap. by apply Hoe. }
  pose proof (packed_n r bl n Hwf eq_refl) as Hmax.
  assert (Hs2 : cell_shape r2) by (constructor; cbn; [done|done|by rewrite Hlc']).
  pose proof (packed_front r bl n c' blank Hwf eq_refl Hlc' Hlink Hrows (cell_adj r)) as Hf2. fold t r2 in Hf2.
  apply wp_bind. eapply wp_mono; [apply (order_by_smallest_ok r2 n Hs2 Hf2 Hmax eq_refl)|].
  intros [st r3] (-> & a & order & -> & Hla & Hperm & Hlist & Hsorted & Hkept).
  cbn [RSS set_cell_c2n cell_n cell_max cell_tables cell_c2n cell_adj cell_blank r2] in *. fold per in Hlist, Hsorted, Hkept |- *.
  assert (Hrowsp : listed per n a ≡ₚ listed per n c') by (rewrite Hlist, Hperm; done).
  assert (Hlink3 : linked_behind r n a blank).
  { destruct Hlink as [Hl Hbk]. split; [|done]. fold t per in Hl |- *. intros cell Hcell. destruct (Hl cell Hcell) as [H1' H2'].
    pose proof (size_per_two t Ht) as Htwo. fold per in Htwo. fold t per in H1', H2'. split; (rewrite Hkept by nia; assumption). }
  assert (Hrows3 : forall e, e ∈ listed per n a -> Forall (fun v => 0 <= v <= NODE_LIMIT) (nodes_of t e)).
  { intros e. rewrite Hrowsp. apply Hrows. }
  apply wp_bind. eapply wp_mono; [apply ref_adj_create_ok|]. intros [st adj] (-> & Hadj & Hempty). cbn [RSS].
  set (r4 := set_cell_adj adj _).
  assert (Hs4 : cell_shape r4) by (constructor; cbn; [done|done|by rewrite Hla, Hlc']).
  apply wp_bind. eapply wp_mono; [apply (register_cells_ok r4 n Hs4 eq_refl Hmax); [|done|done]|].
  { intros cell Hcell. by apply (packed_row r n a Hrows3). }
  assert (Hza : zlen a = zlen (cell_c2n r)) by (by rewrite Hla, Hlc').
  intros ct (adj' & -> & Hadj' & Hocc). apply wp_ret. split; [done|].
  pose proof (packed_wf r bl n a blank Hwf eq_refl Hza Hlink3 Hrows3 adj' Hadj' Hocc) as Hwf5.
  pose proof (packed_front r bl n a blank Hwf eq_refl Hza Hlink3 Hrows3 adj') as Hf5.
  set (r5 := set_cell_adj adj' r4). change (mkREF_CELL _ _ _ _ _ _) with r5 in Hwf5. change (mkREF_CELL _ _ _ _ _ _) with r5 in Hf5.
  assert (He5 : entries r5 = listed per n a) by by apply entries_front.
  split; [done|]. split; [done|]. split; [done|]. split; [done|]. split; [done|]. rewrite He5. split; [by rewrite Hrowsp, Hdone|done].
Qed.
End register.

(** C39. [ref_cell_pack] with a table [o2n] that has a new number, in range, for every node of
    an element: the elements are afterwards the old ones with their nodes renumbered and their
    ids kept, each once, in the order of their smallest node and stored from the front; the
    rows behind them are the list of unused elements, in increasing order, and the adjacency
    lists each element under its new nodes. *)
Theorem ref_cell_pack_renumbers `{Junk Z, Junk REF_ADJ_ITEM} r bl o2n :
  cell_wf r bl ->
  (forall e, e ∈ entries r -> Forall (fun v => v < zlen o2n /\ 0 <= o2n.[v] <= NODE_LIMIT) (nodes_of (cell_tables r) e)) ->
  exists r', ref_cell_pack r o2n = Some (REF_SUCCESS, r') /\ cell_wf r' (seqZ (cell_n r) (cell_max r - cell_n r)) /\
    cell_tables r' = cell_tables r /\ cell_n r' = cell_n r /\ cell_max r' = cell_max r /\
    (forall cell, is_Some (cell_at r' cell) <-> 0 <= cell < cell_n r) /\
    entries r' ≡ₚ map (renumbered (cell_tables r) o2n) (entries r) /\
    StronglySorted Z.le (map (smallest (cell_tables r)) (entries r')).
Proof.
  intros Hwf Ho. destruct (ref_cell_pack_ok r bl o2n Hwf Ho) as ([st r'] & Hrun & -> & Hr). by exists r'.
Qed.

#[local] Existing Instances CellExample.junk_int CellExample.junk_item.
Lemma ref_cell_pack_renumbers_witness :
  let r := CellExample.triangles in
  let o2n := [6; 5; 4; 3; 2; 1; 0] in
  (exists bl, cell_wf r bl) /\
  exists r', ref_cell_pack r o2n = Some (REF_SUCCESS, r') /\ entries r' = [[2; 1; 0; 12]; [4; 5; 3; 11]; [6; 5; 4; 10]] /\
    entries r' ≡ₚ map (renumbered (cell_tables r) o2n) (entries r) /\
    StronglySorted Z.le (map (smallest (cell_tables r)) (entries r')).
Proof.
  intros r o2n. split; [exact CellExample.triangles_wf|]. destruct CellExample.triangles_wf as [bl Hwf].
  destruct (ref_cell_pack_renumbers r bl o2n Hwf) as (r' & Hrun & _ & _ & _ & _ & _ & Hperm & Hsorted).
  - apply Forall_forall. apply (bool_decide_unpack _). vm_compute. exact I.
  - exists r'. split; [exact Hrun|]. split; [|split; [exact Hperm|exact Hsorted]].
    assert (Hall : (let* '(_, r') := ref_cell_pack r o2n in Some (entries r')) = Some [[2; 1; 0; 12]; [4; 5; 3; 11]; [6; 5; 4; 10]])
      by (vm_compute; reflexivity).
    rewrite Hrun in Hall. cbn [obind] in Hall. congruence.
Defined.
