(* ===== verification/RefGeomPack.v ===== *)
(** * Packing the associations with the geometry

    [ref_geom_pack] of ref_geom.c moves the records in use to the front, with the new
    numbers of their vertices, and registers them again. *)
From S2P Require Import Prelude Rows RefAdj RefDbl RefCell RefGeom RefGeomSpec.
From stdpp Require Import prelude list gmap.
From Stdlib Require Import ZArith Lia SpecFloat.
Open Scope Z_scope.
Open Scope ref_scope.

Section pack.
Context {D : Type} `{Dbl D, Junk Z, Junk REF_ADJ_ITEM, Junk D}.
Implicit Types (r : REF_GEOM D) (o2n : list Z).

(** The records in use below [i]. *)
Definition geoms_below r (i : Z) : list Z := filter (fun geom => is_Some (geom_at r geom)) (zrange i).
Definition valid_geoms r : list Z := geoms_below r (geom_max r).

(** The entries of a record with the new number of its vertex. *)
Definition renumbered_geom o2n (l : list Z) : list Z := upd l 5 o2n.[l.[5]].

Lemma geoms_below_S r i : 0 <= i ->
  geoms_below r (i + 1) = geoms_below r i ++ (if geom_at r i then [i] else []).
Proof.
  intros Hi. unfold geoms_below. rewrite zrange_S, filter_app by lia. f_equal.
  destruct (geom_at r i) eqn:He; [by rewrite filter_cons_True, filter_nil by (by rewrite He)|].
  by rewrite filter_cons_False, filter_nil by (rewrite He; apply is_Some_None).
Qed.

Lemma zlen_geoms_below r i : 0 <= i -> zlen (geoms_below r i) <= i.
Proof.
  intros Hi. pose proof (zlen_zrange i Hi) as Hz. pose proof (length_filter (fun g => is_Some (geom_at r g)) (zrange i)).
  unfold geoms_below, zlen in *. lia.
Qed.

Section down.
Context (r : REF_GEOM D) (bl : list Z) (Hwf : geom_wf r bl) (o2n : list Z).
Local Notation max := (geom_max r).

(** The records of [l] are stored from the front, the records behind them are as they were. *)
Record geoms_moved (l : list Z) (d : list Z) (p : list D) : Prop := {
  gm_descr_len : zlen d = zlen (geom_descr r);
  gm_param_len : zlen p = zlen (geom_param r);
  gm_descr_rest : forall col row, 0 <= col < REF_GEOM_DESCR_SIZE -> zlen l <= row < max ->
    d.[col + REF_GEOM_DESCR_SIZE * row] = (geom_descr r).[col + REF_GEOM_DESCR_SIZE * row];
  gm_param_rest : forall col row, 0 <= col < 2 -> zlen l <= row < max -> p.[col + 2 * row] = (geom_param r).[col + 2 * row];
  gm_descr : forall j, 0 <= j < zlen l ->
    row_of REF_GEOM_DESCR_SIZE d j = renumbered_geom o2n (row_of REF_GEOM_DESCR_SIZE (geom_descr r) l.[j]);
  gm_param : forall j col, 0 <= j < zlen l -> 0 <= col < 2 -> p.[col + 2 * j] = (geom_param r).[col + 2 * l.[j]]
}.

Lemma max_facts : 1 <= max /\ REF_GEOM_DESCR_SIZE * max <= REF_INT_MAX /\ 2 * max <= REF_INT_MAX /\
  zlen (geom_descr r) = REF_GEOM_DESCR_SIZE * max /\ zlen (geom_param r) = 2 * max.
Proof using Hwf.
  destruct (gw_rows _ _ Hwf) as [Hm Hs Hl _ _ _ _]. pose proof (gw_param _ _ Hwf). unfold REF_GEOM_DESCR_SIZE, REF_INT_MAX in *. lia.
Qed.

(** The two loops that copy one record to another place. *)
Lemma copy_descr_ok d p n blank adj geom to (Q : REF_GEOM D -> Prop) :
  zlen d = REF_GEOM_DESCR_SIZE * max -> 0 <= geom < max -> 0 <= to < max ->
  (forall d', zlen d' = REF_GEOM_DESCR_SIZE * max ->
     (forall col row, 0 <= col < REF_GEOM_DESCR_SIZE -> 0 <= row ->
        d'.[col + REF_GEOM_DESCR_SIZE * row] =
        if to =? row then d.[col + REF_GEOM_DESCR_SIZE * geom] else d.[col + REF_GEOM_DESCR_SIZE * row]) ->
     Q (mkREF_GEOM n max blank d' p adj)) ->
  wp (for_up 0 REF_GEOM_DESCR_SIZE (fun i r =>
        let* v := ref_geom_descr r i geom in put_descr r i to v) (mkREF_GEOM n max blank d p adj)) Q.
Proof using Hwf.
  intros Hd Hg Ht HQ. destruct max_facts as (Hm & Hs & _). pose proof six as Hsix.
  apply (wp_for_up (fun i r1 => exists d1, r1 = mkREF_GEOM n max blank d1 p adj /\ zlen d1 = REF_GEOM_DESCR_SIZE * max /\
    forall col row, 0 <= col < REF_GEOM_DESCR_SIZE -> 0 <= row ->
      d1.[col + REF_GEOM_DESCR_SIZE * row] =
      if (to =? row) && (col <? i) then d.[col + REF_GEOM_DESCR_SIZE * geom] else d.[col + REF_GEOM_DESCR_SIZE * row])); [lia| | |].
  - exists d. split; [done|]. split; [done|]. intros col row Hcol _. destruct (Z.ltb_spec col 0); [lia|]. by rewrite andb_false_r.
  - intros i r1 Hi (d1 & -> & Hd1 & Hval). apply wp_bind. unfold ref_geom_descr. cbn [geom_descr].
    apply (wp_row_get _ _ six Hs); [done|lia|done|]. apply wp_put_descr; cbn [geom_descr geom_max]; [done|done|lia|done|].
    eexists. split; [reflexivity|]. cbn. split; [by rewrite zlen_upd|]. intros col row Hcol Hrow.
    rewrite (aat_row_put _ _ six Hs) by (done || lia). rewrite !Hval by lia.
    destruct (Z.eqb_spec i col), (Z.eqb_spec to row), (Z.ltb_spec col i), (Z.ltb_spec col (i + 1)), (Z.eqb_spec to geom), (Z.ltb_spec i i);
      subst; cbn [andb]; lia || done.
  - intros r1 (d1 & -> & Hd1 & Hval). apply HQ; [done|]. intros col row Hcol Hrow. rewrite Hval by done.
    destruct (Z.ltb_spec col REF_GEOM_DESCR_SIZE); [|lia]. by rewrite andb_true_r.
Qed.

Lemma copy_param_ok d p n blank adj geom to (Q : REF_GEOM D -> Prop) :
  zlen p = 2 * max -> 0 <= geom < max -> 0 <= to < max ->
  (forall p', zlen p' = 2 * max ->
     (forall col row, 0 <= col < 2 -> 0 <= row ->
        p'.[col + 2 * row] = if to =? row then p.[col + 2 * geom] else p.[col + 2 * row]) ->
     Q (mkREF_GEOM n max blank d p' adj)) ->
  wp (for_up 0 2 (fun i r =>
        let* v := ref_geom_param r i geom in put_param r i to v) (mkREF_GEOM n max blank d p adj)) Q.
Proof using Hwf.
  intros Hp Hg Ht HQ. destruct max_facts as (Hm & Hs & Hs2 & _).
  apply (wp_for_up (fun i r1 => exists p1, r1 = mkREF_GEOM n max blank d p1 adj /\ zlen p1 = 2 * max /\
    forall col row, 0 <= col < 2 -> 0 <= row ->
      p1.[col + 2 * row] = if (to =? row) && (col <? i) then p.[col + 2 * geom] else p.[col + 2 * row])); [lia| | |].
  - exists p. split; [done|]. split; [done|]. intros col row Hcol _. destruct (Z.ltb_spec col 0); [lia|]. by rewrite andb_false_r.
  - intros i r1 Hi (p1 & -> & Hp1 & Hval). apply wp_bind. unfold ref_geom_param. cbn [geom_param].
    destruct (row_index_ok 2 max ltac:(lia) Hs2 i geom ltac:(lia) Hg) as [-> Hx]. cbn [obind]. apply wp_aget; [lia|].
    apply wp_put_param; cbn [geom_param geom_max]; [done|done|lia|done|].
    eexists. split; [reflexivity|]. cbn. split; [by rewrite zlen_upd|]. intros col row Hcol Hrow.
    rewrite (aat_row_put 2 max ltac:(lia) Hs2) by (done || lia). rewrite !Hval by lia.
    destruct (Z.eqb_spec i col), (Z.eqb_spec to row), (Z.ltb_spec col i), (Z.ltb_spec col (i + 1)), (Z.eqb_spec to geom), (Z.ltb_spec i i);
      subst; cbn [andb]; lia || done.
  - intros r1 (p1 & -> & Hp1 & Hval). apply HQ; [done|]. intros col row Hcol Hrow. rewrite Hval by done.
    destruct (Z.ltb_spec col 2); [|lia]. by rewrite andb_true_r.
Qed.

Lemma move_geom_ok l d p geom :
  geoms_moved l d p -> zlen l <= geom < max -> geom_at r geom = Some (row_of REF_GEOM_DESCR_SIZE (geom_descr r) geom) ->
  0 <= (geom_descr r).[5 + REF_GEOM_DESCR_SIZE * geom] < zlen o2n ->
  wp (let* r1 :=
        for_up 0 REF_GEOM_DESCR_SIZE (fun i r =>
          let* v := ref_geom_descr r i geom in put_descr r i (zlen l) v) (set_geom_param p (set_geom_descr d r)) in
      let* old := ref_geom_node r1 geom in
      let* new := aget o2n old in
      let* r1 := put_descr r1 REF_GEOM_DESCR_NODE (zlen l) new in
      for_up 0 2 (fun i r =>
        let* v := ref_geom_param r i geom in put_param r i (zlen l) v) r1)
    (fun r1 => exists d p, r1 = set_geom_param p (set_geom_descr d r) /\ geoms_moved (l ++ [geom]) d p).
Proof using Hwf.
  intros Hm Hg Hat Ho. destruct max_facts as (Hmx & Hs & Hs2 & Hdl & Hpl). destruct Hm as [Hd Hp Hdr Hpr Hdd Hpp].
  pose proof (zlen_nonneg l) as Hl0. pose proof six as Hsix. apply wp_bind.
  apply (copy_descr_ok d p (geom_n r) (geom_blank r) (geom_adj r)); [lia|lia|lia|]. intros d1 Hd1 Hval1.
  assert (Hold : d1.[5 + REF_GEOM_DESCR_SIZE * geom] = (geom_descr r).[5 + REF_GEOM_DESCR_SIZE * geom]).
  { rewrite Hval1 by (unfold REF_GEOM_DESCR_SIZE; lia). rewrite Hdr by (unfold REF_GEOM_DESCR_SIZE; lia). by destruct (zlen l =? geom). }
  apply wp_bind. unfold ref_geom_node, ref_geom_descr. cbn [geom_descr].
  apply (wp_row_get _ _ six Hs); [done|done|lia|]. unfold REF_GEOM_DESCR_NODE. rewrite Hold.
  apply wp_bind, wp_aget; [done|]. apply wp_bind. apply wp_put_descr; cbn [geom_descr geom_max]; [done|done|done|lia|].
  cbn [set_geom_descr geom_n geom_max geom_blank geom_param geom_adj].
  set (d2 := upd d1 _ _). apply (copy_param_ok d2 p); [lia|lia|lia|]. intros p1 Hp1 Hvalp.
  assert (Hd2 : forall col row, 0 <= col < REF_GEOM_DESCR_SIZE -> 0 <= row -> d2.[col + REF_GEOM_DESCR_SIZE * row] =
    if zlen l =? row then (renumbered_geom o2n (row_of REF_GEOM_DESCR_SIZE (geom_descr r) geom)).[col] else d.[col + REF_GEOM_DESCR_SIZE * row]).
  { intros col row Hcol Hrow. unfold d2. rewrite (aat_row_put _ _ six Hs) by (done || lia). rewrite Hval1 by done.
    unfold renumbered_geom. rewrite (aat_row_of REF_GEOM_DESCR_SIZE _ _ 5) by done.
    rewrite aat_upd by (rewrite ?(zlen_row_of _ six); unfold REF_GEOM_DESCR_SIZE in *; lia).
    destruct (Z.eqb_spec 5 col), (Z.eqb_spec (zlen l) row); cbn [andb]; try done. rewrite (aat_row_of REF_GEOM_DESCR_SIZE) by done. apply Hdr; lia. }
  exists d2, p1. split; [done|]. pose proof (zlen_app l [geom]) as Hla. change (zlen [geom]) with 1 in Hla.
  assert (Hnew : forall j, 0 <= j < zlen l + 1 -> (l ++ [geom]).[j] = if zlen l =? j then geom else l.[j]).
  { intros j Hj. case Z.eqb_spec; intros Hjl; [|by rewrite aat_app_l by lia]. rewrite aat_app_r by lia. by rewrite Hjl, Z.sub_diag. }
  constructor; rewrite ?Hla.
  - unfold d2. rewrite zlen_upd. lia.
  - lia.
  - intros col row Hcol Hrow. rewrite Hd2 by lia. destruct (Z.eqb_spec (zlen l) row); [lia|]. apply Hdr; lia.
  - intros col row Hcol Hrow. rewrite Hvalp by lia. destruct (Z.eqb_spec (zlen l) row); [lia|]. apply Hpr; lia.
  - intros j Hj. rewrite Hnew by done. apply arr_ext; [unfold renumbered_geom; by rewrite zlen_upd, !(zlen_row_of _ six)|].
    rewrite (zlen_row_of _ six). intros i Hi. rewrite aat_row_of, Hd2 by lia. case Z.eqb_spec; intros Hjl; [done|].
    rewrite <- Hdd by lia. by rewrite aat_row_of.
  - intros j col Hj Hcol. rewrite Hvalp, Hnew by lia. case Z.eqb_spec; intros Hjl; [apply Hpr; lia|apply Hpp; lia].
Qed.

Lemma geom_pack_down_ok :
  (forall geom l, geom_at r geom = Some l -> 0 <= l.[5] < zlen o2n) ->
  wp (geom_pack_down r o2n) (fun c => exists d p, c = Next (set_geom_param p (set_geom_descr d r), zlen (valid_geoms r)) /\
    geoms_moved (valid_geoms r) d p).
Proof using Hwf.
  intros Ho. destruct max_facts as (Hmx & Hs & Hs2 & Hdl & Hpl). unfold geom_pack_down, each_ref_geom.
  apply (wp_forx_up (fun i '(r1, k) => k = zlen (geoms_below r i) /\
    exists d p, r1 = set_geom_param p (set_geom_descr d r) /\ geoms_moved (geoms_below r i) d p) (fun _ => False)); [lia| | | |done].
  - split; [done|]. exists (geom_descr r), (geom_param r). split; [by destruct r|].
    constructor; try done; intros; change (zlen (geoms_below r 0)) with 0 in *; lia.
  - intros i [r1 k] Hi (-> & d & p & -> & Hmv). cbn [fst]. pose proof (zlen_geoms_below r i ltac:(lia)) as Hb.
    unfold ref_geom_type, ref_geom_descr at 1. cbn [geom_descr set_geom_param set_geom_descr]. apply wp_bind.
    apply (wp_row_get _ _ six Hs); [by rewrite (gm_descr_len _ _ _ Hmv)|done|done|].
    rewrite (gm_descr_rest _ _ _ Hmv) by (done || lia). rewrite geoms_below_S by lia.
    destruct (geom_at r i) as [l|] eqn:Hat.
    + pose proof Hat as Hat'. apply row_at_Some in Hat' as (_ & Hne & Hl). rewrite Z.add_0_l.
      destruct (Z.eqb_spec REF_EMPTY (geom_descr r).[REF_GEOM_DESCR_SIZE * i]); [congruence|]. cbn [negb].
      pose proof (move_geom_ok (geoms_below r i) d p i Hmv ltac:(lia)) as Hmove. rewrite <- Hl in Hmove. specialize (Hmove Hat).
      rewrite <- (aat_row_at _ _ _ _ _ 5 Hat) in Hmove by done. destruct (Hmove (Ho i l Hat)) as (r2 & Hrun & d2 & p2 & -> & Hmv2).
      unfold REF_GEOM_DESCR_TYPE in *. clear Hmove. revert Hrun. unfold set_geom_param, set_geom_descr. cbn [geom_n geom_max geom_blank geom_descr geom_param geom_adj].
      destruct (for_up 0 REF_GEOM_DESCR_SIZE _ _) as [r3|]; [|done]. cbn [obind].
      destruct (ref_geom_node r3 i) as [old|]; [|done]. cbn [obind]. destruct (aget o2n old) as [new|]; [|done]. cbn [obind].
      destruct (put_descr r3 _ _ new) as [r4|]; [|done]. cbn [obind]. intros ->. cbn [obind]. apply wp_ret. cbn.
      split; [by rewrite zlen_app|]. by exists d2, p2.
    + pose proof Hat as Hat'. apply row_at_None in Hat'. rewrite Z.add_0_l. rewrite app_nil_r.
      destruct (Z.eqb_spec REF_EMPTY (geom_descr r).[REF_GEOM_DESCR_SIZE * i]); [|exfalso; apply Hat'; split; [lia|congruence]].
      cbn [negb]. apply wp_ret. cbn. split; [done|]. by exists d, p.
  - intros [r1 k] (-> & d & p & -> & Hmv). by exists d, p.
Qed.
End down.

(** ** The packed records *)

Section packed.
Context (r : REF_GEOM D) (bl : list Z) (Hwf : geom_wf r bl) (o2n : list Z).
Context (Hnodes : forall geom l, geom_at r geom = Some l -> 0 <= l.[5] < zlen o2n /\ 0 <= o2n.[l.[5]] <= NODE_LIMIT).
Context (d : list Z) (p : list D) (blank : Z).
Local Notation max := (geom_max r).
Local Notation n := (geom_n r).
Context (Hdl : zlen d = REF_GEOM_DESCR_SIZE * max) (Hpl : zlen p = 2 * max).
Context (Hdescr : forall j, 0 <= j < n ->
  row_of REF_GEOM_DESCR_SIZE d j = renumbered_geom o2n (row_of REF_GEOM_DESCR_SIZE (geom_descr r) (valid_geoms r).[j])).
Context (Hparam : forall j col, 0 <= j < n -> 0 <= col < 2 -> p.[col + 2 * j] = (geom_param r).[col + 2 * (valid_geoms r).[j]]).
Context (Hlinked : forall row, n <= row < max -> d.[REF_GEOM_DESCR_SIZE * row] = REF_EMPTY /\
  d.[1 + REF_GEOM_DESCR_SIZE * row] = if row =? max - 1 then REF_EMPTY else row + 1).
Context (Hblank : blank = if n <? max then n else REF_EMPTY).

Lemma geom_n_range : 0 <= n <= max.
Proof using Hwf. apply (rows_n_bounds _ _ _ _ _ _ (gw_rows _ _ Hwf)). Qed.

Lemma zlen_valid_geoms : zlen (valid_geoms r) = n.
Proof using Hwf. apply (zlen_used_rows _ _ _ _ _ _ (gw_rows _ _ Hwf)). Qed.

Lemma valid_geom_at j : 0 <= j < n -> geom_at r (valid_geoms r).[j] = Some (row_of REF_GEOM_DESCR_SIZE (geom_descr r) (valid_geoms r).[j]).
Proof using Hwf.
  intros Hj. pose proof zlen_valid_geoms. assert (Hin : (valid_geoms r).[j] ∈ valid_geoms r) by (apply elem_of_aat; exists j; split; [lia|done]).
  apply list_elem_of_filter in Hin as [[l Hl] _]. rewrite Hl. by apply row_at_Some in Hl as (_ & _ & ->).
Qed.

Lemma packed_geom_at adj g :
  geom_at (mkREF_GEOM n max blank d p adj) g =
  if bool_decide (0 <= g < n) then Some (renumbered_geom o2n (row_of REF_GEOM_DESCR_SIZE (geom_descr r) (valid_geoms r).[g])) else None.
Proof using Hwf Hdescr Hlinked.
  pose proof geom_n_range as Hn. case_bool_decide as Hg.
  - rewrite <- Hdescr by done. apply row_at_Some. cbn. split; [lia|]. split; [|done].
    pose proof (valid_geom_at g Hg) as Hat. pose proof (gw_type _ _ Hwf _ _ Hat) as Htype.
    change (REF_GEOM_DESCR_SIZE * g) with (0 + REF_GEOM_DESCR_SIZE * g).
    rewrite <- (aat_row_of REF_GEOM_DESCR_SIZE d g 0), Hdescr by done. unfold renumbered_geom.
    rewrite aat_upd_ne by (rewrite ?(zlen_row_of _ six); unfold REF_GEOM_DESCR_SIZE; lia). unfold REF_EMPTY. lia.
  - apply row_at_None. cbn. intros [Hr Hx]. apply Hx. by apply Hlinked; lia.
Qed.

Lemma packed_type g l adj : geom_at (mkREF_GEOM n max blank d p adj) g = Some l -> exists l0, 0 <= g < n /\
  geom_at r (valid_geoms r).[g] = Some l0 /\ l = renumbered_geom o2n l0 /\ geom_key l = (o2n.[l0.[5]], l0.[0], l0.[1]) /\ l.[5] = o2n.[l0.[5]] /\ l.[0] = l0.[0].
Proof using Hwf Hdescr Hlinked.
  rewrite packed_geom_at. case_bool_decide as Hg; [|done]. intros [= <-]. eexists. split; [done|]. split; [by apply valid_geom_at|].
  split; [done|]. set (l0 := row_of _ _ _). assert (Hz : zlen l0 = REF_GEOM_DESCR_SIZE) by apply (zlen_row_of _ six).
  unfold REF_GEOM_DESCR_SIZE in Hz. unfold geom_key, renumbered_geom. rewrite aat_upd_eq by lia. by rewrite !aat_upd_ne by lia.
Qed.

Lemma packed_rows : rows_wf REF_GEOM_DESCR_SIZE n max blank d (seqZ n (max - n)).
Proof using Hwf Hdl Hdescr Hlinked Hblank p.
  pose proof geom_n_range as Hn. pose proof (gw_rows _ _ Hwf) as Hr. pose proof (packed_geom_at (geom_adj r)) as Hat. constructor.
  - apply Hr.
  - apply Hr.
  - done.
  - subst blank. case Z.ltb_spec; intros Hlt; [apply chain_linked; [lia|]; intros j Hj; by apply Hlinked|].
    replace (max - n) with 0 by lia. done.
  - apply NoDup_seqZ.
  - intros row. specialize (Hat row). unfold geom_at in Hat. cbn in Hat. rewrite Hat, elem_of_seqZ.
    case_bool_decide as Hg; split; [lia|by intros [_ ?]|intros; split; [lia|done]|intros [? _]; lia].
  - unfold zlen. rewrite length_seqZ. lia.
Qed.

(** The numbering keeps the vertices apart. *)
Context (Hinj : forall g g' l l', geom_at r g = Some l -> geom_at r g' = Some l' -> o2n.[l.[5]] = o2n.[l'.[5]] -> l.[5] = l'.[5]).

Lemma packed_geom_wf adj :
  adj_wf adj ->
  (forall node g, occ (adj_refs adj node) g = match geom_at (mkREF_GEOM n max blank d p adj) g with
     | Some l => Z.b2z (l.[5] =? node) | None => 0 end) ->
  geom_wf (mkREF_GEOM n max blank d p adj) (seqZ n (max - n)).
Proof using All.
  intros Hadj Hocc. constructor; [exact packed_rows|exact Hpl| | |exact Hadj|exact Hocc].
  - intros g l (l0 & _ & Hat & _ & _ & _ & ->)%packed_type. apply (gw_type _ _ Hwf _ _ Hat).
  - intros g g' l l' (l0 & Hg & Hat & _ & Hk & _)%packed_type (l0' & Hg' & Hat' & _ & Hk' & _)%packed_type Heq.
    rewrite Hk, Hk' in Heq. injection Heq as Heq1 Heq2 Heq3. apply Hinj with (1 := Hat) (2 := Hat') in Heq1.
    assert (He : (valid_geoms r).[g] = (valid_geoms r).[g']).
    { apply (gw_unique _ _ Hwf _ _ _ _ Hat Hat'). unfold geom_key. by rewrite Heq1, Heq2, Heq3. }
    apply (NoDup_aat (valid_geoms r)); rewrite ?zlen_valid_geoms; [apply NoDup_filter, NoDup_zrange|done|done|done].
Qed.

Lemma packed_lookup adj k v :
  geom_lookup (mkREF_GEOM n max blank d p adj) k v <->
  exists node type id, geom_lookup r (node, type, id) v /\ k = (o2n.[node], type, id).
Proof using Hwf Hdescr Hparam Hlinked.
  pose proof zlen_valid_geoms as Hz. split.
  - intros (g & l & Hat & <- & ->). apply packed_type in Hat as (l0 & Hg & Hat & -> & Hk & _ & _).
    exists l0.[5], l0.[0], l0.[1]. split; [|done]. exists (valid_geoms r).[g], l0. split; [done|]. split; [done|].
    pose proof (zlen_row_at _ six _ _ _ _ Hat) as Hz0. unfold REF_GEOM_DESCR_SIZE in Hz0.
    unfold assoc_of, renumbered_geom. cbn [geom_param]. rewrite !Hparam by lia. by rewrite !aat_upd_ne by lia.
  - intros (node & type & id & (g0 & l0 & Hat & Hk & ->) & ->). assert (Hin : g0 ∈ valid_geoms r).
    { apply list_elem_of_filter. split; [by rewrite Hat|]. apply elem_of_zrange. by apply geom_at_range in Hat. }
    apply elem_of_aat in Hin as (g & Hg & <-). rewrite Hz in Hg. exists g, (renumbered_geom o2n l0).
    pose proof (zlen_row_at _ six _ _ _ _ Hat) as Hz0. unfold REF_GEOM_DESCR_SIZE in Hz0. injection Hk as <- <- <-.
    rewrite packed_geom_at, bool_decide_eq_true_2 by done. pose proof (valid_geom_at g Hg) as Hv. rewrite Hat in Hv. injection Hv as <-.
    split; [done|]. unfold geom_key, assoc_of, renumbered_geom. cbn [geom_param].
    rewrite !Hparam by lia. rewrite aat_upd_eq by lia. by rewrite !aat_upd_ne by lia.
Qed.
End packed.

(** ** The whole *)

(** The loop that registers the records in use. *)
Lemma register_geoms_ok r n bl :
  rows_wf REF_GEOM_DESCR_SIZE n (geom_max r) (geom_blank r) (geom_descr r) bl ->
  (forall g l, geom_at r g = Some l -> 0 <= l.[5] <= NODE_LIMIT) ->
  adj_wf (geom_adj r) -> (forall v, adj_refs (geom_adj r) v = []) ->
  wp (each_ref_geom (geom_max r) (fun _ => r) (fun geom adj =>
        let* node := ref_geom_node r geom in
        let* '(st, adj) := ref_adj_add adj node geom in
        RSS_next st adj) (geom_adj r))
    (fun c => exists adj, c = Next adj /\ adj_wf adj /\
       forall node g, occ (adj_refs adj node) g = match geom_at r g with Some l => Z.b2z (l.[5] =? node) | None => 0 end).
Proof.
  intros Hrows Hnodes Hadj Hempty. pose proof (rw_max _ _ _ _ _ _ Hrows) as Hm. pose proof (rw_size _ _ _ _ _ _ Hrows) as Hs.
  pose proof (rw_len _ _ _ _ _ _ Hrows) as Hl. unfold each_ref_geom.
  assert (Htot : forall k, refs_total (adj_refs (geom_adj r)) k <= 0).
  { intros k. induction k as [|k IH]; cbn [refs_total]; [done|]. rewrite Hempty. change (zlen (@nil Z)) with 0. lia. }
  apply (wp_forx_up (fun i adj => adj_wf adj /\ (forall k, refs_total (adj_refs adj) k <= i) /\
    forall node g, occ (adj_refs adj node) g =
      if bool_decide (g < i) then match geom_at r g with Some l => Z.b2z (l.[5] =? node) | None => 0 end else 0) (fun _ => False)); [lia| | | |done].
  - split; [done|]. split; [done|]. intros node g. rewrite Hempty. case_bool_decide as Hg; [|done].
    destruct (geom_at r g) as [l|] eqn:Hat; [|done]. apply geom_at_range in Hat. lia.
  - intros i adj Hi (Hwf & Ht & Hocc). apply wp_bind. unfold ref_geom_type, ref_geom_descr.
    apply (wp_row_get _ _ six Hs); [done|done|done|]. unfold REF_GEOM_DESCR_TYPE. rewrite Z.add_0_l.
    destruct (geom_at r i) as [l|] eqn:Hat.
    + pose proof Hat as Hat'. apply row_at_Some in Hat' as (_ & Hne & _).
      destruct (Z.eqb_spec REF_EMPTY (geom_descr r).[REF_GEOM_DESCR_SIZE * i]); [congruence|]. cbn [negb].
      apply wp_bind. unfold ref_geom_node, ref_geom_descr. apply (wp_row_get _ _ six Hs); [done|done|done|].
      unfold REF_GEOM_DESCR_NODE. rewrite <- (aat_row_at _ _ _ _ _ 5 Hat) by done. apply wp_bind.
      eapply wp_mono; [apply adj_add_occ; [done|by apply (Hnodes i)|]|].
      { intros k. specialize (Ht k). unfold REF_GEOM_DESCR_SIZE, REF_INT_MAX in *. lia. }
      intros [st adj'] (-> & Hwf' & Ht' & Hocc'). apply wp_ret. cbn. split; [done|]. split; [intros k; specialize (Ht k); specialize (Ht' k); lia|].
      intros node g. rewrite Hocc', Hocc. case Z.eqb_spec; intros Hig; cbn [Z.b2z].
      * subst g. rewrite bool_decide_eq_false_2, bool_decide_eq_true_2, Hat by lia. lia.
      * rewrite Z.mul_0_l, Z.add_0_r. erewrite bool_decide_ext; [done|lia].
    + pose proof Hat as Hat'. apply row_at_None in Hat'.
      destruct (Z.eqb_spec REF_EMPTY (geom_descr r).[REF_GEOM_DESCR_SIZE * i]); [|exfalso; apply Hat'; split; [lia|congruence]].
      cbn [negb]. apply wp_ret. cbn. split; [done|]. split; [intros k; specialize (Ht k); lia|]. intros node g. rewrite Hocc.
      destruct (decide (g = i)) as [->|]; [by rewrite Hat, bool_decide_eq_false_2, bool_decide_eq_true_2 by lia|]. erewrite bool_decide_ext; [done|lia].
  - intros adj (Hwf & _ & Hocc). exists adj. split; [done|]. split; [done|]. intros node g. rewrite Hocc. case_bool_decide as Hg; [done|].
    destruct (geom_at r g) as [l|] eqn:Hat; [|done]. apply geom_at_range in Hat. lia.
Qed.

Lemma ref_geom_pack_ok r bl o2n :
  geom_wf r bl ->
  (forall geom l, geom_at r geom = Some l -> 0 <= l.[5] < zlen o2n /\ 0 <= o2n.[l.[5]] <= NODE_LIMIT) ->
  (forall g g' l l', geom_at r g = Some l -> geom_at r g' = Some l' -> o2n.[l.[5]] = o2n.[l'.[5]] -> l.[5] = l'.[5]) ->
  wp (ref_geom_pack r o2n) (fun '(st, r') => st = REF_SUCCESS /\ geom_wf r' (seqZ (geom_n r) (geom_max r - geom_n r)) /\
    geom_n r' = geom_n r /\ geom_max r' = geom_max r /\
    forall k v, geom_lookup r' k v <-> exists node type id, geom_lookup r (node, type, id) v /\ k = (o2n.[node], type, id)).
Proof.
  intros Hwf Hnodes Hinj. destruct (max_facts r bl Hwf) as (Hmx & Hs & Hs2 & Hdl & Hpl). pose proof (geom_n_range r bl Hwf) as Hn.
  pose proof (zlen_valid_geoms r bl Hwf) as Hz. unfold ref_geom_pack. apply wp_bind.
  eapply wp_mono; [apply (geom_pack_down_ok r bl Hwf o2n); intros; by eapply Hnodes|].
  intros c (d & p & -> & [Hdlen Hplen _ _ Hdescr Hparam]). rewrite Hz in *.
  cbn [set_geom_param set_geom_descr geom_n geom_max geom_blank geom_descr geom_param geom_adj]. rewrite Z.eqb_refl. cbn [RAS].
  apply wp_bind. apply (wp_mono (fun r2 => exists d' blank, r2 = mkREF_GEOM (geom_n r) (geom_max r) blank d' p (geom_adj r) /\
    zlen d' = REF_GEOM_DESCR_SIZE * geom_max r /\ (blank = if geom_n r <? geom_max r then geom_n r else REF_EMPTY) /\
    (forall row, geom_n r <= row < geom_max r -> d'.[REF_GEOM_DESCR_SIZE * row] = REF_EMPTY /\
       d'.[1 + REF_GEOM_DESCR_SIZE * row] = if row =? geom_max r - 1 then REF_EMPTY else row + 1) /\
    forall j, 0 <= j < geom_n r -> row_of REF_GEOM_DESCR_SIZE d' j = row_of REF_GEOM_DESCR_SIZE d j)).
  { case Z.ltb_spec; intros Hlt.
    - apply wp_bind, (wp_link_rows _ (geom_max r) six Hs); [lia|lia|lia|]. intros d' Hd' Hlink Hsame. apply wp_ret. exists d', (geom_n r).
      split; [done|]. split; [done|]. split; [done|]. split; [done|]. intros j Hj. apply row_of_ext. intros col Hcol. by apply Hsame.
    - apply wp_ret. exists d, REF_EMPTY. split; [done|]. split; [lia|]. split; [done|]. split; [lia|done]. }
  intros r2 (d' & blank & -> & Hd' & Hblank & Hlinked & Hsame). apply wp_bind. eapply wp_mono; [apply ref_adj_create_ok|].
  intros [st adj] (-> & Hadj & Hempty). cbn [RSS]. set (r3 := set_geom_adj adj _).
  assert (Hdescr' : forall j, 0 <= j < geom_n r -> row_of REF_GEOM_DESCR_SIZE d' j =
    renumbered_geom o2n (row_of REF_GEOM_DESCR_SIZE (geom_descr r) (valid_geoms r).[j])) by (intros j Hj; rewrite Hsame by done; by apply Hdescr).
  assert (Hpl' : zlen p = 2 * geom_max r) by lia. apply wp_bind. change (geom_adj r3) with adj.
  eapply wp_mono; [apply (register_geoms_ok r3 (geom_n r) (seqZ (geom_n r) (geom_max r - geom_n r))); [| |done|done]|].
  - by apply (packed_rows r bl Hwf o2n d' p blank).
  - intros g l Hat. apply (packed_type r bl Hwf o2n d' p blank Hdescr' Hlinked) in Hat as (l0 & _ & Hat & _ & _ & -> & _). by apply (Hnodes _ _ Hat).
  - intros c (adj' & -> & Hadj' & Hocc). apply wp_ret. split; [done|].
    split; [by apply (packed_geom_wf r bl Hwf o2n Hnodes d' p blank)|]. split; [done|]. split; [done|]. intros k v.
    by apply (packed_lookup r bl Hwf o2n d' p blank).
Qed.
End pack.

(** C40. [ref_geom_pack] with a table [o2n] that gives different new numbers, in range, to
    different vertices with an association: every association is kept with its type, id,
    reference id, jump, degeneracy and parameters, under the new number of its vertex, and
    there are no others. The records are in order: the unused ones are those behind the
    last association, and the adjacency lists each record under its new vertex. *)
Theorem ref_geom_pack_renumbers {D : Type} `{Dbl D, Junk Z, Junk REF_ADJ_ITEM, Junk D} (r : REF_GEOM D) bl o2n :
  geom_wf r bl ->
  (forall geom l, geom_at r geom = Some l -> 0 <= l.[5] < zlen o2n /\ 0 <= o2n.[l.[5]] <= NODE_LIMIT) ->
  (forall g g' l l', geom_at r g = Some l -> geom_at r g' = Some l' -> o2n.[l.[5]] = o2n.[l'.[5]] -> l.[5] = l'.[5]) ->
  exists r', ref_geom_pack r o2n = Some (REF_SUCCESS, r') /\ geom_wf r' (seqZ (geom_n r) (geom_max r - geom_n r)) /\
    geom_n r' = geom_n r /\ geom_max r' = geom_max r /\
    forall k v, geom_lookup r' k v <-> exists node type id, geom_lookup r (node, type, id) v /\ k = (o2n.[node], type, id).
Proof.
  intros Hwf Hnodes Hinj. destruct (ref_geom_pack_ok r bl o2n Hwf Hnodes Hinj) as ([st r'] & Hrun & -> & Hr). by exists r'.
Qed.

(** Four associations of the vertices 2, 3 and 5, with an unused record in between. *)
Module GeomPackExample.
#[local] Existing Instances GeomExample.double GeomExample.junk_double GeomExample.junk_int GeomExample.junk_item.
Definition commands : list (geom_command spec_float) :=
  [GeomAdd 3 2 7 [dofZ 1; dofZ 2]; GeomAdd 4 0 1 []; GeomAdd 3 1 5 [dofZ 4]; GeomAdd 5 0 2 []; GeomAdd 2 1 5 [dofZ 8]; GeomRemove 4 0 1].
Definition r : REF_GEOM spec_float :=
  match (let* '(_, r) := ref_geom_create in run geom_exec commands r) with
  | Some (_, r) => r
  | None => mkREF_GEOM 0 0 0 [] [] (mkREF_ADJ 0 0 [] [] 0)
  end.
Definition o2n : list Z := [REF_EMPTY; REF_EMPTY; 1; 0; REF_EMPTY; 2].

Lemma r_wf : exists bl, geom_wf r bl.
Proof.
  destruct (geom_run_ok commands) as (r0 & r1 & Hcr & Hrun & Hwf & _); [|vm_compute; congruence|].
  - repeat (apply Forall_cons; split; [first [exact I | split; [vm_compute; split; congruence|vm_compute; congruence] | vm_compute; congruence]|]).
    apply Forall_nil; exact I.
  - unfold r. rewrite Hcr. cbn [obind]. by rewrite Hrun.
Qed.

Lemma r_vertices geom l : geom_at r geom = Some l -> l.[5] = 2 \/ l.[5] = 3 \/ l.[5] = 5.
Proof.
  intros Hat. assert (Hall : Forall (fun geom => (match geom_at r geom with Some l => l.[5] | None => 2 end) ∈ [2; 3; 5]) (zrange (geom_max r)))
    by (apply (bool_decide_unpack _); vm_compute; exact I).
  rewrite Forall_forall in Hall. specialize (Hall geom). rewrite Hat in Hall.
  assert (Hin : geom ∈ zrange (geom_max r)) by (apply elem_of_zrange; by apply geom_at_range in Hat).
  specialize (Hall Hin). rewrite !elem_of_cons, elem_of_nil in Hall. tauto.
Qed.
End GeomPackExample.

#[local] Existing Instances GeomExample.double GeomExample.junk_double GeomExample.junk_int GeomExample.junk_item.
Lemma ref_geom_pack_renumbers_witness :
  let r := GeomPackExample.r in
  let o2n := GeomPackExample.o2n in
  (exists bl, geom_wf r bl) /\ geom_n r = 4 /\
  exists r', ref_geom_pack r o2n = Some (REF_SUCCESS, r') /\ geom_n r' = geom_n r /\
    map (geom_at r') [0; 1; 2; 3; 4] = [Some [2; 7; 7; 0; 0; 0]; Some [1; 5; 5; 0; 0; 0]; Some [0; 2; 2; 0; 0; 2]; Some [1; 5; 5; 0; 0; 1]; None] /\
    forall k v, geom_lookup r' k v <-> exists node type id, geom_lookup r (node, type, id) v /\ k = (o2n.[node], type, id).
Proof.
  intros r o2n. split; [exact GeomPackExample.r_wf|]. split; [vm_compute; reflexivity|]. destruct GeomPackExample.r_wf as [bl Hwf].
  destruct (ref_geom_pack_renumbers r bl o2n Hwf) as (r' & Hrun & _ & Hn & _ & Hlookup).
  - intros geom l Hat. apply GeomPackExample.r_vertices in Hat as [Hv|[Hv|Hv]]; rewrite Hv; vm_compute; split; split; congruence.
  - intros g g' l l' Hat Hat'. apply GeomPackExample.r_vertices in Hat as [Hv|[Hv|Hv]]; apply GeomPackExample.r_vertices in Hat' as [Hv'|[Hv'|Hv']];
      rewrite Hv, Hv'; vm_compute; congruence.
  - exists r'. split; [exact Hrun|]. split; [exact Hn|]. split; [|exact Hlookup].
    assert (Hall : (let* '(_, r') := ref_geom_pack r o2n in Some (map (geom_at r') [0; 1; 2; 3; 4])) =
      Some [Some [2; 7; 7; 0; 0; 0]; Some [1; 5; 5; 0; 0; 0]; Some [0; 2; 2; 0; 0; 2]; Some [1; 5; 5; 0; 0; 1]; None]) by (vm_compute; reflexivity).
    rewrite Hrun in Hall. cbn [obind] in Hall. congruence.
Defined.
