(* ===== verification/RefEdge.v ===== *)
(** * ref_edge.c: the edges of a grid and their ordering

    [ref_edge_create] lists each edge of the elements once. [ref_edge_rcm] numbers the
    vertices by the reverse Cuthill-McKee ordering of the graph of the edges; the
    loops end and the numbering is a permutation when every vertex has an edge, and
    the array of new numbers is written at index -1 when one has none. *)
From S2P Require Import Prelude Rows Effect RefList RefAdj RefDbl RefMpi RefNode RefCellType RefCell RefCellQuery RefGeom RefGrid RefMeasure RefCellSpec RefCellNode RefCavity RefCavityTable RefCavityReplace RefCavityForm RefCavitySwap RowList ElementLoops.
From stdpp Require Import prelude list gmap.
From Stdlib Require Import ZArith Lia SpecFloat.
Open Scope Z_scope.
Open Scope ref_scope.

(** The member [node], the vertices of the grid, is an argument of the operations that
    read it. The array is [None] while it is [NULL]. *)
Record REF_EDGE := mkREF_EDGE {
  edge_n : Z;
  edge_max : Z;
  edge_arr : option (list Z);
  edge_adj : REF_ADJ
}.
Definition set_edge_n (x : Z) (r : REF_EDGE) := mkREF_EDGE x (edge_max r) (edge_arr r) (edge_adj r).
Definition set_edge_arr (max : Z) (x : list Z) (r : REF_EDGE) := mkREF_EDGE (edge_n r) max (Some x) (edge_adj r).
Definition set_edge_adj (x : REF_ADJ) (r : REF_EDGE) := mkREF_EDGE (edge_n r) (edge_max r) (edge_arr r) x.

(** [ref_edge_e2n], read and written. *)
Definition ref_edge_e2n (r : REF_EDGE) (node edge : Z) : option Z :=
  let* a := edge_arr r in row_get 2 a node edge.
Definition put_e2n (node edge v : Z) (r : REF_EDGE) : option REF_EDGE :=
  let* a := edge_arr r in
  let* a := row_put 2 node edge v a in
  Some (set_edge_arr (edge_max r) a r).

Section ops.
Context {D : Type} `{Dbl D, Junk Z, Junk REF_ADJ_ITEM}.
Implicit Types (r : REF_EDGE) (g : REF_GRID D) (n : REF_NODE D).

Definition ref_edge_with r (node0 node1 : Z) : option (REF_STATUS * Z) :=
  let* c :=
    each_ref_adj_node_item_with_ref (edge_adj r) node0 (fun _ ref (_ : unit) =>
      let* n0 := ref_edge_e2n r 0 ref in
      let* n1 := ref_edge_e2n r 1 ref in
      if ((n0 =? node0) && (n1 =? node1)) || ((n0 =? node1) && (n1 =? node0))
      then Some (Exit (REF_SUCCESS, ref)) else Some (Next tt)) tt in
  Some (match c with Exit x => x | Next _ => (REF_NOT_FOUND, REF_EMPTY) end).

(** The block that makes room. *)
Definition edge_grow r : option REF_EDGE :=
  if edge_max r <=? edge_n r then
    let orig := edge_max r in
    let* more := ck_int (half_more orig) in
    let chunk := Z.max 5000 more in
    let* max := ck_int (orig + chunk) in
    let* size := ck_int (2 * max) in
    let* a := edge_arr r in
    let* a :=
      for_up orig max (fun edge a =>
        let* a := row_put 2 0 edge REF_EMPTY a in
        row_put 2 1 edge REF_EMPTY a) (ref_realloc a size) in
    Some (set_edge_arr max a r)
  else Some r.

Definition edge_register (node edge : Z) : fn REF_EDGE unit :=
  let! r := state in
  let! v := use (ref_edge_e2n r node edge) in
  call (fun r => let* '(st, adj) := ref_adj_add (edge_adj r) v edge in Some (st, set_edge_adj adj r)).

Definition ref_edge_uniq (node0 node1 : Z) : REF_EDGE -> option (REF_STATUS * REF_EDGE) := body (
  let! r := state in
  let! edge := ask_or REF_NOT_FOUND (ref_edge_with r node0 node1) in
  if negb (REF_EMPTY =? edge) then leave REF_SUCCESS
  else
    update edge_grow ;!
    let! r := state in
    let edge := edge_n r in
    update (fun r => let* n := ck_int (edge_n r + 1) in Some (set_edge_n n r)) ;!
    update (put_e2n 0 edge node0) ;!
    update (put_e2n 1 edge node1) ;!
    edge_register 0 edge ;!
    edge_register 1 edge).

(** The first allocation, when the array is [NULL]. *)
Definition edge_allocate g : fn REF_EDGE unit :=
  let! r := state in
  match edge_arr r with
  | Some _ => fret tt
  | None =>
      require (0 =? edge_max r) ;!
      let! estimate := use (ck_int (8 * node_n (grid_node g))) in
      let max := Z.max 100 estimate in
      let! size := use (ck_int (2 * max)) in
      let! a := ask (malloc_empty size) in
      assign (set_edge_arr max a)
  end.

(** The elements of one type. *)
Definition edges_of_type g (type : REF_CELL_TYPE) : fn REF_EDGE unit :=
  let ref_cell := grid_cell g type in
  each_valid_cell ref_cell (fun cell =>
    count 0 (ref_cell_edge_per ref_cell) (fun cell_edge =>
      let! node0 := use (ref_cell_e2n ref_cell 0 cell_edge cell) in
      let! node1 := use (ref_cell_e2n ref_cell 1 cell_edge cell) in
      call (ref_edge_uniq node0 node1))).

(** The types of [each_ref_grid_2d_ref_cell]. *)
Definition types_2d : list REF_CELL_TYPE := take 5 types_2d_3d.

Definition ref_edge_builder_uniq g : REF_EDGE -> option (REF_STATUS * REF_EDGE) := body (
  edge_allocate g ;!
  each types_3d (edges_of_type g) ;!
  each types_2d (edges_of_type g)).

Definition ref_edge_create g : option (REF_STATUS * REF_EDGE) :=
  let* '(st, adj) := ref_adj_create in
  let r := mkREF_EDGE 0 0 None adj in
  RSS st r (
  ref_edge_builder_uniq g r).

(** [part] after the call. *)
Definition ref_edge_part n r (edge : Z) : option (REF_STATUS * Z) :=
  let* v0 := ref_edge_e2n r 0 edge in
  let* v1 := ref_edge_e2n r 1 edge in
  let* global0 := ref_node_global n v0 in
  let* global1 := ref_node_global n v1 in
  let* part := if global0 <? global1 then aget (node_part n) v0 else aget (node_part n) v1 in
  Some (REF_SUCCESS, part).

(** ** The reverse Cuthill-McKee ordering *)

(** The first vertex of least positive degree that is not numbered or queued: its
    degree and itself. *)
Definition ref_edge_min_degree_node n r (o2n : list Z) : option (REF_STATUS * (Z * Z)) :=
  let* c :=
    forx_up 0 (node_max n) (fun node '(min_degree, min_degree_node) =>
      let* valid := ref_node_valid n node in
      if valid : bool then
        let* o := aget o2n node in
        if negb (REF_EMPTY =? o) then Some (Next (min_degree, min_degree_node))
        else
          let* '(st, degree) := ref_adj_degree (edge_adj r) node in
          match st with
          | REF_SUCCESS =>
              Some (Next (if (0 <? degree) && ((REF_EMPTY =? min_degree_node) || (degree <? min_degree))
                          then (degree, node) else (min_degree, min_degree_node)))
          | _ => Some (Exit (st, (min_degree, min_degree_node)))
          end
      else Some (Next (min_degree, min_degree_node))) (REF_EMPTY, REF_EMPTY) in
  Some (match c with Next s => (REF_SUCCESS, s) | Exit x => x end).

(** The local variables of [ref_edge_rcm]. *)
Record RCM := mkRCM { o2n : list Z; n2o : list Z; ndone : Z; queue : list Z; nqueue : Z }.
Definition set_o2n (x : list Z) s := mkRCM x (n2o s) (ndone s) (queue s) (nqueue s).
Definition set_n2o (x : list Z) s := mkRCM (o2n s) x (ndone s) (queue s) (nqueue s).
Definition set_ndone (x : Z) s := mkRCM (o2n s) (n2o s) x (queue s) (nqueue s).
Definition set_queue (x : list Z) s := mkRCM (o2n s) (n2o s) (ndone s) x (nqueue s).
Definition set_nqueue (x : Z) s := mkRCM (o2n s) (n2o s) (ndone s) (queue s) x.

(** Where a vertex of this degree goes among the first [nhere] of the queue. *)
Definition rcm_insert_point (q : list Z) (nhere degree : Z) : option Z :=
  let* c :=
    forx_up 0 nhere (fun location (_ : unit) =>
      let* d := row_get 2 q 1 location in
      if d <? degree then Some (Exit location) else Some (Next tt)) tt in
  Some (match c with Next _ => nhere | Exit location => location end).

(** The result is [nhere]. *)
Definition ref_edge_rcm_queue_node (node degree nhere : Z) : fn RCM Z :=
  let! s := state in
  let! insert_point := use (rcm_insert_point (queue s) nhere degree) in
  let! q :=
    use (for_down (nqueue s) insert_point (fun location q =>
      let* a := row_get 2 q 0 (location - 1) in
      let* q := row_put 2 0 location a q in
      let* b := row_get 2 q 1 (location - 1) in
      row_put 2 1 location b q) (queue s)) in
  let! q := use (row_put 2 0 insert_point node q) in
  let! q := use (row_put 2 1 insert_point degree q) in
  assign (set_queue q) ;!
  let! k := use (ck_int (nqueue s + 1)) in
  assign (set_nqueue k) ;!
  use (ck_int (nhere + 1)).

(** One end of an edge. *)
Definition rcm_visit r (col ref nhere : Z) : fn RCM Z :=
  let! other := use (ref_edge_e2n r col ref) in
  let! s := state in
  let! o := use (aget (o2n s) other) in
  if REF_EMPTY =? o then
    update (fun s => let* a := aset (o2n s) other (-2) in Some (set_o2n a s)) ;!
    let! degree := ask (ref_adj_degree (edge_adj r) other) in
    ref_edge_rcm_queue_node other degree nhere
  else fret nhere.

Definition ref_edge_rcm_queue r (node : Z) : fn RCM unit :=
  let! s := state in
  update (fun s => let* a := aset (n2o s) (ndone s) node in Some (set_n2o a s)) ;!
  update (fun s => let* a := aset (o2n s) node (ndone s) in Some (set_o2n a s)) ;!
  update (fun s => let* k := ck_int (ndone s + 1) in Some (set_ndone k s)) ;!
  let! nhere :=
    through_acc (fun body => each_ref_adj_node_item_with_ref (edge_adj r) node (fun _ => body))
      (fun ref nhere =>
        let! nhere := rcm_visit r 0 ref nhere in
        rcm_visit r 1 ref nhere) 0 in
  fret tt.

(** [while (nqueue > 0)] *)
Definition rcm_drain (fuel : nat) r : fn RCM unit :=
  again fuel (fun (_ : unit) =>
    let! s := state in
    if 0 <? nqueue s then
      let! min_degree_node := use (row_get 2 (queue s) 0 (nqueue s - 1)) in
      let! min_degree := use (row_get 2 (queue s) 1 (nqueue s - 1)) in
      assign (set_nqueue (nqueue s - 1)) ;!
      ref_edge_rcm_queue r min_degree_node ;!
      fret (Next tt)
    else fret (Exit tt)) tt.

(** [while (ndone < ref_node_n(ref_node))], and one turn of it. *)
Definition rcm_turn (fuel : nat) n r (_ : unit) : fn RCM (ctl unit unit) :=
  let! s := state in
  if ndone s <? node_n n then
    let! '(min_degree, min_degree_node) := ask (ref_edge_min_degree_node n r (o2n s)) in
    ref_edge_rcm_queue r min_degree_node ;!
    rcm_drain fuel r ;!
    fret (Next tt)
  else fret (Exit tt).
Definition rcm_order (fuel : nat) n r : fn RCM unit := again fuel (rcm_turn fuel n r) tt.

(** The reversal of [n2o], through the queue, and [o2n] from it. *)
Definition rcm_reverse : fn RCM unit :=
  update (fun s =>
    let* q :=
      for_up 0 (ndone s) (fun node q =>
        let* v := aget (n2o s) node in aset q (ndone s - node - 1) v) (queue s) in
    let* m :=
      for_up 0 (ndone s) (fun node m => let* v := aget q node in aset m node v) (n2o s) in
    let* a :=
      for_up 0 (ndone s) (fun node a => let* v := aget m node in aset a v node) (o2n s) in
    Some (mkRCM a m (ndone s) q (nqueue s))).

(** [o2n] and [n2o], empty while they are [NULL]. *)
Definition ref_edge_rcm n r : option (REF_STATUS * (list Z * list Z)) :=
  let none := ([], []) in
  let fuel := S (Z.to_nat (node_n n)) in
  let* '(st, old) := malloc_empty (node_max n) in
  RSS st none (
  let '(st, new) := ref_malloc (node_n n) in
  RSS st none (
  let* size := ck_int (2 * node_n n) in
  let '(st, q) := ref_malloc size in
  RSS st none (
  let* '(st, s) :=
    body (
      rcm_order fuel n r ;!
      let! s := state in
      require (ndone s =? node_n n) ;!
      rcm_reverse) (mkRCM old new 0 q 0) in
  RSS st none (
  Some (REF_SUCCESS, (o2n s, n2o s)))))).
End ops.

(** ** The list of the edges *)

Definition edge_rows (r : REF_EDGE) : list (list Z) := listed 2 (edge_n r) (default [] (edge_arr r)).

Record edge_wf (r : REF_EDGE) : Prop := {
  ew_arr : exists a, edge_arr r = Some a /\ zlen a = 2 * edge_max r;
  ew_max : 2 * edge_max r <= REF_INT_MAX;
  ew_n : 0 <= edge_n r <= edge_max r;
  ew_adj : adj_wf (edge_adj r);
  ew_index : indexed (edge_adj r) (edge_rows r)
}.

(** The row is the edge, in one direction or the other. *)
Definition same_edge (node0 node1 : Z) (l : list Z) : Prop := l = [node0; node1] \/ l = [node1; node0].
#[global] Instance same_edge_dec node0 node1 l : Decision (same_edge node0 node1 l).
Proof. unfold same_edge. apply _. Defined.
Lemma same_edge_sym a b l : same_edge a b l -> same_edge b a l.
Proof. unfold same_edge. tauto. Qed.

(** Rows that are the same edge. *)
Definition same_ends (l l' : list Z) : Prop := l = l' \/ l = reverse l'.
#[global] Instance same_ends_dec : RelDecision same_ends.
Proof. intros l l'. unfold same_ends. apply _. Defined.
#[global] Instance same_ends_equiv : Equivalence same_ends.
Proof.
  split; [by left|by intros l l' [->| ->]; [left|right; rewrite reverse_involutive]|].
  intros l1 l2 l3 [->| ->] [->| ->]; [by left|by right|by right|left; by rewrite reverse_involutive].
Qed.
Lemma same_ends_edge a b l : same_ends [a; b] l <-> same_edge a b l.
Proof.
  unfold same_ends, same_edge. change [b; a] with (reverse [a; b]).
  split; (intros [->| ->]; [by left|right; by rewrite ?reverse_involutive]).
Qed.

Lemma exists_same_ends a b rows : Exists (same_ends [a; b]) rows <-> Exists (same_edge a b) rows.
Proof. rewrite !Exists_exists. by setoid_rewrite same_ends_edge. Qed.

(** An edge that is not in the list goes to its end. *)
Definition add_edge (rows : list (list Z)) (e : Z * Z) : list (list Z) := add_row same_ends rows [e.1; e.2].
Lemma fold_add_edge_rows l rows : fold_left add_edge l rows = fold_left (add_row same_ends) (map (fun e => [e.1; e.2]) l) rows.
Proof. revert rows. induction l as [|e l IH]; intros rows; [done|]. cbn [map fold_left]. apply IH. Qed.

(** The array can grow once more from as many edges. *)
Definition EDGE_LIMIT : Z := 400000000.

Lemma zlen_edge_rows r : edge_wf r -> zlen (edge_rows r) = edge_n r.
Proof. intros [_ _ Hn _ _]. apply zlen_listed. lia. Qed.

Lemma row_pair a row : row_of 2 a row = [a.[0 + 2 * row]; a.[1 + 2 * row]].
Proof. done. Qed.

Lemma e2n_ok r node edge :
  edge_wf r -> 0 <= node < 2 -> 0 <= edge < edge_n r -> ref_edge_e2n r node edge = Some (edge_rows r).[edge].[node].
Proof.
  intros [(a & Ha & Hz) Hmax Hn _ _] Hnode He. unfold ref_edge_e2n, edge_rows. rewrite Ha. cbn [obind default].
  rewrite aat_listed by lia. rewrite (row_get_eq 2 (edge_max r)) by lia. by rewrite aat_row_of by lia.
Qed.

Section ops.
Context {D : Type} `{Dbl D, Junk Z, Junk REF_ADJ_ITEM}.
Implicit Types (r : REF_EDGE) (g : REF_GRID D) (n : REF_NODE D).

Lemma edge_row_shape r edge : edge_wf r -> 0 <= edge < edge_n r ->
  exists a b, (edge_rows r).[edge] = [a; b].
Proof. intros Hwf He. unfold edge_rows. rewrite aat_listed by done. rewrite row_pair. eauto. Qed.

Lemma ref_edge_with_ok r node0 node1 :
  edge_wf r ->
  wp (ref_edge_with r node0 node1) (fun '(st, edge) =>
    if decide (Exists (same_edge node0 node1) (edge_rows r))
    then st = REF_SUCCESS /\ 0 <= edge < edge_n r /\ same_edge node0 node1 (edge_rows r).[edge]
    else st = REF_NOT_FOUND /\ edge = REF_EMPTY).
Proof.
  intros Hwf. pose proof Hwf as [_ _ Hn Hadj Hidx]. unfold ref_edge_with. rewrite each_ref_adj_refs by done.
  apply wp_bind, (wp_forl (fun pre _ => forall c, c ∈ pre -> ~ same_edge node0 node1 (edge_rows r).[c])
    (fun x => x.1 = REF_SUCCESS /\ 0 <= x.2 < edge_n r /\ same_edge node0 node1 (edge_rows r).[x.2])).
  - intros c Hc. by apply not_elem_of_nil in Hc.
  - intros pre c post [] Hl Hpre. assert (Hin : c ∈ adj_refs (edge_adj r) node0) by (rewrite Hl; set_solver).
    apply (elem_of_indexed _ _ _ _ Hidx) in Hin as [Hc _]. rewrite zlen_edge_rows in Hc by done.
    rewrite !e2n_ok by (done || lia). cbn [obind]. destruct (edge_row_shape r c Hwf Hc) as (a & b & Hab). rewrite Hab.
    change ([a; b].[0]) with a. change ([a; b].[1]) with b.
    assert (Hiff : ((a =? node0) && (b =? node1)) || ((a =? node1) && (b =? node0)) = true <-> same_edge node0 node1 [a; b]).
    { unfold same_edge. rewrite orb_true_iff, !andb_true_iff, !Z.eqb_eq.
      split; [intros [[-> ->]|[-> ->]]; tauto|intros [[= -> ->]|[= -> ->]]; tauto]. }
    destruct (_ || _); apply wp_ret; cbn.
    + rewrite Hab. split; [done|]. split; [done|]. by apply Hiff.
    + intros c' [Hc'|Hc']%elem_of_app; [by apply Hpre|]. apply list_elem_of_singleton in Hc' as ->. rewrite Hab.
      intros Hs. by apply Hiff in Hs.
  - intros [] Hnone. apply wp_ret. rewrite decide_False; [done|]. intros (l & Hl & Hs)%Exists_exists.
    apply elem_of_aat in Hl as (c & Hc & <-). apply (Hnone c); [|done]. apply (elem_of_indexed _ _ _ _ Hidx).
    split; [done|]. destruct Hs as [-> | ->]; set_solver.
  - intros [st edge] (Hst & He & Hs). cbn in *. apply wp_ret. rewrite decide_True; [done|].
    apply Exists_exists. eexists. split; [|exact Hs]. apply elem_of_aat. exists edge. by rewrite zlen_edge_rows.
Qed.

Lemma edge_grow_ok r :
  edge_wf r -> edge_n r < EDGE_LIMIT ->
  wp (edge_grow r) (fun r' => edge_wf r' /\ edge_rows r' = edge_rows r /\ edge_n r' = edge_n r /\
    edge_adj r' = edge_adj r /\ edge_n r' < edge_max r').
Proof.
  intros Hwf Hlim. pose proof Hwf as [(a & Ha & Hz) Hmax Hn Hadj Hidx]. unfold edge_grow, EDGE_LIMIT in *.
  destruct (Z.leb_spec (edge_max r) (edge_n r)); [|by apply wp_ret].
  assert (Hnm : edge_n r = edge_max r) by lia. pose proof (half_more_bounds (edge_max r) ltac:(lia)).
  set (max := edge_max r + Z.max 5000 (half_more (edge_max r))).
  assert (Hb : edge_max r < max /\ 2 * max <= REF_INT_MAX) by (pose proof (half_more_double (edge_max r)); unfold REF_INT_MAX; lia).
  wp_go; unfold REF_INT_MAX, REF_INT_MIN in *; try lia. rewrite Ha. apply wp_ret, wp_bind. fold max.
  apply (wp_for_up (fun _ a' => zlen a' = 2 * max /\
    forall col row, 0 <= col < 2 -> 0 <= row < edge_max r -> a'.[col + 2 * row] = a.[col + 2 * row])); [lia| | |].
  - split; [by apply zlen_realloc; lia|]. intros col row Hcol Hrow. apply aat_realloc; lia.
  - intros i a' Hi [Hl He]. apply wp_bind, (wp_row_put 2 max); [lia|unfold REF_INT_MAX; lia|done|lia|lia|].
    apply (wp_row_put 2 max); [lia|unfold REF_INT_MAX; lia|by rewrite zlen_upd|lia|lia|].
    split; [by rewrite !zlen_upd|]. intros col row Hcol Hrow. rewrite !aat_upd by (rewrite ?zlen_upd; lia).
    rewrite <- He by done. repeat case Z.eqb_spec; lia.
  - intros a' [Hl He]. apply wp_ret. assert (Hrows : edge_rows (set_edge_arr max a' r) = edge_rows r).
    { unfold edge_rows. rewrite Ha. cbn. apply listed_ext. intros col row Hcol Hrow. apply He; lia. }
    split; [|cbn; split; [exact Hrows|split; [done|split; [done|lia]]]].
    constructor; cbn; [by exists a'|unfold REF_INT_MAX; lia|lia|done|]. by rewrite Hrows.
Qed.

Lemma edge_register_ok col edge r v (Q : unit -> REF_EDGE -> Prop) E :
  ref_edge_e2n r col edge = Some v -> adj_wf (edge_adj r) -> 0 <= v <= NODE_LIMIT ->
  (forall k, refs_total (adj_refs (edge_adj r)) k < REF_INT_MAX) ->
  (forall adj, adj_wf adj -> (forall k, refs_total (adj_refs adj) k <= refs_total (adj_refs (edge_adj r)) k + 1) ->
     (forall w c, occ (adj_refs adj w) c =
        occ (adj_refs (edge_adj r) w) c + Z.b2z (edge =? c) * Z.b2z (v =? w)) -> Q tt (set_edge_adj adj r)) ->
  fwp (edge_register col edge) Q E r.
Proof.
  intros Hv Hadj Hlim Htot HQ. apply fwp_bind, fwp_state, fwp_bind, fwp_use. rewrite Hv. apply wp_ret, fwp_call, wp_bind.
  eapply wp_mono; [by apply adj_add_occ|]. intros [st adj] (-> & Hwf & Ht & Ho). apply wp_ret. rewrite decide_True by done.
  by apply HQ.
Qed.

Lemma put_e2n_ok node edge v r a :
  edge_arr r = Some a -> zlen a = 2 * edge_max r -> 2 * edge_max r <= REF_INT_MAX -> 0 <= node < 2 -> 0 <= edge < edge_max r ->
  put_e2n node edge v r = Some (set_edge_arr (edge_max r) (upd a (node + 2 * edge) v) r).
Proof.
  intros Ha Hz Hmax Hnode He. unfold put_e2n. rewrite Ha. apply wp_eq, wp_bind, wp_ret, wp_bind.
  apply (wp_row_put 2 (edge_max r)); [lia|done|done|done|done|]. by apply wp_ret.
Qed.

Lemma ref_edge_uniq_ok r node0 node1 :
  edge_wf r -> edge_n r < EDGE_LIMIT -> 0 <= node0 <= NODE_LIMIT -> 0 <= node1 <= NODE_LIMIT ->
  wp (ref_edge_uniq node0 node1 r) (fun '(st, r') =>
    st = REF_SUCCESS /\ edge_wf r' /\ edge_rows r' = add_edge (edge_rows r) (node0, node1)).
Proof.
  intros Hwf Hlim H0' H1'. unfold add_edge, add_row. cbn [fst snd]. apply wp_body, fwp_bind, fwp_state, fwp_bind, fwp_ask_or.
  eapply wp_mono; [by apply ref_edge_with_ok|]. intros [st edge].
  pose proof (exists_same_ends node0 node1 (edge_rows r)) as Hiff. case_decide as Hex; [intros (-> & He & _)|intros [-> ->]].
  { rewrite decide_True by (by left). rewrite decide_True by (by apply Hiff). destruct (Z.eqb_spec REF_EMPTY edge); [unfold REF_EMPTY in *; lia|]. by apply fwp_leave. }
  rewrite decide_True by (by right). rewrite decide_False by (by rewrite Hiff). change (negb (REF_EMPTY =? REF_EMPTY)) with false. cbv iota.
  apply fwp_bind, fwp_update. eapply wp_mono; [by apply edge_grow_ok|].
  intros r1 (Hwf1 & Hrows1 & Hn1 & _ & Hroom). apply fwp_bind, fwp_state. rewrite <- Hrows1.
  assert (Hlim1 : edge_n r1 < EDGE_LIMIT) by (by rewrite Hn1). clear Hlim Hwf Hrows1 Hn1 Hex Hiff r. rename r1 into r.
  pose proof Hwf1 as [(a & Ha & Hz) Hmax Hn Hadj Hidx]. set (edge := edge_n r).
  apply fwp_bind, fwp_update, wp_bind, wp_ck_int; [unfold REF_INT_MIN, REF_INT_MAX in *; lia|]. apply wp_ret.
  apply fwp_bind, fwp_update. rewrite (put_e2n_ok 0 edge node0 _ a) by (done || (cbn; lia)). apply wp_ret. cbn [set_edge_n edge_max].
  apply fwp_bind, fwp_update. rewrite (put_e2n_ok 1 edge node1 _ (upd a (0 + 2 * edge) node0))
    by (done || (cbn; rewrite ?zlen_upd; lia)). apply wp_ret. cbn [set_edge_arr edge_max edge_n edge_adj].
  set (a2 := upd (upd a (0 + 2 * edge) node0) (1 + 2 * edge) node1).
  assert (Hrow : row_of 2 a2 edge = [node0; node1]).
  { rewrite row_pair. unfold a2. rewrite !aat_upd by (rewrite ?zlen_upd; lia).
    repeat case Z.eqb_spec; intros; (done || lia). }
  assert (Hz2 : zlen a2 = 2 * edge_max r) by (unfold a2; by rewrite !zlen_upd).
  assert (Hlist : listed 2 (edge + 1) a2 = edge_rows r ++ [[node0; node1]]).
  { rewrite listed_S, Hrow by lia. f_equal. unfold edge_rows. rewrite Ha. cbn. apply listed_ext. intros col row Hcol Hrow'.
    unfold a2. rewrite !aat_upd by (rewrite ?zlen_upd; lia). repeat case Z.eqb_spec; intros; (done || lia). }
  assert (Hget : forall col m adj, 0 <= col < 2 ->
    ref_edge_e2n (mkREF_EDGE m (edge_max r) (Some a2) adj) col edge = Some [node0; node1].[col]).
  { intros col m adj Hcol. unfold ref_edge_e2n. cbn [edge_arr obind]. rewrite (row_get_eq 2 (edge_max r)) by lia.
    by rewrite <- Hrow, aat_row_of by lia. }
  assert (Htot : forall k, refs_total (adj_refs (edge_adj r)) k + 2 < REF_INT_MAX).
  { intros k. pose proof (indexed_total _ _ 2 k ltac:(lia) Hidx) as Ht. rewrite zlen_edge_rows in Ht by done.
    unfold EDGE_LIMIT, REF_INT_MAX in *. enough (Forall (fun l => zlen l <= 2) (edge_rows r)) as Hall by (specialize (Ht Hall); lia).
    apply Forall_forall. intros l Hl. apply elem_of_aat in Hl as (c & Hc & <-). rewrite zlen_edge_rows in Hc by done.
    destruct (edge_row_shape r c Hwf1 Hc) as (x & y & ->). done. }
  apply fwp_bind, (edge_register_ok 0 edge _ node0); [by apply Hget|done|done|cbn; intros k; specialize (Htot k); lia|].
  cbn [edge_adj set_edge_adj set_edge_arr set_edge_n edge_n edge_max edge_arr]. intros adj1 Hadj1 Ht1 Ho1.
  apply (edge_register_ok 1 edge _ node1); [by apply Hget|done|done|intros k; specialize (Htot k); specialize (Ht1 k); cbn [edge_adj set_edge_adj]; lia|].
  cbn [edge_adj set_edge_adj set_edge_arr set_edge_n edge_n edge_max edge_arr]. intros adj2 Hadj2 _ Ho2. split; [done|].
  assert (Hrows2 : edge_rows (mkREF_EDGE (edge + 1) (edge_max r) (Some a2) adj2) = edge_rows r ++ [[node0; node1]]) by exact Hlist.
  split; [|exact Hrows2]. change (edge_wf (mkREF_EDGE (edge + 1) (edge_max r) (Some a2) adj2)). constructor; [by exists a2|done|cbn; lia|done|]. rewrite Hrows2. cbn [edge_adj].
  eapply indexed_app; [exact Hidx|]. intros v c. rewrite Ho2, Ho1, zlen_edge_rows, !occ_cons, occ_nil by done. fold edge.
  destruct (edge =? c); cbn [Z.b2z]; lia.
Qed.
End ops.

(** ** All edges of a grid *)

(** The edges of an element, of the elements of a type, and of the types that the
    builder goes through. *)
Definition element_edges (c : REF_CELL) (entries : list Z) : list (Z * Z) :=
  map (fun e => (edge_node c entries 0 e, edge_node c entries 1 e)) (zrange (ref_cell_edge_per c)).
Definition cell_edges (c : REF_CELL) : list (Z * Z) := cell_items (element_edges c) c.
Definition grid_edges {D} (g : REF_GRID D) : list (Z * Z) :=
  (types_3d ++ types_2d) ≫= fun type => cell_edges (grid_cell g type).

Definition has_edges (l : list (Z * Z)) (r : REF_EDGE) : Prop := edge_wf r /\ edge_rows r = fold_left add_edge l [].

Lemma zlen_add_edges l : zlen (fold_left add_edge l []) <= zlen l.
Proof.
  rewrite fold_add_edge_rows. etransitivity; [apply zlen_add_rows; apply _|]. rewrite zlen_nil. unfold zlen. by rewrite length_map.
Qed.

Section create.
Context {D : Type} `{Dbl D, Junk Z, Junk REF_ADJ_ITEM}.
Implicit Types (r : REF_EDGE) (g : REF_GRID D).

Lemma has_edges_step l r a b (Q : unit -> REF_EDGE -> Prop) E :
  has_edges l r -> zlen l < EDGE_LIMIT -> 0 <= a <= NODE_LIMIT -> 0 <= b <= NODE_LIMIT ->
  (forall r', has_edges (l ++ [(a, b)]) r' -> Q tt r') -> fwp (call (ref_edge_uniq a b)) Q E r.
Proof.
  intros [Hwf Hrows] Hl Ha Hb HQ. apply fwp_call. eapply wp_mono.
  - apply ref_edge_uniq_ok; [done| |done|done]. rewrite <- zlen_edge_rows, Hrows by done.
    pose proof (zlen_add_edges l). lia.
  - intros [st r'] (-> & Hwf' & Hrows'). rewrite decide_True by done. apply HQ. split; [done|].
    by rewrite fold_left_app, <- Hrows, Hrows'.
Qed.

Lemma edges_of_type_ok g type bl l r (Q : unit -> REF_EDGE -> Prop) E :
  cell_wf (grid_cell g type) bl -> has_edges l r ->
  zlen l + zlen (cell_edges (grid_cell g type)) <= EDGE_LIMIT ->
  (forall r', has_edges (l ++ cell_edges (grid_cell g type)) r' -> Q tt r') ->
  fwp (edges_of_type g type) Q E r.
Proof.
  intros Hwf Hr Hlim HQ. set (c := grid_cell g type) in *. pose proof (edge_per_nonneg c bl Hwf) as Hper.
  apply (fwp_each_valid_cell has_edges (element_edges c) c bl _ l); [done|done| |done].
  intros cell e pre r1 He Hpre Hr1.
  apply (fwp_count_items has_edges (fun e0 => (edge_node c e 0 e0, edge_node c e 1 e0)) _ _ (l ++ pre)); [exact Hper|done| |done].
  intros k r2 Hk Hr2. change (0 <= k < ref_cell_edge_per c) in Hk. fold c. rewrite !(ref_cell_e2n_ok c bl Hwf cell e) by (done || lia).
  apply fwp_bind, fwp_use, wp_ret, fwp_bind, fwp_use, wp_ret.
  assert (Hnode : forall node, 0 <= node < 2 -> 0 <= edge_node c e node k <= NODE_LIMIT).
  { intros node Hnode. pose proof (cw_nodes _ _ Hwf cell e He) as Hall. rewrite Forall_forall in Hall. apply Hall.
    by eapply edge_node_in. }
  eapply has_edges_step; [exact Hr2| |by apply Hnode|by apply Hnode|done].
  fold (cell_edges c) in Hpre. unfold element_edges in Hpre at 1. rewrite !zlen_app, !zlen_map in *.
  rewrite zlen_zrange in * by lia. lia.
Qed.
End create.

Lemma elem_of_grid_edges {D} (g : REF_GRID D) e :
  e ∈ grid_edges g <-> exists type cell entries k, type ∈ types_3d ++ types_2d /\
    cell_at (grid_cell g type) cell = Some entries /\ 0 <= k < ref_cell_edge_per (grid_cell g type) /\
    e = (edge_node (grid_cell g type) entries 0 k, edge_node (grid_cell g type) entries 1 k).
Proof.
  unfold grid_edges. rewrite list_elem_of_bind. split.
  - intros (type & He & Ht). apply elem_of_cell_items in He as (cell & entries & Hat & He).
    apply list_elem_of_fmap in He as (k & -> & Hk%elem_of_zrange). by exists type, cell, entries, k.
  - intros (type & cell & entries & k & Ht & Hat & Hk & ->). exists type. split; [|done].
    apply elem_of_cell_items. exists cell, entries. split; [done|]. apply list_elem_of_fmap. exists k.
    split; [done|by apply elem_of_zrange].
Qed.

Section create.
Context {D : Type} `{Dbl D, Junk Z, Junk REF_ADJ_ITEM}.
Implicit Types (r : REF_EDGE) (g : REF_GRID D).

Lemma edges_of_types_ok g types l r (Q : unit -> REF_EDGE -> Prop) E :
  Forall (fun type => exists bl, cell_wf (grid_cell g type) bl) types -> has_edges l r ->
  zlen l + zlen (types ≫= fun type => cell_edges (grid_cell g type)) <= EDGE_LIMIT ->
  (forall r', has_edges (l ++ (types ≫= fun type => cell_edges (grid_cell g type))) r' -> Q tt r') ->
  fwp (each types (edges_of_type g)) Q E r.
Proof.
  intros Hwf Hr Hlim HQ. apply (fwp_each_bind has_edges (fun type => cell_edges (grid_cell g type)) _ _ l); [done| |done].
  intros type pre r1 Ht Hpre Hr1. rewrite Forall_forall in Hwf. destruct (Hwf type Ht) as [bl Hbl].
  eapply edges_of_type_ok; [exact Hbl|exact Hr1|rewrite zlen_app; lia|done].
Qed.

Lemma ref_edge_create_ok g :
  Forall (fun type => exists bl, cell_wf (grid_cell g type) bl) (types_3d ++ types_2d) ->
  0 <= node_n (grid_node g) <= 100000000 -> zlen (grid_edges g) <= EDGE_LIMIT ->
  wp (ref_edge_create g) (fun '(st, r) => st = REF_SUCCESS /\ has_edges (grid_edges g) r).
Proof.
  intros Hwf Hn Hlim. apply Forall_app in Hwf as [H3 H2']. unfold grid_edges in *. rewrite bind_app in *. rewrite zlen_app in Hlim.
  set (l3 := types_3d ≫= _) in *. set (l2 := types_2d ≫= _) in *. pose proof (zlen_nonneg l3). pose proof (zlen_nonneg l2).
  apply wp_bind. eapply wp_mono; [exact ref_adj_create_ok|]. intros [st adj] (-> & Hadj & Hempty). cbn [RSS].
  apply wp_body, fwp_bind, fwp_bind, fwp_state. cbn [edge_arr]. apply fwp_bind, fwp_require; [intros _|done].
  apply fwp_bind, fwp_use, wp_ck_int; [unfold REF_INT_MIN, REF_INT_MAX; lia|].
  apply fwp_bind, fwp_use, wp_ck_int; [unfold REF_INT_MIN, REF_INT_MAX; lia|].
  set (max := Z.max 100 (8 * node_n (grid_node g))).
  apply fwp_bind, fwp_ask. eapply wp_mono; [apply malloc_empty_ok; lia|]. intros [st a] (-> & Hz & _). rewrite decide_True by done.
  apply fwp_assign. cbn [set_edge_arr edge_n edge_adj].
  assert (Hstart : has_edges [] (mkREF_EDGE 0 max (Some a) adj)).
  { split; [|done]. constructor; cbn; [by exists a|unfold REF_INT_MAX; lia|lia|done|]. by apply indexed_nil. }
  apply fwp_bind, (edges_of_types_ok g types_3d [] _ _ _ H3 Hstart); [fold l3; change (zlen (@nil (Z * Z))) with 0; lia|].
  intros r1 Hr1. apply (edges_of_types_ok g types_2d _ _ _ _ H2' Hr1); [fold l2; cbn [app]; fold l3; lia|].
  intros r2 Hr2. split; [done|]. exact Hr2.
Qed.
End create.

(** C34. [ref_edge_create] on a grid whose elements are in order: it always succeeds, and
    the edges of the result are those of the three- and two-dimensional elements, each
    once, in the order in which the loops meet them. *)
Theorem ref_edge_create_lists_edges {D : Type} `{Dbl D, Junk Z, Junk REF_ADJ_ITEM} (g : REF_GRID D) :
  Forall (fun type => exists bl, cell_wf (grid_cell g type) bl) (types_3d ++ types_2d) ->
  0 <= node_n (grid_node g) <= 100000000 -> zlen (grid_edges g) <= EDGE_LIMIT ->
  exists r, ref_edge_create g = Some (REF_SUCCESS, r) /\ edge_wf r /\
    edge_rows r = fold_left add_edge (grid_edges g) [] /\
    (forall i j a b, 0 <= i < edge_n r -> 0 <= j < edge_n r ->
       same_edge a b (edge_rows r).[i] -> same_edge a b (edge_rows r).[j] -> i = j) /\
    forall a b, Exists (same_edge a b) (edge_rows r) <->
      exists type cell entries, type ∈ types_3d ++ types_2d /\ cell_at (grid_cell g type) cell = Some entries /\
        has_edge_between (grid_cell g type) entries a b = true.
Proof.
  intros Hwf Hn Hlim. destruct (ref_edge_create_ok g Hwf Hn Hlim) as ([st r] & Heq & -> & Hr & Hrows).
  destruct (fold_add_row same_ends (map (fun e => [e.1; e.2]) (grid_edges g)) []) as [Hu Hhas].
  exists r. split; [done|]. split; [done|]. split; [done|]. rewrite fold_add_edge_rows in Hrows. split.
  - rewrite <- zlen_edge_rows, Hrows by done. intros i j a b Hi Hj Hsi Hsj. apply Hu; [apply each_once_nil|done|done|].
    rewrite <- same_ends_edge in Hsi, Hsj. by rewrite <- Hsi.
  - intros a b. rewrite <- exists_same_ends, Hrows, Hhas, Exists_nil. split.
    + intros [[]|(x & (e & -> & He)%list_elem_of_fmap & Hs%same_ends_edge)].
      apply elem_of_grid_edges in He as (type & cell & entries & k & Ht & Hat & Hk & ->).
      exists type, cell, entries. split; [done|]. split; [done|]. apply existsb_elem_of. exists k.
      split; [by apply elem_of_zrange|]. cbn [fst snd] in Hs. rewrite orb_true_iff, !andb_true_iff, !Z.eqb_eq.
      destruct Hs as [[= -> ->]|[= -> ->]]; tauto.
    + intros (type & cell & entries & Ht & Hat & (k & Hk%elem_of_zrange & Hb)%existsb_elem_of). right.
      eexists. split; [apply list_elem_of_fmap; eexists; split; [done|apply elem_of_grid_edges; by exists type, cell, entries, k]|].
      cbn [fst snd]. apply same_ends_edge.
      rewrite orb_true_iff, !andb_true_iff, !Z.eqb_eq in Hb. destruct Hb as [[-> ->]|[-> ->]]; [by left|by right].
Qed.

#[local] Existing Instances NodeExample.double NodeExample.junk_double NodeExample.junk_int ReplaceExample.junk_item.

Module EdgeExample.
Notation grid := SwapExample.grid.
Lemma all_wf type : exists bl, cell_wf (grid_cell grid type) bl.
Proof.
  apply ReplaceExample.cells_wf; [|by destruct type; vm_compute].
  unfold ReplaceExample.elements. apply Forall_fmap. destruct type; try apply Forall_nil_2;
    apply (bool_decide_unpack _); vm_compute; exact I.
Qed.
Lemma types_wf : Forall (fun type => exists bl, cell_wf (grid_cell grid type) bl) (types_3d ++ types_2d).
Proof. apply Forall_forall. intros type _. apply all_wf. Qed.
End EdgeExample.

Lemma ref_edge_create_lists_edges_witness :
  let g := SwapExample.grid in
  (node_n (grid_node g) = 6 /\ zlen (grid_edges g) = 42) /\
  (let* '(st, r) := ref_edge_create g in Some (st, edge_n r)) = Some (REF_SUCCESS, 12) /\
  exists r, ref_edge_create g = Some (REF_SUCCESS, r) /\ edge_wf r /\
    edge_rows r = fold_left add_edge (grid_edges g) [] /\
    (forall i j a b, 0 <= i < edge_n r -> 0 <= j < edge_n r ->
       same_edge a b (edge_rows r).[i] -> same_edge a b (edge_rows r).[j] -> i = j) /\
    forall a b, Exists (same_edge a b) (edge_rows r) <->
      exists type cell entries, type ∈ types_3d ++ types_2d /\ cell_at (grid_cell g type) cell = Some entries /\
        has_edge_between (grid_cell g type) entries a b = true.
Proof.
  split; [split; vm_compute; reflexivity|]. split; [vm_compute; reflexivity|].
  apply (ref_edge_create_lists_edges SwapExample.grid); [exact EdgeExample.types_wf|vm_compute; split; congruence|vm_compute; congruence].
Defined.
