(* ===== verification/RefFace.v ===== *)
(** * ref_face.c: the faces of a grid

    [ref_face_create] lists each face of the elements once, as the four nodes of a row;
    a triangle repeats its first node. Faces are compared by the sorted nodes. *)
From S2P Require Import Prelude Rows Effect RefSort RefAdj RefDbl RefMatrix RefMpi RefNode RefCellType RefCell RefCellSpec RefCellQuery RefGeom RefGrid RefMeasure RefCavity RefCavityTable RefCavityReplace RefCavityForm RefCavitySwap RowList ElementLoops RefEdge.
From stdpp Require Import prelude list sorting gmap.
From Stdlib Require Import ZArith Lia SpecFloat.
Open Scope Z_scope.
Open Scope ref_scope.

Record REF_FACE := mkREF_FACE {
  face_n : Z;
  face_max : Z;
  face_arr : list Z;
  face_adj : REF_ADJ
}.
Definition set_face_n (x : Z) (r : REF_FACE) := mkREF_FACE x (face_max r) (face_arr r) (face_adj r).
Definition set_face_arr (max : Z) (x : list Z) (r : REF_FACE) := mkREF_FACE (face_n r) max x (face_adj r).
Definition set_face_adj (x : REF_ADJ) (r : REF_FACE) := mkREF_FACE (face_n r) (face_max r) (face_arr r) x.

(** [ref_face_f2n], read and written. *)
Definition ref_face_f2n (r : REF_FACE) (node face : Z) : option Z := row_get 4 (face_arr r) node face.
Definition put_f2n (node face v : Z) (r : REF_FACE) : option REF_FACE :=
  let* a := row_put 4 node face v (face_arr r) in
  Some (set_face_arr (face_max r) a r).

Section ops.
Context {D : Type} `{Dbl D, Junk Z, Junk REF_ADJ_ITEM}.
Implicit Types (r : REF_FACE) (g : REF_GRID D) (n : REF_NODE D).

(** [canonical] after the call. *)
Definition ref_face_make_canonical (original canonical : list Z) : option (REF_STATUS * list Z) :=
  let* '(st, canonical) := ref_sort_insertion_int 4 original canonical in
  RSS st canonical (
  let* c0 := aget canonical 0 in
  let* c1 := aget canonical 1 in
  if c0 =? c1 then
    let* canonical := aset canonical 0 REF_EMPTY in
    Some (REF_SUCCESS, canonical)
  else
    let* c2 := aget canonical 2 in
    if c1 =? c2 then
      let* canonical := aset canonical 1 c0 in
      let* canonical := aset canonical 0 REF_EMPTY in
      Some (REF_SUCCESS, canonical)
    else
      let* c3 := aget canonical 3 in
      if c2 =? c3 then
        let* canonical := aset canonical 2 c1 in
        let* canonical := aset canonical 1 c0 in
        let* canonical := aset canonical 0 REF_EMPTY in
        Some (REF_SUCCESS, canonical)
      else Some (REF_SUCCESS, canonical)).

(** The four entries of two arrays compared one by one. *)
Definition same_four (a b : list Z) : option bool :=
  let* a0 := aget a 0 in let* b0 := aget b 0 in
  if negb (a0 =? b0) then Some false else
  let* a1 := aget a 1 in let* b1 := aget b 1 in
  if negb (a1 =? b1) then Some false else
  let* a2 := aget a 2 in let* b2 := aget b 2 in
  if negb (a2 =? b2) then Some false else
  let* a3 := aget a 3 in let* b3 := aget b 3 in
  Some (a3 =? b3).

(** The nodes of a face of the list. *)
Definition face_nodes r (face : Z) : option (list Z) :=
  for_up 0 4 (fun node orig => let* v := ref_face_f2n r node face in aset orig node v) (alloc 4).

(** The integer is [*face]. *)
Definition ref_face_with r (nodes : list Z) : option (REF_STATUS * Z) :=
  let* '(st, target) := ref_face_make_canonical nodes (alloc 4) in
  RSS st REF_EMPTY (
  let* node0 := aget nodes 0 in
  let* c :=
    each_ref_adj_node_item_with_ref (face_adj r) node0 (fun _ ref (_ : unit) =>
      let* orig := face_nodes r ref in
      let* '(st, candidate) := ref_face_make_canonical orig (alloc 4) in
      match st with
      | REF_SUCCESS =>
          let* same := same_four target candidate in
          if same : bool then Some (Exit (REF_SUCCESS, ref)) else Some (Next tt)
      | _ => Some (Exit (st, REF_EMPTY))
      end) tt in
  Some (match c with Exit x => x | Next _ => (REF_NOT_FOUND, REF_EMPTY) end)).

(** Whether a node is one of the four of a face. *)
Definition face_has r (node ref : Z) : option bool :=
  let* v := ref_face_f2n r 0 ref in if node =? v then Some true else
  let* v := ref_face_f2n r 1 ref in if node =? v then Some true else
  let* v := ref_face_f2n r 2 ref in if node =? v then Some true else
  let* v := ref_face_f2n r 3 ref in Some (node =? v).

Definition ref_face_spanning r (node0 node1 : Z) : option (REF_STATUS * Z) :=
  let* c :=
    each_ref_adj_node_item_with_ref (face_adj r) node0 (fun _ ref (_ : unit) =>
      let* has0 := face_has r node0 ref in
      let* both := if has0 : bool then face_has r node1 ref else Some false in
      if both : bool then Some (Exit (REF_SUCCESS, ref)) else Some (Next tt)) tt in
  Some (match c with Exit x => x | Next _ => (REF_NOT_FOUND, REF_EMPTY) end).

(** The block that makes room. *)
Definition face_grow r : option REF_FACE :=
  if face_max r <=? face_n r then
    let* more := ck_int (half_more (face_max r)) in
    let chunk := Z.max 5000 more in
    let* max := ck_int (face_max r + chunk) in
    let* size := ck_int (4 * max) in
    Some (set_face_arr max (ref_realloc (face_arr r) size) r)
  else Some r.

Definition face_register (node face : Z) : fn REF_FACE unit :=
  let! r := state in
  let! v := use (ref_face_f2n r node face) in
  call (fun r => let* '(st, adj) := ref_adj_add (face_adj r) v face in Some (st, set_face_adj adj r)).

Definition ref_face_add_uniquely (nodes : list Z) : REF_FACE -> option (REF_STATUS * REF_FACE) := body (
  let! r := state in
  let! '(status, found) := use (ref_face_with r nodes) in
  (if bool_decide (status = REF_SUCCESS) then leave REF_SUCCESS else fret tt) ;!
  (if bool_decide (status = REF_NOT_FOUND) then fret tt else leave status) ;!
  update face_grow ;!
  let! r := state in
  let face := face_n r in
  update (fun r => let* n := ck_int (face_n r + 1) in Some (set_face_n n r)) ;!
  count 0 4 (fun node =>
    let! v := use (aget nodes node) in
    update (put_f2n node face v)) ;!
  count 0 3 (fun node => face_register node face) ;!
  let! r := state in
  let! v0 := use (ref_face_f2n r 0 face) in
  let! v3 := use (ref_face_f2n r 3 face) in
  if negb (v0 =? v3) then face_register 3 face else fret tt).

(** The elements of one type. *)
Definition faces_of_type g (type : REF_CELL_TYPE) : fn REF_FACE unit :=
  let ref_cell := grid_cell g type in
  each_valid_cell ref_cell (fun cell =>
    count 0 (ref_cell_face_per ref_cell) (fun cell_face =>
      let! nodes :=
        use (for_up 0 4 (fun node nodes =>
               let* v := ref_cell_f2n ref_cell node cell_face cell in aset nodes node v) (alloc 4)) in
      call (ref_face_add_uniquely nodes))).

Definition ref_face_create g : option (REF_STATUS * REF_FACE) :=
  let '(st, f2n) := ref_malloc (4 * 10) in
  let none := mkREF_FACE 0 10 [] (mkREF_ADJ 0 0 [] [] 0) in
  RSS st none (
  let* '(st, adj) := ref_adj_create in
  RSS st none (
  body (each (if grid_twod g then types_2d else types_3d) (faces_of_type g)) (mkREF_FACE 0 10 f2n adj))).

(** [part] after the call. *)
Definition ref_face_part r n (face : Z) : option (REF_STATUS * Z) :=
  let* v := ref_face_f2n r 0 face in
  let* global := ref_node_global n v in
  let* '(_, smallest_global_node) :=
    for_up 1 4 (fun node '(smallest_global, smallest_global_node) =>
      let* v := ref_face_f2n r node face in
      let* global := ref_node_global n v in
      if global <? smallest_global then Some (global, node)
      else Some (smallest_global, smallest_global_node)) (global, 0) in
  let* v := ref_face_f2n r smallest_global_node face in
  let* part := aget (node_part n) v in
  Some (REF_SUCCESS, part).
End ops.

(** ** Faces and their canonical form *)

(** Four corners, or three and the first again. *)
Definition face_ok (l : list Z) : Prop := exists a b c d,
  l = [a; b; c; d] /\ Forall (fun v => 0 <= v <= NODE_LIMIT) l /\ NoDup [a; b; c] /\ (d = a \/ d ∉ [a; b; c]).

(** The nodes without the repetition, and with [REF_EMPTY] in its place. *)
Definition corners (l : list Z) : list Z := if l.[0] =? l.[3] then ztake 3 l else l.
Definition canon (l : list Z) : list Z := if l.[0] =? l.[3] then REF_EMPTY :: ztake 3 l else l.

Definition same_nodes (l l' : list Z) : Prop := forall v, v ∈ l <-> v ∈ l'.
#[global] Instance same_nodes_dec : RelDecision same_nodes.
Proof.
  intros l l'. refine (cast_if (decide (Forall (fun v => v ∈ l') l /\ Forall (fun v => v ∈ l) l')));
    abstract (rewrite !Forall_forall in *; unfold same_nodes; naive_solver).
Defined.
#[global] Instance same_nodes_equiv : Equivalence same_nodes.
Proof.
  split; [done|intros l l' Hs v; symmetry; apply Hs|intros l1 l2 l3 H12 H23 v; by rewrite (H12 v), (H23 v)].
Qed.

Lemma face_ok_cases l : face_ok l ->
  (exists a b c, l = [a; b; c; a] /\ NoDup [a; b; c]) \/ (exists a b c d, l = [a; b; c; d] /\ NoDup l).
Proof.
  intros (a & b & c & d & -> & _ & Hnd & [->|Hd]); [left; eauto|right]. exists a, b, c, d. split; [done|].
  change [a; b; c; d] with ([a; b; c] ++ [d]). apply NoDup_app. split; [done|].
  split; [set_solver|apply NoDup_singleton].
Qed.

Lemma tri_corners a b c : corners [a; b; c; a] = [a; b; c] /\ canon [a; b; c; a] = [REF_EMPTY; a; b; c].
Proof. unfold corners, canon. change ([a; b; c; a].[0]) with a. change ([a; b; c; a].[3]) with a. by rewrite Z.eqb_refl. Qed.
Lemma quad_corners a b c d : NoDup [a; b; c; d] -> corners [a; b; c; d] = [a; b; c; d] /\ canon [a; b; c; d] = [a; b; c; d].
Proof.
  intros Hnd. unfold corners, canon. change ([a; b; c; d].[0]) with a. change ([a; b; c; d].[3]) with d.
  rewrite !NoDup_cons in Hnd. case Z.eqb_spec; [|done]. set_solver.
Qed.

Lemma face_corners l : face_ok l -> NoDup (corners l) /\ same_nodes (corners l) l /\ zlen (corners l) <= 4.
Proof.
  intros [(a & b & c & -> & Hnd)|(a & b & c & d & -> & Hnd)]%face_ok_cases.
  - rewrite (proj1 (tri_corners a b c)). split; [done|]. split; [|by vm_compute]. intros v. set_solver.
  - rewrite (proj1 (quad_corners a b c d Hnd)). split; [done|]. split; [done|by vm_compute].
Qed.

Lemma face_canon l : face_ok l -> NoDup (canon l) /\ forall v, 0 <= v -> v ∈ canon l <-> v ∈ l.
Proof.
  intros Hl. assert (Hpos : REF_EMPTY ∉ l).
  { destruct Hl as (a & b & c & d & -> & Hall & _). rewrite Forall_forall in Hall. intros Hin.
    by destruct (Hall _ Hin) as [Hp _]. }
  apply face_ok_cases in Hl as [(a & b & c & -> & Hnd)|(a & b & c & d & -> & Hnd)].
  - rewrite (proj2 (tri_corners a b c)). split; [apply NoDup_cons; split; [set_solver|done]|].
    intros v Hv. assert (v <> REF_EMPTY) by (unfold REF_EMPTY; lia). set_solver.
  - by rewrite (proj2 (quad_corners a b c d Hnd)).
Qed.

Lemma canon_same l l' : face_ok l -> face_ok l' -> canon l ≡ₚ canon l' <-> same_nodes l l'.
Proof.
  intros Hl Hl'. destruct (face_canon l Hl) as [Hnd Hin], (face_canon l' Hl') as [Hnd' Hin'].
  assert (Hpos : forall l v, face_ok l -> v ∈ l -> 0 <= v).
  { intros l1 v (a & b & c & d & _ & Hall & _) Hv. rewrite Forall_forall in Hall. by apply Hall. }
  split; intros Hs.
  - intros v. destruct (decide (0 <= v)) as [Hv|Hv]; [by rewrite <- Hin, <- Hin', Hs by done|].
    split; intros H1; [specialize (Hpos l v Hl H1)|specialize (Hpos l' v Hl' H1)]; lia.
  - assert (Hsize : forall l l', same_nodes l l' -> face_ok l -> face_ok l' -> (l.[0] =? l.[3]) = true -> (l'.[0] =? l'.[3]) = true).
    { clear. intros l l' Hs Hl Hl' Ht. destruct (l'.[0] =? l'.[3]) eqn:Ht'; [done|]. exfalso.
      destruct (face_corners l Hl) as (_ & Hc & _), (face_corners l' Hl') as (Hnd & Hc' & _).
      assert (Hsub : corners l' ⊆+ corners l).
      { apply NoDup_submseteq; [done|]. intros v Hv. by apply Hc, Hs, Hc'. }
      apply submseteq_length in Hsub. unfold corners in Hsub. rewrite Ht, Ht' in Hsub.
      destruct Hl as (? & ? & ? & ? & -> & _), Hl' as (? & ? & ? & ? & -> & _).
      clear -Hsub. by apply Nat.leb_le in Hsub. }
    apply NoDup_Permutation; [done|done|]. intros v.
    destruct (decide (0 <= v)) as [Hv|Hv]; [by rewrite Hin, Hin'|].
    assert (Hcase : forall l, face_ok l -> v ∈ canon l <-> v = REF_EMPTY /\ (l.[0] =? l.[3]) = true).
    { intros l1 Hl1. unfold canon. destruct (_ =? _) eqn:Ht.
      - rewrite elem_of_cons. split; [|by intros [-> _]; left]. intros [->|Hv1]; [done|]. exfalso.
        assert (v ∈ l1) as H1%(Hpos l1 v Hl1); [|lia]. eapply elem_of_submseteq; [exact Hv1|]. apply sublist_submseteq, sublist_take.
      - split; [|by intros []]. intros H1%(Hpos l1 v Hl1). lia. }
    rewrite (Hcase l Hl), (Hcase l' Hl'). split; intros [-> Ht]; (split; [done|]).
    + by apply (Hsize l l').
    + by apply (Hsize l' l).
Qed.

Lemma double_is x (a : Z) l s : x :: s ≡ₚ a :: l -> NoDup l -> x ∈ s -> x = a.
Proof.
  intros Hp Hnd Hx%occ_pos. pose proof (occ_perm _ _ x Hp) as Ho. rewrite !occ_cons in Ho.
  pose proof (occ_NoDup l x Hnd). destruct (Z.eqb_spec a x); [done|]. rewrite Z.eqb_refl in Ho. cbn [Z.b2z] in Ho. lia.
Qed.

(** What [ref_face_make_canonical] leaves. *)
Definition canonical_of (l c : list Z) : Prop := zlen c = 4 /\ c ≡ₚ canon l /\ StronglySorted Z.le c.

Lemma canonical_same l l' c c' :
  face_ok l -> face_ok l' -> canonical_of l c -> canonical_of l' c' -> c = c' <-> same_nodes l l'.
Proof.
  intros Hl Hl' (_ & Hc & Hs) (_ & Hc' & Hs'). rewrite <- canon_same, <- Hc, <- Hc' by done.
  split; [by intros ->|]. intros Hp. by apply (StronglySorted_unique Z.le).
Qed.

Lemma four_entries (s : list Z) : zlen s = 4 -> s = [s.[0]; s.[1]; s.[2]; s.[3]].
Proof.
  intros Hz. do 4 (destruct s as [|? s]; [done|]). destruct s; [done|]. rewrite !zlen_cons in Hz.
  pose proof (zlen_nonneg s). lia.
Qed.

Lemma sorted_four a b c d : a <= b -> b <= c -> c <= d -> StronglySorted Z.le [a; b; c; d].
Proof. intros Hab Hbc Hcd. repeat first [apply SSorted_cons|apply SSorted_nil|apply Forall_cons; split|apply Forall_nil_2]; lia. Qed.

Lemma make_canonical_ok l c :
  face_ok l -> zlen c = 4 -> wp (ref_face_make_canonical l c) (fun '(st, c') => st = REF_SUCCESS /\ canonical_of l c').
Proof.
  intros Hl Hz. assert (Hzl : zlen l = 4) by (by destruct Hl as (? & ? & ? & ? & -> & _)).
  unfold ref_face_make_canonical. apply wp_bind. eapply wp_mono; [apply ref_sort_insertion_int_ok; lia|].
  intros [st s] (-> & Hzs & Hp & Hs). cbn [RSS]. rewrite Hz in Hzs.
  rewrite <- Hzs in Hp at 1. rewrite ztake_full in Hp. rewrite <- Hzl, ztake_full in Hp.
  pose proof (Hs 0 1 ltac:(lia) ltac:(lia)) as H01. pose proof (Hs 1 2 ltac:(lia) ltac:(lia)) as H12.
  pose proof (Hs 2 3 ltac:(lia) ltac:(lia)) as H23. clear Hs. rewrite (four_entries s Hzs) in Hp |- *.
  set (s0 := s.[0]) in *. set (s1 := s.[1]) in *. set (s2 := s.[2]) in *. set (s3 := s.[3]) in *. clearbody s0 s1 s2 s3. clear s Hzs.
  assert (Hlow : forall v, v ∈ [s0; s1; s2; s3] -> REF_EMPTY <= v).
  { intros v Hv. rewrite Hp in Hv. destruct Hl as (? & ? & ? & ? & _ & Hall & _). rewrite Forall_forall in Hall.
    specialize (Hall v Hv). unfold REF_EMPTY. lia. }
  change (aget [s0; s1; s2; s3] 0) with (Some s0). change (aget [s0; s1; s2; s3] 1) with (Some s1).
  change (aget [s0; s1; s2; s3] 2) with (Some s2). change (aget [s0; s1; s2; s3] 3) with (Some s3). cbn [obind].
  change (aset [s0; s1; s2; s3] 0 REF_EMPTY) with (Some [REF_EMPTY; s1; s2; s3]).
  change (aset [s0; s1; s2; s3] 1 s0) with (Some [s0; s0; s2; s3]). cbn [obind].
  change (aset [s0; s0; s2; s3] 0 REF_EMPTY) with (Some [REF_EMPTY; s0; s2; s3]).
  change (aset [s0; s1; s2; s3] 2 s1) with (Some [s0; s1; s1; s3]). cbn [obind].
  change (aset [s0; s1; s1; s3] 1 s0) with (Some [s0; s0; s1; s3]). cbn [obind].
  change (aset [s0; s0; s1; s3] 0 REF_EMPTY) with (Some [REF_EMPTY; s0; s1; s3]). cbn [obind].
  pose proof (Hlow s0 ltac:(set_solver)) as L0. pose proof (Hlow s1 ltac:(set_solver)) as L1. clear Hlow.
  destruct (face_ok_cases l Hl) as [(a & b & c0 & -> & Hnd)|(a & b & c0 & d & -> & Hnd)].
  - rewrite (Permutation_app_comm [a; b; c0] [a] : [a; b; c0; a] ≡ₚ [a; a; b; c0]) in Hp.
    assert (Hdone : forall x y z w, x :: [y; z; w] ≡ₚ [a; a; b; c0] -> x ∈ [y; z; w] -> REF_EMPTY <= y -> y <= z -> z <= w ->
      canonical_of [a; b; c0; a] [REF_EMPTY; y; z; w]).
    { intros x y z w Hxp Hx Hy Hyz Hzw. split; [done|]. split; [|by apply sorted_four].
      rewrite (proj2 (tri_corners a b c0)). constructor. rewrite (double_is x a [a; b; c0] [y; z; w] Hxp Hnd Hx) in Hxp.
      by apply Permutation_cons_inv in Hxp. }
    case Z.eqb_spec; intros E01.
    { apply wp_ret. split; [done|]. apply (Hdone s0); [done|subst s1; by left|lia..]. }
    case Z.eqb_spec; intros E12.
    { apply wp_ret. split; [done|]. apply (Hdone s1); [|subst s2; right; by left|lia..].
      by rewrite <- Hp, (Permutation_swap s0 s1). }
    case Z.eqb_spec; intros E23.
    { apply wp_ret. split; [done|]. apply (Hdone s2); [|subst s3; do 2 right; by left|lia..].
      rewrite <- Hp. by rewrite (Permutation_swap s0 s2), (Permutation_swap s1 s2). }
    exfalso. assert (Hd : NoDup [s0; s1; s2; s3]).
    { repeat (apply NoDup_cons; split; [rewrite ?elem_of_cons, elem_of_nil; lia|]). apply NoDup_nil_2. }
    rewrite Hp, NoDup_cons in Hd. destruct Hd as [Ha _]. apply Ha. by left.
  - assert (Hd : NoDup [s0; s1; s2; s3]) by (by rewrite Hp). rewrite !NoDup_cons, !elem_of_cons, elem_of_nil in Hd.
    do 3 (case Z.eqb_spec; intros ?; [exfalso; naive_solver|]). apply wp_ret. split; [done|]. split; [done|].
    split; [|by apply sorted_four]. by rewrite (proj2 (quad_corners a b c0 d Hnd)).
Qed.

(** ** The list of the faces *)

Definition face_rows (r : REF_FACE) : list (list Z) := listed 4 (face_n r) (face_arr r).

Record face_wf (r : REF_FACE) : Prop := {
  fw_arr : zlen (face_arr r) = 4 * face_max r;
  fw_max : 4 * face_max r <= REF_INT_MAX;
  fw_n : 0 <= face_n r <= face_max r;
  fw_rows : Forall face_ok (face_rows r);
  fw_adj : adj_wf (face_adj r);
  fw_index : indexed (face_adj r) (map corners (face_rows r))
}.

(** The array can grow once more from as many faces. *)
Definition FACE_LIMIT : Z := 200000000.

Lemma zlen_face_rows r : face_wf r -> zlen (face_rows r) = face_n r.
Proof. intros [_ _ Hn _ _ _]. apply zlen_listed. lia. Qed.

Lemma row_four a row : row_of 4 a row = [a.[0 + 4 * row]; a.[1 + 4 * row]; a.[2 + 4 * row]; a.[3 + 4 * row]].
Proof. done. Qed.

Lemma face_row_ok r face : face_wf r -> 0 <= face < face_n r -> face_ok (face_rows r).[face].
Proof.
  intros Hwf Hf. pose proof (fw_rows r Hwf) as Hall. rewrite Forall_forall in Hall. apply Hall, elem_of_aat.
  exists face. by rewrite zlen_face_rows.
Qed.

Lemma f2n_ok r node face :
  face_wf r -> 0 <= node < 4 -> 0 <= face < face_n r -> ref_face_f2n r node face = Some (face_rows r).[face].[node].
Proof.
  intros [Hz Hmax Hn _ _ _] Hnode Hf. unfold ref_face_f2n, face_rows. rewrite aat_listed by lia.
  rewrite (row_get_eq 4 (face_max r)) by lia. by rewrite aat_row_of by lia.
Qed.

Section lists.
Context {D : Type} `{Dbl D, Junk Z, Junk REF_ADJ_ITEM}.
Implicit Types (r : REF_FACE) (g : REF_GRID D).

Lemma face_nodes_ok r face : face_wf r -> 0 <= face < face_n r -> wp (face_nodes r face) (fun l => l = (face_rows r).[face]).
Proof.
  intros Hwf Hf. pose proof (face_row_ok r face Hwf Hf) as Hrow. unfold face_nodes.
  apply (wp_fill (fun node => (face_rows r).[face].[node])); [lia|by rewrite zlen_alloc by lia| |].
  - intros i d Hi Hd _. rewrite zlen_alloc in Hd by lia. rewrite f2n_ok by (done || lia). apply wp_bind, wp_ret, wp_aset; [lia|done].
  - intros d Hd Hall. rewrite zlen_alloc in * by lia.
    assert (Hz : zlen (face_rows r).[face] = 4) by (by destruct Hrow as (? & ? & ? & ? & -> & _)).
    apply arr_ext; [by rewrite Hz|]. intros j Hj. rewrite Hd in Hj. rewrite Hall by done.
    by rewrite (proj2 (Z.leb_le 0 j)), (proj2 (Z.ltb_lt j 4)) by lia.
Qed.

Lemma same_four_ok a b : zlen a = 4 -> zlen b = 4 -> same_four a b = Some (bool_decide (a = b)).
Proof.
  intros Ha Hb. rewrite (four_entries a Ha), (four_entries b Hb).
  set (a0 := a.[0]). set (a1 := a.[1]). set (a2 := a.[2]). set (a3 := a.[3]).
  set (b0 := b.[0]). set (b1 := b.[1]). set (b2 := b.[2]). set (b3 := b.[3]).
  change (same_four [a0; a1; a2; a3] [b0; b1; b2; b3]) with
    (if negb (a0 =? b0) then Some false else if negb (a1 =? b1) then Some false else
     if negb (a2 =? b2) then Some false else Some (a3 =? b3)).
  clearbody a0 a1 a2 a3 b0 b1 b2 b3.
  repeat case Z.eqb_spec; cbn [negb]; intros; f_equal; symmetry;
    first [apply bool_decide_eq_true_2; congruence | apply bool_decide_eq_false_2; congruence].
Qed.

Lemma ref_face_with_ok r nodes :
  face_wf r -> face_ok nodes ->
  wp (ref_face_with r nodes) (fun '(st, face) =>
    if decide (Exists (same_nodes nodes) (face_rows r))
    then st = REF_SUCCESS /\ 0 <= face < face_n r /\ same_nodes nodes (face_rows r).[face]
    else st = REF_NOT_FOUND /\ face = REF_EMPTY).
Proof.
  intros Hwf Hnodes. pose proof Hwf as [_ _ Hn _ Hadj Hidx]. unfold ref_face_with.
  apply wp_bind. eapply wp_mono; [apply make_canonical_ok; [done|by rewrite zlen_alloc]|].
  intros [st target] (-> & Ht). cbn [RSS].
  assert (Hn0 : exists n0, aget nodes 0 = Some n0 /\ n0 ∈ nodes).
  { destruct Hnodes as (a & ? & ? & ? & -> & _). exists a. split; [done|by left]. }
  destruct Hn0 as (n0 & -> & Hn0). cbn [obind]. rewrite each_ref_adj_refs by done.
  apply wp_bind, (wp_forl (fun pre _ => forall c, c ∈ pre -> ~ same_nodes nodes (face_rows r).[c])
    (fun x => x.1 = REF_SUCCESS /\ 0 <= x.2 < face_n r /\ same_nodes nodes (face_rows r).[x.2])).
  - intros c Hc. by apply not_elem_of_nil in Hc.
  - intros pre c post [] Hl Hpre. assert (Hin : c ∈ adj_refs (face_adj r) n0) by (rewrite Hl; set_solver).
    apply (elem_of_indexed _ _ _ _ Hidx) in Hin as [Hc _]. rewrite zlen_map, zlen_face_rows in Hc by done.
    pose proof (face_row_ok r c Hwf Hc) as Hrow.
    apply wp_bind. eapply wp_mono; [by apply face_nodes_ok|]. intros orig ->.
    apply wp_bind. eapply wp_mono; [apply make_canonical_ok; [done|by rewrite zlen_alloc]|].
    intros [st candidate] (-> & Hcand). rewrite same_four_ok by (apply Ht || apply Hcand). cbn [obind].
    pose proof (canonical_same _ _ _ _ Hnodes Hrow Ht Hcand) as Hiff. case_bool_decide as Heq; apply wp_ret.
    + cbn. split; [done|]. split; [done|]. by apply Hiff.
    + intros c' [Hc'|Hc']%elem_of_app; [by apply Hpre|]. apply list_elem_of_singleton in Hc' as ->. by rewrite <- Hiff.
  - intros [] Hnone. apply wp_ret. rewrite decide_False; [done|]. intros (l & Hl & Hs)%Exists_exists.
    apply elem_of_aat in Hl as (c & Hc & <-). apply (Hnone c); [|done]. apply (elem_of_indexed _ _ _ _ Hidx).
    rewrite zlen_map. split; [done|]. rewrite aat_map by done. rewrite zlen_face_rows in Hc by done.
    by apply (proj1 (proj2 (face_corners _ (face_row_ok r c Hwf Hc)))), Hs.
  - intros [st face] (Hst & Hf & Hs). cbn in *. apply wp_ret. rewrite decide_True; [done|].
    apply Exists_exists. eexists. split; [|exact Hs]. apply elem_of_aat. exists face. by rewrite zlen_face_rows.
Qed.

Lemma face_grow_ok r :
  face_wf r -> face_n r < FACE_LIMIT ->
  wp (face_grow r) (fun r' => face_wf r' /\ face_rows r' = face_rows r /\ face_n r' = face_n r /\
    face_adj r' = face_adj r /\ face_n r' < face_max r').
Proof.
  intros Hwf Hlim. pose proof Hwf as [Hz Hmax Hn Hall Hadj Hidx]. unfold face_grow, FACE_LIMIT in *.
  destruct (Z.leb_spec (face_max r) (face_n r)); [|by apply wp_ret].
  assert (Hnm : face_n r = face_max r) by lia. pose proof (half_more_bounds (face_max r) ltac:(lia)).
  set (max := face_max r + Z.max 5000 (half_more (face_max r))).
  assert (Hb : face_max r < max /\ 4 * max <= REF_INT_MAX) by (pose proof (half_more_double (face_max r)); unfold REF_INT_MAX; lia).
  wp_go; unfold REF_INT_MAX, REF_INT_MIN in *; try lia. fold max.
  assert (Hrows : face_rows (set_face_arr max (ref_realloc (face_arr r) (4 * max)) r) = face_rows r).
  { unfold face_rows. cbn. apply listed_ext. intros col row Hcol Hrow. apply aat_realloc; lia. }
  split; [|cbn; split; [exact Hrows|split; [done|split; [done|lia]]]].
  constructor; rewrite ?Hrows; cbn; [apply zlen_realloc; lia|unfold REF_INT_MAX; lia|lia|done|done|done].
Qed.
End lists.

Section add.
Context {D : Type} `{Dbl D, Junk Z, Junk REF_ADJ_ITEM}.
Implicit Types (r : REF_FACE) (g : REF_GRID D).

(** [adj'] has the new row under the nodes of [l] as well. *)
Definition registers (face : Z) (l : list Z) (adj adj' : REF_ADJ) : Prop :=
  adj_wf adj' /\ (forall k, refs_total (adj_refs adj') k <= refs_total (adj_refs adj) k + zlen l) /\
  forall w c, occ (adj_refs adj' w) c = occ (adj_refs adj w) c + Z.b2z (face =? c) * occ l w.

Lemma registers_nil face adj : adj_wf adj -> registers face [] adj adj.
Proof. intros Hadj. split; [done|]. split; intros; rewrite ?zlen_nil, ?occ_nil; lia. Qed.

Lemma face_register_ok col face l adj r v (Q : unit -> REF_FACE -> Prop) E :
  ref_face_f2n r col face = Some v -> 0 <= v <= NODE_LIMIT -> registers face l adj (face_adj r) ->
  (forall k, refs_total (adj_refs adj) k + zlen l < REF_INT_MAX) ->
  (forall adj', registers face (l ++ [v]) adj adj' -> Q tt (set_face_adj adj' r)) ->
  fwp (face_register col face) Q E r.
Proof.
  intros Hv Hlim (Hadj & Ht & Ho) Htot HQ. apply fwp_bind, fwp_state, fwp_bind, fwp_use. rewrite Hv. apply wp_ret, fwp_call, wp_bind.
  eapply wp_mono; [apply adj_add_occ; [done|done|]|].
  - intros k. specialize (Ht k). specialize (Htot k). lia.
  - intros [st adj'] (-> & Hwf' & Ht' & Ho'). apply wp_ret. rewrite decide_True by done. apply HQ. split; [done|]. split.
    + intros k. specialize (Ht k). specialize (Ht' k). rewrite zlen_app. change (zlen [v]) with 1. lia.
    + intros w c. rewrite Ho', Ho, occ_app, occ_cons, occ_nil. lia.
Qed.

(** The row of the new face is filled in. *)
Lemma fill_face_ok nodes face r (Q : unit -> REF_FACE -> Prop) E :
  zlen (face_arr r) = 4 * face_max r -> 4 * face_max r <= REF_INT_MAX -> face_n r = face + 1 -> 0 <= face < face_max r -> zlen nodes = 4 ->
  (forall a, zlen a = 4 * face_max r -> listed 4 (face_n r) a = listed 4 face (face_arr r) ++ [nodes] ->
     Q tt (set_face_arr (face_max r) a r)) ->
  fwp (count 0 4 (fun node =>
    let! v := use (aget nodes node) in
    update (put_f2n node face v))) Q E r.
Proof.
  intros Hz Hmax Hfn Hn Hnodes HQ.
  apply fwp_count with (P := fun i r' => exists a, r' = set_face_arr (face_max r) a r /\ zlen a = 4 * face_max r /\
    forall col row, 0 <= col < 4 -> 0 <= row <= face ->
      a.[col + 4 * row] = if (row =? face) && (col <? i) then nodes.[col] else (face_arr r).[col + 4 * row]); [lia| | |].
  - exists (face_arr r). split; [by destruct r|]. split; [done|]. intros col row Hcol Hrow.
    rewrite (proj2 (Z.ltb_ge col 0)), andb_false_r by lia. done.
  - intros i r' Hi (a & -> & Hza & Ha). apply fwp_bind, fwp_use. rewrite aget_aat by lia. apply wp_ret, fwp_update.
    apply wp_bind. apply (wp_row_put 4 (face_max r)); [lia|done|done|lia|lia|]. apply wp_ret. eexists.
    split; [done|]. cbn [set_face_arr face_arr]. split; [by rewrite zlen_upd|]. intros col row Hcol Hrow.
    rewrite (aat_row_put 4 (face_max r)) by lia. rewrite Ha by lia.
    repeat case Z.eqb_spec; repeat case Z.ltb_spec; cbn [andb]; intros; subst; (done || lia).
  - intros r' (a & -> & Hza & Ha). apply HQ; [done|]. rewrite Hfn.
    rewrite listed_S by lia. f_equal.
    + apply listed_ext. intros col row Hcol Hrow. rewrite Ha by lia. by rewrite (proj2 (Z.eqb_neq row face)) by lia.
    + f_equal. apply arr_ext; [by rewrite zlen_row_of|]. intros i Hi. rewrite zlen_row_of in Hi by lia.
      rewrite aat_row_of, Ha by lia. by rewrite Z.eqb_refl, (proj2 (Z.ltb_lt i 4)) by lia.
Qed.

Lemma ref_face_add_uniquely_ok nodes r :
  face_wf r -> face_n r < FACE_LIMIT -> face_ok nodes ->
  wp (ref_face_add_uniquely nodes r) (fun '(st, r') =>
    st = REF_SUCCESS /\ face_wf r' /\ face_rows r' = add_row same_nodes (face_rows r) nodes).
Proof.
  intros Hwf Hlim Hok. unfold add_row. apply wp_body, fwp_bind, fwp_state, fwp_bind, fwp_use.
  eapply wp_mono; [by apply ref_face_with_ok|]. intros [st found].
  case_decide as Hex; [intros (-> & _)|intros [-> ->]]; apply fwp_bind.
  { rewrite bool_decide_eq_true_2 by done. by apply fwp_leave. }
  rewrite bool_decide_eq_false_2 by done. apply fwp_ret, fwp_bind. rewrite bool_decide_eq_true_2 by done. apply fwp_ret.
  apply fwp_bind, fwp_update. eapply wp_mono; [by apply face_grow_ok|].
  intros r1 (Hwf1 & Hrows1 & Hn1 & _ & Hroom). apply fwp_bind, fwp_state. rewrite <- Hrows1.
  assert (Hlim1 : face_n r1 < FACE_LIMIT) by (by rewrite Hn1). clear Hlim Hwf Hrows1 Hn1 Hex r. rename r1 into r.
  pose proof Hwf1 as [Hz Hmax Hn Hall Hadj Hidx]. set (face := face_n r).
  apply fwp_bind, fwp_update, wp_bind, wp_ck_int; [unfold REF_INT_MIN, REF_INT_MAX in *; lia|]. apply wp_ret.
  assert (Hzn : zlen nodes = 4) by (by destruct Hok as (? & ? & ? & ? & -> & _)).
  apply fwp_bind, fill_face_ok; [done|done|done|cbn; lia|done|]. cbn [set_face_n face_n face_max face_arr].
  intros a Hza Hlist. change (listed 4 face (face_arr r)) with (face_rows r) in Hlist.
  cbn [set_face_arr face_n face_adj].
  assert (Hget : forall col adj, 0 <= col < 4 ->
    ref_face_f2n (mkREF_FACE (face_n r + 1) (face_max r) a adj) col face = Some nodes.[col]).
  { intros col adj Hcol. unfold ref_face_f2n. cbn [face_arr]. rewrite (row_get_eq 4 (face_max r)) by lia.
    rewrite <- (aat_row_of 4 a face) by lia. rewrite listed_S in Hlist by lia. apply app_inj_tail in Hlist as [_ Hrow].
    unfold face. by rewrite Hrow. }
  assert (Hnode : forall col, 0 <= col < 4 -> 0 <= nodes.[col] <= NODE_LIMIT).
  { intros col Hcol. destruct Hok as (? & ? & ? & ? & _ & Hall' & _). rewrite Forall_forall in Hall'. apply Hall', elem_of_aat.
    exists col. split; [lia|done]. }
  assert (Htot : forall k, refs_total (adj_refs (face_adj r)) k + 4 < REF_INT_MAX).
  { intros k. pose proof (indexed_total _ _ 4 k ltac:(lia) Hidx) as Ht. rewrite zlen_map, zlen_face_rows in Ht by done.
    unfold FACE_LIMIT, REF_INT_MAX in *. enough (Forall (fun l => zlen l <= 4) (map corners (face_rows r))) as Hc by (specialize (Ht Hc); lia).
    apply Forall_map. eapply Forall_impl; [exact Hall|]. intros l Hl. by apply face_corners. }
  apply fwp_bind, fwp_count with (P := fun k r' => exists adj, r' = mkREF_FACE (face_n r + 1) (face_max r) a adj /\
    registers face (ztake k nodes) (face_adj r) adj); [lia| | |].
  { eexists. split; [done|]. by apply registers_nil. }
  { intros k r' Hk (adj & -> & Hreg). eapply face_register_ok; [by apply Hget; lia|by apply Hnode; lia|exact Hreg| |].
    - intros j. rewrite zlen_ztake by lia. specialize (Htot j). lia.
    - intros adj' Hreg'. eexists. split; [done|]. by rewrite ztake_S by lia. }
  intros r' (adj & -> & Hreg). apply fwp_bind, fwp_state, fwp_bind, fwp_use. rewrite Hget by lia.
  apply wp_ret, fwp_bind, fwp_use. rewrite Hget by lia. apply wp_ret.
  assert (Hend : forall adj', registers face (corners nodes) (face_adj r) adj' ->
    REF_SUCCESS = REF_SUCCESS /\ face_wf (mkREF_FACE (face_n r + 1) (face_max r) a adj') /\
    face_rows (mkREF_FACE (face_n r + 1) (face_max r) a adj') = face_rows r ++ [nodes]).
  { intros adj' (Hadj' & _ & Ho). split; [done|].
    assert (Hrows' : face_rows (mkREF_FACE (face_n r + 1) (face_max r) a adj') = face_rows r ++ [nodes]) by exact Hlist.
    split; [|done]. constructor; rewrite ?Hrows'; cbn [face_arr face_max face_n face_adj]; [done|done|lia| |done|].
    - apply Forall_app. split; [done|]. by apply Forall_singleton.
    - rewrite map_app. eapply indexed_app; [exact Hidx|]. intros v c. by rewrite Ho, zlen_map, zlen_face_rows. }
  unfold corners in Hend. case Z.eqb_spec; intros Heq; cbn [negb].
  - apply fwp_ret, Hend. by rewrite Heq, Z.eqb_refl.
  - eapply face_register_ok; [by apply Hget; lia|by apply Hnode; lia|exact Hreg| |].
    + intros j. rewrite zlen_ztake by lia. specialize (Htot j). lia.
    + intros adj' Hreg'. apply Hend. rewrite (proj2 (Z.eqb_neq _ _) Heq).
      rewrite <- ztake_S in Hreg' by lia. change (3 + 1) with 4 in Hreg'. by rewrite <- Hzn, ztake_full in Hreg'.
Qed.
End add.

(** ** All faces of a grid *)

(** The faces of an element, of the elements of a type, and of the types that the
    function goes through. *)
Definition element_faces (c : REF_CELL) (entries : list Z) : list (list Z) :=
  map (fun face => map (fun node => face_node c entries node face) (zrange 4)) (zrange (ref_cell_face_per c)).
Definition cell_faces (c : REF_CELL) : list (list Z) := cell_items (element_faces c) c.
Definition face_types {D} (g : REF_GRID D) : list REF_CELL_TYPE := if grid_twod g then types_2d else types_3d.
Definition grid_faces {D} (g : REF_GRID D) : list (list Z) := face_types g ≫= fun type => cell_faces (grid_cell g type).

Definition has_faces (l : list (list Z)) (r : REF_FACE) : Prop :=
  face_wf r /\ face_rows r = fold_left (add_row same_nodes) l [].

(** The nodes of each element are different. *)
Definition distinct_nodes (c : REF_CELL) : Prop :=
  forall cell e, cell_at c cell = Some e -> NoDup (nodes_of (cell_tables c) e).

Definition table_face_ok (l : list Z) : Prop := NoDup [l.[0]; l.[1]; l.[2]] /\ (l.[3] = l.[0] \/ l.[3] ∉ [l.[0]; l.[1]; l.[2]]).
#[global] Instance table_face_ok_dec l : Decision (table_face_ok l).
Proof. unfold table_face_ok. apply _. Defined.

Lemma table_faces type face :
  0 <= face < init_face_per type -> table_face_ok (RefCellType.table_row 4 (init_f2n type) face).
Proof.
  intros Hf%elem_of_zrange. revert face Hf. apply Forall_forall.
  destruct type; apply (bool_decide_unpack _); vm_compute; exact I.
Qed.

Lemma element_face_ok c bl cell e face :
  cell_wf c bl -> distinct_nodes c -> cell_at c cell = Some e -> 0 <= face < ref_cell_face_per c ->
  face_ok (map (fun node => face_node c e node face) (zrange 4)).
Proof.
  intros Hwf Hd He Hf. destruct (tables_ok c bl Hwf) as (_ & _ & Hl & Hall).
  pose proof (table_faces (cell_type (cell_tables c)) face) as Hrow.
  assert (Hper : ref_cell_face_per c = init_face_per (cell_type (cell_tables c)))
    by (unfold ref_cell_face_per; by rewrite (cw_tables _ _ Hwf)).
  assert (Hf2n : cell_f2n (cell_tables c) = init_f2n (cell_type (cell_tables c))) by (by rewrite (cw_tables _ _ Hwf)).
  specialize (Hrow ltac:(lia)). unfold RefCellType.table_row in Hrow. rewrite <- Hf2n in Hrow.
  assert (Hk : forall k, 0 <= k < 4 -> 0 <= (cell_f2n (cell_tables c)).[k + 4 * face] < ref_cell_node_per c).
  { intros k Hk. rewrite Forall_forall in Hall. apply Hall, elem_of_aat. eexists. split; [|done]. lia. }
  pose proof (zlen_entries _ _ _ _ Hwf He) as Hz. destruct (counts_bounds _ (cell_wf_counts _ _ Hwf)) as (Hb1 & Hb2 & _).
  fold (ref_cell_node_per c) in Hb1.
  assert (Hat : forall k, 0 <= k < ref_cell_node_per c -> e.[k] = (nodes_of (cell_tables c) e).[k]).
  { intros k Hk'. unfold nodes_of. by rewrite aat_ztake by (unfold ref_cell_node_per in *; lia). }
  assert (Hzn : zlen (nodes_of (cell_tables c) e) = ref_cell_node_per c) by (by apply zlen_nodes_of; [apply cell_wf_counts with bl|]).
  assert (Hinj : forall i j, 0 <= i < ref_cell_node_per c -> 0 <= j < ref_cell_node_per c -> e.[i] = e.[j] -> i = j).
  { intros i j Hi Hj Hij. rewrite !Hat in Hij by done. by apply (NoDup_aat _ i j (Hd _ _ He)); [lia|lia|]. }
  set (k0 := (cell_f2n (cell_tables c)).[0 + 4 * face]). set (k1 := (cell_f2n (cell_tables c)).[1 + 4 * face]).
  set (k2 := (cell_f2n (cell_tables c)).[2 + 4 * face]). set (k3 := (cell_f2n (cell_tables c)).[3 + 4 * face]).
  pose proof (Hk 0 ltac:(lia)) as H0'. pose proof (Hk 1 ltac:(lia)) as H1'. pose proof (Hk 2 ltac:(lia)) as H2'.
  pose proof (Hk 3 ltac:(lia)) as H3'. fold k0 in H0'. fold k1 in H1'. fold k2 in H2'. fold k3 in H3'.
  change (table_face_ok [k0; k1; k2; k3]) in Hrow. change (face_ok [e.[k0]; e.[k1]; e.[k2]; e.[k3]]).
  clearbody k0 k1 k2 k3. destruct Hrow as [Hnd H3].
  change ([k0; k1; k2; k3].[0]) with k0 in *. change ([k0; k1; k2; k3].[1]) with k1 in *.
  change ([k0; k1; k2; k3].[2]) with k2 in *. change ([k0; k1; k2; k3].[3]) with k3 in *.
  exists e.[k0], e.[k1], e.[k2], e.[k3]. split; [done|]. split.
  - assert (Hnode : forall k, 0 <= k < ref_cell_node_per c -> 0 <= e.[k] <= NODE_LIMIT).
    { intros k Hk'. pose proof (cw_nodes _ _ Hwf cell e He) as Hn. rewrite Forall_forall in Hn. rewrite Hat by done.
      apply Hn, elem_of_aat. exists k. by rewrite Hzn. }
    repeat (apply Forall_cons; split; [by apply Hnode|]). apply Forall_nil_2.
  - rewrite !NoDup_cons, !elem_of_cons, !elem_of_nil in Hnd |- *. rewrite !elem_of_cons, elem_of_nil in H3 |- *.
    destruct Hnd as (Hn0 & Hn1 & _). split.
    + split; [intros [?%Hinj|[?%Hinj|[]]]; (tauto || lia)|]. split; [intros [?%Hinj|[]]; (tauto || lia)|].
      split; [intros []|apply NoDup_nil_2].
    + destruct H3 as [->|H3]; [by left|right]. intros [?%Hinj|[?%Hinj|[?%Hinj|[]]]]; (tauto || lia).
Qed.

Lemma zlen_add_faces l : zlen (fold_left (add_row same_nodes) l []) <= zlen l.
Proof. etransitivity; [apply zlen_add_rows; apply _|]. rewrite zlen_nil. lia. Qed.

Section create.
Context {D : Type} `{Dbl D, Junk Z, Junk REF_ADJ_ITEM}.
Implicit Types (r : REF_FACE) (g : REF_GRID D).

Lemma has_faces_step l r nodes (Q : unit -> REF_FACE -> Prop) E :
  has_faces l r -> zlen l < FACE_LIMIT -> face_ok nodes ->
  (forall r', has_faces (l ++ [nodes]) r' -> Q tt r') -> fwp (call (ref_face_add_uniquely nodes)) Q E r.
Proof.
  intros [Hwf Hrows] Hl Hok HQ. apply fwp_call. eapply wp_mono.
  - apply ref_face_add_uniquely_ok; [done| |done]. rewrite <- zlen_face_rows, Hrows by done.
    pose proof (zlen_add_faces l). lia.
  - intros [st r'] (-> & Hwf' & Hrows'). rewrite decide_True by done. apply HQ. split; [done|].
    by rewrite fold_left_app, <- Hrows, Hrows'.
Qed.

Lemma faces_of_type_ok g type bl l r (Q : unit -> REF_FACE -> Prop) E :
  cell_wf (grid_cell g type) bl -> distinct_nodes (grid_cell g type) -> has_faces l r ->
  zlen l + zlen (cell_faces (grid_cell g type)) <= FACE_LIMIT ->
  (forall r', has_faces (l ++ cell_faces (grid_cell g type)) r' -> Q tt r') ->
  fwp (faces_of_type g type) Q E r.
Proof.
  intros Hwf Hd Hr Hlim HQ. set (c := grid_cell g type) in *. pose proof (face_per_nonneg c bl Hwf) as Hper.
  apply (fwp_each_valid_cell has_faces (element_faces c) c bl _ l); [done|done| |done].
  intros cell e pre r1 He Hpre Hr1.
  apply (fwp_count_items has_faces (fun face => map (fun node => face_node c e node face) (zrange 4)) _ _ (l ++ pre));
    [exact Hper|done| |done].
  intros k r2 Hk Hr2. change (0 <= k < ref_cell_face_per c) in Hk. fold c. apply fwp_bind, fwp_use.
  pose proof (element_face_ok c bl cell e k Hwf Hd He Hk) as Hok.
  apply (wp_fill (fun node => face_node c e node k)); [lia|by rewrite zlen_alloc| |].
  - intros i d Hi Hzd _. rewrite zlen_alloc in Hzd by done. rewrite (ref_cell_f2n_ok c bl Hwf cell e) by (done || lia).
    apply wp_bind, wp_ret, wp_aset; [lia|done].
  - intros d Hzd Hdall. rewrite zlen_alloc in * by done.
    assert (d = map (fun node => face_node c e node k) (zrange 4)) as ->.
    { apply arr_ext; [by rewrite zlen_map, zlen_zrange|]. intros i Hi. rewrite Hzd in Hi. rewrite Hdall by done.
      rewrite (proj2 (Z.leb_le 0 i)), (proj2 (Z.ltb_lt i 4)), aat_map, aat_zrange by (rewrite ?zlen_zrange; lia). done. }
    eapply has_faces_step; [exact Hr2| |exact Hok|done].
    fold (cell_faces c) in Hpre. unfold element_faces in Hpre at 1. rewrite !zlen_app, !zlen_map in *.
    rewrite zlen_zrange in * by lia. lia.
Qed.

Lemma ref_face_create_ok g :
  Forall (fun type => (exists bl, cell_wf (grid_cell g type) bl) /\ distinct_nodes (grid_cell g type)) (face_types g) ->
  zlen (grid_faces g) <= FACE_LIMIT ->
  wp (ref_face_create g) (fun '(st, r) => st = REF_SUCCESS /\ has_faces (grid_faces g) r).
Proof.
  intros Hwf Hlim. unfold ref_face_create. cbn [ref_malloc]. change (4 * 10 <? 0) with false. cbv iota. cbn [RSS].
  apply wp_bind. eapply wp_mono; [exact ref_adj_create_ok|]. intros [st adj] (-> & Hadj & Hempty). cbn [RSS].
  apply wp_body. apply (fwp_each_bind has_faces (fun type => cell_faces (grid_cell g type)) _ _ []); [| |done].
  - split; [|done]. constructor; cbn; [by rewrite zlen_alloc|unfold REF_INT_MAX; lia|lia|apply Forall_nil_2|done|].
    by apply indexed_nil.
  - intros type pre r1 Ht Hpre Hr1. rewrite Forall_forall in Hwf. destruct (Hwf type Ht) as [[bl Hbl] Hd].
    eapply faces_of_type_ok; [exact Hbl|exact Hd|exact Hr1|unfold grid_faces, face_types in Hlim; cbn [app]; lia|done].
Qed.
End create.

(** C37. [ref_face_create] on a grid whose elements are in order and have different nodes:
    it always succeeds, and the faces of the result are those of the three-dimensional
    elements, of a plane grid those of the two-dimensional ones, each set of nodes
    once, in the order in which the loops meet them. *)
Theorem ref_face_create_lists_faces {D : Type} `{Dbl D, Junk Z, Junk REF_ADJ_ITEM} (g : REF_GRID D) :
  Forall (fun type => (exists bl, cell_wf (grid_cell g type) bl) /\ distinct_nodes (grid_cell g type)) (face_types g) ->
  zlen (grid_faces g) <= FACE_LIMIT ->
  exists r, ref_face_create g = Some (REF_SUCCESS, r) /\ face_wf r /\
    face_rows r = fold_left (add_row same_nodes) (grid_faces g) [] /\
    (forall i j, 0 <= i < face_n r -> 0 <= j < face_n r -> same_nodes (face_rows r).[i] (face_rows r).[j] -> i = j) /\
    forall l, Exists (same_nodes l) (face_rows r) <->
      exists type cell entries face, type ∈ face_types g /\ cell_at (grid_cell g type) cell = Some entries /\
        0 <= face < ref_cell_face_per (grid_cell g type) /\
        same_nodes l (map (fun node => face_node (grid_cell g type) entries node face) (zrange 4)).
Proof.
  intros Hwf Hlim. destruct (ref_face_create_ok g Hwf Hlim) as ([st r] & Heq & -> & Hr & Hrows).
  destruct (fold_add_row same_nodes (grid_faces g) []) as [Hu Hhas]. exists r.
  split; [done|]. split; [done|]. split; [done|]. split.
  - rewrite <- zlen_face_rows, Hrows by done. apply Hu, each_once_nil.
  - intros l. rewrite Hrows, Hhas, Exists_nil. unfold grid_faces. setoid_rewrite list_elem_of_bind. split.
    + intros [[]|(x & (type & Hx & Ht) & Hs)]. apply elem_of_cell_items in Hx as (cell & e & He & Hx).
      apply list_elem_of_fmap in Hx as (face & -> & Hf%elem_of_zrange). exists type, cell, e, face. exact (conj Ht (conj He (conj Hf Hs))).
    + intros (type & cell & e & face & Ht & He & Hf & Hs). right. eexists. split; [|exact Hs]. exists type. split; [|done].
      apply elem_of_cell_items. exists cell, e. split; [done|]. apply list_elem_of_fmap. exists face.
      split; [done|by apply elem_of_zrange].
Qed.

#[local] Existing Instances NodeExample.double NodeExample.junk_double NodeExample.junk_int ReplaceExample.junk_item.

Module FaceExample.
Notation grid := SwapExample.grid.
Definition all_distinct (c : REF_CELL) : bool :=
  forallb (fun cell => match cell_at c cell with Some e => bool_decide (NoDup (nodes_of (cell_tables c) e)) | None => true end)
    (zrange (cell_max c)).
Lemma all_distinct_nodes c : all_distinct c = true -> distinct_nodes c.
Proof.
  intros Hall cell e He. unfold all_distinct in Hall. rewrite forallb_forall in Hall. specialize (Hall cell).
  rewrite He in Hall. eapply bool_decide_eq_true_1, Hall, list_elem_of_In, elem_of_zrange. by apply cell_at_Some in He as [? _].
Qed.
Lemma types_ok : Forall (fun type => (exists bl, cell_wf (grid_cell grid type) bl) /\ distinct_nodes (grid_cell grid type)) types_3d.
Proof.
  apply Forall_forall. intros type _. split; [apply EdgeExample.all_wf|]. apply all_distinct_nodes.
  destruct type; vm_compute; reflexivity.
Qed.
End FaceExample.

Lemma ref_face_create_lists_faces_witness :
  let g := SwapExample.grid in
  zlen (grid_faces g) = 12 /\
  (let* '(st, r) := ref_face_create g in Some (st, face_n r)) = Some (REF_SUCCESS, 10) /\
  exists r, ref_face_create g = Some (REF_SUCCESS, r) /\ face_wf r /\
    face_rows r = fold_left (add_row same_nodes) (grid_faces g) [] /\
    (forall i j, 0 <= i < face_n r -> 0 <= j < face_n r -> same_nodes (face_rows r).[i] (face_rows r).[j] -> i = j) /\
    forall l, Exists (same_nodes l) (face_rows r) <->
      exists type cell entries face, type ∈ face_types g /\ cell_at (grid_cell g type) cell = Some entries /\
        0 <= face < ref_cell_face_per (grid_cell g type) /\
        same_nodes l (map (fun node => face_node (grid_cell g type) entries node face) (zrange 4)).
Proof.
  split; [vm_compute; reflexivity|]. split; [vm_compute; reflexivity|].
  apply (ref_face_create_lists_faces SwapExample.grid); [exact FaceExample.types_ok|vm_compute; congruence].
Defined.
