(* ===== verification/RefUgrid.v ===== *)
(** * Binary UGRID files (ref_import.c, ref_export.c)

    [ref_export_bin_ugrid] writes the vertices and the elements of a grid,
    [ref_import_bin_ugrid] makes a grid of such a file. The numbers of the format have
    four or eight bytes ([fat]), in one of two orders ([swap]). Opening a file may
    fail; writing to an open file is assumed to succeed. *)
From S2P Require Import Prelude Rows Effect RefSort RefAdj RefDbl Bytes RefMpi RefNode RefCellType RefCell RefCellSpec RefCellQuery RefGeom RefGrid RefMeasure RowList ElementLoops.
From stdpp Require Import prelude list gmap.
From Stdlib Require Import ZArith Lia SpecFloat.
Open Scope Z_scope.
Open Scope ref_scope.

(** ** Export *)

Section export.
Context {D : Type} `{Dbl D, DblBytes D, Junk Z, Junk REF_ADJ_ITEM, Junk D}.
Implicit Types (g : REF_GRID D) (c : REF_CELL).

(** One of the two loops of [ref_export_faceid_range]. *)
Definition widen_range c (range : Z * Z) : option (Z * Z) :=
  each_ref_cell_valid_cell_with_nodes (cell_max c) (fun _ => c) (fun _ nodes '(min_faceid, max_faceid) =>
    let* id := aget nodes (ref_cell_id_index c) in
    Some (Z.min min_faceid id, Z.max max_faceid id)) range.

(** The pair is [*min_faceid] and [*max_faceid]. *)
Definition ref_export_faceid_range g : option (REF_STATUS * (Z * Z)) :=
  let* range := widen_range (ref_grid_tri g) (REF_INT_MAX, REF_INT_MIN) in
  let* range := widen_range (ref_grid_qua g) range in
  Some (REF_SUCCESS, range).

(** [fwrite] *)
Definition write (b : list Z) : fn (list Z) unit := assign (fun file => file ++ b).

Definition ref_export_bin_ugrid_int (swap fat : bool) (output : Z) : list Z -> option (REF_STATUS * list Z) := body (
  if fat then
    let actual := output in
    let actual := if swap then swap_long actual else actual in
    write (le_bytes 8 actual)
  else
    let actual := output in
    let actual := if swap then swap_int actual else actual in
    write (le_bytes 4 actual)).

(** The loop over the nodes of an element; [nodes] is filled again for the next one. *)
Definition write_nodes c (swap fat : bool) (o2n nodes : list Z) : fn (list Z) unit :=
  count 0 (ref_cell_node_per c) (fun node =>
    let! v := use (aget nodes node) in
    let! k := use (aget o2n v) in
    let! k := use (ck_int (k + 1)) in
    call (ref_export_bin_ugrid_int swap fat k)).

(** The loops over the elements of each id. *)
Definition by_faceid c (min_faceid max_faceid : Z) (b : list Z -> fn (list Z) unit) : fn (list Z) unit :=
  count min_faceid (max_faceid + 1) (fun faceid =>
    each_cell_with_nodes c (fun _ nodes =>
      let! id := use (aget nodes (ref_cell_node_per c)) in
      if id =? faceid then b nodes else fret tt) ;!
    let! _ := use (ck_int (faceid + 1)) in
    fret tt).

Definition ref_export_bin_ugrid g (opened swap fat : bool) : option (REF_STATUS * list Z) :=
  if negb opened then Some (REF_NULL, [])
  else
    let ref_node := grid_node g in
    let int output := call (ref_export_bin_ugrid_int swap fat output) in
    body (
      int (node_n ref_node) ;!
      int (cell_n (ref_grid_tri g)) ;!
      int (cell_n (ref_grid_qua g)) ;!
      int (cell_n (ref_grid_tet g)) ;!
      int (cell_n (ref_grid_pyr g)) ;!
      int (cell_n (ref_grid_pri g)) ;!
      int (cell_n (ref_grid_hex g)) ;!
      let! '(o2n, n2o) := ask (ref_node_compact ref_node) in
      count 0 (node_n ref_node) (fun node =>
        count 0 3 (fun ixyz =>
          let! old := use (aget n2o node) in
          let! x := use (ref_node_xyz ref_node ixyz old) in
          let swapped_dbl := dbl_bytes x in
          let swapped_dbl := if swap then swap_dbl swapped_dbl else swapped_dbl in
          write swapped_dbl)) ;!
      let! '(min_faceid, max_faceid) := ask (ref_export_faceid_range g) in
      by_faceid (ref_grid_tri g) min_faceid max_faceid (write_nodes (ref_grid_tri g) swap fat o2n) ;!
      by_faceid (ref_grid_qua g) min_faceid max_faceid (write_nodes (ref_grid_qua g) swap fat o2n) ;!
      by_faceid (ref_grid_tri g) min_faceid max_faceid (fun nodes => let! id := use (aget nodes 3) in int id) ;!
      by_faceid (ref_grid_qua g) min_faceid max_faceid (fun nodes => let! id := use (aget nodes 4) in int id) ;!
      each types_3d (fun type =>
        each_cell_with_nodes (grid_cell g type) (fun _ nodes => write_nodes (grid_cell g type) swap fat o2n nodes))) [].
End export.

(** ** Import *)

(** The file and the grid under construction. *)
Record IMPORT (D : Type) := mkIMPORT { imp_file : list Z; imp_grid : REF_GRID D }.
#[global] Arguments mkIMPORT {D}.
#[global] Arguments imp_file {D}.
#[global] Arguments imp_grid {D}.
Definition set_file {D} (x : list Z) (s : IMPORT D) := mkIMPORT x (imp_grid s).
Definition set_grid {D} (f : REF_GRID D -> REF_GRID D) (s : IMPORT D) := mkIMPORT (imp_file s) (f (imp_grid s)).

Section import.
Context {D : Type} `{Dbl D, DblBytes D, Junk Z, Junk REF_ADJ_ITEM, Junk D}.

(** [REIS(n, fread(...))] *)
Definition read_items (size : nat) (n : Z) : fn (IMPORT D) (list (list Z)) :=
  let! s := state in
  match fread size n (imp_file s) with
  | Some (items, file) => assign (set_file file) ;! fret items
  | None => leave REF_FAILURE
  end.

(** Values in front of an array that has room for them. *)
Definition store {A} (values a : list A) : option (list A) :=
  if zlen values <=? zlen a then Some (values ++ drop (length values) a) else None.

(** [chunk] after the call. *)
Definition ref_import_bin_ugrid_chunk (swap fat : bool) (n : Z) (chunk : list Z) : fn (IMPORT D) (list Z) :=
  if fat then
    let! actual := ask (Some (ref_malloc (A:=Z) n)) in
    let! items := read_items 8 n in
    let! actual := use (store (map (fun b => wrap 64 (le_value b)) items) actual) in
    let! actual :=
      use (if swap then for_up 0 n (fun i a => let* v := aget a i in aset a i (swap_long v)) actual else Some actual) in
    use (for_up 0 n (fun i chunk => let* v := aget actual i in aset chunk i (wrap 32 v)) chunk)
  else
    let! items := read_items 4 n in
    let! chunk := use (store (map (fun b => wrap 32 (le_value b)) items) chunk) in
    use (if swap then for_up 0 n (fun i a => let* v := aget a i in aset a i (swap_int v)) chunk else Some chunk).

(** [ref_cell_add] and the check of the index that it gives out. *)
Definition import_cell (type : REF_CELL_TYPE) (nodes : list Z) (index : Z) : fn (IMPORT D) unit := fun s =>
  let* '(st, (new_cell, r)) := ref_cell_add (grid_cell (imp_grid s) type) nodes in
  let s := set_grid (set_grid_cell type r) s in
  match st with
  | REF_SUCCESS => require (index =? new_cell) s
  | _ => leave st s
  end.

(** [while (nread < total)] in chunks of at most [max_chunk]; [a] is the buffer. *)
Definition in_chunks {A} (total max_chunk : Z) (b : Z -> Z -> A -> fn (IMPORT D) A) (a : A) : fn (IMPORT D) unit :=
  let! _ :=
    again (S (Z.to_nat total)) (fun '(nread, a) =>
      if nread <? total then
        let chunk := Z.min max_chunk (total - nread) in
        let! a := b nread chunk a in
        fret (Next (nread + chunk, a))
      else fret (Exit tt)) (0, a) in
  fret tt.

Definition ref_import_bin_ugrid_c2n (type : REF_CELL_TYPE) (ncell : Z) (swap fat : bool) : fn (IMPORT D) unit :=
  if 0 <? ncell then
    let! s := state in
    let ref_cell := grid_cell (imp_grid s) type in
    let nodes := alloc REF_CELL_MAX_SIZE_PER in
    let! nodes :=
      use (if ref_cell_node_per ref_cell <? ref_cell_size_per ref_cell
           then aset nodes (ref_cell_node_per ref_cell) REF_EMPTY else Some nodes) in
    let node_per := ref_cell_node_per ref_cell in
    let max_chunk := Z.min 1000000 ncell in
    let! size := use (ck_int (node_per * max_chunk)) in
    let! c2n := ask (Some (ref_malloc size)) in
    in_chunks ncell max_chunk (fun nread chunk c2n =>
      let! n := use (ck_int (node_per * chunk)) in
      let! c2n := ref_import_bin_ugrid_chunk swap fat n c2n in
      count 0 chunk (fun cell =>
        let! nodes :=
          use (for_up 0 node_per (fun node nodes =>
                 let* v := row_get node_per c2n node cell in
                 let* v := ck_int (v - 1) in
                 aset nodes node v) nodes) in
        import_cell type nodes (cell + nread)) ;!
      fret c2n) c2n
  else fret tt.

Definition ref_import_bin_ugrid_bound_tag (type : REF_CELL_TYPE) (ncell : Z) (swap fat : bool) : fn (IMPORT D) unit :=
  if 0 <? ncell then
    let! s := state in
    let node_per := ref_cell_node_per (grid_cell (imp_grid s) type) in
    let max_chunk := Z.min 1000000 ncell in
    let! tag := ask (Some (ref_malloc max_chunk)) in
    in_chunks ncell max_chunk (fun nread chunk tag =>
      let! tag := ref_import_bin_ugrid_chunk swap fat chunk tag in
      count 0 chunk (fun cell =>
        let! v := use (aget tag cell) in
        update (fun s =>
          let r := grid_cell (imp_grid s) type in
          let* c2n := put_c2n (cell_tables r) node_per (nread + cell) v (cell_c2n r) in
          Some (set_grid (set_grid_cell type (set_cell_c2n c2n r)) s))) ;!
      fret tag) tag
  else fret tt.

(** [ref_node_add] and the three assignments to [ref_node_xyz]. *)
Definition import_node (node : Z) (xyz : list D) : fn (IMPORT D) unit := fun s =>
  let* '(st, (new_node, r)) := ref_node_add (grid_node (imp_grid s)) node REF_EMPTY in
  let s := set_grid (set_grid_node r) s in
  match st with
  | REF_SUCCESS =>
      let* real :=
        for_up 0 3 (fun ixyz real =>
          let* x := aget xyz ixyz in
          let* k := real_index ixyz new_node in aset real k x) (node_real r) in
      fret tt (set_grid (set_grid_node (set_node_real real r)) s)
  | _ => leave st s
  end.

(** The loop that reads the vertices: the local array [xyz] holds the bytes of its
    elements. *)
Definition import_nodes (swap : bool) (nnode : Z) : fn (IMPORT D) unit :=
  let max_chunk := Z.min 1000000 nnode in
  let! size := use (ck_int (3 * max_chunk)) in
  let! _ := ask (Some (ref_malloc (A:=Z) size)) in
  in_chunks nnode max_chunk (fun nread chunk (_ : unit) =>
    let! items := read_items 8 (3 * chunk) in
    let xyz := if swap then map swap_dbl items else items in
    count 0 chunk (fun node =>
      let! x := use (aget xyz (0 + 3 * node)) in
      let! y := use (aget xyz (1 + 3 * node)) in
      let! z := use (aget xyz (2 + 3 * node)) in
      import_node (node + nread) [bytes_dbl x; bytes_dbl y; bytes_dbl z])) tt.

(** One number of the header. *)
Definition import_count (swap fat : bool) : fn (IMPORT D) Z :=
  let! chunk := ref_import_bin_ugrid_chunk swap fat 1 (alloc 1) in
  use (aget chunk 0).

(** [file] is [None] when it cannot be opened; the grid is [*ref_grid_ptr]. *)
Definition ref_import_bin_ugrid (ref_mpi : REF_MPI) (file : option (list Z)) (swap fat : bool)
    : option (REF_STATUS * option (REF_GRID D)) :=
  let* '(st, grid) := ref_grid_create ref_mpi in
  RSS st grid (
  match grid, file with
  | Some g, Some bytes =>
      let* '(st, s) :=
        body (
          let! nnode := import_count swap fat in
          let! ntri := import_count swap fat in
          let! nqua := import_count swap fat in
          let! ntet := import_count swap fat in
          let! npyr := import_count swap fat in
          let! npri := import_count swap fat in
          let! nhex := import_count swap fat in
          import_nodes swap nnode ;!
          assign (set_grid (fun g => set_grid_node (snd (ref_node_initialize_n_global (grid_node g) nnode)) g)) ;!
          ref_import_bin_ugrid_c2n REF_CELL_TRI ntri swap fat ;!
          ref_import_bin_ugrid_c2n REF_CELL_QUA nqua swap fat ;!
          ref_import_bin_ugrid_bound_tag REF_CELL_TRI ntri swap fat ;!
          ref_import_bin_ugrid_bound_tag REF_CELL_QUA nqua swap fat ;!
          ref_import_bin_ugrid_c2n REF_CELL_TET ntet swap fat ;!
          ref_import_bin_ugrid_c2n REF_CELL_PYR npyr swap fat ;!
          ref_import_bin_ugrid_c2n REF_CELL_PRI npri swap fat ;!
          ref_import_bin_ugrid_c2n REF_CELL_HEX nhex swap fat) (mkIMPORT bytes g) in
      Some (st, Some (imp_grid s))
  | Some g, None => Some (REF_NULL, Some g)
  | None, _ => Some (REF_FAILURE, None)
  end).
End import.
