(* ===== verification/RefUgridSpec.v ===== *)
(** * The round trip of binary UGRID files

    [UGRID] is what a file says: the points of the vertices and, for each type, the
    nodes of the elements in order, with the id where the type has one. The export
    writes the file of the contents of the grid, in the order in which it numbers
    them, and the import of that file makes a grid with these contents. *)
From S2P Require Import Prelude Rows Effect RefSort RefAdj RefDbl RefMatrix Bytes RefMpi RefNode RefCellType RefCell RefCellSpec RefCellQuery RefGeom RefGrid RefMeasure RowList ElementLoops RefUgrid.
From stdpp Require Import prelude list gmap.
From Stdlib Require Import ZArith Lia SpecFloat.
Open Scope Z_scope.
Open Scope ref_scope.

Record UGRID (D : Type) := mkUGRID { u_xyz : list (list D); u_cells : REF_CELL_TYPE -> list (list Z) }.
#[global] Arguments mkUGRID {D}.
#[global] Arguments u_xyz {D}.
#[global] Arguments u_cells {D}.

(** ** The bytes of a file *)

Section bytes.
Context {D : Type} `{DblBytes D} (swap fat : bool).

Definition ints (l : list Z) : list Z := concat (map (int_bytes swap fat) l).
Definition dbl_out (x : D) : list Z := if swap then swap_dbl (dbl_bytes x) else dbl_bytes x.
(** The nodes of elements, counted from one, and the ids. *)
Definition node_ints (type : REF_CELL_TYPE) (es : list (list Z)) : list Z :=
  ints (concat (map (fun e => map (fun v => v + 1) (ztake (init_node_per type) e)) es)).
Definition id_ints (type : REF_CELL_TYPE) (es : list (list Z)) : list Z :=
  ints (map (fun e => e.[init_node_per type]) es).

Definition ugrid_bytes (u : UGRID D) : list Z :=
  let n type := zlen (u_cells u type) in
  ints [zlen (u_xyz u); n REF_CELL_TRI; n REF_CELL_QUA; n REF_CELL_TET; n REF_CELL_PYR; n REF_CELL_PRI; n REF_CELL_HEX] ++
  concat (map dbl_out (concat (u_xyz u))) ++
  node_ints REF_CELL_TRI (u_cells u REF_CELL_TRI) ++ node_ints REF_CELL_QUA (u_cells u REF_CELL_QUA) ++
  id_ints REF_CELL_TRI (u_cells u REF_CELL_TRI) ++ id_ints REF_CELL_QUA (u_cells u REF_CELL_QUA) ++
  concat (map (fun type => node_ints type (u_cells u type)) types_3d).

Lemma ints_app l l' : ints (l ++ l') = ints l ++ ints l'.
Proof. unfold ints. by rewrite map_app, concat_app. Qed.
Lemma ints_concat ls : ints (concat ls) = concat (map ints ls).
Proof. induction ls as [|l ls IH]; [done|]. cbn [map concat]. by rewrite ints_app, IH. Qed.
End bytes.

(** Membership in a list of types. *)
Ltac in_list := apply (bool_decide_unpack _); vm_compute; exact I.

(** ** The contents of a grid *)

(** The elements in the order of their ids, from [min] to [max]. *)
Definition with_id (c : REF_CELL) (id : Z) : list (list Z) := filter (fun e => e.[ref_cell_node_per c] = id) (entries c).
Definition by_id (c : REF_CELL) (min max : Z) : list (list Z) := seqZ min (max + 1 - min) ≫= with_id c.

(** The place of a node in the order, and an element with its nodes so numbered. *)
Definition place (order : list Z) (v : Z) : Z := from_option (fun p => Z.of_nat p.1) REF_EMPTY (list_find (fun w => v = w) order).
Definition renumber (order : list Z) (type : REF_CELL_TYPE) (e : list Z) : list Z :=
  map (place order) (ztake (init_node_per type) e) ++ drop (Z.to_nat (init_node_per type)) e.

Section contents.
Context {D : Type} `{Inhabited D}.

Definition point_of (r : REF_NODE D) (v : Z) : list D := map (fun i => (node_real r).[i + REF_NODE_REAL_PER * v]) (zrange 3).

(** The range of the ids of the triangles and the quadrilaterals. *)
Definition ids (g : REF_GRID D) : list Z :=
  map (fun e => e.[3]) (entries (ref_grid_tri g)) ++ map (fun e => e.[4]) (entries (ref_grid_qua g)).
Definition least_id (g : REF_GRID D) : Z := foldl Z.min REF_INT_MAX (ids g).
Definition greatest_id (g : REF_GRID D) : Z := foldl Z.max REF_INT_MIN (ids g).

Definition in_order (g : REF_GRID D) (type : REF_CELL_TYPE) : list (list Z) :=
  match type with
  | REF_CELL_TRI | REF_CELL_QUA => by_id (grid_cell g type) (least_id g) (greatest_id g)
  | _ => entries (grid_cell g type)
  end.

Definition ugrid_of (g : REF_GRID D) : UGRID D :=
  let order := compact_order (grid_node g) in
  mkUGRID (map (point_of (grid_node g)) order) (fun type => map (renumber order type) (in_order g type)).
End contents.

(** ** Pieces of the export that only write *)

Definition emits (m : fn (list Z) unit) (b : list Z) : Prop :=
  forall file, fwp m (fun _ file' => file' = file ++ b) (fun _ _ => False) file.

Lemma emits_write b : emits (write b) b.
Proof. intros file. by apply fwp_assign. Qed.
Lemma emits_nil : emits (fret tt) [].
Proof. intros file. apply fwp_ret. by rewrite app_nil_r. Qed.
Lemma emits_bind m k b b' : emits m b -> emits k b' -> emits (m ;! k) (b ++ b').
Proof.
  intros Hm Hk file. apply fwp_bind. eapply fwp_mono; [apply Hm| |done]. intros _ f ->.
  eapply fwp_mono; [apply Hk| |done]. intros _ f' ->. by rewrite app_assoc.
Qed.
Lemma emits_use {A} (m : option A) a k b : m = Some a -> emits (k a) b -> emits (let! x := use m in k x) b.
Proof. intros Hm Hk file. apply fwp_bind, fwp_use. rewrite Hm. apply wp_ret, Hk. Qed.
Lemma emits_ask {A} (m : option (REF_STATUS * A)) a k b :
  m = Some (REF_SUCCESS, a) -> emits (k a) b -> emits (let! x := ask m in k x) b.
Proof. intros Hm Hk file. apply fwp_bind, fwp_ask. rewrite Hm. apply wp_ret. rewrite decide_True by done. apply Hk. Qed.

Lemma seqZ_S lo n : 0 <= n -> seqZ lo (n + 1) = seqZ lo n ++ [lo + n].
Proof. intros Hn. rewrite seqZ_app by lia. by f_equal. Qed.

Lemma emits_count lo hi m (b : Z -> list Z) :
  (forall i, lo <= i < hi -> emits (m i) (b i)) -> emits (count lo hi m) (concat (map b (seqZ lo (hi - lo)))).
Proof.
  intros Hm file. destruct (Z.le_gt_cases lo hi) as [Hle|Hgt].
  - apply fwp_count with (P := fun i f => f = file ++ concat (map b (seqZ lo (i - lo)))); [done| | |by intros ? ->].
    { rewrite Z.sub_diag. change (seqZ lo 0) with (@nil Z). cbn. by rewrite app_nil_r. }
    intros i f Hi ->. eapply fwp_mono; [by apply Hm| |done]. intros _ f' ->.
    replace (i + 1 - lo) with (i - lo + 1) by lia. rewrite seqZ_S, map_app, concat_app by lia. cbn [map concat].
    rewrite app_nil_r, app_assoc. do 3 f_equal. lia.
  - unfold count, through, forx_up. rewrite Z2Nat.nonpos by lia. cbn [forx_nat obind]. apply wp_ret.
    unfold seqZ. rewrite Z2Nat.nonpos by lia. cbn. by rewrite app_nil_r.
Qed.

Lemma zrange_seqZ n : zrange n = seqZ 0 n.
Proof. unfold zrange, seqZ. change (map ?f ?l) with (f <$> l). apply list_fmap_ext. intros i x _. by rewrite Z.add_0_r. Qed.

Lemma emits_each {X} (l : list X) m (b : X -> list Z) :
  (forall x, x ∈ l -> emits (m x) (b x)) -> emits (each l m) (concat (map b l)).
Proof.
  intros Hm file. apply fwp_each with (P := fun pre f => f = file ++ concat (map b pre)); [cbn; by rewrite app_nil_r| |by intros ? ->].
  intros pre x post f -> ->. eapply fwp_mono; [apply Hm; set_solver| |done]. intros _ f' ->.
  rewrite map_app, concat_app. cbn. by rewrite app_nil_r, app_assoc.
Qed.

Section pieces.
Context {D : Type} `{Dbl D, DblBytes D, Junk Z, Junk REF_ADJ_ITEM, Junk D} (swap fat : bool).
Implicit Types (c : REF_CELL) (g : REF_GRID D).

Lemma emits_int z : emits (call (ref_export_bin_ugrid_int swap fat z)) (int_bytes swap fat z).
Proof.
  intros file. apply fwp_call, wp_body. unfold int_bytes, int_size.
  destruct fat, swap; apply fwp_assign; rewrite decide_True by done; by rewrite ?swap_int_bytes, ?swap_long_bytes.
Qed.

(** The numbering and its inverse, as the compaction makes them. *)
Definition numbering (o2n order : list Z) : Prop :=
  NoDup order /\ numbers o2n 0 order /\ (forall v, v ∈ order -> 0 <= v < zlen o2n) /\ zlen order < REF_INT_MAX.

Lemma place_at order k : NoDup order -> 0 <= k < zlen order -> place order order.[k] = k.
Proof.
  intros Hnd Hk. unfold place. pose proof (aat_lookup order k Hk) as Hl.
  destruct (list_find (fun w => order.[k] = w) order) as [[i w]|] eqn:Hf.
  - apply list_find_Some in Hf as (Hi & <- & _). cbn. pose proof (NoDup_lookup _ _ _ _ Hnd Hi Hl). lia.
  - exfalso. apply list_find_None in Hf. rewrite Forall_forall in Hf. apply (Hf order.[k]); [|done].
    apply elem_of_aat. by exists k.
Qed.

Lemma place_o2n o2n order v : numbering o2n order -> v ∈ order -> aget o2n v = Some (place order v) /\ 0 <= place order v < zlen order.
Proof.
  intros (Hnd & Hnum & Hr & _) Hv. pose proof (Hr v Hv) as Hrange. apply elem_of_aat in Hv as (k & Hk & <-).
  rewrite place_at by done. split; [|done]. rewrite aget_aat by done. f_equal. by rewrite Hnum.
Qed.

Lemma emits_nodes c bl cell e nodes o2n order :
  cell_wf c bl -> cell_at c cell = Some e -> ztake (ref_cell_size_per c) nodes = e ->
  zlen nodes = REF_CELL_MAX_SIZE_PER ->
  numbering o2n order -> Forall (fun v => v ∈ order) (nodes_of (cell_tables c) e) ->
  emits (write_nodes c swap fat o2n nodes)
    (ints swap fat (map (fun v => v + 1) (map (place order) (ztake (ref_cell_node_per c) e)))).
Proof.
  intros Hwf He Hn Hz Hnum Hin. destruct (node_per_bounds c bl Hwf) as [Hb Hb2].
  pose proof (zlen_entries _ _ _ _ Hwf He) as Hze. fold (ref_cell_size_per c) in Hze.
  unfold ints. rewrite !map_map.
  assert (Hmap : map (fun x => int_bytes swap fat (place order x + 1)) (ztake (ref_cell_node_per c) e) =
    map (fun i => int_bytes swap fat (place order e.[i] + 1)) (seqZ 0 (ref_cell_node_per c - 0))).
  { rewrite Z.sub_0_r, <- zrange_seqZ. apply arr_ext.
    - rewrite !zlen_map, zlen_zrange, zlen_ztake by lia. done.
    - intros i Hi. rewrite zlen_map, zlen_ztake in Hi by lia.
      rewrite !aat_map by (rewrite ?zlen_zrange, ?zlen_ztake by lia; lia). by rewrite aat_ztake, aat_zrange by lia. }
  rewrite Hmap. apply emits_count. intros i Hi.
  assert (Hget : aget nodes i = Some e.[i]).
  { rewrite aget_aat by (unfold REF_CELL_MAX_SIZE_PER in *; lia). f_equal. rewrite <- Hn. by rewrite aat_ztake by (unfold REF_CELL_MAX_SIZE_PER in *; lia). }
  apply (emits_use _ _ _ _ Hget).
  assert (Hv : e.[i] ∈ order).
  { rewrite Forall_forall in Hin. apply Hin. unfold nodes_of. fold (ref_cell_node_per c). apply elem_of_aat. exists i.
    rewrite zlen_ztake, aat_ztake by lia. done. }
  destruct (place_o2n o2n order _ Hnum Hv) as [Hk Hr]. apply (emits_use _ _ _ _ Hk).
  destruct Hnum as (_ & _ & _ & Hsize).
  eapply emits_use; [apply wp_eq, wp_ck_int; [unfold REF_INT_MIN; lia|done]|]. apply emits_int.
Qed.

Lemma emits_cells c bl (b : Z -> list Z -> fn (list Z) unit) (out : list Z -> list Z) :
  cell_wf c bl ->
  (forall cell e nodes, cell_at c cell = Some e -> zlen nodes = REF_CELL_MAX_SIZE_PER ->
     ztake (ref_cell_size_per c) nodes = e -> emits (b cell nodes) (out e)) ->
  emits (each_cell_with_nodes c b) (concat (map out (entries c))).
Proof.
  intros Hwf Hb file.
  apply (fwp_each_cell_with_nodes (fun l f => f = file ++ concat (map out l)) (fun e => [e]) c bl _ []);
    [done|cbn; by rewrite app_nil_r| |by intros ? ->].
  intros cell e nodes pre f He Hz Hn ->. eapply fwp_mono; [by eapply Hb| |done]. intros _ f' ->.
  change ([] ++ pre) with pre. rewrite map_app, concat_app. cbn. by rewrite app_nil_r, app_assoc.
Qed.

Lemma concat_filter {X} (P : X -> Prop) `{!forall x, Decision (P x)} (out : X -> list Z) l :
  concat (map (fun x => if decide (P x) then out x else []) l) = concat (map out (filter P l)).
Proof.
  induction l as [|x l IH]; [done|]. cbn [map concat]. rewrite IH, filter_cons. by case_decide.
Qed.
Lemma concat_bind {X Y} (f : X -> list Y) (out : Y -> list Z) l :
  concat (map (fun x => concat (map out (f x))) l) = concat (map out (l ≫= f)).
Proof.
  induction l as [|x l IH]; [done|]. cbn [map concat mbind list_bind]. by rewrite IH, map_app, concat_app.
Qed.

Lemma emits_by_id c bl min max b (out : list Z -> list Z) :
  cell_wf c bl -> REF_INT_MIN <= min -> max < REF_INT_MAX -> ref_cell_node_per c < ref_cell_size_per c ->
  (forall cell e nodes, cell_at c cell = Some e -> zlen nodes = REF_CELL_MAX_SIZE_PER ->
     ztake (ref_cell_size_per c) nodes = e -> emits (b nodes) (out e)) ->
  emits (by_faceid c min max b) (concat (map out (by_id c min max))).
Proof.
  intros Hwf Hmin Hmax Hid Hb. unfold by_id. rewrite <- concat_bind.
  destruct (node_per_bounds c bl Hwf) as [Hb1 Hb2].
  apply emits_count. intros faceid Hf. rewrite <- (app_nil_r (concat _)). apply emits_bind.
  - unfold with_id. rewrite <- concat_filter. eapply emits_cells; [exact Hwf|]. intros cell e nodes He Hz Hn.
    assert (Hget : aget nodes (ref_cell_node_per c) = Some e.[ref_cell_node_per c]).
    { rewrite aget_aat by (unfold REF_CELL_MAX_SIZE_PER in *; lia). f_equal. rewrite <- Hn.
      by rewrite aat_ztake by (unfold REF_CELL_MAX_SIZE_PER in *; lia). }
    apply (emits_use _ _ _ _ Hget). case Z.eqb_spec; intros Heq.
    + rewrite decide_True by done. by eapply Hb.
    + rewrite decide_False by done. apply emits_nil.
  - eapply emits_use; [apply wp_eq, wp_ck_int; [lia|done]|]. apply emits_nil.
Qed.

(** ** The range of the ids *)

Lemma widen_range_ok c bl mn mx :
  cell_wf c bl -> ref_cell_id_index c = ref_cell_node_per c -> ref_cell_node_per c < ref_cell_size_per c ->
  wp (widen_range c (mn, mx)) (fun r =>
    r = (foldl Z.min mn (map (fun e => e.[ref_cell_node_per c]) (entries c)),
         foldl Z.max mx (map (fun e => e.[ref_cell_node_per c]) (entries c)))).
Proof.
  intros Hwf Hidx Hid. pose proof (cw_max _ _ Hwf) as Hmax. destruct (node_per_bounds c bl Hwf) as [Hb1 Hb2].
  unfold widen_range, each_ref_cell_valid_cell_with_nodes. apply wp_bind. set (idof := fun e : list Z => e.[ref_cell_node_per c]).
  apply wp_for_up with (P := fun i '(s, nodes) => zlen nodes = REF_CELL_MAX_SIZE_PER /\
    let l := map idof (items_below (fun e => [e]) c i) in s = (foldl Z.min mn l, foldl Z.max mx l)); [lia| | |].
  - split; [by rewrite zlen_alloc|]. by change (items_below _ c 0) with (@nil (list Z)).
  - intros i [s nodes] Hi [Hz ->]. apply wp_bind.
    eapply wp_mono; [apply (ref_cell_nodes_ok c bl); [done|unfold REF_CELL_MAX_SIZE_PER, ref_cell_size_per in *; lia]|].
    intros [st nodes'] Hn. rewrite items_below_S by lia. destruct (cell_at c i) as [e|] eqn:He.
    + destruct Hn as (-> & Hzn & Hn). rewrite bool_decide_eq_true_2 by done.
      assert (Hget : aget nodes' (ref_cell_id_index c) = Some (idof e)).
      { rewrite Hidx, aget_aat by (unfold REF_CELL_MAX_SIZE_PER in *; lia). f_equal. unfold idof. rewrite <- Hn.
        by rewrite aat_ztake by (unfold REF_CELL_MAX_SIZE_PER, ref_cell_size_per in *; lia). }
      apply wp_bind. rewrite Hget. apply wp_ret, wp_ret. split; [lia|]. cbv zeta. rewrite map_app. change (map idof [e]) with [idof e]. by rewrite !foldl_snoc.
    + destruct Hn as [-> ->]. rewrite bool_decide_eq_false_2 by done. apply wp_ret. split; [done|]. by rewrite app_nil_r.
  - intros [s nodes] [_ ->]. by apply wp_ret.
Qed.
End pieces.

Section whole.
Context {D : Type} `{Dbl D, DblBytes D, Junk Z, Junk REF_ADJ_ITEM, Junk D} (swap fat : bool).
Implicit Types (c : REF_CELL) (g : REF_GRID D).

(** What the export needs: the grid is in order, its elements have vertices of the grid
    and its ids and coordinates have a representation. *)
Record exportable g : Prop := {
  eg_node : node_wf (grid_node g);
  eg_size : node_n (grid_node g) <= node_budget;
  eg_real : REF_NODE_REAL_PER * node_max (grid_node g) <= REF_INT_MAX;
  eg_cell : forall type, type ∈ types_2d_3d -> exists bl, cell_wf (grid_cell g type) bl;
  eg_type : forall type, cell_tables (grid_cell g type) = snd (ref_cell_initialize type);
  eg_nodes : forall type cell e, type ∈ types_2d_3d -> cell_at (grid_cell g type) cell = Some e ->
    Forall (fun v => v ∈ valid_nodes (grid_node g)) (nodes_of (cell_tables (grid_cell g type)) e);
  eg_count : forall type, type ∈ types_2d_3d -> cell_n (grid_cell g type) <= cell_budget;
  eg_ids : Forall (fun id => REF_INT_MIN <= id < REF_INT_MAX) (ids g);
  eg_rep : forall v, v ∈ valid_nodes (grid_node g) -> Forall dbl_rep (point_of (grid_node g) v)
}.

Lemma foldl_min l a : foldl Z.min a l <= a /\ Forall (fun x => foldl Z.min a l <= x) l /\
  (forall k, k <= a -> Forall (fun x => k <= x) l -> k <= foldl Z.min a l).
Proof.
  revert a. induction l as [|x l IH]; intros a; cbn [foldl]; [split; [lia|]; split; [apply Forall_nil_2|done]|].
  destruct (IH (a `min` x)) as (H1' & H2' & H3'). split; [lia|]. split; [apply Forall_cons; split; [lia|done]|].
  intros k Hk [Hx Hl]%Forall_cons. apply H3'; [lia|done].
Qed.
Lemma foldl_max l a : a <= foldl Z.max a l /\ Forall (fun x => x <= foldl Z.max a l) l /\
  (forall k, a <= k -> Forall (fun x => x <= k) l -> foldl Z.max a l <= k).
Proof.
  revert a. induction l as [|x l IH]; intros a; cbn [foldl]; [split; [lia|]; split; [apply Forall_nil_2|done]|].
  destruct (IH (a `max` x)) as (H1' & H2' & H3'). split; [lia|]. split; [apply Forall_cons; split; [lia|done]|].
  intros k Hk [Hx Hl]%Forall_cons. apply H3'; [lia|done].
Qed.

Lemma id_bounds g : exportable g ->
  REF_INT_MIN <= least_id g /\ greatest_id g < REF_INT_MAX /\ Forall (fun id => least_id g <= id <= greatest_id g) (ids g).
Proof.
  intros He. pose proof (eg_ids g He) as Hids. unfold least_id, greatest_id.
  destruct (foldl_min (ids g) REF_INT_MAX) as (_ & Hmin & Hmin2), (foldl_max (ids g) REF_INT_MIN) as (_ & Hmax & Hmax2).
  split; [apply Hmin2; [done|]; eapply Forall_impl; [exact Hids|]; cbn; lia|]. split.
  - enough (foldl Z.max REF_INT_MIN (ids g) <= REF_INT_MAX - 1) by lia. apply Hmax2; [done|].
    eapply Forall_impl; [exact Hids|]; cbn; lia.
  - rewrite Forall_forall in *. intros id Hid. by split; [apply Hmin|apply Hmax].
Qed.

Lemma tables_of g type : exportable g -> ref_cell_node_per (grid_cell g type) = init_node_per type /\
  ref_cell_size_per (grid_cell g type) = init_node_per type + (if init_last_node_is_an_id type then 1 else 0).
Proof. intros He. unfold ref_cell_node_per, ref_cell_size_per. by rewrite (eg_type g He type). Qed.

Lemma ref_export_faceid_range_ok g :
  exportable g -> ref_export_faceid_range g = Some (REF_SUCCESS, (least_id g, greatest_id g)).
Proof.
  intros He. destruct (eg_cell g He REF_CELL_TRI ltac:(set_solver)) as [bl1 H1'].
  destruct (eg_cell g He REF_CELL_QUA ltac:(set_solver)) as [bl2 H2'].
  destruct (tables_of g REF_CELL_TRI He) as [Hn1 Hs1], (tables_of g REF_CELL_QUA He) as [Hn2 Hs2]. cbn in Hn1, Hs1, Hn2, Hs2.
  unfold ref_export_faceid_range. apply wp_eq, wp_bind.
  eapply wp_mono; [eapply widen_range_ok; [exact H1'|done|unfold ref_grid_tri; lia]|].
  intros r1 ->. apply wp_bind.
  eapply wp_mono; [eapply widen_range_ok; [exact H2'|done|unfold ref_grid_qua; lia]|].
  intros r2 ->. apply wp_ret. unfold least_id, greatest_id, ids. rewrite !foldl_app.
  unfold ref_grid_tri, ref_grid_qua in *. by rewrite Hn1, Hn2.
Qed.

Lemma compact_numbering g : exportable g ->
  exists o2n, ref_node_compact (grid_node g) = Some (REF_SUCCESS, (o2n, compact_order (grid_node g))) /\
    numbering o2n (compact_order (grid_node g)) /\ compact_order (grid_node g) ≡ₚ valid_nodes (grid_node g) /\
    zlen (compact_order (grid_node g)) = node_n (grid_node g).
Proof.
  intros He. pose proof (eg_node g He) as Hwf. destruct (ref_node_compact_numbers _ Hwf) as (o2n & Hc & Hz & Hp & Hnum & _).
  exists o2n. destruct Hwf as [[bl Hcore] _].
  assert (Hlen : zlen (compact_order (grid_node g)) = node_n (grid_node g)).
  { rewrite (nc_n _ _ Hcore). unfold zlen. by rewrite Hp. }
  split; [done|]. split; [|done]. split; [by rewrite Hp; apply NoDup_valid_nodes|]. split; [done|]. split.
  - intros v Hv. rewrite Hp in Hv. rewrite Hz. by apply elem_of_valid_nodes in Hv as [? _].
  - rewrite Hlen. pose proof (eg_size g He). unfold node_budget, REF_INT_MAX in *. lia.
Qed.

Lemma ref_node_xyz_at g i v : exportable g -> v ∈ valid_nodes (grid_node g) -> 0 <= i < 3 ->
  ref_node_xyz (grid_node g) i v = Some (node_real (grid_node g)).[i + REF_NODE_REAL_PER * v].
Proof.
  intros He [Hv _]%elem_of_valid_nodes Hi. pose proof (eg_real g He) as Hr. destruct (eg_node g He) as [[bl Hc] _].
  pose proof (nc_real _ _ Hc) as Hz. unfold ref_node_xyz, REF_NODE_REAL_PER in *.
  rewrite real_index_ok by (unfold REF_NODE_REAL_PER; lia). cbn [obind]. by rewrite aget_aat by (unfold REF_NODE_REAL_PER; lia).
Qed.

Lemma in_order_entry g type e : e ∈ in_order g type -> exists cell, cell_at (grid_cell g type) cell = Some e.
Proof.
  assert (Hby : e ∈ by_id (grid_cell g type) (least_id g) (greatest_id g) -> e ∈ entries (grid_cell g type)).
  { intros (id & Hin & _)%list_elem_of_bind. by apply list_elem_of_filter in Hin as [_ ?]. }
  intros Hin. apply entry_of. destruct type; try exact Hin; by apply Hby.
Qed.

(** The entries of an element have the length of its type. *)
Lemma entry_length g type cell e : exportable g -> type ∈ types_2d_3d -> cell_at (grid_cell g type) cell = Some e ->
  zlen e = init_node_per type + (if init_last_node_is_an_id type then 1 else 0).
Proof.
  intros He Ht Hat. destruct (eg_cell g He type Ht) as [bl Hwf]. rewrite (zlen_entries _ _ _ _ Hwf Hat).
  exact (proj2 (tables_of g type He)).
Qed.

Lemma node_per_pos type : 2 <= init_node_per type.
Proof. by destruct type. Qed.

Lemma renumber_nodes order type e : init_node_per type <= zlen e ->
  ztake (init_node_per type) (renumber order type e) = map (place order) (ztake (init_node_per type) e).
Proof.
  intros Hz. pose proof (node_per_pos type). unfold renumber, ztake. apply take_app_length'.
  rewrite length_map, length_take. unfold zlen in Hz. lia.
Qed.
Lemma renumber_id order type e : init_node_per type < zlen e -> (renumber order type e).[init_node_per type] = e.[init_node_per type].
Proof.
  intros Hz. pose proof (node_per_pos type). unfold renumber.
  assert (Hl : zlen (map (place order) (ztake (init_node_per type) e)) = init_node_per type) by (rewrite zlen_map, zlen_ztake; lia).
  rewrite aat_app_r by lia. rewrite Hl, Z.sub_diag. unfold aat, aget. rewrite !(proj2 (Z.ltb_ge _ _)) by lia.
  rewrite lookup_drop. f_equal. change (Z.to_nat 0) with 0%nat. by rewrite Nat.add_0_r.
Qed.

Lemma node_ints_renumber order type l :
  Forall (fun e => init_node_per type <= zlen e) l ->
  node_ints swap fat type (map (renumber order type) l) =
  concat (map (fun e => ints swap fat (map (fun v => v + 1) (map (place order) (ztake (init_node_per type) e)))) l).
Proof.
  intros Hl. unfold node_ints. rewrite ints_concat, !map_map. f_equal. apply map_ext_in. intros e He%list_elem_of_In.
  rewrite Forall_forall in Hl. by rewrite renumber_nodes by (by apply Hl).
Qed.
Lemma id_ints_renumber order type l :
  Forall (fun e => init_node_per type < zlen e) l ->
  id_ints swap fat type (map (renumber order type) l) = concat (map (fun e => int_bytes swap fat e.[init_node_per type]) l).
Proof.
  intros Hl. unfold id_ints, ints. rewrite !map_map. f_equal. apply map_ext_in. intros e He%list_elem_of_In.
  rewrite Forall_forall in Hl. by rewrite renumber_id by (by apply Hl).
Qed.

Lemma entry_lengths g type : exportable g -> type ∈ types_2d_3d ->
  Forall (fun e => init_node_per type <= zlen e) (in_order g type) /\
  (init_last_node_is_an_id type = true -> Forall (fun e => init_node_per type < zlen e) (in_order g type)).
Proof.
  intros He Ht. split; [|intros Hid]; apply Forall_forall; intros e (cell & Hat)%in_order_entry;
    rewrite (entry_length g type cell e He Ht Hat); [destruct (init_last_node_is_an_id type); lia|rewrite Hid; lia].
Qed.

Lemma emits_points g : exportable g ->
  emits (count 0 (node_n (grid_node g)) (fun node =>
      count 0 3 (fun ixyz =>
        let! old := use (aget (compact_order (grid_node g)) node) in
        let! x := use (ref_node_xyz (grid_node g) ixyz old) in
        let swapped_dbl := dbl_bytes x in
        let swapped_dbl := if swap then swap_dbl swapped_dbl else swapped_dbl in
        write swapped_dbl)))
    (concat (map (dbl_out swap) (concat (map (point_of (grid_node g)) (compact_order (grid_node g)))))).
Proof.
  intros He. destruct (compact_numbering g He) as (o2n & _ & _ & Hp & Hlen). set (order := compact_order (grid_node g)) in *.
  assert (Hb : concat (map (dbl_out swap) (concat (map (point_of (grid_node g)) order))) =
    concat (map (fun node => concat (map (fun i => dbl_out swap (node_real (grid_node g)).[i + REF_NODE_REAL_PER * order.[node]]) (seqZ 0 (3 - 0))))
      (seqZ 0 (node_n (grid_node g) - 0)))).
  { clearbody order. rewrite !Z.sub_0_r, <- Hlen, <- !zrange_seqZ.
    transitivity (concat (map (fun v => concat (map (dbl_out swap) (point_of (grid_node g) v))) order)).
    - clear. induction order as [|v l IH]; [done|]. cbn [map concat]. by rewrite map_app, concat_app, IH.
    - assert (Hz : map (fun node => order.[node]) (zrange (zlen order)) = order).
      { apply arr_ext; [rewrite zlen_map, zlen_zrange; [done|apply zlen_nonneg]|]. intros i Hi.
        rewrite zlen_map, zlen_zrange in Hi by apply zlen_nonneg.
        rewrite aat_map, aat_zrange by (rewrite ?zlen_zrange by apply zlen_nonneg; lia). done. }
      rewrite <- Hz at 1. by rewrite map_map. }
  rewrite Hb. apply emits_count. intros node Hn. apply emits_count. intros i Hi.
  eapply emits_use; [apply aget_aat; lia|]. eapply emits_use; [|apply emits_write].
  apply ref_node_xyz_at; [done| |lia]. rewrite <- Hp. apply elem_of_aat. exists node. split; [lia|done].
Qed.

Lemma emits_by_type g type o2n : exportable g -> type ∈ types_2d_3d -> numbering o2n (compact_order (grid_node g)) ->
  emits (each_cell_with_nodes (grid_cell g type) (fun _ nodes => write_nodes (grid_cell g type) swap fat o2n nodes))
    (node_ints swap fat type (map (renumber (compact_order (grid_node g)) type) (entries (grid_cell g type)))) /\
  (init_last_node_is_an_id type = true ->
   emits (by_faceid (grid_cell g type) (least_id g) (greatest_id g) (write_nodes (grid_cell g type) swap fat o2n))
     (node_ints swap fat type (map (renumber (compact_order (grid_node g)) type) (by_id (grid_cell g type) (least_id g) (greatest_id g))))).
Proof.
  intros He Ht Hnum. destruct (compact_numbering g He) as (_ & _ & _ & Hp & _). destruct (eg_cell g He type Ht) as [bl Hwf].
  destruct (id_bounds g He) as (Hmin & Hmax & _). destruct (tables_of g type He) as [Hn Hs].
  assert (Hz : forall l, (forall e, e ∈ l -> exists cell, cell_at (grid_cell g type) cell = Some e) ->
    Forall (fun e => init_node_per type <= zlen e) l).
  { intros l Hl. apply Forall_forall. intros e (cell & Hat)%Hl. rewrite (entry_length g type cell e He Ht Hat). destruct (init_last_node_is_an_id type); lia. }
  assert (Hnodes : forall cell e nodes, cell_at (grid_cell g type) cell = Some e -> zlen nodes = REF_CELL_MAX_SIZE_PER ->
    ztake (ref_cell_size_per (grid_cell g type)) nodes = e ->
    emits (write_nodes (grid_cell g type) swap fat o2n nodes)
      (ints swap fat (map (fun v => v + 1) (map (place (compact_order (grid_node g))) (ztake (init_node_per type) e))))).
  { intros cell e nodes Hat Hzn Htake. rewrite <- Hn. eapply emits_nodes; try done.
    eapply Forall_impl; [exact (eg_nodes g He type cell e Ht Hat)|]. cbn. intros v Hv. by rewrite Hp. }
  split; [|intros Hid]; rewrite node_ints_renumber.
  - eapply emits_cells; [exact Hwf|]. intros cell e nodes. apply Hnodes.
  - apply Hz. intros e. apply entry_of.
  - eapply emits_by_id; [exact Hwf|done|done|rewrite Hn, Hs, Hid; lia|]. intros cell e nodes. apply Hnodes.
  - apply Hz. intros e (id & Hin & _)%list_elem_of_bind. apply list_elem_of_filter in Hin as [_ Hin]. by apply entry_of.
Qed.

Lemma emits_ids g type k : exportable g -> type ∈ types_2d_3d -> init_last_node_is_an_id type = true -> k = init_node_per type ->
  emits (by_faceid (grid_cell g type) (least_id g) (greatest_id g) (fun nodes =>
      let! id := use (aget nodes k) in call (ref_export_bin_ugrid_int swap fat id)))
    (id_ints swap fat type (map (renumber (compact_order (grid_node g)) type) (by_id (grid_cell g type) (least_id g) (greatest_id g)))).
Proof.
  intros He Ht Hid ->. destruct (eg_cell g He type Ht) as [bl Hwf].
  destruct (id_bounds g He) as (Hmin & Hmax & _). destruct (tables_of g type He) as [Hn Hs]. rewrite Hid in Hs.
  rewrite id_ints_renumber.
  - eapply emits_by_id; [exact Hwf|done|done|lia|]. intros cell e nodes Hat Hzn Htake. pose proof (node_per_pos type).
    destruct (node_per_bounds _ _ Hwf) as [_ Hb]. eapply emits_use; [|apply emits_int].
    rewrite aget_aat by (unfold REF_CELL_MAX_SIZE_PER in *; lia). f_equal. rewrite <- Htake.
    by rewrite aat_ztake by (unfold REF_CELL_MAX_SIZE_PER in *; lia).
  - apply Forall_forall. intros e (id & Hin & _)%list_elem_of_bind. apply list_elem_of_filter in Hin as [_ Hin].
    apply entry_of in Hin as [cell Hat]. rewrite (entry_length g type cell e He Ht Hat), Hid. lia.
Qed.
End whole.

(** The elements of each id are all elements. *)
Lemma buckets {X} (key : X -> Z) (ks : list Z) (l : list X) :
  NoDup ks -> Forall (fun x => key x ∈ ks) l -> (ks ≫= fun k => filter (fun x => key x = k) l) ≡ₚ l.
Proof.
  revert l. induction ks as [|k ks IH]; intros l Hnd Hl.
  - destruct l as [|x l]; [done|]. apply Forall_cons in Hl as [Hx _]. by apply not_elem_of_nil in Hx.
  - apply NoDup_cons in Hnd as [Hk Hnd]. cbn [mbind list_bind].
    etransitivity; [|apply (filter_split (fun x => key x = k) (fun x => key x <> k) l); done]. f_equiv.
    etransitivity; [|apply (IH (filter (fun x => key x <> k) l) Hnd)].
    + assert (Hext : forall k', k' ∈ ks ->
        filter (fun x => key x = k') (filter (fun x => key x <> k) l) = filter (fun x => key x = k') l).
      { intros k' Hk'. rewrite list_filter_filter. apply list_filter_iff. intros x. split; [tauto|]. intros <-. split; [done|].
        intros Heq. by rewrite Heq in Hk'. }
      clear -Hext. induction ks as [|k' ks IH]; [done|]. cbn [mbind list_bind]. rewrite Hext by set_solver. f_equiv.
      apply IH. intros k'' Hk''. apply Hext. set_solver.
    + apply Forall_forall. intros x [Hne Hx]%list_elem_of_filter. rewrite Forall_forall in Hl. specialize (Hl x Hx). set_solver.
Qed.

Section export_ok.
Context {D : Type} `{Dbl D, DblBytes D, Junk Z, Junk REF_ADJ_ITEM, Junk D} (swap fat : bool).
Implicit Types (c : REF_CELL) (g : REF_GRID D).

Lemma by_id_perm g type : exportable g -> type ∈ [REF_CELL_TRI; REF_CELL_QUA] ->
  by_id (grid_cell g type) (least_id g) (greatest_id g) ≡ₚ entries (grid_cell g type).
Proof.
  intros He Ht. destruct (id_bounds g He) as (_ & _ & Hin). unfold by_id, with_id.
  apply buckets; [apply NoDup_seqZ|]. apply Forall_forall. intros e He'. apply elem_of_seqZ.
  rewrite Forall_forall in Hin. destruct (tables_of g type He) as [Hn _]. rewrite Hn.
  enough (e.[init_node_per type] ∈ ids g) as Hid by (specialize (Hin _ Hid); lia).
  unfold ids. apply elem_of_app. assert (type = REF_CELL_TRI \/ type = REF_CELL_QUA) as [->| ->] by set_solver; [left|right];
    apply list_elem_of_fmap; by exists e.
Qed.

Lemma in_order_perm g type : exportable g -> type ∈ types_2d_3d -> in_order g type ≡ₚ entries (grid_cell g type).
Proof. intros He Ht. destruct type; try done; by apply by_id_perm; [done|set_solver]. Qed.

Lemma zlen_in_order g type : exportable g -> type ∈ types_2d_3d -> zlen (in_order g type) = cell_n (grid_cell g type).
Proof.
  intros He Ht. destruct (eg_cell g He type Ht) as [bl Hwf]. rewrite <- (zlen_entries_of _ bl Hwf).
  unfold zlen. by rewrite (in_order_perm g type He Ht).
Qed.

Lemma ref_export_bin_ugrid_ok g :
  exportable g -> ref_export_bin_ugrid g true swap fat = Some (REF_SUCCESS, ugrid_bytes swap fat (ugrid_of g)).
Proof.
  intros He. destruct (compact_numbering g He) as (o2n & Hcompact & Hnum & Hp & Hlen).
  assert (Hout : forall m b, emits m b -> body m [] = Some (REF_SUCCESS, b)).
  { intros m b Hm. apply wp_eq, wp_body. eapply fwp_mono; [apply Hm|by intros _ f ->|done]. }
  unfold ref_export_bin_ugrid. cbn [negb]. apply Hout. unfold ugrid_bytes.
  assert (Hcount : forall type, type ∈ types_2d_3d -> zlen (u_cells (ugrid_of g) type) = cell_n (grid_cell g type)).
  { intros type Ht. cbn. rewrite zlen_map. by apply zlen_in_order. }
  cbn [u_xyz ugrid_of]. rewrite zlen_map, Hlen, !Hcount by in_list.
  unfold ints at 1. cbn [map concat]. rewrite <- !app_assoc, app_nil_l.
  do 7 (apply emits_bind; [apply emits_int|]).
  apply (emits_ask _ _ _ _ Hcompact). apply emits_bind; [by apply emits_points|].
  apply (emits_ask _ _ _ _ (ref_export_faceid_range_ok g He)).
  apply emits_bind; [apply (emits_by_type swap fat g REF_CELL_TRI o2n He); [in_list|done|done]|].
  apply emits_bind; [apply (emits_by_type swap fat g REF_CELL_QUA o2n He); [in_list|done|done]|].
  apply emits_bind; [apply (emits_ids swap fat g REF_CELL_TRI 3 He); [in_list|done|done]|].
  apply emits_bind; [apply (emits_ids swap fat g REF_CELL_QUA 4 He); [in_list|done|done]|].
  apply emits_each. intros type Ht.
  assert (Hin : in_order g type = entries (grid_cell g type)).
  { revert Ht. destruct type; try done; intros Ht; exfalso; revert Ht; in_list. }
  cbn [u_cells ugrid_of]. rewrite Hin. apply (emits_by_type swap fat g type o2n He); [|done].
  change types_2d_3d with (take 5 types_2d_3d ++ types_3d). apply elem_of_app. by right.
Qed.
End export_ok.
