(* ===== verification/RefUgridImport.v ===== *)
(** * The import of binary UGRID files

    The structures that the import fills never lose a vertex or an element, so the
    next vertex or element gets the next index, and the grid that is made holds the
    contents of the file in their order. *)
From S2P Require Import Prelude Rows Effect RefSort RefAdj RefDbl RefMatrix Bytes RefMpi RefNode RefCellType RefCell RefCellSpec RefCellQuery RefGeom RefGrid RefMeasure RefCavityReplace RefCavitySwap RowList ElementLoops RefUgrid RefUgridSpec.
From stdpp Require Import prelude list gmap.
From Stdlib Require Import ZArith Lia SpecFloat.
Open Scope Z_scope.
Open Scope ref_scope.


(** ** What the import has made so far *)

Section loaded.
Context {D : Type} `{Dbl D, DblBytes D, Junk Z, Junk REF_ADJ_ITEM, Junk D, !LogIdentity D}.

(** The nodes below [n], in a structure that never lost one. *)
Record fresh_nodes (n : Z) (r : REF_NODE D) : Prop := {
  fn_core : node_core r (seqZ n (node_max r - n));
  fn_sorted : node_sorted r;
  fn_size : node_size n r;
  fn_n : node_n r = n;
  fn_global : forall i, 0 <= i < n -> (node_global r).[i] = i;
  fn_part : forall i, 0 <= i < n -> (node_part r).[i] = ref_mpi_rank (node_mpi r);
  fn_valid : forall i, i ∈ valid_nodes r <-> 0 <= i < n
}.
(** The vertices with these points. *)
Definition loaded_nodes (pts : list (list D)) (r : REF_NODE D) : Prop :=
  fresh_nodes (zlen pts) r /\ forall i, 0 <= i < zlen pts -> point_of r i = pts.[i].

(** The elements below the number of rows. *)
Record loaded_cells (type : REF_CELL_TYPE) (es : list (list Z)) (c : REF_CELL) : Prop := {
  lc_wf : cell_wf c (seqZ (zlen es) (cell_max c - zlen es));
  lc_tables : cell_tables c = snd (ref_cell_initialize type);
  lc_n : cell_n c = zlen es;
  lc_size : 2 * cell_max c <= 10000 + 5 * zlen es;
  lc_at : forall k, cell_at c k = if decide (0 <= k < zlen es) then Some es.[k] else None
}.

Lemma fresh_nodes_real n r real : fresh_nodes n r -> zlen real = zlen (node_real r) -> fresh_nodes n (set_node_real real r).
Proof.
  intros [Hc Hs Hz Hn Hg Hp Hv] Hl. constructor; try done.
  - destruct Hc. constructor; try done. cbn. lia.
  - by destruct Hs; constructor.
Qed.

(** The next row to give out, and those after it. *)
Lemma next_blank n max max' node rest :
  0 <= n <= max -> max' = max \/ (n = max /\ max < max') ->
  node :: rest = blank_after (seqZ n (max - n)) max max' -> node = n /\ rest = seqZ (n + 1) (max' - (n + 1)).
Proof.
  intros Hn Hmax Hb. destruct (Z.eq_dec n max) as [->|Hne].
  - rewrite Z.sub_diag in Hb. change (seqZ max 0) with (@nil Z) in Hb. cbn [blank_after] in Hb.
    destruct Hmax as [->|[_ Hlt]]; [by rewrite Z.sub_diag in Hb|]. rewrite seqZ_cons in Hb by lia.
    injection Hb as -> ->. split; [done|]. f_equal; lia.
  - destruct Hmax as [->|[? _]]; [|lia]. rewrite seqZ_cons in Hb by lia. cbn [blank_after] in Hb.
    injection Hb as -> ->. split; [done|]. f_equal; lia.
Qed.

Lemma fresh_lookup n r g i : fresh_nodes n r -> node_map r !! g = Some i <-> 0 <= g < n /\ i = g.
Proof.
  intros Hf. rewrite (node_map_lookup r _ _ _ (fn_core _ _ Hf)), (fn_valid _ _ Hf). split.
  - intros [Hi Hg]. rewrite (fn_global _ _ Hf) in Hg by done. subst g. done.
  - intros [Hg ->]. split; [done|by apply (fn_global _ _ Hf)].
Qed.

Lemma fresh_room n r : fresh_nodes n r -> n < node_budget -> node_room r /\ 0 <= n.
Proof.
  intros [Hc _ Hz _ _ _ _] Hb. pose proof (nc_max _ _ Hc). pose proof Hz as (Hn0 & _ & _).
  by destruct (node_size_room r n ltac:(lia) Hz ltac:(lia)).
Qed.

(** The next global index gets the next local one. *)
Lemma add_next_node n r :
  fresh_nodes n r -> n < node_budget ->
  wp (ref_node_add r n REF_EMPTY) (fun '(st, (node, r')) =>
    st = REF_SUCCESS /\ node = n /\ fresh_nodes (n + 1) r' /\ node_mpi r' = node_mpi r /\
    REF_NODE_REAL_PER * node_max r' <= REF_INT_MAX /\ node_max r <= node_max r' /\
    forall i, 0 <= i < n -> point_of r' i = point_of r i).
Proof.
  intros Hf Hbud. destruct (fresh_room n r Hf Hbud) as [Hroom Hn0]. pose proof Hf as [Hc Hs Hsz Hn Hg Hpart Hv].
  pose proof (nc_max _ _ Hc) as Hm. pose proof (half_more_bounds (node_max r) ltac:(lia)) as Hh. pose proof (nc_n_range _ _ Hc) as Hnr.
  assert (Hnone : node_map r !! n = None) by (apply eq_None_not_Some; intros [i [? _]%(fresh_lookup n r n i Hf)]; lia).
  eapply wp_mono; [by apply (ref_node_add_spec r _ n REF_EMPTY Hc Hs Hroom)|].
  intros [st [node r']] (-> & Hwf' & Hm'). rewrite Hnone in Hm'.
  destruct Hm' as (Hfresh & Hn' & Hmap & Hgrow & Hmpi & _ & _ & _ & _ & (rest & Hc' & Hblank) & Hparts & Hpart' & Hxyz).
  destruct (next_blank n (node_max r) (node_max r') node rest) as [-> ->]; [lia|lia|done|].
  assert (Hlook : forall g i, node_map r' !! g = Some i <-> 0 <= g < n + 1 /\ i = g).
  { intros g i. rewrite Hmap. destruct (decide (g = n)) as [->|Hne].
    - rewrite lookup_insert_eq. split; [by intros [= ->]; lia|by intros [_ ->]].
    - rewrite lookup_insert_ne, (fresh_lookup n r g i Hf) by done. split; intros [? ->]; (split; [lia|done]). }
  assert (Hvalid : forall i, i ∈ valid_nodes r' <-> 0 <= i < n + 1).
  { intros i. split.
    - intros Hi. pose proof (proj2 (node_map_lookup r' _ (node_global r').[i] i Hc') (conj Hi eq_refl)) as Hl.
      apply Hlook in Hl as [? ->]. lia.
    - intros Hi. assert (Hl : node_map r' !! i = Some i) by (by apply Hlook).
      by apply (node_map_lookup r' _ _ _ Hc') in Hl as [? _]. }
  split; [done|]. split; [done|]. split; [|split; [done|split; [|split; [lia|]]]].
  - constructor; [done|by destruct Hwf'|by apply (node_size_grow r); [lia|..]|lia| | |done].
    + intros i Hi. assert (Hl : node_map r' !! i = Some i) by (by apply Hlook).
      by apply (node_map_lookup r' _ _ _ Hc') in Hl as [_ ?].
    + intros i Hi. rewrite Hmpi. destruct (decide (i = n)) as [->|Hne]; [done|]. rewrite Hparts by (apply Hv; lia). apply Hpart. lia.
  - unfold node_room, REF_NODE_REAL_PER, REF_INT_MAX in *. lia.
  - intros i Hi. unfold point_of. apply map_ext_in. intros j Hj%list_elem_of_In%elem_of_zrange. apply Hxyz; lia.
Qed.

(** The three assignments to the coordinates of [node]. *)
Lemma put_point_ok r node (p : list D) (Q : list D -> Prop) :
  zlen (node_real r) = REF_NODE_REAL_PER * node_max r -> REF_NODE_REAL_PER * node_max r <= REF_INT_MAX ->
  0 <= node < node_max r -> zlen p = 3 ->
  (forall real, zlen real = zlen (node_real r) -> point_of (set_node_real real r) node = p ->
     (forall i, 0 <= i < node_max r -> i <> node -> point_of (set_node_real real r) i = point_of r i) -> Q real) ->
  wp (for_up 0 3 (fun ixyz real =>
        let* x := aget p ixyz in
        let* k := real_index ixyz node in aset real k x) (node_real r)) Q.
Proof.
  intros Hreal Hsize Hn Hp HQ. unfold REF_NODE_REAL_PER in *.
  apply (wp_for_up (fun i real => zlen real = zlen (node_real r) /\
    forall k, 0 <= k < zlen (node_real r) -> real.[k] =
      if (15 * node <=? k) && (k <? 15 * node + i) then p.[k - 15 * node] else (node_real r).[k])); [lia| | |].
  - split; [done|]. intros k Hk. destruct (Z.leb_spec (15 * node) k), (Z.ltb_spec k (15 * node + 0)); cbn [andb]; (done || lia).
  - intros i real Hi [Hzr Hkr]. apply wp_bind, wp_aget; [lia|].
    rewrite real_index_ok by (unfold REF_NODE_REAL_PER; lia). apply wp_bind, wp_ret.
    unfold REF_NODE_REAL_PER. apply wp_aset; [lia|]. split; [by rewrite zlen_upd|].
    intros k Hk. rewrite aat_upd by lia. rewrite Hkr by done.
    destruct (Z.eqb_spec (i + 15 * node) k) as [<-|Hne].
    + rewrite (proj2 (Z.leb_le _ _)), (proj2 (Z.ltb_lt _ _)) by lia. cbn [andb]. f_equal. lia.
    + destruct (Z.leb_spec (15 * node) k), (Z.ltb_spec k (15 * node + i)), (Z.ltb_spec k (15 * node + (i + 1))); cbn [andb]; (done || lia).
  - intros real [Hzr Hkr]. apply HQ; [done| |].
    + unfold point_of. apply arr_ext; [by rewrite zlen_map, Hp|]. intros j Hj. rewrite zlen_map in Hj. change (zlen (zrange 3)) with 3 in Hj.
      rewrite aat_map, aat_zrange by (change (zlen (zrange 3)) with 3; lia). cbn [node_real set_node_real].
      unfold REF_NODE_REAL_PER. rewrite Hkr by lia. rewrite (proj2 (Z.leb_le _ _)), (proj2 (Z.ltb_lt _ _)) by lia. cbn [andb]. f_equal. lia.
    + intros i Hi Hne. unfold point_of. apply map_ext_in. intros j Hj%list_elem_of_In%elem_of_zrange. cbn [node_real set_node_real].
      unfold REF_NODE_REAL_PER. rewrite Hkr by lia.
      destruct (Z.leb_spec (15 * node) (j + 15 * i)), (Z.ltb_spec (j + 15 * i) (15 * node + 3)); cbn [andb]; (done || lia).
Qed.

Lemma import_node_ok pts p s (Q : unit -> IMPORT D -> Prop) E :
  loaded_nodes pts (grid_node (imp_grid s)) -> zlen pts < node_budget -> zlen p = 3 ->
  (forall r, loaded_nodes (pts ++ [p]) r -> node_mpi r = node_mpi (grid_node (imp_grid s)) ->
     Q tt (set_grid (set_grid_node r) s)) ->
  fwp (import_node (zlen pts) p) Q E s.
Proof.
  intros [Hf Hpt] Hbud Hp HQ. pose proof (zlen_nonneg pts) as Hz0. unfold import_node, fwp. apply wp_bind.
  eapply wp_mono; [by apply (add_next_node _ _ Hf)|]. intros [st [node r']] (-> & -> & Hf' & Hmpi & Hsize & Hmax & Hold).
  pose proof (nc_real _ _ (fn_core _ _ Hf')) as Hreal. pose proof (nc_n_range _ _ (fn_core _ _ Hf')) as Hnr.
  rewrite (fn_n _ _ Hf') in Hnr. apply wp_bind, put_point_ok; [done|done|lia|done|].
  intros real Hzr Hnew Hkept. apply wp_ret. cbn [fpost].
  assert (Hz1 : zlen (pts ++ [p]) = zlen pts + 1) by (by rewrite zlen_app).
  apply (HQ (set_node_real real r')); [|done]. split; rewrite Hz1; [by apply fresh_nodes_real|].
  intros i Hi. destruct (decide (i = zlen pts)) as [->|Hne].
  - rewrite aat_app_r by lia. by rewrite Z.sub_diag.
  - rewrite aat_app_l, Hkept, Hold by lia. apply Hpt. lia.
Qed.
End loaded.

(** ** Elements *)

Section cells.
Context `{Junk Z, Junk REF_ADJ_ITEM}.
Implicit Types (c : REF_CELL) (type : REF_CELL_TYPE) (es : list (list Z)).

(** The entries of an element before its id is known. *)
Definition without_id type (e : list Z) : list Z :=
  ztake (init_node_per type) e ++ (if init_last_node_is_an_id type then [REF_EMPTY] else []).
(** Entries that the file can hold. *)
Definition importable type (e : list Z) : Prop :=
  zlen e = init_node_per type + (if init_last_node_is_an_id type then 1 else 0) /\
  Forall (fun v => 0 <= v < node_budget) (ztake (init_node_per type) e) /\
  (init_last_node_is_an_id type = true -> REF_INT_MIN <= e.[init_node_per type] <= REF_INT_MAX).

Lemma loaded_per type es c : loaded_cells type es c ->
  node_per (cell_tables c) = init_node_per type /\
  size_per (cell_tables c) = init_node_per type + (if init_last_node_is_an_id type then 1 else 0).
Proof. intros Hc. by rewrite (lc_tables _ _ _ Hc). Qed.

Lemma init_node_per_bounds type : 2 <= init_node_per type <= 27.
Proof. by destruct type. Qed.

Lemma add_next_cell type es c nodes :
  loaded_cells type es c -> zlen es < cell_budget -> size_per (cell_tables c) <= zlen nodes ->
  Forall (fun v => 0 <= v < node_budget) (ztake (init_node_per type) nodes) ->
  wp (ref_cell_add c nodes) (fun '(st, (cell, c')) =>
    st = REF_SUCCESS /\ cell = zlen es /\ loaded_cells type (es ++ [ztake (size_per (cell_tables c)) nodes]) c').
Proof.
  intros Hl Hbud Hz Hn. pose proof Hl as [Hwf Htb Hcn Hsz Hat]. pose proof (zlen_nonneg es) as Hz0.
  destruct (loaded_per _ _ _ Hl) as [Hnp Hsp]. pose proof (init_node_per_bounds type) as Hb.
  pose proof (cw_n _ _ Hwf) as Hcap. pose proof (zlen_nonneg (seqZ (zlen es) (cell_max c - zlen es))) as Hz1.
  pose proof (cw_max _ _ Hwf) as Hm. pose proof (half_more_bounds (cell_max c) ltac:(lia)) as Hh.
  pose proof (half_more_double (cell_max c) ltac:(lia)) as Hd. unfold cell_budget in Hbud.
  eapply wp_mono.
  - apply (ref_cell_add_spec c _ nodes Hwf); [unfold GROW_LIMIT; lia|unfold REF_INT_MAX; nia|done|].
    unfold nodes_of. rewrite Hnp. eapply Forall_impl; [exact Hn|]. cbn. unfold node_budget, NODE_LIMIT, REF_INT_MAX. lia.
  - intros [st [cell c']] (-> & Hcell & Hnone & (bl' & Hwf' & Hblank) & Htb' & Hn' & Hmax' & Hat').
    destruct (next_blank (zlen es) (cell_max c) (cell_max c') cell bl') as [-> ->]; [lia|lia|done|].
    split; [done|]. split; [done|].
    assert (Hz2 : zlen (es ++ [ztake (size_per (cell_tables c)) nodes]) = zlen es + 1) by (by rewrite zlen_app).
    constructor; rewrite ?Hz2; [done|congruence|lia|lia|]. intros k. rewrite Hat'. unfold at_upd. case Z.eqb_spec; intros Hk.
    + subst k. rewrite decide_True by lia. f_equal. rewrite aat_app_r by lia. by rewrite Z.sub_diag.
    + rewrite Hat. case_decide; [rewrite decide_True by lia|by rewrite decide_False by lia]. f_equal. by rewrite aat_app_l by lia.
Qed.

(** The assignment of an id. *)
Lemma put_id_ok type es c k v :
  loaded_cells type es c -> init_last_node_is_an_id type = true -> 0 <= k < zlen es ->
  wp (put_c2n (cell_tables c) (init_node_per type) k v (cell_c2n c)) (fun c2n =>
    loaded_cells type (upd es k (upd es.[k] (init_node_per type) v)) (set_cell_c2n c2n c)).
Proof.
  intros Hl Hid Hk. pose proof Hl as [Hwf Htb Hcn Hsz Hat]. destruct (loaded_per _ _ _ Hl) as [Hnp Hsp].
  rewrite Hid in Hsp. pose proof (init_node_per_bounds type) as Hb. pose proof (cell_wf_counts _ _ Hwf) as Ht.
  pose proof (cw_n _ _ Hwf) as Hcap. pose proof (zlen_nonneg (seqZ (zlen es) (cell_max c - zlen es))) as Hz1.
  assert (Hk1 : cell_at c k = Some es.[k]) by (by rewrite Hat, decide_True).
  apply (wp_put_c2n _ _ Ht (cw_size _ _ Hwf)); [apply Hwf|lia|lia|].
  destruct (cell_wf_entry c _ k es.[k] (init_node_per type) v (cell_adj c) Hwf Hk1) as [Hwf' Hat']; [lia|lia|lia|apply Hwf| |].
  - intros n i. rewrite (cw_registered _ _ Hwf n i). unfold at_upd. case Z.eqb_spec; [|done]. intros ->. rewrite Hk1.
    rewrite <- Hnp. by rewrite nodes_of_upd_id.
  - replace (set_cell_adj (cell_adj c) (set_cell_c2n (upd (cell_c2n c) (init_node_per type + size_per (cell_tables c) * k) v) c))
      with (set_cell_c2n (upd (cell_c2n c) (init_node_per type + size_per (cell_tables c) * k) v) c) in * by (by destruct c).
    constructor; rewrite ?zlen_upd; [exact Hwf'|done|done|done|]. intros i. rewrite Hat'. unfold at_upd. case Z.eqb_spec; intros Hi.
    + subst i. rewrite decide_True by lia. f_equal. rewrite aat_upd by lia. by rewrite Z.eqb_refl.
    + rewrite Hat. case_decide; [|done]. f_equal. rewrite aat_upd by lia. by rewrite (proj2 (Z.eqb_neq _ _)) by lia.
Qed.
End cells.

(** ** Reading *)

Section reading.
Context {D : Type} `{Dbl D, DblBytes D, Junk Z, Junk REF_ADJ_ITEM, Junk D} (swap fat : bool).
Implicit Types (s : IMPORT D).

Lemma read_items_ok size n items rest s (Q : list (list Z) -> IMPORT D -> Prop) E :
  imp_file s = concat items ++ rest -> Forall (fun b => length b = size) items -> zlen items = n ->
  Q items (set_file rest s) -> fwp (read_items size n) Q E s.
Proof.
  intros Hf Hb Hn HQ. unfold read_items. apply fwp_bind, fwp_state. rewrite Hf, (fread_concat _ _ _ _ Hb Hn).
  apply fwp_bind, fwp_assign, fwp_ret. done.
Qed.

(** Every entry below [n] is replaced. *)
Lemma wp_map_fill (f : Z -> Z) n (a : list Z) (Q : list Z -> Prop) :
  zlen a = n -> Q (map f a) -> wp (for_up 0 n (fun i a => let* v := aget a i in aset a i (f v)) a) Q.
Proof.
  intros Hn HQ. pose proof (zlen_nonneg a). apply (wp_fill (fun i => f a.[i])); [lia|lia| |].
  - intros i d Hi Hz Hd. apply wp_bind, wp_aget; [lia|]. rewrite Hd by lia. apply wp_aset; [lia|done].
  - intros d Hz Hd. replace d with (map f a); [done|]. symmetry. apply arr_ext; [by rewrite zlen_map|].
    intros i Hi. rewrite Hd by lia. rewrite (proj2 (Z.leb_le _ _)), (proj2 (Z.ltb_lt _ _)) by lia. by rewrite aat_map by lia.
Qed.

Lemma store_full {A} (values a : list A) : zlen values = zlen a -> store values a = Some values.
Proof. intros Hz. unfold store. rewrite (proj2 (Z.leb_le _ _)) by lia. rewrite drop_ge, app_nil_r; [done|]. unfold zlen in Hz. lia. Qed.

Lemma wp_store {A} `{Inhabited A} (values a : list A) (Q : list A -> Prop) :
  zlen values <= zlen a -> (forall a', zlen a' = zlen a -> ztake (zlen values) a' = values -> Q a') -> wp (store values a) Q.
Proof.
  intros Hz HQ. unfold store. rewrite (proj2 (Z.leb_le _ _)) by done. apply wp_ret, HQ.
  - unfold zlen in *. rewrite length_app, length_drop. lia.
  - unfold ztake, zlen. rewrite Nat2Z.id. apply take_app_length.
Qed.

Lemma map_id_in {A} (f : A -> A) l : (forall x, x ∈ l -> f x = x) -> map f l = l.
Proof. intros Hf. rewrite <- (map_id l) at 2. apply map_ext_in. intros x Hx%list_elem_of_In. by apply Hf. Qed.

(** The numbers of the file come in front of the buffer. *)
Lemma chunk_ok l n chunk rest s (Q : list Z -> IMPORT D -> Prop) E :
  imp_file s = ints swap fat l ++ rest -> zlen l = n -> n <= zlen chunk ->
  Forall (fun v => REF_INT_MIN <= v <= REF_INT_MAX) l ->
  (forall chunk', zlen chunk' = zlen chunk -> ztake n chunk' = l -> Q chunk' (set_file rest s)) ->
  fwp (ref_import_bin_ugrid_chunk swap fat n chunk) Q E s.
Proof.
  intros Hf Hn Hz Hl HQ. pose proof (zlen_nonneg l) as Hl0. rewrite Forall_forall in Hl.
  assert (Hitems : Forall (fun b => length b = int_size fat) (map (int_bytes swap fat) l)).
  { apply Forall_forall. intros b (v & -> & _)%list_elem_of_fmap. apply length_int_bytes. }
  unfold ref_import_bin_ugrid_chunk. destruct fat.
  - apply fwp_bind, fwp_ask. apply wp_ret. unfold ref_malloc. rewrite (proj2 (Z.ltb_ge _ _)), decide_True by (done || lia).
    apply fwp_bind. eapply (read_items_ok 8); [exact Hf|exact Hitems|by rewrite zlen_map|].
    apply fwp_bind, fwp_use. rewrite store_full by (rewrite !zlen_map, zlen_alloc by lia; done). apply wp_ret.
    set (longs := map (fun b => wrap 64 (le_value b)) (map (int_bytes swap true) l)).
    assert (Hlongs : zlen longs = n) by (unfold longs; by rewrite !zlen_map).
    apply fwp_bind, fwp_use. apply (wp_mono (fun a => a = map (fun v => if swap then swap_long v else v) longs)).
    { destruct swap; [by apply wp_map_fill|]. apply wp_ret. by rewrite map_id. }
    intros actual ->. apply fwp_use.
    set (actual := map _ longs). assert (Hactual : zlen actual = n) by (unfold actual; by rewrite zlen_map).
    apply (wp_fill (fun i => wrap 32 actual.[i])); [lia|lia| |].
    + intros i d Hi Hzd _. apply wp_bind, wp_aget; [lia|]. apply wp_aset; [lia|done].
    + intros d Hzd Hd. apply HQ; [done|]. apply arr_ext; [rewrite zlen_ztake; lia|]. intros i Hi. rewrite zlen_ztake in Hi by lia.
      rewrite aat_ztake, Hd by lia. rewrite (proj2 (Z.leb_le _ _)), (proj2 (Z.ltb_lt _ _)) by lia. cbn [andb].
      unfold actual, longs. rewrite !aat_map by (rewrite ?zlen_map; lia).
      exact (read_long_bytes swap l.[i] (Hl _ ltac:(apply elem_of_aat; exists i; split; [lia|done]))).
  - apply fwp_bind. eapply (read_items_ok 4); [exact Hf|exact Hitems|by rewrite zlen_map|].
    apply fwp_bind, fwp_use, wp_store; [rewrite !zlen_map; lia|]. rewrite !zlen_map, Hn. intros a Hza Ha. apply fwp_use.
    assert (Hval : forall i, 0 <= i < n -> (if swap then swap_int a.[i] else a.[i]) = l.[i]).
    { intros i Hi. rewrite <- (aat_ztake n) by lia. rewrite Ha, !aat_map by (rewrite ?zlen_map; lia).
      exact (read_int_bytes swap l.[i] (Hl _ ltac:(apply elem_of_aat; exists i; split; [lia|done]))). }
    destruct swap.
    + apply (wp_fill (fun i => swap_int a.[i])); [lia|lia| |].
      * intros i d Hi Hzd Hd. apply wp_bind, wp_aget; [lia|]. rewrite Hd by lia. apply wp_aset; [lia|done].
      * intros d Hzd Hd. apply HQ; [lia|]. apply arr_ext; [rewrite zlen_ztake; lia|]. intros i Hi. rewrite zlen_ztake in Hi by lia.
        rewrite aat_ztake, Hd by lia. rewrite (proj2 (Z.leb_le _ _)), (proj2 (Z.ltb_lt _ _)) by lia. cbn [andb]. by apply Hval.
    + apply wp_ret, HQ; [lia|]. apply arr_ext; [rewrite zlen_ztake; lia|]. intros i Hi. rewrite zlen_ztake in Hi by lia.
      rewrite aat_ztake by lia. by apply Hval.
Qed.

Lemma import_count_ok v rest s (Q : Z -> IMPORT D -> Prop) E :
  imp_file s = ints swap fat [v] ++ rest -> REF_INT_MIN <= v <= REF_INT_MAX -> Q v (set_file rest s) ->
  fwp (import_count swap fat) Q E s.
Proof.
  intros Hf Hv HQ. unfold import_count. apply fwp_bind.
  eapply (chunk_ok [v] 1 _ rest); [exact Hf|done|by rewrite zlen_alloc|by apply Forall_singleton|].
  intros chunk Hz Hc. rewrite zlen_alloc in Hz by lia. apply fwp_use, wp_aget; [lia|].
  rewrite <- (aat_ztake 1) by lia. by rewrite Hc.
Qed.

(** The loop over the chunks: all of them are done. *)
Lemma in_chunks_ok {A} total max_chunk (b : Z -> Z -> A -> fn (IMPORT D) A) (a : A) (P : Z -> A -> IMPORT D -> Prop)
    (Q : unit -> IMPORT D -> Prop) E s :
  0 <= total -> (0 < total -> 0 < max_chunk) -> P 0 a s ->
  (forall nread chunk a s, 0 <= nread -> 0 < chunk <= max_chunk -> nread + chunk <= total -> P nread a s ->
     fwp (b nread chunk a) (fun a s => P (nread + chunk) a s) E s) ->
  (forall a s, P total a s -> Q tt s) ->
  fwp (in_chunks total max_chunk b a) Q E s.
Proof.
  intros Ht Hm HP Hb HQ. unfold in_chunks. apply fwp_bind.
  apply (fwp_again (fun '(nread, a) s => 0 <= nread <= total /\ P nread a s) (fun '(nread, _) _ => total - nread)).
  - split; [lia|done].
  - lia.
  - intros [nread a'] s' [? _]. lia.
  - intros [nread a'] s' [Hr HP']. case Z.ltb_spec; intros Hlt.
    + apply fwp_bind. eapply fwp_mono; [apply Hb; [lia|lia|lia|exact HP']| |done].
      intros a2 s2 HP2. apply fwp_ret. split; [split; [lia|done]|lia].
    + apply fwp_ret, fwp_ret. eapply HQ. by replace total with nread by lia.
Qed.
End reading.

(** ** The sections of the file *)

(** Blocks of the same length. *)
Lemma zlen_concat_blocks {A} per (ls : list (list A)) : Forall (fun b => zlen b = per) ls -> zlen (concat ls) = per * zlen ls.
Proof. unfold zlen. induction 1 as [|b ls Hb Hls IH]; cbn [concat length]; [lia|]. rewrite length_app. lia. Qed.

Lemma aat_concat_blocks {A} `{Inhabited A} per (ls : list (list A)) k i :
  Forall (fun b => zlen b = per) ls -> 0 <= k < zlen ls -> 0 <= i < per -> (concat ls).[i + per * k] = ls.[k].[i].
Proof.
  intros Hls. revert k. induction Hls as [|b ls Hb Hls IH]; intros k Hk Hi; [unfold zlen in Hk; cbn in Hk; lia|].
  cbn [concat]. change (b :: ls) with ([b] ++ ls) in *. rewrite zlen_app in Hk. change (zlen [b]) with 1 in Hk.
  destruct (Z.eq_dec k 0) as [->|Hne].
  - rewrite Z.mul_0_r, Z.add_0_r, !aat_app_l by (change (zlen [b]) with 1; lia). done.
  - rewrite (aat_app_r b) by (rewrite Hb; nia). rewrite (aat_app_r [b]) by (change (zlen [b]) with 1; lia). change (zlen [b]) with 1.
    rewrite Hb, <- IH by lia. f_equal. lia.
Qed.

Lemma ztake_drop_app {A} n (l : list A) : l = ztake n l ++ drop (Z.to_nat n) l.
Proof. symmetry. apply take_drop. Qed.
Lemma drop_chunk {A} n k (l : list A) : 0 <= n -> 0 <= k ->
  drop (Z.to_nat n) l = ztake k (drop (Z.to_nat n) l) ++ drop (Z.to_nat (n + k)) l.
Proof. intros Hn Hk. rewrite (ztake_drop_app k (drop _ _)) at 1. f_equal. rewrite drop_drop. f_equal. lia. Qed.
Lemma aat_chunk {A} `{Inhabited A} n k (l : list A) i : 0 <= n -> 0 <= i < k -> (ztake k (drop (Z.to_nat n) l)).[i] = l.[n + i].
Proof.
  intros Hn Hi. rewrite aat_ztake by done. unfold aat, aget. rewrite !(proj2 (Z.ltb_ge _ _)) by lia. rewrite lookup_drop.
  do 2 f_equal. lia.
Qed.
Lemma zlen_chunk {A} n k (l : list A) : 0 <= n -> 0 <= k -> n + k <= zlen l -> zlen (ztake k (drop (Z.to_nat n) l)) = k.
Proof. unfold zlen, ztake. intros. rewrite length_take, length_drop. lia. Qed.

(** The structure that a section of the file fills. *)
Definition cells_only {D} (type : REF_CELL_TYPE) (s s' : IMPORT D) : Prop :=
  grid_node (imp_grid s') = grid_node (imp_grid s) /\
  forall t, t <> type -> grid_cell (imp_grid s') t = grid_cell (imp_grid s) t.
Lemma cells_only_set {D} type r (s s' : IMPORT D) : cells_only type s s' -> cells_only type s (set_grid (set_grid_cell type r) s').
Proof. intros [Hn Hc]. split; [done|]. intros t Ht. cbn. by rewrite decide_False, Hc. Qed.

Section sections.
Context {D : Type} `{Dbl D, DblBytes D, Junk Z, Junk REF_ADJ_ITEM, Junk D} (swap fat : bool).
Implicit Types (s : IMPORT D) (type : REF_CELL_TYPE) (es : list (list Z)).

Definition file_nodes type es : list Z := concat (map (fun e => map (fun v => v + 1) (ztake (init_node_per type) e)) es).

Lemma file_nodes_blocks type es : Forall (importable type) es ->
  Forall (fun b => zlen b = init_node_per type) (map (fun e => map (fun v => v + 1) (ztake (init_node_per type) e)) es).
Proof.
  intros Hes. apply Forall_map. eapply Forall_impl; [exact Hes|]. intros e (Hz & _). cbn. pose proof (init_node_per_bounds type).
  rewrite zlen_map, zlen_ztake; [done|]. destruct (init_last_node_is_an_id type); lia.
Qed.
Lemma file_nodes_at type es k i : Forall (importable type) es -> 0 <= k < zlen es -> 0 <= i < init_node_per type ->
  (file_nodes type es).[i + init_node_per type * k] = es.[k].[i] + 1.
Proof.
  intros Hes Hk Hi. unfold file_nodes. rewrite aat_concat_blocks; [|by apply file_nodes_blocks|by rewrite zlen_map|done].
  rewrite aat_map by done. rewrite Forall_forall in Hes. destruct (Hes es.[k]) as [Hz _]; [apply elem_of_aat; by exists k|].
  rewrite aat_map, aat_ztake by (rewrite ?zlen_ztake; destruct (init_last_node_is_an_id type); lia). done.
Qed.
Lemma file_nodes_range type es : Forall (importable type) es -> Forall (fun v => REF_INT_MIN <= v <= REF_INT_MAX) (file_nodes type es).
Proof.
  intros Hes. apply Forall_concat, Forall_map. eapply Forall_impl; [exact Hes|]. intros e (_ & Hv & _). cbn.
  apply Forall_map. eapply Forall_impl; [exact Hv|]. cbn. unfold node_budget, REF_INT_MIN, REF_INT_MAX. lia.
Qed.

Lemma import_cell_ok type es nodes s (Q : unit -> IMPORT D -> Prop) E :
  loaded_cells type es (grid_cell (imp_grid s) type) -> zlen es < cell_budget ->
  size_per (cell_tables (grid_cell (imp_grid s) type)) <= zlen nodes ->
  Forall (fun v => 0 <= v < node_budget) (ztake (init_node_per type) nodes) ->
  (forall r, loaded_cells type (es ++ [ztake (size_per (cell_tables (grid_cell (imp_grid s) type))) nodes]) r ->
     Q tt (set_grid (set_grid_cell type r) s)) ->
  fwp (import_cell type nodes (zlen es)) Q E s.
Proof.
  intros Hl Hb Hz Hn HQ. unfold import_cell, fwp. apply wp_bind. eapply wp_mono; [by eapply add_next_cell|].
  intros [st [cell r]] (-> & -> & Hr). apply fwp_require; [|by rewrite Z.eqb_refl]. intros _. by apply HQ.
Qed.

(** The loop that takes the nodes of an element out of the buffer. *)
Lemma take_nodes_ok type e c2n max cell nodes (Q : list Z -> Prop) :
  zlen c2n = init_node_per type * max -> init_node_per type * max <= REF_INT_MAX -> 0 <= cell < max ->
  importable type e -> zlen nodes = REF_CELL_MAX_SIZE_PER ->
  (init_last_node_is_an_id type = true -> nodes.[init_node_per type] = REF_EMPTY) ->
  (forall i, 0 <= i < init_node_per type -> c2n.[i + init_node_per type * cell] = e.[i] + 1) ->
  (forall nodes', zlen nodes' = REF_CELL_MAX_SIZE_PER ->
     ztake (init_node_per type + (if init_last_node_is_an_id type then 1 else 0)) nodes' = without_id type e ->
     ztake (init_node_per type) nodes' = ztake (init_node_per type) e -> Q nodes') ->
  wp (for_up 0 (init_node_per type) (fun node nodes =>
        let* v := row_get (init_node_per type) c2n node cell in
        let* v := ck_int (v - 1) in
        aset nodes node v) nodes) Q.
Proof.
  intros Hz Hmax Hc (Hze & Hv & _) Hzn Hid Hat HQ. pose proof (init_node_per_bounds type) as Hb. unfold REF_CELL_MAX_SIZE_PER in *.
  apply (wp_fill (fun i => e.[i])); [lia|lia| |].
  - intros i d Hi Hzd _. apply wp_bind. eapply wp_row_get; [| |exact Hz|lia|done|]; [lia|done|]. rewrite Hat by done.
    assert (He : 0 <= e.[i] < node_budget).
    { rewrite Forall_forall in Hv. apply Hv, elem_of_aat. exists i. rewrite zlen_ztake, aat_ztake by (destruct (init_last_node_is_an_id type); lia). done. }
    apply wp_bind, wp_ck_int; [unfold node_budget, REF_INT_MIN, REF_INT_MAX in *; lia|].
    apply wp_aset; [lia|]. f_equal. lia.
  - intros d Hzd Hd.
    assert (Hnodes : ztake (init_node_per type) d = ztake (init_node_per type) e).
    { apply arr_ext; rewrite !zlen_ztake by (destruct (init_last_node_is_an_id type); lia); [done|]. intros i Hi.
      rewrite !aat_ztake, Hd by lia. by rewrite (proj2 (Z.leb_le _ _)), (proj2 (Z.ltb_lt _ _)) by lia. }
    apply HQ; [lia| |done]. unfold without_id.
    assert (init_last_node_is_an_id type = true -> init_node_per type < 27) as Hlt by (by destruct type).
    destruct (init_last_node_is_an_id type); [specialize (Hlt eq_refl)|clear Hlt].
    + rewrite ztake_S, Hnodes by lia. do 2 f_equal. rewrite Hd by lia. rewrite Z.ltb_irrefl, andb_false_r. by apply Hid.
    + by rewrite Z.add_0_r, app_nil_r.
Qed.
End sections.

Section elements.
Context {D : Type} `{Dbl D, DblBytes D, Junk Z, Junk REF_ADJ_ITEM, Junk D} (swap fat : bool).
Implicit Types (s : IMPORT D) (type : REF_CELL_TYPE) (es : list (list Z)).

Lemma importable_chunk type es n k : Forall (importable type) es -> Forall (importable type) (ztake k (drop n es)).
Proof. intros Hes. by apply Forall_take, Forall_drop. Qed.
Lemma node_ints_split type es n k : 0 <= n -> 0 <= k ->
  node_ints swap fat type (drop (Z.to_nat n) es) =
  ints swap fat (file_nodes type (ztake k (drop (Z.to_nat n) es))) ++ node_ints swap fat type (drop (Z.to_nat (n + k)) es).
Proof.
  intros Hn Hk. rewrite (drop_chunk n k es) at 1 by done. unfold node_ints. by rewrite map_app, concat_app, ints_app.
Qed.

(** The body of the loop over the elements of a chunk. *)
Lemma import_chunk_ok type es nread chunk max_chunk c2n nodes s0 s E :
  Forall (importable type) es -> zlen es <= cell_budget -> 0 <= nread -> 0 < chunk <= max_chunk -> nread + chunk <= zlen es ->
  max_chunk <= 1000000 -> zlen c2n = init_node_per type * max_chunk ->
  ztake (init_node_per type * chunk) c2n = file_nodes type (ztake chunk (drop (Z.to_nat nread) es)) ->
  zlen nodes = REF_CELL_MAX_SIZE_PER -> (init_last_node_is_an_id type = true -> nodes.[init_node_per type] = REF_EMPTY) ->
  cells_only type s0 s -> loaded_cells type (map (without_id type) (ztake nread es)) (grid_cell (imp_grid s) type) ->
  fwp (count 0 chunk (fun cell =>
        let! nodes :=
          use (for_up 0 (init_node_per type) (fun node nodes =>
                 let* v := row_get (init_node_per type) c2n node cell in
                 let* v := ck_int (v - 1) in
                 aset nodes node v) nodes) in
        import_cell type nodes (cell + nread)))
    (fun _ s' => imp_file s' = imp_file s /\ cells_only type s0 s' /\
       loaded_cells type (map (without_id type) (ztake (nread + chunk) es)) (grid_cell (imp_grid s') type)) E s.
Proof.
  intros Hes Hbud Hr Hchunk Htot Hmax Hz Hfile Hzn Hid Hsame Hl. pose proof (init_node_per_bounds type) as Hb.
  apply (fwp_count _ _ _ (fun cell s' => imp_file s' = imp_file s /\ cells_only type s0 s' /\
    loaded_cells type (map (without_id type) (ztake (nread + cell) es)) (grid_cell (imp_grid s') type))); [lia| | |done].
  { rewrite Z.add_0_r. split; [done|]. split; done. }
  intros cell s1 Hcell (Hf1 & Hs1 & Hl1). apply fwp_bind, fwp_use.
  assert (Himp : importable type es.[nread + cell]).
  { rewrite Forall_forall in Hes. apply Hes, elem_of_aat. exists (nread + cell). split; [lia|done]. }
  apply (take_nodes_ok type es.[nread + cell] c2n max_chunk); [done|unfold REF_INT_MAX; nia|lia|done|done|done| |].
  { intros i Hi. rewrite <- (aat_ztake (init_node_per type * chunk)) by nia. rewrite Hfile.
    rewrite file_nodes_at; [|by apply importable_chunk|rewrite zlen_chunk by lia; lia|done]. by rewrite aat_chunk by lia. }
  intros nodes' Hzn' Hwith Hnp. destruct (loaded_per _ _ _ Hl1) as [_ Hsp]. destruct Himp as (Hze & Hv & _).
  assert (Hlen : zlen (map (without_id type) (ztake (nread + cell) es)) = cell + nread) by (rewrite zlen_map, zlen_ztake; lia).
  rewrite <- Hlen. apply import_cell_ok; [done|lia| |by rewrite Hnp|].
  { rewrite Hsp, Hzn'. unfold REF_CELL_MAX_SIZE_PER. clear. by destruct type. }
  intros r Hr'. split; [done|]. split; [by apply cells_only_set|]. cbn. rewrite decide_True by done.
  rewrite Hsp, Hwith in Hr'. rewrite Z.add_assoc, ztake_S, map_app by lia. done.
Qed.

Lemma ref_import_bin_ugrid_c2n_ok type es rest s (Q : unit -> IMPORT D -> Prop) E :
  imp_file s = node_ints swap fat type es ++ rest -> loaded_cells type [] (grid_cell (imp_grid s) type) ->
  Forall (importable type) es -> zlen es <= cell_budget ->
  (forall s', imp_file s' = rest -> cells_only type s s' ->
     loaded_cells type (map (without_id type) es) (grid_cell (imp_grid s') type) -> Q tt s') ->
  fwp (ref_import_bin_ugrid_c2n type (zlen es) swap fat) Q E s.
Proof.
  intros Hf Hl Hes Hbud HQ. pose proof (zlen_nonneg es) as Hz0. pose proof (init_node_per_bounds type) as Hb.
  unfold cell_budget in Hbud. unfold ref_import_bin_ugrid_c2n. case Z.ltb_spec; intros Hpos.
  2:{ assert (es = []) as -> by (destruct es; [done|unfold zlen in Hpos; cbn in Hpos; lia]). apply fwp_ret, HQ; [exact Hf|done|exact Hl]. }
  apply fwp_bind, fwp_state. destruct (loaded_per _ _ _ Hl) as [Hnp Hsp]. unfold ref_cell_node_per, ref_cell_size_per. rewrite Hnp, Hsp.
  assert (Hz27 : init_node_per type + (if init_last_node_is_an_id type then 1 else 0) <= REF_CELL_MAX_SIZE_PER)
    by (unfold REF_CELL_MAX_SIZE_PER; clear; by destruct type).
  apply fwp_bind, fwp_use.
  apply (wp_mono (fun nodes : list Z => zlen nodes = REF_CELL_MAX_SIZE_PER /\
    (init_last_node_is_an_id type = true -> nodes.[init_node_per type] = REF_EMPTY))).
  { destruct (init_last_node_is_an_id type) eqn:Hid.
    - rewrite (proj2 (Z.ltb_lt _ _)) by lia. assert (Ha : zlen (alloc (A:=Z) REF_CELL_MAX_SIZE_PER) = REF_CELL_MAX_SIZE_PER) by by rewrite zlen_alloc.
      apply wp_aset; [lia|]. split; [by rewrite zlen_upd|]. intros _. rewrite aat_upd by lia. by rewrite Z.eqb_refl.
    - rewrite (proj2 (Z.ltb_ge _ _)) by lia. apply wp_ret. split; [by rewrite zlen_alloc|done]. }
  intros nodes [Hzn Hid]. set (max_chunk := Z.min 1000000 (zlen es)). assert (Hmc : 0 < max_chunk <= 1000000) by (unfold max_chunk; lia).
  apply fwp_bind, fwp_use, wp_ck_int; [unfold REF_INT_MIN, REF_INT_MAX; nia|].
  apply fwp_bind, fwp_ask, wp_ret. unfold ref_malloc. rewrite (proj2 (Z.ltb_ge _ _)), decide_True by (done || nia).
  clearbody max_chunk.
  apply in_chunks_ok with (P := fun nread (c2n : list Z) s' => zlen c2n = init_node_per type * max_chunk /\
    imp_file s' = node_ints swap fat type (drop (Z.to_nat nread) es) ++ rest /\ cells_only type s s' /\
    loaded_cells type (map (without_id type) (ztake nread es)) (grid_cell (imp_grid s') type)); [lia|lia| | |].
  - split; [rewrite zlen_alloc by nia; done|]. split; [exact Hf|]. split; done.
  - intros nread chunk c2n s1 Hr Hchunk Htot (Hzc & Hf1 & Hs1 & Hl1).
    apply fwp_bind, fwp_use, wp_ck_int; [unfold REF_INT_MIN, REF_INT_MAX; nia|].
    rewrite (node_ints_split type es nread chunk), <- app_assoc in Hf1 by lia.
    apply fwp_bind. eapply chunk_ok; [exact Hf1| |nia|by apply file_nodes_range, importable_chunk|].
    { unfold file_nodes. rewrite (zlen_concat_blocks (init_node_per type)) by by apply file_nodes_blocks, importable_chunk.
      by rewrite zlen_map, zlen_chunk by lia. }
    intros c2n' Hz' Hc'. apply fwp_bind.
    eapply fwp_mono; [eapply (import_chunk_ok type es nread chunk max_chunk c2n' nodes s); try done; [lia|lia]| |done].
    intros [] s2 (Hf2 & Hs2 & Hl2). apply fwp_ret. split; [lia|]. split; [exact Hf2|]. done.
  - intros c2n s1 (_ & Hf1 & Hs1 & Hl1). apply HQ; [|done|by rewrite ztake_full in Hl1].
    rewrite Hf1. rewrite drop_ge; [done|]. unfold zlen. lia.
Qed.
End elements.

Section tags.
Context {D : Type} `{Dbl D, DblBytes D, Junk Z, Junk REF_ADJ_ITEM, Junk D} (swap fat : bool).
Implicit Types (s : IMPORT D) (type : REF_CELL_TYPE) (es : list (list Z)).

Lemma with_its_id type e : importable type e -> init_last_node_is_an_id type = true ->
  upd (without_id type e) (init_node_per type) e.[init_node_per type] = e.
Proof.
  intros (Hz & _) Hid. pose proof (init_node_per_bounds type) as Hb. unfold without_id. rewrite Hid in *.
  assert (Hzt : zlen (ztake (init_node_per type) e) = init_node_per type) by (rewrite zlen_ztake; lia).
  assert (Hzw : zlen (ztake (init_node_per type) e ++ [REF_EMPTY]) = init_node_per type + 1) by (rewrite zlen_app, Hzt; done).
  apply arr_ext; [rewrite zlen_upd; lia|]. intros i Hi. rewrite zlen_upd in Hi. rewrite aat_upd by lia.
  case Z.eqb_spec; [by intros ->|]. intros Hne. by rewrite aat_app_l, aat_ztake by lia.
Qed.

Lemma ref_import_bin_ugrid_bound_tag_ok type es rest s (Q : unit -> IMPORT D -> Prop) E :
  imp_file s = id_ints swap fat type es ++ rest -> init_last_node_is_an_id type = true ->
  loaded_cells type (map (without_id type) es) (grid_cell (imp_grid s) type) ->
  Forall (importable type) es ->
  (forall s', imp_file s' = rest -> cells_only type s s' -> loaded_cells type es (grid_cell (imp_grid s') type) -> Q tt s') ->
  fwp (ref_import_bin_ugrid_bound_tag type (zlen es) swap fat) Q E s.
Proof.
  intros Hf Hid Hl Hes HQ. pose proof (zlen_nonneg es) as Hz0. unfold ref_import_bin_ugrid_bound_tag. case Z.ltb_spec; intros Hpos.
  2:{ assert (es = []) as -> by (destruct es; [done|unfold zlen in Hpos; cbn in Hpos; lia]). apply fwp_ret, HQ; [exact Hf|done|exact Hl]. }
  apply fwp_bind, fwp_state. destruct (loaded_per _ _ _ Hl) as [Hnp _]. unfold ref_cell_node_per. rewrite Hnp.
  set (max_chunk := Z.min 1000000 (zlen es)). assert (Hmc : 0 < max_chunk) by (unfold max_chunk; lia). clearbody max_chunk.
  apply fwp_bind, fwp_ask, wp_ret. unfold ref_malloc. rewrite (proj2 (Z.ltb_ge _ _)), decide_True by (done || lia).
  set (I := fun nread s' => cells_only type s s' /\ exists es', loaded_cells type es' (grid_cell (imp_grid s') type) /\ zlen es' = zlen es /\
    forall j, 0 <= j < zlen es -> es'.[j] = if j <? nread then es.[j] else without_id type es.[j]).
  apply in_chunks_ok with (P := fun nread (tag : list Z) s' => zlen tag = max_chunk /\
    imp_file s' = id_ints swap fat type (drop (Z.to_nat nread) es) ++ rest /\ I nread s'); [lia|lia| | |].
  - split; [by rewrite zlen_alloc by lia|]. split; [exact Hf|]. split; [done|]. exists (map (without_id type) es).
    split; [done|]. split; [by rewrite zlen_map|]. intros j Hj. rewrite aat_map by done. by rewrite (proj2 (Z.ltb_ge _ _)) by lia.
  - intros nread chunk tag s1 Hr Hchunk Htot (Hzc & Hf1 & HI).
    rewrite (drop_chunk nread chunk es) in Hf1 by lia. unfold id_ints in Hf1. rewrite map_app, ints_app, <- app_assoc in Hf1.
    apply fwp_bind. eapply chunk_ok; [exact Hf1|by rewrite zlen_map, zlen_chunk by lia|lia| |].
    { apply Forall_map. eapply Forall_impl; [by apply importable_chunk|]. intros e (_ & _ & He). by apply He. }
    intros tag' Hz' Ht'. apply fwp_bind.
    apply (fwp_count _ _ _ (fun cell s' => imp_file s' = id_ints swap fat type (drop (Z.to_nat (nread + chunk)) es) ++ rest /\ I (nread + cell) s')); [lia| | |].
    + rewrite Z.add_0_r. split; [done|exact HI].
    + intros cell s2 Hcell (Hf2 & Hs2 & es' & Hl2 & Hze & Hes2). apply fwp_bind, fwp_use, wp_aget; [lia|].
      assert (Htag : tag'.[cell] = es.[nread + cell].[init_node_per type]).
      { rewrite <- (aat_ztake chunk), Ht', aat_map by (rewrite ?zlen_chunk by lia; lia). by rewrite aat_chunk by lia. }
      rewrite Htag. apply fwp_update, wp_bind.
      eapply wp_mono; [apply (put_id_ok type es' _ (nread + cell) es.[nread + cell].[init_node_per type] Hl2 Hid); lia|].
      intros c2n Hc2n. apply wp_ret. split; [done|]. split; [by apply cells_only_set|]. cbn. rewrite decide_True by done.
      eexists. split; [exact Hc2n|]. split; [by rewrite zlen_upd|]. intros j Hj. rewrite aat_upd by lia. case Z.eqb_spec; intros Hjk.
      * subst j. rewrite Hes2, (proj2 (Z.ltb_ge _ _)), (proj2 (Z.ltb_lt _ _)) by lia. apply with_its_id; [|done].
        rewrite Forall_forall in Hes. apply Hes, elem_of_aat. exists (nread + cell). split; [lia|done].
      * rewrite Hes2 by lia. destruct (Z.ltb_spec j (nread + cell)), (Z.ltb_spec j (nread + (cell + 1))); (done || lia).
    + intros s2 (Hf2 & HI2). apply fwp_ret. split; [lia|]. done.
  - intros tag s1 (_ & Hf1 & Hs1 & es' & Hl1 & Hze & Hes1). apply HQ; [|done|].
    + rewrite Hf1. rewrite drop_ge; [done|]. unfold zlen. lia.
    + replace es with es'; [done|]. apply arr_ext; [done|]. intros j Hj. rewrite Hes1 by lia. by rewrite (proj2 (Z.ltb_lt _ _)) by lia.
Qed.
End tags.

Section points.
Context {D : Type} `{Dbl D, DblBytes D, Junk Z, Junk REF_ADJ_ITEM, Junk D, !LogIdentity D} (swap : bool).
Implicit Types (s : IMPORT D) (pts : list (list D)).

Definition point_rep (p : list D) : Prop := zlen p = 3 /\ Forall dbl_rep p.

Lemma length_dbl_out x : length (dbl_out (D:=D) swap x) = 8%nat.
Proof. unfold dbl_out, swap_dbl. destruct swap; rewrite ?length_rev; apply length_dbl_bytes. Qed.

Lemma import_point_ok (xyz : list (list Z)) node p nread s (Q : unit -> IMPORT D -> Prop) E :
  point_rep p -> 0 <= node -> (forall i, 0 <= i < 3 -> aget xyz (i + 3 * node) = Some (dbl_bytes p.[i])) ->
  fwp (import_node (node + nread) p) Q E s ->
  fwp (let! x := use (aget xyz (0 + 3 * node)) in
       let! y := use (aget xyz (1 + 3 * node)) in
       let! z := use (aget xyz (2 + 3 * node)) in
       import_node (node + nread) [bytes_dbl x; bytes_dbl y; bytes_dbl z]) Q E s.
Proof.
  intros [Hz Hrep] Hn Hget Hnode. rewrite Forall_forall in Hrep.
  do 3 (apply fwp_bind, fwp_use; rewrite Hget by lia; apply wp_ret).
  assert (Hp : [bytes_dbl (dbl_bytes p.[0]); bytes_dbl (dbl_bytes p.[1]); bytes_dbl (dbl_bytes p.[2])] = p); [|by rewrite Hp].
  rewrite !bytes_dbl_bytes by (apply Hrep, elem_of_aat; eexists; split; [|reflexivity]; lia).
  destruct p as [|x [|y [|z [|w p]]]]; unfold zlen in Hz; cbn [length] in Hz; (done || lia).
Qed.

Lemma import_nodes_ok pts rest s (Q : unit -> IMPORT D -> Prop) E :
  imp_file s = concat (map (dbl_out swap) (concat pts)) ++ rest -> loaded_nodes [] (grid_node (imp_grid s)) ->
  Forall point_rep pts -> zlen pts <= node_budget ->
  (forall s', imp_file s' = rest -> grid_cell (imp_grid s') = grid_cell (imp_grid s) ->
     loaded_nodes pts (grid_node (imp_grid s')) -> Q tt s') ->
  fwp (import_nodes swap (zlen pts)) Q E s.
Proof.
  intros Hf Hl Hpts Hbud HQ. pose proof (zlen_nonneg pts) as Hz0. unfold import_nodes.
  set (max_chunk := Z.min 1000000 (zlen pts)). assert (Hmc : 0 <= max_chunk <= 1000000) by (unfold max_chunk; lia).
  assert (Hmc0 : 0 < zlen pts -> 0 < max_chunk) by (unfold max_chunk; lia). clearbody max_chunk.
  apply fwp_bind, fwp_use, wp_ck_int; [unfold REF_INT_MIN, REF_INT_MAX; lia|].
  apply fwp_bind, fwp_ask, wp_ret. unfold ref_malloc. rewrite (proj2 (Z.ltb_ge _ _)), decide_True by (done || lia).
  apply in_chunks_ok with (P := fun nread (_ : unit) s' =>
    imp_file s' = concat (map (dbl_out swap) (concat (drop (Z.to_nat nread) pts))) ++ rest /\
    grid_cell (imp_grid s') = grid_cell (imp_grid s) /\ loaded_nodes (ztake nread pts) (grid_node (imp_grid s'))); [lia|done| | |].
  - split; [exact Hf|]. split; [done|exact Hl].
  - intros nread chunk [] s1 Hr Hchunk Htot (Hf1 & Hs1 & Hl1).
    rewrite (drop_chunk nread chunk pts), concat_app, map_app, concat_app, <- app_assoc in Hf1 by lia.
    set (part := ztake chunk (drop (Z.to_nat nread) pts)) in *. assert (Hzp : zlen part = chunk) by (apply zlen_chunk; lia).
    assert (Hblocks : Forall (fun p => zlen p = 3) part).
    { apply Forall_take, Forall_drop. eapply Forall_impl; [exact Hpts|]. by intros p [? _]. }
    apply fwp_bind. eapply (read_items_ok 8); [exact Hf1| |by rewrite zlen_map, (zlen_concat_blocks 3), Hzp|].
    { apply Forall_map, Forall_forall. intros x _. apply length_dbl_out. }
    assert (Hxyz : (if swap then map swap_dbl (map (dbl_out swap) (concat part)) else map (dbl_out swap) (concat part)) = map dbl_bytes (concat part)).
    { unfold dbl_out, swap_dbl. destruct swap; [|done]. rewrite map_map. apply map_ext. intros x. apply rev_involutive. }
    cbv zeta. rewrite Hxyz.
    apply (fwp_count _ _ _ (fun node s' => imp_file s' = concat (map (dbl_out swap) (concat (drop (Z.to_nat (nread + chunk)) pts))) ++ rest /\
      grid_cell (imp_grid s') = grid_cell (imp_grid s) /\ loaded_nodes (ztake (nread + node) pts) (grid_node (imp_grid s')))); [lia| | |done].
    + rewrite Z.add_0_r. split; [done|]. split; done.
    + intros node s2 Hn (Hf2 & Hs2 & Hl2).
      assert (Hp : point_rep pts.[nread + node]).
      { rewrite Forall_forall in Hpts. apply Hpts, elem_of_aat. exists (nread + node). split; [lia|done]. }
      apply (import_point_ok _ _ pts.[nread + node]); [done|lia| |].
      * intros i Hi. assert (Hin : 0 <= i + 3 * node < zlen (concat part)) by (rewrite (zlen_concat_blocks 3), Hzp by done; lia).
        rewrite aget_aat, aat_map by (rewrite ?zlen_map; done). rewrite aat_concat_blocks by (done || lia).
        unfold part. by rewrite aat_chunk by lia.
      * assert (Hlen : zlen (ztake (nread + node) pts) = node + nread) by (rewrite zlen_ztake; lia).
        rewrite <- Hlen. apply import_node_ok; [done|lia|apply Hp|]. intros r Hr' _. split; [done|]. split; [done|].
        by rewrite Z.add_assoc, ztake_S by lia.
  - intros [] s1 (Hf1 & Hs1 & Hl1). apply HQ; [|done|by rewrite ztake_full in Hl1].
    rewrite Hf1. rewrite drop_ge; [done|]. unfold zlen. lia.
Qed.
End points.

(** ** The whole file *)

Definition types_in_file : list REF_CELL_TYPE :=
  [REF_CELL_TRI; REF_CELL_QUA; REF_CELL_TET; REF_CELL_PYR; REF_CELL_PRI; REF_CELL_HEX].

Section import_ok.
Context {D : Type} `{Dbl D, DblBytes D, Junk Z, Junk REF_ADJ_ITEM, Junk D, !LogIdentity D} (swap fat : bool).
Implicit Types (u : UGRID D) (g : REF_GRID D) (s : IMPORT D).

(** Contents that a file can hold. *)
Record loadable u : Prop := {
  ld_xyz : Forall point_rep (u_xyz u);
  ld_nodes : zlen (u_xyz u) <= node_budget;
  ld_cells : forall type, type ∈ types_in_file -> Forall (importable type) (u_cells u type) /\ zlen (u_cells u type) <= cell_budget
}.
(** A grid with these contents, in this order. *)
Definition loaded u g : Prop :=
  loaded_nodes (u_xyz u) (grid_node g) /\
  forall type, type ∈ types_in_file -> loaded_cells type (u_cells u type) (grid_cell g type).

Lemma new_nodes_loaded (r : REF_NODE D) :
  node_core r (seqZ 0 20) -> node_sorted r -> node_n r = 0 -> node_max r = 20 -> loaded_nodes [] r.
Proof.
  intros Hc Hs Hn Hm. split; [|intros i Hi; unfold zlen in Hi; cbn in Hi; lia].
  constructor; try (intros i Hi; change (zlen []) with 0 in Hi; lia).
  - change (zlen []) with 0. by rewrite Hm.
  - done.
  - unfold node_size. change (zlen []) with 0. lia.
  - done.
  - intros i. change (zlen []) with 0. split; [|lia]. intros Hi.
    pose proof (nc_n _ _ Hc) as Hv. rewrite Hn in Hv. destruct (valid_nodes r); [set_solver|unfold zlen in Hv; cbn in Hv; lia].
Qed.

Lemma new_cells_loaded type (c : REF_CELL) :
  cell_wf c (seqZ 0 100) -> cell_tables c = snd (ref_cell_initialize type) -> cell_n c = 0 -> cell_max c = 100 ->
  (forall k, cell_at c k = None) -> loaded_cells type [] c.
Proof.
  intros Hwf Ht Hn Hm Hat. constructor; change (zlen []) with 0; rewrite ?Hm; try done. intros k. rewrite Hat.
  by rewrite decide_False by lia.
Qed.

Lemma loaded_nodes_n_global pts (r : REF_NODE D) n :
  loaded_nodes pts r -> loaded_nodes pts (snd (ref_node_initialize_n_global r n)).
Proof.
  intros [Hf Hp]. split; [|exact Hp]. destruct Hf as [Hc Hs Hz Hn Hg Hpart Hv]. constructor; try done.
  - by destruct Hc.
  - by destruct Hs.
Qed.

Lemma all_ids_known type es : init_last_node_is_an_id type = false -> Forall (importable type) es -> map (without_id type) es = es.
Proof.
  intros Hno Hes. apply map_id_in. intros e He. rewrite Forall_forall in Hes. destruct (Hes e He) as [Hz _].
  unfold without_id. rewrite Hno in *. rewrite app_nil_r. replace (init_node_per type) with (zlen e) by lia. apply ztake_full.
Qed.

Lemma ints_cons v l : ints swap fat (v :: l) = ints swap fat [v] ++ ints swap fat l.
Proof. apply (ints_app _ _ [v]). Qed.

(** The sections on the faces: other types and the vertices stay. *)
Lemma import_faces_ok u rest s (k : fn (IMPORT D) unit) (Q : unit -> IMPORT D -> Prop) E :
  loadable u ->
  imp_file s = node_ints swap fat REF_CELL_TRI (u_cells u REF_CELL_TRI) ++ node_ints swap fat REF_CELL_QUA (u_cells u REF_CELL_QUA) ++
    id_ints swap fat REF_CELL_TRI (u_cells u REF_CELL_TRI) ++ id_ints swap fat REF_CELL_QUA (u_cells u REF_CELL_QUA) ++ rest ->
  (forall type, loaded_cells type [] (grid_cell (imp_grid s) type)) ->
  (forall s', imp_file s' = rest -> grid_node (imp_grid s') = grid_node (imp_grid s) ->
     (forall type, loaded_cells type (if decide (type ∈ [REF_CELL_TRI; REF_CELL_QUA]) then u_cells u type else []) (grid_cell (imp_grid s') type)) ->
     fwp k Q E s') ->
  fwp (ref_import_bin_ugrid_c2n REF_CELL_TRI (zlen (u_cells u REF_CELL_TRI)) swap fat ;!
       ref_import_bin_ugrid_c2n REF_CELL_QUA (zlen (u_cells u REF_CELL_QUA)) swap fat ;!
       ref_import_bin_ugrid_bound_tag REF_CELL_TRI (zlen (u_cells u REF_CELL_TRI)) swap fat ;!
       ref_import_bin_ugrid_bound_tag REF_CELL_QUA (zlen (u_cells u REF_CELL_QUA)) swap fat ;! k) Q E s.
Proof.
  intros [_ _ Hcells] Hf Hg HQ. destruct (Hcells REF_CELL_TRI ltac:(in_list)) as [He1 Hb1], (Hcells REF_CELL_QUA ltac:(in_list)) as [He2 Hb2].
  apply fwp_bind. eapply ref_import_bin_ugrid_c2n_ok; [exact Hf|apply Hg|done|done|]. intros s1 Hf1 [Hn1 Hs1] Ht1.
  apply fwp_bind. eapply ref_import_bin_ugrid_c2n_ok; [exact Hf1|rewrite Hs1 by done; apply Hg|done|done|]. intros s2 Hf2 [Hn2 Hs2] Ht2.
  apply fwp_bind. eapply ref_import_bin_ugrid_bound_tag_ok; [exact Hf2|done|rewrite Hs2 by done; exact Ht1|done|]. intros s3 Hf3 [Hn3 Hs3] Ht3.
  apply fwp_bind. eapply ref_import_bin_ugrid_bound_tag_ok; [exact Hf3|done|rewrite Hs3 by done; exact Ht2|done|]. intros s4 Hf4 [Hn4 Hs4] Ht4.
  apply HQ; [done|congruence|]. intros type. destruct (decide (type = REF_CELL_TRI)) as [->|]; [rewrite decide_True by in_list; by rewrite Hs4|].
  destruct (decide (type = REF_CELL_QUA)) as [->|]; [by rewrite decide_True by in_list|].
  rewrite decide_False; [|by intros [?|[?|[]%elem_of_nil]%elem_of_cons]%elem_of_cons]. by rewrite Hs4, Hs3, Hs2, Hs1.
Qed.

(** The sections on the volume elements. *)
Lemma import_volumes_ok u rest s (Q : unit -> IMPORT D -> Prop) E :
  loadable u -> imp_file s = concat (map (fun type => node_ints swap fat type (u_cells u type)) types_3d) ++ rest ->
  (forall type, loaded_cells type (if decide (type ∈ [REF_CELL_TRI; REF_CELL_QUA]) then u_cells u type else []) (grid_cell (imp_grid s) type)) ->
  (forall s', grid_node (imp_grid s') = grid_node (imp_grid s) ->
     (forall type, type ∈ types_in_file -> loaded_cells type (u_cells u type) (grid_cell (imp_grid s') type)) -> Q tt s') ->
  fwp (ref_import_bin_ugrid_c2n REF_CELL_TET (zlen (u_cells u REF_CELL_TET)) swap fat ;!
       ref_import_bin_ugrid_c2n REF_CELL_PYR (zlen (u_cells u REF_CELL_PYR)) swap fat ;!
       ref_import_bin_ugrid_c2n REF_CELL_PRI (zlen (u_cells u REF_CELL_PRI)) swap fat ;!
       ref_import_bin_ugrid_c2n REF_CELL_HEX (zlen (u_cells u REF_CELL_HEX)) swap fat) Q E s.
Proof.
  intros [_ _ Hcells] Hf Hg HQ. cbn [map concat types_3d drop all_types] in Hf. rewrite <- !app_assoc in Hf.
  destruct (Hcells REF_CELL_TET ltac:(in_list)) as [He1 Hb1], (Hcells REF_CELL_PYR ltac:(in_list)) as [He2 Hb2],
    (Hcells REF_CELL_PRI ltac:(in_list)) as [He3 Hb3], (Hcells REF_CELL_HEX ltac:(in_list)) as [He4 Hb4].
  apply fwp_bind. eapply ref_import_bin_ugrid_c2n_ok; [exact Hf|apply (Hg REF_CELL_TET)|done|done|]. intros s1 Hf1 [Hn1 Hs1] Ht1.
  apply fwp_bind. eapply ref_import_bin_ugrid_c2n_ok; [exact Hf1|rewrite Hs1 by done; apply (Hg REF_CELL_PYR)|done|done|]. intros s2 Hf2 [Hn2 Hs2] Ht2.
  apply fwp_bind. eapply ref_import_bin_ugrid_c2n_ok; [exact Hf2|rewrite Hs2, Hs1 by done; apply (Hg REF_CELL_PRI)|done|done|]. intros s3 Hf3 [Hn3 Hs3] Ht3.
  eapply ref_import_bin_ugrid_c2n_ok; [exact Hf3|rewrite Hs3, Hs2, Hs1 by done; apply (Hg REF_CELL_HEX)|done|done|]. intros s4 Hf4 [Hn4 Hs4] Ht4.
  rewrite all_ids_known in Ht1, Ht2, Ht3, Ht4 by done.
  apply HQ; [congruence|]. intros type Ht. unfold types_in_file in Ht. repeat (apply elem_of_cons in Ht as [->|Ht]).
  - rewrite Hs4, Hs3, Hs2, Hs1 by done. apply (Hg REF_CELL_TRI).
  - rewrite Hs4, Hs3, Hs2, Hs1 by done. apply (Hg REF_CELL_QUA).
  - by rewrite Hs4, Hs3, Hs2 by done.
  - by rewrite Hs4, Hs3 by done.
  - by rewrite Hs4 by done.
  - done.
  - by apply not_elem_of_nil in Ht.
Qed.

Lemma ref_import_bin_ugrid_ok mpi u rest :
  loadable u ->
  wp (ref_import_bin_ugrid mpi (Some (ugrid_bytes swap fat u ++ rest)) swap fat) (fun '(st, g) =>
    st = REF_SUCCESS /\ exists g', g = Some g' /\ loaded u g').
Proof.
  intros Hu. pose proof Hu as [Hxyz Hnn Hcells]. unfold ref_import_bin_ugrid. apply wp_bind. eapply wp_mono; [apply ref_grid_create_ok|].
  intros [st g] (-> & g0 & -> & (Hc0 & Hs0 & Hn0 & Hm0 & _) & Hnew). cbn [RSS].
  pose proof (new_nodes_loaded _ Hc0 Hs0 Hn0 Hm0) as Hl0.
  assert (Hcl0 : forall type, loaded_cells type [] (grid_cell g0 type)).
  { intros type. destruct (Hnew type) as (? & ? & ? & ? & ?). by apply new_cells_loaded. }
  assert (Hcount : forall type, type ∈ types_in_file -> REF_INT_MIN <= zlen (u_cells u type) <= REF_INT_MAX).
  { intros type Ht. destruct (Hcells type Ht) as [_ Hb]. pose proof (zlen_nonneg (u_cells u type)). unfold cell_budget, REF_INT_MIN, REF_INT_MAX in *. lia. }
  apply wp_bind, wp_body. unfold ugrid_bytes. cbv zeta.
  rewrite !(ints_cons _ (_ :: _)), <- !app_assoc.
  apply fwp_bind. eapply import_count_ok; [reflexivity|pose proof (zlen_nonneg (u_xyz u)); unfold node_budget, REF_INT_MIN, REF_INT_MAX in *; lia|].
  do 6 (apply fwp_bind; eapply import_count_ok; [reflexivity|apply Hcount; in_list|]).
  apply fwp_bind. eapply import_nodes_ok; [reflexivity|exact Hl0|done|done|]. intros s1 Hf1 Hg1 Hn1. cbn in Hg1.
  apply fwp_bind, fwp_assign. set (s2 := set_grid _ s1).
  assert (Hn2 : loaded_nodes (u_xyz u) (grid_node (imp_grid s2))) by by apply loaded_nodes_n_global.
  apply (import_faces_ok u (concat (map (fun type => node_ints swap fat type (u_cells u type)) types_3d) ++ rest));
    [done|exact Hf1|intros type; cbn; rewrite Hg1; apply Hcl0|].
  intros s3 Hf3 Hn3 Hc3. apply (import_volumes_ok u rest); [done|exact Hf3|exact Hc3|]. intros s4 Hn4 Hc4.
  apply wp_ret. split; [done|]. eexists. split; [reflexivity|]. split; [|exact Hc4]. by rewrite Hn4, Hn3.
Qed.
End import_ok.

(** ** The round trip *)

Lemma in_file_2d_3d type : type ∈ types_in_file -> type ∈ types_2d_3d.
Proof.
  intros Ht. destruct type; first [in_list|exfalso; revert Ht; in_list].
Qed.

Section roundtrip.
Context {D : Type} `{Dbl D, DblBytes D, Junk Z, Junk REF_ADJ_ITEM, Junk D, !LogIdentity D}.
Implicit Types (g : REF_GRID D).

Lemma importable_renumber g type e : exportable g -> type ∈ types_in_file -> e ∈ in_order g type ->
  importable type (renumber (compact_order (grid_node g)) type e).
Proof.
  intros He Ht Hin. destruct (compact_numbering g He) as (o2n & _ & Hnum & Hp & Hlen).
  pose proof (in_file_2d_3d type Ht) as Ht'.
  destruct (in_order_entry g type e Hin) as [cell Hat]. pose proof (entry_length g type cell e He Ht' Hat) as Hz.
  assert (Hzn : init_node_per type <= zlen e) by (destruct (init_last_node_is_an_id type); lia).
  split; [|split].
  - rewrite <- Hz. unfold renumber, ztake, zlen. f_equal. rewrite length_app, length_map, length_take, length_drop.
    unfold zlen in Hzn. lia.
  - rewrite renumber_nodes by done. apply Forall_map. pose proof (eg_nodes g He type cell e Ht' Hat) as Hn.
    unfold nodes_of in Hn. rewrite (eg_type g He type) in Hn. eapply Forall_impl; [exact Hn|]. cbn. intros v Hv.
    destruct (place_o2n o2n (compact_order (grid_node g)) v Hnum) as [_ Hr]; [by rewrite Hp|]. pose proof (eg_size g He). lia.
  - intros Hid. rewrite Hid in Hz. rewrite renumber_id by lia. pose proof (eg_ids g He) as Hids. rewrite Forall_forall in Hids.
    assert (Hin' : e ∈ entries (grid_cell g type)).
    { pose proof (in_order_perm g type He Ht') as Hperm. by rewrite <- Hperm. }
    enough (e.[init_node_per type] ∈ ids g) as Hmem by (specialize (Hids _ Hmem); lia).
    unfold ids. apply elem_of_app. unfold types_in_file in Ht.
    repeat (apply elem_of_cons in Ht as [->|Ht]); try done; [left| |by apply not_elem_of_nil in Ht];
      [|right]; apply list_elem_of_fmap; by exists e.
Qed.

Lemma exportable_loadable g : exportable g -> loadable (ugrid_of g).
Proof.
  intros He. destruct (compact_numbering g He) as (_ & _ & _ & Hp & Hlen).
  constructor.
  - cbn [u_xyz ugrid_of]. apply Forall_map, Forall_forall. intros v Hv. rewrite Hp in Hv. split; [done|by apply (eg_rep g He)].
  - cbn [u_xyz ugrid_of]. rewrite zlen_map, Hlen. apply (eg_size g He).
  - intros type Ht. cbn [u_cells ugrid_of]. split.
    + apply Forall_map, Forall_forall. intros e Hin. by apply importable_renumber.
    + rewrite zlen_map, zlen_in_order by (done || by apply in_file_2d_3d). by apply (eg_count g He), in_file_2d_3d.
Qed.

(** C5. Binary UGRID files, in each of the four formats: for a grid in order,
    [ref_export_bin_ugrid] writes a file and [ref_import_bin_ugrid] of that file makes
    a grid in order with the same vertices and elements. Vertex [k] of the new grid
    has the coordinates, to the bit, of vertex [k] in the order of [ref_node_compact];
    the triangles and the quadrilaterals come in the order of their ids, all others in
    theirs, and an element has its nodes, renumbered, and its id. *)
Theorem ugrid_round_trip (mpi : REF_MPI) (swap fat : bool) g :
  exportable g ->
  let order := compact_order (grid_node g) in
  exists bytes g',
    ref_export_bin_ugrid g true swap fat = Some (REF_SUCCESS, bytes) /\
    ref_import_bin_ugrid mpi (Some bytes) swap fat = Some (REF_SUCCESS, Some g') /\
    (order ≡ₚ valid_nodes (grid_node g) /\ node_wf (grid_node g') /\ node_n (grid_node g') = node_n (grid_node g) /\
     forall k, 0 <= k < node_n (grid_node g) -> point_of (grid_node g') k = point_of (grid_node g) order.[k]) /\
    forall type, type ∈ types_in_file ->
      in_order g type ≡ₚ entries (grid_cell g type) /\ (exists bl, cell_wf (grid_cell g' type) bl) /\
      forall k, cell_at (grid_cell g' type) k =
        if decide (0 <= k < cell_n (grid_cell g type)) then Some (renumber order type (in_order g type).[k]) else None.
Proof.
  intros He order. destruct (compact_numbering g He) as (_ & _ & _ & Hp & Hlen). pose proof (exportable_loadable g He) as Hload.
  destruct (ref_import_bin_ugrid_ok swap fat mpi (ugrid_of g) [] Hload) as ([st g0] & Himp & -> & g' & -> & Hnodes & Hcells).
  rewrite app_nil_r in Himp. exists (ugrid_bytes swap fat (ugrid_of g)), g'.
  split; [by apply ref_export_bin_ugrid_ok|]. split; [done|]. split.
  - destruct Hnodes as [Hf Hpt]. cbn [u_xyz ugrid_of] in *. rewrite zlen_map, Hlen in Hf, Hpt. destruct Hf as [Hc Hs _ Hn _ _ _].
    split; [done|]. split; [split; [by eexists|done]|]. split; [done|]. intros k Hk. rewrite Hpt by done. change (compact_order (grid_node g)) with order in Hlen.
    apply aat_map. lia.
  - intros type Ht.
    pose proof (in_file_2d_3d type Ht) as Ht'.
    pose proof (zlen_in_order g type He Ht') as Hz. destruct (Hcells type Ht) as [Hwf _ _ _ Hat]. cbn [u_cells ugrid_of] in *. rewrite zlen_map, Hz in Hwf, Hat.
    split; [by apply in_order_perm|]. split; [by eexists|]. intros k. rewrite Hat. case_decide; [|done]. f_equal. apply aat_map. lia.
Qed.
End roundtrip.

(** ** Example

    Vertex 0 was removed, and the ids of the triangles are out of order. *)
Module UgridExample.
#[local] Existing Instances NodeExample.double NodeExample.junk_double NodeExample.junk_int ReplaceExample.junk_item.

Definition commands : list node_command := map NodeAdd [0; 1; 2; 3; 4; 5] ++ [NodeRemove 0].
Definition few_nodes : REF_NODE spec_float :=
  match (let* '(_, r) := ref_node_create NodeExample.mpi in run node_exec commands r) with
  | Some (_, r) => r
  | None => NodeExample.empty_node
  end.
Definition node : REF_NODE spec_float :=
  SwapExample.place 1 (0, 0, 1) (SwapExample.place 2 (1, 0, 0) (SwapExample.place 3 (0, 1, 0)
    (SwapExample.place 4 (-1, 0, 0) (SwapExample.place 5 (0, -1, 0) few_nodes)))).
Definition tets : list (list Z) := [[1; 2; 3; 4]; [5; 2; 1; 4]].
Definition tris : list (list Z) := [[1; 3; 2; 20]; [1; 4; 3; 10]; [2; 3; 4; 20]].
Definition grid : REF_GRID spec_float := ReplaceExample.mesh node tets tris.

Lemma node_in_order : node_wf node.
Proof.
  do 5 apply SwapExample.place_wf.
  destruct (node_run_ok (D:=spec_float) NodeExample.mpi commands) as (r0 & os & r & a & Hc & Hr & _ & Hwf & _).
  { vm_compute. congruence. }
  unfold few_nodes. rewrite Hc. cbn [obind]. by rewrite Hr.
Qed.

Lemma elements_in_order type : exists bl, cell_wf (grid_cell grid type) bl.
Proof.
  apply ReplaceExample.cells_wf; [|by destruct type; vm_compute]. unfold ReplaceExample.elements.
  destruct type; cbn [map]; repeat (apply Forall_cons; split; [|]); try apply Forall_nil_2;
    cbn [command_ok]; unfold entries_ok; apply (bool_decide_unpack _); vm_compute; exact I.
Qed.

(** The nodes of the elements are vertices. *)
Definition valid_entries (type : REF_CELL_TYPE) : bool :=
  forallb (fun e => bool_decide (Forall (fun v => v ∈ valid_nodes (grid_node grid)) (nodes_of (cell_tables (grid_cell grid type)) e)))
    (entries (grid_cell grid type)).
Lemma valid_entries_ok type : valid_entries type = true.
Proof. by destruct type; vm_compute. Qed.

Lemma grid_exportable : exportable grid.
Proof.
  constructor.
  - exact node_in_order.
  - by vm_compute.
  - by vm_compute.
  - intros type _. apply elements_in_order.
  - intros type. by destruct type; vm_compute.
  - intros type cell e _ Hat. destruct (elements_in_order type) as [bl Hwf].
    pose proof (valid_entries_ok type) as Hv. unfold valid_entries in Hv. rewrite forallb_forall in Hv.
    apply (bool_decide_unpack _), Is_true_true, Hv, list_elem_of_In. unfold entries. apply elem_of_cell_items.
    exists cell, e. split; [done|]. set_solver.
  - intros type _. by destruct type; vm_compute.
  - apply (bool_decide_unpack _). vm_compute. exact I.
  - apply Forall_forall. cbn [dbl_rep binary64_bytes]. apply (bool_decide_unpack _). vm_compute. exact I.
Qed.
End UgridExample.

#[local] Existing Instances NodeExample.double NodeExample.junk_double NodeExample.junk_int ReplaceExample.junk_item.
Lemma ugrid_round_trip_witness :
  exportable UgridExample.grid /\
  exists bytes g',
    ref_export_bin_ugrid UgridExample.grid true true false = Some (REF_SUCCESS, bytes) /\
    ref_import_bin_ugrid NodeExample.mpi (Some bytes) true false = Some (REF_SUCCESS, Some g') /\
    node_n (grid_node g') = 5 /\
    map (cell_at (ref_grid_tri g')) [0; 1; 2] = map Some [[0; 3; 2; 10]; [0; 2; 1; 20]; [1; 2; 3; 20]] /\
    map (cell_at (ref_grid_tet g')) [0; 1; 2] = [Some [0; 1; 2; 3]; Some [4; 1; 0; 3]; None].
Proof.
  split; [exact UgridExample.grid_exportable|].
  destruct (ugrid_round_trip NodeExample.mpi true false UgridExample.grid UgridExample.grid_exportable)
    as (bytes & g' & Hexp & Himp & (_ & _ & Hn & _) & Hcells).
  exists bytes, g'. split; [exact Hexp|]. split; [exact Himp|]. split; [rewrite Hn; reflexivity|].
  assert (REF_CELL_TRI ∈ types_in_file /\ REF_CELL_TET ∈ types_in_file) as [Hin1 Hin2]
    by (split; in_list).
  destruct (Hcells _ Hin1) as (_ & _ & Htri), (Hcells _ Hin2) as (_ & _ & Htet).
  cbn [map]. unfold ref_grid_tri, ref_grid_tet. rewrite !Htri, !Htet. split; vm_compute; reflexivity.
Defined.
