(* ===== verification/RefEdgeOrder.v ===== *)
(** * The loops of [ref_edge_rcm]

    The vertices that are numbered and those in the queue are different vertices of
    the grid that have an edge, so the queue never outgrows its array and the inner
    loop ends; when every vertex has an edge, all of them are numbered, and when one
    has none, the outer loop reaches a turn that is undefined. *)
From S2P Require Import Prelude Rows Effect RefList RefAdj RefDbl RefMpi RefNode RefCellType RefCell RefCellQuery RefGeom RefGrid RefMeasure RefCellSpec RefCellNode RefCavity RefCavityTable RefCavityReplace RefCavityForm RefCavitySwap RowList RefEdge.
From stdpp Require Import prelude list gmap.
From Stdlib Require Import ZArith Lia SpecFloat.
Open Scope Z_scope.
Open Scope ref_scope.

(** The first entries of the rows of the queue. *)
Definition queued (q : list Z) (Q : list Z) : Prop := forall i, 0 <= i < zlen Q -> q.[0 + 2 * i] = Q.[i].

(** [L] are the vertices numbered so far, [Q] those in the queue, [M] those whose
    entry in [o2n] is not [REF_EMPTY]. *)
Record rcm_inv {D} (n : REF_NODE D) (r : REF_EDGE) (s : RCM) (L Q M : list Z) : Prop := {
  ri_o2n : zlen (o2n s) = node_max n;
  ri_n2o : zlen (n2o s) = node_n n;
  ri_queue : zlen (queue s) = 2 * node_n n;
  ri_ndone : ndone s = zlen L;
  ri_nqueue : nqueue s = zlen Q;
  ri_done : ztake (zlen L) (n2o s) = L;
  ri_queued : queued (queue s) Q;
  ri_distinct : NoDup (L ++ Q);
  ri_valid : forall v, v ∈ L ++ Q -> v ∈ valid_nodes n;
  ri_edge : forall v, v ∈ L ++ Q -> adj_refs (edge_adj r) v <> [];
  ri_marked : forall v, 0 <= v < node_max n -> (o2n s).[v] = REF_EMPTY <-> v ∉ M
}.

(** What the ordering reads: the vertices with their adjacency. *)
Record rcm_graph {D} (n : REF_NODE D) (r : REF_EDGE) : Prop := {
  rg_node : exists bl, node_core n bl;
  rg_edge : edge_wf r;
  rg_size : 2 * node_n n <= REF_INT_MAX;
  rg_ends : forall edge k, 0 <= edge < edge_n r -> 0 <= k < 2 -> (edge_rows r).[edge].[k] ∈ valid_nodes n
}.

Section rcm.
Context {D : Type} `{Dbl D, Junk Z, Junk REF_ADJ_ITEM} (n : REF_NODE D) (r : REF_EDGE) (Hg : rcm_graph n r).
Notation N := (node_n n).
Implicit Types (s : RCM) (L Q M : list Z).

Lemma valid_range v : v ∈ valid_nodes n -> 0 <= v < node_max n.
Proof. by intros [? _]%elem_of_valid_nodes. Qed.

Lemma distinct_room L Q v :
  NoDup (L ++ Q) -> (forall w, w ∈ L ++ Q -> w ∈ valid_nodes n) -> v ∈ valid_nodes n -> v ∉ L ++ Q ->
  zlen L + zlen Q < N.
Proof using Hg.
  intros Hnd Hin Hv Hnv. destruct (rg_node _ _ Hg) as [bl Hc]. rewrite (nc_n _ _ Hc), <- zlen_app.
  assert (Hsub : v :: L ++ Q ⊆+ valid_nodes n).
  { apply NoDup_submseteq; [by constructor|]. intros w [->|Hw]%elem_of_cons; [done|by apply Hin]. }
  apply submseteq_length in Hsub. cbn in Hsub. unfold zlen. lia.
Qed.

Lemma rcm_insert_point_ok q nhere degree (P : Z -> Prop) :
  0 <= nhere -> 2 * nhere <= zlen q -> zlen q <= REF_INT_MAX -> (forall p, 0 <= p <= nhere -> P p) ->
  wp (rcm_insert_point q nhere degree) P.
Proof.
  intros Hn Hl Hmax HP. unfold rcm_insert_point.
  apply wp_bind, (wp_forx_up (fun _ _ => True) (fun p => 0 <= p <= nhere)); [done|done| | |].
  - intros i [] Hi _. apply wp_bind. unfold row_get, row_index. wp_go; unfold REF_INT_MIN; try lia; cbn; (done || lia).
  - intros [] _. apply wp_ret, HP. lia.
  - intros p Hp. by apply wp_ret, HP.
Qed.

(** The entries from the place of insertion move up. *)
Lemma queue_node_ok s Q node degree nhere (P : Z -> RCM -> Prop) E :
  zlen (queue s) = 2 * N -> 2 * N <= REF_INT_MAX -> nqueue s = zlen Q -> zlen Q < N -> 0 <= nhere <= zlen Q ->
  queued (queue s) Q ->
  (forall q p, 0 <= p <= nhere -> zlen q = 2 * N -> queued q (ztake p Q ++ node :: drop (Z.to_nat p) Q) ->
     P (nhere + 1) (set_nqueue (zlen Q + 1) (set_queue q s))) ->
  fwp (ref_edge_rcm_queue_node node degree nhere) P E s.
Proof.
  intros Hz Hmax Hn Hroom Hh Hq HP. unfold ref_edge_rcm_queue_node. apply fwp_bind, fwp_state, fwp_bind, fwp_use.
  apply rcm_insert_point_ok; [lia|lia|lia|]. intros p Hp. rewrite Hn.
  apply fwp_bind, fwp_use, (wp_for_down (fun i q => zlen q = 2 * N /\
    forall j k, 0 <= j < N -> 0 <= k < 2 -> q.[k + 2 * j] =
      if (i <? j) && (j <=? zlen Q) then (queue s).[k + 2 * (j - 1)] else (queue s).[k + 2 * j])); [lia| | |].
  - split; [done|]. intros j k Hj Hk. destruct (Z.ltb_spec (zlen Q) j), (Z.leb_spec j (zlen Q)); (done || lia).
  - intros i q Hi [Hzq Hold].
    apply wp_bind, (wp_row_get 2 N); [lia|done|done|lia|lia|]. apply wp_bind, (wp_row_put 2 N); [lia|done|done|lia|lia|].
    apply wp_bind, (wp_row_get 2 N); [lia|done|by rewrite zlen_upd|lia|lia|]. apply (wp_row_put 2 N); [lia|done|by rewrite zlen_upd|lia|lia|].
    split; [by rewrite !zlen_upd|]. intros j k Hj Hk. rewrite !aat_upd by (rewrite ?zlen_upd; lia).
    rewrite !Hold by lia.
    repeat match goal with |- context [?a =? ?b] => destruct (Z.eqb_spec a b) end;
    repeat match goal with |- context [?a <? ?b] => destruct (Z.ltb_spec a b) end;
    repeat match goal with |- context [?a <=? ?b] => destruct (Z.leb_spec a b) end; cbn [andb]; try lia; try (f_equal; lia).
  - intros q [Hzq Hold].
    apply fwp_bind, fwp_use, (wp_row_put 2 N); [lia|done|done|lia|lia|].
    apply fwp_bind, fwp_use, (wp_row_put 2 N); [lia|done|by rewrite zlen_upd|lia|lia|].
    apply fwp_bind, fwp_assign, fwp_bind, fwp_use, wp_ck_int; [unfold REF_INT_MIN; lia|].
    apply fwp_bind, fwp_assign, fwp_use, wp_ck_int; [unfold REF_INT_MIN; lia|].
    apply (HP _ p); [done|by rewrite !zlen_upd|]. assert (Hzp : zlen (ztake p Q) = p) by (apply zlen_ztake; lia).
    intros i Hi. rewrite zlen_app, zlen_cons, Hzp in Hi.
    assert (Hzd : zlen (drop (Z.to_nat p) Q) = zlen Q - p) by (unfold zlen in *; rewrite length_drop; lia).
    rewrite !aat_upd, Hold by (rewrite ?zlen_upd; lia).
    destruct (Z.lt_trichotomy i p) as [Hip|[->|Hip]].
    + rewrite aat_app_l, aat_ztake by lia. rewrite <- Hq by lia.
      repeat match goal with |- context [?a =? ?b] => destruct (Z.eqb_spec a b) end; try lia.
      destruct (Z.ltb_spec p i); [lia|done].
    + rewrite aat_app_r, Hzp, Z.sub_diag, aat_cons_0 by lia.
      repeat match goal with |- context [?a =? ?b] => destruct (Z.eqb_spec a b) end; (done || lia).
    + rewrite aat_app_r, Hzp, aat_cons_pos, aat_drop by lia. replace (p + (i - p - 1)) with (i - 1) by lia. rewrite <- Hq by lia.
      repeat match goal with |- context [?a =? ?b] => destruct (Z.eqb_spec a b) end; try lia.
      destruct (Z.ltb_spec p i), (Z.leb_spec i (zlen Q)); (done || lia).
Qed.

Definition rcm_ok s L Q : Prop := rcm_inv n r s L Q (L ++ Q).

(** The ends of an edge have an edge. *)
Lemma edge_end_edge ref col : 0 <= ref < edge_n r -> 0 <= col < 2 -> adj_refs (edge_adj r) (edge_rows r).[ref].[col] <> [].
Proof using Hg.
  intros Href Hcol Hnil. apply (not_elem_of_nil ref). rewrite <- Hnil.
  apply (elem_of_indexed _ _ _ _ (ew_index _ (rg_edge _ _ Hg))). rewrite zlen_edge_rows by apply Hg. split; [done|].
  destruct (edge_row_shape r ref (rg_edge _ _ Hg) Href) as (a & b & ->).
  assert (col = 0 \/ col = 1) as [->| ->] by lia; [apply list_elem_of_here|apply list_elem_of_further, list_elem_of_here].
Qed.

(** One end of an edge: queued unless it was. *)
Lemma rcm_visit_ok s L Q col ref nhere (P : Z -> RCM -> Prop) E :
  rcm_ok s L Q -> 0 <= col < 2 -> 0 <= ref < edge_n r -> 0 <= nhere <= zlen Q ->
  (forall nhere' s' Q', rcm_ok s' L Q' -> 0 <= nhere' <= zlen Q' -> P nhere' s') ->
  fwp (rcm_visit r col ref nhere) P E s.
Proof using Hg.
  intros Hs Hcol Href Hh HP. pose proof Hs as [Ho Hn2 Hq Hnd Hnq Hdone Hqd Hdist Hval Hedge Hm].
  apply fwp_bind, fwp_use. rewrite (e2n_ok r col ref) by (apply Hg || done). apply wp_ret.
  set (other := (edge_rows r).[ref].[col]). pose proof (rg_ends _ _ Hg ref col Href Hcol) as Hv. fold other in Hv.
  pose proof (valid_range _ Hv) as Hr. apply fwp_bind, fwp_state, fwp_bind, fwp_use, wp_aget; [lia|].
  destruct (Z.eqb_spec REF_EMPTY (o2n s).[other]) as [He|He]; [|by apply fwp_ret, (HP _ _ Q)].
  assert (Hnot : other ∉ L ++ Q) by (by apply Hm).
  pose proof (distinct_room L Q other Hdist Hval Hv Hnot) as Hroom. pose proof (zlen_nonneg L).
  apply fwp_bind, fwp_update, wp_bind, wp_aset; [lia|]. apply wp_ret, fwp_bind, fwp_ask.
  rewrite ref_adj_degree_ok by apply Hg. apply wp_ret. rewrite decide_True by done.
  apply (queue_node_ok _ Q); try done; [apply Hg|lia|]. intros q p Hp Hzq Hq'. cbn [set_o2n o2n n2o ndone].
  set (Q' := ztake p Q ++ other :: drop (Z.to_nat p) Q).
  assert (HQ : other :: Q ≡ₚ Q').
  { unfold Q'. rewrite <- (take_drop (Z.to_nat p) Q) at 1. apply Permutation_middle. }
  assert (HzQ : zlen Q' = zlen Q + 1).
  { unfold zlen. rewrite <- (Permutation_length HQ). cbn. lia. }
  assert (HLQ : other :: L ++ Q ≡ₚ L ++ Q') by (rewrite <- HQ; apply Permutation_middle).
  apply (HP _ _ Q'); [|lia]. constructor; cbn; rewrite ?zlen_upd; try done.
  - rewrite <- HLQ. by constructor.
  - intros v. rewrite <- HLQ. intros [->|Hv']%elem_of_cons; [done|by apply Hval].
  - intros v. rewrite <- HLQ. intros [->|Hv']%elem_of_cons; [by apply (edge_end_edge ref col)|by apply Hedge].
  - intros v Hv'. rewrite <- HLQ, aat_upd, not_elem_of_cons by lia. rewrite <- Hm by done.
    case Z.eqb_spec; [intros ->|]; unfold REF_EMPTY; naive_solver.
Qed.

(** A vertex that leaves the queue, or starts a component, gets the next number. *)
Lemma rcm_queue_ok s L Q M node (P : unit -> RCM -> Prop) E :
  rcm_inv n r s L Q M -> node ∈ valid_nodes n -> adj_refs (edge_adj r) node <> [] -> node ∉ L ++ Q ->
  (forall v, v <> node -> v ∈ M <-> v ∈ L ++ Q) ->
  (forall s' Q', rcm_ok s' (L ++ [node]) Q' -> P tt s') ->
  fwp (ref_edge_rcm_queue r node) P E s.
Proof using Hg.
  intros [Ho Hn2 Hq Hnd Hnq Hdone Hqd Hdist Hval Hedge Hm] Hv Hdeg Hnot HM HP.
  pose proof (valid_range _ Hv) as Hr. pose proof (distinct_room L Q node Hdist Hval Hv Hnot) as Hroom.
  pose proof (zlen_nonneg L) as HzL. pose proof (zlen_nonneg Q) as HzQ. destruct (rg_node _ _ Hg) as [bl Hc].
  pose proof (rg_size _ _ Hg) as Hsize. apply fwp_bind, fwp_state.
  apply fwp_bind, fwp_update, wp_bind, wp_aset; [lia|]. apply wp_ret. cbn [set_n2o o2n n2o ndone].
  apply fwp_bind, fwp_update, wp_bind, wp_aset; [cbn; lia|]. apply wp_ret. cbn [set_o2n o2n n2o ndone].
  apply fwp_bind, fwp_update, wp_bind, wp_ck_int; [cbn; unfold REF_INT_MIN; lia|]. apply wp_ret.
  match goal with |- fwp _ _ _ ?x => set (s1 := x) end.
  assert (Hs1 : rcm_ok s1 (L ++ [node]) Q).
  { constructor; cbn; rewrite ?zlen_upd, ?zlen_app; try done.
    - change (zlen [node]) with 1. lia.
    - change (zlen [node]) with 1. rewrite Hnd, ztake_S_upd, Hdone by lia. done.
    - rewrite <- app_assoc. cbn. by rewrite <- Permutation_middle, NoDup_cons.
    - intros v. rewrite <- app_assoc. cbn. rewrite <- Permutation_middle. intros [->|Hin]%elem_of_cons; [done|by apply Hval].
    - intros v. rewrite <- app_assoc. cbn. rewrite <- Permutation_middle. intros [->|Hin]%elem_of_cons; [done|by apply Hedge].
    - intros v Hvr. rewrite <- app_assoc. cbn. rewrite <- Permutation_middle, not_elem_of_cons, aat_upd by lia.
      case Z.eqb_spec; [intros ->; unfold REF_EMPTY; split; [lia|tauto]|]. intros Hne. rewrite Hm, HM by congruence. naive_solver. }
  clearbody s1. clear Ho Hn2 Hq Hnd Hnq Hdone Hqd Hm HM s. apply fwp_bind.
  apply (fwp_through_acc (adj_refs (edge_adj r) node)) with
    (P := fun _ nhere s => exists Q, rcm_ok s (L ++ [node]) Q /\ 0 <= nhere <= zlen Q).
  - intros body x. apply each_ref_adj_refs, Hg.
  - by exists Q.
  - intros pre ref post nhere s Hl (Q1 & Hs & Hh). pose proof (ew_index _ (rg_edge _ _ Hg)) as Hidx.
    assert (Href : ref ∈ adj_refs (edge_adj r) node) by (rewrite Hl; set_solver).
    apply (elem_of_indexed _ _ _ _ Hidx) in Href as [Href _]. rewrite zlen_edge_rows in Href by apply Hg.
    apply fwp_bind, (rcm_visit_ok s (L ++ [node]) Q1); try done. intros nhere1 s2 Q2 Hs2 Hh2.
    apply (rcm_visit_ok s2 (L ++ [node]) Q2); try done. intros nhere3 s3 Q3 Hs3 Hh3. by exists Q3.
  - intros nhere s (Q1 & Hs & _). apply fwp_ret. by apply (HP _ Q1).
Qed.

(** The queue runs empty. *)
Lemma rcm_drain_ok fuel s L Q (P : unit -> RCM -> Prop) E :
  rcm_ok s L Q -> N < Z.of_nat fuel ->
  (forall s' L', rcm_ok s' L' [] -> zlen L <= zlen L' -> P tt s') ->
  fwp (rcm_drain fuel r) P E s.
Proof using Hg.
  intros Hs Hfuel HP. pose proof (zlen_nonneg L) as HzL.
  apply fwp_again with (I := fun _ s => exists L' Q', rcm_ok s L' Q' /\ zlen L <= zlen L') (m := fun _ s => N - ndone s).
  - by exists L, Q.
  - rewrite (ri_ndone _ _ _ _ _ _ Hs). lia.
  - intros [] s1 (L1 & Q1 & Hs1 & _). pose proof Hs1 as [_ Hn2 _ Hnd _ Hdone _ _ _ _ _].
    rewrite Hnd, <- Hn2. rewrite <- Hdone at 1. unfold zlen, ztake. rewrite length_take. lia.
  - intros [] s1 (L1 & Q1 & Hs1 & Hle). pose proof Hs1 as [Ho Hn2 Hq Hnd Hnq Hdone Hqd Hdist Hval Hedge Hm].
    apply fwp_bind, fwp_state. rewrite Hnq. destruct (Z.ltb_spec 0 (zlen Q1)) as [Hpos|Hzero].
    + destruct (exists_last (l := Q1)) as (Q2 & node & ->); [by intros ->|]. rewrite zlen_app in *. change (zlen [node]) with 1 in *.
      pose proof (zlen_nonneg Q2). replace (zlen Q2 + 1 - 1) with (zlen Q2) by lia.
      assert (Hnode : (queue s1).[0 + 2 * zlen Q2] = node).
      { rewrite Hqd by (rewrite zlen_app; change (zlen [node]) with 1; lia). by rewrite aat_app_r, Z.sub_diag, aat_cons_0 by lia. }
      assert (Hmid : node :: L1 ++ Q2 ≡ₚ L1 ++ Q2 ++ [node]).
      { by rewrite (Permutation_app_comm Q2 [node]), (Permutation_middle L1 Q2 node). }
      pose proof Hdist as Hdist'. rewrite <- Hmid, NoDup_cons in Hdist'. destruct Hdist' as [Hnot Hdist2].
      assert (Hv : node ∈ valid_nodes n) by (apply Hval; set_solver).
      assert (HzN : zlen Q2 < N) by (pose proof (distinct_room L1 Q2 node Hdist2 ltac:(intros w Hw; apply Hval; set_solver) Hv Hnot); pose proof (zlen_nonneg L1); lia).
      pose proof (rg_size _ _ Hg) as Hsize.
      apply fwp_bind, fwp_use, (wp_row_get 2 N); [lia|done|done|lia|lia|]. rewrite Hnode.
      apply fwp_bind, fwp_use, (wp_row_get 2 N); [lia|done|done|lia|lia|]. apply fwp_bind, fwp_assign.
      apply fwp_bind, (rcm_queue_ok _ L1 Q2 (L1 ++ Q2 ++ [node])); [|done|apply Hedge; set_solver|done| |].
      * constructor; cbn; try done.
        -- intros i Hi. rewrite Hqd by (rewrite zlen_app; change (zlen [node]) with 1; lia). by rewrite aat_app_l by lia.
        -- intros v Hv'. apply Hval. set_solver.
        -- intros v Hv'. apply Hedge. set_solver.
      * intros v Hne. rewrite <- Hmid, elem_of_cons. naive_solver.
      * intros s2 Q3 Hs2. apply fwp_ret. rewrite (ri_ndone _ _ _ _ _ _ Hs2), zlen_app, Hnd. change (zlen [node]) with 1.
        split; [|lia]. exists (L1 ++ [node]), Q3. split; [done|]. rewrite zlen_app. change (zlen [node]) with 1. lia.
    + apply fwp_ret. assert (Q1 = []) as -> by (destruct Q1 as [|x l]; [done|rewrite zlen_cons in Hzero; pose proof (zlen_nonneg l); lia]).
      by apply (HP s1 L1).
Qed.

Lemma aat_reverse (l : list Z) i : 0 <= i < zlen l -> (reverse l).[i] = l.[zlen l - i - 1].
Proof.
  intros Hi. assert (Hr : reverse l !! Z.to_nat i = Some l.[zlen l - i - 1]).
  { rewrite reverse_lookup by (unfold zlen in *; lia). rewrite <- aat_lookup by lia. f_equal. unfold zlen in *. lia. }
  apply aat_of_lookup in Hr. by rewrite Z2Nat.id in Hr by lia.
Qed.

(** The vertex is unnumbered and has an edge, or no unnumbered vertex has one. *)
Lemma min_degree_ok o2n :
  zlen o2n = node_max n ->
  wp (ref_edge_min_degree_node n r o2n) (fun '(st, (degree, node)) => st = REF_SUCCESS /\
    ((degree = REF_EMPTY /\ node = REF_EMPTY /\
        forall v, v ∈ valid_nodes n -> o2n.[v] = REF_EMPTY -> adj_refs (edge_adj r) v = []) \/
     (node ∈ valid_nodes n /\ o2n.[node] = REF_EMPTY /\ adj_refs (edge_adj r) node <> []))).
Proof using Hg.
  intros Hz. destruct (rg_node _ _ Hg) as [bl Hc]. pose proof (nc_max _ _ Hc) as Hmax.
  apply wp_bind, (wp_forx_up (fun i '(degree, node) =>
    (degree = REF_EMPTY /\ node = REF_EMPTY /\
       forall v, v < i -> v ∈ valid_nodes n -> o2n.[v] = REF_EMPTY -> adj_refs (edge_adj r) v = []) \/
    (0 <= node /\ node ∈ valid_nodes n /\ o2n.[node] = REF_EMPTY /\ adj_refs (edge_adj r) node <> [])) (fun _ => False));
    [lia| | | |done].
  - left. do 2 (split; [done|]). intros v Hv Hval. apply valid_range in Hval. lia.
  - intros i [d node] Hi HI.
    (* [i] is passed over: it is not valid, is numbered or has no edge *)
    assert (Hpass : (i ∈ valid_nodes n -> o2n.[i] = REF_EMPTY -> adj_refs (edge_adj r) i = []) ->
      (d = REF_EMPTY /\ node = REF_EMPTY /\
         forall v, v < i + 1 -> v ∈ valid_nodes n -> o2n.[v] = REF_EMPTY -> adj_refs (edge_adj r) v = []) \/
      (0 <= node /\ node ∈ valid_nodes n /\ o2n.[node] = REF_EMPTY /\ adj_refs (edge_adj r) node <> [])).
    { intros Hno. destruct HI as [(-> & -> & Hold)|HI]; [left|by right]. do 2 (split; [done|]). intros v Hv.
      destruct (decide (v = i)) as [->|]; [done|]. apply Hold. lia. }
    rewrite ref_node_valid_eq by apply Hc. cbn [obind]. case_bool_decide as Hval; [|by apply wp_ret, Hpass].
    rewrite aget_aat by lia. cbn [obind].
    destruct (Z.eqb_spec REF_EMPTY o2n.[i]) as [He|He]; cbn [negb]; [|apply wp_ret, Hpass; congruence].
    rewrite ref_adj_degree_ok by apply Hg. cbn [obind]. apply wp_ret. cbn [ctl_post].
    destruct (adj_refs (edge_adj r) i) as [|x l] eqn:Hrefs; [by apply Hpass|].
    assert (0 < zlen (x :: l)) by (rewrite zlen_cons; pose proof (zlen_nonneg l); lia).
    rewrite (proj2 (Z.ltb_lt 0 _)) by done. cbn [andb].
    assert (Hnew : 0 <= i /\ i ∈ valid_nodes n /\ o2n.[i] = REF_EMPTY /\ adj_refs (edge_adj r) i <> []) by (rewrite Hrefs; split; [lia|done]).
    destruct (_ || _) eqn:Hor; [by right|]. apply orb_false_iff in Hor as [Hn _]. apply Z.eqb_neq in Hn.
    destruct HI as [(_ & -> & _)|HI]; [done|by right].
  - intros [d node] HI. apply wp_ret. split; [done|].
    destruct HI as [(Hd & Hn & Hno)|(_ & HI)]; [left|by right]. do 2 (split; [done|]). intros v Hv. apply Hno; [|done].
    by apply valid_range in Hv as [].
Qed.

Lemma some_left L : NoDup L -> (forall v, v ∈ L -> v ∈ valid_nodes n) -> zlen L < N ->
  exists v, v ∈ valid_nodes n /\ v ∉ L.
Proof using Hg.
  intros Hnd Hin Hlt. destruct (rg_node _ _ Hg) as [bl Hc]. rewrite (nc_n _ _ Hc) in Hlt.
  destruct (decide (Exists (fun v => v ∉ L) (valid_nodes n))) as [(v & Hv & Hnot)%Exists_exists|Hall]; [by exists v|].
  exfalso. assert (Hsub : valid_nodes n ⊆+ L).
  { apply NoDup_submseteq; [apply NoDup_valid_nodes|]. intros v Hv. destruct (decide (v ∈ L)); [done|].
    exfalso. apply Hall, Exists_exists. by exists v. }
  apply submseteq_length in Hsub. unfold zlen in Hlt. lia.
Qed.

Lemma rcm_done_bound s L Q : rcm_ok s L Q -> zlen L <= N.
Proof. intros [_ Hn2 _ Hnd _ Hdone _ _ _ _ _]. rewrite <- Hn2, <- Hdone. unfold zlen, ztake. rewrite length_take. lia. Qed.

(** A turn while vertices are left: none of them has an edge, or it numbers some. *)
Lemma rcm_turn_ok fuel s L :
  rcm_ok s L [] -> N < Z.of_nat fuel -> zlen L < N ->
  (ref_edge_min_degree_node n r (o2n s) = Some (REF_SUCCESS, (REF_EMPTY, REF_EMPTY)) /\
     forall v, v ∈ valid_nodes n -> v ∉ L -> adj_refs (edge_adj r) v = []) \/
  (forall E, fwp (rcm_turn fuel n r tt) (fun c s' => c = Next tt /\ exists L', rcm_ok s' L' [] /\ zlen L < zlen L') E s).
Proof using Hg.
  intros Hs Hfuel Hlt. pose proof Hs as [Ho Hn2 Hq Hnd Hnq Hdone Hqd Hdist Hval Hedge Hm]. rewrite app_nil_r in Hm.
  destruct (min_degree_ok (o2n s) Ho) as ([st [d node]] & Heq & -> & [(-> & -> & Hno)|(Hv & He & Hdeg)]).
  - left. split; [done|]. intros v Hv Hnot. apply Hno; [done|]. apply Hm; [by apply valid_range|done].
  - right. intros E. apply fwp_bind, fwp_state. rewrite Hnd, (proj2 (Z.ltb_lt _ _)) by done.
    apply fwp_bind, fwp_ask. rewrite Heq. apply wp_ret. rewrite decide_True by done.
    apply Hm in He; [|by apply valid_range].
    apply fwp_bind, (rcm_queue_ok s L [] (L ++ [])); [exact Hs|done|done|by rewrite app_nil_r|done|].
    intros s2 Q2 Hs2. apply fwp_bind, (rcm_drain_ok fuel s2 _ Q2 _ _ Hs2 Hfuel). intros s3 L3 Hs3 Hle3.
    apply fwp_ret. split; [done|]. exists L3. split; [done|]. rewrite zlen_app in Hle3. change (zlen [node]) with 1 in Hle3. lia.
Qed.

(** Every vertex of the grid has an edge. *)
Definition no_isolated : Prop := forall v, v ∈ valid_nodes n -> adj_refs (edge_adj r) v <> [].

Lemma rcm_order_ok fuel s (P : unit -> RCM -> Prop) E :
  no_isolated -> rcm_ok s [] [] -> N < Z.of_nat fuel ->
  (forall s' L, rcm_ok s' L [] -> zlen L = N -> P tt s') ->
  fwp (rcm_order fuel n r) P E s.
Proof using Hg.
  intros Hiso Hs Hfuel HP.
  apply fwp_again with (I := fun _ s => exists L, rcm_ok s L []) (m := fun _ s => N - ndone s).
  - by exists [].
  - rewrite (ri_ndone _ _ _ _ _ _ Hs). change (zlen (@nil Z)) with 0. lia.
  - intros [] s1 (L1 & Hs1). rewrite (ri_ndone _ _ _ _ _ _ Hs1). pose proof (rcm_done_bound _ _ _ Hs1). lia.
  - intros [] s1 (L1 & Hs1). pose proof Hs1 as [_ _ _ Hnd _ _ _ Hdist Hval _ _]. rewrite app_nil_r in Hdist, Hval.
    destruct (Z.lt_ge_cases (zlen L1) N) as [Hlt|Hge].
    + destruct (some_left L1 Hdist Hval Hlt) as (v0 & Hv0 & Hnot0).
      destruct (rcm_turn_ok fuel s1 L1 Hs1 Hfuel Hlt) as [[_ Hno]|Hturn]; [by destruct (Hiso v0 Hv0); apply Hno|].
      eapply fwp_mono; [apply Hturn| |done]. intros c s2 (-> & L2 & Hs2 & Hlt2). split; [by exists L2|].
      rewrite (ri_ndone _ _ _ _ _ _ Hs2). lia.
    + apply fwp_bind, fwp_state. rewrite Hnd, (proj2 (Z.ltb_ge _ _)) by done. apply fwp_ret. apply (HP s1 L1 Hs1).
      pose proof (rcm_done_bound _ _ _ Hs1). lia.
Qed.

(** A vertex without an edge is never numbered: the loop reaches a turn where only such
    vertices are left. *)
Lemma rcm_order_isolated fuel s v0 :
  v0 ∈ valid_nodes n -> adj_refs (edge_adj r) v0 = [] -> rcm_ok s [] [] -> N < Z.of_nat fuel ->
  exists s' L, turns (rcm_turn fuel n r) (tt, s) (tt, s') /\ rcm_ok s' L [] /\ zlen L < N /\
    ref_edge_min_degree_node n r (o2n s') = Some (REF_SUCCESS, (REF_EMPTY, REF_EMPTY)) /\
    forall v, v ∈ valid_nodes n -> adj_refs (edge_adj r) v <> [] -> v ∈ L.
Proof using Hg.
  intros Hv0 Hnone Hs Hfuel.
  assert (Hroom : forall s L, rcm_ok s L [] -> zlen L < N).
  { intros s1 L [_ _ _ _ _ _ _ Hdist Hval Hedge _]. pose proof (distinct_room L [] v0 Hdist Hval Hv0) as Hroom.
    change (zlen (@nil Z)) with 0 in Hroom. enough (v0 ∉ L ++ []) by (specialize (Hroom ltac:(done)); lia).
    intros Hin. by apply (Hedge v0). }
  destruct (again_reaches (fun _ s => exists L, rcm_ok s L [])
    (fun _ s' => ref_edge_min_degree_node n r (o2n s') = Some (REF_SUCCESS, (REF_EMPTY, REF_EMPTY)) /\
       exists L, rcm_ok s' L [] /\ forall v, v ∈ valid_nodes n -> v ∉ L -> adj_refs (edge_adj r) v = [])
    (fun _ s => N - ndone s) (rcm_turn fuel n r) tt s) as ([] & s' & Hturns & _ & Hmin & L & Hs' & Hno).
  - by exists [].
  - intros [] s1 (L1 & Hs1). rewrite (ri_ndone _ _ _ _ _ _ Hs1). pose proof (Hroom _ _ Hs1). lia.
  - intros [] s1 (L1 & Hs1). destruct (rcm_turn_ok fuel s1 L1 Hs1 Hfuel (Hroom _ _ Hs1)) as [[Hmin Hno]|Hturn];
      [left; split; [done|by exists L1]|right].
    eapply fwp_mono; [apply (Hturn (fun _ _ => False))| |done]. intros c s2 (-> & L2 & Hs2 & Hlt2). exists tt. split; [done|].
    split; [by exists L2|]. rewrite (ri_ndone _ _ _ _ _ _ Hs1), (ri_ndone _ _ _ _ _ _ Hs2). lia.
  - exists s', L. split; [done|]. split; [done|]. split; [by apply (Hroom s')|]. split; [done|].
    intros v Hv Hdeg. destruct (decide (v ∈ L)) as [|Hnot]; [done|]. by destruct Hdeg; apply Hno.
Qed.

Lemma rcm_reverse_ok s L (P : unit -> RCM -> Prop) E :
  rcm_ok s L [] -> zlen L = N ->
  (forall s', zlen (o2n s') = node_max n -> n2o s' = reverse L -> numbers (o2n s') 0 (n2o s') ->
     (forall v, 0 <= v < node_max n -> v ∉ valid_nodes n -> (o2n s').[v] = REF_EMPTY) -> P tt s') ->
  fwp rcm_reverse P E s.
Proof using Hg.
  intros [Ho Hn2 Hq Hnd Hnq Hdone Hqd Hdist Hval Hedge Hm] HL HP. rewrite app_nil_r in *.
  assert (Hn2o : n2o s = L) by (rewrite <- Hdone at 1; rewrite HL, <- Hn2; by rewrite ztake_full).
  pose proof (zlen_nonneg L) as Hpos. rewrite <- HL in *. apply fwp_update. rewrite Hnd, Hn2o.
  apply wp_bind, (wp_for_up (fun i q => zlen q = 2 * zlen L /\ forall j, 0 <= j < i -> q.[zlen L - j - 1] = L.[j])); [lia| | |].
  { split; [done|]. intros j Hj. lia. }
  { intros i q Hi [Hz Hold]. apply wp_bind, wp_aget; [lia|]. apply wp_aset; [lia|]. split; [by rewrite zlen_upd|].
    intros j Hj. rewrite aat_upd by lia. destruct (Z.eqb_spec (zlen L - i - 1) (zlen L - j - 1)); [f_equal; lia|apply Hold; lia]. }
  intros q [Hzq Hrev]. apply wp_bind, (wp_for_up (fun i m => zlen m = zlen L /\ forall j, 0 <= j < i -> m.[j] = q.[j])); [lia| | |].
  { split; [done|]. intros j Hj. lia. }
  { intros i m Hi [Hz Hold]. apply wp_bind, wp_aget; [lia|]. apply wp_aset; [lia|]. split; [by rewrite zlen_upd|].
    intros j Hj. rewrite aat_upd by lia. destruct (Z.eqb_spec i j) as [->|]; [done|apply Hold; lia]. }
  intros m [Hzm Hcopy]. assert (Hm' : m = reverse L).
  { apply arr_ext; [unfold zlen in *; rewrite length_reverse; lia|]. intros i Hi. rewrite Hcopy by lia.
    replace i with (zlen L - (zlen L - i - 1) - 1) at 1 by lia. rewrite Hrev by lia.
    by rewrite aat_reverse by lia. }
  assert (Hndm : NoDup m) by (by rewrite Hm', reverse_Permutation).
  assert (Hin : forall i, 0 <= i < zlen L -> m.[i] ∈ L).
  { intros i Hi. rewrite <- reverse_involutive, elem_of_reverse, <- Hm'. apply elem_of_aat. exists i. split; [lia|done]. }
  apply wp_bind, (wp_for_up (fun i a => zlen a = node_max n /\ (forall j, 0 <= j < i -> a.[m.[j]] = j) /\
    forall v, 0 <= v < node_max n -> v ∉ L -> a.[v] = (o2n s).[v])); [lia| | |].
  { split; [done|]. split; [|done]. intros j Hj. lia. }
  { intros i a Hi (Hz & Hold & Hrest). pose proof (valid_range _ (Hval _ (Hin i Hi))) as Hr.
    apply wp_bind, wp_aget; [lia|]. apply wp_aset; [lia|]. split; [by rewrite zlen_upd|]. split.
    - intros j Hj. pose proof (valid_range _ (Hval _ (Hin j ltac:(lia)))) as Hrj. rewrite aat_upd by lia.
      destruct (Z.eqb_spec m.[i] m.[j]) as [He|Hne]; [|apply Hold; assert (j <> i) by congruence; lia].
      apply (NoDup_aat m i j); (done || lia).
    - intros v Hv Hnot. rewrite aat_upd by lia. destruct (Z.eqb_spec m.[i] v) as [<-|]; [|by apply Hrest].
      exfalso. by apply Hnot, Hin. }
  intros a (Hza & Hnum & Hrest). apply wp_ret, HP; cbn; [done|done| |].
  - intros k Hk. rewrite Hzm in Hk. rewrite Hnum by lia. lia.
  - intros v Hv Hnot. assert (HvL : v ∉ L) by (intros Hin'; by apply Hnot, Hval). rewrite Hrest by done. by apply Hm.
Qed.
(** The local variables before the first turn. *)
Definition rcm_first (old : list Z) : RCM := mkRCM old (alloc (node_n n)) 0 (alloc (2 * node_n n)) 0.

Lemma rcm_start : exists old,
  malloc_empty (node_max n) = Some (REF_SUCCESS, old) /\ rcm_ok (rcm_first old) [] [] /\
  ref_edge_rcm n r =
    let* '(st, s) :=
      body (rcm_order (S (Z.to_nat (node_n n))) n r ;!
            let! s := state in
            require (ndone s =? node_n n) ;!
            rcm_reverse) (rcm_first old) in
    RSS st ([], []) (Some (REF_SUCCESS, (o2n s, n2o s))).
Proof using Hg.
  destruct (rg_node _ _ Hg) as [bl Hc]. pose proof (nc_max _ _ Hc). pose proof (nc_n_range _ _ Hc) as Hn.
  pose proof (rg_size _ _ Hg) as Hsize.
  destruct (malloc_empty_ok (node_max n)) as ([st old] & Heq & -> & Hzo & He); [lia|].
  exists old. split; [done|]. split.
  - constructor; cbn; rewrite ?zlen_alloc by lia; try done;
      [intros i Hi; change (zlen (@nil Z)) with 0 in Hi; lia|by constructor|intros v Hv; by apply not_elem_of_nil in Hv..|].
    intros v Hv. rewrite He by done. split; [intros _; apply not_elem_of_nil|done].
  - unfold ref_edge_rcm. rewrite Heq. cbn [obind RSS]. unfold ref_malloc.
    destruct (Z.ltb_spec (node_n n) 0); [lia|]. cbn [RSS]. rewrite ck_int_ok by (unfold REF_INT_MIN; lia). cbn [obind].
    destruct (Z.ltb_spec (2 * node_n n) 0); [lia|]. done.
Qed.
End rcm.

(** C35. [ref_edge_rcm] on vertices that all have an edge: both loops end, nothing is read
    or written out of range, and the result is a numbering of the vertices of the
    grid: [n2o] lists each of them once, [o2n] is its inverse on them and [REF_EMPTY]
    elsewhere. *)
Theorem ref_edge_rcm_numbers {D : Type} `{Dbl D, Junk Z, Junk REF_ADJ_ITEM} (n : REF_NODE D) (r : REF_EDGE) :
  rcm_graph n r -> no_isolated n r ->
  exists o2n n2o, ref_edge_rcm n r = Some (REF_SUCCESS, (o2n, n2o)) /\
    zlen o2n = node_max n /\ n2o ≡ₚ valid_nodes n /\ numbers o2n 0 n2o /\
    forall v, 0 <= v < node_max n -> v ∉ valid_nodes n -> o2n.[v] = REF_EMPTY.
Proof.
  intros Hg Hiso.
  assert (Hwp : wp (ref_edge_rcm n r) (fun '(st, (o2n, n2o)) => st = REF_SUCCESS /\
    zlen o2n = node_max n /\ n2o ≡ₚ valid_nodes n /\ numbers o2n 0 n2o /\
    forall v, 0 <= v < node_max n -> v ∉ valid_nodes n -> o2n.[v] = REF_EMPTY)); [|
    by destruct Hwp as ([st [a b]] & Heq & -> & Hok); exists a, b].
  destruct (rcm_start n r Hg) as (old & _ & Hs0 & ->).
  apply wp_bind, wp_body, fwp_bind, (rcm_order_ok n r Hg _ (rcm_first n old)); [done|exact Hs0|lia|].
  intros s1 L Hs1 HL. apply fwp_bind, fwp_state, fwp_bind, fwp_require.
  - intros _. apply (rcm_reverse_ok n r Hg s1 L); [done|done|]. intros s2 Hz Hrev Hnum Hrest. cbn [RSS]. apply wp_ret.
    split; [done|]. split; [done|]. split; [|done]. rewrite Hrev, reverse_Permutation.
    pose proof Hs1 as [_ _ _ _ _ _ _ Hdist Hval _ _]. rewrite app_nil_r in Hdist. apply NoDup_Permutation; [done|apply NoDup_valid_nodes|].
    intros v. split; [intros Hv; apply Hval; by rewrite app_nil_r|]. intros Hv.
    destruct (decide (v ∈ L)) as [|Hnot]; [done|]. exfalso.
    pose proof (distinct_room n r Hg L [] v) as Hroom. rewrite app_nil_r in Hroom. change (zlen (@nil Z)) with 0 in Hroom.
    specialize (Hroom Hdist ltac:(intros w Hw; apply Hval; by rewrite app_nil_r) Hv Hnot). lia.
  - intros Hne. rewrite (ri_ndone _ _ _ _ _ _ Hs1), HL, Z.eqb_refl in Hne. done.
Qed.

#[local] Existing Instances NodeExample.double NodeExample.junk_double NodeExample.junk_int ReplaceExample.junk_item.

Module OrderExample.
Notation grid := SwapExample.grid.
Definition edges : REF_EDGE :=
  Eval vm_compute in from_option snd (mkREF_EDGE 0 0 None (mkREF_ADJ 0 0 [] [] 0)) (ref_edge_create grid).
Lemma edges_created : ref_edge_create grid = Some (REF_SUCCESS, edges).
Proof. vm_cast_no_check (eq_refl (Some (REF_SUCCESS, edges))). Qed.
Lemma edges_wf : edge_wf edges.
Proof.
  destruct (ref_edge_create_ok grid EdgeExample.types_wf) as ([st r] & Heq & _ & Hr & _); [vm_compute; split; congruence|vm_compute; congruence|].
  rewrite edges_created in Heq. by injection Heq as _ ->.
Qed.
Lemma edges_rows : Forall (fun l => l.[0] ∈ [0; 1; 2; 3; 4; 5] /\ l.[1] ∈ [0; 1; 2; 3; 4; 5]) (edge_rows edges).
Proof. apply (bool_decide_unpack _). vm_compute. exact I. Qed.
Lemma row_ends (r : REF_EDGE) (P : Z -> Prop) edge k :
  edge_wf r -> Forall (fun l => P l.[0] /\ P l.[1]) (edge_rows r) -> 0 <= edge < edge_n r -> 0 <= k < 2 -> P (edge_rows r).[edge].[k].
Proof.
  intros Hr Hall He Hk. rewrite <- (zlen_edge_rows r Hr) in He. rewrite Forall_forall in Hall.
  destruct (Hall (edge_rows r).[edge]); [apply elem_of_aat; by exists edge|]. by assert (k = 0 \/ k = 1) as [->| ->] by lia.
Qed.
Lemma octahedron_graph : rcm_graph (grid_node grid) edges.
Proof.
  constructor.
  - exact (proj1 SwapExample.octahedron_wf).
  - exact edges_wf.
  - vm_compute. congruence.
  - rewrite SwapExample.six_valid. intros edge k. exact (row_ends edges (fun v => v ∈ [0; 1; 2; 3; 4; 5]) edge k edges_wf edges_rows).
Qed.
Lemma all_connected : no_isolated (grid_node grid) edges.
Proof.
  intros v. rewrite SwapExample.six_valid. revert v. apply Forall_forall.
  repeat (apply Forall_cons; split; [vm_compute; congruence|]). apply Forall_nil_2.
Qed.
(** The octahedron with one vertex more, which no element has. *)
Definition seven : REF_NODE spec_float :=
  match node_exec (NodeAdd 6) (grid_node grid) with Some (_, n) => n | None => grid_node grid end.
End OrderExample.

Lemma ref_edge_rcm_numbers_witness :
  let n := grid_node SwapExample.grid in let r := OrderExample.edges in
  (rcm_graph n r /\ no_isolated n r) /\
  (let* '(st, (o2n, n2o)) := ref_edge_rcm n r in Some (st, n2o)) = Some (REF_SUCCESS, [5; 4; 1; 0; 3; 2]) /\
  exists o2n n2o, ref_edge_rcm n r = Some (REF_SUCCESS, (o2n, n2o)) /\
    zlen o2n = node_max n /\ n2o ≡ₚ valid_nodes n /\ numbers o2n 0 n2o /\
    forall v, 0 <= v < node_max n -> v ∉ valid_nodes n -> o2n.[v] = REF_EMPTY.
Proof.
  split; [split; [exact OrderExample.octahedron_graph|exact OrderExample.all_connected]|]. split; [vm_compute; reflexivity|].
  apply (ref_edge_rcm_numbers (grid_node SwapExample.grid) OrderExample.edges); [exact OrderExample.octahedron_graph|exact OrderExample.all_connected].
Defined.

(** C36. A vertex of the grid without an edge: [ref_edge_rcm] is undefined. Its loop
    reaches a turn where the vertices that have an edge all are numbered and [ndone] is
    not [node_n]; there [ref_edge_min_degree_node] reports [REF_SUCCESS] without a vertex,
    and [ref_edge_rcm_queue] writes [o2n] at the index [REF_EMPTY], before its first
    entry, after it has written [n2o]. *)
Theorem ref_edge_rcm_isolated_overrun {D : Type} `{Dbl D, Junk Z, Junk REF_ADJ_ITEM} (n : REF_NODE D) (r : REF_EDGE) (v : Z) :
  rcm_graph n r -> v ∈ valid_nodes n -> adj_refs (edge_adj r) v = [] ->
  ref_edge_rcm n r = None /\
  exists old s, malloc_empty (node_max n) = Some (REF_SUCCESS, old) /\
    turns (rcm_turn (S (Z.to_nat (node_n n))) n r) (tt, rcm_first n old) (tt, s) /\
    (forall w, w ∈ valid_nodes n -> adj_refs (edge_adj r) w <> [] -> (o2n s).[w] <> REF_EMPTY) /\
    ndone s < node_n n /\
    ref_edge_min_degree_node n r (o2n s) = Some (REF_SUCCESS, (REF_EMPTY, REF_EMPTY)) /\
    is_Some (aset (n2o s) (ndone s) REF_EMPTY) /\ aset (o2n s) REF_EMPTY (ndone s) = None.
Proof.
  intros Hg Hv Hnone. destruct (rcm_start n r Hg) as (old & Hold & Hs0 & ->).
  destruct (rcm_order_isolated n r Hg (S (Z.to_nat (node_n n))) (rcm_first n old) v Hv Hnone Hs0 ltac:(lia))
    as (s & L & Hturns & Hs & Hlt & Hmin & Hall).
  pose proof Hs as [_ Hn2 _ Hnd _ _ _ _ _ _ Hm]. rewrite app_nil_r in Hm. pose proof (zlen_nonneg L).
  assert (Hstuck : aset (o2n s) REF_EMPTY (ndone s) = None) by (apply aset_out; by left).
  assert (Hn2o : aset (n2o s) (ndone s) REF_EMPTY = Some (upd (n2o s) (ndone s) REF_EMPTY)) by (apply aset_upd; lia).
  split.
  - unfold body, fbind at 1, rcm_order. erewrite again_stuck; [done|exact Hturns|].
    unfold rcm_turn, fbind, state, ask. cbn [obind]. rewrite (proj2 (Z.ltb_lt _ _)), Hmin by lia. cbn [obind].
    unfold ref_edge_rcm_queue, fbind, state, update. cbn [obind]. rewrite Hn2o. cbn [obind set_n2o o2n ndone]. by rewrite Hstuck.
  - exists old, s. split; [done|]. split; [done|]. split; [|split; [lia|by rewrite Hn2o]].
    intros w Hw Hdeg. rewrite Hm by (by apply (valid_range n)). intros Hnot. by apply Hnot, Hall.
Qed.

Module IsolatedExample.
Import OrderExample.
Lemma seven_valid : valid_nodes seven = [0; 1; 2; 3; 4; 5; 6].
Proof. vm_compute. reflexivity. Qed.
Lemma seven_wf : node_wf seven.
Proof.
  assert (Hroom : node_room (grid_node grid)) by (vm_compute; congruence).
  destruct (ref_node_add_ok (grid_node grid) 6 REF_EMPTY SwapExample.octahedron_wf Hroom ltac:(lia))
    as ([st [node r']] & Heq & -> & Hwf & _).
  unfold seven, node_exec. by rewrite Heq.
Qed.
Lemma seven_graph : rcm_graph seven edges.
Proof.
  constructor.
  - exact (proj1 seven_wf).
  - exact edges_wf.
  - vm_compute. congruence.
  - rewrite seven_valid. intros edge k He Hk.
    assert (Hin : (edge_rows edges).[edge].[k] ∈ [0; 1; 2; 3; 4; 5]) by exact (row_ends edges (fun v => v ∈ [0; 1; 2; 3; 4; 5]) edge k edges_wf edges_rows He Hk).
    change [0; 1; 2; 3; 4; 5; 6] with ([0; 1; 2; 3; 4; 5] ++ [6]). apply elem_of_app. by left.
Qed.
End IsolatedExample.

Lemma ref_edge_rcm_isolated_overrun_witness :
  let n := OrderExample.seven in let r := OrderExample.edges in
  (rcm_graph n r /\ 6 ∈ valid_nodes n /\ adj_refs (edge_adj r) 6 = []) /\
  ref_edge_rcm n r = None /\
  exists old s, malloc_empty (node_max n) = Some (REF_SUCCESS, old) /\
    turns (rcm_turn (S (Z.to_nat (node_n n))) n r) (tt, rcm_first n old) (tt, s) /\
    (forall w, w ∈ valid_nodes n -> adj_refs (edge_adj r) w <> [] -> (o2n s).[w] <> REF_EMPTY) /\
    ndone s < node_n n /\
    ref_edge_min_degree_node n r (o2n s) = Some (REF_SUCCESS, (REF_EMPTY, REF_EMPTY)) /\
    is_Some (aset (n2o s) (ndone s) REF_EMPTY) /\ aset (o2n s) REF_EMPTY (ndone s) = None.
Proof.
  assert (H6 : 6 ∈ valid_nodes OrderExample.seven).
  { rewrite IsolatedExample.seven_valid. apply (bool_decide_unpack _). vm_compute. exact I. }
  assert (Hnone : adj_refs (edge_adj OrderExample.edges) 6 = []) by (vm_compute; reflexivity).
  split; [split; [exact IsolatedExample.seven_graph|split; [exact H6|exact Hnone]]|].
  apply (ref_edge_rcm_isolated_overrun OrderExample.seven OrderExample.edges 6);
    [exact IsolatedExample.seven_graph|exact H6|exact Hnone].
Defined.
