(* ===== verification/EdgeCells.v ===== *)
(** * The elements of an edge

    What the operators that split, collapse or swap an edge share: the list of the
    elements with both ends of the edge, the change of name of a node in an element,
    and what the change of each element of the list does to a sum over all of them.
    A sum [map_sum F] over the elements for every [F] is the collection of the
    elements without their numbers. *)
From S2P Require Import Prelude Rows Chains Effect RefList RefAdj RefDbl RefMpi RefNode RefCellType RefCell RefCellSpec RefCellQuery RefCellNode RefGeom RefGrid RefMeasure RefCavity RefCavityTable RefCavityReplace RefCavityForm.
From stdpp Require Import prelude list gmap.
From Stdlib Require Import ZArith Lia.
Open Scope Z_scope.
Open Scope ref_scope.

(** ** Definitions *)

Section ops.
Context {D : Type} `{Junk Z, Junk REF_ADJ_ITEM}.

(** [for (node = 0; node < node_per; node++) if (old == nodes[node]) nodes[node] = new;] *)
Definition rename_nodes (r : REF_CELL) (old new : Z) (nodes : list Z) : option (list Z) :=
  for_up 0 (ref_cell_node_per r) (fun node nodes =>
    let* v := aget nodes node in
    if old =? v then aset nodes node new else Some nodes) nodes.

(** [RSS] of a call that changes the elements of one type of the grid. *)
Definition on_cell (type : REF_CELL_TYPE) (f : REF_CELL -> option (REF_STATUS * REF_CELL)) : fn (REF_GRID D) unit :=
  call (fun g => let* '(st, r) := f (grid_cell g type) in Some (st, set_grid_cell type r g)).

(** [ref_cell_add] without the index of the new element. *)
Definition add_nodes (nodes : list Z) : fn REF_CELL unit :=
  call (fun r => let* '(st, (_, r)) := ref_cell_add r nodes in Some (st, r)).
End ops.

(** ** The elements with two nodes *)

Section elements.
Context (type : REF_CELL_TYPE).
Notation tables := (snd (ref_cell_initialize type)).
Implicit Types (r : REF_CELL) (m : gmap Z (list Z)) (e : list Z).

(** The nodes of an element are different. *)
Definition proper m : Prop := forall cell e, m !! cell = Some e -> NoDup (nodes_of tables e).
Definition with_both (node0 node1 : Z) (e : list Z) : Prop :=
  node0 ∈ nodes_of tables e /\ node1 ∈ nodes_of tables e.
#[global] Instance with_both_dec node0 node1 e : Decision (with_both node0 node1 e).
Proof. unfold with_both. apply _. Defined.

Lemma NoDup_cells_with2 k r m node0 node1 :
  cell_sim type k r m -> proper m -> NoDup (cells_with2 r node0 node1).
Proof.
  intros ((bl & Hwf) & Htb & Hrep & _) Hp. unfold cells_with2.
  assert (Hadj : NoDup (adj_refs (cell_adj r) node0)).
  { apply NoDup_occ. intros cell. rewrite (cw_registered _ _ Hwf), <- Hrep, Htb.
    destruct (m !! cell) as [e|] eqn:He; [|lia]. apply occ_NoDup. by eapply Hp. }
  rewrite <- flat_map_concat_map. change (flat_map ?f ?l) with (l ≫= f).
  assert (Hone : forall cell, NoDup (match cell_at r cell with
    | Some entries => map (fun _ => cell) (filter (fun v => node1 = v) (nodes_of (cell_tables r) entries))
    | None => [] end)).
  { intros cell. destruct (cell_at r cell) as [e|] eqn:He; [|constructor]. rewrite <- Hrep in He.
    specialize (Hp _ _ He). rewrite <- Htb in Hp. set (l := nodes_of _ e) in *. clearbody l.
    induction Hp as [|x l Hx Hl IH]; [constructor|]. rewrite filter_cons. case_decide as Hd; [|done].
    cbn [map]. constructor; [|done]. intros (v & _ & Hv)%list_elem_of_fmap.
    apply list_elem_of_filter in Hv as [<- Hv]. by subst. }
  apply NoDup_bind; [|by intros|done].
  intros c1 c2 x _ _ H1 H2. transitivity x.
  - destruct (cell_at r c1); [|by apply not_elem_of_nil in H1]. by apply list_elem_of_fmap in H1 as (? & -> & _).
  - destruct (cell_at r c2); [|by apply not_elem_of_nil in H2]. by apply list_elem_of_fmap in H2 as (? & -> & _).
Qed.

(** The list that [ref_cell_list_with2] makes. *)
Lemma sim_list_with2 `{Junk Z} k r m node0 node1 max_cell :
  cell_sim type k r m -> proper m -> 0 <= max_cell ->
  wp (ref_cell_list_with2 r node0 node1 max_cell (alloc max_cell)) (fun '(st, (ncell, cells)) =>
    exists l, NoDup l /\ (forall cell, cell ∈ l <-> exists e, m !! cell = Some e /\ with_both node0 node1 e) /\
      l = cells_with2 r node0 node1 /\
      if zlen l <=? max_cell then st = REF_SUCCESS /\ ncell = zlen l /\ ztake ncell cells = l /\ ncell <= zlen cells
      else st = REF_INCREASE_LIMIT).
Proof.
  intros Hsim Hp Hmax. pose proof Hsim as ((bl & Hwf) & Htb & Hrep & _).
  eapply wp_mono; [apply (ref_cell_list_with2_ok r bl Hwf); rewrite zlen_alloc; lia|].
  intros [st [ncell cells]] [Hz Hl]. exists (cells_with2 r node0 node1).
  split; [by eapply NoDup_cells_with2|]. split; [|split; [done|]].
  - intros cell. rewrite (elem_of_cells_with2 r bl Hwf), Htb. setoid_rewrite <- Hrep. done.
  - destruct (Z.leb_spec (zlen (cells_with2 r node0 node1)) max_cell); [|by destruct Hl].
    destruct Hl as (-> & -> & Hl). rewrite Hz, zlen_alloc by lia. done.
Qed.
End elements.

(** ** Sums over the elements *)

Lemma map_sum_sub (F G : list Z -> Z) (m : gmap Z (list Z)) :
  map_sum (fun e => F e - G e) m = map_sum F m - map_sum G m.
Proof. by rewrite !map_sum_list, <- sum_over_sub. Qed.

Lemma map_sum_ext (F G : list Z -> Z) (m : gmap Z (list Z)) :
  (forall k e, m !! k = Some e -> F e = G e) -> map_sum F m = map_sum G m.
Proof. intros He. rewrite !map_sum_list. apply sum_over_ext. intros [k e] Hin%elem_of_map_to_list. by eapply He. Qed.

(** The elements of a list change their value. *)
Lemma map_sum_change (F G : list Z -> Z) m l :
  NoDup l -> (forall k, k ∈ l -> is_Some (m !! k)) -> (forall k e, m !! k = Some e -> k ∉ l -> F e = G e) ->
  map_sum G m = map_sum F m + sum_over (fun k => G (entries_of m k) - F (entries_of m k)) l.
Proof.
  intros Hnd Hin Hout. rewrite <- (map_sum_support (fun e => G e - F e)), map_sum_sub; [lia|done|done|].
  intros k e Hk Hl. rewrite (Hout k e Hk Hl). lia.
Qed.

Lemma map_sum_fmap (F : list Z -> Z) (h : list Z -> list Z) (m : gmap Z (list Z)) :
  map_sum F (h <$> m) = map_sum (fun e => F (h e)) m.
Proof.
  induction m as [|k e m Hk IH] using map_ind; [by rewrite fmap_empty|].
  rewrite fmap_insert, !map_sum_insert, IH; [done|done|]. by rewrite lookup_fmap, Hk.
Qed.

(** A count that is zero leaves nothing to count. *)
Lemma map_sum_nonneg (F : list Z -> Z) m : (forall e, 0 <= F e) -> 0 <= map_sum F m.
Proof.
  intros HF. induction m as [|k e m Hk IH] using map_ind; [done|]. rewrite map_sum_insert by done.
  specialize (HF e). lia.
Qed.
Lemma map_sum_none (F : list Z -> Z) m k e :
  (forall e, 0 <= F e) -> map_sum F m = 0 -> m !! k = Some e -> F e = 0.
Proof.
  intros HF Hz Hk. rewrite <- (insert_delete_id m k e Hk), map_sum_insert in Hz by apply lookup_delete_eq.
  pose proof (HF e). pose proof (map_sum_nonneg F (delete k m) HF). lia.
Qed.

(** ** The change of a name *)

Section rename.
Context {D : Type} `{Junk Z, Junk REF_ADJ_ITEM}.
Context (type : REF_CELL_TYPE).
Notation tables := (snd (ref_cell_initialize type)).

Lemma rename_nodes_ok r old new nodes (Q : list Z -> Prop) :
  cell_tables r = tables -> node_per tables <= zlen nodes ->
  Q (renamed tables old new nodes) -> wp (rename_nodes r old new nodes) Q.
Proof.
  intros Htb Hl HQ. unfold rename_nodes, ref_cell_node_per. rewrite Htb.
  assert (Hb : 0 <= node_per tables <= zlen nodes) by (split; [by destruct type|by destruct type]).
  apply (wp_for_up (fun i nodes' => nodes' = replace_upto i (rename old new) nodes)); [lia|by rewrite replace_upto_0| |].
  - intros i nodes' Hi ->. apply wp_bind, wp_aget; [rewrite zlen_replace_upto; lia|].
    rewrite aat_replace_upto by lia. destruct (Z.ltb_spec i i); [lia|].
    destruct (Z.eqb_spec old nodes.[i]) as [Ho|Ho].
    + apply wp_aset; [rewrite zlen_replace_upto; lia|]. rewrite <- replace_upto_S by lia. f_equal.
      unfold rename. by rewrite <- Ho, Z.eqb_refl.
    + apply wp_ret. symmetry. apply replace_upto_same; [lia|]. unfold rename. destruct (Z.eqb_spec nodes.[i] old); congruence.
  - by intros nodes' ->.
Qed.

(** Renaming to a new name and back. *)
Lemma rename_back old new nodes :
  node_per tables <= zlen nodes -> new ∉ nodes_of tables nodes ->
  renamed tables new old (renamed tables old new nodes) = nodes.
Proof.
  intros Hl Hnew. assert (Hb : 0 <= node_per tables <= zlen nodes) by (split; by destruct type).
  unfold renamed. apply arr_ext; rewrite !zlen_replace_upto; rewrite ?zlen_replace_upto; try lia.
  intros i Hi. rewrite !aat_replace_upto by (rewrite ?zlen_replace_upto; lia). case Z.ltb_spec; [|done]. intros Hlt.
  assert (nodes.[i] <> new). { intros He. apply Hnew. apply elem_of_ztake; [lia|]. exists i. split; [lia|done]. }
  unfold rename. destruct (Z.eqb_spec nodes.[i] old) as [->|]; [by rewrite Z.eqb_refl|].
  by destruct (Z.eqb_spec nodes.[i] new).
Qed.
End rename.
