(* ===== verification/RefSplit.v ===== *)
(** * ref_split.c: splitting an edge

    [ref_split_edge] puts two elements in the place of every tetrahedron, triangle
    and edge element that has the edge: in one the new node takes the place of the
    one end, in the other that of the other. The elements are those the
    specification says, and a conforming mesh stays conforming. *)
From S2P Require Import Prelude Rows Chains Effect RefList RefAdj RefDbl RefMpi RefNode RefCellType RefCell RefCellSpec RefCellQuery RefCellNode RefGeom RefGrid RefMeasure RefCavity RefCavityTable RefCavityReplace RefCavityForm RefCavitySwap EdgeCells.
From stdpp Require Import prelude list gmap.
From Stdlib Require Import ZArith Lia SpecFloat.
Open Scope Z_scope.
Open Scope ref_scope.

Definition MAX_CELL_SPLIT : Z := 100.

Section ops.
Context {D : Type} `{Junk Z, Junk REF_ADJ_ITEM}.

(** The two elements for [cell]. *)
Definition split_cell (node0 node1 new_node cell : Z) : fn REF_CELL unit :=
  let! r := state in
  let! nodes := ask (ref_cell_nodes r cell (alloc REF_CELL_MAX_SIZE_PER)) in
  call (fun r => ref_cell_remove r cell) ;!
  let! nodes := use (rename_nodes r node0 new_node nodes) in
  add_nodes nodes ;!
  let! nodes := use (rename_nodes r new_node node0 nodes) in
  let! nodes := use (rename_nodes r node1 new_node nodes) in
  add_nodes nodes.

Definition split_cells (node0 node1 new_node : Z) : REF_CELL -> option (REF_STATUS * REF_CELL) := body (
  let! r := state in
  let! '(ncell, cell_to_split) :=
    ask (ref_cell_list_with2 r node0 node1 MAX_CELL_SPLIT (alloc MAX_CELL_SPLIT)) in
  count 0 ncell (fun cell_in_list =>
    let! cell := use (aget cell_to_split cell_in_list) in
    split_cell node0 node1 new_node cell)).

Definition ref_split_edge (node0 node1 new_node : Z) : REF_GRID D -> option (REF_STATUS * REF_GRID D) := body (
  on_cell REF_CELL_TET (split_cells node0 node1 new_node) ;!
  on_cell REF_CELL_TRI (split_cells node0 node1 new_node) ;!
  on_cell REF_CELL_EDG (split_cells node0 node1 new_node)).

Definition ref_split_edge_mixed (g : REF_GRID D) (node0 node1 : Z) : option (REF_STATUS * bool) :=
  let* '(st, pyr_side) := ref_cell_has_side (ref_grid_pyr g) node0 node1 in
  RSS st false (
  let* '(st, pri_side) := ref_cell_has_side (ref_grid_pri g) node0 node1 in
  RSS st false (
  let* '(st, hex_side) := ref_cell_has_side (ref_grid_hex g) node0 node1 in
  RSS st false (
  let* '(st, qua_side) := ref_cell_has_side (ref_grid_qua g) node0 node1 in
  RSS st false (
  Some (REF_SUCCESS, negb pyr_side && negb pri_side && negb hex_side && negb qua_side))))).

(** The three elements for a [cell] with the face; [nodes] are restored after each. *)
Definition split_face_cell (node0 node1 node2 new_node cell : Z) : fn REF_CELL unit :=
  if REF_EMPTY =? cell then fret tt
  else
    let! r := state in
    let! nodes := ask (ref_cell_nodes r cell (alloc REF_CELL_MAX_SIZE_PER)) in
    call (fun r => ref_cell_remove r cell) ;!
    let! nodes := use (rename_nodes r node0 new_node nodes) in
    add_nodes nodes ;!
    let! nodes := use (rename_nodes r new_node node0 nodes) in
    let! nodes := use (rename_nodes r node1 new_node nodes) in
    add_nodes nodes ;!
    let! nodes := use (rename_nodes r new_node node1 nodes) in
    let! nodes := use (rename_nodes r node2 new_node nodes) in
    add_nodes nodes.

Definition ref_split_face (node0 node1 node2 new_node : Z) : REF_GRID D -> option (REF_STATUS * REF_GRID D) := body (
  let face_nodes := [node0; node1; node2; node0] in
  let! g := state in
  let! '(cell0, cell1) := ask (ref_cell_with_face (ref_grid_tet g) face_nodes) in
  on_cell REF_CELL_TET (body (
    split_face_cell node0 node1 node2 new_node cell0 ;!
    split_face_cell node0 node1 node2 new_node cell1)) ;!
  let! g := state in
  let! cell := ask_or REF_NOT_FOUND (ref_cell_with (ref_grid_tri g) face_nodes) in
  on_cell REF_CELL_TRI (body (split_face_cell node0 node1 node2 new_node cell))).
End ops.

(** ** The elements of one type *)

Section cells.
Context `{Junk Z, Junk REF_ADJ_ITEM} (type : REF_CELL_TYPE).
Notation tables := (snd (ref_cell_initialize type)).
Implicit Types (r : REF_CELL) (m : gmap Z (list Z)) (e : list Z).

(** No element has the node. *)
Definition unused m (new_node : Z) : Prop := forall cell e, m !! cell = Some e -> new_node ∉ nodes_of tables e.

(** What a sum counts for an element and for the two in its place. *)
Definition halves (F : list Z -> Z) (node0 node1 new_node : Z) e : Z :=
  F (renamed tables node0 new_node e) + F (renamed tables node1 new_node e).
Definition split_value (F : list Z -> Z) (node0 node1 new_node : Z) e : Z :=
  if decide (with_both type node0 node1 e) then halves F node0 node1 new_node e else F e.

(** The nodes that an element has, read into a larger array. *)
Lemma renamed_entries old new e nodes :
  ztake (size_per tables) nodes = e -> size_per tables <= zlen nodes ->
  cell_entries type (renamed tables old new nodes) = renamed tables old new e.
Proof.
  intros <- Hl. unfold cell_entries, renamed. assert (Hb : 0 <= node_per tables <= size_per tables) by by destruct type.
  set (f := rename old new). assert (Hz : zlen (replace_upto (node_per tables) f nodes) = zlen nodes) by (apply zlen_replace_upto; lia).
  assert (Hz' : zlen (ztake (size_per tables) nodes) = size_per tables) by (apply zlen_ztake; lia).
  apply arr_ext; [rewrite zlen_ztake, zlen_replace_upto; lia|]. rewrite zlen_ztake by lia. intros i Hi.
  rewrite aat_ztake, !aat_replace_upto, aat_ztake by lia. done.
Qed.

Lemma renamed_ok old new nodes :
  size_per tables <= zlen nodes -> Forall (fun v => 0 <= v <= NODE_LIMIT) (nodes_of tables nodes) -> 0 <= new <= NODE_LIMIT ->
  entries_ok type (renamed tables old new nodes).
Proof.
  intros Hl Hall Hnew. assert (Hb : 0 <= node_per tables <= zlen nodes /\ init_node_per type + (if init_last_node_is_an_id type then 1 else 0) <= zlen nodes)
    by (destruct type; cbn in *; lia).
  split; [by unfold renamed; rewrite zlen_replace_upto by lia|].
  change (init_node_per type) with (node_per tables). apply Forall_forall. intros v Hv.
  apply elem_of_ztake in Hv as (i & Hi & <-); [|unfold renamed; rewrite zlen_replace_upto by lia; lia].
  unfold renamed. rewrite aat_replace_upto by lia. destruct (Z.ltb_spec i (node_per tables)); [|lia].
  unfold rename. case Z.eqb_spec; [done|]. intros _. rewrite Forall_forall in Hall. apply Hall. apply elem_of_ztake; [lia|].
  exists i. split; [lia|done].
Qed.

Lemma add_nodes_ok k r m nodes (Q : unit -> REF_CELL -> Prop) E :
  cell_sim type (k + 1) r m -> 0 <= k -> entries_ok type nodes ->
  (forall cell r', m !! cell = None -> cell_sim type k r' (<[cell := cell_entries type nodes]> m) -> Q tt r') ->
  fwp (add_nodes nodes) Q E r.
Proof.
  intros Hsim Hk Hok HQ. apply fwp_call, wp_bind. eapply wp_mono; [by eapply sim_add|].
  intros [st [cell r']] (-> & _ & Hnone & Hsim'). apply wp_ret. rewrite decide_True by done. by eapply HQ.
Qed.

Lemma sim_limits k r m cell e : cell_sim type k r m -> m !! cell = Some e ->
  zlen e = size_per tables /\ Forall (fun v => 0 <= v <= NODE_LIMIT) (nodes_of tables e).
Proof.
  intros ((bl & Hwf) & Htb & Hrep & _) He. rewrite Hrep in He. rewrite <- Htb.
  split; [by eapply zlen_entries|by eapply (cw_nodes _ _ Hwf)].
Qed.

(** One element of the list: the two new ones take the place of the old one. *)
Lemma split_cell_ok k r m (node0 node1 new_node cell : Z) e (Q : unit -> REF_CELL -> Prop) E :
  cell_sim type (k + 2) r m -> 0 <= k -> m !! cell = Some e -> new_node ∉ nodes_of tables e ->
  0 <= new_node <= NODE_LIMIT -> 0 <= node0 <= NODE_LIMIT ->
  (forall r' m', cell_sim type k r' m' ->
     (forall F, map_sum F m' = map_sum F m - F e + halves F node0 node1 new_node e) ->
     (forall c e', c <> cell -> m !! c = Some e' -> m' !! c = Some e') -> Q tt r') ->
  fwp (split_cell node0 node1 new_node cell) Q E r.
Proof.
  intros Hsim Hk He Hnew Hlim Hlim0 HQ. pose proof Hsim as (_ & Htb & _).
  destruct (sim_limits _ _ _ _ _ Hsim He) as [Hle Hnodes].
  assert (Hs : size_per tables <= REF_CELL_MAX_SIZE_PER /\ 0 <= node_per tables <= size_per tables) by by destruct type.
  destruct Hs as (Hmax & Hper).
  apply fwp_bind, fwp_state, fwp_bind, fwp_ask.
  eapply wp_mono; [eapply sim_nodes; [exact Hsim|by rewrite Htb]|]. intros [st nodes]. rewrite He.
  intros (-> & Hzn & Htake). rewrite Htb in Htake. rewrite decide_True by done.
  assert (Hnodes' : nodes_of tables nodes = nodes_of tables e)
    by (rewrite <- Htake; unfold nodes_of, ztake; rewrite take_take; f_equal; lia).
  apply fwp_bind, fwp_call. eapply wp_mono; [by eapply sim_remove|]. intros [st r1]. rewrite He.
  intros [-> Hsim1]. rewrite decide_True by done.
  apply fwp_bind, fwp_use, (rename_nodes_ok type); [done|lia|].
  replace (k + 2) with (k + 1 + 1) in Hsim1 by lia.
  apply fwp_bind, (add_nodes_ok (k + 1) _ _ _ _ _ Hsim1); [lia|apply renamed_ok; [lia|by rewrite Hnodes'|done]|].
  intros c1 r2 Hc1 Hsim2. rewrite (renamed_entries _ _ e) in Hsim2 by (done || lia).
  apply fwp_bind, fwp_use, (rename_nodes_ok type); [done|unfold renamed; rewrite zlen_replace_upto; lia|].
  rewrite rename_back by (rewrite ?Hnodes'; done || lia).
  apply fwp_bind, fwp_use, (rename_nodes_ok type); [done|lia|].
  apply (add_nodes_ok k _ _ _ _ _ Hsim2); [lia|apply renamed_ok; [lia|by rewrite Hnodes'|done]|].
  intros c2 r3 Hc2 Hsim3. rewrite (renamed_entries _ _ e) in Hsim3 by (done || lia).
  apply (HQ r3 _ Hsim3).
  - intros F. rewrite !map_sum_insert, (map_sum_delete F m cell e He) by done. unfold halves. lia.
  - intros c e' Hc He'. assert (Hd : delete cell m !! c = Some e') by by rewrite lookup_delete_ne.
    rewrite !lookup_insert_ne; [done|congruence|]. intros ->. rewrite lookup_insert_None in Hc2. by destruct Hc2; congruence.
Qed.

(** [ref_cell_list_with2] and the loop over its list. *)
Lemma split_cells_ok k r m (node0 node1 new_node : Z) :
  cell_sim type (k + 2 * zlen (cells_with2 r node0 node1)) r m -> 0 <= k -> proper type m -> unused m new_node ->
  0 <= new_node <= NODE_LIMIT ->
  wp (split_cells node0 node1 new_node r) (fun '(st, r') =>
    if zlen (cells_with2 r node0 node1) <=? MAX_CELL_SPLIT then
      st = REF_SUCCESS /\ exists m', cell_sim type k r' m' /\
        forall F, map_sum F m' = map_sum (split_value F node0 node1 new_node) m
    else st = REF_INCREASE_LIMIT /\ r' = r).
Proof.
  intros Hsim Hk Hp Hun Hlim. apply wp_body, fwp_bind, fwp_state, fwp_bind, fwp_ask.
  eapply wp_mono; [by eapply sim_list_with2|]. intros [st [ncell cells]] (l & Hnd & Hl & Hleq & Hpost).
  rewrite <- Hleq in *. destruct (Z.leb_spec (zlen l) MAX_CELL_SPLIT) as [Hle|Hle]; [|by subst].
  destruct Hpost as (-> & -> & Htake & Hz). rewrite decide_True by done. pose proof (zlen_nonneg l).
  apply fwp_count with (P := fun i r' => exists m', cell_sim type (k + 2 * (zlen l - i)) r' m' /\
    (forall F, map_sum F m' = map_sum F m +
       sum_over (fun c => halves F node0 node1 new_node (entries_of m c) - F (entries_of m c)) (ztake i l)) /\
    forall c e, c ∈ l -> c ∉ ztake i l -> m !! c = Some e -> m' !! c = Some e); [lia| | |].
  - exists m. rewrite Z.sub_0_r. split; [exact Hsim|]. split; [|done]. intros F. change (ztake 0 l) with (@nil Z).
    rewrite sum_over_nil. lia.
  - intros i r' Hi (m' & Hsim' & Hsum & Hkeep). apply fwp_bind, fwp_use, wp_aget; [lia|].
    assert (Hci : cells.[i] = l.[i]) by (rewrite <- Htake, aat_ztake; done || lia). rewrite Hci.
    assert (Hin : l.[i] ∈ l) by (apply elem_of_aat; exists i; split; [lia|done]).
    assert (Hnot : l.[i] ∉ ztake i l).
    { assert (Hd : NoDup (ztake (i + 1) l)) by (eapply sublist_NoDup; [exact Hnd|apply sublist_take]).
      rewrite ztake_S, NoDup_app in Hd by lia. destruct Hd as (_ & Hd & _). intros Hc. apply (Hd _ Hc). set_solver. }
    destruct (proj1 (Hl _) Hin) as (e & He & Hboth).
    apply (split_cell_ok (k + 2 * (zlen l - (i + 1))) _ m' _ _ _ _ e); [|lia|by apply Hkeep|by eapply Hun|done| |].
    + replace (k + _ + 2) with (k + 2 * (zlen l - i)) by lia. exact Hsim'.
    + destruct (sim_limits _ _ _ _ _ Hsim He) as [_ Hall]. rewrite Forall_forall in Hall. apply Hall, Hboth.
    + intros r2 m2 Hsim2 Hsum2 Hkeep2. exists m2. split; [done|]. rewrite ztake_S by lia. split.
      * intros F. rewrite Hsum2, Hsum, sum_over_app, sum_over_cons, sum_over_nil. unfold entries_of at 5 6.
        rewrite He. cbn. lia.
      * intros c e' Hc Hnc He'. rewrite elem_of_app, list_elem_of_singleton in Hnc. apply Hkeep2; [tauto|]. apply Hkeep; tauto.
  - intros r' (m' & Hsim' & Hsum & _). rewrite Z.sub_diag, Z.add_0_r in Hsim'. rewrite ztake_full in Hsum.
    split; [done|]. exists m'. split; [done|]. intros F. rewrite Hsum. symmetry.
    rewrite (map_sum_change F _ m l Hnd).
    + f_equal. apply sum_over_ext. intros c (e & He & Hb)%Hl. unfold entries_of, split_value. rewrite He. cbn.
      by rewrite decide_True.
    + intros c (e & He & _)%Hl. by exists e.
    + intros c e He Hc. unfold split_value. rewrite decide_False; [done|]. intros Hb. apply Hc, Hl. by exists e.
Qed.
End cells.

(** ** What the halves bound *)

Section halved.
Context (phi : Z -> Z -> Z -> Z) (node0 node1 new_node : Z).

(** A face with the edge counts as its two halves. *)
Definition halved (a b c : Z) : Z :=
  let half old := phi (rename old new_node a) (rename old new_node b) (rename old new_node c) in
  if is_one_of node0 [a; b; c] && is_one_of node1 [a; b; c] then half node0 + half node1 else phi a b c.

Lemma halved_alternating : alternating phi -> alternating halved.
Proof.
  intros Ha. constructor; intros a b c; unfold halved.
  - destruct (is_one_of_order_free node0 a b c) as [<- _], (is_one_of_order_free node1 a b c) as [<- _].
    by rewrite !(alt_rotate _ Ha (rename _ _ a)), (alt_rotate _ Ha a).
  - destruct (is_one_of_order_free node0 a b c) as [_ <-], (is_one_of_order_free node1 a b c) as [_ <-].
    rewrite !(alt_swap _ Ha (rename _ _ a)), (alt_swap _ Ha a b c). destruct (_ && _); lia.
Qed.

Lemma rename_same old : rename old new_node old = new_node.
Proof. unfold rename. by rewrite Z.eqb_refl. Qed.
Lemma rename_other old v : v <> old -> rename old new_node v = v.
Proof. intros Hv. unfold rename. by destruct (Z.eqb_spec v old). Qed.


Lemma renamed_tet old a b c d : renamed (snd (ref_cell_initialize REF_CELL_TET)) old new_node [a; b; c; d] =
  [rename old new_node a; rename old new_node b; rename old new_node c; rename old new_node d].
Proof. done. Qed.
Lemma renamed_tri old a b c id : renamed (snd (ref_cell_initialize REF_CELL_TRI)) old new_node [a; b; c; id] =
  [rename old new_node a; rename old new_node b; rename old new_node c; id].
Proof. done. Qed.

Lemma halved_with a b c : node0 = a \/ node0 = b \/ node0 = c -> node1 = a \/ node1 = b \/ node1 = c -> halved a b c =
  phi (rename node0 new_node a) (rename node0 new_node b) (rename node0 new_node c) +
  phi (rename node1 new_node a) (rename node1 new_node b) (rename node1 new_node c).
Proof. intros H0 H1. unfold halved. cbn [is_one_of existsb]. by replace (_ && _) with true by lia. Qed.
Lemma halved_without a b c :
  (node0 <> a /\ node0 <> b /\ node0 <> c) \/ (node1 <> a /\ node1 <> b /\ node1 <> c) -> halved a b c = phi a b c.
Proof. intros Hn. unfold halved. cbn [is_one_of existsb]. by replace (_ && _) with false by lia. Qed.
End halved.

#[local] Ltac one_of_three := first [left; reflexivity|right; left; reflexivity|right; right; reflexivity].

(** The halves of a tetrahedron share a face and bound the halves of its faces. *)
Lemma split_value_tet phi node0 node1 new_node e :
  alternating phi -> node0 <> node1 ->  zlen e = 4 -> NoDup e -> new_node ∉ e ->
  split_value REF_CELL_TET (around_tet phi) node0 node1 new_node e = around_tet (halved phi node0 node1 new_node) e.
Proof.
  intros Ha Hne Hl Hnd Hnew. destruct e as [|a [|b [|c [|d [|? l]]]]]; rewrite ?zlen_cons, ?zlen_nil in Hl;
    [lia|lia|lia|lia| |pose proof (zlen_nonneg l); lia]. clear Hl.
  rewrite !NoDup_cons, !elem_of_cons in Hnd. rewrite !elem_of_cons in Hnew.
  pose proof (not_elem_of_nil (A:=Z)) as Hnil.
  assert (Hd : a <> b /\ a <> c /\ a <> d /\ b <> c /\ b <> d /\ c <> d) by tauto. clear Hnd.
  unfold split_value, halves, around_tet.  rewrite !renamed_tet, !tet_faces_eq, !sum_over_cons, !sum_over_nil. cbn [on_face].
  case_decide as Hb.
  - change (with_both _ _ _ _) with (node0 ∈ [a; b; c; d] /\ node1 ∈ [a; b; c; d]) in Hb.
    rewrite !elem_of_cons in Hb. destruct Hb as [H0 H1].
    destruct Hd as (? & ? & ? & ? & ? & ?).
    destruct H0 as [H0|[H0|[H0|[H0|H0]]]]; [..|by apply Hnil in H0]; subst node0;
    (destruct H1 as [H1|[H1|[H1|[H1|H1]]]]; [..|by apply Hnil in H1]; subst node1; [..|]; try (by destruct Hne)); clear Hnil Hnew Hne;
    repeat match goal with
    | |- context [halved _ _ _ _ ?x ?y ?z] => first
        [ rewrite (halved_with _ _ _ _ x y z) by one_of_three
        | rewrite (halved_without _ _ _ _ x y z) by lia ]
    end; rewrite ?rename_same, ?rename_other by congruence;
    match goal with |- context [phi ?p ?q ?r] => first
      [ match goal with |- context [phi p r q] => rewrite (alt_swap_12 phi Ha p q r) end
      | match goal with |- context [phi q p r] => rewrite (alt_swap phi Ha p q r) end
      | match goal with |- context [phi r q p] => rewrite (alt_reverse phi Ha p q r) end ] end; lia.
  - change (with_both _ _ _ _) with (node0 ∈ [a; b; c; d] /\ node1 ∈ [a; b; c; d]) in Hb.
    rewrite !elem_of_cons in Hb. clear Hnew Hne.
    destruct (decide (node0 ∈ [a; b; c; d])) as [H0|H0]; [destruct (decide (node1 ∈ [a; b; c; d])) as [H1|H1]|].
    + by destruct Hb; rewrite <- !elem_of_cons.
    + rewrite !not_elem_of_cons in H1. by rewrite !halved_without by tauto.
    + rewrite !not_elem_of_cons in H0. by rewrite !halved_without by tauto.
Qed.

Lemma split_value_tri phi node0 node1 new_node e :
  zlen e = 4 -> split_value REF_CELL_TRI (on_tri phi) node0 node1 new_node e = on_tri (halved phi node0 node1 new_node) e.
Proof.
  intros Hl. destruct e as [|a [|b [|c [|id [|? l]]]]]; rewrite ?zlen_cons, ?zlen_nil in Hl;
    [lia|lia|lia|lia| |pose proof (zlen_nonneg l); lia]. clear Hl.
  unfold split_value, halves, on_tri, triple. cbn [on_face]. rewrite !renamed_tri.
  change (with_both _ _ _ _) with (node0 ∈ [a; b; c] /\ node1 ∈ [a; b; c]).
  repeat match goal with |- context [aat ?l ?i] => let x := eval vm_compute in (aat l i) in change (aat l i) with x end.
  unfold halved. case_decide as Hb.
  - destruct Hb as [Hb0%is_one_of_true Hb1%is_one_of_true]. by rewrite Hb0, Hb1.
  - destruct (is_one_of node0 _) eqn:H0; [|done]. destruct (is_one_of node1 _) eqn:H1; [|done].
    apply is_one_of_true in H0, H1. by destruct Hb.
Qed.

(** ** The grid *)

Section grid.
Context {D : Type} `{Junk Z, Junk REF_ADJ_ITEM}.
Implicit Types (g : REF_GRID D).

Definition simplex_types : list REF_CELL_TYPE := [REF_CELL_TET; REF_CELL_TRI; REF_CELL_EDG].

Lemma all_simplex (P : REF_CELL_TYPE -> Prop) :
  P REF_CELL_TET -> P REF_CELL_TRI -> P REF_CELL_EDG -> forall type, type ∈ simplex_types -> P type.
Proof.
  intros Ht Hr He. apply Forall_forall. unfold simplex_types. rewrite !Forall_cons. do 3 (split; [done|]). apply Forall_nil_2.
Qed.

(** What [ref_split_edge] asks of the elements of one type. *)
Record splittable (type : REF_CELL_TYPE) (node0 node1 new_node : Z) (r : REF_CELL) (m : gmap Z (list Z)) : Prop := {
  sp_sim : cell_sim type (2 * zlen (cells_with2 r node0 node1)) r m;
  sp_proper : proper type m;
  sp_unused : unused type m new_node;
  sp_few : zlen (cells_with2 r node0 node1) <= MAX_CELL_SPLIT
}.

Lemma all_splittable g node0 node1 new_node :
  splittable REF_CELL_TET node0 node1 new_node (ref_grid_tet g) (cell_map (ref_grid_tet g)) ->
  splittable REF_CELL_TRI node0 node1 new_node (ref_grid_tri g) (cell_map (ref_grid_tri g)) ->
  splittable REF_CELL_EDG node0 node1 new_node (ref_grid_edg g) (cell_map (ref_grid_edg g)) ->
  forall type, type ∈ simplex_types -> splittable type node0 node1 new_node (grid_cell g type) (cell_map (grid_cell g type)).
Proof. intros Ht Hr He. by apply all_simplex. Qed.

Lemma on_cell_ok type f g (Q : unit -> REF_GRID D -> Prop) E :
  wp (f (grid_cell g type)) (fun '(st, r) => st = REF_SUCCESS /\ Q tt (set_grid_cell type r g)) ->
  fwp (on_cell type f) Q E g.
Proof.
  intros Hf. apply fwp_call, wp_bind. eapply wp_mono; [exact Hf|]. intros [st r] [-> HQ]. apply wp_ret.
  by rewrite decide_True.
Qed.

Lemma split_type_ok type g m node0 node1 new_node (Q : unit -> REF_GRID D -> Prop) E :
  splittable type node0 node1 new_node (grid_cell g type) m -> 0 <= new_node <= NODE_LIMIT ->
  (forall r m', cell_sim type 0 r m' ->
     (forall F, map_sum F m' = map_sum (split_value type F node0 node1 new_node) m) -> Q tt (set_grid_cell type r g)) ->
  fwp (on_cell type (split_cells node0 node1 new_node)) Q E g.
Proof.
  intros [Hsim Hp Hun Hfew] Hlim HQ. apply on_cell_ok.
  eapply wp_mono; [apply (split_cells_ok type 0 _ m); done|]. intros [st r].
  rewrite (proj2 (Z.leb_le _ _) Hfew). intros (-> & m' & Hsim' & Hsum). split; [done|]. by apply (HQ r m').
Qed.

(** The elements of the grid afterwards, as collections. *)
Definition edge_split g g' node0 node1 new_node : Prop :=
  forall type, type ∈ simplex_types -> forall F,
    map_sum F (cell_map (grid_cell g' type)) =
    map_sum (split_value type F node0 node1 new_node) (cell_map (grid_cell g type)).

Lemma ref_split_edge_ok kn g node0 node1 new_node :
  (forall type, type ∈ simplex_types ->
     splittable type node0 node1 new_node (grid_cell g type) (cell_map (grid_cell g type))) ->
  node_ready kn (grid_node g) -> (exists bl, geom_wf (grid_geom g) bl) -> 0 <= new_node <= NODE_LIMIT ->
  wp (ref_split_edge node0 node1 new_node g) (fun '(st, g') => st = REF_SUCCESS /\
    edge_split g g' node0 node1 new_node /\
    grid_ok 0 0 0 kn g' (cell_map (ref_grid_tet g')) (cell_map (ref_grid_tri g'))).
Proof.
  intros Hs Hn [bl Hgeom] Hlim. apply Forall_forall in Hs. unfold simplex_types in Hs. rewrite !Forall_cons in Hs. destruct Hs as (Ht & Hr & He & _).
  apply wp_body.
  apply fwp_bind, (split_type_ok REF_CELL_TET g _ _ _ _ _ _ Ht Hlim). intros r1 m1 Hr1 Hsum1.
  apply fwp_bind, (split_type_ok REF_CELL_TRI _ (cell_map (ref_grid_tri g))); [exact Hr|done|]. intros r2 m2 Hr2 Hsum2.
  apply (split_type_ok REF_CELL_EDG _ (cell_map (ref_grid_edg g))); [exact He|done|].
  intros r3 m3 Hr3 Hsum3.
  pose proof Hr1 as (_ & _ & ->%represents_unique & _). pose proof Hr2 as (_ & _ & ->%represents_unique & _).
  pose proof Hr3 as (_ & _ & ->%represents_unique & _).
  split; [done|]. split.
  - by refine (all_simplex _ _ _ _).
  - constructor; [exact Hr1|exact Hr2|by exists (cell_map r3)|exact Hn|by exists bl].
Qed.

(** No element keeps the edge. *)
Lemma split_removes type node0 node1 new_node m m' :
  (forall cell e, m !! cell = Some e -> node_per (snd (ref_cell_initialize type)) <= zlen e) -> unused type m new_node ->
  (forall F, map_sum F m' = map_sum (split_value type F node0 node1 new_node) m) ->
  forall cell e, m' !! cell = Some e -> ~ with_both type node0 node1 e.
Proof.
  intros Hlen Hun Hsum cell e He Hb. set (F e := if decide (with_both type node0 node1 e) then 1 else 0).
  assert (HF : F e = 1) by (unfold F; by rewrite decide_True).
  enough (F e = 0) by lia. apply (map_sum_none F m' cell e); [intros e'; unfold F; by case_decide| |done].
  rewrite Hsum, (map_sum_ext _ (fun _ => 0)).
  - clear. induction m as [|k e m Hk IH] using map_ind; [done|]. by rewrite map_sum_insert, IH.
  - intros k e' He'. unfold split_value. case_decide as Hb'; [|unfold F; by rewrite decide_False].
    assert (Hper : 0 <= node_per (snd (ref_cell_initialize type))) by by destruct type.
    assert (Hnn : node0 <> new_node /\ node1 <> new_node).
    { specialize (Hun _ _ He'). destruct Hb'. split; intros ->; done. }
    unfold halves, F. rewrite !decide_False; [done| |]; intros [H0' H1'].
    + revert H1'. apply not_in_renamed; [tauto|]. specialize (Hlen _ _ He'). lia.
    + revert H0'. apply not_in_renamed; [tauto|]. specialize (Hlen _ _ He'). lia.
Qed.
End grid.

(** C30. Splitting an edge keeps the mesh conforming: where the lists of the code are
    long enough, [ref_split_edge] succeeds, every element with the edge is replaced
    by its two halves and no other is touched, no element has the edge any more, and
    the triangles bound the tetrahedra again. *)
Theorem ref_split_edge_conforms {D : Type} `{Junk Z, Junk REF_ADJ_ITEM} (g : REF_GRID D) (node0 node1 new_node : Z) :
  mesh_ok g -> node0 <> node1 -> 0 <= new_node <= NODE_LIMIT ->
  (forall type, type ∈ simplex_types ->
     splittable type node0 node1 new_node (grid_cell g type) (cell_map (grid_cell g type))) ->
  exists g', ref_split_edge node0 node1 new_node g = Some (REF_SUCCESS, g') /\
    grid_ok 0 0 0 0 g' (cell_map (ref_grid_tet g')) (cell_map (ref_grid_tri g')) /\
    edge_split g g' node0 node1 new_node /\
    (forall type cell e, type ∈ simplex_types -> cell_at (grid_cell g' type) cell = Some e -> ~ with_both type node0 node1 e) /\
    conforming g'.
Proof.
  intros Hg Hne Hlim Hs. destruct (mo_grid _ Hg) as [_ _ _ Hn Hgeom].
  destruct (ref_split_edge_ok table_budget g node0 node1 new_node Hs Hn Hgeom Hlim) as ([st g'] & He & -> & Hsplit & Hok).
  assert (Hlen : forall type, type ∈ simplex_types -> forall cell e, cell_map (grid_cell g type) !! cell = Some e ->
    zlen e = size_per (snd (ref_cell_initialize type))).
  { intros type Ht cell e He'. eapply sim_limits; [apply (Hs type Ht)|exact He']. }
  exists g'. split; [done|]. split; [destruct Hok as [? ? ? Hn' ?]; constructor; try done; eapply node_ready_mono; [|exact Hn']; done|].
  split; [exact Hsplit|]. split.
  - intros type cell e Ht He'. rewrite <- (cell_map_represents (grid_cell g' type) cell) in He'. revert He'.
    apply (split_removes type node0 node1 new_node (cell_map (grid_cell g type))); [|apply (Hs type Ht)|exact (Hsplit type Ht)].
    intros c e' He'. rewrite (Hlen type Ht c e' He'). by destruct type.
  - intros phi Ha. unfold grid_boundary, mesh_boundary.
    assert (Htet : REF_CELL_TET ∈ simplex_types) by (by left). assert (Htri : REF_CELL_TRI ∈ simplex_types) by (right; by left).
    rewrite (Hsplit _ Htet), (Hsplit _ Htri).
    rewrite <- (mo_conforming _ Hg (halved phi node0 node1 new_node) (halved_alternating _ _ _ _ Ha)).
    unfold grid_boundary, mesh_boundary. f_equal; apply map_sum_ext; intros cell e He'.
    + pose proof (Hlen _ Htet _ _ He') as Hz. pose proof (sp_proper _ _ _ _ _ _ (Hs _ Htet) cell e He') as Hnd.
      pose proof (sp_unused _ _ _ _ _ _ (Hs _ Htet) cell e He') as Hnu. change (size_per _) with 4 in Hz.
      unfold nodes_of in Hnd, Hnu. change (node_per _) with 4 in Hnd, Hnu.
      rewrite <- Hz, ztake_full in Hnd, Hnu. by apply split_value_tet.
    + apply split_value_tri. apply (Hlen _ Htri _ _ He').
Qed.

(** ** Example

    The axis of the octahedron of RefCavitySwap.v is split. *)
Module SplitExample.
#[local] Existing Instances NodeExample.double NodeExample.junk_double NodeExample.junk_int ReplaceExample.junk_item.
Notation grid := SwapExample.grid.

Lemma listed_proper type m :
  Forall (fun x => NoDup (nodes_of (snd (ref_cell_initialize type)) x.2)) (map_to_list m) -> proper type m.
Proof. intros Hall cell e He. rewrite Forall_forall in Hall. by apply (Hall (cell, e)), elem_of_map_to_list. Qed.
Lemma listed_unused type m new_node :
  Forall (fun x => new_node ∉ nodes_of (snd (ref_cell_initialize type)) x.2) (map_to_list m) -> unused type m new_node.
Proof. intros Hall cell e He. rewrite Forall_forall in Hall. by apply (Hall (cell, e)), elem_of_map_to_list. Qed.
Lemma no_edges : map_to_list (cell_map (ref_grid_edg grid)) = [].
Proof. vm_compute. reflexivity. Qed.

Lemma axis_tets : splittable REF_CELL_TET 0 1 6 (ref_grid_tet grid) (cell_map (ref_grid_tet grid)).
Proof.
  destruct SwapExample.octahedron_in_order as [Ht _ _ _ _]. constructor; [| | |vm_compute; congruence].
  - eapply cell_sim_mono; [|exact Ht]. vm_compute. congruence.
  - apply listed_proper. rewrite SwapExample.axis_tets_ok. apply (bool_decide_unpack _). vm_compute. exact I.
  - apply listed_unused. rewrite SwapExample.axis_tets_ok. apply (bool_decide_unpack _). vm_compute. exact I.
Qed.
Lemma axis_tris : splittable REF_CELL_TRI 0 1 6 (ref_grid_tri grid) (cell_map (ref_grid_tri grid)).
Proof.
  destruct SwapExample.octahedron_in_order as [_ Hr _ _ _]. constructor; [| | |vm_compute; congruence].
  - eapply cell_sim_mono; [|exact Hr]. vm_compute. congruence.
  - apply listed_proper. rewrite SwapExample.axis_tris_ok. apply (bool_decide_unpack _). vm_compute. exact I.
  - apply listed_unused. rewrite SwapExample.axis_tris_ok. apply (bool_decide_unpack _). vm_compute. exact I.
Qed.
Lemma axis_edgs : splittable REF_CELL_EDG 0 1 6 (ref_grid_edg grid) (cell_map (ref_grid_edg grid)).
Proof.
  destruct SwapExample.octahedron_in_order as [_ _ (edgs & He) _ _]. constructor; [| | |vm_compute; congruence].
  - pose proof He as (_ & _ & Hrep%represents_unique & _). rewrite <- Hrep. eapply cell_sim_mono; [|exact He].
    vm_compute. congruence.
  - apply listed_proper. rewrite no_edges. apply Forall_nil_2.
  - apply listed_unused. rewrite no_edges. apply Forall_nil_2.
Qed.
Lemma axis_splittable type : type ∈ simplex_types ->
  splittable type 0 1 6 (grid_cell grid type) (cell_map (grid_cell grid type)).
Proof. apply all_splittable; [exact axis_tets|exact axis_tris|exact axis_edgs]. Qed.
End SplitExample.
#[local] Existing Instances NodeExample.double NodeExample.junk_double NodeExample.junk_int ReplaceExample.junk_item.

Lemma ref_split_edge_conforms_witness :
  let g := SwapExample.grid in
  (mesh_ok g /\ forall type, type ∈ simplex_types -> splittable type 0 1 6 (grid_cell g type) (cell_map (grid_cell g type))) /\
  (let* '(st, g') := ref_split_edge 0 1 6 g in Some (st, cell_n (ref_grid_tet g'), cell_n (ref_grid_tri g'))) =
    Some (REF_SUCCESS, 6, 10) /\
  exists g', ref_split_edge 0 1 6 g = Some (REF_SUCCESS, g') /\
    grid_ok 0 0 0 0 g' (cell_map (ref_grid_tet g')) (cell_map (ref_grid_tri g')) /\
    edge_split g g' 0 1 6 /\
    (forall type cell e, type ∈ simplex_types -> cell_at (grid_cell g' type) cell = Some e -> ~ with_both type 0 1 e) /\
    conforming g'.
Proof.
  split; [split; [exact SwapExample.axis_mesh_ok|exact SplitExample.axis_splittable]|].
  split; [vm_compute; reflexivity|].
  apply (ref_split_edge_conforms SwapExample.grid 0 1 6);
    [exact SwapExample.axis_mesh_ok|lia|vm_compute; split; congruence|exact SplitExample.axis_splittable].
Defined.
