(* ===== verification/RefCollapse.v ===== *)
(** * ref_collapse.c: collapsing an edge

    [ref_collapse_edge] removes the elements with both ends of the edge, puts
    [node0] in the place of [node1] in all others and removes [node1]. The tests
    that allow it are those on the topology; the ones that measure have no model.
    The elements are those the specification says, and a conforming mesh stays
    conforming; [ref_collapse_edge_manifold] keeps two elements from getting the
    same nodes. *)
From S2P Require Import Prelude Rows Chains Effect RefList RefAdj RefDbl RefMpi RefNode RefCellType RefCell RefCellSpec RefCellQuery RefCellNode RefGeom RefGrid RefMeasure RefCavity RefCavityTable RefCavityReplace RefCavityForm RefCavitySwap EdgeCells RefSplit.
From stdpp Require Import prelude list gmap.
From Stdlib Require Import ZArith Lia SpecFloat.
Open Scope Z_scope.
Open Scope ref_scope.

Definition MAX_CELL_COLLAPSE : Z := 100.
Definition MAX_NODE_LIST : Z := 1000.

Section ops.
Context {D : Type} `{Dbl D, Junk Z, Junk REF_ADJ_ITEM, Junk D}.
Implicit Types (g : REF_GRID D).

(** The elements of one type. *)
Definition collapse_cells (node0 node1 : Z) : REF_CELL -> option (REF_STATUS * REF_CELL) := body (
  let! r := state in
  let! '(ncell, cell_to_collapse) :=
    ask (ref_cell_list_with2 r node0 node1 MAX_CELL_COLLAPSE (alloc MAX_CELL_COLLAPSE)) in
  count 0 ncell (fun cell_in_list =>
    let! cell := use (aget cell_to_collapse cell_in_list) in
    call (fun r => ref_cell_remove r cell)) ;!
  call (fun r => ref_cell_replace_node r node1 node0)).

Definition ref_collapse_edge (node0 node1 : Z) : REF_GRID D -> option (REF_STATUS * REF_GRID D) := body (
  on_cell REF_CELL_TET (collapse_cells node0 node1) ;!
  on_cell REF_CELL_TRI (collapse_cells node0 node1) ;!
  on_cell REF_CELL_EDG (collapse_cells node0 node1) ;!
  call (fun g => let* '(st, n) := ref_node_remove (grid_node g) node1 in Some (st, set_grid_node n g)) ;!
  call (fun g => let* '(st, geom) := ref_geom_remove_all (grid_geom g) node1 in Some (st, set_grid_geom geom g))).

(** The flag of each test is [*allowed]. *)
Definition ref_collapse_edge_mixed g (node0 node1 : Z) : option (REF_STATUS * bool) :=
  let* pyr := ref_adj_empty (cell_adj (ref_grid_pyr g)) node1 in
  if negb pyr then Some (REF_SUCCESS, false)
  else
    let* pri := ref_adj_empty (cell_adj (ref_grid_pri g)) node1 in
    if negb pri then Some (REF_SUCCESS, false)
    else
      let* hex := ref_adj_empty (cell_adj (ref_grid_hex g)) node1 in
      if negb hex then Some (REF_SUCCESS, false)
      else
        let* qua := ref_adj_empty (cell_adj (ref_grid_qua g)) node1 in
        Some (REF_SUCCESS, qua).

(** The id of an element of the list, with the array that it is read through. *)
Definition id_of r (cell : Z) (nodes : list Z) : option (REF_STATUS * (Z * list Z)) :=
  let* '(st, nodes) := ref_cell_nodes r cell nodes in
  RSS st (REF_EMPTY, nodes) (
  let* id := aget nodes 3 in
  Some (REF_SUCCESS, (id, nodes))).

Definition ref_collapse_edge_geometry g (node0 node1 : Z) : option (REF_STATUS * bool) :=
  let ref_tri := ref_grid_tri g in
  let* '(st, geom_node1) := ref_geom_is_a (grid_geom g) node1 REF_GEOM_NODE in
  RSS st false (
  if geom_node1 : bool then Some (REF_SUCCESS, false)
  else
  let* '(st, geom_edge1) := ref_geom_is_a (grid_geom g) node1 REF_GEOM_EDGE in
  RSS st false (
  if geom_edge1 : bool then
    let* '(st, edge_side) := ref_cell_has_side (ref_grid_edg g) node0 node1 in
    RSS st false (Some (REF_SUCCESS, edge_side))
  else
  let* '(st, (degree1, ids1)) := ref_cell_id_list_around ref_tri node1 3 (alloc 3) in
  RXS st REF_INCREASE_LIMIT false (
  if degree1 =? 2 then
    let* '(st, (ncell, cell_to_collapse)) :=
      ref_cell_list_with2 ref_tri node0 node1 MAX_CELL_COLLAPSE (alloc MAX_CELL_COLLAPSE) in
    RSS st false (
    if negb (2 =? ncell) then Some (REF_SUCCESS, false)
    else
      let* cell0 := aget cell_to_collapse 0 in
      let* '(st, (id0, nodes)) := id_of ref_tri cell0 (alloc REF_CELL_MAX_SIZE_PER) in
      RSS st false (
      let* cell1 := aget cell_to_collapse 1 in
      let* '(st, (id1, nodes)) := id_of ref_tri cell1 nodes in
      RSS st false (
      let* a := aget ids1 0 in
      let* b := aget ids1 1 in
      Some (REF_SUCCESS, ((id0 =? a) && (id1 =? b)) || ((id1 =? a) && (id0 =? b))))))
  else if degree1 =? 1 then ref_cell_has_side ref_tri node0 node1
  else Some (REF_SUCCESS, degree1 =? 0)))).

(** The loop that sets [will_be_collapsed]. *)
Definition has_entry r (node : Z) (nodes : list Z) : option bool :=
  for_up 0 (ref_cell_node_per r) (fun i found =>
    let* v := aget nodes i in Some (if node =? v then true else found)) false.

(** One of the loops over the elements around [node1]: leaves with [false] when an
    element would get the nodes of another. The array is [nodes]. *)
Definition collapse_meets r (node0 node1 : Z) (nodes : list Z) : option (ctl (list Z) (REF_STATUS * bool)) :=
  each_ref_cell_having_node r node1 (fun cell nodes =>
    let* '(st, nodes) := ref_cell_nodes r cell nodes in
    RSS_exit st false (
    let* will_be_collapsed := has_entry r node0 nodes in
    if will_be_collapsed : bool then Some (Next nodes)
    else
      let* nodes := rename_nodes r node1 node0 nodes in
      let* '(st, new_cell) := ref_cell_with r nodes in
      if bool_decide (st = REF_SUCCESS \/ st = REF_NOT_FOUND) then
        if negb (REF_EMPTY =? new_cell) then Some (Exit (REF_SUCCESS, false)) else Some (Next nodes)
      else Some (Exit (st, false)))) nodes.

(** The nodes of the triangles that will be collapsed, at most four. *)
Definition collapse_safe_list r (node0 node1 : Z) (nodes : list Z)
    : option (ctl (Z * list Z * list Z) (REF_STATUS * bool)) :=
  each_ref_cell_having_node r node1 (fun cell '(nsafe, safe_list, nodes) =>
    let* '(st, nodes) := ref_cell_nodes r cell nodes in
    RSS_exit st false (
    let* will_be_collapsed := has_entry r node0 nodes in
    if will_be_collapsed : bool then
      let* c :=
        forx_up 0 (ref_cell_node_per r) (fun node '(nsafe, safe_list) =>
          let* v := aget nodes node in
          let* already_have_it :=
            for_up 0 nsafe (fun i found => let* x := aget safe_list i in Some (found || (v =? x))) false in
          if already_have_it : bool then Some (Next (nsafe, safe_list))
          else if negb (nsafe <? 4) then Some (Exit (REF_FAILURE, false))
          else
            let* safe_list := aset safe_list nsafe v in
            Some (Next (nsafe + 1, safe_list))) (nsafe, safe_list) in
      Some (match c with
            | Next (nsafe, safe_list) => Next (nsafe, safe_list, nodes)
            | Exit x => Exit x
            end)
    else Some (Next (nsafe, safe_list, nodes))))
    (0, [REF_EMPTY; REF_EMPTY; REF_EMPTY; REF_EMPTY], nodes).

(** Leaves with [false] when both lists have a node that is not safe. *)
Definition shared_neighbour (node_list0 : list Z) (nnode0 : Z) (node_list1 : list Z) (nnode1 : Z)
    (safe_list : list Z) (nsafe : Z) : option (ctl unit (REF_STATUS * bool)) :=
  forx_up 0 nnode0 (fun i0 (_ : unit) =>
    forx_up 0 nnode1 (fun i1 (_ : unit) =>
      let* a := aget node_list0 i0 in
      let* b := aget node_list1 i1 in
      if a =? b then
        let* shared :=
          for_up 0 nsafe (fun i shared => let* x := aget safe_list i in Some (shared && negb (a =? x))) true in
        if shared : bool then Some (Exit (REF_SUCCESS, false)) else Some (Next tt)
      else Some (Next tt)) tt) tt.

Definition collapse_no_new_side r (node0 node1 : Z) (nodes : list Z) : option (ctl (list Z) (REF_STATUS * bool)) :=
  let* c := collapse_safe_list r node0 node1 nodes in
  match c with
  | Exit x => Some (Exit x)
  | Next (nsafe, safe_list, nodes) =>
      if negb ((0 =? nsafe) || (3 =? nsafe) || (4 =? nsafe)) then Some (Exit (REF_FAILURE, false))
      else if (3 =? nsafe) || (4 =? nsafe) then
        let* '(st, (nnode0, node_list0)) := ref_cell_node_list_around r node0 MAX_NODE_LIST (alloc MAX_NODE_LIST) in
        RSS_exit st false (
        let* '(st, (nnode1, node_list1)) := ref_cell_node_list_around r node1 MAX_NODE_LIST (alloc MAX_NODE_LIST) in
        RSS_exit st false (
        let* c := shared_neighbour node_list0 nnode0 node_list1 nnode1 safe_list nsafe in
        Some (match c with Next _ => Next nodes | Exit x => Exit x end)))
      else Some (Next nodes)
  end.

(** A stage that returns from the function, or goes on with [nodes]. *)
Definition or_return (c : option (ctl (list Z) (REF_STATUS * bool)))
    (k : list Z -> option (REF_STATUS * bool)) : option (REF_STATUS * bool) :=
  let* c := c in
  match c with
  | Next nodes => k nodes
  | Exit x => Some x
  end.

Definition ref_collapse_edge_manifold g (node0 node1 : Z) : option (REF_STATUS * bool) :=
  or_return (collapse_meets (ref_grid_tet g) node0 node1 (alloc REF_CELL_MAX_SIZE_PER)) (fun nodes =>
  or_return (collapse_meets (ref_grid_tri g) node0 node1 nodes) (fun nodes =>
  or_return (collapse_no_new_side (ref_grid_tri g) node0 node1 nodes) (fun nodes =>
  or_return (collapse_meets (ref_grid_edg g) node0 node1 nodes) (fun _ => Some (REF_SUCCESS, true))))).

(** The elements around a node whose nodes are all owned, or a return. *)
Definition all_owned_around r (n : REF_NODE D) (node : Z) : option (ctl unit (REF_STATUS * bool)) :=
  each_ref_cell_having_node r node (fun cell (_ : unit) =>
    forx_up 0 (ref_cell_node_per r) (fun i (_ : unit) =>
      let* v := ref_cell_c2n r i cell in
      let* owned := ref_node_owned n v in
      if owned : bool then Some (Next tt) else Some (Exit (REF_SUCCESS, false))) tt) tt.
Definition and_then (c : option (ctl unit (REF_STATUS * bool))) (k : option (REF_STATUS * bool))
    : option (REF_STATUS * bool) :=
  let* c := c in
  match c with
  | Next _ => k
  | Exit x => Some x
  end.
Definition ref_collapse_edge_local_cell g (node0 node1 : Z) : option (REF_STATUS * bool) :=
  and_then (all_owned_around (ref_grid_tet g) (grid_node g) node1) (
  and_then (all_owned_around (ref_grid_tet g) (grid_node g) node0) (
  and_then (all_owned_around (ref_grid_tri g) (grid_node g) node1) (
  and_then (all_owned_around (ref_grid_tri g) (grid_node g) node0) (Some (REF_SUCCESS, true))))).

(** The [break] of the loop leaves with [false], as a return would. *)
Definition ref_collapse_edge_cad_constrained g (node0 node1 : Z) : option (REF_STATUS * bool) :=
  let ref_cell := ref_grid_tri g in
  let* c :=
    each_ref_cell_having_node ref_cell node1 (fun cell nodes =>
      let* '(st, nodes) := ref_cell_nodes ref_cell cell nodes in
      RSS_exit st true (
      let* will_be_collapsed := has_entry ref_cell node0 nodes in
      if will_be_collapsed : bool then Some (Next nodes)
      else
        let* nodes := rename_nodes ref_cell node1 node0 nodes in
        let* n0 := aget nodes 0 in
        let* '(st, edge0) := ref_geom_is_a (grid_geom g) n0 REF_GEOM_EDGE in
        RSS_exit st true (
        let* n1 := aget nodes 1 in
        let* '(st, edge1) := ref_geom_is_a (grid_geom g) n1 REF_GEOM_EDGE in
        RSS_exit st true (
        let* n2 := aget nodes 2 in
        let* '(st, edge2) := ref_geom_is_a (grid_geom g) n2 REF_GEOM_EDGE in
        RSS_exit st true (
        if edge0 && edge1 && edge2 then Some (Exit (REF_SUCCESS, false)) else Some (Next nodes))))))
      (alloc REF_CELL_MAX_SIZE_PER) in
  Some (after_loop c (fun _ => (REF_SUCCESS, true))).
End ops.

(** ** The elements *)

Section cells.
Context `{Junk Z, Junk REF_ADJ_ITEM} (type : REF_CELL_TYPE).
Notation tables := (snd (ref_cell_initialize type)).
Implicit Types (r : REF_CELL) (m : gmap Z (list Z)) (e : list Z).

(** The elements without both nodes, renamed. *)
Definition collapsed (node0 node1 : Z) m : gmap Z (list Z) :=
  renamed tables node1 node0 <$> filter (fun x => ~ with_both type node0 node1 x.2) m.

Lemma sim_remove_listed k r m cells l (Q : unit -> REF_CELL -> Prop) E :
  cell_sim type k r m -> ztake (zlen l) cells = l -> zlen l <= zlen cells -> NoDup l ->
  (forall cell, cell ∈ l -> is_Some (m !! cell)) ->
  (forall r', cell_sim type k r' (filter (fun x => x.1 ∉ l) m) -> Q tt r') ->
  fwp (count 0 (zlen l) (fun i =>
    let! cell := use (aget cells i) in call (fun r => ref_cell_remove r cell))) Q E r.
Proof.
  intros Hsim Htake Hz Hnd Hin HQ. pose proof (zlen_nonneg l).
  apply fwp_count with (P := fun i r' => cell_sim type k r' (filter (fun x => x.1 ∉ ztake i l) m)); [lia| | |].
  - change (ztake 0 l) with (@nil Z). rewrite map_filter_id; [done|]. intros ? ? _. apply not_elem_of_nil.
  - intros i r' Hi Hsim'. apply fwp_bind, fwp_use, wp_aget; [lia|].
    assert (Hci : cells.[i] = l.[i]) by (rewrite <- Htake, aat_ztake; done || lia). rewrite Hci.
    destruct (Hin l.[i]) as [e He]; [apply elem_of_aat; exists i; split; [lia|done]|].
    apply fwp_call. eapply wp_mono; [by eapply sim_remove|]. intros [st r2].
    rewrite (proj2 (map_lookup_filter_Some _ m l.[i] e)).
    + intros [-> Hsim2]. rewrite decide_True by done. rewrite ztake_S by lia. rewrite <- map_filter_delete in Hsim2.
      eapply eq_ind; [exact Hsim2|]. f_equal. apply map_eq. intros c. apply option_eq. intros e'.
      rewrite !map_lookup_filter_Some, lookup_delete_Some. cbn. rewrite not_elem_of_app, list_elem_of_singleton. naive_solver.
    + split; [done|]. cbn. assert (Hd : NoDup (ztake (i + 1) l)) by (eapply sublist_NoDup; [exact Hnd|apply sublist_take]).
      rewrite ztake_S, NoDup_app in Hd by lia. destruct Hd as (_ & Hd & _). intros Hc. apply (Hd _ Hc). set_solver.
  - intros r' Hsim'. rewrite ztake_full in Hsim'. by apply HQ.
Qed.

Lemma collapse_cells_ok k r m (node0 node1 : Z) :
  cell_sim type (k + 1) r m -> 0 <= k -> proper type m -> 0 <= node0 <= NODE_LIMIT ->
  wp (collapse_cells node0 node1 r) (fun '(st, r') =>
    if zlen (cells_with2 r node0 node1) <=? MAX_CELL_COLLAPSE then
      st = REF_SUCCESS /\ cell_sim type k r' (collapsed node0 node1 m)
    else st = REF_INCREASE_LIMIT /\ r' = r).
Proof.
  intros Hsim Hk Hp Hlim. apply wp_body, fwp_bind, fwp_state, fwp_bind, fwp_ask.
  eapply wp_mono; [by eapply sim_list_with2|]. intros [st [ncell cells]] (l & Hnd & Hl & Hleq & Hpost).
  rewrite <- Hleq in *. destruct (Z.leb_spec (zlen l) MAX_CELL_COLLAPSE) as [Hle|Hle]; [|by subst].
  destruct Hpost as (-> & -> & Htake & Hz). rewrite decide_True by done.
  apply fwp_bind, (sim_remove_listed (k + 1) _ m _ l); [done..| |].
  - intros cell (e & He & _)%Hl. by exists e.
  - intros r1 Hsim1. apply fwp_call. eapply wp_mono; [by eapply sim_replace_node|].
    intros [st r2] [-> Hsim2]. rewrite decide_True by done. split; [done|]. unfold collapsed.
    eapply eq_ind; [exact Hsim2|]. do 2 f_equal. apply map_filter_ext. intros cell e He. cbn. rewrite Hl. split.
    + intros Hn Hb. apply Hn. by exists e.
    + intros Hn (e' & He' & Hb). congruence.
Qed.
End cells.

(** ** What collapsed elements bound *)

Section merged.
Context (phi : Z -> Z -> Z -> Z) (node0 node1 : Z).

(** A face counts as the one its nodes become. *)
Definition merged (a b c : Z) : Z := phi (rename node1 node0 a) (rename node1 node0 b) (rename node1 node0 c).

Lemma merged_alternating : alternating phi -> alternating merged.
Proof. intros Ha. constructor; intros a b c; unfold merged; [apply (alt_rotate _ Ha)|apply (alt_swap _ Ha)]. Qed.
Lemma merged_end v : v = node0 \/ v = node1 -> rename node1 node0 v = node0.
Proof. intros [->| ->]; unfold rename; [by destruct (Z.eqb_spec node0 node1)|by rewrite Z.eqb_refl]. Qed.
End merged.

Lemma around_renamed phi node0 node1 e : zlen e = 4 ->
  around_tet phi (renamed (snd (ref_cell_initialize REF_CELL_TET)) node1 node0 e) = around_tet (merged phi node0 node1) e.
Proof.
  intros Hl. destruct e as [|a [|b [|c [|d [|? l]]]]]; rewrite ?zlen_cons, ?zlen_nil in Hl;
    [lia|lia|lia|lia| |pose proof (zlen_nonneg l); lia]. by rewrite renamed_tet.
Qed.
Lemma on_renamed phi node0 node1 e : zlen e = 4 ->
  on_tri phi (renamed (snd (ref_cell_initialize REF_CELL_TRI)) node1 node0 e) = on_tri (merged phi node0 node1) e.
Proof.
  intros Hl. destruct e as [|a [|b [|c [|d [|? l]]]]]; rewrite ?zlen_cons, ?zlen_nil in Hl;
    [lia|lia|lia|lia| |pose proof (zlen_nonneg l); lia]. by rewrite renamed_tri.
Qed.

Lemma collapsed_tet phi node0 node1 e : alternating phi -> node0 <> node1 ->
  zlen e = 4 -> with_both REF_CELL_TET node0 node1 e -> around_tet (merged phi node0 node1) e = 0.
Proof.
  intros Ha Hne Hl Hb. destruct e as [|a [|b [|c [|d [|? l]]]]]; rewrite ?zlen_cons, ?zlen_nil in Hl;
    [lia|lia|lia|lia| |pose proof (zlen_nonneg l); lia]. clear Hl.
  change (with_both _ _ _ _) with (node0 ∈ [a; b; c; d] /\ node1 ∈ [a; b; c; d]) in Hb.
  unfold around_tet. rewrite tet_faces_eq, !sum_over_cons, !sum_over_nil. cbn [on_face]. unfold merged.
  pose proof (merged_end node0 node1) as He. set (f := rename node1 node0) in *.
  assert (Hcase : f a = f b \/ f a = f c \/ f a = f d \/ f b = f c \/ f b = f d \/ f c = f d).
  { destruct Hb as [H0 H1]. rewrite !elem_of_cons in H0, H1. pose proof (not_elem_of_nil node0). pose proof (not_elem_of_nil node1).
    destruct H0 as [H0|[H0|[H0|[H0|H0]]]]; [..|done]; destruct H1 as [H1|[H1|[H1|[H1|H1]]]]; try done; try congruence;
      repeat first [left; rewrite !He by (rewrite H0, H1; auto; fail); reflexivity | right];
      rewrite !He by auto; reflexivity. }
  clearbody f. clear He Hb.
  destruct Hcase as [Hc|[Hc|[Hc|[Hc|[Hc|Hc]]]]]; rewrite Hc, ?(alt_01 _ Ha), ?(alt_12 _ Ha), ?(alt_02 _ Ha);
    match goal with |- context [phi ?p ?q ?r] => first
      [ match goal with |- context [phi p r q] => rewrite (alt_swap_12 phi Ha p q r) end
      | match goal with |- context [phi q p r] => rewrite (alt_swap phi Ha p q r) end
      | match goal with |- context [phi r q p] => rewrite (alt_reverse phi Ha p q r) end ] end; lia.
Qed.

Lemma collapsed_tri phi node0 node1 e : alternating phi -> node0 <> node1 ->
  zlen e = 4 -> with_both REF_CELL_TRI node0 node1 e -> on_tri (merged phi node0 node1) e = 0.
Proof.
  intros Ha Hne Hl Hb. destruct e as [|a [|b [|c [|d [|? l]]]]]; rewrite ?zlen_cons, ?zlen_nil in Hl;
    [lia|lia|lia|lia| |pose proof (zlen_nonneg l); lia]. clear Hl.
  change (with_both _ _ _ _) with (node0 ∈ [a; b; c] /\ node1 ∈ [a; b; c]) in Hb.
  change (on_tri ?f [a; b; c; d]) with (f a b c). unfold merged.
  pose proof (merged_end node0 node1) as He. set (f := rename node1 node0) in *.
  assert (Hcase : f a = f b \/ f a = f c \/ f b = f c).
  { destruct Hb as [H0 H1]. rewrite !elem_of_cons in H0, H1. pose proof (not_elem_of_nil node0). pose proof (not_elem_of_nil node1).
    destruct H0 as [H0|[H0|[H0|H0]]]; [..|done]; destruct H1 as [H1|[H1|[H1|H1]]]; try done; try congruence;
      repeat first [left; rewrite !He by (rewrite H0, H1; auto; fail); reflexivity | right];
      rewrite !He by auto; reflexivity. }
  destruct Hcase as [Hc|[Hc|Hc]]; rewrite Hc; [apply (alt_01 _ Ha)|apply (alt_02 _ Ha)|apply (alt_12 _ Ha)].
Qed.

(** Sums over what is left. *)
Lemma map_sum_filter (F : list Z -> Z) (P : Z * list Z -> Prop) `{!forall x, Decision (P x)} (m : gmap Z (list Z)) :
  (forall k e, m !! k = Some e -> ~ P (k, e) -> F e = 0) -> map_sum F (filter P m) = map_sum F m.
Proof.
  induction m as [|k e m Hk IH] using map_ind; intros Hz; [by rewrite map_filter_empty|].
  assert (IH' : map_sum F (filter P m) = map_sum F m).
  { apply IH. intros k' e' He'. apply Hz. rewrite lookup_insert_ne; [done|congruence]. }
  rewrite map_sum_insert by done. destruct (decide (P (k, e))) as [HP|HP].
  - rewrite map_filter_insert_True, map_sum_insert, IH' by (rewrite ?map_lookup_filter_None; auto). done.
  - rewrite map_filter_insert_False, delete_id, IH' by done. rewrite (Hz k e); [lia|apply lookup_insert_eq|done].
Qed.

Section grid.
Context {D : Type} `{Dbl D, Junk Z, Junk REF_ADJ_ITEM, Junk D}.
Implicit Types (g : REF_GRID D).

(** The elements have different nodes, and those with the edge fit into the list. *)
Definition collapsible node0 node1 g : Prop := forall type, type ∈ simplex_types ->
  proper type (cell_map (grid_cell g type)) /\ zlen (cells_with2 (grid_cell g type) node0 node1) <= MAX_CELL_COLLAPSE.

Lemma all_collapsible node0 node1 g :
  (proper REF_CELL_TET (cell_map (ref_grid_tet g)) /\ zlen (cells_with2 (ref_grid_tet g) node0 node1) <= MAX_CELL_COLLAPSE) ->
  (proper REF_CELL_TRI (cell_map (ref_grid_tri g)) /\ zlen (cells_with2 (ref_grid_tri g) node0 node1) <= MAX_CELL_COLLAPSE) ->
  (proper REF_CELL_EDG (cell_map (ref_grid_edg g)) /\ zlen (cells_with2 (ref_grid_edg g) node0 node1) <= MAX_CELL_COLLAPSE) ->
  collapsible node0 node1 g.
Proof. intros Ht Hr He. by refine (all_simplex _ _ _ _). Qed.

Lemma collapse_type_ok type k g m node0 node1 (Q : unit -> REF_GRID D -> Prop) E :
  cell_sim type (k + 1) (grid_cell g type) m -> 0 <= k -> proper type m ->
  zlen (cells_with2 (grid_cell g type) node0 node1) <= MAX_CELL_COLLAPSE -> 0 <= node0 <= NODE_LIMIT ->
  (forall r, cell_sim type k r (collapsed type node0 node1 m) -> Q tt (set_grid_cell type r g)) ->
  fwp (on_cell type (collapse_cells node0 node1)) Q E g.
Proof.
  intros Hsim Hk Hp Hfew Hlim HQ. apply on_cell_ok.
  eapply wp_mono; [by apply (collapse_cells_ok type k _ m)|]. intros [st r].
  rewrite (proj2 (Z.leb_le _ _) Hfew). intros [-> Hsim']. split; [done|]. by apply HQ.
Qed.

Lemma node_removed k (n : REF_NODE D) v :
  node_ready (k + 1) n -> 0 <= k -> v ∈ valid_nodes n ->
  wp (ref_node_remove n v) (fun '(st, n') => st = REF_SUCCESS /\ node_ready k n' /\
    node_map n' = delete (node_global n).[v] (node_map n)).
Proof.
  intros Hn Hk Hv. destruct (node_ready_remove k n v Hn Hk Hv) as ([st n'] & He & -> & Hn').
  exists (REF_SUCCESS, n'). split; [done|]. split; [done|]. split; [done|].
  destruct Hn as (Hwf & Hr & Hmu & Hnu). pose proof Hwf as [[bl Hc] _].
  assert (node_n n <= node_max n).
  { rewrite (nc_n _ _ Hc). unfold valid_nodes. etransitivity; [|apply Z.eq_le_incl, (zlen_zrange (node_max n))].
    - unfold zlen. apply inj_le, length_filter.
    - pose proof (nc_max _ _ Hc). lia. }
  unfold REF_NODE_REAL_PER, REF_INT_MAX in *.
  destruct (ref_node_remove_ok n v Hwf) as ([st2 n2] & He2 & Hpost); [unfold REF_INT_MAX; lia|unfold REF_INT_MAX; lia|].
  rewrite He in He2. injection He2 as <- <-. rewrite bool_decide_eq_true_2 in Hpost by done. by destruct Hpost as (_ & _ & ? & _).
Qed.

Lemma ref_collapse_edge_ok kn g node0 node1 :
  (forall type, type ∈ simplex_types -> cell_sim type 1 (grid_cell g type) (cell_map (grid_cell g type))) ->
  collapsible node0 node1 g -> node_ready (kn + 1) (grid_node g) -> 0 <= kn -> (exists bl, geom_wf (grid_geom g) bl) ->
  node1 ∈ valid_nodes (grid_node g) -> 0 <= node0 <= NODE_LIMIT ->
  wp (ref_collapse_edge node0 node1 g) (fun '(st, g') => st = REF_SUCCESS /\
    (forall type, type ∈ simplex_types ->
       cell_map (grid_cell g' type) = collapsed type node0 node1 (cell_map (grid_cell g type))) /\
    node_map (grid_node g') = delete (node_global (grid_node g)).[node1] (node_map (grid_node g)) /\
    grid_ok 0 0 0 kn g' (cell_map (ref_grid_tet g')) (cell_map (ref_grid_tri g'))).
Proof.
  intros Hs Hc Hn Hk [bl Hgeom] Hv Hlim. assert (Ht : REF_CELL_TET ∈ simplex_types) by by left.
  assert (Hr : REF_CELL_TRI ∈ simplex_types) by (right; by left). assert (He : REF_CELL_EDG ∈ simplex_types) by (right; right; by left).
  apply wp_body. apply fwp_bind, (collapse_type_ok REF_CELL_TET 0 _ _ _ _ _ _ (Hs _ Ht)); [done|by apply Hc|by apply Hc|done|].
  intros r1 Hr1. apply fwp_bind, (collapse_type_ok REF_CELL_TRI 0 _ (cell_map (grid_cell g REF_CELL_TRI)));
    [exact (Hs _ Hr)|done|by apply Hc|by apply (Hc _ Hr)|done|].
  intros r2 Hr2. apply fwp_bind, (collapse_type_ok REF_CELL_EDG 0 _ (cell_map (grid_cell g REF_CELL_EDG)));
    [exact (Hs _ He)|done|by apply Hc|by apply (Hc _ He)|done|].
  intros r3 Hr3. pose proof Hr1 as (_ & _ & E1%represents_unique & _). pose proof Hr2 as (_ & _ & E2%represents_unique & _).
  pose proof Hr3 as (_ & _ & E3%represents_unique & _).
  apply fwp_bind, fwp_call, wp_bind. eapply wp_mono; [by apply node_removed|]. intros [st n] (-> & Hn' & Hmap).
  apply wp_ret. rewrite decide_True by done. apply fwp_call, wp_bind.
  eapply wp_mono; [apply (ref_geom_remove_all_ok _ bl); exact Hgeom|]. intros [st geom] (-> & [bl' Hgeom'] & _).
  apply wp_ret. rewrite decide_True by done. split; [done|]. split; [|split; [exact Hmap|]].
  - refine (all_simplex _ _ _ _); by symmetry.
  - constructor; [by rewrite E1 in Hr1|by rewrite E2 in Hr2|by exists (cell_map r3); rewrite E3 in Hr3|exact Hn'|by exists bl'].
Qed.
End grid.

Lemma collapsed_sum type (F G : list Z -> Z) (node0 node1 : Z) (m : gmap Z (list Z)) :
  (forall e, zlen e = size_per (snd (ref_cell_initialize type)) -> F (renamed (snd (ref_cell_initialize type)) node1 node0 e) = G e) ->
  (forall e, zlen e = size_per (snd (ref_cell_initialize type)) -> with_both type node0 node1 e -> G e = 0) ->
  (forall e, (exists cell, m !! cell = Some e) -> zlen e = size_per (snd (ref_cell_initialize type))) ->
  map_sum F (collapsed type node0 node1 m) = map_sum G m.
Proof.
  intros HF HG Hl. unfold collapsed. rewrite map_sum_fmap. rewrite (map_sum_ext _ G).
  - apply map_sum_filter. intros k e He Hn. cbn in Hn. apply HG; [eauto|]. by destruct (decide (with_both type node0 node1 e)).
  - intros k e [He _]%map_lookup_filter_Some. eauto.
Qed.

(** The elements of a mesh in order. *)
Lemma mesh_simplices {D : Type} (g : REF_GRID D) : mesh_ok g ->
  forall type, type ∈ simplex_types -> cell_sim type 1 (grid_cell g type) (cell_map (grid_cell g type)).
Proof.
  intros [[Ht Hr (edgs & He) _ _] _ _ _ _]. pose proof He as (_ & _ & Hrep%represents_unique & _). rewrite Hrep in He.
  refine (all_simplex _ _ _ _); [by eapply cell_sim_mono; [|exact Ht]|by eapply cell_sim_mono; [|exact Hr]|by eapply cell_sim_mono; [|exact He]].
Qed.

Lemma collapse_mesh {D : Type} `{Dbl D, Junk Z, Junk REF_ADJ_ITEM, Junk D} (g : REF_GRID D) (node0 node1 : Z) :
  mesh_ok g -> node0 ∈ valid_nodes (grid_node g) -> node1 ∈ valid_nodes (grid_node g) -> collapsible node0 node1 g ->
  exists g', ref_collapse_edge node0 node1 g = Some (REF_SUCCESS, g') /\
    grid_ok 0 0 0 0 g' (cell_map (ref_grid_tet g')) (cell_map (ref_grid_tri g')) /\
    (forall type, type ∈ simplex_types ->
       cell_map (grid_cell g' type) = collapsed type node0 node1 (cell_map (grid_cell g type))) /\
    node_map (grid_node g') = delete (node_global (grid_node g)).[node1] (node_map (grid_node g)).
Proof.
  intros Hg H0' H1' Hc. destruct (mo_grid _ Hg) as [_ _ _ Hn Hgeom]. destruct (node_ready_range _ _ _ Hn H0') as [Hlim _].
  destruct (ref_collapse_edge_ok 0 g node0 node1) as ([st g'] & Heq & -> & Hmaps & Hmap & Hok); try done.
  - by apply mesh_simplices.
  - eapply node_ready_mono; [|exact Hn]. done.
  - by exists g'.
Qed.

(** C31. Collapsing an edge keeps the mesh conforming: [ref_collapse_edge] succeeds,
    removes the elements with both ends, renames [node1] in all others, takes
    [node1] out of the vertices, and the triangles bound the tetrahedra again. *)
Theorem ref_collapse_edge_conforms {D : Type} `{Dbl D, Junk Z, Junk REF_ADJ_ITEM, Junk D}
    (g : REF_GRID D) (node0 node1 : Z) :
  mesh_ok g -> node0 <> node1 -> node0 ∈ valid_nodes (grid_node g) -> node1 ∈ valid_nodes (grid_node g) ->
  collapsible node0 node1 g ->
  exists g', ref_collapse_edge node0 node1 g = Some (REF_SUCCESS, g') /\
    grid_ok 0 0 0 0 g' (cell_map (ref_grid_tet g')) (cell_map (ref_grid_tri g')) /\
    (forall type, type ∈ simplex_types ->
       cell_map (grid_cell g' type) = collapsed type node0 node1 (cell_map (grid_cell g type))) /\
    node_map (grid_node g') = delete (node_global (grid_node g)).[node1] (node_map (grid_node g)) /\
    conforming g'.
Proof.
  intros Hg Hne H0' H1' Hc. pose proof (mesh_simplices g Hg) as Hs.
  destruct (collapse_mesh g node0 node1 Hg H0' H1' Hc) as (g' & Heq & Hok & Hmaps & Hmap).
  exists g'. do 4 (split; [done|]). intros phi Ha. unfold grid_boundary, mesh_boundary.
  assert (Htet : REF_CELL_TET ∈ simplex_types) by by left. assert (Htri : REF_CELL_TRI ∈ simplex_types) by (right; by left).
  pose proof (Hmaps _ Htet) as E1. pose proof (Hmaps _ Htri) as E2.
  change (grid_cell g' REF_CELL_TET) with (ref_grid_tet g') in E1. change (grid_cell g' REF_CELL_TRI) with (ref_grid_tri g') in E2.
  rewrite E1, E2, <- (mo_conforming _ Hg (merged phi node0 node1) (merged_alternating _ _ _ Ha)).
  unfold grid_boundary, mesh_boundary. f_equal.
  - apply collapsed_sum; intros e He'; [by apply around_renamed|by apply collapsed_tet|].
    destruct He' as [cell He']. by destruct (sim_limits _ _ _ _ _ _ (Hs _ Htet) He').
  - apply collapsed_sum; intros e He'; [by apply on_renamed|by apply collapsed_tri|].
    destruct He' as [cell He']. by destruct (sim_limits _ _ _ _ _ _ (Hs _ Htri) He').
Qed.

(** ** Example

    The edge from 4 to 5 of the octahedron of RefCavitySwap.v is collapsed. *)
Module CollapseExample.
#[local] Existing Instances NodeExample.double NodeExample.junk_double NodeExample.junk_int ReplaceExample.junk_item.
Notation grid := SwapExample.grid.

Lemma edge_collapsible : collapsible 4 5 grid.
Proof.
  destruct SplitExample.axis_tets as [_ Ht _ _]. destruct SplitExample.axis_tris as [_ Hr _ _].
  destruct SplitExample.axis_edgs as [_ He _ _].
  apply all_collapsible; split; [exact Ht| |exact Hr| |exact He|]; vm_compute; congruence.
Qed.
Lemma ends_valid : Forall (fun v => v ∈ valid_nodes (grid_node grid)) [4; 5].
Proof. rewrite SwapExample.six_valid. apply (bool_decide_unpack _). vm_compute. exact I. Qed.
End CollapseExample.
#[local] Existing Instances NodeExample.double NodeExample.junk_double NodeExample.junk_int ReplaceExample.junk_item.

Lemma ref_collapse_edge_conforms_witness :
  let g := SwapExample.grid in
  (mesh_ok g /\ collapsible 4 5 g) /\
  (let* '(st, g') := ref_collapse_edge 4 5 g in Some (st, cell_n (ref_grid_tet g'), cell_n (ref_grid_tri g'))) =
    Some (REF_SUCCESS, 2, 6) /\
  exists g', ref_collapse_edge 4 5 g = Some (REF_SUCCESS, g') /\
    grid_ok 0 0 0 0 g' (cell_map (ref_grid_tet g')) (cell_map (ref_grid_tri g')) /\
    (forall type, type ∈ simplex_types ->
       cell_map (grid_cell g' type) = collapsed type 4 5 (cell_map (grid_cell g type))) /\
    node_map (grid_node g') = delete (node_global (grid_node g)).[5] (node_map (grid_node g)) /\
    conforming g'.
Proof.
  split; [split; [exact SwapExample.axis_mesh_ok|exact CollapseExample.edge_collapsible]|].
  split; [vm_compute; reflexivity|].
  pose proof CollapseExample.ends_valid as Hv. rewrite !Forall_cons in Hv. destruct Hv as (H4 & H5 & _).
  apply (ref_collapse_edge_conforms SwapExample.grid 4 5);
    [exact SwapExample.axis_mesh_ok|lia|exact H4|exact H5|exact CollapseExample.edge_collapsible].
Defined.

(** ** Two elements with the same nodes *)

Section same.
Context (type : REF_CELL_TYPE).
Notation tables := (snd (ref_cell_initialize type)).
Implicit Types (m : gmap Z (list Z)) (e : list Z).

Definition same_set (e e' : list Z) : Prop := forall v, v ∈ nodes_of tables e <-> v ∈ nodes_of tables e'.
(** No two elements have the same nodes. *)
Definition distinct m : Prop := forall c c' e e', m !! c = Some e -> m !! c' = Some e' -> same_set e e' -> c = c'.
(** No element that will be renamed gets the nodes of another. *)
Definition meets_none (node0 node1 : Z) m : Prop := forall c e, m !! c = Some e ->
  node1 ∈ nodes_of tables e -> node0 ∉ nodes_of tables e ->
  forall c' e', m !! c' = Some e' -> ~ same_set e' (renamed tables node1 node0 e).

Lemma nodes_of_renamed old new e :
  node_per tables <= zlen e -> nodes_of tables (renamed tables old new e) = map (rename old new) (nodes_of tables e).
Proof.
  intros Hl. unfold nodes_of, renamed, replace_upto. assert (0 <= node_per tables) by by destruct type.
  assert (Hz : zlen (map (rename old new) (ztake (node_per tables) e)) = node_per tables)
    by (rewrite zlen_map, zlen_ztake; lia).
  unfold ztake at 1. rewrite take_app_length'; [done|]. unfold zlen in Hz. lia.
Qed.

Lemma collapsed_distinct node0 node1 m :
  (forall c e, m !! c = Some e -> node_per tables <= zlen e) -> node0 <> node1 ->
  distinct m -> meets_none node0 node1 m -> distinct (collapsed type node0 node1 m).
Proof.
  intros Hl Hne Hd Hm c c' f f'. unfold collapsed. rewrite !lookup_fmap_Some.
  intros (e & <- & [He Hb]%map_lookup_filter_Some) (e' & <- & [He' Hb']%map_lookup_filter_Some) Hs. cbn in Hb, Hb'.
  pose proof (Hl _ _ He) as Hle. pose proof (Hl _ _ He') as Hle'.
  assert (Hper : 0 <= node_per tables) by by destruct type.
  assert (Hsame : forall e, node_per tables <= zlen e -> node1 ∉ nodes_of tables e -> renamed tables node1 node0 e = e).
  { intros. unfold renamed. apply rename_all; [done|lia]. }
  destruct (decide (node1 ∈ nodes_of tables e)) as [Hi|Hi], (decide (node1 ∈ nodes_of tables e')) as [Hi'|Hi'].
  - assert (Hn : node0 ∉ nodes_of tables e) by (intros ?; by apply Hb). assert (Hn' : node0 ∉ nodes_of tables e') by (intros ?; by apply Hb').
    apply (Hd c c' e e' He He'). intros v. specialize (Hs (rename node1 node0 v)).
    rewrite !nodes_of_renamed in Hs by done. rewrite !list_elem_of_fmap in Hs.
    assert (Hinj : forall x y, x <> node0 -> y <> node0 -> rename node1 node0 x = rename node1 node0 y -> x = y).
    { intros x y. unfold rename. destruct (Z.eqb_spec x node1), (Z.eqb_spec y node1); congruence. }
    split; intros Hv.
    + destruct (proj1 Hs (ex_intro _ v (conj eq_refl Hv))) as (y & Hy & Hin).
      apply Hinj in Hy; [by subst|congruence|congruence].
    + destruct (proj2 Hs (ex_intro _ v (conj eq_refl Hv))) as (y & Hy & Hin).
      apply Hinj in Hy; [by subst|congruence|congruence].
  - exfalso. rewrite (Hsame e') in Hs by done. apply (Hm c e He Hi) with c' e'; [intros ?; by apply Hb|done|].
    intros v. symmetry. apply Hs.
  - exfalso. rewrite (Hsame e) in Hs by done. apply (Hm c' e' He' Hi') with c e; [intros ?; by apply Hb'|done|].
    intros v. apply Hs.
  - rewrite !Hsame in Hs by done. by apply (Hd c c' e e').
Qed.
End same.

(** ** [ref_collapse_edge_manifold] *)

Section manifold.
Context `{Junk Z, Junk REF_ADJ_ITEM} (type : REF_CELL_TYPE).
Notation tables := (snd (ref_cell_initialize type)).
Context (r : REF_CELL) (bl : list Z) (Hwf : cell_wf r bl) (Htb : cell_tables r = tables).
Context (Hmax : size_per tables <= REF_CELL_MAX_SIZE_PER).

(** What the loops keep: the array is long enough for an element. *)
Definition keeps (nodes : list Z) : Prop := zlen nodes = REF_CELL_MAX_SIZE_PER.
(** A stage goes on with the array or leaves without allowing. *)
Definition stage (P : Prop) (c : ctl (list Z) (REF_STATUS * bool)) : Prop :=
  match c with
  | Next nodes => keeps nodes /\ P
  | Exit (_, allowed) => allowed = false
  end.

Lemma per_size : 0 <= node_per tables <= size_per tables.
Proof. by destruct type. Qed.

Lemma having_nodes cell node nodes : cell ∈ adj_refs (cell_adj r) node -> keeps nodes ->
  wp (ref_cell_nodes r cell nodes) (fun '(st, nodes') => exists e, cell_at r cell = Some e /\ st = REF_SUCCESS /\
    keeps nodes' /\ node ∈ nodes_of tables e /\ nodes_of tables nodes' = nodes_of tables e).
Proof using Hwf Htb Hmax.
  intros Hin Hk. destruct (having_cell r bl Hwf _ _ Hin) as (e & He & _ & Hnode). pose proof per_size.
  eapply wp_mono; [apply (ref_cell_nodes_ok r bl cell nodes Hwf); rewrite Htb; unfold keeps in Hk; lia|].
  intros [st nodes']. rewrite He. intros (-> & Hz & <-). eexists. split; [done|]. split; [done|]. rewrite Htb in *.
  split; [unfold keeps in *; lia|]. split; [done|]. unfold nodes_of, ztake. rewrite take_take. f_equal. lia.
Qed.

Lemma has_entry_ok node nodes : keeps nodes ->
  has_entry r node nodes = Some (bool_decide (node ∈ nodes_of tables nodes)).
Proof using Htb Hmax.
  clear Hwf. intros Hk. pose proof per_size. unfold keeps in Hk. apply wp_eq. unfold has_entry, ref_cell_node_per. rewrite Htb.
  apply (wp_for_up (fun i found => found = bool_decide (node ∈ ztake i nodes))); [lia|done| |by intros b ->].
  intros i found Hi ->. apply wp_bind, wp_aget; [lia|]. apply wp_ret. rewrite ztake_S by lia.
  case Z.eqb_spec; intros He; [rewrite bool_decide_eq_true_2; [done|set_solver]|].
  apply bool_decide_ext. set_solver.
Qed.

Lemma collapse_meets_ok node0 node1 nodes m :
  represents r m -> keeps nodes ->
  wp (collapse_meets r node0 node1 nodes) (stage (meets_none type node0 node1 m)).
Proof using Hwf Htb Hmax.
  intros Hrep Hk. unfold collapse_meets. rewrite (RefCellQuery.having_node r bl Hwf). pose proof per_size.
  apply (wp_forl (fun pre nodes => keeps nodes /\ forall c e, c ∈ pre -> m !! c = Some e -> node0 ∉ nodes_of tables e ->
      forall c' e', m !! c' = Some e' -> ~ same_set type e' (renamed tables node1 node0 e))
    (fun '(_, allowed) => allowed = false)); [|..|by intros [st b]].
  - split; [done|]. intros c e Hc. by apply not_elem_of_nil in Hc.
  - intros pre cell post nodes' Hl [Hk' Hpre]. assert (Hin : cell ∈ adj_refs (cell_adj r) node1) by (rewrite Hl; set_solver).
    apply wp_bind. eapply wp_mono; [by apply (having_nodes cell node1 nodes')|].
    intros [st nodes2] (e & He & -> & Hk2 & Hnode & Hsame). cbn [RSS_exit]. rewrite has_entry_ok by done. cbn [obind].
    rewrite Hsame. rewrite <- Hrep in He. case_bool_decide as Hcol.
    + apply wp_ret. split; [done|]. intros c f [Hc| ->%list_elem_of_singleton]%elem_of_app Hf Hn; [by apply Hpre with c|].
      congruence.
    + unfold keeps in Hk2. apply wp_bind, (rename_nodes_ok type); [done|lia|].
      set (nodes3 := renamed tables node1 node0 nodes2).
      assert (Hk3 : keeps nodes3) by (unfold keeps, nodes3, renamed; rewrite zlen_replace_upto; lia).
      assert (Hn3 : nodes_of tables nodes3 = nodes_of tables (renamed tables node1 node0 e)).
      { unfold nodes3. rewrite !nodes_of_renamed, Hsame; [done| |lia]. rewrite Hrep in He.
        rewrite (zlen_entries _ _ _ _ Hwf He), Htb. lia. }
      apply wp_bind. eapply wp_mono; [apply (ref_cell_with_ok r bl Hwf); unfold ref_cell_node_per; rewrite Htb; unfold keeps in Hk3; lia|].
      intros [st new_cell] [(-> & e' & He' & _)|(-> & -> & Hnone)].
      * apply cell_at_Some in He' as (Hc & _). rewrite bool_decide_eq_true_2 by auto.
        replace (REF_EMPTY =? new_cell) with false by (unfold REF_EMPTY; lia). by apply wp_ret.
      * rewrite bool_decide_eq_true_2 by auto. apply wp_ret. split; [done|].
        intros c f [Hc| ->%list_elem_of_singleton]%elem_of_app Hf Hn; [by apply Hpre with c|].
        intros c' e' He' Hs. assert (f = e) as -> by congruence. rewrite Hrep in He'.
        apply (Hnone c' e' He'). intros v. rewrite Htb, Hn3. apply Hs.
  - intros nodes' [Hk' Hall]. split; [done|]. intros c e He Hn1 Hn0. apply (Hall c e); [|done|done].
    apply (elem_of_adj_refs _ _ _ _ Hwf). rewrite <- Hrep. exists e. by rewrite Htb.
Qed.

(** The nodes of the triangles to be collapsed; the list never overflows. *)
Lemma collapse_safe_list_ok node0 node1 nodes :
  keeps nodes ->
  wp (collapse_safe_list r node0 node1 nodes) (fun c =>
    match c with
    | Next (nsafe, safe_list, nodes) => 0 <= nsafe <= 4 /\ zlen safe_list = 4 /\ keeps nodes
    | Exit (_, allowed) => allowed = false
    end).
Proof using Hwf Htb Hmax.
  intros Hk. unfold collapse_safe_list. rewrite (RefCellQuery.having_node r bl Hwf). pose proof per_size.
  apply (wp_forl (fun _ '(nsafe, safe_list, nodes) => 0 <= nsafe <= 4 /\ zlen safe_list = 4 /\ keeps nodes)
    (fun '(_, allowed) => allowed = false)); [by split|..|by intros [[n s] l]|by intros [st b]].
  intros pre cell post [[nsafe safe] nodes'] Hl (Hn & Hz & Hk').
  assert (Hin : cell ∈ adj_refs (cell_adj r) node1) by (rewrite Hl; set_solver).
  apply wp_bind. eapply wp_mono; [by apply (having_nodes cell node1 nodes')|].
  intros [st nodes2] (e & He & -> & Hk2 & _). cbn [RSS_exit]. rewrite has_entry_ok by done. cbn [obind].
  case_bool_decide; [|by apply wp_ret]. apply wp_bind. unfold ref_cell_node_per. rewrite Htb. unfold keeps in Hk2.
  apply (wp_forx_up (fun _ '(nsafe, safe_list) => 0 <= nsafe <= 4 /\ zlen safe_list = 4) (fun '(_, allowed) => allowed = false));
    [lia|done| |intros [n s] [Hn' Hz']; by apply wp_ret|intros [st b] Hb; by apply wp_ret].
  intros i [n s] Hi [Hn' Hz']. apply wp_bind, wp_aget; [lia|]. apply wp_bind.
  apply (wp_for_up (fun _ _ => True)); [lia|done| |].
  - intros j b Hj _. apply wp_bind, wp_aget; [lia|]. by apply wp_ret.
  - intros b _. destruct b; [by apply wp_ret|]. destruct (Z.ltb_spec n 4); [|by apply wp_ret]. cbn [negb].
    apply wp_bind, wp_aset; [lia|]. apply wp_ret. cbn. rewrite zlen_upd. lia.
Qed.

Lemma shared_neighbour_ok l0 n0 l1 n1 safe nsafe :
  0 <= n0 <= zlen l0 -> 0 <= n1 <= zlen l1 -> 0 <= nsafe <= zlen safe ->
  wp (shared_neighbour l0 n0 l1 n1 safe nsafe) (fun c =>
    match c with Next _ => True | Exit (_, allowed) => allowed = false end).
Proof.
  intros H0' H1' Hs. unfold shared_neighbour.
  apply (wp_forx_up (fun _ _ => True) (fun '(_, allowed) => allowed = false)); [lia|done| |done|by intros [st b]].
  intros i _ Hi _.
  apply (wp_forx_up (fun _ _ => True) (fun '(_, allowed) => allowed = false)); [lia|done| |done|by intros [st b]].
  intros j _ Hj _. do 2 (apply wp_bind, wp_aget; [lia|]). case Z.eqb_spec; intros _; [|by apply wp_ret].
  apply wp_bind, (wp_for_up (fun _ _ => True)); [lia|done| |].
  - intros k b Hk _. apply wp_bind, wp_aget; [lia|]. by apply wp_ret.
  - intros [] _; by apply wp_ret.
Qed.

Lemma collapse_no_new_side_ok node0 node1 nodes :
  keeps nodes -> wp (collapse_no_new_side r node0 node1 nodes) (stage True).
Proof using Hwf Htb Hmax.
  intros Hk. apply wp_bind. eapply wp_mono; [by apply collapse_safe_list_ok|].
  intros [[[nsafe safe] nodes']|[st b]]; [|intros ->; by apply wp_ret]. intros (Hn & Hz & Hk').
  destruct (_ || (4 =? nsafe)); [|by apply wp_ret]. cbn [negb]. destruct (_ || _); [|by apply wp_ret].
  apply wp_bind. eapply wp_mono; [apply (ref_cell_node_list_around_ok r bl Hwf); by vm_compute|].
  intros [st0 [nnode0 list0]] (Hl0 & Hn0 & _). destruct st0; try by apply wp_ret. cbn [RSS_exit].
  apply wp_bind. eapply wp_mono; [apply (ref_cell_node_list_around_ok r bl Hwf); by vm_compute|].
  intros [st1 [nnode1 list1]] (Hl1 & Hn1 & _). destruct st1; try by apply wp_ret. cbn [RSS_exit].
  apply wp_bind. eapply wp_mono; [by apply shared_neighbour_ok; lia|].
  intros [[]|[st b]]; [intros _; by apply wp_ret|intros ->; by apply wp_ret].
Qed.
End manifold.

Section guard.
Context {D : Type} `{Junk Z, Junk REF_ADJ_ITEM}.

Lemma or_return_ok (c : option (ctl (list Z) (REF_STATUS * bool))) k (P : Prop) (Q : REF_STATUS * bool -> Prop) :
  wp c (stage P) -> (forall nodes, keeps nodes -> P -> wp (k nodes) Q) -> (forall st, Q (st, false)) ->
  wp (or_return c k) Q.
Proof.
  intros Hc Hk HQ. apply wp_bind. eapply wp_mono; [exact Hc|]. intros [nodes|[st b]].
  - intros [Hn HP]. by apply Hk.
  - intros ->. by apply wp_ret.
Qed.

Lemma ref_collapse_edge_manifold_ok (g : REF_GRID D) node0 node1 :
  (forall type, type ∈ simplex_types -> exists bl, cell_wf (grid_cell g type) bl /\
     cell_tables (grid_cell g type) = snd (ref_cell_initialize type)) ->
  wp (ref_collapse_edge_manifold g node0 node1) (fun '(_, allowed) => allowed = true ->
    forall type, type ∈ simplex_types -> meets_none type node0 node1 (cell_map (grid_cell g type))).
Proof.
  intros Hg. destruct (Hg REF_CELL_TET) as (blt & Ht & Htt); [by left|].
  destruct (Hg REF_CELL_TRI) as (blr & Hr & Htr); [right; by left|].
  destruct (Hg REF_CELL_EDG) as (ble & He & Hte); [right; right; by left|].
  eapply or_return_ok; [apply (collapse_meets_ok REF_CELL_TET _ blt); try done; apply cell_map_represents| |done].
  intros nodes1 Hk1 H1'.
  eapply or_return_ok; [apply (collapse_meets_ok REF_CELL_TRI _ blr); try done; apply cell_map_represents| |done].
  intros nodes2 Hk2 H2'.
  eapply or_return_ok; [by apply (collapse_no_new_side_ok REF_CELL_TRI _ blr)| |done]. intros nodes3 Hk3 _.
  eapply or_return_ok; [apply (collapse_meets_ok REF_CELL_EDG _ ble); try done; apply cell_map_represents| |done].
  intros nodes4 Hk4 H4'. apply wp_ret. intros _. by refine (all_simplex _ _ _ _).
Qed.
End guard.

(** C32. What [ref_collapse_edge_manifold] allows leaves the elements distinct: the test
    always returns, and when it allows the collapse of an edge of a mesh where no two
    tetrahedra, triangles or edges have the same nodes, so it is after
    [ref_collapse_edge]. *)
Theorem ref_collapse_edge_manifold_distinct {D : Type} `{Dbl D, Junk Z, Junk REF_ADJ_ITEM, Junk D}
    (g : REF_GRID D) (node0 node1 : Z) :
  mesh_ok g -> node0 <> node1 -> node0 ∈ valid_nodes (grid_node g) -> node1 ∈ valid_nodes (grid_node g) ->
  collapsible node0 node1 g ->
  (forall type, type ∈ simplex_types -> distinct type (cell_map (grid_cell g type))) ->
  exists st allowed g', ref_collapse_edge_manifold g node0 node1 = Some (st, allowed) /\
    ref_collapse_edge node0 node1 g = Some (REF_SUCCESS, g') /\
    (allowed = true -> forall type, type ∈ simplex_types -> distinct type (cell_map (grid_cell g' type))).
Proof.
  intros Hg Hne H0' H1' Hc Hd. pose proof (mesh_simplices g Hg) as Hs.
  destruct (collapse_mesh g node0 node1 Hg H0' H1' Hc) as (g' & Heq & _ & Hmaps & _).
  destruct (ref_collapse_edge_manifold_ok g node0 node1) as ([st b] & Hm & Hpost).
  { intros type Ht. destruct (Hs type Ht) as ((bl & Hwf) & Htb & _). by exists bl. }
  exists st, b, g'. split; [done|]. split; [done|]. intros Hb type Ht. rewrite (Hmaps type Ht).
  apply collapsed_distinct; [|done|by apply Hd|by apply Hpost].
  intros c e He. destruct (sim_limits _ _ _ _ _ _ (Hs type Ht) He) as [-> _]. by destruct type.
Qed.

Module ManifoldExample.
#[local] Existing Instances NodeExample.double NodeExample.junk_double NodeExample.junk_int ReplaceExample.junk_item.
Notation grid := SwapExample.grid.
Notation set_of type e := (list_to_set (nodes_of (snd (ref_cell_initialize type)) e) : gset Z).

Lemma listed_distinct type m :
  Forall (fun x => Forall (fun y => set_of type x.2 = set_of type y.2 -> x.1 = y.1) (map_to_list m)) (map_to_list m) ->
  distinct type m.
Proof.
  intros Hall c c' e e' He He' Hs. rewrite Forall_forall in Hall.
  specialize (Hall (c, e) (proj2 (elem_of_map_to_list _ _ _) He)). rewrite Forall_forall in Hall.
  apply (Hall (c', e') (proj2 (elem_of_map_to_list _ _ _) He')). apply set_eq. intros v. rewrite !elem_of_list_to_set. apply Hs.
Qed.
Lemma distinct_tets : distinct REF_CELL_TET (cell_map (ref_grid_tet grid)).
Proof. apply listed_distinct. rewrite SwapExample.axis_tets_ok. apply (bool_decide_unpack _). vm_compute. exact I. Qed.
Lemma distinct_tris : distinct REF_CELL_TRI (cell_map (ref_grid_tri grid)).
Proof. apply listed_distinct. rewrite SwapExample.axis_tris_ok. apply (bool_decide_unpack _). vm_compute. exact I. Qed.
Lemma distinct_edgs : distinct REF_CELL_EDG (cell_map (ref_grid_edg grid)).
Proof. apply listed_distinct. rewrite SplitExample.no_edges. apply Forall_nil_2. Qed.
Lemma all_distinct {D} (g : REF_GRID D) :
  distinct REF_CELL_TET (cell_map (ref_grid_tet g)) -> distinct REF_CELL_TRI (cell_map (ref_grid_tri g)) ->
  distinct REF_CELL_EDG (cell_map (ref_grid_edg g)) ->
  forall type, type ∈ simplex_types -> distinct type (cell_map (grid_cell g type)).
Proof. intros Ht Hr He. by refine (all_simplex _ _ _ _). Qed.
Lemma grid_distinct : forall type, type ∈ simplex_types -> distinct type (cell_map (grid_cell grid type)).
Proof. apply all_distinct; [exact distinct_tets|exact distinct_tris|exact distinct_edgs]. Qed.
End ManifoldExample.

Lemma ref_collapse_edge_manifold_distinct_witness :
  let g := SwapExample.grid in
  (mesh_ok g /\ collapsible 4 5 g /\ forall type, type ∈ simplex_types -> distinct type (cell_map (grid_cell g type))) /\
  ref_collapse_edge_manifold g 4 5 = Some (REF_SUCCESS, true) /\
  exists st allowed g', ref_collapse_edge_manifold g 4 5 = Some (st, allowed) /\
    ref_collapse_edge 4 5 g = Some (REF_SUCCESS, g') /\
    (allowed = true -> forall type, type ∈ simplex_types -> distinct type (cell_map (grid_cell g' type))).
Proof.
  split; [split; [exact SwapExample.axis_mesh_ok|split; [exact CollapseExample.edge_collapsible|exact ManifoldExample.grid_distinct]]|].
  split; [vm_compute; reflexivity|].
  pose proof CollapseExample.ends_valid as Hv. rewrite !Forall_cons in Hv. destruct Hv as (H4 & H5 & _).
  apply (ref_collapse_edge_manifold_distinct SwapExample.grid 4 5); [exact SwapExample.axis_mesh_ok|lia|exact H4|exact H5|
    exact CollapseExample.edge_collapsible|exact ManifoldExample.grid_distinct].
Defined.
