(* ===== verification/RefSwap.v ===== *)
(** * ref_swap.c: exchanging the edge of two triangles

    [ref_swap_tri_edge] replaces the two triangles of an edge by the two of the
    other diagonal; [ref_swap_same_faceid], [ref_swap_manifold] and the other tests
    on the topology decide whether that is allowed. What they allow keeps the
    triangles distinct and, for each patch of the surface, its boundary.
    [ref_swap_remove_two_face_cell] removes a tetrahedron with two faces on the
    boundary and keeps a conforming mesh conforming. *)
From S2P Require Import Prelude Rows Chains Effect RefList RefAdj RefDbl RefMpi RefNode RefCellType RefCell RefCellSpec RefCellQuery RefCellNode RefGeom RefGrid RefMeasure RefCavity RefCavityTable RefCavityReplace RefCavityForm RefCavitySwap EdgeCells RefSplit.
From stdpp Require Import prelude list gmap.
From Stdlib Require Import ZArith Lia SpecFloat.
Open Scope Z_scope.
Open Scope ref_scope.

Section ops.
Context {D : Type} `{Dbl D, Junk Z, Junk REF_ADJ_ITEM, Junk D}.
Implicit Types (g : REF_GRID D).

(** [nodes[0] = a; nodes[1] = b; nodes[2] = c;] *)
Definition put_triple (a b c : Z) (nodes : list Z) : option (list Z) :=
  let* nodes := aset nodes 0 a in
  let* nodes := aset nodes 1 b in
  aset nodes 2 c.

(** ** The tests; the flag is [*allowed] *)

Definition ref_swap_same_faceid g (node0 node1 : Z) : option (REF_STATUS * bool) :=
  let ref_cell := ref_grid_tri g in
  let* '(st, has_edg) := ref_cell_has_side (ref_grid_edg g) node0 node1 in
  RSS st false (
  let* '(st, has_tri) := ref_cell_has_side (ref_grid_tri g) node0 node1 in
  RSS st false (
  let* '(st, has_qua) := ref_cell_has_side (ref_grid_qua g) node0 node1 in
  RSS st false (
  if has_edg || (has_tri && has_qua) then Some (REF_SUCCESS, false)
  else
    let* '(st, (ncell, cell_to_swap)) := ref_cell_list_with2 ref_cell node0 node1 2 (alloc 2) in
    RSS st false (
    if 0 =? ncell then Some (REF_SUCCESS, true)
    else
      RAS (2 =? ncell) false (
      let* cell0 := aget cell_to_swap 0 in
      let* '(st, nodes) := ref_cell_nodes ref_cell cell0 (alloc REF_CELL_MAX_SIZE_PER) in
      RSS st false (
      let* id0 := aget nodes (ref_cell_node_per ref_cell) in
      let* cell1 := aget cell_to_swap 1 in
      let* '(st, nodes) := ref_cell_nodes ref_cell cell1 nodes in
      RSS st false (
      let* id1 := aget nodes (ref_cell_node_per ref_cell) in
      Some (REF_SUCCESS, id0 =? id1)))))))).

Definition ref_swap_manifold g (node0 node1 : Z) : option (REF_STATUS * bool) :=
  let ref_cell := ref_grid_tri g in
  let* '(st, (node2, node3)) := ref_swap_node23 g node0 node1 in
  RSS st false (
  let* '(st, (ncell, cell_to_swap)) := ref_cell_list_with2 ref_cell node0 node1 2 (alloc 2) in
  RSS st false (
  RAS (2 =? ncell) false (
  let* cell0 := aget cell_to_swap 0 in
  let* '(st, nodes) := ref_cell_nodes ref_cell cell0 (alloc REF_CELL_MAX_SIZE_PER) in
  RSS st false (
  let* nodes := put_triple node0 node3 node2 nodes in
  let* '(st, new_cell) := ref_cell_with ref_cell nodes in
  RXS st REF_NOT_FOUND false (
  if negb (REF_EMPTY =? new_cell) then Some (REF_SUCCESS, false)
  else
    let* nodes := put_triple node1 node2 node3 nodes in
    let* '(st, new_cell) := ref_cell_with ref_cell nodes in
    RXS st REF_NOT_FOUND false (
    if negb (REF_EMPTY =? new_cell) then Some (REF_SUCCESS, false)
    else
      let* '(st, has_side) := ref_cell_has_side ref_cell node2 node3 in
      RSS st false (
      Some (REF_SUCCESS, negb has_side)))))))).

Definition ref_swap_geom_topo g (node0 node1 : Z) : option (REF_STATUS * bool) :=
  let* '(st, node0_has_jump) := ref_geom_has_jump (grid_geom g) node0 in
  RSS st false (
  let* '(st, node1_has_jump) := ref_geom_has_jump (grid_geom g) node1 in
  RSS st false (
  Some (REF_SUCCESS, negb node0_has_jump && negb node1_has_jump))).

Definition ref_swap_local_cell g (node0 node1 : Z) : option (REF_STATUS * bool) :=
  let ref_cell := ref_grid_tri g in
  let* c :=
    each_ref_cell_having_node ref_cell node0 (fun cell (_ : unit) =>
      forx_up 0 (ref_cell_node_per ref_cell) (fun search_node (_ : unit) =>
        let* v := ref_cell_c2n ref_cell search_node cell in
        if node1 =? v then
          forx_up 0 (ref_cell_node_per ref_cell) (fun test_node (_ : unit) =>
            let* w := ref_cell_c2n ref_cell test_node cell in
            let* owned := ref_node_owned (grid_node g) w in
            if negb owned then Some (Exit (REF_SUCCESS, false)) else Some (Next tt)) tt
        else Some (Next tt)) tt) tt in
  Some (after_loop c (fun _ => (REF_SUCCESS, true))).

(** The flag is that of the caller until every question is answered. *)
Definition ref_swap_edge_mixed g (node0 node1 : Z) (allowed : bool) : option (REF_STATUS * bool) :=
  let* '(st, qua_side) := ref_cell_has_side (ref_grid_qua g) node0 node1 in
  RSS st allowed (
  let* '(st, pri_side) := ref_cell_has_side (ref_grid_pri g) node0 node1 in
  RSS st allowed (
  let* '(st, pyr_side) := ref_cell_has_side (ref_grid_pyr g) node0 node1 in
  RSS st allowed (
  let* '(st, hex_side) := ref_cell_has_side (ref_grid_hex g) node0 node1 in
  RSS st allowed (
  Some (REF_SUCCESS, negb qua_side && negb pri_side && negb pyr_side && negb hex_side))))).

(** ** The exchange *)

Definition ref_swap_tri_edge (node0 node1 : Z) : REF_GRID D -> option (REF_STATUS * REF_GRID D) := body (
  let! g := state in
  let! '(node2, node3) := ask (ref_swap_node23 g node0 node1) in
  let ref_cell := ref_grid_tri g in
  let! '(ncell, cell_to_swap) := ask (ref_cell_list_with2 ref_cell node0 node1 2 (alloc 2)) in
  require (2 =? ncell) ;!
  let! cell0 := use (aget cell_to_swap 0) in
  let! cell1 := use (aget cell_to_swap 1) in
  let! nodes := ask (ref_cell_nodes ref_cell cell0 (alloc REF_CELL_MAX_SIZE_PER)) in
  on_cell REF_CELL_TRI (body (
    call (fun r => ref_cell_remove r cell0) ;!
    call (fun r => ref_cell_remove r cell1) ;!
    let! nodes := use (put_triple node0 node3 node2 nodes) in
    add_nodes nodes ;!
    let! nodes := use (put_triple node1 node2 node3 nodes) in
    add_nodes nodes))).
End ops.

(** ** What the exchange does to the triangles *)

Lemma put_triple_ok a b c nodes (Q : list Z -> Prop) :
  4 <= zlen nodes ->
  (forall nodes', zlen nodes' = zlen nodes -> ztake 4 nodes' = [a; b; c; nodes.[3]] -> Q nodes') ->
  wp (put_triple a b c nodes) Q.
Proof.
  intros Hl HQ. unfold put_triple. apply wp_bind, wp_aset; [lia|]. apply wp_bind, wp_aset; [rewrite zlen_upd; lia|].
  apply wp_aset; [rewrite !zlen_upd; lia|]. apply HQ; [by rewrite !zlen_upd|].
  apply arr_ext; [rewrite zlen_ztake, ?zlen_upd by (rewrite !zlen_upd; lia); done|].
  rewrite zlen_ztake by (rewrite !zlen_upd; lia). intros i Hi. rewrite aat_ztake by lia.
  assert (Hc : i = 0 \/ i = 1 \/ i = 2 \/ i = 3) by lia.
  destruct Hc as [->|[->|[->| ->]]]; rewrite ?aat_upd by (rewrite ?zlen_upd; lia); done.
Qed.

(** The edge has the two triangles [c0] and [c1], on its two sides. *)
Record on_edge (m : gmap Z (list Z)) (node0 node1 node2 node3 c0 c1 : Z) (e0 e1 : list Z) : Prop := {
  oe_first : m !! c0 = Some e0;
  oe_second : m !! c1 = Some e1;
  oe_two : c0 <> c1;
  oe_sides : (third node0 node1 node2 (triple e0) /\ third node1 node0 node3 (triple e1)) \/
    (third node1 node0 node3 (triple e0) /\ third node0 node1 node2 (triple e1));
  oe_only : forall c e, m !! c = Some e -> with_both REF_CELL_TRI node0 node1 e -> c = c0 \/ c = c1;
  oe_nodes : NoDup [node0; node1; node2; node3];
  oe_range : Forall (fun v => 0 <= v <= NODE_LIMIT) [node0; node1; node2; node3]
}.
(** The two that take their place have the id of the first. *)
Definition swapped (m m' : gmap Z (list Z)) (node0 node1 node2 node3 : Z) : Prop :=
  exists c0 c1 e0 e1 k0 k1, on_edge m node0 node1 node2 node3 c0 c1 e0 e1 /\
    let d := delete c1 (delete c0 m) in
    let d0 := <[k0 := [node0; node3; node2; e0.[3]]]> d in
    d !! k0 = None /\ d0 !! k1 = None /\ m' = <[k1 := [node1; node2; node3; e0.[3]]]> d0.

Lemma sides_once f a b : NoDup (face_list f) -> (a, b) ∈ sides f -> (b, a) ∉ sides f.
Proof.
  destruct f as [[x y] z]. cbn [face_list sides]. rewrite !NoDup_cons, !elem_of_cons. intros Hnd Hab Hba.
  pose proof (not_elem_of_nil x). pose proof (not_elem_of_nil y). pose proof (not_elem_of_nil (a, b)).
  pose proof (not_elem_of_nil (b, a)). naive_solver.
Qed.

Lemma cell_entries_tri nodes : cell_entries REF_CELL_TRI nodes = ztake 4 nodes.
Proof. done. Qed.
(** [entries_ok] of the nodes of a new triangle. *)
Lemma new_tri_ok nodes a b c id :
  ztake 4 nodes = [a; b; c; id] -> 0 <= a <= NODE_LIMIT -> 0 <= b <= NODE_LIMIT -> 0 <= c <= NODE_LIMIT ->
  entries_ok REF_CELL_TRI nodes.
Proof.
  intros Ht ? ? ?. destruct nodes as [|x [|y [|z [|w l]]]]; try done. injection Ht as -> -> -> ->.
  split; [rewrite !zlen_cons; pose proof (zlen_nonneg l); cbn; lia|].
  change (Forall (fun v => 0 <= v <= NODE_LIMIT) [a; b; c]). by rewrite !Forall_cons.
Qed.

Section surface.
Context {D : Type} `{Dbl D, Junk Z, Junk REF_ADJ_ITEM, Junk D}.
Implicit Types (g : REF_GRID D).

Lemma node23_on_edge g k m node0 node1 node2 node3 :
  readable g -> cell_sim REF_CELL_TRI k (ref_grid_tri g) m -> distinct_tris g -> proper_tris g ->
  ref_swap_node23 g node0 node1 = Some (REF_SUCCESS, (node2, node3)) ->
  exists c0 c1 e0 e1, edge_tris g node0 node1 = [c0; c1] /\ on_edge m node0 node1 node2 node3 c0 c1 e0 e1.
Proof.
  intros Hg Hsim Hd Hp Heq. pose proof Hsim as (_ & _ & Hrep & _).
  pose proof (swap_node23_ok g node0 node1 Hg) as Hpair. rewrite Heq in Hpair. apply wp_ret_inv in Hpair. specialize (Hpair eq_refl). destruct (swap_pair_distinct g node0 node1 node2 node3 Hg Hd Hp Hpair) as (Hnd & HR & Hrange).
  destruct Hpair as (c0 & c1 & Hc & c2 & c3 & e2 & e3 & H2' & H3' & He2 & He3 & Ht2 & Ht3).
  assert (Hne : c2 <> c3).
  { intros <-. rewrite He2 in He3. injection He3 as <-. destruct Ht2 as [Ha Hpm]. destruct Ht3 as [Hb _].
    apply (sides_once (triple e2) node0 node1); [|done|done]. rewrite Hpm. by eapply NoDup_app with (l := [node0; node1; node2]) (k := [node3]). }
  assert (Honly : forall c e, m !! c = Some e -> with_both REF_CELL_TRI node0 node1 e -> c = c0 \/ c = c1).
  { intros c e He [Hi0 Hi1]. assert (Hin : c ∈ edge_tris g node0 node1).
    { apply in_edge_tris; [done|]. exists e. by rewrite <- Hrep. }
    rewrite Hc in Hin. set_solver. }
  assert (Hall : Forall (fun v => 0 <= v <= NODE_LIMIT) [node0; node1; node2; node3]).
  { assert (Hin : forall c e u w x, m !! c = Some e -> third u w x (triple e) ->
      Forall (fun v => 0 <= v <= NODE_LIMIT) [u; w; x]).
    { intros c e u w x He [_ Hpm]. rewrite <- Hpm. destruct (sim_limits _ _ _ _ _ _ Hsim He) as [Hz Hlim].
      destruct e as [|a [|b [|d [|i l]]]]; by cbn in Hz. }
    pose proof (Hin c2 e2 node0 node1 node2) as Hl2. pose proof (Hin c3 e3 node1 node0 node3) as Hl3.
    rewrite !Hrep in Hl2, Hl3. specialize (Hl2 He2 Ht2). specialize (Hl3 He3 Ht3).
    rewrite !Forall_cons in Hl2, Hl3. rewrite !Forall_cons. naive_solver. }
  exists c0, c1. destruct (decide (c2 = c0)) as [->|Hc2].
  - assert (c3 = c1) as -> by set_solver. exists e2, e3. split; [done|].
    constructor; rewrite ?Hrep; try done. by left.
  - assert (c2 = c1) as -> by set_solver. assert (c3 = c0) as -> by set_solver. exists e3, e2. split; [done|].
    constructor; rewrite ?Hrep; try done. by right.
Qed.

Lemma tri_edge_ok g k m node0 node1 node2 node3 :
  readable g -> cell_sim REF_CELL_TRI (k + 2) (ref_grid_tri g) m -> 0 <= k -> distinct_tris g -> proper_tris g ->
  ref_swap_node23 g node0 node1 = Some (REF_SUCCESS, (node2, node3)) ->
  wp (ref_swap_tri_edge node0 node1 g) (fun '(st, g') => st = REF_SUCCESS /\
    exists r' m', g' = set_grid_cell REF_CELL_TRI r' g /\ cell_sim REF_CELL_TRI k r' m' /\
      swapped m m' node0 node1 node2 node3).
Proof.
  intros Hg Hsim Hk Hd Hp Heq.
  destruct (node23_on_edge g _ m node0 node1 node2 node3 Hg Hsim Hd Hp Heq) as (c0 & c1 & e0 & e1 & Hedge & Hon).
  pose proof Hon as [H0' H1' Hne _ _ _ Hlim]. pose proof Hg as [_ _ [bl Hwf] Htb _ _ _].
  rewrite !Forall_cons in Hlim. destruct Hlim as (Hl0 & Hl1 & Hl2 & Hl3 & _).
  apply wp_body, fwp_bind, fwp_state, fwp_bind, fwp_ask. rewrite Heq. apply wp_ret. rewrite decide_True by done.
  apply fwp_bind, fwp_ask. eapply wp_mono; [by apply (ref_cell_list_with2_ok _ bl Hwf)|].
  fold (edge_tris g node0 node1). rewrite Hedge. intros [st [ncell cells]] (Hzc & Hcells).
  change (st = REF_SUCCESS /\ ncell = 2 /\ ztake ncell cells = [c0; c1]) in Hcells. destruct Hcells as (-> & -> & Hcells).
  change (zlen (alloc 2)) with 2 in Hzc. rewrite <- Hzc, ztake_full in Hcells. subst cells.
  rewrite decide_True by done. apply fwp_bind, fwp_require; [intros _|done].
  apply fwp_bind, fwp_use, wp_aget; [done|]. apply fwp_bind, fwp_use, wp_aget; [done|].
  change ([c0; c1].[0]) with c0. change ([c0; c1].[1]) with c1.
  apply fwp_bind, fwp_ask. eapply wp_mono; [by eapply (sim_nodes REF_CELL_TRI _ _ m c0); rewrite ?Htb|].
  intros [st nodes]. rewrite H0'. intros (-> & Hzn & Hnodes). rewrite decide_True by done. rewrite Htb in Hnodes.
  apply on_cell_ok, wp_body, fwp_bind, fwp_call. eapply wp_mono; [by eapply (sim_remove REF_CELL_TRI)|].
  intros [st r1]. change (grid_cell g REF_CELL_TRI) with (ref_grid_tri g). rewrite H0'. intros [-> Hs1]. rewrite decide_True by done.
  apply fwp_bind, fwp_call. eapply wp_mono; [by eapply (sim_remove REF_CELL_TRI)|].
  intros [st r2]. rewrite lookup_delete_ne, H1' by done. intros [-> Hs2]. rewrite decide_True by done.
  apply fwp_bind, fwp_use, put_triple_ok; [by rewrite Hzn|]. intros nodes1 Hz1 Hn1.
  assert (Hid : nodes.[3] = e0.[3]) by (rewrite <- Hnodes, aat_ztake; done).
  apply fwp_bind, (add_nodes_ok REF_CELL_TRI (k + 1) _ _ _ _ _ ltac:(by eapply cell_sim_mono; [|exact Hs2]; lia)); [lia| |].
  { by eapply new_tri_ok. }
  intros k0 r3 Hnone0 Hs3. apply fwp_bind, fwp_use, put_triple_ok; [by rewrite Hz1, Hzn|]. intros nodes2 Hz2 Hn2.
  apply (add_nodes_ok REF_CELL_TRI k _ _ _ _ _ Hs3); [done| |].
  { by eapply new_tri_ok. }
  intros k1 r4 Hnone1 Hs4. split; [done|]. split; [done|]. eexists r4, _. split; [done|]. split; [exact Hs4|].
  exists c0, c1, e0, e1, k0, k1. split; [done|].
  assert (Hid1 : nodes1.[3] = e0.[3]).
  { transitivity (ztake 4 nodes1).[3]; [by rewrite aat_ztake by lia|]. by rewrite Hn1, <- Hid. }
  rewrite Hid in Hn1. rewrite Hid1 in Hn2. rewrite (cell_entries_tri nodes1), Hn1 in Hnone1 |- *.
  by rewrite (cell_entries_tri nodes2), Hn2.
Qed.

(** *** What is kept *)

(** The boundary of each patch: a function of two vertices that changes sign with their
    order, for each id, summed over the sides of the triangles. *)
Definition around_tri (psi : Z -> Z -> Z -> Z) (e : list Z) : Z :=
  sum_over (fun s => psi e.[3] s.1 s.2) (sides (triple e)).
Definition surface_border (psi : Z -> Z -> Z -> Z) g : Z := map_sum (around_tri psi) (cell_map (ref_grid_tri g)).

Lemma around_third psi node0 node1 x e :
  third node0 node1 x (triple e) -> around_tri psi e = psi e.[3] node0 node1 + psi e.[3] node1 x + psi e.[3] x node0.
Proof.
  unfold third, around_tri. destruct (triple e) as [[a b] d]. cbn [sides face_list].
  assert (Hlast : forall u w y z : Z, [u; w; y] ≡ₚ [u; w; z] -> y = z).
  { intros u w y z Hp. apply (Permutation_app_inv_l [u; w] [y] [z]) in Hp. by apply Permutation_length_1_inv in Hp as [= ->]. }
  assert (Hp1 : [a; b; d] ≡ₚ [b; d; a]) by apply (Permutation_cons_append [b; d] a).
  assert (Hp2 : [a; b; d] ≡ₚ [d; a; b]) by (symmetry; apply (Permutation_cons_append [a; b] d)).
  rewrite !sum_over_cons, sum_over_nil. cbn [fst snd]. rewrite !elem_of_cons, elem_of_nil.
  intros [[[= <- <-]|[[= <- <-]|[[= <- <-]|[]]]] Hp].
  - apply Hlast in Hp as ->. lia.
  - rewrite Hp1 in Hp. apply Hlast in Hp as ->. lia.
  - rewrite Hp2 in Hp. apply Hlast in Hp as ->. lia.
Qed.

Lemma around_new psi a b c id : around_tri psi [a; b; c; id] = psi id a b + psi id b c + psi id c a.
Proof.
  unfold around_tri. change (triple [a; b; c; id]) with (a, b, c). change ([a; b; c; id].[3]) with id.
  cbn [sides]. rewrite !sum_over_cons, sum_over_nil. cbn [fst snd]. lia.
Qed.

Lemma swapped_sum (F : list Z -> Z) m m' node0 node1 node2 node3 :
  swapped m m' node0 node1 node2 node3 ->
  exists c0 c1 e0 e1, on_edge m node0 node1 node2 node3 c0 c1 e0 e1 /\
    map_sum F m' = map_sum F m - F e0 - F e1 + F [node0; node3; node2; e0.[3]] + F [node1; node2; node3; e0.[3]].
Proof.
  intros (c0 & c1 & e0 & e1 & k0 & k1 & Hon & Hn0 & Hn1 & ->). exists c0, c1, e0, e1. split; [done|].
  pose proof Hon as [H0' H1' Hne _ _ _ _]. rewrite map_sum_insert, map_sum_insert by done.
  rewrite (map_sum_delete F (delete c0 m) c1 e1), (map_sum_delete F m c0 e0); [lia|done|]. by rewrite lookup_delete_ne.
Qed.

Definition has_ends (node0 node1 : Z) (e : list Z) : Prop :=
  node0 ∈ face_list (triple e) /\ node1 ∈ face_list (triple e).
(** The triangles of the edge have one id. *)
Definition one_id (m : gmap Z (list Z)) (node0 node1 : Z) : Prop :=
  forall c c' e e', m !! c = Some e -> m !! c' = Some e' -> has_ends node0 node1 e -> has_ends node0 node1 e' ->
    e.[3] = e'.[3].
Lemma swapped_border psi m m' node0 node1 node2 node3 :
  (forall id a b, psi id b a = - psi id a b) -> one_id m node0 node1 ->
  swapped m m' node0 node1 node2 node3 -> map_sum (around_tri psi) m' = map_sum (around_tri psi) m.
Proof.
  intros Ha Hid Hsw. destruct (swapped_sum (around_tri psi) _ _ _ _ _ _ Hsw) as (c0 & c1 & e0 & e1 & Hon & ->).
  destruct Hon as [H0' H1' _ Hsides _ _ _].
  assert (Hboth : forall e u w x, third u w x (triple e) -> (u = node0 /\ w = node1) \/ (u = node1 /\ w = node0) ->
    has_ends node0 node1 e).
  { intros e u w x [_ Hp] Huw. unfold has_ends. rewrite Hp. set_solver. }
  assert (Hids : e0.[3] = e1.[3]).
  { destruct Hsides as [[? ?]|[? ?]]; eapply Hid; eauto. }
  rewrite !around_new. pose proof (Ha e0.[3] node0 node1). pose proof (Ha e0.[3] node2 node3).
  destruct Hsides as [[Ht0 Ht1]|[Ht0 Ht1]]; rewrite (around_third psi _ _ _ _ Ht0), (around_third psi _ _ _ _ Ht1), <- Hids; lia.
Qed.
End surface.

(** ** What the tests guarantee *)

Lemma allowed_RSS {A} (m : option (REF_STATUS * A)) (k : A -> option (REF_STATUS * bool)) :
  (let* '(st, x) := m in RSS st false (k x)) = Some (REF_SUCCESS, true) ->
  exists x, m = Some (REF_SUCCESS, x) /\ k x = Some (REF_SUCCESS, true).
Proof. destruct m as [[[] x]|]; cbn; try discriminate. intros Hk. by exists x. Qed.
Lemma allowed_RSS2 {A B} (m : option (REF_STATUS * (A * B))) (k : A -> B -> option (REF_STATUS * bool)) :
  (let* '(st, (x, y)) := m in RSS st false (k x y)) = Some (REF_SUCCESS, true) ->
  exists x y, m = Some (REF_SUCCESS, (x, y)) /\ k x y = Some (REF_SUCCESS, true).
Proof. destruct m as [[[] [x y]]|]; cbn; try discriminate. intros Hk. by exists x, y. Qed.
Lemma allowed_RXS {A} (m : option (REF_STATUS * A)) (k : A -> option (REF_STATUS * bool)) :
  (let* '(st, x) := m in RXS st REF_NOT_FOUND false (k x)) = Some (REF_SUCCESS, true) ->
  exists st x, m = Some (st, x) /\ k x = Some (REF_SUCCESS, true).
Proof. destruct m as [[st x]|]; [|done]. intros Hk. exists st, x. split; [done|]. by destruct st. Qed.
Lemma allowed_RAS (b : bool) (k : option (REF_STATUS * bool)) :
  RAS b false k = Some (REF_SUCCESS, true) -> b = true /\ k = Some (REF_SUCCESS, true).
Proof. by destruct b. Qed.
Lemma allowed_use {A} (m : option A) (k : A -> option (REF_STATUS * bool)) :
  (let* x := m in k x) = Some (REF_SUCCESS, true) -> exists x, m = Some x /\ k x = Some (REF_SUCCESS, true).
Proof. destruct m as [x|]; [|done]. intros Hk. by exists x. Qed.

(** No two triangles have the same vertices, and the vertices of each are different. *)
Definition all_distinct_tris (m : gmap Z (list Z)) : Prop :=
  forall c c' e e', m !! c = Some e -> m !! c' = Some e' -> ztake 3 e ≡ₚ ztake 3 e' -> c = c'.
Definition all_proper_tris (m : gmap Z (list Z)) : Prop := forall c e, m !! c = Some e -> NoDup (ztake 3 e).
(** No triangle has the edge. *)
Definition no_edge (m : gmap Z (list Z)) (a b : Z) : Prop := forall c e, m !! c = Some e -> a ∈ ztake 3 e -> b ∉ ztake 3 e.

Lemma swapped_lookup m m' node0 node1 node2 node3 :
  swapped m m' node0 node1 node2 node3 ->
  exists k0 k1 id, forall c e, m' !! c = Some e ->
    (c = k1 /\ e = [node1; node2; node3; id]) \/ (c = k0 /\ e = [node0; node3; node2; id]) \/
    (m !! c = Some e /\ ~ with_both REF_CELL_TRI node0 node1 e).
Proof.
  intros (c0 & c1 & e0 & e1 & k0 & k1 & [_ _ _ _ Honly _ _] & _ & _ & ->). exists k0, k1, e0.[3]. intros c e.
  rewrite !lookup_insert_Some, !lookup_delete_Some. intros [[<- <-]|(_ & [[<- <-]|(_ & Hc1 & Hc0 & He)])];
    [by left|by right; left|]. right; right. split; [done|]. intros Hw. by destruct (Honly c e He Hw) as [->| ->].
Qed.

Lemma in_three (a b c : Z) : a ∈ [a; b; c] /\ b ∈ [a; b; c] /\ c ∈ [a; b; c].
Proof. set_solver. Qed.

Lemma swapped_tris m m' node0 node1 node2 node3 :
  swapped m m' node0 node1 node2 node3 -> all_distinct_tris m -> all_proper_tris m -> no_edge m node2 node3 ->
  all_distinct_tris m' /\ all_proper_tris m' /\ no_edge m' node0 node1.
Proof.
  intros Hsw Hd Hp Hno. assert (Hnd : NoDup [node0; node1; node2; node3]).
  { by destruct Hsw as (? & ? & ? & ? & ? & ? & [] & _). }
  destruct (swapped_lookup _ _ _ _ _ _ Hsw) as (k0 & k1 & id & Hm). 
  assert (Hnew : NoDup [node1; node2; node3] /\ NoDup [node0; node3; node2] /\ node0 <> node1 /\ node0 ∉ [node1; node2; node3] /\
    node1 ∉ [node0; node3; node2]).
  { rewrite !NoDup_cons, ?elem_of_cons, ?elem_of_nil in *. clear -Hnd. intuition congruence. }
  destruct (in_three node1 node2 node3) as (? & ? & ?). destruct (in_three node0 node3 node2) as (? & ? & ?).
  destruct Hnew as (Hp1 & Hp0 & H01 & Ho0 & Ho1).
  change (ztake 3) with (@take Z 3) in *. split; [|split].
  - intros c c' e e' He He' Hpm. destruct (Hm c e He) as [[-> ->]|[[-> ->]|[He0 _]]];
      destruct (Hm c' e' He') as [[-> ->]|[[-> ->]|[He0' _]]]; cbn [take] in Hpm; try done.
    + exfalso. assert (Hin : node1 ∈ [node0; node3; node2]) by (rewrite <- Hpm; done). done.
    + exfalso. apply (Hno c' e' He0'); rewrite <- Hpm; done.
    + exfalso. assert (Hin : node0 ∈ [node1; node2; node3]) by (rewrite <- Hpm; done). done.
    + exfalso. apply (Hno c' e' He0'); rewrite <- Hpm; done.
    + exfalso. apply (Hno c e He0); rewrite Hpm; done.
    + exfalso. apply (Hno c e He0); rewrite Hpm; done.
    + by apply (Hd c c' e e').
  - intros c e He. destruct (Hm c e He) as [[-> ->]|[[-> ->]|[He0 _]]]; cbn [take];
      [done|done|by apply (Hp c)].
  - intros c e He. destruct (Hm c e He) as [[-> ->]|[[-> ->]|[He0 Hw]]]; cbn [take]; [done|done|].
    intros ? ?. by apply Hw.
Qed.

Section tests.
Context {D : Type} `{Dbl D, Junk Z, Junk REF_ADJ_ITEM, Junk D}.
Implicit Types (g : REF_GRID D).

Lemma list2_ok g node0 node1 c0 c1 :
  readable g -> edge_tris g node0 node1 = [c0; c1] ->
  ref_cell_list_with2 (ref_grid_tri g) node0 node1 2 (alloc 2) = Some (REF_SUCCESS, (2, [c0; c1])).
Proof.
  intros [_ _ [bl Hwf] _ _ _ _] Hedge.
  destruct (ref_cell_list_with2_ok _ bl Hwf node0 node1 2 (alloc 2) ltac:(done)) as ([st [ncell cells]] & -> & Hzc & Hc).
  fold (edge_tris g node0 node1) in Hc. rewrite Hedge in Hc.
  change (st = REF_SUCCESS /\ ncell = 2 /\ ztake ncell cells = [c0; c1]) in Hc. destruct Hc as (-> & -> & Hc).
  change (zlen (alloc 2)) with 2 in Hzc. rewrite <- Hzc, ztake_full in Hc. by subst cells.
Qed.

Lemma tri_id_ok g cell e nodes :
  readable g -> cell_at (ref_grid_tri g) cell = Some e -> REF_CELL_MAX_SIZE_PER <= zlen nodes ->
  wp (ref_cell_nodes (ref_grid_tri g) cell nodes) (fun '(st, nodes') =>
    st = REF_SUCCESS /\ zlen nodes' = zlen nodes /\ aget nodes' (ref_cell_node_per (ref_grid_tri g)) = Some e.[3]).
Proof.
  intros Hg Hat Hz. destruct (rd_tri _ Hg) as [bl Hwf]. unfold ref_cell_node_per. eapply wp_mono.
  - eapply ref_cell_nodes_ok; [exact Hwf|]. rewrite (rd_tri_tables _ Hg). change (size_per _) with 4.
    unfold REF_CELL_MAX_SIZE_PER in Hz. lia.
  - rewrite Hat. intros [st nodes'] (-> & Hl & He). split; [done|]. split; [done|].
    rewrite (rd_tri_tables _ Hg) in *. change (size_per _) with 4 in He. change (node_per _) with 3. subst e.
    unfold REF_CELL_MAX_SIZE_PER in Hz. rewrite aat_ztake, aget_aat by lia. done.
Qed.

(** The ids of the two triangles are equal. *)
Lemma same_faceid_ok g node0 node1 c0 c1 e0 e1 :
  readable g -> edge_tris g node0 node1 = [c0; c1] ->
  cell_at (ref_grid_tri g) c0 = Some e0 -> cell_at (ref_grid_tri g) c1 = Some e1 ->
  ref_swap_same_faceid g node0 node1 = Some (REF_SUCCESS, true) -> e0.[3] = e1.[3].
Proof.
  intros Hg Hedge He0 He1 Hok. unfold ref_swap_same_faceid in Hok. cbv zeta in Hok.
  apply allowed_RSS in Hok as (? & _ & Hok). apply allowed_RSS in Hok as (? & _ & Hok).
  apply allowed_RSS in Hok as (? & _ & Hok). destruct (_ || _); [done|].
  rewrite (list2_ok g node0 node1 c0 c1 Hg Hedge) in Hok. cbn [obind RSS Z.eqb] in Hok.
  apply allowed_RAS in Hok as [_ Hok]. change (aget [c0; c1] 0) with (Some c0) in Hok. change (aget [c0; c1] 1) with (Some c1) in Hok.
  cbn [obind] in Hok.
  destruct (tri_id_ok g c0 e0 (alloc REF_CELL_MAX_SIZE_PER) Hg He0 ltac:(done)) as ([st0 nodes0] & Hn0 & -> & Hz0 & Hid0).
  rewrite Hn0 in Hok. cbn [obind RSS] in Hok. rewrite Hid0 in Hok. cbn [obind] in Hok.
  destruct (tri_id_ok g c1 e1 nodes0 Hg He1 ltac:(by rewrite Hz0)) as ([st1 nodes1] & Hn1 & -> & Hz1 & Hid1).
  rewrite Hn1 in Hok. cbn [obind RSS] in Hok. rewrite Hid1 in Hok. cbn [obind] in Hok. injection Hok as Hok. lia.
Qed.

Lemma no_side_no_edge g node2 node3 m :
  readable g -> represents (ref_grid_tri g) m -> node2 <> node3 ->
  ref_cell_has_side (ref_grid_tri g) node2 node3 = Some (REF_SUCCESS, false) -> no_edge m node2 node3.
Proof.
  intros Hg Hrep Hne Hside c e He Hi2 Hi3. pose proof Hg as [_ _ [bl Hwf] _ _ _ _].
  destruct (ref_cell_has_side_ok _ bl Hwf node2 node3) as (has & Heq & Hiff). rewrite Hside in Heq. injection Heq as <-.
  assert (Hnil : edge_tris g node2 node3 = []).
  { apply no_side_no_tri; [done|done|]. intros cell entries Hc Hb. apply diff_false_true, Hiff. by exists cell, entries. }
  assert (Hin : c ∈ edge_tris g node2 node3); [|rewrite Hnil in Hin; by apply not_elem_of_nil in Hin].
  apply in_edge_tris; [done|]. exists e. by rewrite <- Hrep.
Qed.

Lemma manifold_ok g node0 node1 :
  ref_swap_manifold g node0 node1 = Some (REF_SUCCESS, true) ->
  exists node2 node3, ref_swap_node23 g node0 node1 = Some (REF_SUCCESS, (node2, node3)) /\
    ref_cell_has_side (ref_grid_tri g) node2 node3 = Some (REF_SUCCESS, false).
Proof.
  intros Hok. unfold ref_swap_manifold in Hok. cbv zeta in Hok. apply allowed_RSS2 in Hok as (node2 & node3 & Hn & Hok).
  exists node2, node3. split; [done|].
  apply allowed_RSS2 in Hok as (ncell & cells & _ & Hok). apply allowed_RAS in Hok as [_ Hok].
  apply allowed_use in Hok as (c0 & _ & Hok). apply allowed_RSS in Hok as (nodes & _ & Hok).
  apply allowed_use in Hok as (nodes1 & _ & Hok). apply allowed_RXS in Hok as (st1 & new1 & _ & Hok).
  destruct (negb (REF_EMPTY =? new1)); [done|]. apply allowed_use in Hok as (nodes2 & _ & Hok).
  apply allowed_RXS in Hok as (st2 & new2 & _ & Hok). destruct (negb (REF_EMPTY =? new2)); [done|].
  apply allowed_RSS in Hok as (b & Hb & Hok). injection Hok as Hok. by destruct b.
Qed.
End tests.

(** C33. Exchanging the edge of two triangles: when [ref_swap_same_faceid] and
    [ref_swap_manifold] allow it, [ref_swap_tri_edge] always succeeds and only changes
    the triangles. The two on the edge, [node0; node1; node2] and [node1; node0; node3]
    up to rotation and of one id, are taken out, [node0; node3; node2] and
    [node1; node2; node3] of that id are put in, with [node2] and [node3] those of
    [ref_swap_node23], and the other triangles stay as they are. No triangle has the edge any more, no two triangles have the same
    vertices, those of each are different, and every patch of the surface has the
    boundary that it had: for every function of two vertices that changes its sign
    with their order, for each id, the sum over the sides is the same. *)
Theorem ref_swap_tri_edge_keeps_surface {D : Type} `{Dbl D, Junk Z, Junk REF_ADJ_ITEM, Junk D}
    (g : REF_GRID D) (node0 node1 : Z) :
  readable g -> cell_sim REF_CELL_TRI 2 (ref_grid_tri g) (cell_map (ref_grid_tri g)) ->
  distinct_tris g -> proper_tris g ->
  ref_swap_same_faceid g node0 node1 = Some (REF_SUCCESS, true) ->
  ref_swap_manifold g node0 node1 = Some (REF_SUCCESS, true) ->
  exists r' node2 node3, let g' := set_grid_cell REF_CELL_TRI r' g in
    ref_swap_tri_edge node0 node1 g = Some (REF_SUCCESS, g') /\
    cell_sim REF_CELL_TRI 0 r' (cell_map r') /\
    ref_swap_node23 g node0 node1 = Some (REF_SUCCESS, (node2, node3)) /\
    swapped (cell_map (ref_grid_tri g)) (cell_map r') node0 node1 node2 node3 /\
    one_id (cell_map (ref_grid_tri g)) node0 node1 /\
    no_edge (cell_map r') node0 node1 /\ distinct_tris g' /\ proper_tris g' /\
    forall psi, (forall id a b, psi id b a = - psi id a b) -> surface_border psi g' = surface_border psi g.
Proof.
  intros Hg Hsim Hd Hp Hid (node2 & node3 & Hn & Hside)%manifold_ok.
  pose proof Hsim as (_ & _ & Hrep & _). unfold surface_border. set (m := cell_map (ref_grid_tri g)) in *.
  destruct (node23_on_edge g 2 m node0 node1 node2 node3 Hg Hsim Hd Hp Hn) as (c0 & c1 & e0 & e1 & Hedge & Hon).
  pose proof Hon as [H0' H1' _ _ _ Hnd _]. rewrite Hrep in H0', H1'.
  pose proof (same_faceid_ok g node0 node1 c0 c1 e0 e1 Hg Hedge H0' H1' Hid) as Hids.
  destruct (tri_edge_ok g 0 m node0 node1 node2 node3 Hg Hsim ltac:(lia) Hd Hp Hn)
    as ([st g'] & Heq & -> & r' & m' & -> & Hsim' & Hsw).
  pose proof Hsim' as (_ & _ & Hrep' & _). pose proof (represents_unique _ _ Hrep') as Hm'.
  destruct (swapped_tris _ _ _ _ _ _ Hsw) as (Hd' & Hp' & Hno').
  { intros c c' e e'. rewrite !Hrep. apply Hd. }
  { intros c e. rewrite Hrep. apply Hp. }
  { eapply no_side_no_edge; [exact Hg|exact Hrep| |exact Hside]. rewrite !NoDup_cons, !elem_of_cons in Hnd. naive_solver. }
  assert (Hone : one_id m node0 node1).
  { assert (Hends : forall c e, m !! c = Some e -> has_ends node0 node1 e -> e.[3] = e0.[3]).
    { intros c e He Hw. rewrite Hrep in He. destruct (tri_entries g c e Hg He) as (t0 & t1 & t2 & i & -> & _).
      destruct (oe_only _ _ _ _ _ _ _ _ _ Hon c [t0; t1; t2; i]) as [->| ->]; [by rewrite Hrep|exact Hw|congruence..]. }
    intros c c' e e' He He' Hw Hw'. by rewrite (Hends c e He Hw), (Hends c' e' He' Hw'). }
  exists r', node2, node3. cbv zeta. rewrite <- Hm'. do 6 (split; [done|]). split; [|split].
  - intros c c' e e'. change (ref_grid_tri _) with r'. rewrite <- !Hrep'. apply Hd'.
  - intros c e. change (ref_grid_tri _) with r'. rewrite <- Hrep'. apply Hp'.
  - intros psi Ha. change (ref_grid_tri (set_grid_cell REF_CELL_TRI r' g)) with r'. rewrite <- Hm'.
    eapply swapped_border; [done|exact Hone|exact Hsw].
Qed.

#[local] Existing Instances NodeExample.double NodeExample.junk_double NodeExample.junk_int ReplaceExample.junk_item.

Module SurfaceExample.
Lemma octahedron_sim {D} (g : REF_GRID D) : mesh_ok g -> cell_sim REF_CELL_TRI 2 (ref_grid_tri g) (cell_map (ref_grid_tri g)).
Proof. intros [[_ Hr _ _ _] _ _ _ _]. eapply cell_sim_mono; [|exact Hr]. by vm_compute. Qed.
End SurfaceExample.

Lemma ref_swap_tri_edge_keeps_surface_witness :
  let g := SwapExample.grid in
  (readable g /\ distinct_tris g /\ proper_tris g) /\
  ref_swap_same_faceid g 0 1 = Some (REF_SUCCESS, true) /\ ref_swap_manifold g 0 1 = Some (REF_SUCCESS, true) /\
  ref_swap_node23 g 0 1 = Some (REF_SUCCESS, (2, 5)) /\
  exists r' node2 node3, let g' := set_grid_cell REF_CELL_TRI r' g in
    ref_swap_tri_edge 0 1 g = Some (REF_SUCCESS, g') /\
    cell_sim REF_CELL_TRI 0 r' (cell_map r') /\
    ref_swap_node23 g 0 1 = Some (REF_SUCCESS, (node2, node3)) /\
    swapped (cell_map (ref_grid_tri g)) (cell_map r') 0 1 node2 node3 /\
    one_id (cell_map (ref_grid_tri g)) 0 1 /\
    no_edge (cell_map r') 0 1 /\ distinct_tris g' /\ proper_tris g' /\
    forall psi, (forall id a b, psi id b a = - psi id a b) -> surface_border psi g' = surface_border psi g.
Proof.
  pose proof (mesh_readable _ SwapExample.axis_mesh_ok) as Hg.
  split; [split; [exact Hg|split; [exact (mo_distinct _ SwapExample.axis_mesh_ok)|exact SwapExample.axis_proper_tris]]|].
  split; [vm_compute; reflexivity|]. split; [vm_compute; reflexivity|]. split; [vm_compute; reflexivity|].
  apply (ref_swap_tri_edge_keeps_surface SwapExample.grid 0 1); [exact Hg|exact (SurfaceExample.octahedron_sim _ SwapExample.axis_mesh_ok)|
    exact (mo_distinct _ SwapExample.axis_mesh_ok)|exact SwapExample.axis_proper_tris|vm_compute; reflexivity|vm_compute; reflexivity].
Defined.
